(* ===== verification/_CoqProject ===== *)
-Q . S2P
Prelude.v
Text.v
Json.v
Messages.v
Sessions.v
Dispatch.v
Approval.v
Hooks.v
Redact.v
ToolLoop.v
LlmErrors.v
CliCooldown.v
Cooldown.v
LlmRetry.v
Thinking.v
Compressor.v
History.v
Budget.v
Parallel.v
StreamRegistry.v
Patch.v
Files.v
Workspace.v
Uploads.v
RateLimit.v
Auth.v
Ssrf.v
Execute.v
ExecuteSpec.v
YamlTools.v
Jobs.v
FileHandlers.v
Commands.v
Access.v
ChannelTurns.v
Clarify.v
Outbound.v
ModelText.v
Goals.v
Plans.v
Subagents.v
Sse.v
