(* ===== verification/Prelude.v ===== *)
(** * OPEX: a verification library for the agent core

    OPEX is a server that runs LLM agents: it takes messages from channels
    and a web client, keeps sessions in PostgreSQL, calls a model in a loop
    with tools, and streams what happens to its clients.  This library models
    the core of that server, the crates [opex-core], [opex-db],
    [opex-gateway-util] and [opex-types] under [src/crates], as functions
    that can be evaluated, and proves what makes it correct.  Paths below are
    relative to [src/crates/opex-core/src] unless they name another crate.

    ** How the parts work together

    A request first passes the gateway: [Auth] decides whether it reaches a
    handler, with the limiters of [RateLimit]; signed links are those of
    [Uploads].  Users of a channel are let in by [Access]; their messages wait
    in the queues of [ChannelTurns], and what the server sends to an adapter
    goes through [Outbound].  A message claims a session in [Sessions] and
    starts a turn, which may ask its user a question ([Clarify]).
    The turn is [Execute]: it compacts its history when the trigger of
    [Compressor] says so ([History], with the budget helpers of [Budget]),
    calls the model through the retry layers of [LlmRetry] (errors are
    classified by [LlmErrors]; broken providers are skipped by [Cooldown] and
    [CliCooldown]), filters thinking out of the stream ([Thinking]), and gives
    the tool calls of an answer to [Parallel].  A batch passes the policy gate
    of [Dispatch] and the loop detector of [ToolLoop]; each call then passes
    the owner's approval ([Approval]) and the hooks ([Hooks]).  File tools work
    on [Workspace] over the paths and files of [Files], patches through
    [Patch]; requests to the network pass [Ssrf].  The events of a turn
    become frames in [Sse] and are kept for late readers by [StreamRegistry], and at its end the guard of
    [Sessions] records how it went.

    Tools an operator describes in YAML are [YamlTools] (what they return is
    masked by [Redact]).  A file or a link that arrives is offered the handlers
    of [FileHandlers], which a click, a command ([Commands]) or the model
    starts; slow ones become jobs of [Jobs], whose runners report back.  An
    agent with a goal is kept at work by the driver of [Goals], turn after
    turn, until a judge (whose answer [ModelText] reads) says it is reached;
    goals and plans for the day that an agent thinks of itself wait in [Plans]
    for their owner.  Agents ask other agents through the pools of
    [Subagents].

    ** Files and sources

    - [Prelude]: bytes and strings of Rust ([str] is a list of bytes), lines,
      trimming, UTF-8 boundaries, decimal and hexadecimal numbers, machine
      integers, binary64, [result] with its monad, list search, tactics and
      the hint database of the library.
    - [Json]: the interface of [serde_json::Value] (classes [Json],
      [JsonLaws], [JsonArrays], [JsonEntries], [JsonText]) and the value types
      [Jv] and [JvText] the witnesses use.
    - [Messages]: [opex-types/src/lib.rs], [agent/stream_event.rs].
    - [Sessions]: [opex-db/src/sessions.rs], [session_status.rs],
      [reentry_mode.rs], [session_timeline.rs], [agent/session_manager.rs],
      [gateway/stream_jobs.rs], the startup loop of [main.rs].
    - [Dispatch]: [agent/pipeline/dispatch.rs], [agent/channel_kind.rs],
      [agent/dispatcher/].
    - [Approval]: [agent/approval_manager.rs], [agent/pipeline/approval.rs],
      [opex-db/src/approvals.rs], the gate of [agent/engine_dispatch.rs].
    - [Hooks]: [agent/hooks.rs] and the calls of [agent/engine_dispatch.rs]
      and [agent/pipeline/bootstrap.rs].
    - [ToolLoop]: [agent/tool_loop.rs], [agent/pipeline/tool_loop_helpers.rs].
    - [LlmErrors], [CliCooldown], [Cooldown]: [agent/providers/error.rs],
      [agent/error_classify.rs], [agent/localization.rs],
      [agent/cli_backend/], [agent/provider_cooldown.rs].
    - [LlmRetry]: [agent/pipeline/llm_call.rs].
    - [Thinking]: [agent/thinking.rs].  [Compressor]: [agent/compressor.rs].
    - [History], [Budget]: [agent/history.rs], [agent/pipeline/context.rs],
      [agent/provenance.rs].
    - [Parallel]: [agent/pipeline/parallel.rs].
    - [Execute], [ExecuteSpec]: [agent/pipeline/execute.rs],
      [agent/pipeline/behaviour.rs].
    - [StreamRegistry]: [gateway/stream_registry.rs].
    - [Patch]: [agent/v4a_patch.rs].  [Files], [Workspace]:
      [agent/workspace.rs], [tools/code_smell.rs].
    - [Uploads]: [uploads.rs].  [Auth]: [gateway/middleware.rs],
      [gateway/handlers/auth.rs].  [Ssrf]: [net/ssrf.rs].
    - [RateLimit]: [opex-gateway-util/src/rate_limiter.rs].
    - [Text]: search and replacement in text.  [Redact]: [redact.rs].
    - [YamlTools]: [tools/yaml_tools.rs], and the credential rules of
      [secrets.rs].
    - [Jobs]: [opex-db/src/handler_jobs.rs], [agent/file_handler_worker.rs],
      [agent/file_scenario/], the job callbacks of
      [gateway/handlers/files.rs].
    - [FileHandlers]: [agent/handler_registry.rs], [agent/fse/],
      [agent/file_handler_sync.rs], the menus of [gateway/handlers/files.rs].
    - [Commands]: [agent/commands/].
    - [Access]: [channels/access.rs], [db/access.rs],
      [gateway/handlers/access.rs], the access and pairing frames of
      [gateway/handlers/channel_ws/inline.rs].
    - [ChannelTurns]: [gateway/handlers/channel_ws/] (reader, types,
      session_queue, tear down).  [Clarify]: [agent/clarify_manager.rs],
      [agent/tool_handlers/clarify.rs], [gateway/handlers/clarify.rs], the
      clarify callbacks of [inline.rs].
    - [Outbound]: [db/outbound.rs], [agent/channel_actions.rs], the action
      frames of [gateway/handlers/channel_ws/].
    - [ModelText]: [agent/json_repair.rs], [agent/soul/sanitize.rs], the
      verdict of [agent/goal/mod.rs].  [Goals]: [agent/goal/],
      [db/session_goals.rs], the goal command of
      [agent/pipeline/commands.rs], the restart code of [main.rs].
    - [Plans]: [db/agent_plans.rs], [agent/initiative/],
      [gateway/handlers/agents/initiative.rs].
    - [Subagents]: [agent/pipeline/agent_tool.rs], [subagent.rs],
      [subagent_runner.rs], [agent/session_agent_pool.rs].
    - [Sse]: [agent/engine_event_sender.rs], [gateway/sse/coalescer.rs],
      [gateway/handlers/chat/] (sse_converter, sse_writer, streaming_db,
      stream), [gateway/handlers/cancel_grace.rs], [opex-types/src/sse.rs].

    ** Style of the models

    Pure functions are functions.  Code that mutates is a function on a
    record, or runs in a small monad: [Execute] and [Workspace] have a
    state-and-error monad each, with a program logic on top where the proofs
    need one ([ExecuteSpec.lwp]).  Concurrent code is a step function over the
    shared state whose actions are what one party does between two suspension
    points, and runs are lists of actions in any order ([Approval],
    [StreamRegistry], [Jobs], [Access], [ChannelTurns], [Clarify], [Outbound],
    [Goals], [Plans], [Subagents], [Sse]).
    Errors are values of [result] or [option]; an index out of range or an
    overflow that panics is [None] or an exit.  Integers are [Z] with the
    saturation or wrap-around of the source written out, or [nat] for counters
    the code never brings near its bounds.

    ** What the theorems show

    - Protocols and state machines: the trace of a turn follows the event
      protocol whatever the model and the tools do, calls and results are
      paired, recoveries are bounded ([ExecuteSpec]); a session's status moves
      along its machine, a turn ends with the right status, interrupted turns
      are repaired and the startup loop ends ([Sessions]); an approval is
      decided once, is honoured only as it was decided, and every request
      comes back ([Approval]); streams replay completely ([StreamRegistry]);
      a reader sees what the engine said and is told its end, and the stored
      answer is whole ([Sse]).
    - Safety: no tool runs past the policy gate, the approval and the hooks
      ([Parallel], [Dispatch], [Hooks]); writes stay inside the workspace
      where no link dangles, and a patch is applied in memory before it is
      written ([Workspace]); only valid credentials pass ([Auth]), only
      paired users are let in ([Access]); no request goes to an
      internal address ([Ssrf]); a signature fits one use only ([Uploads]).
    - Channels: the messages of a session are handled in the order they were
      queued and each is answered ([ChannelTurns]), an answer to a question is heard
      ([Clarify]), no queued action is lost ([Outbound]).
    - Goals: of the turns that take the lock of a session one is at work at a
      time, and a driver left to itself works through a plan in order and
      within its turns ([Goals]);
      proposals and day plans are decided once, and nothing of them runs before
      ([Plans]).
    - Subagents: each caller gets the answer to its own question, a question
      that waits comes back, direct calls delegate no deeper than the agents
      allow, and the conversation of a subagent ends ([Subagents]).
    - Handlers: only offered ones run ([FileHandlers]), their jobs are bounded,
      end, and are announced once ([Jobs]).
    - Functional behaviour against a specification: glob matching, hunks,
      compaction, history windows of the loop detector, address classes.
    - Round trips, bounds and termination: patches print and parse, retry
      layers return.

    Where the code does something else than it says, the theorem states what
    it does.

    ** Bounds and fuel

    The loops of [Thinking] consume their text, so its length is enough fuel.
    The deadline layer of [LlmRetry] makes at most ten attempts; the turn
    makes at most [effective_max_iterations] iterations and its recursion is
    on the number left.  The registry holds 50 streams of 10000 events.  Path
    resolution follows at most 40 links.  The startup loop is given one round
    more than there are sessions to visit, and is proved to end within it.
    Numbers are printed with enough digits for their size.

    ** Parameters

    What lies outside the repository is an argument: hash functions, MACs and
    encodings ([Uploads]), regular expressions ([LlmErrors], [Budget], [Hooks],
    [ModelText]), the scan of [tools/content_security.rs] ([ModelText], [Plans]),
    the JSON library ([Json]), Unicode case tables ([Thinking]), the URL parser
    and DNS ([Ssrf]), the model, the tools, the clock and the sink ([LlmRetry],
    [Parallel], [Execute]).  Their documented laws are hypotheses of the
    theorems that need them, and each such theorem has a witness with concrete
    functions.  PostgreSQL is modelled by functions on tables for the
    statements of [Sessions], [Approval] and [StreamRegistry].

    ** Not modelled

    Provider wire formats and OAuth, prompt assembly, SQL search and vectors,
    memory and skills (prompts to a model), containers, MCP and LSP clients,
    REST handlers, metrics, configuration parsing, and everything outside the
    Rust crates.  Within modelled files: logging, metrics, notifications to
    the UI and the audit log.  Left for later: the watchdog, the scheduler. *)

From Stdlib Require Import Sorted.
From stdpp Require Export base tactics list option gmap strings pretty.
From Stdlib Require Export Ascii ZArith Lia SpecFloat.

(** ** Text

    A Rust [String] is the sequence of its UTF-8 bytes; a byte is an [ascii],
    that is eight bits.  Lengths and positions are byte counts, as in Rust. *)
Abbreviation str := (list ascii).

(** The bytes of a literal of the source. *)
Definition bs (s : string) : str := String.list_ascii_of_string s.

(** [format!("{n}")] for an unsigned integer. *)
Definition dec (n : nat) : str := bs (pretty n).

(** [format!("{n}")] for an integer. *)
Definition decZ (z : Z) : str := bs (pretty z).

(** The line feed of ['\n']. *)
Definition LF : ascii := ascii_of_nat 10.

(** The double quote, and a text between double quotes. *)
Definition DQ : ascii := ascii_of_nat 34.
Definition quoted (s : string) : str := DQ :: bs s ++ [DQ].

(** [str::starts_with] *)
Fixpoint starts_with (p s : str) : bool :=
  match p, s with
  | [], _ => true
  | c :: p', d :: s' => bool_decide (c = d) && starts_with p' s'
  | _ :: _, [] => false
  end.

(** [str::strip_prefix] *)
Definition strip_prefix (p s : str) : option str :=
  if starts_with p s then Some (drop (length p) s) else None.

(** [str::ends_with] *)
Definition ends_with (p s : str) : bool :=
  starts_with (reverse p) (reverse s).

(** The first position whose suffix satisfies [f]; the common part of
    [str::find] and of [windows(n).position(..)]. *)
Fixpoint find_suffix (f : str → bool) (s : str) : option nat :=
  if f s then Some 0 else
  match s with
  | [] => None
  | _ :: s' => S <$> find_suffix f s'
  end.

(** The last such position ([str::rfind]). *)
Fixpoint rfind_suffix (f : str → bool) (s : str) : option nat :=
  match s with
  | [] => if f [] then Some 0 else None
  | _ :: s' =>
      match rfind_suffix f s' with
      | Some i => Some (S i)
      | None => if f s then Some 0 else None
      end
  end.

Definition find_sub (p s : str) : option nat := find_suffix (starts_with p) s.
Definition find_char (c : ascii) (s : str) : option nat := find_sub [c] s.
Definition rfind_char (c : ascii) (s : str) : option nat :=
  rfind_suffix (starts_with [c]) s.
Definition contains (p s : str) : bool :=
  match find_sub p s with Some _ => true | None => false end.

(** [u8::to_ascii_lowercase] and [eq_ignore_ascii_case] *)
Definition lower (c : ascii) : ascii :=
  let n := nat_of_ascii c in
  if (65 <=? n) && (n <=? 90) then ascii_of_nat (n + 32) else c.
Definition to_ascii_lowercase (s : str) : str := lower <$> s.
Definition eq_ignore_case (s t : str) : bool :=
  bool_decide (to_ascii_lowercase s = to_ascii_lowercase t).
(** Whether a window that begins at [s] equals [p], case ignored. *)
Definition starts_with_ci (p s : str) : bool :=
  starts_with (to_ascii_lowercase p) (to_ascii_lowercase s).
Definition find_sub_ci (p s : str) : option nat := find_suffix (starts_with_ci p) s.

Definition is_ascii_alphabetic (c : ascii) : bool :=
  let n := nat_of_ascii c in
  ((65 <=? n) && (n <=? 90)) || ((97 <=? n) && (n <=? 122)).
Definition is_ascii_digit (c : ascii) : bool :=
  let n := nat_of_ascii c in (48 <=? n) && (n <=? 57).
Definition is_ascii_alphanumeric (c : ascii) : bool :=
  is_ascii_alphabetic c || is_ascii_digit c.

(** [str::split(c)]: never the empty list. *)
Fixpoint split_on (c : ascii) (s : str) : list str :=
  match s with
  | [] => [[]]
  | d :: s' =>
      if bool_decide (d = c) then [] :: split_on c s'
      else match split_on c s' with
           | x :: r => (d :: x) :: r
           | [] => [[d]]
           end
  end.

(** [slice::join] *)
Fixpoint join (sep : str) (l : list str) : str :=
  match l with
  | [] => []
  | [x] => x
  | x :: r => x ++ sep ++ join sep r
  end.

(** [str::lines]: the terminators ["\n"] and ["\r\n"] are dropped, and so is an
    empty last line. *)
Definition strip_cr (l : str) : str :=
  match rev l with c :: r => if bool_decide (c = ascii_of_nat 13) then rev r else l | [] => l end.
Fixpoint line_list (parts : list str) : list str :=
  match parts with
  | [] => []
  | [x] => if bool_decide (x = []) then [] else [x]
  | x :: r => strip_cr x :: line_list r
  end.
Definition lines (s : str) : list str := line_list (split_on LF s).

(** *** White space

    [str::trim] removes the characters with the Unicode property
    White_Space; these are their UTF-8 encodings. *)
Definition byte_seq (l : list nat) : str := ascii_of_nat <$> l.
Definition ws_chars : list str :=
  byte_seq <$> ([ [9]; [10]; [11]; [12]; [13]; [32];
                  [194; 133]; [194; 160]; [225; 154; 128];
                  [226; 128; 128]; [226; 128; 129]; [226; 128; 130]; [226; 128; 131];
                  [226; 128; 132]; [226; 128; 133]; [226; 128; 134]; [226; 128; 135];
                  [226; 128; 136]; [226; 128; 137]; [226; 128; 138];
                  [226; 128; 168]; [226; 128; 169]; [226; 128; 175];
                  [226; 129; 159]; [227; 128; 128] ]).

(** Remove patterns from the front as long as one matches. *)
Fixpoint strip_all (pats : list str) (fuel : nat) (s : str) : str :=
  match fuel with
  | O => s
  | S fuel' =>
      match List.find (λ w, starts_with w s) pats with
      | Some w => strip_all pats fuel' (drop (length w) s)
      | None => s
      end
  end.
Definition trim_start (s : str) : str := strip_all ws_chars (length s) s.
Definition trim_end (s : str) : str :=
  reverse (strip_all (reverse <$> ws_chars) (length s) (reverse s)).
Definition trim (s : str) : str := trim_end (trim_start s).

(** *** Characters

    A byte starts a character unless it is a continuation byte 10xxxxxx. *)
Definition is_char_start (c : ascii) : bool :=
  let n := nat_of_ascii c in negb ((128 <=? n) && (n <? 192)).
(** [s.chars().count()] *)
Definition char_count (s : str) : nat := length (filter is_char_start s).
(** [s.chars().take(n).collect()] *)
Fixpoint take_chars (n : nat) (s : str) : str :=
  match s with
  | [] => []
  | c :: s' =>
      if is_char_start c
      then match n with O => [] | S n' => c :: take_chars n' s' end
      else c :: take_chars n s'
  end.
(** [str::floor_char_boundary] *)
Fixpoint floor_char_boundary (s : str) (n : nat) : nat :=
  if length s <=? n then length s else
  match n with
  | O => O
  | S n' => match s !! n with
            | Some c => if is_char_start c then n else floor_char_boundary s n'
            | None => length s
            end
  end.

(** ** Results *)

(** [Result<A, E>]; [?] is the bind of the monad. *)
Inductive result (E A : Type) : Type :=
| Ok (a : A)
| Err (e : E).
Arguments Ok {E A} a.
Arguments Err {E A} e.

#[export] Instance result_ret {E} : MRet (result E) := λ A a, Ok a.
#[export] Instance result_bind {E} : MBind (result E) := λ A B f m,
  match m with Ok a => f a | Err e => Err e end.
#[export] Instance result_fmap {E} : FMap (result E) := λ A B f m,
  match m with Ok a => Ok (f a) | Err e => Err e end.

Definition ok_or {E A} (e : E) (o : option A) : result E A :=
  match o with Some a => Ok a | None => Err e end.
Definition is_ok {E A} (r : result E A) : bool :=
  match r with Ok _ => true | Err _ => false end.

(** ** Machine integers

    An unsigned [w]-bit value is a [Z] in [0 .. 2^w - 1]. *)
Definition umax (w : Z) : Z := 2 ^ w - 1.
Definition in_u (w z : Z) : Prop := (0 <= z <= umax w)%Z.
Definition sat_add (w a b : Z) : Z := Z.min (umax w) (a + b).
Definition sat_sub (a b : Z) : Z := Z.max 0 (a - b).
Definition sat_mul (w a b : Z) : Z := Z.min (umax w) (a * b).
Definition wrap (w a : Z) : Z := (a mod 2 ^ w)%Z.

(** *** Hexadecimal numbers *)

(** [format!("{:x}")] *)
Definition hex_digit (n : Z) : ascii :=
  ascii_of_nat (Z.to_nat (if (n <? 10)%Z then 48 + n else 87 + n)%Z).
Fixpoint hex_digits (fuel : nat) (n : Z) : str :=
  match fuel with
  | O => [hex_digit n]
  | S fuel' => if (n <? 16)%Z then [hex_digit n]
               else hex_digits fuel' (n / 16) ++ [hex_digit (n mod 16)]
  end.
Definition hex (n : Z) : str := hex_digits 15 n.

(** [char::to_digit(16)] *)
Definition hex_val (c : ascii) : option Z :=
  let n := Z.of_nat (nat_of_ascii c) in
  if (48 <=? n)%Z && (n <=? 57)%Z then Some (n - 48)%Z
  else if (97 <=? n)%Z && (n <=? 102)%Z then Some (n - 87)%Z
  else if (65 <=? n)%Z && (n <=? 70)%Z then Some (n - 55)%Z
  else None.

(** [u64::from_str_radix(s, 16)]: an optional [+], then digits, no overflow. *)
Definition hex_step (acc : option Z) (c : ascii) : option Z :=
  a ← acc; d ← hex_val c;
  if (a * 16 + d <=? umax 64)%Z then Some (a * 16 + d)%Z else None.
Definition parse_hex (s : str) : option Z :=
  let digits := default s (strip_prefix (bs "+") s) in
  if bool_decide (digits = []) then None else foldl hex_step (Some 0%Z) digits.

(** [str::parse] of an unsigned [w]-bit integer. *)
Definition dec_step (w : Z) (acc : option Z) (c : ascii) : option Z :=
  a ← acc;
  if is_ascii_digit c then
    let v := (a * 10 + (Z.of_nat (nat_of_ascii c) - 48))%Z in
    if (v <=? umax w)%Z then Some v else None
  else None.
Definition parse_dec (w : Z) (s : str) : option Z :=
  let digits := default s (strip_prefix (bs "+") s) in
  if bool_decide (digits = []) then None else foldl (dec_step w) (Some 0%Z) digits.

(** *** Floating point

    An [f64] is a binary64 number of the kernel's specification; arithmetic
    rounds to nearest even, as in Rust. *)
Abbreviation f64 := spec_float.
Definition f64_of_Z (n : Z) : f64 := binary_normalize 53 1024 n 0 false.
Definition f64_mul (a b : f64) : f64 := SFmul 53 1024 a b.
Definition f64_add (a b : f64) : f64 := SFadd 53 1024 a b.
Definition f64_sub (a b : f64) : f64 := SFsub 53 1024 a b.
Definition f64_div (a b : f64) : f64 := SFdiv 53 1024 a b.
Definition f64_lt (a b : f64) : bool := SFltb a b.
Definition f64_min (a b : f64) : f64 := if f64_lt b a then b else a.
(** A rational literal of the source, correctly rounded when both parts are
    exactly representable. *)
Definition f64_lit (num den : Z) : f64 := f64_div (f64_of_Z num) (f64_of_Z den).
(** [f as u64]: truncation, saturating; a NaN becomes 0. *)
Definition f64_to_u (w : Z) (f : f64) : Z :=
  match f with
  | S754_finite false m e => Z.min (umax w) (Z.shiftl (Zpos m) e)
  | S754_infinity false => umax w
  | _ => 0
  end%Z.

(** *** Positions: [iter().position] and [iter().rposition] *)
Fixpoint position {A} (f : A → bool) (l : list A) : option nat :=
  match l with
  | [] => None
  | x :: r => if f x then Some 0 else S <$> position f r
  end.

Fixpoint rposition {A} (f : A → bool) (l : list A) : option nat :=
  match l with
  | [] => None
  | x :: r => match rposition f r with
              | Some i => Some (S i)
              | None => if f x then Some 0 else None
              end
  end.

(** *** Order and sorting *)

(** The order of [String]: bytes from the left. *)
Fixpoint str_leb (a b : str) : bool :=
  match a, b with
  | [], _ => true
  | _ :: _, [] => false
  | c :: a', d :: b' =>
      if nat_of_ascii c <? nat_of_ascii d then true
      else if nat_of_ascii d <? nat_of_ascii c then false else str_leb a' b'
  end.
(** Stable insertion: [x] goes before the first element it does not come after. *)
Fixpoint insert_by {A} (after : A → A → bool) (x : A) (l : list A) : list A :=
  match l with
  | [] => [x]
  | y :: l' => if after x y then y :: insert_by after x l' else x :: l
  end.
(** [sort_by]: [lt x y]: [x] is smaller than [y]; equal elements keep their order. *)
Definition sort_by {A} (lt : A → A → bool) (l : list A) : list A :=
  foldr (insert_by (λ x y, lt y x)) [] l.

(** ** Tactics *)

(** Case analysis on the boolean test or the match that blocks the goal. *)
Ltac case_if :=
  match goal with
  | |- context [if ?b then _ else _] => let H := fresh "Hif" in destruct b eqn:H
  | H0 : context [if ?b then _ else _] |- _ => let H := fresh "Hif" in destruct b eqn:H
  end.

(** Turn the boolean tests of the context into propositions. *)
Ltac bool_hyps :=
  repeat match goal with
  | H : (_ && _) = true |- _ => apply andb_prop in H as [? ?]
  | H : (_ || _) = false |- _ => apply orb_false_elim in H as [? ?]
  | H : negb _ = true |- _ => apply negb_true_iff in H
  | H : negb _ = false |- _ => apply negb_false_iff in H
  | H : bool_decide _ = true |- _ => apply bool_decide_eq_true in H
  | H : bool_decide _ = false |- _ => apply bool_decide_eq_false in H
  | H : (_ <=? _) = true |- _ => apply Nat.leb_le in H
  | H : (_ <=? _) = false |- _ => apply Nat.leb_gt in H
  | H : (_ <? _) = true |- _ => apply Nat.ltb_lt in H
  | H : (_ <? _) = false |- _ => apply Nat.ltb_ge in H
  | H : (_ =? _) = true |- _ => apply Nat.eqb_eq in H
  | H : (_ =? _) = false |- _ => apply Nat.eqb_neq in H
  | H : (_ <=? _)%Z = true |- _ => apply Z.leb_le in H
  | H : (_ <=? _)%Z = false |- _ => apply Z.leb_gt in H
  | H : (_ <? _)%Z = true |- _ => apply Z.ltb_lt in H
  | H : (_ <? _)%Z = false |- _ => apply Z.ltb_ge in H
  | H : (_ =? _)%Z = true |- _ => apply Z.eqb_eq in H
  | H : (_ =? _)%Z = false |- _ => apply Z.eqb_neq in H
  end.

Ltac cases_if := repeat (case_if; simpl in *); bool_hyps.

Create HintDb rust.
Create Rewrite HintDb rust.

(** ** Lemmas on text *)

Lemma starts_with_spec p s : starts_with p s = true ↔ p `prefix_of` s.
Proof.
  revert s. induction p as [|c p IH]; intros s; simpl.
  - split; [|done]. intros _. apply prefix_nil.
  - destruct s as [|d s].
    + split; [done|]. intros H. by apply prefix_nil_not in H.
    + rewrite andb_true_iff, bool_decide_eq_true, IH. split.
      * intros [-> ?]. by apply prefix_cons.
      * intros H. split; [by apply prefix_cons_inv_1 in H|by apply prefix_cons_inv_2 in H].
Qed.

Lemma ends_with_spec p s : ends_with p s = true ↔ p `suffix_of` s.
Proof.
  unfold ends_with. rewrite starts_with_spec. split.
  - intros H. by apply suffix_prefix_reverse.
  - intros H. by apply suffix_prefix_reverse in H.
Qed.

Lemma starts_with_app p s : starts_with p (p ++ s) = true.
Proof. apply starts_with_spec. by exists s. Qed.

Lemma ends_with_app p s : ends_with p (s ++ p) = true.
Proof. apply ends_with_spec. by exists s. Qed.

Lemma starts_with_refl p : starts_with p p = true.
Proof. apply starts_with_spec. done. Qed.

Lemma starts_with_length p s : starts_with p s = true → length p ≤ length s.
Proof. rewrite starts_with_spec. apply prefix_length. Qed.

Lemma starts_with_split p s :
  starts_with p s = true → s = p ++ drop (length p) s.
Proof. rewrite starts_with_spec. intros [k ->]. by rewrite drop_app_length. Qed.

Lemma strip_prefix_Some p s r : strip_prefix p s = Some r ↔ s = p ++ r.
Proof.
  unfold strip_prefix. split.
  - case_match; intros; simplify_eq. by apply starts_with_split.
  - intros ->. by rewrite starts_with_app, drop_app_length.
Qed.

Lemma strip_prefix_None p s : strip_prefix p s = None ↔ starts_with p s = false.
Proof. unfold strip_prefix. by destruct (starts_with p s). Qed.

Lemma find_suffix_Some f s i :
  find_suffix f s = Some i ↔
  i ≤ length s ∧ f (drop i s) = true ∧ ∀ j, j < i → f (drop j s) = false.
Proof.
  revert i. induction s as [|c s IH]; intros i; simpl.
  - destruct (f []) eqn:Hf; split.
    + intros ?; simplify_eq. split_and!; [done|done|lia].
    + intros (? & _ & _). by destruct i; [|lia].
    + done.
    + intros (? & H & _). destruct i; simpl in H; congruence.
  - destruct (f (c :: s)) eqn:Hf.
    + split.
      * intros ?; simplify_eq. split_and!; [lia|done|lia].
      * intros (_ & _ & H). destruct i as [|i]; [done|].
        specialize (H 0 ltac:(lia)). simpl in H. congruence.
    + rewrite fmap_Some. setoid_rewrite IH. split.
      * intros (k & (? & ? & Hk) & ->). split_and!; [lia|done|].
        intros [|j] ?; [done|]. simpl. apply Hk. lia.
      * intros (? & Hi & Hj). destruct i as [|i]; [simpl in Hi; congruence|].
        exists i. split_and!; [lia|done| |done].
        intros j ?. apply (Hj (S j)). lia.
Qed.

Lemma find_suffix_None f s :
  find_suffix f s = None ↔ ∀ j, j ≤ length s → f (drop j s) = false.
Proof.
  induction s as [|c s IH]; simpl.
  - destruct (f []) eqn:Hf; split; [done| |intros _ j ?|done].
    + intros H. specialize (H 0 ltac:(lia)). simpl in H. congruence.
    + by destruct j; [|lia].
  - destruct (f (c :: s)) eqn:Hf.
    + split; [done|]. intros H. specialize (H 0 ltac:(lia)). simpl in H. congruence.
    + rewrite fmap_None, IH. split.
      * intros H [|j] ?; [done|]. apply H. lia.
      * intros H j ?. apply (H (S j)). lia.
Qed.

Lemma find_sub_Some p s i :
  find_sub p s = Some i →
  s = take i s ++ p ++ drop (i + length p) s ∧ i + length p ≤ length s.
Proof.
  intros (Hi & Hp & _)%find_suffix_Some. split.
  - apply starts_with_split in Hp. rewrite drop_drop in Hp. by rewrite <-Hp, take_drop.
  - apply starts_with_length in Hp. rewrite length_drop in Hp. lia.
Qed.

Lemma find_sub_first p s i j :
  find_sub p s = Some i → j < i → starts_with p (drop j s) = false.
Proof. intros (_ & _ & H)%find_suffix_Some. apply H. Qed.

Lemma contains_spec p s : contains p s = true ↔ ∃ a b, s = a ++ p ++ b.
Proof.
  unfold contains. destruct (find_sub p s) as [i|] eqn:H.
  - split; [|done]. intros _. apply find_sub_Some in H as [H _]. eauto.
  - split; [done|]. intros (a & b & ->).
    assert (starts_with p (drop (length a) (a ++ p ++ b)) = false) as Hc.
    { eapply find_suffix_None; [apply H|]. rewrite !length_app. lia. }
    rewrite drop_app_length, starts_with_app in Hc. done.
Qed.

(** Splitting and joining lines are inverse. *)
Lemma split_on_ne c s : split_on c s ≠ [].
Proof. destruct s; simpl; [done|]. repeat case_match; done. Qed.

Lemma join_split c s : join [c] (split_on c s) = s.
Proof.
  induction s as [|d s IH]; simpl; [done|].
  pose proof (split_on_ne c s). destruct (split_on c s) as [|x r] eqn:E; [done|].
  case_bool_decide as Hd; [subst d|].
  - change (join [c] ([] :: x :: r)) with ([c] ++ join [c] (x :: r)). by rewrite IH.
  - destruct r as [|y r]; simpl in *; by rewrite IH.
Qed.

Lemma split_on_nosep c x : c ∉ x → split_on c x = [x].
Proof.
  induction x as [|d x IH]; [done|]. rewrite not_elem_of_cons. intros [? ?].
  simpl. rewrite bool_decide_eq_false_2 by done. by rewrite IH.
Qed.

Lemma split_on_app c x s :
  c ∉ x → split_on c (x ++ c :: s) = x :: split_on c s.
Proof.
  induction x as [|d x IH]; simpl.
  - by rewrite bool_decide_eq_true_2.
  - rewrite not_elem_of_cons. intros [? ?].
    rewrite bool_decide_eq_false_2 by done. by rewrite IH.
Qed.

Lemma split_join c l :
  l ≠ [] → Forall (λ x, c ∉ x) l → split_on c (join [c] l) = l.
Proof.
  intros Hne Hl. induction Hl as [|x l Hx Hl IH]; [done|].
  destruct l as [|y l]; [by apply split_on_nosep|].
  change (join [c] (x :: y :: l)) with (x ++ c :: join [c] (y :: l)).
  rewrite split_on_app by done. by rewrite IH.
Qed.

Lemma split_on_no_sep_elems c s : Forall (λ x, c ∉ x) (split_on c s).
Proof.
  induction s as [|d s IH]; simpl.
  - constructor; [|constructor]. by apply not_elem_of_nil.
  - case_bool_decide; [constructor; [by apply not_elem_of_nil|done]|].
    destruct IH as [|x r Hx Hr]; repeat constructor; set_solver.
Qed.

(** ** Lemmas on lists *)

Lemma find_Some_elem {A} (f : A → bool) l x :
  List.find f l = Some x → x ∈ l ∧ f x = true.
Proof. intros H%List.find_some. by rewrite list_elem_of_In. Qed.

Lemma existsb_elem {A} (f : A → bool) l :
  existsb f l = true ↔ ∃ x, x ∈ l ∧ f x = true.
Proof. rewrite existsb_exists. by setoid_rewrite list_elem_of_In. Qed.

Lemma forallb_elem {A} (f : A → bool) l :
  forallb f l = true ↔ ∀ x, x ∈ l → f x = true.
Proof. rewrite forallb_forall. by setoid_rewrite list_elem_of_In. Qed.

Lemma rposition_Some {A} (f : A → bool) l i :
  rposition f l = Some i →
  ∃ x, l !! i = Some x ∧ f x = true ∧ ∀ j y, i < j → l !! j = Some y → f y = false.
Proof.
  revert i. induction l as [|x l IH]; intros i; simpl; [done|].
  destruct (rposition f l) as [k|] eqn:Hl.
  - intros [= <-]. destruct (IH k eq_refl) as (y & ? & ? & Hlast). exists y.
    split_and!; [done|done|]. intros [|j] z ? ?; [lia|]. apply (Hlast j); [lia|done].
  - destruct (f x) eqn:Hx; [|done]. intros [= <-]. exists x. split_and!; [done|done|].
    intros [|j] y ? Hy; [lia|]. simpl in Hy. clear -Hl Hy.
    revert j Hy. induction l as [|z l IH]; intros j Hy; [done|]. simpl in Hl.
    destruct (rposition f l); [done|]. destruct (f z) eqn:Hz; [done|].
    destruct j; simplify_eq/=; [done|]. by apply (IH eq_refl j).
Qed.

Lemma rposition_None {A} (f : A → bool) l j y :
  rposition f l = None → l !! j = Some y → f y = false.
Proof.
  revert j. induction l as [|z l IH]; intros j Hl Hy; [done|]. simpl in Hl.
  destruct (rposition f l); [done|]. destruct (f z) eqn:Hz; [done|].
  destruct j; simplify_eq/=; [done|]. by apply (IH j).
Qed.

Lemma rposition_last {A} (f : A → bool) l x :
  f x = true → rposition f (l ++ [x]) = Some (length l).
Proof. intros Hx. induction l as [|y l IH]; simpl; [by rewrite Hx|by rewrite IH]. Qed.

Lemma insert_by_perm {A} (after : A → A → bool) x l : insert_by after x l ≡ₚ x :: l.
Proof. induction l as [|y l IH]; cbn; [done|]. destruct (after x y); [|done]. rewrite IH. constructor. Qed.
Lemma sort_by_perm {A} (lt : A → A → bool) l : sort_by lt l ≡ₚ l.
Proof. induction l as [|x l IH]; [done|]. unfold sort_by in *. cbn. by rewrite insert_by_perm, IH. Qed.
Lemma sort_by_sorted {A} (lt : A → A → bool) l :
  (∀ x y, lt x y = true → lt y x = false) →
  (∀ x y z, lt y x = false → lt z y = false → lt z x = false) →
  StronglySorted (λ x y, lt y x = false) (sort_by lt l).
Proof.
  intros Hasym Htrans. induction l as [|x l IH]; [constructor|]. unfold sort_by in *. cbn.
  induction IH as [|y l' Hl IHl Hy]; [by repeat constructor|]. cbn. destruct (lt y x) eqn:Hlt.
  - constructor; [done|]. apply List.Forall_forall. intros z Hz%list_elem_of_In. rewrite insert_by_perm in Hz.
    apply elem_of_cons in Hz as [->|Hz]; [by apply Hasym|]. rewrite List.Forall_forall in Hy. by apply Hy, list_elem_of_In.
  - constructor; [by constructor|]. constructor; [done|]. eapply List.Forall_impl; [|exact Hy]. intros z Hz. by eapply Htrans.
Qed.

Lemma str_leb_refl a : str_leb a a = true.
Proof. induction a as [|c a IH]; [done|]. cbn [str_leb]. by rewrite Nat.ltb_irrefl. Qed.
Lemma str_leb_total a b : str_leb a b = true ∨ str_leb b a = true.
Proof.
  revert b. induction a as [|c a IH]; intros [|d b]; cbn [str_leb]; auto.
  destruct (Nat.ltb_spec (nat_of_ascii c) (nat_of_ascii d)); [auto|].
  destruct (Nat.ltb_spec (nat_of_ascii d) (nat_of_ascii c)); auto.
Qed.
Lemma str_leb_antisym a b : str_leb a b = true → str_leb b a = true → a = b.
Proof.
  revert b. induction a as [|c a IH]; intros [|d b]; cbn [str_leb]; try done.
  destruct (Nat.ltb_spec (nat_of_ascii c) (nat_of_ascii d)), (Nat.ltb_spec (nat_of_ascii d) (nat_of_ascii c)); try done; try lia.
  intros Ha Hb. assert (nat_of_ascii c = nat_of_ascii d) as Hcd by lia.
  f_equal; [|by apply IH]. rewrite <-(ascii_nat_embedding c), <-(ascii_nat_embedding d). by f_equal.
Qed.
Lemma str_leb_trans a b c : str_leb a b = true → str_leb b c = true → str_leb a c = true.
Proof.
  revert b c. induction a as [|x a IH]; intros [|y b] [|z c]; cbn [str_leb]; try done.
  destruct (Nat.ltb_spec (nat_of_ascii x) (nat_of_ascii y)), (Nat.ltb_spec (nat_of_ascii y) (nat_of_ascii x)),
    (Nat.ltb_spec (nat_of_ascii y) (nat_of_ascii z)), (Nat.ltb_spec (nat_of_ascii z) (nat_of_ascii y)),
    (Nat.ltb_spec (nat_of_ascii x) (nat_of_ascii z)), (Nat.ltb_spec (nat_of_ascii z) (nat_of_ascii x));
    try done; try lia. apply IH.
Qed.

(** Counting the elements that satisfy a test. *)
Lemma count_fmap {A} (p q : A → bool) (f : A → A) (l : list A) :
  (∀ x, x ∈ l → q (f x) = true → p x = true) →
  length (List.filter q (f <$> l)) ≤ length (List.filter p l).
Proof.
  induction l as [|x l IH]; intros Hp; [done|]. cbn [List.filter fmap list_fmap].
  assert (length (List.filter q (f <$> l)) ≤ length (List.filter p l)) by (apply IH; set_solver).
  specialize (Hp x ltac:(set_solver)). destruct (q (f x)), (p x); cbn [length]; lia.
Qed.
Lemma count_mono {A} (p q : A → bool) (l : list A) :
  (∀ x, x ∈ l → q x = true → p x = true) → length (List.filter q l) ≤ length (List.filter p l).
Proof. intros Hp. rewrite <-(list_fmap_id l) at 1. by apply count_fmap. Qed.

(** *** Trimming *)

Lemma strip_all_suffix pats n s : strip_all pats n s `suffix_of` s.
Proof.
  revert s. induction n as [|n IH]; intros s; simpl; [done|].
  destruct (List.find _ _) as [w|]; [|done].
  etrans; [apply IH|]. exists (take (length w) s). by rewrite take_drop.
Qed.

Lemma trim_end_prefix s : trim_end s `prefix_of` s.
Proof.
  unfold trim_end. destruct (strip_all_suffix (reverse <$> ws_chars) (length s) (reverse s)) as [k Hk].
  exists (reverse k). apply (f_equal reverse) in Hk. by rewrite reverse_involutive, reverse_app in Hk.
Qed.

Lemma strip_all_stops pats n s :
  Forall (λ w, w ≠ []) pats → length s ≤ n →
  List.find (λ w, starts_with w (strip_all pats n s)) pats = None.
Proof.
  intros Hp. revert s. induction n as [|n IH]; intros s Hn.
  - destruct s; [|simpl in Hn; lia]. simpl. clear Hn. induction Hp as [|w pats Hw Hp IHp]; [done|].
    destruct w; [done|]. exact IHp.
  - simpl. destruct (List.find (λ w, starts_with w s) pats) as [w|] eqn:Hf; [|done].
    apply IH. apply find_some in Hf as [Hin Hs]. apply list_elem_of_In in Hin.
    rewrite Forall_forall in Hp. pose proof (Hp _ Hin). rewrite length_drop.
    assert (length w ≠ 0) by (by destruct w). lia.
Qed.
Lemma strip_all_id pats n s : List.find (λ w, starts_with w s) pats = None → strip_all pats n s = s.
Proof. destruct n; simpl; [done|]. by intros ->. Qed.
Lemma find_prefix pats (s t : str) :
  s `prefix_of` t → List.find (λ w, starts_with w t) pats = None → List.find (λ w, starts_with w s) pats = None.
Proof.
  intros Hst. induction pats as [|w pats IH]; simpl; [done|].
  destruct (starts_with w t) eqn:Ht; [done|]. destruct (starts_with w s) eqn:Hs; [|exact IH].
  apply starts_with_spec in Hs. assert (starts_with w t = true) by (apply starts_with_spec; by etrans). congruence.
Qed.

Lemma ws_not_nil : Forall (λ w, w ≠ []) ws_chars.
Proof. repeat constructor; discriminate. Qed.
Lemma ws_rev_not_nil : Forall (λ w, w ≠ []) (reverse <$> ws_chars).
Proof. repeat constructor; discriminate. Qed.

Lemma trim_end_idem s : trim_end (trim_end s) = trim_end s.
Proof.
  unfold trim_end. rewrite reverse_involutive. f_equal. apply strip_all_id.
  apply strip_all_stops; [apply ws_rev_not_nil|by rewrite length_reverse].
Qed.
Lemma trim_idem s : trim (trim s) = trim s.
Proof.
  unfold trim. assert (trim_start (trim_end (trim_start s)) = trim_end (trim_start s)) as ->; [|apply trim_end_idem].
  apply strip_all_id. eapply find_prefix; [apply trim_end_prefix|].
  unfold trim_start. by apply strip_all_stops; [apply ws_not_nil|].
Qed.

(** A line keeps its first byte when trimmed at the end. *)
Lemma trim_end_head c s : trim_end (c :: s) = [] ∨ ∃ s', trim_end (c :: s) = c :: s'.
Proof.
  destruct (trim_end_prefix (c :: s)) as [k Hk]. destruct (trim_end (c :: s)) as [|d s']; [by left|].
  right. simplify_eq/=. by exists s'.
Qed.

(** ** Lemmas on machine integers *)

Lemma sat_add_in_u w a b : in_u w a → (0 <= b)%Z → in_u w (sat_add w a b).
Proof. unfold in_u, sat_add. lia. Qed.

Lemma sat_add_ge w a b : in_u w a → (0 <= b)%Z → (a <= sat_add w a b)%Z.
Proof. unfold in_u, sat_add. lia. Qed.

Lemma hex_val_digit n : (0 <= n < 16)%Z → hex_val (hex_digit n) = Some n.
Proof.
  intros Hn.
  assert (n ∈ (Z.of_nat <$> seq 0 16)) as Hin.
  { apply list_elem_of_fmap. exists (Z.to_nat n). split; [lia|].
    apply elem_of_seq. lia. }
  assert (Forall (λ z, hex_val (hex_digit z) = Some z) (Z.of_nat <$> seq 0 16)) as Hall
    by (repeat constructor).
  rewrite Forall_forall in Hall. by apply Hall.
Qed.

Lemma hex_step_digit a d :
  (0 <= d < 16)%Z → (a * 16 + d <= umax 64)%Z →
  hex_step (Some a) (hex_digit d) = Some (a * 16 + d)%Z.
Proof.
  intros Hd Hle. unfold hex_step. change (Some a ≫= ?f) with (f a). cbv beta.
  rewrite hex_val_digit by done. change (Some d ≫= ?f) with (f d). cbv beta.
  by apply Z.leb_le in Hle as ->.
Qed.

Lemma hex_digits_fold fuel n :
  in_u 64 n → (n < 16 ^ (Z.of_nat fuel + 1))%Z →
  foldl hex_step (Some 0%Z) (hex_digits fuel n) = Some n.
Proof.
  revert n. induction fuel as [|fuel IH]; intros n Hn Hlt; unfold in_u in Hn;
    cbn [hex_digits].
  - change (16 ^ (Z.of_nat 0 + 1))%Z with 16%Z in Hlt.
    cbn [foldl]. rewrite hex_step_digit by lia. f_equal.
  - case_if; bool_hyps.
    + cbn [foldl]. rewrite hex_step_digit by lia. f_equal.
    + pose proof (Z.mod_pos_bound n 16 ltac:(lia)).
      pose proof (Z.div_mod n 16 ltac:(lia)).
      pose proof (Z.div_pos n 16 ltac:(lia)).
      rewrite foldl_snoc, IH.
      * rewrite hex_step_digit by lia. f_equal. lia.
      * unfold in_u. lia.
      * apply Z.div_lt_upper_bound; [lia|]. rewrite <-Z.pow_succ_r by lia.
        by replace (Z.succ (Z.of_nat fuel + 1)) with (Z.of_nat (S fuel) + 1)%Z by lia.
Qed.

Lemma hex_digits_head fuel n :
  (0 <= n < 16 ^ (Z.of_nat fuel + 1))%Z →
  ∃ c l, hex_digits fuel n = c :: l ∧ c ≠ "+"%char.
Proof.
  revert n.
  assert (∀ m, (0 <= m < 16)%Z → hex_digit m ≠ "+"%char) as Hd.
  { intros m Hm Heq. pose proof (hex_val_digit m Hm) as Hv. by rewrite Heq in Hv. }
  induction fuel as [|k IH]; intros n Hn; cbn [hex_digits].
  - exists (hex_digit n), []. split; [done|]. by apply Hd.
  - case_if; bool_hyps; [exists (hex_digit n), []; split; [done|]; apply Hd; lia|].
    destruct (IH (n / 16)%Z) as (c & l & -> & ?);
      [|by exists c, (l ++ [hex_digit (n mod 16)])].
    split; [apply Z.div_pos; lia|]. apply Z.div_lt_upper_bound; [lia|].
    rewrite <-Z.pow_succ_r by lia.
    replace (Z.succ (Z.of_nat k + 1)) with (Z.of_nat (S k) + 1)%Z by lia. lia.
Qed.

(** Every 64-bit number survives printing and parsing. *)
Lemma parse_hex_hex n : in_u 64 n → parse_hex (hex n) = Some n.
Proof.
  intros Hn. assert (n < 16 ^ (Z.of_nat 15 + 1))%Z as Hlt
    by (unfold in_u, umax in Hn; lia).
  unfold parse_hex, hex.
  destruct (hex_digits_head 15 n) as (c & l & He & Hc); [unfold in_u in Hn; lia|].
  assert (strip_prefix (bs "+") (hex_digits 15 n) = None) as ->.
  { apply strip_prefix_None. rewrite He. simpl.
    by rewrite bool_decide_eq_false_2 by congruence. }
  cbn [default]. rewrite bool_decide_eq_false_2 by (by rewrite He).
  by apply hex_digits_fold.
Qed.

#[export] Hint Resolve starts_with_app starts_with_refl split_on_ne
  sat_add_in_u sat_add_ge : rust.
#[export] Hint Rewrite join_split @length_app @length_drop @length_take : rust.
(** *** Decimal numbers *)

Lemma pretty_char_digit d :
  (d < 10)%N → is_ascii_digit (pretty_N_char d) = true ∧
  (Z.of_nat (nat_of_ascii (pretty_N_char d)) - 48 = Z.of_N d)%Z.
Proof.
  intros Hd.
  assert (d = 0 ∨ d = 1 ∨ d = 2 ∨ d = 3 ∨ d = 4 ∨ d = 5 ∨ d = 6 ∨ d = 7 ∨ d = 8 ∨ d = 9)%N as Hd' by lia.
  by repeat destruct Hd' as [->|Hd']; try subst d.
Qed.

Lemma dec_step_char w a d :
  (d < 10)%N → (a * 10 + Z.of_N d <= umax w)%Z →
  dec_step w (Some a) (pretty_N_char d) = Some (a * 10 + Z.of_N d)%Z.
Proof.
  intros Hd Hw. destruct (pretty_char_digit d Hd) as [H1 H2]. unfold dec_step. cbn [mbind option_bind].
  rewrite H1, H2. cbn zeta. by rewrite (proj2 (Z.leb_le _ _)).
Qed.

Lemma pretty_go_fold w x s :
  (Z.of_N x <= umax w)%Z →
  foldl (dec_step w) (Some 0%Z) (bs (pretty_N_go x s)) = foldl (dec_step w) (Some (Z.of_N x)) (bs s).
Proof.
  revert s. induction (N.lt_wf_0 x) as [x _ IH]; intros s Hx.
  assert (x = 0 ∨ 0 < x)%N as [->|Hpos] by lia; [by rewrite pretty_N_go_0|].
  rewrite pretty_N_go_step by done.
  pose proof (N.div_mod x 10 ltac:(lia)) as Hdm. pose proof (N.mod_lt x 10 ltac:(lia)) as Hm.
  pose proof (N.div_lt x 10 Hpos ltac:(lia)) as Hlt.
  generalize dependent (x / 10)%N. generalize dependent (x mod 10)%N. intros r Hr q Hq Hlt.
  rewrite IH by lia.
  change (bs (String (pretty_N_char r) s)) with (pretty_N_char r :: bs s). cbn [foldl].
  rewrite dec_step_char by lia. do 2 f_equal. lia.
Qed.

Lemma pretty_go_digits x s :
  Forall (λ c, is_ascii_digit c = true) (bs s) →
  Forall (λ c, is_ascii_digit c = true) (bs (pretty_N_go x s)).
Proof.
  revert s. induction (N.lt_wf_0 x) as [x _ IH]; intros s Hs.
  assert (x = 0 ∨ 0 < x)%N as [->|Hpos] by lia; [by rewrite pretty_N_go_0|].
  rewrite pretty_N_go_step by done. apply IH; [apply N.div_lt; lia|].
  constructor; [|exact Hs]. apply pretty_char_digit. apply N.mod_lt. lia.
Qed.

Lemma decZ_N n : decZ (Z.of_N n) = bs (pretty n).
Proof. by destruct n. Qed.

(** A printed number is a sequence of digits, and is read back. *)
Lemma decZ_digits n : (0 <= n)%Z → Forall (λ c, is_ascii_digit c = true) (decZ n).
Proof.
  intros Hn. rewrite <- (Z2N.id n Hn), decZ_N. unfold pretty, pretty_N. case_decide; [by constructor|].
  by apply pretty_go_digits.
Qed.
Lemma decZ_fold w n : in_u w n → foldl (dec_step w) (Some 0%Z) (decZ n) = Some n.
Proof.
  intros [H0 Hn]. rewrite <- (Z2N.id n H0), decZ_N in *. unfold pretty, pretty_N. case_decide as Hz.
  - rewrite Hz in *. apply (dec_step_char w 0 0); lia.
  - by rewrite pretty_go_fold.
Qed.
Lemma decZ_not_nil n : (0 <= n)%Z → decZ n ≠ [].
Proof.
  intros Hn Hd. assert (in_u (n + 1) n) as Hu.
  { unfold in_u, umax. split; [done|]. pose proof (Z.pow_gt_lin_r 2 (n + 1)). lia. }
  pose proof (decZ_fold (n + 1) n Hu) as Hf. rewrite Hd in Hf. injection Hf as <-. by vm_compute in Hd.
Qed.
Lemma parse_dec_decZ w n : in_u w n → parse_dec w (decZ n) = Some n.
Proof.
  intros Hn. unfold parse_dec. pose proof (proj1 Hn) as H0. pose proof (decZ_digits n H0) as Hd.
  assert (strip_prefix (bs "+") (decZ n) = None) as ->.
  { apply strip_prefix_None. destruct (decZ n) as [|c l]; [done|]. apply Forall_cons in Hd as [Hc _].
    cbn [bs String.list_ascii_of_string starts_with]. rewrite bool_decide_eq_false_2; [done|].
    intros <-. done. }
  cbn [default]. rewrite bool_decide_eq_false_2 by (by apply decZ_not_nil). by apply decZ_fold.
Qed.
Lemma decZ_no n c : (0 <= n)%Z → is_ascii_digit c = false → c ∉ decZ n.
Proof. intros Hn Hc Hin. pose proof (decZ_digits n Hn) as Hd. rewrite Forall_forall in Hd. apply Hd in Hin. congruence. Qed.
Lemma decZ_inj m n : (0 <= m)%Z → (0 <= n)%Z → decZ m = decZ n → m = n.
Proof.
  intros Hm Hn He. assert (∀ k, 0 <= k → in_u (m + n + 1) k ∨ m + n + 1 < k)%Z as Hk.
  { intros k Hk. unfold in_u, umax. pose proof (Z.pow_gt_lin_r 2 (m + n + 1)). lia. }
  destruct (Hk m Hm) as [Hum|]; [|lia]. destruct (Hk n Hn) as [Hun|]; [|lia].
  pose proof (decZ_fold _ _ Hum) as H1. rewrite He in H1. rewrite (decZ_fold _ _ Hun) in H1. congruence.
Qed.

