(* ===== verification/Text.v ===== *)
(** * More of Rust's strings

    The adaptors of iterators and the operations of [str] that more than one
    component uses and that need no part of the program: [take_while],
    [replace], [chars]. *)
From S2P Require Import Prelude.

(** [take_while] and [skip_while] of an iterator *)
Fixpoint take_while {A} (f : A → bool) (l : list A) : list A :=
  match l with [] => [] | x :: l => if f x then x :: take_while f l else [] end.
Fixpoint skip_while {A} (f : A → bool) (l : list A) : list A :=
  match l with [] => [] | x :: l' => if f x then skip_while f l' else l end.
Lemma take_skip_while {A} (f : A → bool) l : take_while f l ++ skip_while f l = l.
Proof. induction l as [|x l IH]; [done|]. cbn. destruct (f x); cbn; congruence. Qed.
Lemma take_while_app {A} (f : A → bool) l r :
  forallb f l = true → take_while f (l ++ r) = l ++ take_while f r ∧ skip_while f (l ++ r) = skip_while f r.
Proof.
  induction l as [|x l IH]; [done|]. cbn. intros [Hx Hl]%andb_true_iff. rewrite Hx.
  destruct (IH Hl) as [-> ->]. done.
Qed.
(** The text goes on with something [f] does not take. *)
Definition stops {A} (f : A → bool) (l : list A) : bool := match l with [] => true | x :: _ => negb (f x) end.
Lemma take_while_stops {A} (f : A → bool) l : stops f l = true → take_while f l = [] ∧ skip_while f l = l.
Proof. destruct l as [|x l]; [done|]. cbn. by destruct (f x). Qed.

Lemma skip_while_length {A} (f : A → bool) l : length (skip_while f l) ≤ length l.
Proof. induction l as [|x l IH]; [done|]. cbn. destruct (f x); cbn; lia. Qed.


(** [str::replace] with a pattern that is not empty; [skip]: the bytes left
    of the occurrence just replaced. *)
Fixpoint replace_go (p by_ : str) (skip : nat) (s : str) : str :=
  match s with
  | [] => []
  | c :: s' =>
      match skip with
      | S skip' => replace_go p by_ skip' s'
      | O => if starts_with p s then by_ ++ replace_go p by_ (length p - 1) s' else c :: replace_go p by_ 0 s'
      end
  end.
Definition replace_all (p by_ s : str) : str := replace_go p by_ 0 s.

(** The characters of a text. *)
Fixpoint chars (s : str) : list str :=
  match s with
  | [] => []
  | c :: s' =>
      match chars s' with
      | (d :: w) :: ws => if is_char_start d then [c] :: (d :: w) :: ws else (c :: d :: w) :: ws
      | _ => [[c]]
      end
  end.
Definition valid_chars (ws : list str) : Prop :=
  Forall (λ w, ∃ c u, w = c :: u ∧ is_char_start c = true ∧ forallb (λ d, negb (is_char_start d)) u = true) ws.
Lemma chars_of_concat ws : valid_chars ws → chars (concat ws) = ws.
Proof.
  induction 1 as [|w ws (c & u & -> & Hc & Hu) Hws IH]; [done|]. cbn [concat app].
  assert (∀ c, chars (c :: u ++ concat ws) = (c :: u) :: ws) as H; [|by apply H].
  clear c Hc. induction u as [|d u IHu]; intros c; cbn [app chars].
  - rewrite IH. destruct Hws as [|w ws (e & x & -> & He & _) _]; [done|]. by rewrite He.
  - cbn in Hu. apply andb_true_iff in Hu as [Hd Hu]. pose proof (IHu Hu d) as Hd'. cbn [chars] in Hd'.
    rewrite Hd'. by destruct (is_char_start d).
Qed.

Lemma contains_cons p c s : contains p (c :: s) = starts_with p (c :: s) || contains p s.
Proof.
  unfold contains, find_sub. cbn [find_suffix]. destruct (starts_with p (c :: s)); [done|].
  by destruct (find_suffix (starts_with p) s).
Qed.
(** A text free of the pattern's first character starts the result only if it
    starts the original. *)
Lemma replace_start p by_ q s c t b :
  p = c :: t → by_ = c :: b → c ∉ q → starts_with q (replace_all p by_ s) = true → starts_with q s = true.
Proof.
  intros Hp Hb. revert s. unfold replace_all. induction q as [|d q IH]; intros s Hq Hs; [done|].
  apply not_elem_of_cons in Hq as [Hd Hq]. destruct s as [|e s]; [done|]. cbn [replace_go] in Hs.
  destruct (starts_with p (e :: s)).
  - rewrite Hb in Hs. cbn in Hs. by case_bool_decide.
  - cbn in Hs |- *. case_bool_decide; [|done]. by apply IH.
Qed.
Lemma replace_other p by_ s : contains p s = false → replace_all p by_ s = s.
Proof.
  unfold replace_all. induction s as [|c s IH]; [done|]. rewrite contains_cons. intros [Hs Hc]%orb_false_iff.
  cbn [replace_go]. rewrite Hs. by rewrite IH.
Qed.

