(* ===== verification/Json.v ===== *)
(** * The interface of [serde_json::Value]

    The JSON crate is not part of the repository, so a JSON value is an
    abstract type with the accessors the code calls.  [JsonLaws] states the
    documented behaviour of the object accessors that theorems rely on.
    [Jv] is a small concrete value type with that behaviour; the witnesses
    of the development evaluate the models on it. *)
From S2P Require Import Prelude.

Class Json (V : Type) := {
  jget : V → str → option V;          (** [Value::get] *)
  jas_str : V → option str;           (** [Value::as_str] *)
  jas_bool : V → option bool;         (** [Value::as_bool] *)
  jis_object : V → bool;              (** [Value::is_object] *)
  jinsert : str → V → V → V;          (** [Map::insert] on an object; the value otherwise *)
  jremove : str → V → V;              (** [Map::remove] on an object; the value otherwise *)
  jstring : str → V;                  (** [Value::String] *)
  jempty : V;                         (** [json!({})] *)
  jnull : V;                          (** [Value::Null] *)
  jis_null : V → bool;
  jparse : str → option V;            (** [serde_json::from_str::<Value>] *)
  jprint : V → str;                   (** [Value::to_string] *)
}.

Class JsonLaws (V : Type) `{Json V} := {
  jget_insert k v o : jis_object o = true → jget (jinsert k v o) k = Some v;
  jget_insert_ne k k' v o : k ≠ k' → jget (jinsert k v o) k' = jget o k';
  jis_object_insert k v o : jis_object (jinsert k v o) = jis_object o;
  jinsert_non_object k v o : jis_object o = false → jinsert k v o = o;
  jget_remove k o : jget (jremove k o) k = None;
  jget_remove_ne k k' o : k ≠ k' → jget (jremove k o) k' = jget o k';
  jis_object_empty : jis_object jempty = true;
  jget_empty k : jget jempty k = None;
  jget_object k v o : jget o k = Some v → jis_object o = true;
  jas_str_jstring s : jas_str (jstring s) = Some s;
}.

(** [Value::as_array] and [Value::Array] *)
Class JsonArrays (V : Type) := {
  jas_array : V → option (list V);
  jarray : list V → V;
}.

(** [Value::is_number], [Value::as_f64] and [json!] of an unsigned number *)
Class JsonNumbers (V : Type) := {
  jis_number : V → bool;
  jas_f64 : V → option f64;
  jnumber : Z → V;
}.

(** Printing and parsing back a value gives the same value. *)
Class JsonText (V : Type) `{Json V} := jparse_jprint : ∀ v : V, jparse (jprint v) = Some v.

(** ** A concrete value type for witnesses *)
Module Jv.
Inductive t : Type :=
| Null
| Bool (b : bool)
| Str (s : str)
| Num (n : Z)
| Arr (l : list t)
| Obj (l : list (str * t)).

Fixpoint assoc (k : str) (l : list (str * t)) : option t :=
  match l with
  | [] => None
  | (k', v) :: r => if bool_decide (k = k') then Some v else assoc k r
  end.
Fixpoint dissoc (k : str) (l : list (str * t)) : list (str * t) :=
  match l with
  | [] => []
  | (k', v) :: r => if bool_decide (k = k') then dissoc k r else (k', v) :: dissoc k r
  end.
Fixpoint print (v : t) : str :=
  match v with
  | Null => bs "null"
  | Bool true => bs "true"
  | Bool false => bs "false"
  | Str s => bs "'" ++ s ++ bs "'"
  | Num n => decZ n
  | Arr l => bs "[" ++ concat ((λ v, print v ++ bs ",") <$> l) ++ bs "]"
  | Obj l => bs "{" ++ concat ((λ '(k, v), k ++ bs ":" ++ print v ++ bs ",") <$> l) ++ bs "}"
  end.
(** Reads four scalar forms and the empty object. *)
Definition parse (s : str) : option t :=
  if bool_decide (s = bs "null") then Some Null
  else if bool_decide (s = bs "true") then Some (Bool true)
  else if bool_decide (s = bs "false") then Some (Bool false)
  else if bool_decide (s = bs "{}") then Some (Obj [])
  else None.

Lemma assoc_dissoc k l : assoc k (dissoc k l) = None.
Proof.
  induction l as [|[k' v] r IH]; simpl; [done|].
  case_bool_decide; [done|]. simpl. by rewrite bool_decide_eq_false_2.
Qed.

Lemma assoc_dissoc_ne k k' l : k ≠ k' → assoc k' (dissoc k l) = assoc k' l.
Proof.
  intros Hne. induction l as [|[k1 v] r IH]; simpl; [done|].
  repeat (case_bool_decide; subst; simpl); congruence.
Qed.
End Jv.

#[export] Instance Jv_json : Json Jv.t := {|
  jget v k := match v with Jv.Obj l => Jv.assoc k l | _ => None end;
  jas_str v := match v with Jv.Str s => Some s | _ => None end;
  jas_bool v := match v with Jv.Bool b => Some b | _ => None end;
  jis_object v := match v with Jv.Obj _ => true | _ => false end;
  jinsert k v o := match o with Jv.Obj l => Jv.Obj ((k, v) :: Jv.dissoc k l) | o => o end;
  jremove k o := match o with Jv.Obj l => Jv.Obj (Jv.dissoc k l) | o => o end;
  jstring s := Jv.Str s;
  jempty := Jv.Obj [];
  jnull := Jv.Null;
  jis_null v := match v with Jv.Null => true | _ => false end;
  jparse s := Jv.parse s;
  jprint v := Jv.print v;
|}.

#[export] Instance Jv_arrays : JsonArrays Jv.t := {|
  jas_array v := match v with Jv.Arr l => Some l | _ => None end;
  jarray := Jv.Arr;
|}.

#[export] Instance Jv_numbers : JsonNumbers Jv.t := {|
  jis_number v := match v with Jv.Num _ => true | _ => false end;
  jas_f64 v := match v with Jv.Num n => Some (f64_of_Z n) | _ => None end;
  jnumber := Jv.Num;
|}.

#[export] Instance Jv_laws : JsonLaws Jv.t.
Proof.
  split.
  - intros k v []; simpl; intros; simplify_eq. by rewrite bool_decide_eq_true_2.
  - intros k k' v [] ?; simpl; [done..|].
    rewrite bool_decide_eq_false_2 by congruence. by apply Jv.assoc_dissoc_ne.
  - by intros k v [].
  - by intros k v [].
  - intros k []; simpl; [done..|]. apply Jv.assoc_dissoc.
  - intros k k' [] ?; simpl; [done..|]. by apply Jv.assoc_dissoc_ne.
  - done.
  - done.
  - by intros k v [].
  - done.
Qed.

(** ** A printing that can be read back

    For the theorems that rely on [JsonText]: the same values, printed as the
    binary digits of their code. *)
Module JvText.
Fixpoint to_tree (v : Jv.t) : gen_tree (bool + str + Z) :=
  match v with
  | Jv.Null => GenNode 0 []
  | Jv.Bool b => GenLeaf (inl (inl b))
  | Jv.Str s => GenLeaf (inl (inr s))
  | Jv.Num n => GenLeaf (inr n)
  | Jv.Arr l => GenNode 2 (to_tree <$> l)
  | Jv.Obj l => GenNode 1 ((λ p, GenNode 0 [GenLeaf (inl (inr p.1)); to_tree p.2]) <$> l)
  end.
Fixpoint of_tree (t : gen_tree (bool + str + Z)) : option Jv.t :=
  match t with
  | GenNode 0 [] => Some Jv.Null
  | GenLeaf (inl (inl b)) => Some (Jv.Bool b)
  | GenLeaf (inl (inr s)) => Some (Jv.Str s)
  | GenLeaf (inr n) => Some (Jv.Num n)
  | GenNode 1 l => Jv.Obj <$> mapM (λ p, match p with
      | GenNode 0 [GenLeaf (inl (inr k)); t] => pair k <$> of_tree t
      | _ => None
      end) l
  | GenNode 2 l => Jv.Arr <$> mapM of_tree l
  | _ => None
  end.

(** Induction that reaches the elements of an array and the fields of an object. *)
Lemma t_ind' (P : Jv.t → Prop) :
  P Jv.Null → (∀ b, P (Jv.Bool b)) → (∀ s, P (Jv.Str s)) → (∀ n, P (Jv.Num n)) →
  (∀ l, Forall P l → P (Jv.Arr l)) →
  (∀ l, Forall (λ p, P p.2) l → P (Jv.Obj l)) → ∀ v, P v.
Proof.
  intros HN HB HS HZ HA HO. fix IH 1. intros [|b|s|n|l|l]; [done|apply HB|apply HS|apply HZ| |].
  { apply HA. induction l as [|v l IHl]; constructor; [apply IH|exact IHl]. }
  apply HO. induction l as [|[k v] l IHl]; constructor; [apply IH|exact IHl].
Qed.

Lemma of_to_tree v : of_tree (to_tree v) = Some v.
Proof.
  induction v as [| | | |l Hl|l Hl] using t_ind'; try done; simpl.
  { induction Hl as [|v l Hv Hl IH]; [done|]. simpl in *. rewrite Hv. simpl.
    destruct (mapM _ _); simplify_eq/=; done. }
  induction Hl as [|[k v] l Hv Hl IH]; [done|]. simpl in *. rewrite Hv. simpl.
  destruct (mapM _ _); simplify_eq/=; done.
Qed.

Fixpoint bits (p : positive) : str :=
  match p with
  | xH => []
  | xO p => "0"%char :: bits p
  | xI p => "1"%char :: bits p
  end.
Fixpoint unbits (s : str) : positive :=
  match s with
  | [] => xH
  | c :: s => if bool_decide (c = "1"%char) then xI (unbits s) else xO (unbits s)
  end.
Lemma unbits_bits p : unbits (bits p) = p.
Proof. induction p; simpl; congruence. Qed.

Definition print (v : Jv.t) : str := bits (encode (to_tree v)).
Definition parse (s : str) : option Jv.t := decode (unbits s) ≫= of_tree.
Lemma parse_print v : parse (print v) = Some v.
Proof. unfold parse, print. rewrite unbits_bits, decode_encode. apply of_to_tree. Qed.

Definition json : Json Jv.t := {|
  jget := jget (Json:=Jv_json); jas_str := jas_str (Json:=Jv_json);
  jas_bool := jas_bool (Json:=Jv_json); jis_object := jis_object (Json:=Jv_json);
  jinsert := jinsert (Json:=Jv_json); jremove := jremove (Json:=Jv_json);
  jstring := jstring (Json:=Jv_json); jempty := jempty (Json:=Jv_json);
  jnull := jnull (Json:=Jv_json); jis_null := jis_null (Json:=Jv_json);
  jparse := parse; jprint := print |}.
Lemma laws : JsonLaws Jv.t (H:=json).
Proof. destruct Jv_laws. by constructor. Qed.
Lemma text : JsonText Jv.t (H:=json).
Proof. exact parse_print. Qed.
End JvText.

(** ** Walking over an object *)

(** [Value::as_object] and the entries of the map; none for another value. *)
Class JsonEntries (V : Type) := jentries : V → list (str * V).
Class JsonEntriesLaws (V : Type) `{Json V, JsonEntries V} := {
  jentries_NoDup (o : V) : NoDup (jentries o).*1;
  jget_entries (o : V) k : jget o k = (list_to_map (jentries o) : gmap str V) !! k;
}.

#[export] Instance Jv_entries : JsonEntries Jv.t := λ v,
  match v with Jv.Obj l => map_to_list (list_to_map l : gmap str Jv.t) | _ => [] end.
Lemma assoc_list_to_map k (l : list (str * Jv.t)) : Jv.assoc k l = (list_to_map l : gmap str Jv.t) !! k.
Proof.
  induction l as [|[k' v] l IH]; [done|]. cbn [Jv.assoc]. rewrite list_to_map_cons.
  case_bool_decide as Hk; [subst; by rewrite lookup_insert_eq|by rewrite lookup_insert_ne].
Qed.
#[export] Instance Jv_entries_laws : JsonEntriesLaws Jv.t.
Proof.
  split.
  - intros [| | | | |l]; cbn; try constructor. apply NoDup_fst_map_to_list.
  - intros [| | | | |l] k; try done. cbn. by rewrite list_to_map_to_list, assoc_list_to_map.
Qed.

(** Copying the entries of [o] into [req], one insertion after another. *)
Definition jmerge {V} `{Json V, JsonEntries V} (req o : V) : V :=
  foldl (λ r kv, jinsert kv.1 kv.2 r) req (jentries o).
Lemma jget_merge {V} `{JsonLaws V, !JsonEntries V, !JsonEntriesLaws V} (req o : V) k :
  jis_object req = true →
  jis_object (jmerge req o) = true ∧
  jget (jmerge req o) k = match jget o k with Some v => Some v | None => jget req k end.
Proof.
  intros Hreq. rewrite (jget_entries o). unfold jmerge. pose proof (jentries_NoDup o) as Hnd.
  revert req Hreq. induction (jentries o) as [|[k' v] l IH]; intros req Hreq; [split; [exact Hreq|done]|].
  cbn [foldl fst snd]. rewrite list_to_map_cons. cbn in Hnd. apply NoDup_cons in Hnd as [Hk' Hnd].
  destruct (IH Hnd (jinsert k' v req)) as [Ho ->]; [by rewrite jis_object_insert|]. split; [exact Ho|].
  destruct (decide (k' = k)) as [->|Hne].
  - rewrite lookup_insert_eq, jget_insert by done. by rewrite not_elem_of_list_to_map_1.
  - by rewrite lookup_insert_ne, jget_insert_ne by done.
Qed.
