(* ===== verification/Messages.v ===== *)
(** * Messages, tool calls and tool definitions

    The data that the agent pipeline exchanges (crate [opex-types]).  Every
    record is parametric in the type [V] of JSON values. *)
From S2P Require Import Prelude Json.

(** Identifiers of rows are opaque 128-bit numbers. *)
Abbreviation Uuid := Z.

(* @src opex-types/src/lib.rs 45-50 MessageRole *)
Inductive MessageRole := System | User | Assistant | Tool.

#[export] Instance MessageRole_eq_dec : EqDecision MessageRole.
Proof. solve_decision. Defined.

(* @src opex-types/src/lib.rs 53-65 ToolCall *)
Record ToolCall (V : Type) := mkToolCall {
  tc_id : str;
  tc_name : str;
  tc_arguments : V;
  tc_thought_signature : option str;
}.
Arguments mkToolCall {V}.
Arguments tc_id {V}.
Arguments tc_name {V}.
Arguments tc_arguments {V}.
Arguments tc_thought_signature {V}.

(* @src opex-types/src/lib.rs 198-201 ThinkingBlock *)
Record ThinkingBlock := mkThinking { thinking : str; signature : str }.

(* @src opex-types/src/lib.rs 18-41 Message *)
Record Message (V : Type) := mkMessage {
  role : MessageRole;
  content : str;
  tool_calls : option (list (ToolCall V));
  tool_call_id : option str;
  thinking_blocks : list ThinkingBlock;
  db_id : option Uuid;
}.
Arguments mkMessage {V}.
Arguments role {V}.
Arguments content {V}.
Arguments tool_calls {V}.
Arguments tool_call_id {V}.
Arguments thinking_blocks {V}.
Arguments db_id {V}.

(* @src opex-types/src/lib.rs 188-192 ToolDefinition *)
Record ToolDefinition (V : Type) := mkToolDef {
  td_name : str;
  td_description : str;
  td_input_schema : V;
}.
Arguments mkToolDef {V}.
Arguments td_name {V}.
Arguments td_description {V}.
Arguments td_input_schema {V}.

(* @src opex-types/src/lib.rs 235-254 TokenUsage *)
Record TokenUsage := mkUsage {
  input_tokens : Z;
  output_tokens : Z;
  cache_read_tokens : option Z;
  cache_creation_tokens : option Z;
  reasoning_tokens : option Z;
}.

(* @src opex-types/src/lib.rs 206-232 LlmResponse *)
Record LlmResponse (V : Type) := mkResponse {
  r_content : str;
  r_tool_calls : list (ToolCall V);
  r_usage : option TokenUsage;
  r_finish_reason : option str;
  r_model : option str;
  r_provider : option str;
  r_fallback_notice : option str;
  r_tools_used : list str;
  r_iterations : Z;
  r_thinking_blocks : list ThinkingBlock;
}.
Arguments mkResponse {V}.
Arguments r_content {V}.
Arguments r_tool_calls {V}.
Arguments r_usage {V}.
Arguments r_finish_reason {V}.
Arguments r_model {V}.
Arguments r_provider {V}.
Arguments r_fallback_notice {V}.
Arguments r_tools_used {V}.
Arguments r_iterations {V}.
Arguments r_thinking_blocks {V}.

(** The options of one call that the models read. *)
(* @src opex-core/src/agent/providers/mod.rs 174-218 CallOptions *)
Record CallOptions := mkCallOptions {
  thinking_level : Z;
  claude_md_content : option str;
  known_extension_tools : list str;
  model_override : option str;
}.
Definition default_options : CallOptions := mkCallOptions 0 None [] None.

Section messages.
Context {V : Type}.
Implicit Types m : Message V.

Definition is_role (r : MessageRole) m : bool := bool_decide (role m = r).
Definition has_tool_calls m : bool :=
  match tool_calls m with Some _ => true | None => false end.
Definition set_content (c : str) m : Message V :=
  mkMessage (role m) c (tool_calls m) (tool_call_id m) (thinking_blocks m) (db_id m).

(** A message with nothing but a role and a text. *)
Definition text_message (r : MessageRole) (c : str) : Message V :=
  mkMessage r c None None [] None.

(** The tool call ids of an assistant turn. *)
Definition calls_of m : list (ToolCall V) := default [] (tool_calls m).

Lemma is_role_spec r m : is_role r m = true ↔ role m = r.
Proof. apply bool_decide_eq_true. Qed.
Lemma is_role_false r m : is_role r m = false ↔ role m ≠ r.
Proof. apply bool_decide_eq_false. Qed.
End messages.

#[export] Hint Rewrite @is_role_spec @is_role_false : rust.
