(* ===== verification/Sessions.v ===== *)
(** * Sessions

    The session store of [opex-db/src/sessions.rs] with its status machine
    ([session_status.rs], [reentry_mode.rs]), the guard that ends a turn
    ([agent/session_manager.rs]), the stream jobs that decide which turn owns
    a session ([gateway/stream_jobs.rs]), the startup cleanup of [main.rs], and
    what removes sessions: the clean-ups of the store and the handlers of
    [gateway/handlers/sessions.rs] and [gateway/handlers/agents/crud.rs].

    The store is the part of the PostgreSQL schema these functions read and
    write: tables of rows, a statement being a function on the store, a
    transaction a function that keeps the store when one of its statements
    fails.  Rows of [sessions] are keyed by their primary key; [messages] are
    kept in insertion order, and an [ORDER BY created_at] that meets equal
    times is resolved by that order.  A generated id is an argument.  Times
    are microseconds. *)
From S2P Require Import Prelude Json Messages.

(** ** Statuses *)

(* @src opex-db/src/session_status.rs 5-12 SessionStatus *)
Inductive SessionStatus := Running | Done | Failed | Interrupted | Timeout | Cancelled.
#[export] Instance status_eq_dec : EqDecision SessionStatus.
Proof. solve_decision. Defined.

(* @src opex-db/src/session_status.rs 15-17 is_terminal *)
Definition is_terminal (s : SessionStatus) : bool := negb (bool_decide (s = Running)).
(* @src opex-db/src/session_status.rs 24-30 can_transition_to *)
Definition can_transition_to (from to : SessionStatus) : bool :=
  match from with
  | Done => false
  | Running => true
  | _ => bool_decide (to = Running)
  end.
(* @src opex-db/src/session_status.rs 32-41 as_str *)
Definition as_str (s : SessionStatus) : str :=
  match s with
  | Running => bs "running" | Done => bs "done" | Failed => bs "failed"
  | Interrupted => bs "interrupted" | Timeout => bs "timeout" | Cancelled => bs "cancelled"
  end.
(* @src opex-db/src/session_status.rs 43-53 parse *)
Definition parse (s : str) : option SessionStatus :=
  if bool_decide (s = bs "running") then Some Running else
  if bool_decide (s = bs "done") then Some Done else
  if bool_decide (s = bs "failed") then Some Failed else
  if bool_decide (s = bs "interrupted") then Some Interrupted else
  if bool_decide (s = bs "timeout") then Some Timeout else
  if bool_decide (s = bs "cancelled") then Some Cancelled else None.

(* @src opex-db/src/reentry_mode.rs 11-27 ReentryMode *)
Inductive ReentryMode := NewSession | NewTurnAfterDone | ResumeRunning | ExplicitResume.
(* @src opex-db/src/reentry_mode.rs 35-37 warm_loop_detector *)
Definition warm_loop_detector (m : ReentryMode) : bool :=
  match m with ResumeRunning | ExplicitResume => true | _ => false end.
(* @src opex-db/src/reentry_mode.rs 47-61 classify *)
Definition classify (prior : option SessionStatus) : ReentryMode :=
  match prior with
  | None => NewSession
  | Some Running => ResumeRunning
  | Some Done => NewTurnAfterDone
  | Some _ => NewSession
  end.

(** ** The tables *)

(* @src opex-db/src/sessions.rs 37-65 Session *)
Record SessionRow := mkSession {
  s_agent : str; s_user : str; s_channel : str; s_chat : option str;
  s_status : option str;           (** [run_status] *)
  s_last : Z;                      (** [last_message_at] *)
  s_activity : option Z;           (** [activity_at] *)
  s_retries : Z;                   (** [retry_count] *)
}.
Definition set_status st r :=
  mkSession (s_agent r) (s_user r) (s_channel r) (s_chat r) (Some st) (s_last r) (s_activity r) (s_retries r).
Definition set_last t r :=
  mkSession (s_agent r) (s_user r) (s_channel r) (s_chat r) (s_status r) t (s_activity r) (s_retries r).
Definition set_activity t r :=
  mkSession (s_agent r) (s_user r) (s_channel r) (s_chat r) (s_status r) (s_last r) (Some t) (s_retries r).
Definition retry_row r :=
  mkSession (s_agent r) (s_user r) (s_channel r) (s_chat r) (Some (bs "running")) (s_last r) (s_activity r)
    (s_retries r + 1)%Z.

Section sessions.
Context {V : Type} `{Json V} `{JsonArrays V}.

(* @src opex-db/src/sessions.rs 782-807 MessageRow *)
Record MessageRow := mkMessage {
  m_id : Uuid; m_session : Uuid; m_role : str; m_content : str;
  m_tool_calls : option V; m_tool_call_id : option str;
  m_created : Z; m_status : str; m_parent : option Uuid;
}.
Definition set_message_status st m :=
  mkMessage (m_id m) (m_session m) (m_role m) (m_content m) (m_tool_calls m) (m_tool_call_id m) (m_created m) st (m_parent m).
Definition set_message_content c m :=
  mkMessage (m_id m) (m_session m) (m_role m) c (m_tool_calls m) (m_tool_call_id m) (m_created m) (m_status m) (m_parent m).
Definition set_message_calls tcs m :=
  mkMessage (m_id m) (m_session m) (m_role m) (m_content m) tcs (m_tool_call_id m) (m_created m) (m_status m) (m_parent m).

Record Event := mkEvent { ev_session : Uuid; ev_type : str; ev_payload : option V }.
(* @src opex-core/src/gateway/stream_jobs.rs 7-15 StreamJob *)
Record StreamJob := mkJob { j_session : Uuid; j_created : Z }.
Record SessionFailure := mkFailure { f_session : Uuid; f_agent : str; f_kind : str; f_message : str }.

Record Db := mkDb {
  sessions : gmap Uuid SessionRow;
  messages : list MessageRow;
  timeline : list Event;
  jobs : gmap Uuid StreamJob;
  failures : list SessionFailure;
}.
Definition on_sessions f db := mkDb (f (sessions db)) (messages db) (timeline db) (jobs db) (failures db).
Definition on_messages f db := mkDb (sessions db) (f (messages db)) (timeline db) (jobs db) (failures db).
Definition on_timeline f db := mkDb (sessions db) (messages db) (f (timeline db)) (jobs db) (failures db).
Definition on_failures f db := mkDb (sessions db) (messages db) (timeline db) (jobs db) (f (failures db)).

(** [UPDATE sessions SET .. WHERE id = .. AND ..], and whether a row matched. *)
Definition update_session (id : Uuid) (p : SessionRow → bool) (f : SessionRow → SessionRow) (db : Db) : Db * bool :=
  match sessions db !! id with
  | Some r => if p r then (on_sessions <[id := f r]> db, true) else (db, false)
  | None => (db, false)
  end.
(** The same without a key. *)
Definition update_sessions (p : SessionRow → bool) (f : SessionRow → SessionRow) (db : Db) : Db :=
  on_sessions (fmap (λ r, if p r then f r else r)) db.
Definition update_messages (p : MessageRow → bool) (f : MessageRow → MessageRow) (db : Db) : Db :=
  on_messages (fmap (λ m, if p m then f m else m)) db.
(** A deleted message leaves no pointer to it ([ON DELETE SET NULL]). *)
Definition drop_parent (gone : list Uuid) (m : MessageRow) : MessageRow :=
  mkMessage (m_id m) (m_session m) (m_role m) (m_content m) (m_tool_calls m) (m_tool_call_id m) (m_created m)
    (m_status m) (match m_parent m with Some p => if bool_decide (p ∈ gone) then None else Some p | None => None end).
Definition delete_messages (p : MessageRow → bool) (db : Db) : Db :=
  on_messages (λ l, drop_parent (m_id <$> List.filter p l) <$> List.filter (λ m, negb (p m)) l) db.

Definition status_is (st : string) (r : SessionRow) : bool := bool_decide (s_status r = Some (bs st)).
Definition status_among (l : list string) (r : SessionRow) : bool := existsb (λ st, status_is st r) l.
Definition status_null (r : SessionRow) : bool := bool_decide (s_status r = None).
Definition in_session (id : Uuid) (m : MessageRow) : bool := bool_decide (m_session m = id).
Definition has_role (role : string) (m : MessageRow) : bool := bool_decide (m_role m = bs role).
Definition streaming (m : MessageRow) : bool := bool_decide (m_status m = bs "streaming").

Definition find_message (id : Uuid) (db : Db) : option MessageRow :=
  List.find (λ m, bool_decide (m_id m = id)) (messages db).
(** The keys of the table: a new id, an existing session, and a parent of the
    same session; the trigger of the table moves the session's clock. *)
Definition insert_message (m : MessageRow) (db : Db) : option Db :=
  _ ← sessions db !! m_session m;
  if bool_decide (is_Some (find_message (m_id m) db)) then None else
  let parent_ok := match m_parent m with
                   | Some p => match find_message p db with
                               | Some q => bool_decide (m_session q = m_session m)
                               | None => false
                               end
                   | None => true
                   end in
  if negb parent_ok then None else
  Some (on_messages (λ l, l ++ [m]) (update_session (m_session m) (λ _, true) (set_last (m_created m)) db).1).

(** ** Statements on one session *)

(* @src opex-db/src/sessions.rs 884-899 set_session_run_status *)
Definition set_session_run_status (id : Uuid) (status : str) (db : Db) : Db :=
  (update_session id (λ r, status_null r || status_is "running" r) (set_status status) db).1.

(* @src opex-db/src/sessions.rs 868-876 get_session_run_status *)
Definition get_session_run_status (id : Uuid) (db : Db) : option str := sessions db !! id ≫= s_status.

(* @src opex-db/src/sessions.rs 932-937 claim_session_for_reentry *)
Definition allowed_from (mode : ReentryMode) (r : SessionRow) : bool :=
  match mode with
  | NewSession => status_null r
  | NewTurnAfterDone => status_is "done" r
  | ResumeRunning => status_is "running" r
  | ExplicitResume => true
  end.
(* @src opex-db/src/sessions.rs 927-945 claim_session_for_reentry *)
Definition claim_session_for_reentry (id : Uuid) (mode : ReentryMode) (db : Db) : Db * bool :=
  update_session id (allowed_from mode) (set_status (bs "running")) db.
(* @src opex-db/src/sessions.rs 951-975 claim_session_with_retry *)
Definition claim_session_with_retry (id : Uuid) (initial_mode : ReentryMode) (db : Db) : Db * bool :=
  let '(db, claimed) := claim_session_for_reentry id initial_mode db in
  if claimed : bool then (db, true) else
  match sessions db !! id with
  | None => (db, false)
  | Some _ => claim_session_for_reentry id ExplicitResume db
  end.

(* @src opex-db/src/sessions.rs 1168-1178 increment_retry_count *)
Definition increment_retry_count (id : Uuid) (db : Db) : Db * option Z :=
  let '(db', ok) := update_session id (status_among ["running"; "done"]) retry_row db in
  (db', if ok : bool then s_retries <$> sessions db' !! id else None).
(* @src opex-db/src/sessions.rs 1189-1200 claim_redrive *)
Definition claim_redrive (id : Uuid) (max_retries : Z) (db : Db) : Db * option Z :=
  let '(db', ok) := update_session id
    (λ r, status_among ["interrupted"; "done"] r && (s_retries r <? max_retries)%Z) retry_row db in
  (db', if ok : bool then s_retries <$> sessions db' !! id else None).
(* @src opex-db/src/sessions.rs 1283-1289 mark_session_failed *)
Definition mark_session_failed (id : Uuid) (db : Db) : Db :=
  (update_session id (status_is "running") (set_status (bs "failed")) db).1.

(** An activity mark younger than ten seconds is left alone. *)
Definition stale_activity (now : Z) (r : SessionRow) : bool :=
  match s_activity r with None => true | Some t => (t <? now - 10000000)%Z end.
(* @src opex-db/src/sessions.rs 1059-1070 touch_session_activity *)
Definition touch_session_activity (id : Uuid) (now : Z) (db : Db) : Db :=
  (update_session id (λ r, status_is "running" r && stale_activity now r) (set_activity now) db).1.
(* @src opex-db/src/session_timeline.rs 41-76 log_event_tx *)
Definition log_event (id : Uuid) (event_type : str) (payload : option V) (now : Z) (db : Db) : option Db :=
  _ ← sessions db !! id;
  Some (touch_session_activity id now (on_timeline (λ l, l ++ [mkEvent id event_type payload]) db)).

(* @src opex-db/src/sessions.rs 522-532 resume_session *)
Definition resume_session (id : Uuid) (now : Z) (db : Db) : Db * bool :=
  update_session id (λ _, true) (set_last now) db.

(** With everything that refers to it ([ON DELETE CASCADE]). *)
Definition delete_sessions (p : Uuid → SessionRow → bool) (db : Db) : Db :=
  let gone id := match sessions db !! id with Some r => p id r | None => false end in
  let db := delete_messages (λ m, gone (m_session m)) db in
  mkDb (filter (λ kr, p kr.1 kr.2 = false) (sessions db)) (messages db)
    (List.filter (λ e, negb (gone (ev_session e))) (timeline db))
    (filter (λ kj, gone (j_session kj.2) = false) (jobs db))
    (List.filter (λ f, negb (gone (f_session f))) (failures db)).
(* @src opex-db/src/sessions.rs 1666-1672 delete_session *)
Definition delete_session (id : Uuid) (db : Db) : Db := delete_sessions (λ k _, bool_decide (k = id)) db.
(* @src opex-db/src/sessions.rs 1589-1600 cleanup_old_sessions *)
Definition cleanup_old_sessions (ttl_days now : Z) (db : Db) : Db :=
  if (ttl_days =? 0)%Z then db else
  delete_sessions (λ _ r, s_last r <? now - ttl_days * 86400000000)%Z db.
(** The sessions of an agent that are not running, the latest first; those of
    the same time in some order. *)
Definition ranked (agent : str) (db : Db) : list (Uuid * SessionRow) :=
  sort_by (λ a b : Uuid * SessionRow, (s_last b.2 <? s_last a.2)%Z)
    (List.filter (λ kr : Uuid * SessionRow, bool_decide (s_agent kr.2 = agent) && negb (status_is "running" kr.2))
       (map_to_list (sessions db))).
Definition excess (max_per_agent : nat) (db : Db) (id : Uuid) (r : SessionRow) : bool :=
  bool_decide (id ∈ (drop max_per_agent (ranked (s_agent r) db)).*1).
(* @src opex-db/src/sessions.rs 1606-1628 cleanup_excess_sessions_per_agent *)
Definition cleanup_excess_sessions_per_agent (max_per_agent : nat) (db : Db) : Db :=
  if bool_decide (max_per_agent = 0) then db else delete_sessions (excess max_per_agent db) db.
(* @src opex-core/src/gateway/handlers/sessions.rs 306-316 api_delete_session *)
Definition api_delete_session (id : Uuid) (agent : str) (db : Db) : Db :=
  let own := from_option (λ r, bool_decide (s_agent r = agent)) false (sessions db !! id) in
  delete_sessions (λ k r, bool_decide (k = id) && bool_decide (s_agent r = agent))
    (delete_messages (λ m, in_session id m && own) db).
Definition delete_where (p : SessionRow → bool) (db : Db) : Db :=
  delete_sessions (λ _ r, p r) (delete_messages (λ m, from_option p false (sessions db !! m_session m)) db).
(** By channels, or else by agent. *)
(* @src opex-core/src/gateway/handlers/sessions.rs 386-414 api_delete_all_sessions *)
Definition api_delete_all_sessions (channel agent : option str) (db : Db) : Db :=
  match channel, agent with
  | Some cs, _ => delete_where (λ r, bool_decide (s_channel r ∈ split_on ","%char cs)) db
  | None, Some a => delete_where (λ r, bool_decide (s_agent r = a)) db
  | None, None => db
  end.
(* @src opex-core/src/gateway/handlers/agents/crud.rs 1295-1298 purge_agent_history (sessions) *)
Definition purge_sessions_of (agent : str) (db : Db) : Db :=
  delete_sessions (λ _ r, bool_decide (s_agent r = agent)) db.

(** ** Finding the session of a message *)

(* @src opex-db/src/sessions.rs 103-114 dm_scope_keys *)
Definition dm_scope_keys (user_id channel dm_scope : str) (chat_scope : option str) : str * str * option str :=
  if bool_decide (dm_scope = bs "shared") || bool_decide (dm_scope = bs "per-peer") then (user_id, bs "*", None)
  else if bool_decide (dm_scope = bs "per-chat") then (bs "*", channel, chat_scope)
  else (user_id, channel, chat_scope).

(** The row of greatest [key] among those that satisfy [p]. *)
Definition newer {A} (key : A → Z) (best : option A) (x : A) : option A :=
  match best with
  | Some y => if (key y <? key x)%Z then Some x else best
  | None => Some x
  end.
Definition newest {A} (key : A → Z) (l : list A) : option A := foldl (newer key) None l.

Definition session_key (agent user channel : str) (chat : option str) (r : SessionRow) : bool :=
  bool_decide (s_agent r = agent) && bool_decide (s_user r = user) && bool_decide (s_channel r = channel) &&
  bool_decide (s_chat r = chat).
Definition active (now : Z) (r : SessionRow) : bool := (now - 14400000000 <? s_last r)%Z.
Definition active_session (agent user channel : str) (chat : option str) (now : Z) (db : Db)
    : option (Uuid * SessionRow) :=
  newest (λ kr, s_last kr.2)
    (List.filter (λ kr, session_key agent user channel chat kr.2 && active now kr.2) (map_to_list (sessions db))).

(* @src opex-db/src/sessions.rs 131-162 resolve_active_dm_session *)
Definition resolve_active_dm_session (agent_id user_id channel dm_scope : str) (chat_scope : option str)
    (now : Z) (db : Db) : option (Uuid * option SessionStatus) :=
  let '(eff_user, eff_channel, eff_chat) := dm_scope_keys user_id channel dm_scope chat_scope in
  '(id, r) ← active_session agent_id eff_user eff_channel eff_chat now db;
  Some (id, s_status r ≫= parse).
(* @src opex-db/src/sessions.rs 1638-1663 find_active_session *)
Definition find_active_session (agent_id user_id channel dm_scope : str) (chat_scope : option str)
    (now : Z) (db : Db) : option Uuid :=
  let '(eff_user, eff_channel, eff_chat) := dm_scope_keys user_id channel dm_scope chat_scope in
  fst <$> active_session agent_id eff_user eff_channel eff_chat now db.

Definition new_session (agent user channel : str) (chat : option str) (now : Z) : SessionRow :=
  mkSession agent user channel chat None now None 0.
Definition insert_session (id : Uuid) (r : SessionRow) (db : Db) : Db := on_sessions <[id := r]> db.

(* @src opex-db/src/sessions.rs 295-312 create_new_session *)
Definition create_new_session (id : Uuid) (agent_id user_id channel : str) (now : Z) (db : Db) : Db :=
  insert_session id (new_session agent_id user_id channel None now) db.
(* @src opex-db/src/sessions.rs 319-338 create_new_session_with_id *)
Definition create_new_session_with_id (id : Uuid) (agent_id user_id channel : str) (now : Z) (db : Db) : Db :=
  match sessions db !! id with
  | Some _ => db
  | None => insert_session id (new_session agent_id user_id channel None now) db
  end.

(** How a session that was found is entered. *)
(* @src opex-db/src/sessions.rs 254-274 get_or_create_session *)
Definition reentry_of (status : option str) : ReentryMode :=
  match status ≫= parse with
  | Some s => if is_terminal s && negb (bool_decide (s = Done)) then ExplicitResume else classify (Some s)
  | None => NewTurnAfterDone
  end.
(* @src opex-db/src/sessions.rs 178-277 get_or_create_session *)
Definition get_or_create_session (new_id : Uuid) (agent_id user_id channel dm_scope : str)
    (chat_scope : option str) (now : Z) (db : Db) : Db * Uuid * ReentryMode :=
  let '(eff_user, eff_channel, eff_chat) := dm_scope_keys user_id channel dm_scope chat_scope in
  match active_session agent_id eff_user eff_channel eff_chat now db with
  | Some (id, r) => (db, id, reentry_of (s_status r))
  | None => (insert_session new_id (new_session agent_id eff_user eff_channel eff_chat now) db, new_id, NewSession)
  end.

(** ** Tool calls without a result *)

(* @src opex-db/src/sessions.rs 32-32 INTERRUPTED_TOOL_RESULT *)
Definition INTERRUPTED_TOOL_RESULT : str :=
  bs "[interrupted:verify] This tool call was interrupted before its result was recorded; it may or may not have completed its side effect (file write, message send, code execution, etc.). Verify the current state before repeating the action.".

(** The ids a message declares; [jsonb_array_length] of a value that is no
    array is an error. *)
Definition call_ids_of (calls : list V) : list str := omap (λ c, jget c (bs "id") ≫= jas_str) calls.
Definition array_or_fail (tool_calls : option V) : option (list V) :=
  match tool_calls with None => Some [] | Some v => jas_array v end.
(* @src opex-db/src/sessions.rs 1344-1368 insert_synthetic_tool_results_tx (calls) *)
Definition declared_call_ids (id : Uuid) (db : Db) : option (list str) :=
  lists ← mapM (λ m, array_or_fail (m_tool_calls m))
            (List.filter (λ m, in_session id m && has_role "assistant" m) (messages db));
  Some (concat (call_ids_of <$> lists)).
(** The ids that some tool message of the session answers. *)
(* @src opex-db/src/sessions.rs 1373-1381 insert_synthetic_tool_results_tx (existing) *)
Definition answered_ids (id : Uuid) (db : Db) : list str :=
  omap m_tool_call_id (List.filter (λ m, in_session id m && has_role "tool" m) (messages db)).

Definition synthetic_result (session : Uuid) (now : Z) (id : Uuid) (call_id : str) : MessageRow :=
  mkMessage id session (bs "tool") INTERRUPTED_TOOL_RESULT None (Some call_id) now (bs "complete") None.
(** The rows of the batches of [chunks]; [ids] are the generated keys. *)
(* @src opex-db/src/sessions.rs 1407-1433 insert_synthetic_tool_results_tx (inserts) *)
Fixpoint insert_results (session : Uuid) (now : Z) (ids : nat → Uuid) (call_ids : list str) (db : Db) : option Db :=
  match call_ids with
  | [] => Some db
  | c :: rest =>
      db ← insert_message (synthetic_result session now (ids 0) c) db;
      insert_results session now (λ k, ids (S k)) rest db
  end.
(* @src opex-db/src/sessions.rs 1339-1435 insert_synthetic_tool_results_tx *)
Definition insert_synthetic_tool_results_tx (id : Uuid) (now : Z) (ids : nat → Uuid) (db : Db) : option (Db * nat) :=
  all_call_ids ← declared_call_ids id db;
  let missing := List.filter (λ c, negb (bool_decide (c ∈ answered_ids id db))) all_call_ids in
  db ← insert_results id now ids missing db;
  Some (db, length missing).
(* @src opex-db/src/sessions.rs 1441-1460 insert_missing_tool_results *)
Definition insert_missing_tool_results (id : Uuid) (call_ids : list str) (now : Z) (ids : nat → Uuid) (db : Db) : option Db :=
  insert_results id now ids call_ids db.

(** Whether an assistant message of the session declares the call. *)
Definition declares (call_id : str) (m : MessageRow) : bool :=
  has_role "assistant" m &&
  match m_tool_calls m ≫= jas_array with
  | Some calls => existsb (λ c, bool_decide ((jget c (bs "id") ≫= jas_str) = Some call_id)) calls
  | None => false
  end.
Definition orphan_result (db : Db) (t : MessageRow) : bool :=
  has_role "tool" t &&
  match m_tool_call_id t with
  | Some c => negb (existsb (λ a, in_session (m_session t) a && declares c a) (messages db))
  | None => false
  end.
(* @src opex-db/src/sessions.rs 1215-1233 sweep_orphan_tool_results *)
Definition sweep_orphan_tool_results (db : Db) : Db := delete_messages (orphan_result db) db.
(* @src opex-db/src/sessions.rs 1244-1264 sweep_orphan_tool_results_for_session *)
Definition sweep_orphan_tool_results_for_session (id : Uuid) (db : Db) : Db :=
  delete_messages (λ m, in_session id m && orphan_result db m) db.
(* @src opex-db/src/sessions.rs 1311-1321 delete_empty_assistant_messages *)
Definition delete_empty_assistant_messages (id : Uuid) (db : Db) : Db :=
  delete_messages (λ m, in_session id m && has_role "assistant" m && bool_decide (m_content m = []) &&
                        match m_tool_calls m with None => true | Some v => bool_decide (length <$> jas_array v = Some 0) end) db.

(** ** Ending a session *)

Definition interrupted_message (m : MessageRow) : MessageRow :=
  set_message_status (bs "interrupted")
    (set_message_content (if bool_decide (m_content m = []) then bs "[interrupted]" else m_content m) m).
(* @src opex-db/src/sessions.rs 982-995 cleanup_session_streaming_messages *)
Definition cleanup_session_streaming_messages (id : Uuid) (db : Db) : Db :=
  update_messages (λ m, in_session id m && streaming m) interrupted_message db.

Definition reason_payload (reason : str) : V := jinsert (bs "reason") (jstring reason) jempty.
(** The four steps are one transaction: [None] leaves the store as it was. *)
(* @src opex-db/src/sessions.rs 1006-1053 cleanup_session_terminated *)
Definition cleanup_session_terminated (id : Uuid) (target_status reason : str) (now : Z) (ids : nat → Uuid)
    (db : Db) : Db * option bool :=
  let '(db1, claimed) := update_session id (status_is "running") (set_status target_status) db in
  if negb claimed then (db, Some false) else
  let db2 := cleanup_session_streaming_messages id db1 in
  match '(db3, _) ← insert_synthetic_tool_results_tx id now ids db2;
        log_event id target_status (Some (reason_payload reason)) now db3 with
  | Some db4 => (db4, Some true)
  | None => (db, None)
  end.

(** Sessions cleaned up in turn; a failure is logged and passed over. *)
(* @src opex-db/src/sessions.rs 1511-1517 cleanup_interrupted_sessions (sessions) *)
Fixpoint terminate_all (l : list Uuid) (target reason : str) (now : Z) (ids : nat → nat → Uuid) (db : Db) : Db :=
  match l with
  | [] => db
  | id :: rest =>
      terminate_all rest target reason now (λ k, ids (S k))
        (cleanup_session_terminated id target reason now (ids 0) db).1
  end.
(* @src opex-db/src/sessions.rs 1500-1504 cleanup_interrupted_sessions (running) *)
Definition running_ids (db : Db) : list Uuid :=
  fst <$> List.filter (λ kr, status_is "running" kr.2) (map_to_list (sessions db)).
(* @src opex-db/src/sessions.rs 1482-1489 cleanup_interrupted_sessions (streams) *)
Definition stranded (db : Db) (m : MessageRow) : bool :=
  streaming m && match sessions db !! m_session m with
                 | Some r => negb (status_is "running" r)
                 | None => false
                 end.
(* @src opex-db/src/sessions.rs 1466-1534 cleanup_interrupted_sessions *)
Definition cleanup_interrupted_sessions (now : Z) (ids : nat → nat → Uuid) (db : Db) : Db * nat :=
  let db := update_messages (stranded db) interrupted_message db in
  let interrupted := take 100 (running_ids db) in
  (terminate_all interrupted (bs "interrupted") (bs "crash_recovery") now ids db, length interrupted).
(** The loop of the startup. *)
(* @src opex-core/src/main.rs 983-999 cleanup_interrupted_sessions *)
Fixpoint startup_cleanup (fuel : nat) (now : Z) (ids : nat → nat → nat → Uuid) (db : Db) : option Db :=
  match fuel with
  | O => None
  | S fuel' =>
      match cleanup_interrupted_sessions now (ids 0) db with
      | (db, O) => Some db
      | (db, _) => startup_cleanup fuel' now (λ k, ids (S k)) db
      end
  end.
(* @src opex-db/src/sessions.rs 1550-1569 mark_all_running_sessions_terminated *)
Definition mark_all_running_sessions_terminated (reason : str) (now : Z) (ids : nat → nat → Uuid) (db : Db) : Db :=
  terminate_all (running_ids db) (bs "interrupted") reason now ids db.
(* @src opex-db/src/sessions.rs 1573-1586 finalize_truly_stale_sessions *)
Definition finalize_truly_stale_sessions (threshold_secs now : Z) (db : Db) : Db :=
  update_sessions
    (λ r, status_is "running" r && (default (s_last r) (s_activity r) <? now - threshold_secs * 1000000)%Z)
    (set_status (bs "interrupted")) db.

(** ** Messages *)

(* @src opex-db/src/sessions.rs 555-561 sanitize_pg_text *)
Definition sanitize_pg_text (s : str) : str := List.filter (λ c, negb (bool_decide (c = "000"%char))) s.

(* @src opex-db/src/sessions.rs 581-609 save_message_ex *)
Definition save_message_ex (id session : Uuid) (role content : str) (tool_calls : option V)
    (tool_call_id : option str) (parent_id : option Uuid) (now : Z) (db : Db) : option Db :=
  insert_message (mkMessage id session role (sanitize_pg_text content) tool_calls tool_call_id now (bs "complete") parent_id) db.
(** [ON CONFLICT (id) DO NOTHING] *)
(* @src opex-db/src/sessions.rs 627-662 save_message_ex_with_id *)
Definition save_message_ex_with_id (id session : Uuid) (role content : str) (tool_calls : option V)
    (tool_call_id : option str) (parent_id : option Uuid) (now : Z) (db : Db) : option Db :=
  match find_message id db with
  | Some _ => Some db
  | None => save_message_ex id session role content tool_calls tool_call_id parent_id now db
  end.
(* @src opex-db/src/sessions.rs 568-577 message_exists_in_session *)
Definition message_exists_in_session (id session : Uuid) (db : Db) : bool :=
  existsb (λ m, bool_decide (m_id m = id) && in_session session m) (messages db).

(** The row of the answer while it streams, attached to the last request. *)
(* @src opex-db/src/sessions.rs 822-851 upsert_streaming_message *)
Definition upsert_streaming_message (id session : Uuid) (content : str) (tool_calls : option V) (now : Z) (db : Db)
    : option Db :=
  db ← match find_message id db with
       | Some _ =>
           Some (update_messages (λ m, bool_decide (m_id m = id))
                   (λ m, set_message_content content (set_message_calls tool_calls m)) db)
       | None =>
           let user := newest m_created (List.filter (λ m, in_session session m && has_role "user" m) (messages db)) in
           insert_message (mkMessage id session (bs "assistant") content tool_calls None now (bs "streaming") (m_id <$> user)) db
       end;
  Some (touch_session_activity session now db).
(* @src opex-db/src/sessions.rs 854-861 finalize_streaming_message *)
Definition finalize_streaming_message (id : Uuid) (db : Db) : Db :=
  delete_messages (λ m, bool_decide (m_id m = id) && streaming m) db.

(* @src opex-db/src/sessions.rs 1976-1976 MAX_PARTIAL_BYTES *)
Definition MAX_PARTIAL_BYTES : nat := 256 * 1024.
(* @src opex-db/src/sessions.rs 1983-1994 truncate_partial *)
Definition truncate_partial (content : str) : str :=
  if length content <=? MAX_PARTIAL_BYTES then content
  else take (floor_char_boundary content MAX_PARTIAL_BYTES) content.
(* @src opex-db/src/sessions.rs 2007-2035 insert_assistant_partial *)
Definition insert_assistant_partial (id session : Uuid) (content : str) (parent : option Uuid) (now : Z) (db : Db)
    : option Db :=
  insert_message (mkMessage id session (bs "assistant") (truncate_partial content) None None now (bs "aborted") parent) db.
(* @src opex-db/src/sessions.rs 2064-2106 mirror_to_session *)
Definition mirror_to_session (id : Uuid) (agent_id channel participant_id : str) (chat_scope : option str)
    (text : str) (now : Z) (db : Db) : option (Db * bool) :=
  if bool_decide (participant_id = bs "*") then Some (db, false) else
  match resolve_active_dm_session agent_id participant_id channel (bs "per-channel-peer") chat_scope now db with
  | None => Some (db, false)
  | Some (session, _) =>
      db ← insert_message (mkMessage id session (bs "assistant") text None None now (bs "complete") None) db;
      Some (db, true)
  end.

(** ** Stream jobs *)

(* @src opex-core/src/gateway/stream_jobs.rs 18-26 create_job *)
Definition create_job (id session : Uuid) (now : Z) (db : Db) : option Db :=
  _ ← sessions db !! session;
  Some (mkDb (sessions db) (messages db) (timeline db) (<[id := mkJob session now]> (jobs db)) (failures db)).
(** A later job of the same session. *)
(* @src opex-core/src/gateway/stream_jobs.rs 97-108 is_superseded *)
Definition is_superseded (id : Uuid) (db : Db) : bool :=
  match jobs db !! id with
  | Some mine =>
      existsb (λ kj, bool_decide (j_session kj.2 = j_session mine) && (j_created mine <? j_created kj.2)%Z)
        (map_to_list (jobs db))
  | None => false
  end.

(** ** The guard of a turn *)

(* @src opex-core/src/agent/session_manager.rs 219-224 SessionOutcome *)
Inductive SessionOutcome := ORunning | ODone | OFailed | OInterrupted.
#[local] Instance outcome_eq_dec : EqDecision SessionOutcome.
Proof. solve_decision. Defined.

(* @src opex-core/src/agent/session_manager.rs 239-276 SessionLifecycleGuard *)
Record Guard := mkGuard {
  g_session : Uuid; g_outcome : SessionOutcome; g_agent : option str; g_recorded : bool; g_job : option Uuid }.
(* @src opex-core/src/agent/session_manager.rs 279-289 new *)
Definition new_guard (id : Uuid) (agent : option str) (job : option Uuid) : Guard := mkGuard id ORunning agent false job.

(** Which statements of one call the database refuses. *)
Record Faults := mkFaults { no_check : bool; no_write : bool; no_event : bool }.
Definition no_faults : Faults := mkFaults false false false.

(* @src opex-core/src/agent/session_manager.rs 309-326 superseded_by_newer_turn *)
Definition superseded_by_newer_turn (g : Guard) (f : Faults) (db : Db) : bool :=
  match g_job g with
  | Some job => negb (no_check f) && is_superseded job db
  | None => false
  end.
(** The common body of [done], [fail] and [interrupt]. *)
(* @src opex-core/src/agent/session_manager.rs 337-390 skip_terminal_write_if_superseded, done *)
Definition finish (outcome : SessionOutcome) (status : SessionStatus) (payload : option V) (f : Faults) (now : Z)
    (g : Guard) (db : Db) : Guard * Db :=
  if superseded_by_newer_turn g f db
  then (mkGuard (g_session g) OInterrupted (g_agent g) true (g_job g), db) else
  if no_write f then (mkGuard (g_session g) (g_outcome g) (g_agent g) true (g_job g), db) else
  let db := set_session_run_status (g_session g) (as_str status) db in
  let db := if no_event f then db else default db (log_event (g_session g) (as_str status) payload now db) in
  (mkGuard (g_session g) outcome (g_agent g) true (g_job g), db).
(* @src opex-core/src/agent/session_manager.rs 367-390 done *)
Definition guard_done := finish ODone Done None.
(* @src opex-core/src/agent/session_manager.rs 398-423 fail *)
Definition guard_fail (reason : str) := finish OFailed Failed (Some (reason_payload reason)).
(* @src opex-core/src/agent/session_manager.rs 430-452 interrupt *)
Definition guard_interrupt (reason : str) := finish OInterrupted Interrupted (Some (reason_payload reason)).

Definition EARLY_EXIT : str := bs "guard dropped (early exit)".
(** The task spawned when the guard goes out of scope. *)
(* @src opex-core/src/agent/session_manager.rs 456-579 drop *)
Definition guard_drop (f : Faults) (now : Z) (ids : nat → Uuid) (g : Guard) (db : Db) : Db :=
  if negb (bool_decide (g_outcome g = ORunning)) then db else
  let claim_status := if g_recorded g then bs "failed" else bs "interrupted" in
  if superseded_by_newer_turn g f db then db else
  if no_write f then db else
  match cleanup_session_terminated (g_session g) claim_status EARLY_EXIT now ids db with
  | (db, Some true) =>
      match g_recorded g, g_agent g with
      | false, Some agent =>
          if no_event f then db else
          on_failures (λ l, l ++ [mkFailure (g_session g) agent (bs "guard_dropped") EARLY_EXIT]) db
      | _, _ => db
      end
  | (db, _) => db
  end.

(** ** What the statements do to the rows *)

(** Every session stays, and its row is related to its former row by [Q]. *)
Definition keeps (Q : SessionRow → SessionRow → Prop) (db db' : Db) : Prop :=
  ∀ id r, sessions db !! id = Some r → ∃ r', sessions db' !! id = Some r' ∧ Q r r'.

#[local] Instance keeps_refl Q `{!Reflexive Q} : Reflexive (keeps Q).
Proof. intros db id r Hr. by exists r. Qed.
#[local] Instance keeps_trans Q `{!Transitive Q} : Transitive (keeps Q).
Proof.
  intros db1 db2 db3 H1 H2 id r Hr. destruct (H1 id r Hr) as (r2 & Hr2 & Hq).
  destruct (H2 id r2 Hr2) as (r3 & Hr3 & Hq3). exists r3. split; [done|by etrans].
Qed.

Section rows.
Context (Q : SessionRow → SessionRow → Prop) `{!PreOrder Q}.

Lemma keeps_same db db' : sessions db' = sessions db → keeps Q db db'.
Proof. intros He id r Hr. exists r. rewrite He. done. Qed.
Lemma keeps_update_session id p f db :
  (∀ r, p r = true → Q r (f r)) → keeps Q db (update_session id p f db).1.
Proof.
  intros HQ id' r Hr. unfold update_session.
  destruct (sessions db !! id) as [r0|] eqn:Hrow; [|by exists r].
  destruct (p r0) eqn:Hp; [|by exists r]. cbn. destruct (decide (id = id')) as [->|Hne].
  - rewrite lookup_insert_eq. exists (f r0). split; [done|]. rewrite Hr in Hrow. injection Hrow as <-. by apply HQ.
  - rewrite lookup_insert_ne by done. by exists r.
Qed.
Lemma keeps_update_sessions p f db :
  (∀ r, p r = true → Q r (f r)) → keeps Q db (update_sessions p f db).
Proof.
  intros HQ id r Hr. cbn. rewrite lookup_fmap, Hr. cbn. eexists. split; [done|].
  destruct (p r) eqn:Hp; [by apply HQ|done].
Qed.

(** The changes that concern no status. *)
Context (HQ : ∀ r r', s_status r' = s_status r → s_retries r' = s_retries r → Q r r').

Lemma keeps_insert_message m db db' : insert_message m db = Some db' → keeps Q db db'.
Proof using All.
  unfold insert_message. destruct (sessions db !! m_session m) as [r0|]; [cbn|done].
  do 2 (case_match; try done). intros [= <-].
  etrans; [apply (keeps_update_session (m_session m) (λ _, true) (set_last (m_created m)))|].
  { intros r _. by apply HQ. }
  by apply keeps_same.
Qed.
Lemma keeps_insert_results id now ids cs db db' : insert_results id now ids cs db = Some db' → keeps Q db db'.
Proof using All.
  revert ids db. induction cs as [|c cs IH]; intros ids db; cbn; [by intros [= ->]|].
  destruct (insert_message _ db) as [db1|] eqn:Hi; [cbn|done]. intros Hr.
  etrans; [by eapply keeps_insert_message|by eapply IH].
Qed.
Lemma keeps_touch id now db : keeps Q db (touch_session_activity id now db).
Proof using All. apply keeps_update_session. intros r _. by apply HQ. Qed.
Lemma keeps_log_event id t p now db db' : log_event id t p now db = Some db' → keeps Q db db'.
Proof using All.
  unfold log_event. destruct (sessions db !! id); [cbn|done]. intros [= <-].
  etrans; [|apply keeps_touch]. by apply keeps_same.
Qed.

(** The transaction that ends a session moves a running session only. *)
Context (HT : ∀ r t, status_is "running" r = true → Q r (set_status t r)).

Lemma keeps_terminated id target reason now ids db :
  keeps Q db (cleanup_session_terminated id target reason now ids db).1.
Proof using All.
  unfold cleanup_session_terminated.
  pose proof (keeps_update_session id (status_is "running") (set_status target) db (λ r, HT r target)) as Hk.
  destruct (update_session _ _ _ db) as [db1 []]; [|done]. cbn [negb fst] in *.
  destruct (insert_synthetic_tool_results_tx id now ids _) as [[db3 n]|] eqn:Hi; [cbn|done].
  destruct (log_event _ _ _ _ db3) as [db4|] eqn:Hl; [cbn|done].
  unfold insert_synthetic_tool_results_tx in Hi.
  destruct (declared_call_ids _ _); [cbn in Hi|done].
  destruct (insert_results _ _ _ _ _) as [db3'|] eqn:Hr; [cbn in Hi|done]. injection Hi as -> _.
  etrans; [exact Hk|]. etrans; [|by eapply keeps_log_event]. etrans; [|by eapply keeps_insert_results].
  by apply keeps_same.
Qed.
Lemma keeps_terminate_all l target reason now ids db : keeps Q db (terminate_all l target reason now ids db).
Proof using All.
  revert ids db. induction l as [|id l IH]; intros ids db; cbn; [done|].
  etrans; [apply keeps_terminated|apply IH].
Qed.
Lemma keeps_cleanup now ids db : keeps Q db (cleanup_interrupted_sessions now ids db).1.
Proof using All. unfold cleanup_interrupted_sessions. cbn. etrans; [|apply keeps_terminate_all]. by apply keeps_same. Qed.
Lemma keeps_startup fuel now ids db db' : startup_cleanup fuel now ids db = Some db' → keeps Q db db'.
Proof using All.
  revert ids db. induction fuel as [|fuel IH]; intros ids db; cbn [startup_cleanup]; [done|].
  pose proof (keeps_cleanup now (ids 0) db) as Hk.
  destruct (cleanup_interrupted_sessions _ _ db) as [db1 []]; cbn [fst] in Hk; [by intros [= <-]|].
  intros Hs. etrans; [exact Hk|by eapply IH].
Qed.
Lemma keeps_finish o st p f now g db :
  (∀ r, status_null r || status_is "running" r = true → Q r (set_status (as_str st) r)) →
  keeps Q db (finish o st p f now g db).2.
Proof using All.
  intros Hs. unfold finish. case_match; [done|]. case_match; [done|]. cbn.
  etrans; [by apply (keeps_update_session (g_session g) (λ r, status_null r || status_is "running" r) (set_status (as_str st)))|].
  fold (set_session_run_status (g_session g) (as_str st) db). case_match; [done|].
  destruct (log_event _ _ _ _ _) eqn:Hl; [|done]. by eapply keeps_log_event.
Qed.
Lemma keeps_drop f now ids g db : keeps Q db (guard_drop f now ids g db).
Proof using All.
  unfold guard_drop. do 3 (case_match; [done|]).
  pose proof (keeps_terminated (g_session g) (if g_recorded g then bs "failed" else bs "interrupted") EARLY_EXIT now ids db) as Hk.
  destruct (cleanup_session_terminated _ _ _ _ _ db) as [db1 o]. cbn [fst] in Hk.
  destruct o as [[]|]; [|done..]. destruct (g_recorded g), (g_agent g); try done.
  case_match; [done|]. etrans; [exact Hk|by apply keeps_same].
Qed.
End rows.

(** ** The status machine *)

(** The operations that work on existing sessions. *)
Inductive SessionOp :=
| SetStatus (id : Uuid) (status : str)
| Claim (id : Uuid) (mode : ReentryMode)
| IncrementRetry (id : Uuid)
| Redrive (id : Uuid) (max_retries : Z)
| MarkFailed (id : Uuid)
| Resume (id : Uuid)
| LogEvent (id : Uuid) (event_type : str) (payload : option V)
| SaveMessage (m : Uuid) (id : Uuid) (role content : str) (tool_calls : option V) (tool_call_id : option str) (parent : option Uuid)
| StreamMessage (m : Uuid) (id : Uuid) (content : str) (tool_calls : option V)
| Terminate (id : Uuid) (target reason : str) (ids : nat → Uuid)
| Startup (ids : nat → nat → Uuid)
| Shutdown (reason : str) (ids : nat → nat → Uuid)
| FinalizeStale (threshold_secs : Z)
| Finish (o : SessionOutcome) (status : SessionStatus) (payload : option V) (f : Faults) (g : Guard)
| DropGuard (f : Faults) (ids : nat → Uuid) (g : Guard).

Definition run_op (now : Z) (op : SessionOp) (db : Db) : Db :=
  match op with
  | SetStatus id status => set_session_run_status id status db
  | Claim id mode => (claim_session_with_retry id mode db).1
  | IncrementRetry id => (increment_retry_count id db).1
  | Redrive id max => (claim_redrive id max db).1
  | MarkFailed id => mark_session_failed id db
  | Resume id => (resume_session id now db).1
  | LogEvent id t p => default db (log_event id t p now db)
  | SaveMessage m id role content tcs tcid parent =>
      default db (save_message_ex_with_id m id role content tcs tcid parent now db)
  | StreamMessage m id content tcs => default db (upsert_streaming_message m id content tcs now db)
  | Terminate id target reason ids => (cleanup_session_terminated id target reason now ids db).1
  | Startup ids => (cleanup_interrupted_sessions now ids db).1
  | Shutdown reason ids => mark_all_running_sessions_terminated reason now ids db
  | FinalizeStale secs => finalize_truly_stale_sessions secs now db
  | Finish o status payload f g => (finish o status payload f now g db).2
  | DropGuard f ids g => guard_drop f now ids g db
  end.
(** The operations that start a turn. *)
Definition claiming (op : SessionOp) : bool :=
  match op with Claim _ _ | IncrementRetry _ | Redrive _ _ => true | _ => false end.

(** A statement that starts nothing leaves every status but [NULL] and
    [running] alone. *)
Definition settled (r r' : SessionRow) : Prop :=
  s_status r = s_status r' ∨ ((s_status r = None ∨ s_status r = Some (bs "running")) ∧ s_status r' ≠ None).
Definition started (r r' : SessionRow) : Prop :=
  s_status r' = s_status r ∨ s_status r' = Some (bs "running").
#[local] Instance settled_preorder : PreOrder settled.
Proof. split; [by left|]. intros r1 r2 r3 [H1|[H1 H1']] [H2|[H2 H2']]; unfold settled in *; naive_solver congruence. Qed.
#[local] Instance started_preorder : PreOrder started.
Proof. split; [by left|]. intros r1 r2 r3 [H1|H1] [H2|H2]; unfold started in *; naive_solver congruence. Qed.

Lemma settled_same r r' : s_status r' = s_status r → s_retries r' = s_retries r → settled r r'.
Proof. intros He _. by left. Qed.
Lemma settled_running r t : status_is "running" r = true → settled r (set_status t r).
Proof. intros Hr%bool_decide_eq_true. right. by split; [right|]. Qed.
Lemma settled_open r t : status_null r || status_is "running" r = true → settled r (set_status t r).
Proof.
  intros [Hr%bool_decide_eq_true|Hr%bool_decide_eq_true]%orb_true_iff; right; split; [by left|done|by right|done].
Qed.


Lemma default_keeps Q `{!Reflexive Q} (db : Db) o :
  (∀ db', o = Some db' → keeps Q db db') → keeps Q db (default db o).
Proof. intros Ho. destruct o; [by apply Ho|done]. Qed.

Section ops.
Context (Q : SessionRow → SessionRow → Prop) `{!PreOrder Q}.
Context (HQ : ∀ r r', s_status r' = s_status r → s_retries r' = s_retries r → Q r r').
Context (HT : ∀ r t, status_is "running" r = true → Q r (set_status t r)).
Context (HN : ∀ r t, status_null r || status_is "running" r = true → Q r (set_status t r)).

Lemma keeps_op now op db : claiming op = false → keeps Q db (run_op now op db).
Proof using All.
  destruct op; cbn [claiming run_op]; try done; intros _.
  - apply (keeps_update_session Q). intros r Hp. by apply HN.
  - apply (keeps_update_session Q). intros r Hp. by apply HT.
  - apply (keeps_update_session Q). intros r _. by apply HQ.
  - apply (default_keeps Q). intros db' Hl. by eapply keeps_log_event.
  - apply (default_keeps Q). intros db'. unfold save_message_ex_with_id, save_message_ex.
    case_match; [by intros [= ->]|]. intros Hi. by eapply keeps_insert_message.
  - apply (default_keeps Q). intros db'. unfold upsert_streaming_message.
    destruct (find_message m db) as [m0|]; cbn [mbind option_bind].
    + intros [= <-]. etrans; [|by apply keeps_touch]. by apply keeps_same.
    + destruct (insert_message _ db) as [db1|] eqn:Hi; [cbn [mbind option_bind]|done]. intros [= <-].
      etrans; [|by apply keeps_touch]. by eapply keeps_insert_message.
  - by apply keeps_terminated.
  - by apply keeps_cleanup.
  - by apply keeps_terminate_all.
  - apply (keeps_update_sessions Q). intros r [Hr _]%andb_true_iff. by apply HT.
  - apply (keeps_finish Q HQ HT). intros r Hp. by apply HN.
  - by apply keeps_drop.
Qed.
End ops.

Lemma claim_rows id mode db : keeps started db (claim_session_with_retry id mode db).1.
Proof.
  unfold claim_session_with_retry, claim_session_for_reentry.
  pose proof (keeps_update_session started id (allowed_from mode) (set_status (bs "running")) db
    (λ r _, or_intror eq_refl)) as Hk.
  destruct (update_session _ _ _ db) as [db1 []]; cbn [fst] in Hk; [done|].
  case_match; [|done]. etrans; [exact Hk|]. apply (keeps_update_session started). intros r _. by right.
Qed.
Lemma retry_rows id p db : keeps started db (update_session id p retry_row db).1.
Proof. apply (keeps_update_session started). intros r _. by right. Qed.
Lemma started_op now op db : claiming op = true → keeps started db (run_op now op db).
Proof.
  destruct op; cbn [claiming run_op]; try done; intros _.
  - apply claim_rows.
  - unfold increment_retry_count. pose proof (retry_rows id (status_among ["running"; "done"]) db) as Hk.
    by destruct (update_session _ _ _ db).
  - unfold claim_redrive. match goal with |- context [update_session id ?p _ _] => pose proof (retry_rows id p db) as Hk end.
    by destruct (update_session _ _ _ db).
Qed.

Lemma parse_as_str st : parse (as_str st) = Some st.
Proof. by destruct st. Qed.
#[local] Instance as_str_inj : Inj (=) (=) as_str.
Proof. intros a b He. by apply (inj Some); rewrite <- !parse_as_str, He. Qed.

(** The statements that delete sessions. *)
Inductive Removal :=
| Delete (id : Uuid)
| DeleteOld (ttl_days : Z)
| DeleteExcess (max_per_agent : nat)
| ApiDelete (id : Uuid) (agent : str)
| ApiDeleteAll (channel agent : option str)
| Purge (agent : str).
Definition run_removal (now : Z) (d : Removal) (db : Db) : Db :=
  match d with
  | Delete id => delete_session id db
  | DeleteOld ttl => cleanup_old_sessions ttl now db
  | DeleteExcess cap => cleanup_excess_sessions_per_agent cap db
  | ApiDelete id agent => api_delete_session id agent db
  | ApiDeleteAll channel agent => api_delete_all_sessions channel agent db
  | Purge agent => purge_sessions_of agent db
  end.
(** What they are meant to delete; the excess of an agent is what has at least
    [max_per_agent] sessions before it among those of the agent that are not
    running, the latest first. *)
Definition condemned (now : Z) (d : Removal) (db : Db) (id : Uuid) (r : SessionRow) : Prop :=
  match d with
  | Delete k => id = k
  | DeleteOld ttl => ttl ≠ 0%Z ∧ (s_last r < now - ttl * 86400 * 1000000)%Z
  | DeleteExcess cap => cap ≠ 0 ∧ status_is "running" r = false ∧
      ∃ before after, ranked (s_agent r) db = before ++ (id, r) :: after ∧ cap ≤ length before
  | ApiDelete k agent => id = k ∧ s_agent r = agent
  | ApiDeleteAll (Some cs) _ => s_channel r ∈ split_on ","%char cs
  | ApiDeleteAll None (Some a) => s_agent r = a
  | ApiDeleteAll None None => False
  | Purge a => s_agent r = a
  end.

Lemma delete_sessions_row p db id r :
  sessions db !! id = Some r → sessions (delete_sessions p db) !! id = if p id r then None else Some r.
Proof.
  intros Hr. unfold delete_sessions. cbn [sessions]. destruct (p id r) eqn:Hp.
  - apply map_lookup_filter_None. right. intros r' Hr'. change (sessions db !! id = Some r') in Hr'.
    assert (r' = r) as -> by congruence. cbn. by rewrite Hp.
  - apply map_lookup_filter_Some. by split.
Qed.
Lemma ranked_elem agent db id r : (id, r) ∈ ranked agent db → sessions db !! id = Some r ∧ s_agent r = agent ∧ status_is "running" r = false.
Proof.
  unfold ranked. rewrite sort_by_perm, list_elem_of_In, filter_In, <- list_elem_of_In, elem_of_map_to_list. cbn.
  intros [? [?%bool_decide_eq_true ?%negb_true_iff]%andb_true_iff]. done.
Qed.
Lemma excess_spec cap db id r : sessions db !! id = Some r →
  excess cap db id r = true ↔
  status_is "running" r = false ∧ ∃ before after, ranked (s_agent r) db = before ++ (id, r) :: after ∧ cap ≤ length before.
Proof.
  intros Hr. unfold excess. rewrite bool_decide_eq_true. split.
  - intros ([k r'] & Hk & Hin)%list_elem_of_fmap. cbn in Hk. subst k.
    assert (sessions db !! id = Some r' ∧ s_agent r' = s_agent r ∧ status_is "running" r' = false) as (Hr' & _ & Hrun).
    { apply ranked_elem. rewrite <- (take_drop cap (ranked _ _)). apply elem_of_app. by right. }
    rewrite Hr in Hr'. injection Hr' as <-. split; [done|].
    apply list_elem_of_split in Hin as (l1 & l2 & Hl). exists (take cap (ranked (s_agent r) db) ++ l1), l2.
    rewrite <- (take_drop cap (ranked _ _)) at 1. rewrite Hl, <- app_assoc. split; [done|].
    rewrite length_app, length_take. apply (f_equal length) in Hl. rewrite length_drop, length_app in Hl. cbn in Hl. lia.
  - intros (_ & before & after & -> & Hlen). rewrite drop_app_le by done. apply list_elem_of_fmap. exists (id, r). split; [done|].
    apply elem_of_app. right. by left.
Qed.
Lemma removal_row now d db id r : sessions db !! id = Some r →
  (condemned now d db id r ∧ sessions (run_removal now d db) !! id = None) ∨
  (¬ condemned now d db id r ∧ sessions (run_removal now d db) !! id = Some r).
Proof.
  intros Hr.
  assert (∀ p d0 (C : Prop), sessions d0 = sessions db → (p id r = true ↔ C) →
    (C ∧ sessions (delete_sessions p d0) !! id = None) ∨ (¬ C ∧ sessions (delete_sessions p d0) !! id = Some r)) as Hdel.
  { intros p d0 C Hd Hp. rewrite (delete_sessions_row p d0 id r) by (by rewrite Hd). destruct (p id r); [left|right]; naive_solver. }
  destruct d as [k|ttl|cap|k agent|[cs|] agent|agent]; cbn [run_removal condemned].
  - apply Hdel; [done|apply bool_decide_eq_true].
  - unfold cleanup_old_sessions. destruct (Z.eqb_spec ttl 0); [right; split; [by intros []|exact Hr]|].
    apply Hdel; [done|]. rewrite Z.ltb_lt. lia.
  - unfold cleanup_excess_sessions_per_agent. case_bool_decide; [right; split; [by intros []|exact Hr]|].
    apply Hdel; [done|]. rewrite (excess_spec _ _ _ _ Hr). naive_solver.
  - apply Hdel; [done|]. rewrite andb_true_iff, !bool_decide_eq_true. done.
  - apply Hdel; [done|apply bool_decide_eq_true].
  - destruct agent as [a|]; [apply Hdel; [done|apply bool_decide_eq_true]|right; split; [by intros []|exact Hr]].
  - apply Hdel; [done|apply bool_decide_eq_true].
Qed.

(** C39: The store follows the declared status machine.  Take any operation on
    sessions, of a turn or of a cleanup ([SessionOp]), or any statement that
    deletes sessions ([Removal]: one by its id, the old ones, the excess of an
    agent, or those of an agent or of channels through the API).  An
    operation keeps every session.  One that starts no turn changes only a
    status that is [NULL] or running, and the claims change a status only to
    running; so every change between two known statuses is one that
    [SessionStatus::can_transition_to] allows, except the step from done to
    running by which a finished session is continued, which the table refuses
    and the claims perform.  A deletion removes the sessions that it is meant
    to remove ([condemned]) and leaves every other one as it is. *)
(* @prop invariant defs=set_session_run_status,claim_session_with_retry,claim_session_for_reentry,increment_retry_count,claim_redrive,cleanup_session_terminated,cleanup_interrupted_sessions,finalize_truly_stale_sessions,can_transition_to,SessionStatus,delete_session,cleanup_old_sessions,cleanup_excess_sessions_per_agent,api_delete_session,api_delete_all_sessions,purge_sessions_of witness=status_machine_witness *)
Theorem status_follows_machine now (act : SessionOp + Removal) db id r :
  sessions db !! id = Some r →
  match act with
  | inl op =>
      ∃ r', sessions (run_op now op db) !! id = Some r' ∧
        (claiming op = false → settled r r') ∧ (claiming op = true → started r r') ∧
        ∀ a b, s_status r = Some (as_str a) → s_status r' = Some (as_str b) → a ≠ b →
               can_transition_to a b = true ∨ a = Done ∧ b = Running ∧ claiming op = true
  | inr d =>
      (condemned now d db id r ∧ sessions (run_removal now d db) !! id = None) ∨
      (¬ condemned now d db id r ∧ sessions (run_removal now d db) !! id = Some r)
  end.
Proof.
  intros Hr. destruct act as [op|d]; [|by apply removal_row]. destruct (claiming op) eqn:Hc.
  - destruct (started_op now op db Hc id r Hr) as (r' & Hr' & Hs). exists r'. split_and!; try done.
    intros a b Ha Hb Hne. destruct Hs as [Hs|Hs]; [by destruct Hne; apply (inj as_str); congruence|].
    assert (b = Running) as -> by (apply (inj as_str), (inj Some); rewrite <- Hb; done).
    destruct a; auto.
  - destruct (keeps_op settled settled_same settled_running settled_open now op db Hc id r Hr) as (r' & Hr' & Hs).
    exists r'. split_and!; try done. intros a b Ha Hb Hne.
    destruct Hs as [Hs|[[Hs|Hs] _]]; [by destruct Hne; apply (inj as_str); congruence|congruence|].
    assert (a = Running) as -> by (apply (inj as_str), (inj Some); rewrite <- Ha; done). by left.
Qed.

(** ** Ending a session *)

Definition statuses (db : Db) : gmap Uuid (option str) := s_status <$> sessions db.
Definition message_ids (db : Db) : list Uuid := m_id <$> messages db.
(** Generated keys are new and pairwise different. *)
Definition fresh_ids (ids : nat → Uuid) (db : Db) : Prop := Inj (=) (=) ids ∧ ∀ k, ids k ∉ message_ids db.

Lemma find_message_None id db : id ∉ message_ids db → find_message id db = None.
Proof.
  intros Hn. unfold find_message. destruct (List.find _ _) as [m|] eqn:Hf; [|done].
  apply find_some in Hf as [Hin Hb%bool_decide_eq_true]. destruct Hn. subst.
  apply list_elem_of_fmap_2. by apply list_elem_of_In.
Qed.

Lemma statuses_update id p f db : (∀ r, s_status (f r) = s_status r) → statuses (update_session id p f db).1 = statuses db.
Proof.
  intros Hf. unfold update_session. destruct (sessions db !! id) as [r|] eqn:Hr; [|done].
  destruct (p r); [|done]. unfold statuses. cbn. rewrite fmap_insert, Hf. apply insert_id.
  rewrite lookup_fmap, Hr. done.
Qed.

Lemma insert_new m db :
  is_Some (statuses db !! m_session m) → m_parent m = None → m_id m ∉ message_ids db →
  ∃ db', insert_message m db = Some db' ∧ messages db' = messages db ++ [m] ∧ statuses db' = statuses db ∧
         timeline db' = timeline db.
Proof.
  intros [st Hst] Hp Hid. unfold statuses in Hst. rewrite lookup_fmap in Hst.
  destruct (sessions db !! m_session m) as [r|] eqn:Hr; [|done].
  unfold insert_message. rewrite Hr, Hp, find_message_None by done. cbn [mbind option_bind].
  rewrite bool_decide_eq_false_2 by (by intros [? ?]). cbn [negb]. eexists. split; [done|].
  assert (∀ p f, messages (update_session (m_session m) p f db).1 = messages db ∧
                 timeline (update_session (m_session m) p f db).1 = timeline db) as Hm.
  { intros p f. unfold update_session. rewrite Hr. by destruct (p r). }
  split_and!; [cbn [on_messages messages]; by rewrite (proj1 (Hm _ _))| |cbn [on_messages timeline]; apply Hm].
  change (statuses (on_messages ?f ?d)) with (statuses d). by apply statuses_update.
Qed.

Lemma insert_results_ok id now ids cs db :
  is_Some (statuses db !! id) → fresh_ids ids db →
  ∃ db', insert_results id now ids cs db = Some db' ∧
         messages db' = messages db ++ imap (λ k c, synthetic_result id now (ids k) c) cs ∧
         statuses db' = statuses db ∧ timeline db' = timeline db.
Proof.
  revert ids db. induction cs as [|c cs IH]; intros ids db Hst [Hinj Hids].
  { exists db. cbn. by rewrite app_nil_r. }
  destruct (insert_new (synthetic_result id now (ids 0) c) db Hst eq_refl (Hids 0)) as (db1 & Hi & Hm & Hs & Ht).
  cbn [insert_results]. rewrite Hi. cbn [mbind option_bind].
  destruct (IH (λ k, ids (S k)) db1) as (db2 & Hr & Hm2 & Hs2 & Ht2).
  - by rewrite Hs.
  - split; [intros a b ?%(inj ids); lia|]. intros k. unfold message_ids. rewrite Hm, fmap_app. cbn.
    rewrite not_elem_of_app. split; [apply Hids|]. intros ?%list_elem_of_singleton%(inj ids). lia.
  - exists db2. rewrite Hr. split_and!; [done|rewrite Hm2, Hm; cbn; by rewrite <- app_assoc|congruence|congruence].
Qed.

(** The calls and their answers do not depend on the state of a stream. *)
Definition same_calls (g : MessageRow → MessageRow) : Prop :=
  ∀ m, m_session (g m) = m_session m ∧ m_role (g m) = m_role m ∧ m_tool_calls (g m) = m_tool_calls m ∧
       m_tool_call_id (g m) = m_tool_call_id m ∧ m_id (g m) = m_id m.

Lemma filter_same {A} (P : A → bool) (g : A → A) l :
  (∀ x, P (g x) = P x) → List.filter P (g <$> l) = g <$> List.filter P l.
Proof. intros Hg. induction l as [|x l IH]; cbn; [done|]. rewrite Hg. destruct (P x); cbn; by rewrite IH. Qed.
Lemma filter_none {A} (P : A → bool) l : (∀ x, x ∈ l → P x = false) → List.filter P l = [].
Proof.
  induction l as [|x l IH]; cbn; [done|]. intros Hn. rewrite (Hn x) by left. apply IH. intros y Hy. apply Hn. by right.
Qed.

Lemma declared_same id db db' g new :
  messages db' = (g <$> messages db) ++ new → same_calls g →
  (∀ m, m ∈ new → has_role "assistant" m = false) → declared_call_ids id db' = declared_call_ids id db.
Proof.
  intros He Hg Hnew. unfold declared_call_ids. rewrite He, List.filter_app, (filter_none _ new), app_nil_r.
  2:{ intros m Hm. by rewrite (Hnew m Hm), andb_false_r. }
  rewrite filter_same by (intros m; unfold in_session, has_role; by destruct (Hg m) as (-> & -> & _)).
  f_equal. induction (List.filter _ (messages db)) as [|m l IH]; [done|]. cbn.
  destruct (Hg m) as (_ & _ & -> & _). by rewrite IH.
Qed.
Lemma answered_same id db db' g new :
  messages db' = (g <$> messages db) ++ new → same_calls g →
  answered_ids id db' = answered_ids id db ++ omap m_tool_call_id (List.filter (λ m, in_session id m && has_role "tool" m) new).
Proof.
  intros He Hg. unfold answered_ids. rewrite He, List.filter_app, omap_app. f_equal.
  rewrite filter_same by (intros m; unfold in_session, has_role; by destruct (Hg m) as (-> & -> & _)).
  induction (List.filter _ (messages db)) as [|m l IH]; [done|]. cbn. destruct (Hg m) as (_ & _ & _ & -> & _).
  by rewrite IH.
Qed.

Definition interrupt_if (p : MessageRow → bool) (m : MessageRow) : MessageRow := if p m then interrupted_message m else m.
Lemma interrupt_same p : same_calls (interrupt_if p).
Proof. intros m. unfold interrupt_if. by destruct (p m). Qed.
Lemma same_calls_ids g (l : list MessageRow) : same_calls g → m_id <$> (g <$> l) = m_id <$> l.
Proof. intros Hg. rewrite <- list_fmap_compose. apply list_fmap_ext. intros _ m _. apply Hg. Qed.

(** The calls of a session that have no result yet. *)
Definition missing_ids (id : Uuid) (calls : list str) (db : Db) : list str :=
  List.filter (λ c, negb (bool_decide (c ∈ answered_ids id db))) calls.
Definition synthetic_results (id : Uuid) (now : Z) (ids : nat → Uuid) (cs : list str) : list MessageRow :=
  imap (λ k c, synthetic_result id now (ids k) c) cs.

Lemma synthetic_role id now ids cs m : m ∈ synthetic_results id now ids cs → has_role "assistant" m = false.
Proof. intros (k & c & -> & _)%elem_of_lookup_imap. reflexivity. Qed.
Lemma synthetic_answers id now ids cs :
  omap m_tool_call_id (List.filter (λ m, in_session id m && has_role "tool" m) (synthetic_results id now ids cs)) = cs.
Proof.
  unfold synthetic_results. revert ids. induction cs as [|c cs IH]; intros ids; [done|].
  assert (in_session id (synthetic_result id now (ids 0) c) && has_role "tool" (synthetic_result id now (ids 0) c) = true) as Hb
    by (unfold in_session; rewrite bool_decide_eq_true_2 by done; reflexivity).
  cbn [imap List.filter]. rewrite Hb. cbn. f_equal. apply (IH (λ k, ids (S k))).
Qed.

Lemma synthetic_call_ids id now ids cs : m_tool_call_id <$> synthetic_results id now ids cs = Some <$> cs.
Proof.
  unfold synthetic_results. revert ids. induction cs as [|c cs IH]; intros ids; [done|].
  cbn [imap fmap list_fmap]. f_equal. apply (IH (λ k, ids (S k))).
Qed.

Lemma log_event_ok id t p now db :
  is_Some (statuses db !! id) →
  ∃ db', log_event id t p now db = Some db' ∧ messages db' = messages db ∧ statuses db' = statuses db ∧
         timeline db' = timeline db ++ [mkEvent id t p].
Proof.
  intros [st Hst]. unfold statuses in Hst. rewrite lookup_fmap in Hst. unfold log_event.
  destruct (sessions db !! id) as [r|] eqn:Hr; [|done]. eexists. split; [done|].
  unfold touch_session_activity. split_and!.
  - unfold update_session. cbn. rewrite Hr. by case_match.
  - etrans; [by apply statuses_update|done].
  - unfold update_session. cbn. rewrite Hr. by case_match.
Qed.

Lemma terminated_running id target reason now ids calls db :
  statuses db !! id = Some (Some (bs "running")) → declared_call_ids id db = Some calls → fresh_ids ids db →
  ∃ db', cleanup_session_terminated id target reason now ids db = (db', Some true) ∧
    statuses db' = <[id := Some target]> (statuses db) ∧
    messages db' = (interrupt_if (λ m, in_session id m && streaming m) <$> messages db) ++
                   synthetic_results id now ids (missing_ids id calls db) ∧
    timeline db' = timeline db ++ [mkEvent id target (Some (reason_payload reason))].
Proof.
  intros Hst Hcalls Hids. unfold statuses in Hst. rewrite lookup_fmap in Hst.
  destruct (sessions db !! id) as [r|] eqn:Hr; [|done]. injection Hst as Hst.
  unfold cleanup_session_terminated, update_session. rewrite Hr. unfold status_is at 1. rewrite Hst.
  rewrite bool_decide_eq_true_2 by done. cbn [negb].
  set (db1 := on_sessions <[id := set_status target r]> db).
  set (db2 := cleanup_session_streaming_messages id db1).
  assert (messages db2 = interrupt_if (λ m, in_session id m && streaming m) <$> messages db) as Hm2 by done.
  assert (statuses db2 = <[id := Some target]> (statuses db)) as Hs2
    by (unfold statuses, db2, db1; cbn; by rewrite fmap_insert).
  assert (is_Some (statuses db2 !! id)) as Hsome by (rewrite Hs2, lookup_insert_eq; eauto).
  unfold insert_synthetic_tool_results_tx.
  assert (messages db2 = (interrupt_if (λ m, in_session id m && streaming m) <$> messages db) ++ []) as Hm2'
    by (rewrite Hm2, app_nil_r; done).
  rewrite (declared_same id db db2 _ [] Hm2' (interrupt_same _)), Hcalls by (by intros ? ?%elem_of_nil).
  cbn [mbind option_bind].
  assert (answered_ids id db2 = answered_ids id db) as ->
    by (rewrite (answered_same id db db2 _ [] Hm2' (interrupt_same _)); cbn; by rewrite app_nil_r).
  fold (missing_ids id calls db).
  destruct (insert_results_ok id now ids (missing_ids id calls db) db2 Hsome) as (db3 & Hi & Hm3 & Hs3 & Ht3).
  { destruct Hids as [Hinj Hids]. split; [done|]. unfold message_ids. rewrite Hm2, same_calls_ids by apply interrupt_same. exact Hids. }
  rewrite Hi. cbn [mbind option_bind].
  destruct (log_event_ok id target (Some (reason_payload reason)) now db3) as (db4 & Hl & Hm4 & Hs4 & Ht4);
    [by rewrite Hs3|].
  rewrite Hl. exists db4. split_and!; [done|congruence|by rewrite Hm4, Hm3, Hm2|by rewrite Ht4, Ht3].
Qed.

Lemma terminated_other id target reason now ids db :
  statuses db !! id ≠ Some (Some (bs "running")) →
  cleanup_session_terminated id target reason now ids db = (db, Some false).
Proof.
  intros Hst. unfold cleanup_session_terminated, update_session, statuses in *. rewrite lookup_fmap in Hst.
  destruct (sessions db !! id) as [r|]; [|done]. unfold status_is.
  rewrite bool_decide_eq_false_2; [done|]. intros He. apply Hst. cbn. by rewrite He.
Qed.

Lemma answered_mono id db db' g new :
  messages db' = (g <$> messages db) ++ new → same_calls g → ∀ c, c ∈ answered_ids id db → c ∈ answered_ids id db'.
Proof. intros He Hg c Hc. rewrite (answered_same id db db' g new He Hg). apply elem_of_app. by left. Qed.

Lemma all_answered id now ids calls db db' g :
  messages db' = (g <$> messages db) ++ synthetic_results id now ids (missing_ids id calls db) → same_calls g →
  ∀ c, c ∈ calls → c ∈ answered_ids id db'.
Proof.
  intros He Hg c Hc. rewrite (answered_same id db db' g _ He Hg), synthetic_answers, elem_of_app.
  destruct (decide (c ∈ answered_ids id db)) as [|Hn]; [by left|right].
  unfold missing_ids. apply list_elem_of_In, filter_In. split; [by apply list_elem_of_In|].
  by rewrite bool_decide_eq_false_2.
Qed.

Lemma not_streaming_after (P : MessageRow → bool) m : streaming (interrupt_if P m) = streaming m && negb (P m).
Proof. unfold interrupt_if. destruct (P m); [|by rewrite andb_true_r]. by rewrite andb_false_r. Qed.

(** C22: The one way a session ends. For a running session whose recorded tool
    calls are arrays, [cleanup_session_terminated] succeeds: the session has
    the target status, no message of it is left streaming, a partial answer
    keeps its text, messages of other sessions are as before, and every tool
    call the session ever declared has a result: behind the messages there
    were, which stay, one tool message of the session is added for each call
    that had none, in their order, and its content is the text that says the
    call was interrupted and asks for verification; one event is logged. For a
    session that is not running nothing at all changes, so a second cleanup
    is a no-op whichever path ended the session first. *)
(* @prop functional defs=cleanup_session_terminated,insert_synthetic_tool_results_tx,insert_results,INTERRUPTED_TOOL_RESULT,cleanup_session_streaming_messages,declared_call_ids,answered_ids,log_event witness=cleanup_repairs_witness *)
Theorem cleanup_repairs id target reason now ids calls db :
  declared_call_ids id db = Some calls → fresh_ids ids db →
  (statuses db !! id ≠ Some (Some (bs "running")) →
     cleanup_session_terminated id target reason now ids db = (db, Some false)) ∧
  (statuses db !! id = Some (Some (bs "running")) → target ≠ bs "running" →
     ∃ db', cleanup_session_terminated id target reason now ids db = (db', Some true) ∧
       statuses db' = <[id := Some target]> (statuses db) ∧
       (∀ m, m ∈ messages db' → m_session m = id → streaming m = false) ∧
       (∀ c, c ∈ calls → c ∈ answered_ids id db') ∧
       (∃ kept added, messages db' = kept ++ added ∧ m_id <$> kept = m_id <$> messages db ∧
          m_tool_call_id <$> added =
            Some <$> List.filter (λ c, negb (bool_decide (c ∈ answered_ids id db))) calls ∧
          ∀ m, m ∈ added → m_session m = id ∧ m_role m = bs "tool" ∧
            m_content m = INTERRUPTED_TOOL_RESULT ∧ starts_with (bs "[interrupted:verify] ") (m_content m) = true) ∧
       List.filter (λ m, negb (in_session id m)) (messages db') = List.filter (λ m, negb (in_session id m)) (messages db) ∧
       (∀ m, m ∈ messages db → m_content m ≠ [] → ∃ m', m' ∈ messages db' ∧ m_id m' = m_id m ∧ m_content m' = m_content m) ∧
       timeline db' = timeline db ++ [mkEvent id target (Some (reason_payload reason))] ∧
       ∀ target' reason' ids', cleanup_session_terminated id target' reason' now ids' db' = (db', Some false)).
Proof.
  intros Hcalls Hids. split; [apply terminated_other|]. intros Hrun Ht.
  destruct (terminated_running id target reason now ids calls db Hrun Hcalls Hids) as (db' & Hc & Hs & Hm & He).
  exists db'. split_and!; try done.
  - intros m Hin Hsid. rewrite Hm in Hin. apply elem_of_app in Hin as [(m0 & -> & _)%list_elem_of_fmap|Hin].
    + rewrite not_streaming_after. destruct (interrupt_same (λ m, in_session id m && streaming m) m0) as (Hms & _).
      rewrite Hms in Hsid. unfold in_session. rewrite bool_decide_eq_true_2 by done. by destruct (streaming m0).
    + by apply elem_of_lookup_imap in Hin as (k & c & -> & _).
  - intros c Hin. by apply (all_answered id now ids calls db db' _ Hm (interrupt_same _)).
  - eexists _, _. split; [exact Hm|]. split; [apply same_calls_ids, interrupt_same|].
    split; [apply synthetic_call_ids|]. intros m (k & c & -> & _)%elem_of_lookup_imap. split_and!; reflexivity.
  - rewrite Hm, List.filter_app, (filter_none _ (synthetic_results _ _ _ _)), app_nil_r.
    + clear. induction (messages db) as [|m l IH]; [done|]. cbn. unfold interrupt_if.
      destruct (in_session id m) eqn:Hi; cbn; [|by rewrite Hi; cbn; f_equal].
      destruct (streaming m); cbn; [unfold in_session in *; cbn|]; by rewrite Hi.
    + intros m (k & c & -> & _)%elem_of_lookup_imap. unfold in_session. by rewrite bool_decide_eq_true_2.
  - intros m Hin Hne. exists (interrupt_if (λ m, in_session id m && streaming m) m).
    split_and!; [rewrite Hm; apply elem_of_app; left; by apply list_elem_of_fmap_2|apply interrupt_same|].
    unfold interrupt_if. destruct (_ && _); [|done]. cbn. by rewrite bool_decide_eq_false_2.
  - intros target' reason' ids'. apply terminated_other. rewrite Hs, lookup_insert_eq. congruence.
Qed.

(** ** The startup cleanup *)

Definition fresh_ids2 (ids : nat → nat → Uuid) (db : Db) : Prop :=
  (∀ a b c d, ids a b = ids c d → a = c ∧ b = d) ∧ ∀ a b, ids a b ∉ message_ids db.
Definition fresh_ids3 (ids : nat → nat → nat → Uuid) (db : Db) : Prop :=
  (∀ a b c d e f, ids a b c = ids d e f → a = d ∧ b = e ∧ c = f) ∧ ∀ a b c, ids a b c ∉ message_ids db.

(** What a run of cleanups does to the messages: open streams of the sessions
    in [l] are closed, tool results are appended, nothing else. *)
Record repaired (l : list Uuid) (keys : Uuid → Prop) (g : MessageRow → MessageRow) (new : list MessageRow)
    (db db' : Db) : Prop := {
  rep_messages : messages db' = (g <$> messages db) ++ new;
  rep_calls : same_calls g;
  rep_new : ∀ m, m ∈ new → has_role "assistant" m = false ∧ streaming m = false ∧ keys (m_id m);
  rep_closed : ∀ m, m_session m ∈ l → streaming (g m) = false;
  rep_open : ∀ m, streaming m = false → streaming (g m) = false;
}.

Lemma repaired_declared l keys g new db db' id :
  repaired l keys g new db db' → declared_call_ids id db' = declared_call_ids id db.
Proof. intros [Hm Hg Hn _ _]. eapply declared_same; [exact Hm|exact Hg|]. intros m Hin. apply (Hn m Hin). Qed.
Lemma repaired_ids l keys g new db db' x :
  repaired l keys g new db db' → x ∈ message_ids db' → x ∈ message_ids db ∨ keys x.
Proof.
  intros [Hm Hg Hn _ _]. unfold message_ids. rewrite Hm, fmap_app, elem_of_app. intros [Hx|Hx].
  - left. by rewrite same_calls_ids in Hx.
  - right. apply list_elem_of_fmap in Hx as (m & -> & Hin). apply (Hn m Hin).
Qed.

Lemma repaired_trans l1 l2 keys g1 g2 n1 n2 db1 db2 db3 :
  repaired l1 keys g1 n1 db1 db2 → repaired l2 keys g2 n2 db2 db3 →
  repaired (l1 ++ l2) keys (g2 ∘ g1) ((g2 <$> n1) ++ n2) db1 db3.
Proof.
  intros [Hm1 Hg1 Hn1 Hc1 Ho1] [Hm2 Hg2 Hn2 Hc2 Ho2]. split.
  - by rewrite Hm2, Hm1, fmap_app, list_fmap_compose, app_assoc.
  - intros m. cbn. destruct (Hg1 m) as (? & ? & ? & ? & ?), (Hg2 (g1 m)) as (? & ? & ? & ? & ?).
    split_and!; congruence.
  - intros m [Hin|Hin]%elem_of_app; [|by apply Hn2].
    apply list_elem_of_fmap in Hin as (m0 & -> & Hin). destruct (Hn1 m0 Hin) as (Hr & Hs & Hk).
    destruct (Hg2 m0) as (_ & Hrole & _ & _ & Hid). unfold has_role. rewrite Hrole, Hid. auto.
  - intros m [Hin|Hin]%elem_of_app; cbn; [by apply Ho2, Hc1|]. apply Hc2. by destruct (Hg1 m) as (-> & _).
  - intros m Hs. cbn. by apply Ho2, Ho1.
Qed.

Lemma repaired_interrupt P keys db :
  repaired [] keys (interrupt_if P) [] db (update_messages P interrupted_message db).
Proof.
  split; [by rewrite app_nil_r|apply interrupt_same|by intros m ?%elem_of_nil|by intros m ?%elem_of_nil|].
  intros m Hs. by rewrite not_streaming_after, Hs.
Qed.

Lemma repaired_terminated id now ids calls (keys : Uuid → Prop) db db' :
  messages db' = (interrupt_if (λ m, in_session id m && streaming m) <$> messages db) ++
                 synthetic_results id now ids (missing_ids id calls db) →
  (∀ k, keys (ids k)) →
  repaired [id] keys (interrupt_if (λ m, in_session id m && streaming m))
           (synthetic_results id now ids (missing_ids id calls db)) db db'.
Proof.
  intros Hm Hk. split; [done|apply interrupt_same| | |].
  - intros m (k & c & -> & _)%elem_of_lookup_imap. split_and!; [done..|apply Hk].
  - intros m Hin%list_elem_of_singleton. rewrite not_streaming_after. unfold in_session.
    rewrite bool_decide_eq_true_2 by exact Hin. by destruct (streaming m).
  - intros m Hs. by rewrite not_streaming_after, Hs.
Qed.

Lemma fresh_next ids db db' l g new :
  fresh_ids2 ids db → repaired l (λ x, ∃ k, x = ids 0 k) g new db db' → fresh_ids2 (λ k, ids (S k)) db'.
Proof.
  intros [Hinj Hids] Hrep. split.
  - intros a b c d [? ?]%Hinj. split; [lia|done].
  - intros a b Hin. destruct (repaired_ids _ _ _ _ _ _ _ Hrep Hin) as [Hin'|[k [? ?]%Hinj]]; [|lia].
    by apply (Hids (S a) b).
Qed.
Lemma repaired_weaken l (keys keys' : Uuid → Prop) g new db db' :
  (∀ x, keys x → keys' x) → repaired l keys g new db db' → repaired l keys' g new db db'.
Proof. intros Hk [Hm Hg Hn Hc Ho]. split; try done. intros m Hin. destruct (Hn m Hin) as (? & ? & ?). auto. Qed.

Lemma terminate_all_ok l target reason now ids db :
  NoDup l → (∀ id, id ∈ l → statuses db !! id = Some (Some (bs "running"))) →
  (∀ id, id ∈ l → is_Some (declared_call_ids id db)) → fresh_ids2 ids db →
  ∃ g new, repaired l (λ x, ∃ a b, x = ids a b) g new db (terminate_all l target reason now ids db) ∧
    (∀ id, statuses (terminate_all l target reason now ids db) !! id =
           if bool_decide (id ∈ l) then Some (Some target) else statuses db !! id) ∧
    ∀ id calls c, id ∈ l → declared_call_ids id db = Some calls → c ∈ calls →
                  c ∈ answered_ids id (terminate_all l target reason now ids db).
Proof.
  revert ids db. induction l as [|id l IH]; intros ids db Hnd Hrun Hdecl Hids.
  { exists (λ m, m), []. cbn [terminate_all]. split_and!.
    - split; try done; [by rewrite list_fmap_id, app_nil_r|by intros m ?%elem_of_nil|by intros m ?%elem_of_nil].
    - intros id. by rewrite bool_decide_eq_false_2 by apply not_elem_of_nil.
    - by intros id calls c ?%elem_of_nil. }
  apply NoDup_cons in Hnd as [Hni Hnd].
  destruct (Hdecl id ltac:(left)) as [calls0 Hcalls].
  assert (fresh_ids (ids 0) db) as Hf0 by (split; [intros a b [_ ?]%Hids; done|apply Hids]).
  destruct (terminated_running id target reason now (ids 0) calls0 db (Hrun id ltac:(left)) Hcalls Hf0)
    as (db1 & Hc & Hs & Hm & _).
  pose proof (repaired_terminated id now (ids 0) calls0 (λ x, ∃ k, x = ids 0 k) db db1 Hm (λ k, ex_intro _ k eq_refl)) as Hrep.
  cbn [terminate_all]. rewrite Hc. cbn [fst].
  destruct (IH (λ k, ids (S k)) db1) as (g & new & Hrep2 & Hst2 & Hans2); [done| | |by eapply fresh_next|].
  { intros id' Hin. rewrite Hs, lookup_insert_ne by (by intros ->). apply Hrun. by right. }
  { intros id' Hin. rewrite (repaired_declared _ _ _ _ _ _ id' Hrep). apply Hdecl. by right. }
  eexists _, _. split_and!.
  - eapply (repaired_trans [id] l _ _ _ _ _ db db1); [eapply repaired_weaken; [|exact Hrep]; intros x [k ->]; by exists 0, k|].
    eapply repaired_weaken; [|exact Hrep2]. intros x (a & b & ->). by exists (S a), b.
  - intros id'. rewrite Hst2, Hs. destruct (decide (id' = id)) as [->|Hne].
    + rewrite bool_decide_eq_false_2, bool_decide_eq_true_2 by (done || left). by rewrite lookup_insert_eq.
    + rewrite lookup_insert_ne by done. 
      assert (bool_decide (id' ∈ id :: l) = bool_decide (id' ∈ l)) as ->
        by (apply bool_decide_ext; rewrite elem_of_cons; naive_solver).
      done.
  - intros id' calls c [->|Hin]%elem_of_cons Hd Hcin.
    + eapply answered_mono; [apply Hrep2|apply Hrep2|]. rewrite Hcalls in Hd. injection Hd as ->.
      by apply (all_answered id now (ids 0) calls db db1 _ Hm (interrupt_same _)).
    + apply (Hans2 id' calls c Hin); [|done]. by rewrite (repaired_declared _ _ _ _ _ _ id' Hrep).
Qed.

Lemma elem_of_running id db : id ∈ running_ids db ↔ statuses db !! id = Some (Some (bs "running")).
Proof.
  unfold running_ids, statuses. rewrite list_elem_of_fmap, lookup_fmap. split.
  - intros ([k r] & -> & Hin%list_elem_of_In%filter_In). destruct Hin as [Hin%list_elem_of_In Hs].
    apply elem_of_map_to_list in Hin. cbn in *. rewrite Hin. cbn. by apply bool_decide_eq_true in Hs as ->.
  - destruct (sessions db !! id) as [r|] eqn:Hr; [|done]. intros [= Hs]. exists (id, r). split; [done|].
    apply list_elem_of_In, filter_In. split; [by apply list_elem_of_In, elem_of_map_to_list|].
    by apply bool_decide_eq_true.
Qed.
Lemma running_nodup db : NoDup (running_ids db).
Proof.
  unfold running_ids. generalize (NoDup_fst_map_to_list (sessions db)). generalize (map_to_list (sessions db)).
  intros l. induction l as [|[k r] l IH]; cbn; [constructor|]. intros [Hk Hl]%NoDup_cons.
  destruct (status_is "running" r); cbn; [|by apply IH]. apply NoDup_cons. split; [|by apply IH].
  intros ([k' r'] & -> & [Hin _]%list_elem_of_In%filter_In)%list_elem_of_fmap. apply Hk.
  apply (list_elem_of_fmap_2 fst l (k', r')). by apply list_elem_of_In.
Qed.

Lemma fresh_repaired {keys} l g new db db' (ids : nat → nat → Uuid) :
  repaired l keys g new db db' → (∀ x a b, keys x → x ≠ ids a b) → fresh_ids2 ids db → fresh_ids2 ids db'.
Proof.
  intros Hrep Hk [Hinj Hids]. split; [done|]. intros a b Hin.
  destruct (repaired_ids _ _ _ _ _ _ _ Hrep Hin) as [?|Hx]; [by apply (Hids a b)|by apply (Hk _ a b Hx)].
Qed.

(** One batch of the startup cleanup. *)
Lemma cleanup_batch now ids db :
  (∀ id, is_Some (declared_call_ids id db)) → fresh_ids2 ids db →
  let l := take 100 (running_ids db) in
  let db' := (cleanup_interrupted_sessions now ids db).1 in
  (cleanup_interrupted_sessions now ids db).2 = length l ∧
  (∀ id, statuses db' !! id = if bool_decide (id ∈ l) then Some (Some (bs "interrupted")) else statuses db !! id) ∧
  (∀ id calls c, id ∈ l → declared_call_ids id db = Some calls → c ∈ calls → c ∈ answered_ids id db') ∧
  (∃ g new, repaired l (λ x, ∃ a b, x = ids a b) g new db db') ∧
  ∀ m, m ∈ messages db' → streaming m = true → statuses db !! m_session m = Some (Some (bs "running")) ∨
                          sessions db !! m_session m = None.
Proof.
  intros Hdecl Hids l. unfold cleanup_interrupted_sessions.
  set (db1 := update_messages (stranded db) interrupted_message db).
  change (running_ids db1) with (running_ids db). fold l. cbn [fst snd].
  set (keys := λ x, ∃ a b, x = ids a b).
  pose proof (repaired_interrupt (stranded db) keys db) as Hrep1. fold db1 in Hrep1.
  assert (∀ id, declared_call_ids id db1 = declared_call_ids id db) as Hd1
    by (intros id; apply (repaired_declared _ _ _ _ _ _ id Hrep1)).
  destruct (terminate_all_ok l (bs "interrupted") (bs "crash_recovery") now ids db1) as (g & new & Hrep & Hst & Hans).
  - eapply sublist_NoDup; [apply running_nodup|apply sublist_take].
  - intros id Hin. change (statuses db1) with (statuses db). apply elem_of_running.
    eapply elem_of_take in Hin as (i & Hi & _). by eapply list_elem_of_lookup_2.
  - intros id _. by rewrite Hd1.
  - destruct Hids as [Hinj Hids]. split; [done|]. intros a b. unfold message_ids, db1. cbn.
    change (λ m, if stranded db m then interrupted_message m else m) with (interrupt_if (stranded db)).
    rewrite same_calls_ids by apply interrupt_same. apply Hids.
  - split_and!; [done|exact Hst| | |].
    + intros id calls c Hin Hd. apply (Hans id calls c Hin). by rewrite Hd1.
    + eexists _, _. exact (repaired_trans [] l _ _ _ _ _ db db1 _ Hrep1 Hrep).
    + destruct Hrep as [Hm Hg Hn _ Ho]. intros m Hin Hs. rewrite Hm in Hin.
      apply elem_of_app in Hin as [(m1 & -> & Hin)%list_elem_of_fmap|Hin]; [|by destruct (Hn m Hin) as (_ & ? & _); congruence].
      apply list_elem_of_fmap in Hin as (m0 & -> & _).
      change (if stranded db m0 then interrupted_message m0 else m0) with (interrupt_if (stranded db) m0) in *.
      destruct (streaming (interrupt_if (stranded db) m0)) eqn:Hs1; [|by rewrite Ho in Hs].
      destruct (Hg (interrupt_if (stranded db) m0)) as (-> & _). destruct (interrupt_same (stranded db) m0) as (-> & _).
      rewrite not_streaming_after in Hs1. apply andb_true_iff in Hs1 as [Hs0 Hns]. unfold stranded in Hns. rewrite Hs0 in Hns.
      unfold statuses. rewrite lookup_fmap. destruct (sessions db !! m_session m0) as [r|]; [left|by right]. cbn in *.
      destruct (status_is "running" r) eqn:Hr; [|done]. by apply bool_decide_eq_true in Hr as ->.
Qed.

Lemma running_shrinks l db db' :
  NoDup l → (∀ id, id ∈ l → id ∈ running_ids db) →
  (∀ id, statuses db' !! id = if bool_decide (id ∈ l) then Some (Some (bs "interrupted")) else statuses db !! id) →
  length l + length (running_ids db') ≤ length (running_ids db).
Proof.
  intros Hnd Hin Hst. rewrite <- length_app. apply submseteq_length, NoDup_submseteq.
  - apply NoDup_app. split_and!; [done| |apply running_nodup]. intros id Hid. rewrite elem_of_running, Hst.
    by rewrite bool_decide_eq_true_2.
  - intros id [Hid|Hid]%elem_of_app; [by apply Hin|]. rewrite elem_of_running in Hid |- *. rewrite Hst in Hid.
    by case_bool_decide.
Qed.

(** The loop, with what later rounds keep. *)
Lemma startup_loop now ids db fuel :
  (∀ id, is_Some (declared_call_ids id db)) → fresh_ids3 ids db → length (running_ids db) < fuel →
  ∃ db', startup_cleanup fuel now ids db = Some db' ∧ running_ids db' = [] ∧
    (∀ id, statuses db' !! id = if bool_decide (id ∈ running_ids db) then Some (Some (bs "interrupted")) else statuses db !! id) ∧
    (∀ m, m ∈ messages db' → is_Some (sessions db' !! m_session m) → streaming m = false) ∧
    (∀ id calls c, id ∈ running_ids db → declared_call_ids id db = Some calls → c ∈ calls → c ∈ answered_ids id db') ∧
    ∀ id c, c ∈ answered_ids id db → c ∈ answered_ids id db'.
Proof.
  revert ids db. induction fuel as [|fuel IH]; intros ids db Hdecl Hids Hlt; [lia|].
  assert (fresh_ids2 (ids 0) db) as Hf by (split; [intros a b c d (_ & ? & ?)%Hids; done|intros; apply Hids]).
  pose proof (cleanup_batch now (ids 0) db Hdecl Hf) as Hb. cbn [startup_cleanup].
  destruct (cleanup_interrupted_sessions now (ids 0) db) as [db1 n]. cbn [fst snd] in Hb.
  set (l := take 100 (running_ids db)) in *. destruct Hb as (-> & Hst & Hans & (g & new & Hrep) & Hstream).
  assert (∀ id, id ∈ l → id ∈ running_ids db) as Hl
    by (intros id (i & Hi & _)%elem_of_take; by eapply list_elem_of_lookup_2).
  pose proof (running_shrinks l db db1 ltac:(eapply sublist_NoDup; [apply running_nodup|apply sublist_take]) Hl Hst) as Hlen.
  destruct (length l) as [|n] eqn:Hn.
  - assert (running_ids db = []) as He.
    { unfold l in Hn. destruct (running_ids db); [done|]. by cbn in Hn. }
    exists db1. split_and!; [done| | | | |].
    + apply length_zero_iff_nil. rewrite He in Hlen. cbn in Hlen. lia.
    + intros id. rewrite Hst. apply nil_length_inv in Hn. by rewrite Hn, He.
    + intros m Hin [r Hr]. destruct (streaming m) eqn:Hs; [|done]. destruct (Hstream m Hin Hs) as [Hrun|Hnone].
      * apply elem_of_running in Hrun. rewrite He in Hrun. by apply elem_of_nil in Hrun.
      * specialize (Hst (m_session m)). apply nil_length_inv in Hn. rewrite Hn in Hst.
        unfold statuses in Hst. rewrite !lookup_fmap, Hr, Hnone in Hst. done.
    + intros id calls c Hin. rewrite He in Hin. by apply elem_of_nil in Hin.
    + intros id c. by eapply answered_mono; [apply Hrep|apply Hrep].
  - destruct (IH (λ k, ids (S k)) db1) as (db' & Hs & Hrun & Hst' & Hclosed & Hans' & Hmono).
    + intros id. rewrite (repaired_declared _ _ _ _ _ _ id Hrep). apply Hdecl.
    + destruct Hids as [Hinj Hids]. split; [intros a b c d e f (? & ? & ?)%Hinj; split_and!; lia|].
      intros a b c Hin. destruct (repaired_ids _ _ _ _ _ _ _ Hrep Hin) as [Hin'|(x & y & (? & ? & ?)%Hinj)]; [|lia].
      by apply (Hids (S a) b c).
    + lia.
    + exists db'. split_and!; try done.
      * intros id. rewrite Hst', Hst. destruct (decide (id ∈ l)) as [Hin|Hin].
        -- rewrite (bool_decide_eq_true_2 (id ∈ l)), (bool_decide_eq_true_2 (id ∈ running_ids db)) by auto. by case_bool_decide.
        -- rewrite (bool_decide_eq_false_2 (id ∈ l)) by done.
           assert (bool_decide (id ∈ running_ids db1) = bool_decide (id ∈ running_ids db)) as ->; [|done].
           apply bool_decide_ext. rewrite !elem_of_running, Hst. by rewrite bool_decide_eq_false_2.
      * intros id calls c Hin Hd Hc. destruct (decide (id ∈ l)) as [Hl'|Hl'].
        -- by apply Hmono, (Hans id calls c).
        -- apply (Hans' id calls c); [|by rewrite (repaired_declared _ _ _ _ _ _ id Hrep)|done].
           rewrite elem_of_running, Hst, bool_decide_eq_false_2 by done. by apply elem_of_running.
      * intros id c Hc. apply Hmono. by eapply answered_mono; [apply Hrep|apply Hrep|].
Qed.

(** The startup cleanup comes to an end and leaves nothing behind. When
    the recorded tool calls of all sessions are arrays, the loop of the
    startup returns after at most one round more than there are sessions left
    running; then no session is running, the sessions that were are
    interrupted and all others keep their status, no message of any session
    is left streaming, and every tool call of the repaired sessions has a
    result. *)
Theorem startup_cleanup_converges now ids db fuel :
  (∀ id, is_Some (declared_call_ids id db)) → fresh_ids3 ids db → length (running_ids db) < fuel →
  ∃ db', startup_cleanup fuel now ids db = Some db' ∧ running_ids db' = [] ∧
    (∀ id, statuses db' !! id = if bool_decide (id ∈ running_ids db) then Some (Some (bs "interrupted")) else statuses db !! id) ∧
    (∀ m, m ∈ messages db' → is_Some (sessions db' !! m_session m) → streaming m = false) ∧
    ∀ id calls c, id ∈ running_ids db → declared_call_ids id db = Some calls → c ∈ calls → c ∈ answered_ids id db'.
Proof.
  intros Hdecl Hids Hlt.
  destruct (startup_loop now ids db fuel Hdecl Hids Hlt) as (db' & Hs & Hrun & Hst & Hclosed & Hans & _).
  by exists db'.
Qed.

(** A single value in the column that is no array keeps the loop going: the
    transaction of its session fails in every round, so the session is found
    running again. *)
Theorem malformed_calls_block_startup now ids db id fuel :
  statuses db !! id = Some (Some (bs "running")) → declared_call_ids id db = None → running_ids db = [id] →
  startup_cleanup fuel now ids db = None.
Proof.
  intros Hst Hd Hrun. revert ids db Hst Hd Hrun. induction fuel as [|fuel IH]; intros ids db Hst Hd Hrun; [done|].
  cbn [startup_cleanup]. unfold cleanup_interrupted_sessions.
  set (db1 := update_messages (stranded db) interrupted_message db).
  assert (declared_call_ids id db1 = None) as Hd1.
  { rewrite <- Hd. apply (repaired_declared _ _ _ _ _ _ id (repaired_interrupt (stranded db) (λ _, True) db)). }
  change (running_ids db1) with (running_ids db). rewrite Hrun. cbn [take terminate_all length].
  assert (cleanup_session_terminated id (bs "interrupted") (bs "crash_recovery") now (ids 0 0) db1 = (db1, None)) as ->.
  { unfold cleanup_session_terminated, update_session.
    change (sessions db1) with (sessions db). unfold statuses in Hst. rewrite lookup_fmap in Hst.
    destruct (sessions db !! id) as [r|]; [|done]. injection Hst as Hst. unfold status_is at 1. rewrite Hst.
    rewrite bool_decide_eq_true_2 by done. cbn [negb]. unfold insert_synthetic_tool_results_tx.
    set (db2 := cleanup_session_streaming_messages id (on_sessions _ db1)).
    assert (messages db2 = (interrupt_if (λ m, in_session id m && streaming m) <$> messages db1) ++ []) as Hm
      by (rewrite app_nil_r; done).
    rewrite (declared_same id db1 db2 _ [] Hm (interrupt_same _)), Hd1 by (by intros ? ?%elem_of_nil). done. }
  cbn [fst]. by apply IH.
Qed.

(** ** How a turn ends *)

(** What the pipeline asks the guard to record, if it comes that far. *)
Inductive Ending := EndDone | EndFail (reason : str) | EndInterrupt (reason : str).
Definition ending_status (e : Ending) : SessionStatus :=
  match e with EndDone => Done | EndFail _ => Failed | EndInterrupt _ => Interrupted end.
Definition run_ending (e : Ending) : Faults → Z → Guard → Db → Guard * Db :=
  match e with
  | EndDone => guard_done
  | EndFail reason => guard_fail reason
  | EndInterrupt reason => guard_interrupt reason
  end.
(** The call and then the end of the guard's scope; [None] is a turn that is
    aborted before it asks anything. *)
Definition turn_end (e : option Ending) (f1 f2 : Faults) (now : Z) (ids : nat → Uuid) (g : Guard) (db : Db) : Db :=
  let '(g, db) := match e with Some e => run_ending e f1 now g db | None => (g, db) end in
  guard_drop f2 now ids g db.

Lemma statuses_set_running id st db :
  statuses db !! id = Some (Some (bs "running")) →
  statuses (set_session_run_status id st db) = <[id := Some st]> (statuses db).
Proof.
  unfold statuses, set_session_run_status, update_session. rewrite lookup_fmap.
  destruct (sessions db !! id) as [r|]; [|done]. intros [= Hr]. unfold status_is. rewrite Hr.
  rewrite (bool_decide_eq_true_2 (Some _ = Some _)), orb_true_r by done. cbn. by rewrite fmap_insert.
Qed.
Lemma statuses_log id t p now db : statuses (default db (log_event id t p now db)) = statuses db.
Proof.
  unfold log_event. destruct (sessions db !! id) eqn:Hr; [cbn [mbind option_bind default]|done].
  etrans; [by apply statuses_update|done].
Qed.

Lemma run_ending_spec e f now id agent job db :
  let g := new_guard id agent job in
  (superseded_by_newer_turn g f db = true → (run_ending e f now g db).2 = db ∧ g_outcome (run_ending e f now g db).1 ≠ ORunning) ∧
  (superseded_by_newer_turn g f db = false → no_write f = true →
     run_ending e f now g db = (mkGuard id ORunning agent true job, db)) ∧
  (superseded_by_newer_turn g f db = false → no_write f = false → statuses db !! id = Some (Some (bs "running")) →
     g_outcome (run_ending e f now g db).1 ≠ ORunning ∧
     statuses (run_ending e f now g db).2 = <[id := Some (as_str (ending_status e))]> (statuses db)).
Proof.
  cbn zeta. destruct e; cbn [run_ending ending_status]; unfold guard_done, guard_fail, guard_interrupt, finish; split_and!.
  all: intros ->; cbn; try done. all: intros ->; cbn; try done. all: intros Hst; split; [done|].
  all: match goal with |- statuses (if ?b then ?x else default ?x _) = _ =>
         assert (statuses x = <[id := _]> (statuses db)) as Hx by (by apply statuses_set_running);
         destruct b; [exact Hx|by rewrite statuses_log] end.
Qed.

(** C23: A turn leaves its session in one final status.  Take the guard of a
    running session whose recorded tool calls are arrays.  If the turn is not
    superseded and the statement with which the guard's end ([Drop]) repairs
    the session succeeds, then whatever becomes of the other statements (the
    turn's own write, the events, the failure row): a turn that ends itself
    leaves the status it asked for when its own write succeeds; when that
    write fails, the guard's end repairs the session and marks it failed,
    whatever was asked for, a success included; a turn that is aborted is
    repaired and marked interrupted.  A turn superseded by a newer one of the
    same session changes nothing at all, provided the queries that find this
    out succeed (the code takes a failed one to mean that there is no newer turn). *)
(* @prop safety defs=guard_done,guard_fail,guard_interrupt,guard_drop,finish,superseded_by_newer_turn,is_superseded,cleanup_session_terminated witness=turn_end_witness *)
Theorem turn_end_status e f1 f2 now ids id agent job calls db :
  statuses db !! id = Some (Some (bs "running")) → declared_call_ids id db = Some calls → fresh_ids ids db →
  ((∀ j, job = Some j → is_superseded j db = false) → no_write f2 = false →
     statuses (turn_end e f1 f2 now ids (new_guard id agent job) db) !! id =
       Some (Some (match e with
                   | Some e => if no_write f1 then bs "failed" else as_str (ending_status e)
                   | None => bs "interrupted"
                   end))) ∧
  (∀ j, job = Some j → is_superseded j db = true → no_check f1 = false → no_check f2 = false →
     turn_end e f1 f2 now ids (new_guard id agent job) db = db).
Proof.
  intros Hst Hcalls Hids. set (g := new_guard id agent job).
  assert (∀ f rec, (∀ j, job = Some j → is_superseded j db = false) → no_write f = false →
    statuses (guard_drop f now ids (mkGuard id ORunning agent rec job) db) !! id =
      Some (Some (if rec : bool then bs "failed" else bs "interrupted"))) as Hdrop.
  { intros f rec Hjob Hw. unfold guard_drop. cbn [g_outcome g_recorded g_session g_agent]. cbn [negb bool_decide].
    rewrite bool_decide_eq_true_2 by done. cbn [negb].
    assert (superseded_by_newer_turn (mkGuard id ORunning agent rec job) f db = false) as ->.
    { unfold superseded_by_newer_turn. cbn. destruct job as [j|]; [|done]. rewrite (Hjob j eq_refl). apply andb_false_r. }
    rewrite Hw. destruct (terminated_running id (if rec then bs "failed" else bs "interrupted") EARLY_EXIT now ids calls db
      Hst Hcalls Hids) as (db' & -> & Hs & _).
    assert (statuses db' !! id = Some (Some (if rec then bs "failed" else bs "interrupted"))) as Hgoal
      by (rewrite Hs; apply lookup_insert_eq).
    destruct rec, agent; try exact Hgoal. by destruct (no_event f). }
  split.
  - intros Hjob Hw. unfold turn_end. destruct e as [e|]; [|exact (Hdrop f2 false Hjob Hw)].
    destruct (run_ending_spec e f1 now id agent job db) as (_ & Hfail & Hok). fold g in Hfail, Hok.
    assert (superseded_by_newer_turn g f1 db = false) as Hns.
    { unfold superseded_by_newer_turn, g. cbn. destruct job as [j|]; [|done]. rewrite (Hjob j eq_refl). apply andb_false_r. }
    destruct (no_write f1) eqn:Hw1.
    + rewrite (Hfail Hns eq_refl). exact (Hdrop f2 true Hjob Hw).
    + destruct (Hok Hns eq_refl Hst) as [Ho Hs]. destruct (run_ending e f1 now g db) as [g' db']. cbn [fst snd] in *.
      unfold guard_drop. rewrite bool_decide_eq_false_2 by done. cbn [negb]. rewrite Hs. apply lookup_insert_eq.
  - intros j -> Hsup Hc1 Hc2. unfold turn_end. destruct e as [e|].
    + destruct (run_ending_spec e f1 now id agent (Some j) db) as (Hskip & _ & _). fold g in Hskip.
      destruct Hskip as [Hdb Ho]; [unfold superseded_by_newer_turn, g; cbn; by rewrite Hc1, Hsup|].
      destruct (run_ending e f1 now g db) as [g' db']. cbn [fst snd] in *. subst db'.
      unfold guard_drop. by rewrite bool_decide_eq_false_2.
    + unfold guard_drop, superseded_by_newer_turn, g. cbn. by rewrite Hc2, Hsup.
Qed.

(** ** Which session a message joins *)

Section newest.
Context {A : Type} (key : A → Z).
Lemma newest_snoc l a : newest key (l ++ [a]) = newer key (newest key l) a.
Proof. unfold newest. by rewrite foldl_app. Qed.
Lemma newest_spec l :
  match newest key l with
  | Some x => x ∈ l ∧ ∀ y, y ∈ l → (key y <= key x)%Z
  | None => l = []
  end.
Proof.
  induction l as [|a l IH] using rev_ind; [done|]. rewrite newest_snoc.
  destruct (newest key l) as [y|]; cbn.
  - destruct IH as [Hy Hmax]. destruct (Z.ltb_spec (key y) (key a)).
    + split; [apply elem_of_app; right; by left|]. intros z [Hz|Hz%list_elem_of_singleton]%elem_of_app; [|subst; lia].
      specialize (Hmax z Hz). lia.
    + split; [apply elem_of_app; by left|]. intros z [Hz|Hz%list_elem_of_singleton]%elem_of_app; [by apply Hmax|subst; lia].
  - subst. split; [by left|]. intros z ->%list_elem_of_singleton. lia.
Qed.
(** Leaving out others does not change the choice. *)
Lemma newest_filter (p : A → bool) l x : newest key l = Some x → p x = true → newest key (List.filter p l) = Some x.
Proof.
  intros Hx Hp. induction l as [|a l IH] using rev_ind; [done|]. rewrite newest_snoc in Hx.
  rewrite List.filter_app. pose proof (newest_spec l) as Hl. pose proof (newest_spec (List.filter p l)) as Hf.
  destruct (newest key l) as [y|] eqn:Hy; cbn in Hx.
  - destruct (Z.ltb_spec (key y) (key a)) as [Hlt|Hge].
    + injection Hx as ->. cbn. rewrite Hp, newest_snoc.
      destruct (newest key (List.filter p l)) as [z|]; [|done]. destruct Hf as [Hz%list_elem_of_In%filter_In _].
      destruct Hz as [Hz%list_elem_of_In _]. pose proof (proj2 Hl z Hz). cbn. destruct (Z.ltb_spec (key z) (key x)); [done|lia].
    + injection Hx as ->. cbn. destruct (p a); [|by rewrite app_nil_r, (IH eq_refl)].
      rewrite newest_snoc, (IH eq_refl). cbn. destruct (Z.ltb_spec (key x) (key a)); [lia|done].
  - injection Hx as ->. subst l. cbn. by rewrite Hp.
Qed.
End newest.

Lemma filter_weaker {A} (p q : A → bool) l :
  (∀ x, q x = true → p x = true) → List.filter q l = List.filter q (List.filter p l).
Proof.
  intros Hpq. induction l as [|x l IH]; cbn; [done|]. destruct (p x) eqn:Hp; cbn; [by rewrite IH|].
  destruct (q x) eqn:Hq; [by rewrite Hpq in Hp|done].
Qed.

Lemma active_session_spec agent user channel chat now db :
  match active_session agent user channel chat now db with
  | Some (id, r) =>
      sessions db !! id = Some r ∧ session_key agent user channel chat r = true ∧ active now r = true ∧
      ∀ id' r', sessions db !! id' = Some r' → session_key agent user channel chat r' = true → active now r' = true →
                (s_last r' <= s_last r)%Z
  | None => ∀ id r, sessions db !! id = Some r → session_key agent user channel chat r = true → active now r = false
  end.
Proof.
  unfold active_session. set (p := λ kr : Uuid * SessionRow, session_key agent user channel chat kr.2 && active now kr.2).
  pose proof (newest_spec (λ kr : Uuid * SessionRow, s_last kr.2) (List.filter p (map_to_list (sessions db)))) as Hs.
  assert (∀ id r, (id, r) ∈ List.filter p (map_to_list (sessions db)) ↔
                  sessions db !! id = Some r ∧ session_key agent user channel chat r = true ∧ active now r = true) as Hin.
  { intros id r. rewrite list_elem_of_In, filter_In, <- list_elem_of_In, elem_of_map_to_list. unfold p. cbn.
    by rewrite andb_true_iff. }
  destruct (newest _ _) as [[id r]|].
  - destruct Hs as [(? & ? & ?)%Hin Hmax]. split_and!; try done. intros id' r' Hr1 Hk1 Ha1. apply (Hmax (id', r')). by apply Hin.
  - intros id r Hr Hk. destruct (active now r) eqn:Ha; [|done].
    assert ((id, r) ∈ List.filter p (map_to_list (sessions db))) as Hc by (by apply Hin). rewrite Hs in Hc.
    by apply elem_of_nil in Hc.
Qed.

Lemma active_later now now' r : (now <= now')%Z → active now' r = true → active now r = true.
Proof. unfold active. rewrite !Z.ltb_lt. lia. Qed.

Lemma active_session_later agent user channel chat now now' db id r :
  active_session agent user channel chat now db = Some (id, r) → (now <= now')%Z → active now' r = true →
  active_session agent user channel chat now' db = Some (id, r).
Proof.
  unfold active_session. intros Hs Hle Ha.
  rewrite (filter_weaker (λ kr : Uuid * SessionRow, session_key agent user channel chat kr.2 && active now kr.2)).
  2:{ intros kr [Hk Hact]%andb_true_iff. by rewrite Hk, (active_later now now'). }
  apply newest_filter; [exact Hs|]. cbn. rewrite Ha, andb_true_r.
  pose proof (newest_spec (λ kr : Uuid * SessionRow, s_last kr.2)
    (List.filter (λ kr : Uuid * SessionRow, session_key agent user channel chat kr.2 && active now kr.2) (map_to_list (sessions db)))) as Hn.
  rewrite Hs in Hn. destruct Hn as [Hn%list_elem_of_In%filter_In _]. destruct Hn as [_ [Hk _]%andb_true_iff]. exact Hk.
Qed.

Lemma reentry_found st : reentry_of st ≠ NewSession.
Proof. unfold reentry_of. by destruct (st ≫= parse) as [[]|]. Qed.

Lemma statuses_set id p st db r :
  sessions db !! id = Some r → p r = true →
  statuses (update_session id p (set_status st) db).1 = <[id := Some st]> (statuses db) ∧
  (update_session id p (set_status st) db).2 = true.
Proof.
  intros Hr Hp. unfold update_session, statuses. rewrite Hr, Hp. cbn. split; [by rewrite fmap_insert|done].
Qed.
(** The claim of an existing session succeeds whatever its status. *)
Lemma claim_ok id mode db r :
  sessions db !! id = Some r →
  ∃ db', claim_session_with_retry id mode db = (db', true) ∧ statuses db' = <[id := Some (bs "running")]> (statuses db).
Proof.
  intros Hr. unfold claim_session_with_retry, claim_session_for_reentry.
  destruct (allowed_from mode r) eqn:Ha.
  - destruct (statuses_set id (allowed_from mode) (bs "running") db r Hr Ha) as [Hs Hok].
    destruct (update_session id (allowed_from mode) _ db) as [db1 ok]. cbn in *. subst ok. by exists db1.
  - assert (update_session id (allowed_from mode) (set_status (bs "running")) db = (db, false)) as ->
      by (unfold update_session; by rewrite Hr, Ha).
    rewrite Hr. destruct (statuses_set id (allowed_from ExplicitResume) (bs "running") db r Hr eq_refl) as [Hs Hok].
    destruct (update_session id (allowed_from ExplicitResume) _ db) as [db1 ok]. cbn in *. subst ok. by exists db1.
Qed.

(** A conversation keeps its session. [get_or_create_session] answers with
    a session of the scope's keys that was active in the last four hours: the
    most recent one when there is any, and then it writes nothing and never
    reports a new session; a fresh one only when there is none. Asked again
    while that session is still active it gives the same one and creates
    nothing, and the claim with the mode it reports always succeeds and leaves
    the session running. *)
Theorem session_continuity new_id agent user channel scope chat now db :
  sessions db !! new_id = None →
  let '(eff_user, eff_channel, eff_chat) := dm_scope_keys user channel scope chat in
  let '(db', id, mode) := get_or_create_session new_id agent user channel scope chat now db in
  ∃ r, sessions db' !! id = Some r ∧ session_key agent eff_user eff_channel eff_chat r = true ∧ active now r = true ∧
    (mode = NewSession →
       id = new_id ∧ db' = insert_session new_id (new_session agent eff_user eff_channel eff_chat now) db ∧
       ∀ id' r', sessions db !! id' = Some r' → session_key agent eff_user eff_channel eff_chat r' = true → active now r' = false) ∧
    (mode ≠ NewSession →
       db' = db ∧
       ∀ id' r', sessions db !! id' = Some r' → session_key agent eff_user eff_channel eff_chat r' = true →
                 active now r' = true → (s_last r' <= s_last r)%Z) ∧
    (∀ now' new_id', (now <= now')%Z → active now' r = true →
       ∃ mode', get_or_create_session new_id' agent user channel scope chat now' db' = (db', id, mode') ∧ mode' ≠ NewSession) ∧
    ∃ db'', claim_session_with_retry id mode db' = (db'', true) ∧
            statuses db'' = <[id := Some (bs "running")]> (statuses db').
Proof.
  intros Hnew. unfold get_or_create_session.
  destruct (dm_scope_keys user channel scope chat) as [[eu ec] es].
  pose proof (active_session_spec agent eu ec es now db) as Hs.
  destruct (active_session agent eu ec es now db) as [[id r]|] eqn:Ha.
  - destruct Hs as (Hr & Hk & Hact & Hmax). exists r. split_and!; try done.
    + intros Hm. by destruct (reentry_found (s_status r)).
    + intros now' new_id' Hle Hact'. rewrite (active_session_later _ _ _ _ now now' db id r) by done.
      eexists. split; [done|apply reentry_found].
    + by apply (claim_ok id _ db r).
  - set (r := new_session agent eu ec es now). set (db1 := insert_session new_id r db).
    assert (sessions db1 !! new_id = Some r) as Hr by apply lookup_insert_eq.
    assert (session_key agent eu ec es r = true) as Hk by (unfold session_key; cbn; by rewrite !bool_decide_eq_true_2).
    exists r. split_and!; try done.
    + unfold active. cbn. apply Z.ltb_lt. lia.
    + intros now' new_id' Hle Hact'. pose proof (active_session_spec agent eu ec es now' db1) as Hs1.
      destruct (active_session agent eu ec es now' db1) as [[id' r']|].
      * destruct Hs1 as (Hr' & Hk' & Ha' & _). destruct (decide (id' = new_id)) as [->|Hne].
        -- eexists. split; [done|apply reentry_found].
        -- assert (sessions db !! id' = Some r') as Hold by (revert Hr'; cbn; by rewrite lookup_insert_ne by done).
           pose proof (Hs id' r' Hold Hk') as Hf. by rewrite (active_later now now' r') in Hf.
      * by rewrite (Hs1 new_id r Hr Hk) in Hact'.
    + by apply (claim_ok new_id _ db1 r).
Qed.

(** ** The budget of the re-drive *)

Definition fewer_retries (r r' : SessionRow) : Prop := (s_retries r <= s_retries r')%Z.
#[local] Instance fewer_preorder : PreOrder fewer_retries.
Proof. split; unfold fewer_retries; [intros ?; lia|intros ? ? ?; lia]. Qed.

Lemma fewer_op now op db : keeps fewer_retries db (run_op now op db).
Proof.
  destruct (claiming op) eqn:Hc.
  - destruct op; try done; cbn [run_op].
    + unfold claim_session_with_retry, claim_session_for_reentry.
      pose proof (keeps_update_session fewer_retries id (allowed_from mode) (set_status (bs "running")) db
        (λ r _, Z.le_refl _)) as Hk.
      destruct (update_session _ _ _ db) as [db1 []]; cbn [fst] in Hk; [done|].
      case_match; [|done]. etrans; [exact Hk|]. apply (keeps_update_session fewer_retries). intros r _. apply Z.le_refl.
    + unfold increment_retry_count.
      pose proof (keeps_update_session fewer_retries id (status_among ["running"; "done"]) retry_row db) as Hk.
      destruct (update_session _ _ _ db). apply Hk. intros r _. unfold fewer_retries. cbn. lia.
    + unfold claim_redrive. match goal with |- context [update_session id ?p _ _] =>
        pose proof (keeps_update_session fewer_retries id p retry_row db) as Hk end.
      destruct (update_session _ _ _ db). apply Hk. intros r _. unfold fewer_retries. cbn. lia.
  - apply (keeps_op fewer_retries); [|intros; apply Z.le_refl..|done]. intros r r' _ He. unfold fewer_retries. lia.
Qed.

Lemma redrive_spec id max db r :
  sessions db !! id = Some r →
  match claim_redrive id max db with
  | (db', Some n) =>
      sessions db' !! id = Some (retry_row r) ∧ n = (s_retries r + 1)%Z ∧ (s_retries r < max)%Z ∧
      (s_status r = Some (bs "interrupted") ∨ s_status r = Some (bs "done"))
  | (db', None) => db' = db
  end.
Proof.
  intros Hr. unfold claim_redrive, update_session. rewrite Hr.
  destruct (status_among _ r && _) eqn:Hb; [|done]. cbn. rewrite lookup_insert_eq. cbn.
  apply andb_true_iff in Hb as [Hs Hm%Z.ltb_lt]. split_and!; try done. revert Hs. unfold status_among, status_is. cbn.
  rewrite orb_false_r, orb_true_iff, !bool_decide_eq_true. done.
Qed.

(** How many re-drives of a session succeed in a run. *)
Fixpoint redrive_count (id : Uuid) (ops : list (Z * SessionOp)) (db : Db) : Z :=
  match ops with
  | [] => 0
  | (now, op) :: rest =>
      (match op with
       | Redrive id' max => if bool_decide (id' = id) && bool_decide (is_Some (claim_redrive id max db).2) then 1 else 0
       | _ => 0
       end + redrive_count id rest (run_op now op db))%Z
  end.
Definition budgeted (limit : Z) (op : SessionOp) : Prop :=
  match op with Redrive _ max => (max <= limit)%Z | _ => True end.

(** A crashed run is restarted a bounded number of times. In any sequence
    of operations on a session, of any length and in any order, at most as
    many re-drives of it succeed as its retry counter is below the limit; and
    a re-drive that succeeded excludes a second one until some other
    operation has ended the session again. *)
Theorem redrive_budget limit id ops db r :
  sessions db !! id = Some r → Forall (λ top, budgeted limit top.2) ops →
  (redrive_count id ops db <= Z.max 0 (limit - s_retries r))%Z ∧
  ∀ max max' n, (claim_redrive id max db).2 = Some n → (claim_redrive id max' (claim_redrive id max db).1).2 = None.
Proof.
  intros Hr Hops. split.
  - revert db r Hr. induction Hops as [|[now op] ops Hop Hops IH]; intros db r Hr; cbn [redrive_count]; [lia|].
    destruct (fewer_op now op db id r Hr) as (r' & Hr' & Hle). unfold fewer_retries in Hle.
    pose proof (IH _ _ Hr') as Hrest. destruct op; try lia. cbn [snd budgeted] in Hop.
    case_bool_decide as Hid; [subst|cbn [andb]; lia]. cbn [andb]. case_bool_decide as Hs; [|lia].
    destruct Hs as [n Hn]. pose proof (redrive_spec id max_retries db r Hr) as Hspec. cbn [run_op] in Hr'.
    destruct (claim_redrive id max_retries db) as [db' o]. cbn [fst snd] in *. subst o.
    destruct Hspec as (Hrow & _ & Hlt & _). assert (r' = retry_row r) as -> by congruence. cbn [s_retries retry_row] in *. lia.
  - intros max max' n Hn. pose proof (redrive_spec id max db r Hr) as Hspec.
    destruct (claim_redrive id max db) as [db' o]. cbn [fst snd] in *. subst o. destruct Hspec as (Hrow & _).
    pose proof (redrive_spec id max' db' _ Hrow) as Hspec2. destruct (claim_redrive id max' db') as [db2 [n'|]]; [|done].
    cbn [s_status retry_row] in Hspec2. by destruct Hspec2 as (_ & _ & _ & [?|?]).
Qed.
End sessions.

(** ** A small store *)

Definition demo_call (id : string) : Jv.t := Jv.Obj [(bs "id", Jv.Str (bs id))].
Definition demo_message (id : Uuid) (role content : string) (calls : option Jv.t) (answers : option str) (status : string)
    : MessageRow := mkMessage id 1%Z (bs role) (bs content) calls answers 5%Z (bs status) None.
Definition demo_session (last : Z) (status : option string) : SessionRow :=
  mkSession (bs "main") (bs "ann") (bs "web") None (bs <$> status) last None 1%Z.
(** A running session with one answered and one open call and a partial
    answer, a finished session, and two jobs of the first. *)
Definition demo_db : Db :=
  mkDb (<[1%Z := demo_session 10 (Some "running"%string)]> (<[2%Z := demo_session 4 (Some "done"%string)]> ∅))
    [demo_message 0 "user" "hello" None None "complete";
     demo_message (-1) "assistant" "" (Some (Jv.Arr [demo_call "c1"; demo_call "c2"])) None "complete";
     demo_message (-2) "tool" "ok" None (Some (bs "c1")) "complete";
     demo_message (-3) "assistant" "par" None None "streaming"]
    [] (<[7%Z := mkJob 1%Z 3%Z]> (<[8%Z := mkJob 1%Z 4%Z]> ∅)) [].

Definition demo_ids (k : nat) : Uuid := Zpos (encode k).
Definition demo_ids3 (a b c : nat) : Uuid := Zpos (encode (a, b, c)).
Lemma demo_fresh : fresh_ids demo_ids demo_db.
Proof.
  split; [intros a b [= He]; by apply (inj encode)|]. intros k. unfold demo_ids, message_ids. cbn.
  rewrite !not_elem_of_cons. split_and!; try done. apply not_elem_of_nil.
Qed.
Lemma demo_fresh3 : fresh_ids3 demo_ids3 demo_db.
Proof.
  split; [intros a b c d e f [= He]; by apply (inj encode) in He as [= -> -> ->]|].
  intros a b c. unfold demo_ids3, message_ids. cbn. rewrite !not_elem_of_cons. split_and!; try done. apply not_elem_of_nil.
Qed.

Example demo_repaired :
  let db' := (cleanup_session_terminated 1%Z (bs "interrupted") (bs "crash") 9%Z demo_ids demo_db).1 in
  (m_status <$> messages db') = [bs "complete"; bs "complete"; bs "complete"; bs "interrupted"; bs "complete"] ∧
  answered_ids 1%Z db' = [bs "c1"; bs "c2"] ∧ statuses db' !! 1%Z = Some (Some (bs "interrupted")) ∧
  statuses db' !! 2%Z = Some (Some (bs "done")).
Proof. vm_compute. repeat split. Qed.

Lemma status_machine_witness :
  statuses demo_db !! 2%Z = Some (Some (bs "done")) ∧
  (∃ r', sessions (run_op 9%Z (Claim 2%Z ExplicitResume) demo_db) !! 2%Z = Some r' ∧ started (demo_session 4 (Some "done"%string)) r') ∧
  (∃ r', sessions (run_op 9%Z (SetStatus 2%Z (bs "failed")) demo_db) !! 2%Z = Some r' ∧ settled (demo_session 4 (Some "done"%string)) r') ∧
  sessions (run_removal 9%Z (Delete 2%Z) demo_db) !! 2%Z = None.
Proof.
  assert (sessions demo_db !! 2%Z = Some (demo_session 4 (Some "done"%string))) as Hr by (vm_compute; reflexivity).
  split_and!; [vm_compute; reflexivity| | |].
  - destruct (status_follows_machine 9%Z (inl (Claim 2%Z ExplicitResume)) demo_db 2%Z _ Hr) as (r' & Hr' & _ & Hs & _).
    exists r'. split; [exact Hr'|]. apply Hs. reflexivity.
  - destruct (status_follows_machine 9%Z (inl (SetStatus 2%Z (bs "failed"))) demo_db 2%Z _ Hr) as (r' & Hr' & Hs & _).
    exists r'. split; [exact Hr'|]. apply Hs. reflexivity.
  - destruct (status_follows_machine 9%Z (inr (Delete 2%Z)) demo_db 2%Z _ Hr) as [[_ Hn]|[Hn _]]; [exact Hn|].
    destruct Hn. reflexivity.
Defined.

Lemma cleanup_repairs_witness :
  ∃ db', cleanup_session_terminated 1%Z (bs "interrupted") (bs "crash") 9%Z demo_ids demo_db = (db', Some true) ∧
         (∀ c, c ∈ [bs "c1"; bs "c2"] → c ∈ answered_ids 1%Z db') ∧
         ∃ kept added, messages db' = kept ++ added ∧ m_tool_call_id <$> added = [Some (bs "c2")] ∧
           ∀ m, m ∈ added → m_content m = INTERRUPTED_TOOL_RESULT.
Proof.
  assert (declared_call_ids 1%Z demo_db = Some [bs "c1"; bs "c2"]) as Hd by (vm_compute; reflexivity).
  assert (statuses demo_db !! 1%Z = Some (Some (bs "running"))) as Hs by (vm_compute; reflexivity).
  assert (bs "interrupted" ≠ bs "running") as Ht by (vm_compute; discriminate).
  destruct (proj2 (cleanup_repairs 1%Z (bs "interrupted") (bs "crash") 9%Z demo_ids _ demo_db Hd demo_fresh) Hs Ht)
    as (db' & Hc & _ & _ & Hans & Hadded & _).
  exists db'. split; [exact Hc|]. split; [exact Hans|].
  destruct Hadded as (kept & added & Hm & _ & Hids & Hadd). exists kept, added. split; [exact Hm|]. split.
  - assert (List.filter (λ c, negb (bool_decide (c ∈ answered_ids 1%Z demo_db))) [bs "c1"; bs "c2"] = [bs "c2"]) as Hf
      by (vm_compute; reflexivity).
    rewrite Hf in Hids. exact Hids.
  - intros m Hin. exact (proj1 (proj2 (proj2 (Hadd m Hin)))).
Defined.

Lemma startup_witness :
  ∃ db', startup_cleanup 2 9%Z demo_ids3 demo_db = Some db' ∧ running_ids db' = [] ∧
         ∀ c, c ∈ [bs "c1"; bs "c2"] → c ∈ answered_ids 1%Z db'.
Proof.
  assert (∀ id, is_Some (declared_call_ids id demo_db)) as Hd.
  { intros id. unfold declared_call_ids. destruct (decide (id = 1%Z)) as [->|Hne].
    - exists [bs "c1"; bs "c2"]. vm_compute. reflexivity.
    - exists []. rewrite filter_none; [reflexivity|]. intros m Hin.
      assert (m_session m = 1%Z) as Hm
        by (cbn in Hin; repeat (apply elem_of_cons in Hin as [->|Hin]; [reflexivity|]); by apply elem_of_nil in Hin).
      unfold in_session. rewrite Hm, bool_decide_eq_false_2; [reflexivity|congruence]. }
  assert (length (running_ids demo_db) < 2) as Hlt by (vm_compute; lia).
  destruct (startup_cleanup_converges 9%Z demo_ids3 demo_db 2 Hd demo_fresh3 Hlt) as (db' & Hs & Hrun & _ & _ & Hans).
  exists db'. split_and!; [exact Hs|exact Hrun|]. intros c. apply Hans.
  - apply (bool_decide_unpack _). vm_compute. exact I.
  - vm_compute. reflexivity.
Defined.

Lemma turn_end_witness :
  statuses (turn_end (Some EndDone) (mkFaults false true false) no_faults 9%Z demo_ids (new_guard 1%Z None (Some 8%Z)) demo_db) !! 1%Z
    = Some (Some (bs "failed")) ∧
  turn_end (Some EndDone) no_faults no_faults 9%Z demo_ids (new_guard 1%Z None (Some 7%Z)) demo_db = demo_db.
Proof.
  assert (declared_call_ids 1%Z demo_db = Some [bs "c1"; bs "c2"]) as Hd by (vm_compute; reflexivity).
  assert (statuses demo_db !! 1%Z = Some (Some (bs "running"))) as Hs by (vm_compute; reflexivity).
  split.
  - refine (proj1 (turn_end_status (Some EndDone) (mkFaults false true false) no_faults 9%Z demo_ids 1%Z None (Some 8%Z)
      _ demo_db Hs Hd demo_fresh) _ eq_refl).
    intros j [= <-]. vm_compute. reflexivity.
  - refine (proj2 (turn_end_status (Some EndDone) no_faults no_faults 9%Z demo_ids 1%Z None (Some 7%Z)
      _ demo_db Hs Hd demo_fresh) 7%Z eq_refl _ eq_refl eq_refl).
    vm_compute. reflexivity.
Defined.

Lemma continuity_witness :
  ∃ r, sessions demo_db !! 1%Z = Some r ∧ session_key (bs "main") (bs "ann") (bs "web") None r = true ∧
  (get_or_create_session 3%Z (bs "main") (bs "ann") (bs "web") (bs "per-channel-peer") None 11%Z demo_db).1.2 = 1%Z.
Proof.
  assert (sessions demo_db !! 3%Z = None) as Hn by (vm_compute; reflexivity).
  pose proof (session_continuity 3%Z (bs "main") (bs "ann") (bs "web") (bs "per-channel-peer") None 11%Z demo_db Hn) as Hc.
  assert (dm_scope_keys (bs "ann") (bs "web") (bs "per-channel-peer") None = (bs "ann", bs "web", None)) as Hk
    by (vm_compute; reflexivity).
  rewrite Hk in Hc.
  assert ((get_or_create_session 3%Z (bs "main") (bs "ann") (bs "web") (bs "per-channel-peer") None 11%Z demo_db).1.2 = 1%Z) as Hid
    by (vm_compute; reflexivity).
  assert ((get_or_create_session 3%Z (bs "main") (bs "ann") (bs "web") (bs "per-channel-peer") None 11%Z demo_db).2 ≠ NewSession) as Hm
    by (vm_compute; discriminate).
  revert Hc Hid Hm.
  destruct (get_or_create_session _ _ _ _ _ _ _ _) as [[db' id] mode]. cbn [fst snd]. intros Hc -> Hm.
  destruct Hc as (r & Hr & Hkey & _ & _ & Hsame & _). destruct (Hsame Hm) as [-> _].
  exists r. split_and!; [exact Hr|exact Hkey|reflexivity].
Defined.

Lemma redrive_witness :
  (redrive_count 2%Z [(9, Redrive 2 3); (9, SetStatus 2 (bs "interrupted")); (9, Redrive 2 3); (9, SetStatus 2 (bs "done"));
                      (9, Redrive 2 3)]%Z demo_db <= 2)%Z.
Proof.
  assert (sessions demo_db !! 2%Z = Some (demo_session 4 (Some "done"%string))) as Hr by (vm_compute; reflexivity).
  refine (proj1 (redrive_budget 3%Z 2%Z _ demo_db _ Hr _)).
  repeat constructor; cbn; lia.
Defined.

Example redrive_example :
  redrive_count 2%Z [(9, Redrive 2 3); (9, SetStatus 2 (bs "interrupted")); (9, Redrive 2 3); (9, SetStatus 2 (bs "done"));
                     (9, Redrive 2 3)]%Z demo_db = 2%Z.
Proof. vm_compute. reflexivity. Qed.
