(* ===== verification/Dispatch.v ===== *)
(** * Tool policy and the dispatch gate

    [agent/pipeline/dispatch.rs] (pattern matching, approval, policy filters),
    [agent/channel_kind.rs] (categories), [agent/dispatcher/] (the rewrite of
    [tool_use] calls and the runtime deny gate) and the assembly of a batch's
    results in [agent/pipeline/parallel.rs]. *)
From S2P Require Import Prelude Json Messages.

(** ** Patterns *)

Definition STAR : ascii := "*"%char.

(** The loop of [tool_pattern_matches] over the non-empty segments: [i] is the
    index of the head of [segs], [pos] the position in [name]. *)
Fixpoint match_segments (anchored_start anchored_end : bool) (name : str)
    (last i pos : nat) (segs : list str) : bool :=
  match segs with
  | [] => true
  | seg :: segs' =>
      let rest := drop pos name in
      if (i =? 0) && anchored_start then
        if negb (starts_with seg rest) then false
        else match_segments anchored_start anchored_end name last (S i)
               (pos + length seg) segs'
      else if (i =? last) && anchored_end then
        if (length rest <? length seg) || negb (ends_with seg rest) then false
        else match_segments anchored_start anchored_end name last (S i)
               (length name) segs'
      else
        match find_sub seg rest with
        | Some idx => match_segments anchored_start anchored_end name last (S i)
                        (pos + idx + length seg) segs'
        | None => false
        end
  end.

Definition nonempty (s : str) : bool := negb (bool_decide (s = [])).

(* @src opex-core/src/agent/pipeline/dispatch.rs 22-62 tool_pattern_matches *)
Definition tool_pattern_matches (pattern name : str) : bool :=
  if negb (contains [STAR] pattern) then bool_decide (pattern = name) else
  let anchored_start := negb (starts_with [STAR] pattern) in
  let anchored_end := negb (ends_with [STAR] pattern) in
  let segments := List.filter nonempty (split_on STAR pattern) in
  match segments with
  | [] => true
  | _ => match_segments anchored_start anchored_end name (length segments - 1) 0 0 segments
  end.

(** *** Reference semantics: [*] stands for any text. *)
Inductive glob_match : str → str → Prop :=
| gm_nil : glob_match [] []
| gm_char c p s : c ≠ STAR → glob_match p s → glob_match (c :: p) (c :: s)
| gm_star_end p s : glob_match p s → glob_match (STAR :: p) s
| gm_star_more p c s : glob_match (STAR :: p) s → glob_match (STAR :: p) (c :: s).

Module Glob.
(** A text that starts with a free gap, then meets the pieces in order. *)
Fixpoint tail_spec (xs : list str) (t : str) : Prop :=
  match xs with
  | [] => t = []
  | [x] => ∃ g, t = g ++ x
  | x :: xs' => ∃ g u, t = g ++ x ++ u ∧ tail_spec xs' u
  end.

(** The same for the non-empty segments; [ae]: the last one ends the text. *)
Fixpoint segs_spec (ae : bool) (segs : list str) (t : str) : Prop :=
  match segs with
  | [] => ae = true → t = []
  | x :: segs' => ∃ g u, t = g ++ x ++ u ∧ segs_spec ae segs' u
  end.

Lemma tail_spec_cons x xs t :
  xs ≠ [] → tail_spec (x :: xs) t ↔ ∃ g u, t = g ++ x ++ u ∧ tail_spec xs u.
Proof. by destruct xs. Qed.

Lemma segs_spec_app ae segs g t :
  segs ≠ [] ∨ ae = false → segs_spec ae segs t → segs_spec ae segs (g ++ t).
Proof.
  destruct segs as [|x segs]; simpl.
  - intros [| ->] ?; [done|]. intros [=].
  - intros _ (g' & u & -> & ?). exists (g ++ g'), u. by rewrite <-app_assoc.
Qed.

(** Dropping the empty pieces does not change what is matched. *)
Lemma tail_segs xs t :
  xs ≠ [] →
  tail_spec xs t ↔ segs_spec (nonempty (List.last xs [])) (List.filter nonempty xs) t.
Proof.
  revert t. induction xs as [|x xs IH]; intros t Hne; [done|].
  destruct (decide (xs = [])) as [->|Hxs].
  { unfold nonempty. simpl. case_bool_decide as Hx; simpl.
    - subst x. split; [done|]. intros _. exists t. by rewrite app_nil_r.
    - split.
      + intros [g ->]. exists g, []. split; [by rewrite app_nil_r|done].
      + intros (g & u & -> & Hu). exists g. by rewrite Hu, app_nil_r by done. }
  rewrite tail_spec_cons by done. setoid_rewrite IH; [|done].
  assert (List.last (x :: xs) [] = List.last xs []) as -> by (by destruct xs).
  simpl. destruct (nonempty x) eqn:Hx; simpl; [done|].
  unfold nonempty in Hx. bool_hyps. subst x.
  split; [intros (g & u & -> & Hu)|intros Hu; by exists [], t].
  apply segs_spec_app; [|done].
  destruct (List.filter nonempty xs) eqn:Hf; [right|by left].
  apply not_true_is_false. intros Hl.
  assert (In (List.last xs []) (List.filter nonempty xs)) as Hin.
  { apply List.filter_In. split; [|done].
    destruct (List.exists_last Hxs) as (l & y & ->). rewrite List.last_last.
    apply in_app_iff. right. by left. }
  by rewrite Hf in Hin.
Qed.

(** The glob relation, by the pieces between the stars. *)
Lemma glob_literal x p s :
  STAR ∉ x → glob_match (x ++ p) s ↔ ∃ t, s = x ++ t ∧ glob_match p t.
Proof.
  revert s. induction x as [|c x IH]; intros s Hx; simpl.
  - split; [by exists s|]. by intros (t & -> & ?).
  - apply not_elem_of_cons in Hx as [Hc Hx]. split.
    + inversion 1; subst; try done.
      match goal with H : glob_match (x ++ p) _ |- _ => apply IH in H as (t & -> & ?) end;
        [by exists t|done].
    + intros (t & -> & ?). constructor; [congruence|]. apply IH; [done|]. by exists t.
Qed.

Lemma glob_star p s : glob_match (STAR :: p) s ↔ ∃ g t, s = g ++ t ∧ glob_match p t.
Proof.
  split.
  - remember (STAR :: p) as q eqn:Hq. intros H.
    induction H as [|c p' s Hc _ _|p' s H _|p' c s H IH]; simplify_eq.
    + by exists [], s.
    + destruct (IH eq_refl) as (g & t & -> & ?). by exists (c :: g), t.
  - intros (g & t & -> & H). induction g as [|c g IH]; simpl; by constructor.
Qed.

Lemma glob_nil s : glob_match [] s ↔ s = [].
Proof. split; [by inversion 1|]. intros ->. constructor. Qed.

Lemma glob_tail xs t :
  xs ≠ [] → Forall (λ x, STAR ∉ x) xs →
  glob_match (STAR :: join [STAR] xs) t ↔ tail_spec xs t.
Proof.
  intros Hne Hxs. revert t. induction Hxs as [|x xs Hx Hxs IH]; intros t; [done|].
  rewrite glob_star. destruct xs as [|y xs].
  - simpl. split.
    + intros (g & u & -> & Hu). rewrite <-(app_nil_r x) in Hu.
      apply glob_literal in Hu as (t & -> & ->%glob_nil); [|done].
      exists g. by rewrite app_nil_r.
    + intros [g ->]. exists g, x. split; [done|]. rewrite <-(app_nil_r x) at 1.
      apply glob_literal; [done|]. exists []. rewrite app_nil_r. split; [done|constructor].
  - rewrite tail_spec_cons by done. setoid_rewrite <-IH; [|done].
    change (join [STAR] (x :: y :: xs)) with (x ++ STAR :: join [STAR] (y :: xs)).
    split.
    + intros (g & u & -> & (v & -> & ?)%glob_literal); [|done]. eauto.
    + intros (g & u & -> & ?). exists g, (x ++ u). split; [done|].
      apply glob_literal; eauto.
Qed.

(** *** The loop is the greedy, left-most search of the segments. *)
Lemma loop_step as_ ae name last i pos segs :
  i ≠ 0 ∨ as_ = false →
  match_segments as_ ae name last i pos segs =
  match segs with
  | [] => true
  | seg :: segs' =>
      if (i =? last) && ae then
        if (length (drop pos name) <? length seg) || negb (ends_with seg (drop pos name))
        then false
        else match_segments as_ ae name last (S i) (length name) segs'
      else match find_sub seg (drop pos name) with
           | Some idx => match_segments as_ ae name last (S i) (pos + idx + length seg) segs'
           | None => false
           end
  end.
Proof.
  intros H. destruct segs as [|seg segs]; [done|]. simpl.
  assert ((i =? 0) && as_ = false) as ->; [|done].
  destruct H as [H| ->]; [|by rewrite andb_false_r].
  by rewrite (proj2 (Nat.eqb_neq _ _) H).
Qed.

(** Left-most search loses nothing. *)
Lemma greedy ae x segs t :
  segs ≠ [] ∨ ae = false →
  segs_spec ae (x :: segs) t ↔
  ∃ idx, find_sub x t = Some idx ∧ segs_spec ae segs (drop (idx + length x) t).
Proof.
  intros Hs. simpl. split.
  - intros (g & u & -> & Hu).
    assert (contains x (g ++ x ++ u) = true) as Hc by (apply contains_spec; eauto).
    unfold contains in Hc.
    destruct (find_sub x (g ++ x ++ u)) as [idx|] eqn:Hf; [|done].
    exists idx. split; [done|].
    assert (idx ≤ length g).
    { destruct (decide (idx ≤ length g)); [done|].
      pose proof (find_sub_first _ _ _ (length g) Hf ltac:(lia)) as Hn.
      by rewrite drop_app_length, starts_with_app in Hn. }
    assert (drop (idx + length x) (g ++ x ++ u)
            = drop (idx + length x) (g ++ x) ++ u) as ->.
    { rewrite app_assoc, drop_app_le by (rewrite length_app; lia). done. }
    by apply segs_spec_app.
  - intros (idx & Hf & Hu). apply find_sub_Some in Hf as [Ht ?]. eauto.
Qed.

Lemma loop_spec as_ ae name last i pos segs :
  i ≠ 0 ∨ as_ = false → segs ≠ [] ∨ ae = false → pos ≤ length name →
  last + 1 = i + length segs →
  match_segments as_ ae name last i pos segs = true ↔ segs_spec ae segs (drop pos name).
Proof.
  revert i pos. induction segs as [|x segs IH]; intros i pos Hi Hs Hpos Hl;
    rewrite loop_step by done.
  { destruct Hs as [| ->]; [done|]. simpl. split; [by intros ? [=]|done]. }
  simpl in Hl. destruct ((i =? last) && ae) eqn:Hlast.
  - apply andb_prop in Hlast as [Hil Hae]. apply Nat.eqb_eq in Hil.
    assert (segs = []) as ->. { destruct segs; simpl in *; [done|lia]. }
    simpl. split.
    + case_if; [done|]. bool_hyps. intros _.
      match goal with He : ends_with _ _ = true |- _ =>
        apply ends_with_spec in He as [g Hg] end.
      exists g, []. by rewrite app_nil_r.
    + intros (g & u & Hd & Hu).
      rewrite Hu, app_nil_r in Hd by done. rewrite Hd.
      rewrite (proj2 (ends_with_spec x (g ++ x))) by (by exists g).
      rewrite length_app.
      by rewrite (proj2 (Nat.ltb_ge (length g + length x) (length x))) by lia.
  - assert (segs ≠ [] ∨ ae = false) as Hs'.
    { apply andb_false_iff in Hlast as [Hlast|]; [|by right]. left. intros ->.
      bool_hyps. simpl in Hl. lia. }
    rewrite greedy by done. split.
    + destruct (find_sub x (drop pos name)) as [idx|] eqn:Hf; [|done]. intros Hm.
      pose proof (proj2 (find_sub_Some _ _ _ Hf)) as Hb. rewrite length_drop in Hb.
      exists idx. split; [done|]. rewrite drop_drop.
      apply IH in Hm; [by rewrite Nat.add_assoc|lia|done|lia|lia].
    + intros (idx & Hf & Hsp). rewrite Hf.
      pose proof (proj2 (find_sub_Some _ _ _ Hf)) as Hb. rewrite length_drop in Hb.
      apply IH; [lia|done|lia|lia|]. by rewrite drop_drop, Nat.add_assoc in Hsp.
Qed.

Lemma contains_star p : contains [STAR] p = true ↔ STAR ∈ p.
Proof.
  rewrite contains_spec. split.
  - intros (a & b & ->). set_solver.
  - intros (a & b & ->)%list_elem_of_split. by exists a, b.
Qed.

(** A pattern with a star, as its first piece and the others. *)
Lemma split_star p :
  STAR ∈ p → ∃ x0 xs, split_on STAR p = x0 :: xs ∧ xs ≠ [] ∧
    p = x0 ++ (STAR :: join [STAR] xs) ∧ (STAR ∉ x0) ∧ Forall (λ x, STAR ∉ x) xs.
Proof.
  intros Hin. pose proof (join_split STAR p) as Hj.
  pose proof (split_on_no_sep_elems STAR p) as Hf.
  destruct (split_on STAR p) as [|x0 xs] eqn:Hs; [by apply split_on_ne in Hs|].
  apply Forall_cons in Hf as [H0 Hf]. exists x0, xs.
  assert (xs ≠ []) as Hne by (intros ->; simpl in Hj; by subst).
  split_and!; [done..| |done|done]. destruct xs; [done|]. by rewrite <-Hj at 1.
Qed.

Lemma starts_star x0 r : STAR ∉ x0 → negb (starts_with [STAR] (x0 ++ STAR :: r)) = nonempty x0.
Proof.
  intros H. destruct x0 as [|c x0]; [done|]. unfold nonempty.
  apply not_elem_of_cons in H as [H _]. simpl. by rewrite bool_decide_eq_false_2.
Qed.

Lemma ends_star x0 xs :
  xs ≠ [] → Forall (λ x, STAR ∉ x) xs →
  negb (ends_with [STAR] (x0 ++ STAR :: join [STAR] xs)) = nonempty (List.last xs []).
Proof.
  intros Hne Hf. destruct (List.exists_last Hne) as (l & y & ->). rewrite List.last_last.
  assert (∃ g, x0 ++ STAR :: join [STAR] (l ++ [y]) = g ++ STAR :: y) as [g ->].
  { clear. revert x0. induction l as [|x l IH]; intros x0; [by exists x0|].
    destruct (IH (x0 ++ STAR :: x)) as [g Hg]. exists g. rewrite <-Hg.
    rewrite <-app_assoc. by destruct l. }
  assert (STAR ∉ y) as Hy by (apply Forall_app in Hf as [_ Hf]; by inversion Hf). unfold ends_with.
  change (reverse [STAR]) with [STAR]. rewrite reverse_app, reverse_cons. destruct (decide (y = [])) as [->|Hny].
  - unfold nonempty. rewrite bool_decide_eq_true_2 by done. reflexivity.
  - destruct (List.exists_last Hny) as (y' & c & ->). rewrite reverse_app.
    simpl. rewrite bool_decide_eq_false_2 by (intros Hs; apply Hy; set_solver).
    unfold nonempty. by rewrite bool_decide_eq_false_2 by (by destruct y').
Qed.

Lemma filter_last xs :
  xs ≠ [] → List.filter nonempty xs = [] → nonempty (List.last xs []) = false.
Proof.
  intros Hne Hf. destruct (List.exists_last Hne) as (l & y & ->). rewrite List.last_last.
  rewrite List.filter_app in Hf. apply app_eq_nil in Hf as [_ Hf].
  simpl in Hf. by destruct (nonempty y).
Qed.
End Glob.

Lemma pattern_matches_glob (pattern name : str) :
  tool_pattern_matches pattern name = true ↔ glob_match pattern name.
Proof.
  unfold tool_pattern_matches. destruct (contains [STAR] pattern) eqn:Hc; cbn [negb].
  - apply Glob.contains_star in Hc.
    destruct (Glob.split_star _ Hc) as (x0 & xs & -> & Hne & -> & H0 & Hf).
    rewrite Glob.starts_star, Glob.ends_star by done.
    rewrite Glob.glob_literal by done. setoid_rewrite Glob.glob_tail; [|done..].
    setoid_rewrite Glob.tail_segs; [|done].
    pose proof (Glob.filter_last xs Hne) as Hlast. simpl.
    set (ae := nonempty (List.last xs [])) in *.
    destruct (nonempty x0) eqn:Hx0.
    + assert (List.filter nonempty xs ≠ [] ∨ ae = false) as Hs.
      { destruct (decide (List.filter nonempty xs = [])); auto. }
      simpl. rewrite drop_0. split.
      * case_if; [done|]. bool_hyps. intros Hm.
        apply Glob.loop_spec in Hm; [|by left|done|by apply starts_with_length|simpl; lia].
        exists (drop (length x0) name). split; [by apply starts_with_split|done].
      * intros (t & -> & Ht). rewrite starts_with_app. simpl.
        apply Glob.loop_spec; [by left|done|rewrite length_app; lia|simpl; lia|].
        by rewrite drop_app_length.
    + unfold nonempty in Hx0. bool_hyps. subst x0. simpl.
      destruct (List.filter nonempty xs) as [|y segs] eqn:Hseg.
      * split; [intros _|done]. exists name. split; [done|]. intros Hae.
        rewrite Hlast in Hae; done.
      * rewrite Glob.loop_spec; [|by right|by left|lia|simpl; lia].
        rewrite drop_0. split; [by exists name|]. by intros (t & -> & ?).
  - assert (STAR ∉ pattern) as Hn.
    { intros ?%Glob.contains_star. congruence. }
    rewrite bool_decide_eq_true. rewrite <-(app_nil_r pattern) at 2.
    rewrite Glob.glob_literal by done. setoid_rewrite Glob.glob_nil. split.
    + intros <-. exists []. by rewrite app_nil_r.
    + intros (t & -> & ->). by rewrite app_nil_r.
Qed.

(** ** Configuration *)

(* @src opex-core/src/config/mod.rs 1315-1328 ToolGroups *)
Record ToolGroups := mkToolGroups {
  git : bool;
  tool_management : bool;
  skill_editing : bool;
  session_tools : bool;
}.

(* @src opex-core/src/config/mod.rs 1331-1340 ToolGroups::default *)
Definition default_tool_groups : ToolGroups := mkToolGroups true true true true.

(* @src opex-core/src/config/mod.rs 1298-1310 AgentToolPolicy *)
Record AgentToolPolicy := mkPolicy {
  allow : list str;
  deny : list str;
  allow_all : bool;
  deny_all_others : bool;
  groups : ToolGroups;
}.

(* @src opex-core/src/config/mod.rs 1244-1257 ApprovalConfig *)
Record ApprovalConfig := mkApproval {
  enabled : bool;
  require_for : list str;
  require_for_categories : list str;
  timeout_seconds : Z;
}.

(** ** Tool categories *)

(* @src opex-core/src/agent/channel_kind.rs 24-28 ToolCategory *)
Inductive ToolCategory := CatSystem | CatDestructive | CatExternal.

(* @src opex-core/src/agent/channel_kind.rs 31-37 ToolCategory::as_str *)
Definition category_as_str (c : ToolCategory) : str :=
  match c with
  | CatSystem => bs "system"
  | CatDestructive => bs "destructive"
  | CatExternal => bs "external"
  end.

Definition is_any (name : str) (l : list string) : bool :=
  existsb (λ s, bool_decide (name = bs s)) l.

(* @src opex-core/src/agent/channel_kind.rs 39-46 ToolCategory::classify *)
Definition classify_category (tool_name : str) : ToolCategory :=
  if is_any tool_name ["code_exec"; "process"; "browser_action"]%string then CatSystem
  else if is_any tool_name ["workspace_delete"; "workspace_write"; "workspace_edit";
                            "workspace_rename"]%string then CatDestructive
  else if starts_with (bs "git_") tool_name then CatSystem
  else CatExternal.

(* @src opex-core/src/agent/pipeline/dispatch.rs 67-91 needs_approval *)
Definition needs_approval (approval : option ApprovalConfig) (tool_name : str) : bool :=
  match approval with
  | None => false
  | Some a =>
      if negb (enabled a) then false
      else if existsb (λ t, tool_pattern_matches t tool_name) (require_for a) then true
      else if negb (bool_decide (require_for_categories a = [])) then
        let category := classify_category tool_name in
        if existsb (λ c, bool_decide (c = category_as_str category))
             (require_for_categories a)
        then true else false
      else false
  end.

(* @src opex-core/src/agent/pipeline/dispatch.rs 96-100 classify_tool_result *)
Definition classify_tool_result (result : str) : bool :=
  contains (quoted "status" ++ bs ":" ++ quoted "error") result
  || starts_with (bs "Error:") result
  || (starts_with (bs "Tool '") result && contains (bs "timed out") result).

(* @src opex-core/src/agent/pipeline/dispatch.rs 123-130 SYSTEM_TOOL_NAMES *)
Definition SYSTEM_TOOL_NAMES : list string :=
  ["workspace_write"; "workspace_read"; "workspace_list"; "workspace_edit";
   "workspace_delete"; "workspace_rename";
   "web_fetch"; "file_handler"; "agent"; "message"; "cron"; "code_exec"; "browser_action";
   "git"; "session"; "skill"; "skill_use"; "canvas"; "rich_card";
   "agents_list"; "secret_set"; "process";
   "apply_patch"; "todo"; "clarify"; "code_orchestrate"; "lsp"]%string.

Definition denied (deny : list str) (name : str) : bool :=
  existsb (λ d, tool_pattern_matches d name) deny.

Section policy.
Context {V : Type} `{Json V}.
Implicit Types t : ToolDefinition V.

(* @src opex-core/src/agent/pipeline/dispatch.rs 103-109 clean_tool_params *)
Definition clean_tool_params (arguments : V) : V := jremove (bs "_context") arguments.

(** The closure of [filter_tools_by_policy]. *)
Definition policy_keeps (policy : AgentToolPolicy) (memory_available : bool) t : bool :=
  let name := td_name t in
  if denied (deny policy) name then false
  else if is_any name SYSTEM_TOOL_NAMES then true
  else if bool_decide (name = bs "memory") then memory_available
  else if starts_with (bs "tool_") name then true
  else if allow_all policy then true
  else if deny_all_others policy then
    existsb (λ a, tool_pattern_matches a name) (allow policy)
  else if negb (bool_decide (allow policy = [])) then
    existsb (λ a, tool_pattern_matches a name) (allow policy)
  else true.

(* @src opex-core/src/agent/pipeline/dispatch.rs 136-192 filter_tools_by_policy *)
Definition filter_tools_by_policy (tools : list (ToolDefinition V))
    (policy : option AgentToolPolicy) (memory_available : bool)
    : list (ToolDefinition V) :=
  match policy with
  | None => tools
  | Some p => List.filter (policy_keeps p memory_available) tools
  end.

(* @src opex-core/src/agent/pipeline/dispatch.rs 200-224 apply_tool_policy_override *)
Definition apply_tool_policy_override (tools : list (ToolDefinition V))
    (base_deny : option (list str)) (override_policy : AgentToolPolicy)
    : list (ToolDefinition V) :=
  List.filter (λ t,
    if denied (deny override_policy) (td_name t) then false
    else if match base_deny with Some bd => denied bd (td_name t) | None => false end
    then false
    else if negb (bool_decide (allow override_policy = [])) then
      existsb (λ a, tool_pattern_matches a (td_name t)) (allow override_policy)
    else true) tools.

(* @src opex-core/src/agent/pipeline/dispatch.rs 237-242 apply_global_block *)
Definition apply_global_block (tools : list (ToolDefinition V)) (block : list str)
    : list (ToolDefinition V) :=
  if bool_decide (block = []) then tools
  else List.filter (λ t, negb (existsb (λ b, bool_decide (b = td_name t)) block)) tools.

(** *** The rewrite of [tool_use] and the runtime gate *)

(* @src opex-core/src/agent/dispatcher/rewrite.rs 12-18 RewriteResult *)
Inductive RewriteResult :=
| Direct (tc : ToolCall V)
| Denied (id reason : str).

(* @src opex-core/src/agent/dispatcher/lookup.rs 9-20 is_valid_tool_name *)
Definition is_valid_tool_name (name : str) : bool :=
  if bool_decide (name = []) || (64 <? length name) then false else
  match name with
  | [] => false
  | c :: _ =>
      if negb (is_ascii_alphabetic c) then false
      else forallb (λ b, is_ascii_alphanumeric b || bool_decide (b = "_"%char)
                         || bool_decide (b = "-"%char)) name
  end.

(* @src opex-core/src/agent/dispatcher/rewrite.rs 41-60 deny_reason *)
Definition deny_reason (name : str) (policy : option AgentToolPolicy)
    (extra_deny : list str) : option str :=
  if match policy with
     | Some p => existsb (λ d, bool_decide (d = name)) (deny p)
     | None => false
     end
  then Some (bs "tool '" ++ name ++ bs "' is denied by agent policy")
  else if existsb (λ d, bool_decide (d = name)) extra_deny
  then Some (bs "tool '" ++ name ++ bs "' is denied for subagents")
  else None.

(* @src opex-core/src/agent/dispatcher/rewrite.rs 64-125 rewrite_one *)
Definition rewrite_one (tc : ToolCall V) (policy : option AgentToolPolicy)
    (known_tools : gset str) (extra_deny : list str) : RewriteResult :=
  if negb (bool_decide (tc_name tc = bs "tool_use")) then
    match deny_reason (tc_name tc) policy extra_deny with
    | Some reason => Denied (tc_id tc) reason
    | None => Direct tc
    end
  else
  let args := tc_arguments tc in
  if negb (bool_decide ((jget args (bs "action") ≫= jas_str) = Some (bs "call")))
  then Direct tc else
  let inner_name := default [] (jget args (bs "name") ≫= jas_str) in
  let inner_args := default jempty (jget args (bs "arguments")) in
  if negb (is_valid_tool_name inner_name) then
    Denied (tc_id tc) (bs "invalid tool name '" ++ inner_name ++ bs "'")
  else if bool_decide (inner_name = bs "tool_use") then
    Denied (tc_id tc) (bs "tool_use cannot dispatch to itself")
  else if negb (bool_decide (inner_name ∈ known_tools)) then
    Denied (tc_id tc) (bs "tool '" ++ inner_name ++ bs "' not found")
  else match deny_reason inner_name policy extra_deny with
  | Some reason => Denied (tc_id tc) reason
  | None => Direct (mkToolCall (tc_id tc) inner_name inner_args None)
  end.

(* @src opex-core/src/agent/dispatcher/rewrite.rs 27-34 rewrite_tool_use_calls *)
Definition rewrite_tool_use_calls (calls : list (ToolCall V))
    (policy : option AgentToolPolicy) (known_tools : gset str) (extra_deny : list str)
    : list RewriteResult :=
  (λ tc, rewrite_one tc policy known_tools extra_deny) <$> calls.
End policy.
Arguments RewriteResult V : clear implicits.

(** ** What the matcher, the filters and the gate guarantee *)

(** C31: [tool_pattern_matches] decides glob matching: its left-most greedy
    search over the [*]-separated segments accepts a name exactly when the
    name is the pattern with every [*] replaced by some text. *)
(* @prop equivalence defs=tool_pattern_matches *)
Theorem tool_pattern_matches_glob (pattern name : str) :
  tool_pattern_matches pattern name = true ↔ glob_match pattern name.
Proof. apply pattern_matches_glob. Qed.

Lemma any_pattern_spec l name :
  existsb (λ d, tool_pattern_matches d name) l = true ↔ ∃ d, d ∈ l ∧ glob_match d name.
Proof. rewrite existsb_elem. by setoid_rewrite pattern_matches_glob. Qed.

Lemma any_pattern_false l name :
  existsb (λ d, tool_pattern_matches d name) l = false ↔ ∀ d, d ∈ l → ¬ glob_match d name.
Proof.
  rewrite <-not_true_iff_false, any_pattern_spec. naive_solver.
Qed.

Lemma filter_elem {A} (f : A → bool) l x : x ∈ List.filter f l ↔ x ∈ l ∧ f x = true.
Proof. by rewrite !list_elem_of_In, List.filter_In. Qed.

Lemma filter_sublist {A} (f : A → bool) l : List.filter f l `sublist_of` l.
Proof. induction l; simpl; [done|]. case_match; by constructor. Qed.

Section policy_spec.
Context {V : Type} `{Json V}.
Implicit Types (t : ToolDefinition V) (tc : ToolCall V).

(** The abstract policy: a tool is permitted when no deny pattern matches
    it, and it is a system tool, or the available memory tool, or any other
    tool that is let through by its prefix, by [allow_all], by an empty
    allow list or by an allow pattern. *)
Definition permitted (p : AgentToolPolicy) (mem : bool) (name : str) : Prop :=
  (∀ d, d ∈ deny p → ¬ glob_match d name) ∧
  (is_any name SYSTEM_TOOL_NAMES = true ∨
   (name = bs "memory" ∧ mem = true) ∨
   (name ≠ bs "memory" ∧
    (bs "tool_" `prefix_of` name ∨ allow_all p = true ∨
     (deny_all_others p = false ∧ allow p = []) ∨
     ∃ a, a ∈ allow p ∧ glob_match a name))).

Lemma policy_keeps_spec p mem t :
  policy_keeps p mem t = true ↔ permitted p mem (td_name t).
Proof.
  unfold policy_keeps, permitted, denied.
  destruct (existsb _ (deny p)) eqn:Hd.
  { apply any_pattern_spec in Hd as (d & ? & ?). split; [done|].
    intros [Hn _]. by destruct (Hn d). }
  rewrite any_pattern_false in Hd.
  destruct (is_any _ _) eqn:Hs; [split; auto|].
  case_bool_decide as Hm.
  { destruct mem; split; try done; [tauto|]. intros [_ [?|[[_ ?]|[? _]]]]; done. }
  rewrite <-starts_with_spec, <-any_pattern_spec.
  destruct (starts_with _ _); [split; auto 10|].
  destruct (allow_all p); [split; auto 10|].
  destruct (deny_all_others p); [|case_bool_decide as Ha; simpl];
    split; try done; naive_solver.
Qed.

(** [filter_tools_by_policy] implements the abstract policy: it keeps,
    in their order, exactly the permitted tools; in particular a tool that
    a deny pattern matches is dropped even when it is a system tool. *)
Theorem filter_tools_by_policy_spec (tools : list (ToolDefinition V))
    (p : AgentToolPolicy) (mem : bool) :
  filter_tools_by_policy tools (Some p) mem `sublist_of` tools ∧
  (∀ t, t ∈ filter_tools_by_policy tools (Some p) mem ↔
        t ∈ tools ∧ permitted p mem (td_name t)).
Proof.
  split; [apply filter_sublist|]. intros t. simpl.
  by rewrite filter_elem, policy_keeps_spec.
Qed.

Lemma deny_reason_None name p extra :
  deny_reason name p extra = None ↔
  name ∉ default [] (deny <$> p) ∧ name ∉ extra.
Proof.
  assert (∀ l : list str, existsb (λ d, bool_decide (d = name)) l = false ↔ name ∉ l) as Hl.
  { intros l. rewrite <-not_true_iff_false, existsb_elem.
    setoid_rewrite bool_decide_eq_true. naive_solver. }
  unfold deny_reason. destruct p as [p|]; simpl.
  - destruct (existsb _ (deny p)) eqn:H1.
    + split; [done|]. intros [Hn _]. apply Hl in Hn. congruence.
    + apply Hl in H1. destruct (existsb _ extra) eqn:H2.
      * split; [done|]. intros [_ Hn]. apply Hl in Hn. congruence.
      * apply Hl in H2. tauto.
  - destruct (existsb _ extra) eqn:H2.
    + split; [done|]. intros [_ Hn]. apply Hl in Hn. congruence.
    + apply Hl in H2. split; [|done]. split; [by apply not_elem_of_nil|done].
Qed.

Lemma rewrite_one_direct (tc tc' : ToolCall V) (p : option AgentToolPolicy)
    (known : gset str) (extra : list str) :
  rewrite_one tc p known extra = Direct tc' →
  tc_id tc' = tc_id tc ∧
  ((tc' = tc ∧ tc_name tc = bs "tool_use" ∧
    (jget (tc_arguments tc) (bs "action") ≫= jas_str) ≠ Some (bs "call")) ∨
   (tc_name tc' ∉ default [] (deny <$> p) ∧ tc_name tc' ∉ extra ∧
    tc_name tc' ≠ bs "tool_use" ∧
    (tc' = tc ∨ tc_name tc' ∈ known ∧ is_valid_tool_name (tc_name tc') = true))).
Proof.
  unfold rewrite_one. case_bool_decide as Hn; cbn [negb].
  - case_bool_decide as Ha; cbn [negb]; [|intros [= <-]; auto].
    destruct (is_valid_tool_name _) eqn:Hv; cbn [negb]; [|done].
    case_bool_decide as Hu; [done|].
    case_bool_decide as Hk; cbn [negb]; [|done].
    destruct (deny_reason _ _ _) eqn:Hd; [done|]. intros [= <-]. simpl.
    apply deny_reason_None in Hd. naive_solver.
  - destruct (deny_reason _ _ _) eqn:Hd; [done|]. intros [= <-].
    apply deny_reason_None in Hd. naive_solver.
Qed.

Lemma rewrite_one_denied (tc : ToolCall V) p known extra id reason :
  rewrite_one tc p known extra = Denied id reason → id = tc_id tc.
Proof. unfold rewrite_one. repeat case_match; congruence. Qed.

(** The runtime gate. Every call that leaves the rewrite for direct
    dispatch keeps its id, and either it is an unchanged [tool_use] call that
    does not dispatch another tool, or its tool is named in neither the
    policy's deny list nor the subagent deny list; a call rewritten from a
    [tool_use] names a known, well-formed tool other than [tool_use]. *)
Theorem rewrite_gate (tc tc' : ToolCall V) (p : option AgentToolPolicy)
    (known : gset str) (extra : list str) :
  rewrite_one tc p known extra = Direct tc' →
  tc_id tc' = tc_id tc ∧
  ((tc' = tc ∧ tc_name tc = bs "tool_use" ∧
    (jget (tc_arguments tc) (bs "action") ≫= jas_str) ≠ Some (bs "call")) ∨
   (tc_name tc' ∉ default [] (deny <$> p) ∧ tc_name tc' ∉ extra ∧
    tc_name tc' ≠ bs "tool_use" ∧
    (tc' = tc ∨ tc_name tc' ∈ known ∧ is_valid_tool_name (tc_name tc') = true))).
Proof. apply rewrite_one_direct. Qed.

(** The gate compares names, the visibility filter compares patterns: a
    tool that only a glob of the deny list matches is hidden from the model,
    yet a direct call to it passes the gate unchanged. *)
Theorem deny_glob_not_enforced (tc : ToolCall V) (t : ToolDefinition V)
    (p : AgentToolPolicy) (mem : bool) (known : gset str) (d : str) :
  td_name t = tc_name tc → tc_name tc ≠ bs "tool_use" →
  d ∈ deny p → glob_match d (tc_name tc) → tc_name tc ∉ deny p →
  filter_tools_by_policy [t] (Some p) mem = [] ∧
  rewrite_one tc (Some p) known [] = Direct tc.
Proof.
  intros Ht Hu Hd Hg Hn. split.
  - simpl. assert (policy_keeps p mem t = false) as ->; [|done].
    apply not_true_is_false. intros [Hk _]%policy_keeps_spec. rewrite Ht in Hk.
    by destruct (Hk d).
  - unfold rewrite_one. rewrite bool_decide_eq_false_2 by done. cbn [negb].
    assert (deny_reason (tc_name tc) (Some p) [] = None) as ->; [|done].
    apply deny_reason_None. split; [done|apply not_elem_of_nil].
Qed.

(** Composing the main filters of a turn, the agent policy, the cron
    override and the global block, only ever removes tools, and a tool that
    survives is matched by no deny pattern of any of them. *)
Theorem tool_filters_compose (tools : list (ToolDefinition V)) (p ov : AgentToolPolicy)
    (base_deny block : list str) (mem : bool) (t : ToolDefinition V) :
  let visible := apply_global_block
    (apply_tool_policy_override (filter_tools_by_policy tools (Some p) mem)
       (Some base_deny) ov) block in
  visible `sublist_of` tools ∧
  (t ∈ visible →
   (∀ d, d ∈ deny p ++ base_deny ++ deny ov → ¬ glob_match d (td_name t)) ∧
   td_name t ∉ block ∧
   (allow ov ≠ [] → ∃ a, a ∈ allow ov ∧ glob_match a (td_name t))).
Proof.
  intros visible. split.
  - unfold visible, apply_global_block. case_bool_decide;
      [|etrans; [apply filter_sublist|]];
      (etrans; [apply filter_sublist|]); apply filter_sublist.
  - unfold visible, apply_global_block. intros Ht.
    assert (t ∈ apply_tool_policy_override (filter_tools_by_policy tools (Some p) mem)
              (Some base_deny) ov ∧ td_name t ∉ block) as [Ho Hb].
    { revert Ht. case_bool_decide as Hbl.
      - subst. intros ?. split; [done|apply not_elem_of_nil].
      - rewrite filter_elem, negb_true_iff. intros [? Hx]. split; [done|]. intros Hin.
        assert (existsb (λ b, bool_decide (b = td_name t)) block = true); [|congruence].
        apply existsb_elem. exists (td_name t). by rewrite bool_decide_eq_true. }
    apply filter_elem in Ho as [Hp Ho]. apply filter_elem in Hp as [_ Hp].
    apply policy_keeps_spec in Hp as [Hp _]. unfold denied in Ho.
    destruct (existsb _ (deny ov)) eqn:H1; [done|].
    destruct (existsb _ base_deny) eqn:H2; [done|].
    rewrite any_pattern_false in H1, H2. split_and!; [|done|].
    + intros d. rewrite !elem_of_app. naive_solver.
    + intros Ha. rewrite bool_decide_eq_false_2 in Ho by done. simpl in Ho.
      by apply any_pattern_spec.
Qed.
End policy_spec.

(** *** Witnesses *)

Definition demo_policy : AgentToolPolicy :=
  mkPolicy [] [bs "git_*"; bs "code_exec"] false false default_tool_groups.
Definition demo_call (name : string) : ToolCall Jv.t :=
  mkToolCall (bs "c1") (bs name) (Jv.Obj []) None.
Definition demo_tool (name : string) : ToolDefinition Jv.t :=
  mkToolDef (bs name) [] (Jv.Obj []).

Example glob_ex1 : tool_pattern_matches (bs "mcp_*_read") (bs "mcp_fs_read") = true.
Proof. reflexivity. Qed.
Example glob_ex2 : tool_pattern_matches (bs "ab*b") (bs "ab") = false.
Proof. reflexivity. Qed.
Example keeps_ex :
  td_name <$> filter_tools_by_policy (demo_tool <$> ["git"; "git_push"; "code_exec"; "memory"]%string)
    (Some demo_policy) false = [bs "git"].
Proof. reflexivity. Qed.

Lemma gate_witness :
  let tc := mkToolCall (bs "c7") (bs "tool_use")
      (Jv.Obj [(bs "action", Jv.Str (bs "call")); (bs "name", Jv.Str (bs "weather"))]) None in
  let tc' := mkToolCall (bs "c7") (bs "weather") (Jv.Obj []) None in
  tc_id tc' = tc_id tc ∧
  tc_name tc' ∉ default [] (deny <$> Some demo_policy).
Proof.
  intros tc tc'.
  assert (rewrite_one tc (Some demo_policy) {[bs "weather"]} [] = Direct tc') as Hr
    by (vm_compute; reflexivity).
  destruct (rewrite_gate tc tc' _ _ _ Hr) as [H1 [(_ & _ & H2)|(H2 & _)]];
    [by destruct H2|by split].
Defined.

Lemma deny_glob_witness :
  filter_tools_by_policy [demo_tool "git_push"] (Some demo_policy) false = [] ∧
  rewrite_one (demo_call "git_push") (Some demo_policy) ∅ [] = Direct (demo_call "git_push").
Proof.
  apply (deny_glob_not_enforced (demo_call "git_push") (demo_tool "git_push")
           demo_policy false ∅ (bs "git_*")).
  - reflexivity.
  - by vm_compute.
  - by left.
  - apply pattern_matches_glob. vm_compute. reflexivity.
  - apply (bool_decide_unpack _). vm_compute. exact I.
Defined.

Lemma filters_witness :
  (bs "canvas" ∉ [bs "lsp"]) ∧ ¬ glob_match (bs "git_*") (bs "canvas").
Proof.
  pose proof (tool_filters_compose [demo_tool "canvas"; demo_tool "git_push"; demo_tool "agent"]
    demo_policy (mkPolicy [bs "c*"] [bs "cron*"] false false default_tool_groups)
    [bs "agent"] [bs "lsp"] false (demo_tool "canvas")) as [_ H].
  destruct H as (Hd & Hb & _); [vm_compute; by left|].
  split; [done|]. apply Hd. by left.
Defined.
