(* ===== verification/Approval.v ===== *)
(** * Approvals

    A tool that needs the owner's consent waits for it: [agent/approval_manager.rs]
    (the request and its wait), [agent/pipeline/approval.rs] (the answer),
    [opex-db/src/approvals.rs] (the row both sides race for, and the
    allowlist) and the gate of [agent/engine_dispatch.rs].

    The parties run concurrently: the request, whoever answers it through the
    API or a channel, the clean-up of old waiters and the cancellation of the
    turn.  A state holds what they share, the rows and the map of waiters,
    with the point each request has reached; an action is what one party does
    between two suspension points, a statement on the row being atomic as its
    [FOR UPDATE] makes it.  [db_ok] is whether the database takes a statement
    whose failure the request passes over. *)
From S2P Require Import Prelude Json Messages Dispatch.

Abbreviation ApprovalId := Z.

(** Rules on the text of a status column. *)
Definition PENDING : str := bs "pending".
Definition APPROVED : str := bs "approved".
Definition REJECTED : str := bs "rejected".
Definition CANCELLED : str := bs "cancelled".
Definition TIMED_OUT : str := bs "timeout".

(* @src opex-db/src/approvals.rs 15-22 ApprovalError *)
Inductive ApprovalError := NotFound (id : ApprovalId) | AlreadyResolved (id : ApprovalId) (status : str).

(* @src opex-db/src/approvals.rs 83-123 resolve_approval_strict *)
Definition resolve_approval_strict (id : ApprovalId) (status : str) (rows : gmap ApprovalId str)
    : gmap ApprovalId str * result ApprovalError () :=
  match rows !! id with
  | None => (rows, Err (NotFound id))
  | Some current => if bool_decide (current = PENDING) then (<[id := status]> rows, Ok ())
                    else (rows, Err (AlreadyResolved id current))
  end.

Section approvals.
Context {V : Type} `{Json V}.

(* @src opex-core/src/agent/engine/approval_flow.rs 10-14 ApprovalResult *)
Inductive ApprovalResult := RApproved | RApprovedWithModifiedArgs (args : V) | RRejected (reason : str).
(* @src opex-core/src/agent/approval_manager.rs 36-47 ApprovalOutcome *)
Inductive ApprovalOutcome :=
| Approved | ApprovedWithModifiedArgs (args : V) | Rejected (reason : str) | Cancelled | TimedOut.

(** The receiving end of a request's channel. *)
Inductive Inbox := Empty | Closed | Reply (r : ApprovalResult).
(** Where [request_approval] is. *)
Inductive Phase :=
| Announcing                                  (** the row is written, the channel is being told *)
| Waiting (deadline : Z) (inbox : Inbox)      (** the waiter is registered *)
| Closing                                     (** cancelled, the row is still to be closed *)
| Expiring                                    (** timed out, the row is still to be closed *)
| Expired (was_pending : bool)
| Returned (o : ApprovalOutcome).

Record State := mkState {
  rows : gmap ApprovalId str;
  waiters : gmap ApprovalId Z;                 (** creation times *)
  phases : gmap ApprovalId Phase;
  waking : gmap ApprovalId ApprovalResult;     (** answers that won the row and have yet to reach the waiter *)
  decided : gmap ApprovalId ApprovalResult;    (** history: what was answered *)
  refused : list ApprovalOutcome;              (** history: what requests without a row came back with *)
}.
Definition set_rows r s := mkState r (waiters s) (phases s) (waking s) (decided s) (refused s).
Definition set_waiters w s := mkState (rows s) w (phases s) (waking s) (decided s) (refused s).
Definition set_phase id p s := mkState (rows s) (waiters s) (<[id := p]> (phases s)) (waking s) (decided s) (refused s).
Definition set_waking w s := mkState (rows s) (waiters s) (phases s) w (decided s) (refused s).
Definition set_decided d s := mkState (rows s) (waiters s) (phases s) (waking s) d (refused s).
Definition set_refused l s := mkState (rows s) (waiters s) (phases s) (waking s) (decided s) l.
Definition empty_state : State := mkState ∅ ∅ ∅ ∅ ∅ [].

(** ** The request *)

Definition outcome_of (tool_name : str) (r : ApprovalResult) : ApprovalOutcome :=
  match r with
  | RApproved => Approved
  | RApprovedWithModifiedArgs args => ApprovedWithModifiedArgs args
  | RRejected reason => Rejected (bs "Tool `" ++ tool_name ++ bs "` was rejected: " ++ reason)
  end.

Inductive Action :=
| Create (made : result str ApprovalId)
| Arm (id : ApprovalId) (timeout_secs created started : Z)
| Receive (id : ApprovalId) (tool_name : str)
| Cancel (id : ApprovalId)
| CloseRow (id : ApprovalId) (db_ok : bool)
| Expire (id : ApprovalId) (now : Z)
| ExpireRow (id : ApprovalId) (db_ok : bool)
| Conclude (id : ApprovalId) (db_ok : bool)
| Answer (id : ApprovalId) (approved : bool) (resolved_by : str) (modified_input : option V)
| Wake (id : ApprovalId)
| Prune (now : Z).

(** [made]: what the INSERT comes back with, the new row's id or the error
    with which the request returns at once. *)
(* @src opex-core/src/agent/approval_manager.rs 95-155 request_approval (row) *)
Definition create (made : result str ApprovalId) (s : State) : option State :=
  match made with
  | Ok id =>
      match rows s !! id with
      | Some _ => None
      | None => Some (set_phase id Announcing (set_rows (<[id := PENDING]> (rows s)) s))
      end
  | Err e => Some (set_refused (refused s ++ [Rejected (bs "Error creating approval: " ++ e)]) s)
  end.
(** The waiter is registered at [created]; the wait and its timeout start
    when the chat has been told. *)
(* @src opex-core/src/agent/approval_manager.rs 196-243 request_approval (waiter) *)
Definition arm (id : ApprovalId) (timeout_secs created started : Z) (s : State) : option State :=
  match phases s !! id with
  | Some Announcing =>
      Some (set_phase id (Waiting (started + timeout_secs) Empty) (set_waiters (<[id := created]> (waiters s)) s))
  | _ => None
  end.
(** The wait looks at the cancellation first, then at the answer, then at the
    clock. *)
(* @src opex-core/src/agent/approval_manager.rs 244-279 request_approval (wait) *)
Definition receive (id : ApprovalId) (tool_name : str) (s : State) : option State :=
  match phases s !! id with
  | Some (Waiting _ (Reply r)) => Some (set_phase id (Returned (outcome_of tool_name r)) s)
  | Some (Waiting _ Closed) => Some (set_phase id Closing (set_waiters (delete id (waiters s)) s))
  | _ => None
  end.
(* @src opex-core/src/agent/approval_manager.rs 246-253 request_approval (cancel) *)
Definition cancel (id : ApprovalId) (s : State) : option State :=
  match phases s !! id with
  | Some (Waiting _ _) => Some (set_phase id Closing (set_waiters (delete id (waiters s)) s))
  | _ => None
  end.
(* @src opex-core/src/agent/approval_manager.rs 248-252 request_approval (close) *)
Definition close_row (id : ApprovalId) (db_ok : bool) (s : State) : option State :=
  match phases s !! id with
  | Some Closing =>
      let rows' := if db_ok then (resolve_approval_strict id CANCELLED (rows s)).1 else rows s in
      Some (set_phase id (Returned Cancelled) (set_rows rows' s))
  | _ => None
  end.
(* @src opex-core/src/agent/approval_manager.rs 237-244 request_approval (clock) *)
Definition expire (id : ApprovalId) (now : Z) (s : State) : option State :=
  match phases s !! id with
  | Some (Waiting deadline Empty) => if (deadline <=? now)%Z then Some (set_phase id Expiring s) else None
  | _ => None
  end.
(* @src opex-core/src/agent/approval_manager.rs 280-305 request_approval (timeout) *)
Definition expire_row (id : ApprovalId) (db_ok : bool) (s : State) : option State :=
  match phases s !! id with
  | Some Expiring =>
      if negb db_ok then Some (set_phase id (Expired false) s) else
      let '(rows', won) := resolve_approval_strict id TIMED_OUT (rows s) in
      Some (set_phase id (Expired (is_ok won)) (set_rows rows' s))
  | _ => None
  end.
(* @src opex-core/src/agent/approval_manager.rs 306-349 request_approval (race) *)
Definition conclude (id : ApprovalId) (db_ok : bool) (s : State) : option State :=
  match phases s !! id with
  | Some (Expired was_pending) =>
      let s := set_waiters (delete id (waiters s)) s in
      if negb was_pending && db_ok && bool_decide (rows s !! id = Some APPROVED)
      then Some (set_phase id (Returned Approved) s)
      else Some (set_phase id (Returned TimedOut) s)
  | _ => None
  end.

(** ** The answer *)

Definition result_of (approved : bool) (resolved_by : str) (modified_input : option V) : ApprovalResult :=
  if approved then
    match modified_input with Some args => RApprovedWithModifiedArgs args | None => RApproved end
  else RRejected (bs "rejected by " ++ resolved_by).
(** An answer that loses the row is an error for the one who gave it. *)
(* @src opex-core/src/agent/pipeline/approval.rs 10-39 resolve_approval (row) *)
Definition answer (id : ApprovalId) (approved : bool) (resolved_by : str) (modified_input : option V) (s : State) : State :=
  match resolve_approval_strict id (if approved then APPROVED else REJECTED) (rows s) with
  | (rows', Ok _) =>
      let r := result_of approved resolved_by modified_input in
      set_decided (<[id := r]> (decided s)) (set_waking (<[id := r]> (waking s)) (set_rows rows' s))
  | (_, Err _) => s
  end.
(** The waiter is taken out of the map and sent the answer; nobody listens
    once the request has stopped waiting. *)
(* @src opex-core/src/agent/pipeline/approval.rs 124-137 resolve_approval (wake) *)
Definition wake (id : ApprovalId) (s : State) : option State :=
  match waking s !! id with
  | None => None
  | Some r =>
      let s := set_waking (delete id (waking s)) s in
      match waiters s !! id with
      | None => Some s
      | Some _ =>
          let s := set_waiters (delete id (waiters s)) s in
          match phases s !! id with
          | Some (Waiting deadline Empty) => Some (set_phase id (Waiting deadline (Reply r)) s)
          | _ => Some s
          end
      end
  end.
(** The senders of the evicted waiters are dropped. *)
Definition stale (now created : Z) : bool := (600 <? now - created)%Z.
(* @src opex-core/src/agent/approval_manager.rs 357-366 prune_stale *)
Definition prune_stale (now : Z) (s : State) : State :=
  mkState (rows s) (filter (λ kc, stale now kc.2 = false) (waiters s))
    (map_imap (λ id p, Some (match p, waiters s !! id with
                             | Waiting deadline Empty, Some created =>
                                 if stale now created then Waiting deadline Closed else p
                             | _, _ => p
                             end)) (phases s))
    (waking s) (decided s) (refused s).

Definition step (a : Action) (s : State) : option State :=
  match a with
  | Create made => create made s
  | Arm id t created started => arm id t created started s
  | Receive id tool => receive id tool s
  | Cancel id => cancel id s
  | CloseRow id ok => close_row id ok s
  | Expire id now => expire id now s
  | ExpireRow id ok => expire_row id ok s
  | Conclude id ok => conclude id ok s
  | Answer id approved by_ m => Some (answer id approved by_ m s)
  | Wake id => wake id s
  | Prune now => Some (prune_stale now s)
  end.
Fixpoint run (l : list Action) (s : State) : option State :=
  match l with
  | [] => Some s
  | a :: l => s ← step a s; run l s
  end.
Inductive reachable : State → Prop :=
| reach_init : reachable empty_state
| reach_step s a s' : reachable s → step a s = Some s' → reachable s'.

(** ** What holds in every state *)

Definition is_rejection (r : ApprovalResult) : bool := match r with RRejected _ => true | _ => false end.
Definition waiting (p : Phase) : bool := match p with Waiting _ Empty | Expiring | Expired _ => true | _ => false end.

(** What a request may answer, given what was decided. *)
Definition outcome_ok (d : option ApprovalResult) (o : ApprovalOutcome) : Prop :=
  match o with
  | Approved => ∃ r, d = Some r ∧ is_rejection r = false
  | ApprovedWithModifiedArgs args => d = Some (RApprovedWithModifiedArgs args)
  | Rejected text => ∃ reason, d = Some (RRejected reason) ∧ ends_with reason text = true
  | Cancelled | TimedOut => True
  end.

(** One approval: its row, its waiter, the request, the answer on its way and
    the answer given. *)
Record slot_ok (row : option str) (w : option Z) (p : option Phase) (k d : option ApprovalResult) : Prop := {
  inv_decided : ∀ r, d = Some r → row = Some (if is_rejection r then REJECTED else APPROVED);
  inv_rows : row = Some APPROVED ∨ row = Some REJECTED → is_Some d;
  inv_waking : ∀ r, k = Some r → d = Some r;
  inv_reply : ∀ t r, p = Some (Waiting t (Reply r)) → d = Some r;
  inv_returned : ∀ o, p = Some (Returned o) → outcome_ok d o;
  inv_waiters : is_Some w → ∃ q, p = Some q ∧ waiting q = true;
  inv_expired : p = Some (Expired true) → row = Some TIMED_OUT;
  inv_phases : is_Some p → is_Some row;
}.
Definition invariant (s : State) : Prop :=
  ∀ id, slot_ok (rows s !! id) (waiters s !! id) (phases s !! id) (waking s !! id) (decided s !! id).

Lemma invariant_empty : invariant empty_state.
Proof. intros id. cbn. rewrite !lookup_empty. split; naive_solver. Qed.

(** The view of one approval after a change at [id]. *)
Ltac at_slot id Hinv :=
  let id' := fresh "id'" in
  intros id'; specialize (Hinv id'); cbn [set_rows set_waiters set_phase set_waking set_decided rows waiters phases waking decided] in *;
  destruct (decide (id = id')) as [<-|?];
  [rewrite ?lookup_insert_eq, ?lookup_delete_eq
  |rewrite ?lookup_insert_ne, ?lookup_delete_ne by done; exact Hinv].

(** A pending row has no answer. *)
Lemma undecided row w p k d : slot_ok row w p k d → row = Some PENDING → d = None ∧ k = None.
Proof.
  intros [Hd _ Hk _ _ _ _ _] ->. destruct d as [r|].
  - by destruct (is_rejection r) eqn:Hr; specialize (Hd r eq_refl); rewrite Hr in Hd.
  - split; [done|]. destruct k as [r|]; [|done]. by specialize (Hk r eq_refl).
Qed.
Lemma closed_phase row row' w w' p p' k d :
  slot_ok row w p k d → is_Some p → (row' = row ∨ row = Some PENDING ∧ row' ≠ Some APPROVED ∧ row' ≠ Some REJECTED ∧ is_Some row') →
  (∀ t r, p' ≠ Waiting t (Reply r)) → (∀ o, p' = Returned o → outcome_ok d o) →
  (p' = Expired true → row' = Some TIMED_OUT) → (w' = None ∨ waiting p' = true) →
  slot_ok row' w' (Some p') k d.
Proof.
  intros Hs Hp Hrow Hrep Hret Hexp Hw.
  assert (row' = row ∨ d = None ∧ k = None ∧ row' ≠ Some APPROVED ∧ row' ≠ Some REJECTED ∧ is_Some row') as Hrow'.
  { destruct Hrow as [?|(Hpend & ? & ? & ?)]; [by left|right]. by destruct (undecided _ _ _ _ _ Hs Hpend) as [-> ->]. }
  destruct Hs as [Hd Hr Hk Hre _ Hwa _ Hph]. specialize (Hph Hp).
  destruct Hrow' as [->|(-> & -> & ? & ? & ?)]; split; naive_solver.
Qed.

Lemma no_waiter {row w p k d} : slot_ok row w (Some p) k d → waiting p = false → w = None.
Proof.
  intros Hs Hp. destruct w as [c|]; [|done]. destruct (inv_waiters _ _ _ _ _ Hs) as (q & [= <-] & Hq); [by eexists|congruence].
Qed.

Lemma invariant_create made s s' : invariant s → create made s = Some s' → invariant s'.
Proof.
  intros Hinv. destruct made as [id|e]; [|by intros [= <-]]. unfold create. destruct (rows s !! id) eqn:Hr; [done|]. intros [= <-]. at_slot id Hinv.
  destruct Hinv as [Hd Hrow Hk _ _ Hw _ Hp]. rewrite Hr in *.
  assert (decided s !! id = None) as Hdec by (destruct (decided s !! id); [by specialize (Hd _ eq_refl)|done]).
  assert (waking s !! id = None) as Hwak by (destruct (waking s !! id); [specialize (Hk _ eq_refl); congruence|done]).
  rewrite Hdec, Hwak. split; naive_solver.
Qed.

Lemma resolved_row id st rws :
  (resolve_approval_strict id st rws).1 !! id = rws !! id ∨
  rws !! id = Some PENDING ∧ (resolve_approval_strict id st rws).1 !! id = Some st.
Proof.
  unfold resolve_approval_strict. destruct (rws !! id) as [c|] eqn:Hc; [|by left].
  case_bool_decide; [right|by left]. subst. cbn. by rewrite lookup_insert_eq.
Qed.
Lemma resolved_other id id' st rws : id ≠ id' → (resolve_approval_strict id st rws).1 !! id' = rws !! id'.
Proof.
  intros Hne. unfold resolve_approval_strict. destruct (rws !! id); [|done]. case_bool_decide; [|done].
  cbn. by rewrite lookup_insert_ne.
Qed.

(** The request's own moves. *)
Lemma invariant_own a s s' :
  invariant s → step a s = Some s' →
  match a with Arm _ _ _ _ | Receive _ _ | Cancel _ | CloseRow _ _ | Expire _ _ | ExpireRow _ _ | Conclude _ _ => True | _ => False end →
  invariant s'.
Proof.
  intros Hinv Hstep Hown. destruct a as [id|id t cr st|id tool|id|id ok|id now|id ok|id ok|id approved by_ m|id|now];
    try done; cbn [step] in Hstep.
  - unfold arm in Hstep. destruct (phases s !! id) as [[]|] eqn:Hph; try done. injection Hstep as <-. at_slot id Hinv.
    rewrite Hph in Hinv. destruct Hinv. split; naive_solver.
  - unfold receive in Hstep. destruct (phases s !! id) as [[|t [| |r]| | | |]|] eqn:Hph; try done; injection Hstep as <-; at_slot id Hinv;
      rewrite Hph in Hinv; (eapply closed_phase; [exact Hinv|by eauto|by left|done| |done|]); try naive_solver.
    + intros o [= <-]. pose proof (inv_reply _ _ _ _ _ Hinv t r eq_refl) as Hd. rewrite Hd.
      destruct r as [|args|reason]; cbn [outcome_of outcome_ok]; [by eexists|done|]. eexists. split; [done|].
      rewrite (app_assoc (bs "Tool `")), (app_assoc (_ ++ _)). apply ends_with_app.
    + left. by apply (no_waiter Hinv).
  - unfold cancel in Hstep. destruct (phases s !! id) as [[]|] eqn:Hph; try done. injection Hstep as <-. at_slot id Hinv.
    rewrite Hph in Hinv. destruct Hinv. split; naive_solver.
  - unfold close_row in Hstep. destruct (phases s !! id) as [[]|] eqn:Hph; try done. injection Hstep as <-.
    intros id'. specialize (Hinv id'). cbn [set_rows set_waiters set_phase rows waiters phases waking decided]. destruct (decide (id = id')) as [<-|Hne].
    + rewrite lookup_insert_eq. rewrite Hph in Hinv. eapply closed_phase; [exact Hinv|by eauto| |done|by intros o [= <-]|done|].
      * destruct ok; [|by left]. destruct (resolved_row id CANCELLED (rows s)) as [Hr|[Hp Hr]]; [left; exact Hr|right].
        rewrite Hp. rewrite Hr. split_and!; eauto; done.
      * left. by apply (no_waiter Hinv).
    + rewrite lookup_insert_ne by done. destruct ok; [by rewrite resolved_other|done].
  - unfold expire in Hstep. destruct (phases s !! id) as [[|t []| | | |]|] eqn:Hph; try done. case_match; [|done].
    injection Hstep as <-. at_slot id Hinv. rewrite Hph in Hinv. destruct Hinv. split; naive_solver.
  - unfold expire_row in Hstep. destruct (phases s !! id) as [[]|] eqn:Hph; try done. destruct ok; cbn [negb] in Hstep.
    + pose proof (resolved_row id TIMED_OUT (rows s)) as Hrow. pose proof (λ id', resolved_other id id' TIMED_OUT (rows s)) as Hother.
      destruct (resolve_approval_strict id TIMED_OUT (rows s)) as [rows' won] eqn:Hres. cbn [fst] in *. injection Hstep as <-.
      intros id'. specialize (Hinv id'). cbn [set_rows set_waiters set_phase rows waiters phases waking decided]. destruct (decide (id = id')) as [<-|Hne].
      * rewrite lookup_insert_eq. rewrite Hph in Hinv. eapply closed_phase; [exact Hinv|by eauto| |done|done| |by right].
        -- destruct Hrow as [->|[Hp ->]]; [by left|right]. split_and!; eauto.
        -- intros [= Hwon]. unfold resolve_approval_strict in Hres. destruct (rows s !! id) as [c|]; [|by simplify_eq].
           case_bool_decide; [|by simplify_eq]. injection Hres as <- <-. apply lookup_insert_eq.
      * rewrite lookup_insert_ne by done. by rewrite Hother.
    + injection Hstep as <-. at_slot id Hinv. rewrite Hph in Hinv. destruct Hinv. split; naive_solver.
  - unfold conclude in Hstep. destruct (phases s !! id) as [[| | | |won|]|] eqn:Hph; try done.
    cbn [set_waiters rows] in Hstep. destruct (negb won && ok && _) eqn:Hb; injection Hstep as <-; at_slot id Hinv; rewrite Hph in Hinv.
    + apply andb_true_iff in Hb as [_ Happ%bool_decide_eq_true].
      eapply closed_phase; [exact Hinv|by eauto|by left|done| |done|by left]. intros o [= <-].
      destruct (inv_rows _ _ _ _ _ Hinv (or_introl Happ)) as [r Hr]. exists r. split; [done|].
      pose proof (inv_decided _ _ _ _ _ Hinv r Hr) as Hd. rewrite Happ in Hd. by destruct (is_rejection r).
    + eapply closed_phase; [exact Hinv|by eauto|by left|done|by intros o [= <-]|done|by left].
Qed.

Lemma invariant_answer id approved by_ m s : invariant s → invariant (answer id approved by_ m s).
Proof.
  intros Hinv. unfold answer, resolve_approval_strict. destruct (rows s !! id) as [c|] eqn:Hc; [|done].
  case_bool_decide as Hp; [|done]. subst. at_slot id Hinv.
  destruct (undecided _ _ _ _ _ Hinv Hc) as [Hd Hk]. rewrite Hc, Hd, Hk in Hinv. destruct Hinv.
  split; rewrite ?lookup_insert_eq.
  - intros r [= <-]. by destruct approved; [destruct m|].
  - by eexists.
  - done.
  - intros t r Ht. by specialize (inv_reply0 t r Ht).
  - intros o Ho. specialize (inv_returned0 o Ho). destruct o as [|args|text| |]; cbn in *; [..|done|done].
    + by destruct inv_returned0 as (? & ? & ?).
    + done.
    + by destruct inv_returned0 as (? & ? & ?).
  - done.
  - intros He. by specialize (inv_expired0 He).
  - by eexists.
Qed.

Lemma invariant_wake id s s' : invariant s → wake id s = Some s' → invariant s'.
Proof.
  intros Hinv. unfold wake. destruct (waking s !! id) as [r|] eqn:Hk; [|done].
  cbn [set_waking set_waiters waiters phases]. destruct (waiters s !! id) as [c|] eqn:Hw.
  - destruct (phases s !! id) as [p|] eqn:Hph; [destruct p as [|t [| |r']| | | |]|]; intros Heq; injection Heq as <-;
      at_slot id Hinv; rewrite Hph, Hk, Hw in Hinv; destruct Hinv; rewrite ?Hph; split; naive_solver.
  - intros Heq; injection Heq as <-. at_slot id Hinv. rewrite Hk in Hinv. rewrite Hw in *. destruct Hinv. split; naive_solver.
Qed.

Lemma invariant_prune now s : invariant s → invariant (prune_stale now s).
Proof.
  intros Hinv id. specialize (Hinv id). cbn. rewrite map_lookup_imap.
  assert (∀ c, filter (λ kc : Z * Z, stale now kc.2 = false) (waiters s) !! id = Some c ↔ waiters s !! id = Some c ∧ stale now c = false) as Hf
    by (intros c; by rewrite map_lookup_filter_Some).
  destruct (filter _ (waiters s) !! id) as [c|] eqn:Hc.
  - destruct (proj1 (Hf c) eq_refl) as [Hw Hst]. rewrite Hw in Hinv |- *. destruct (phases s !! id) as [p|] eqn:Hph; [cbn|exact Hinv].
    rewrite Hst. destruct p as [|t []| | | |]; exact Hinv.
  - destruct (waiters s !! id) as [c|] eqn:Hw.
    + destruct (stale now c) eqn:Hst; [|by destruct (Hf c) as [_ Hf']; specialize (Hf' (conj eq_refl Hst))].
      destruct (phases s !! id) as [p|] eqn:Hph; [cbn|destruct Hinv; split; naive_solver].
      destruct Hinv. destruct p as [|t []| | | |]; split; naive_solver.
    + destruct (phases s !! id) as [p|] eqn:Hph; [cbn|exact Hinv]. destruct p as [|t []| | | |]; exact Hinv.
Qed.

Lemma invariant_step a s s' : invariant s → step a s = Some s' → invariant s'.
Proof.
  intros Hinv Hstep. destruct a; try (by eapply invariant_own); cbn [step] in Hstep.
  - by eapply invariant_create.
  - injection Hstep as <-. by apply invariant_answer.
  - by eapply invariant_wake.
  - injection Hstep as <-. by apply invariant_prune.
Qed.
Lemma invariant_reachable s : reachable s → invariant s.
Proof. induction 1; [apply invariant_empty|by eapply invariant_step]. Qed.

(** ** What a request returns *)

(** A request whose row could not be written is refused with the error. *)
Theorem refused_rejected s : reachable s → Forall (λ o, ∃ e, o = Rejected (bs "Error creating approval: " ++ e)) (refused s).
Proof.
  induction 1 as [|s a s' Hs IH Hstep]; [constructor|]. revert Hstep.
  destruct a as [[id|e]| | | | | | | | | |]; cbn [step]; unfold create, arm, receive, cancel, close_row, expire,
    expire_row, conclude, answer, wake; repeat case_match; intros Heq; simplify_eq; try exact IH.
  apply Forall_app. split; [exact IH|]. repeat constructor. by exists e.
Qed.

(** C6: Over every interleaving of requests, answers, wake-ups, timeouts,
    cancellations and clean-ups, with any database failures the code passes
    over: a request that comes back approved was approved by an answer that
    won its row, which is [approved]; one that comes back with modified
    arguments carries exactly the arguments that answer gave; one that comes
    back rejected was rejected by the answer, whose reason ends the text.
    The timeout and the cancellation never approve. *)
(* @prop safety defs=create,arm,receive,cancel,close_row,expire,expire_row,conclude,answer,wake,prune_stale,resolve_approval_strict witness=approval_sound_witness *)
Theorem approval_sound s id o :
  reachable s → phases s !! id = Some (Returned o) →
  match o with
  | Approved => rows s !! id = Some APPROVED ∧ ∃ r, decided s !! id = Some r ∧ is_rejection r = false
  | ApprovedWithModifiedArgs args =>
      rows s !! id = Some APPROVED ∧ decided s !! id = Some (RApprovedWithModifiedArgs args)
  | Rejected text =>
      rows s !! id = Some REJECTED ∧ ∃ reason, decided s !! id = Some (RRejected reason) ∧ ends_with reason text = true
  | Cancelled | TimedOut => True
  end.
Proof.
  intros Hs Ho. pose proof (invariant_reachable _ Hs id) as Hinv.
  pose proof (inv_returned _ _ _ _ _ Hinv o Ho) as Hok. pose proof (inv_decided _ _ _ _ _ Hinv) as Hrow.
  destruct o as [|args|text| |]; cbn [outcome_ok] in Hok; [| | |done|done].
  - destruct Hok as (r & Hr & Hrej). specialize (Hrow r Hr). rewrite Hrej in Hrow. eauto.
  - split; [exact (Hrow _ Hok)|done].
  - destruct Hok as (reason & Hr & Htext). split; [exact (Hrow _ Hr)|eauto].
Qed.

(** ** Decisions are final *)

Lemma resolve_final id st rws i c :
  rws !! i = Some c → c ≠ PENDING → (resolve_approval_strict id st rws).1 !! i = Some c.
Proof.
  intros Hc Hne. destruct (decide (id = i)) as [<-|Hi]; [|by rewrite resolved_other].
  unfold resolve_approval_strict. rewrite Hc. case_bool_decide; [done|exact Hc].
Qed.
Lemma resolve_keeps id st rws i : is_Some (rws !! i) → is_Some ((resolve_approval_strict id st rws).1 !! i).
Proof.
  intros Hi. destruct (decide (id = i)) as [<-|Hne]; [|by rewrite resolved_other].
  destruct (resolved_row id st rws) as [->|[_ ->]]; [done|by eexists].
Qed.

(** How the row of [i] and its decision change in a step. *)
Lemma step_row a s s' i :
  step a s = Some s' →
  (rows s' !! i = rows s !! i ∧ decided s' !! i = decided s !! i) ∨
  (a = Create (Ok i) ∧ rows s !! i = None ∧ rows s' !! i = Some PENDING ∧ decided s' !! i = decided s !! i) ∨
  (rows s !! i = Some PENDING ∧
    match a with
    | Answer id approved by_ m =>
        id = i ∧ rows s' !! i = Some (if approved then APPROVED else REJECTED) ∧
        decided s' !! i = Some (result_of approved by_ m)
    | CloseRow id true => id = i ∧ rows s' !! i = Some CANCELLED ∧ decided s' !! i = decided s !! i
    | ExpireRow id true => id = i ∧ rows s' !! i = Some TIMED_OUT ∧ decided s' !! i = decided s !! i
    | _ => False
    end).
Proof.
  destruct a as [[id|e]|id t cr st|id tool|id|id ok|id now|id ok|id ok|id approved by_ m|id|now]; cbn [step]; intros Hs.
  - unfold create in Hs. destruct (rows s !! id) eqn:Hr; [done|]. injection Hs as <-. cbn.
    destruct (decide (id = i)) as [->|?]; [right; left; by rewrite lookup_insert_eq|left; by rewrite lookup_insert_ne].
  - injection Hs as <-. by left.
  - unfold arm in Hs. repeat case_match; simplify_eq; by left.
  - unfold receive in Hs. repeat case_match; simplify_eq; by left.
  - unfold cancel in Hs. repeat case_match; simplify_eq; by left.
  - unfold close_row in Hs. destruct (phases s !! id) as [[]|]; try done. injection Hs as <-. cbn [set_phase set_rows rows decided].
    destruct ok; [|by left]. destruct (decide (id = i)) as [<-|?]; [|left; by rewrite resolved_other].
    destruct (resolved_row id CANCELLED (rows s)) as [Hr|[Hp Hr]]; [by left|right; right; by split_and!].
  - unfold expire in Hs. repeat case_match; simplify_eq; by left.
  - unfold expire_row in Hs. destruct (phases s !! id) as [[]|]; try done. destruct ok; cbn [negb] in Hs; [|injection Hs as <-; by left].
    pose proof (resolved_row id TIMED_OUT (rows s)) as Hrow. pose proof (resolved_other id i TIMED_OUT (rows s)) as Hother.
    destruct (resolve_approval_strict id TIMED_OUT (rows s)) as [rows' won]. injection Hs as <-. cbn [set_phase set_rows rows decided fst] in *.
    destruct (decide (id = i)) as [<-|?]; [|left; by rewrite Hother].
    destruct Hrow as [Hr|[Hp Hr]]; [by left|right; right; by split_and!].
  - unfold conclude in Hs. destruct (phases s !! id) as [[]|]; try done. case_match; simplify_eq; by left.
  - injection Hs as <-. unfold answer, resolve_approval_strict. destruct (rows s !! id) as [c|] eqn:Hc; [|by left].
    case_bool_decide; [|by left]. subst. cbn [set_decided set_waking set_rows rows decided].
    destruct (decide (id = i)) as [<-|?]; [right; right; by rewrite !lookup_insert_eq|left; by rewrite !lookup_insert_ne].
  - unfold wake in Hs. repeat case_match; simplify_eq; by left.
  - injection Hs as <-. by left.
Qed.

(** The row of an approval is decided once: after it has left [pending]
    no party changes it or the answer given, whatever runs afterwards; an
    answer, a timeout or a cancellation that comes second changes nothing.
    It never goes back to [pending] and is never created twice. *)
Theorem decided_once l s s' i c :
  run l s = Some s' → rows s !! i = Some c → c ≠ PENDING →
  rows s' !! i = Some c ∧ decided s' !! i = decided s !! i.
Proof.
  revert s. induction l as [|a l IH]; intros s Hrun Hc Hne; cbn [run] in Hrun; [by injection Hrun as <-|].
  destruct (step a s) as [s1|] eqn:Hs; cbn in Hrun; [|done].
  assert (rows s1 !! i = Some c ∧ decided s1 !! i = decided s !! i) as [Hc1 <-].
  { destruct (step_row _ _ _ i Hs) as [[-> ->]|[(_ & Hn & _)|(Hp & _)]]; [done|congruence..]. }
  exact (IH s1 Hrun Hc1 Hne).
Qed.

(** ** The request comes back *)

(** The steps the request takes itself, and how many it can still take. *)
Definition own (id : ApprovalId) (a : Action) : bool :=
  match a with
  | Arm i _ _ _ | Receive i _ | Cancel i | CloseRow i _ | Expire i _ | ExpireRow i _ | Conclude i _ => bool_decide (i = id)
  | _ => false
  end.
Definition rank (p : option Phase) : nat :=
  match p with
  | Some Announcing => 4 | Some (Waiting _ _) => 3 | Some Expiring => 2
  | Some Closing | Some (Expired _) => 1 | Some (Returned _) | None => 0
  end.
(** The moment the clock alone moves the request on. *)
Definition due (p : Phase) (now : Z) : Prop :=
  match p with Waiting deadline Empty => (deadline <= now)%Z | _ => True end.

Ltac own_step :=
  try match goal with H : is_Some None |- _ => by apply is_Some_None in H end;
  cbn [set_phase set_rows set_waiters set_waking set_decided set_refused phases];
  rewrite ?lookup_insert_eq, ?lookup_insert_ne by done;
  (split; [eauto|]);
  repeat match goal with H : phases _ !! _ = _ |- _ => rewrite H end; cbn [rank]; lia.
Lemma own_rank a s s' id :
  invariant s → step a s = Some s' → is_Some (phases s !! id) →
  is_Some (phases s' !! id) ∧
  rank (phases s' !! id) + (if own id a then 1 else 0) ≤ rank (phases s !! id).
Proof.
  intros Hinv Hs Hp.
  destruct a as [[i|e]|i t cr st|i tool|i|i ok|i now|i ok|i ok|i approved by_ m|i|now]; cbn [step own] in *;
    try (destruct (decide (i = id)) as [->|Hne]; [rewrite ?bool_decide_eq_true_2 by done|rewrite ?bool_decide_eq_false_2 by done]).
  1: { destruct (inv_phases _ _ _ _ _ (Hinv id) Hp) as [c Hc]. unfold create in Hs. by rewrite Hc in Hs. }
  all: try (unfold create, arm, receive, cancel, close_row, expire, expire_row, conclude, wake in Hs; cbn [set_waking set_waiters waiters phases rows] in Hs;
    repeat case_match; simplify_eq; own_step).
  - injection Hs as <-. unfold answer. repeat case_match; own_step.
  - injection Hs as <-. unfold answer. repeat case_match; own_step.
  - injection Hs as <-. cbn [prune_stale phases]. rewrite map_lookup_imap. destruct Hp as [p Hp]. rewrite Hp. cbn.
    split; [by eexists|]. destruct p as [|t []| | | |]; repeat case_match; simplify_eq; cbn; lia.
Qed.

(** C27: A request always comes back. Whatever answers, clean-ups and other
    requests run in between and whatever the database replies, the request
    takes at most four steps of its own from the moment its row is written
    and at most three once it waits; and as long as it has not returned it
    has a step to take as soon as its deadline is due, so no missing answer,
    lost wake-up or failed statement leaves the tool call hanging. *)
(* @prop liveness defs=arm,receive,cancel,close_row,expire,expire_row,conclude witness=request_returns_witness *)
Theorem request_returns l s s' id p :
  reachable s → run l s = Some s' → phases s !! id = Some p →
  (∃ p', phases s' !! id = Some p' ∧
    length (filter (λ a, own id a = true) l) + rank (Some p') ≤ rank (Some p) ∧
    ((∃ o, p' = Returned o) ∨
     ∀ tool timeout now db_ok, due p' now →
       ∃ a s'', own id a = true ∧ step a s' = Some s'' ∧
         a ∈ [Arm id timeout now now; Receive id tool; CloseRow id db_ok; Expire id now; ExpireRow id db_ok; Conclude id db_ok])).
Proof.
  intros Hre%invariant_reachable. revert s p Hre. induction l as [|a l IH]; intros s p Hinv Hrun Hp; cbn [run] in Hrun.
  - injection Hrun as <-. exists p. split_and!; [done|cbn; lia|].
    destruct p as [|t [| |r]| | |b|o]; [..|by left; eexists]; right; intros tool timeout now ok Hdue.
    + exists (Arm id timeout now now). cbn. unfold arm. rewrite Hp. eexists. split_and!; [by apply bool_decide_eq_true|done|set_solver].
    + exists (Expire id now). cbn. unfold expire. rewrite Hp. cbn in Hdue.
      rewrite (proj2 (Z.leb_le _ _) Hdue). eexists. split_and!; [by apply bool_decide_eq_true|done|set_solver].
    + exists (Receive id tool). cbn. unfold receive. rewrite Hp. eexists. split_and!; [by apply bool_decide_eq_true|done|set_solver].
    + exists (Receive id tool). cbn. unfold receive. rewrite Hp. eexists. split_and!; [by apply bool_decide_eq_true|done|set_solver].
    + exists (CloseRow id ok). cbn. unfold close_row. rewrite Hp. eexists. split_and!; [by apply bool_decide_eq_true|done|set_solver].
    + exists (ExpireRow id ok). cbn. unfold expire_row. rewrite Hp. destruct ok; cbn [negb].
      * destruct (resolve_approval_strict id TIMED_OUT (rows s)) as [rows' won].
        eexists. split_and!; [by apply bool_decide_eq_true|done|set_solver].
      * eexists. split_and!; [by apply bool_decide_eq_true|done|set_solver].
    + exists (Conclude id ok). cbn. unfold conclude. rewrite Hp. case_match; (eexists; split_and!; [by apply bool_decide_eq_true|done|set_solver]).
  - destruct (step a s) as [s1|] eqn:Hs; cbn in Hrun; [|done].
    destruct (own_rank _ _ _ id Hinv Hs) as [[p1 Hp1] Hr]; [by eexists|].
    destruct (IH s1 p1 (invariant_step _ _ _ Hinv Hs) Hrun Hp1) as (p' & Hp' & Hlen & Hend).
    exists p'. split_and!; [done| |done]. rewrite Hp, Hp1 in Hr.
    rewrite filter_cons. destruct (own id a); (case_decide; [|try done]); cbn [length]; lia.
Qed.

(** ** The gate in front of a tool *)

(* @src opex-core/src/agent/channel_kind.rs 17-19 is_automated *)
Definition is_automated (ch : str) : bool := is_any ch ["cron"; "heartbeat"; "system"; "inter-agent"]%string.
Definition CONTEXT : str := bs "_context".
(* @src opex-core/src/agent/engine_dispatch.rs 139-144 execute_tool_call_inner (interactive) *)
Definition has_interactive_channel (arguments : V) : bool :=
  let context := jget arguments CONTEXT in
  let channel := c ← context; v ← jget c (bs "_channel"); jas_str v in
  bool_decide (is_Some (c ← context; jget c (bs "chat_id"))) &&
  negb (from_option is_automated false channel).
(* @src opex-core/src/agent/engine_dispatch.rs 170-175 execute_tool_call_inner (context) *)
Definition keep_context (arguments modified : V) : V :=
  match jget arguments CONTEXT with
  | Some ctx => if jis_object modified then jinsert CONTEXT ctx modified else modified
  | None => modified
  end.

Inductive Gate := Runs (arguments : V) | Answers (text : str) | Asks (arguments : V).

Definition asks (approval : option ApprovalConfig) (allowed : bool) (name : str) (arguments : V) : bool :=
  needs_approval approval name && has_interactive_channel arguments && negb allowed.
(** [outcomes]: what the requests come back with, in order; [allowed]: the
    allowlist has the tool.  Modified arguments go through the whole call
    again. *)
(* @src opex-core/src/agent/engine_dispatch.rs 126-188 execute_tool_call_inner (approval) *)
Fixpoint gate (approval : option ApprovalConfig) (allowed : bool) (name : str)
    (outcomes : list ApprovalOutcome) (arguments : V) : Gate :=
  if negb (is_valid_tool_name name) then
    Answers (bs "Error: tool name '" ++ name ++
             bs "' is not a valid identifier; use tool_use(action='search') to find the correct tool name")
  else if asks approval allowed name arguments then
    match outcomes with
    | [] => Asks arguments
    | Approved :: _ => Runs arguments
    | ApprovedWithModifiedArgs modified :: rest =>
        gate approval allowed name rest (keep_context arguments modified)
    | Rejected reason :: _ => Answers reason
    | Cancelled :: _ => Answers (bs "Tool `" ++ name ++ bs "` approval was cancelled.")
    | TimedOut :: _ => Answers (bs "Tool `" ++ name ++ bs "` approval timed out after " ++ decZ (from_option timeout_seconds 300%Z approval) ++ bs "s.")
    end
  else Runs arguments.

Definition modifies (o : ApprovalOutcome) : bool := match o with ApprovedWithModifiedArgs _ => true | _ => false end.
(** What the requests said before the tool ran on [arguments']: approvals with
    changes, then a plain one, or changes that are no object and so drop the
    channel the next request would have gone to. *)
Definition consented (outcomes : list ApprovalOutcome) (arguments' : V) : Prop :=
  ∃ changed rest, outcomes = changed ++ rest ∧ forallb modifies changed = true ∧
    ((∃ more, rest = Approved :: more) ∨
     ∃ before, changed = before ++ [ApprovedWithModifiedArgs arguments'] ∧ jis_object arguments' = false).

Lemma has_context arguments : has_interactive_channel arguments = true → is_Some (jget arguments CONTEXT).
Proof. unfold has_interactive_channel. destruct (jget arguments CONTEXT); [by eexists|done]. Qed.

Section laws.
Context `{!JsonLaws V}.
Lemma keep_context_interactive arguments modified :
  jis_object modified = true → has_interactive_channel arguments = true →
  has_interactive_channel (keep_context arguments modified) = true.
Proof.
  intros Ho Hi. destruct (has_context _ Hi) as [ctx Hctx]. unfold keep_context, has_interactive_channel in *.
  rewrite Hctx, Ho in *. by rewrite jget_insert.
Qed.
Lemma keep_context_dropped arguments modified :
  jis_object modified = false → keep_context arguments modified = modified.
Proof. intros Ho. unfold keep_context. destruct (jget arguments CONTEXT); [by rewrite Ho|done]. Qed.

Lemma gate_consented approval allowed name outcomes arguments arguments' :
  asks approval allowed name arguments = true →
  gate approval allowed name outcomes arguments = Runs arguments' →
  consented outcomes arguments'.
Proof.
  intros Hasks. revert arguments Hasks. induction outcomes as [|o outcomes IH]; intros arguments Hasks; cbn [gate];
    (destruct (is_valid_tool_name name) eqn:Hv; cbn [negb]; [|done]); rewrite Hasks; [done|].
  destruct o as [|m|reason| |]; try done.
  - intros [= <-]. exists [], (Approved :: outcomes). split_and!; [done|done|]. left. by eexists.
  - intros Hg. destruct (asks approval allowed name (keep_context arguments m)) eqn:Hagain.
    + destruct (IH _ Hagain Hg) as (changed & rest & -> & Hc & Hend).
      exists (ApprovedWithModifiedArgs m :: changed), rest. split_and!; [done|done|].
      destruct Hend as [Happ|(before & -> & Ho)]; [by left|right]. by exists (ApprovedWithModifiedArgs m :: before).
    + assert (jis_object m = false) as Hm.
      { destruct (jis_object m) eqn:Ho; [|done]. unfold asks in *.
        apply andb_true_iff in Hasks as [[Hn Hi]%andb_true_iff Ha].
        by rewrite Hn, Ha, (keep_context_interactive _ _ Ho Hi) in Hagain. }
      assert (arguments' = m) as ->.
      { destruct outcomes; cbn [gate] in Hg; rewrite Hv, Hagain in Hg; cbn [negb] in Hg;
          injection Hg as <-; by apply keep_context_dropped. }
      exists [ApprovedWithModifiedArgs m], outcomes. split_and!; [done|done|right]. by exists [].
Qed.

(** A call that needs the owner's consent runs only with it: if the gate
    lets the tool run on some arguments, then the requests it raised came
    back approved, the last of them for exactly these arguments. A request
    that was rejected, cancelled or timed out ends the call with its text,
    whatever comes after it. *)
Theorem gate_needs_consent approval allowed name outcomes arguments arguments' :
  asks approval allowed name arguments = true →
  gate approval allowed name outcomes arguments = Runs arguments' →
  consented outcomes arguments'.
Proof. apply gate_consented. Qed.

(** An approval with modified arguments raises a second request for them. *)
Theorem modified_asks_again approval allowed name arguments modified :
  is_valid_tool_name name = true → asks approval allowed name arguments = true → jis_object modified = true →
  gate approval allowed name [ApprovedWithModifiedArgs modified] arguments = Asks (keep_context arguments modified).
Proof.
  intros Hv Hasks Ho. cbn [gate]. rewrite Hv, Hasks. cbn [negb].
  unfold asks in *. apply andb_true_iff in Hasks as [[Hn Hi]%andb_true_iff Ha].
  by rewrite Hn, Ha, (keep_context_interactive _ _ Ho Hi).
Qed.
End laws.

(** ** Where an approval goes wrong *)

Ltac sim :=
  progress (unfold arm, answer, resolve_approval_strict, expire, expire_row, conclude, wake, receive, close_row;
    cbn [mbind option_bind empty_state set_phase set_rows set_waiters set_waking set_decided rows waiters phases waking decided
         prune_stale negb andb is_ok snd fst];
    rewrite ?lookup_empty, ?lookup_insert_eq, ?lookup_delete_eq, ?Z.leb_refl;
    rewrite ?(bool_decide_eq_true_2 (PENDING = PENDING)), ?(bool_decide_eq_false_2 (APPROVED = PENDING)) by done;
    rewrite ?(bool_decide_eq_true_2 (Some APPROVED = Some APPROVED)) by done).

(** The owner approves with other arguments in the last moments: the answer
    wins the row, the timeout fires before the waiter is woken, and the call
    is let through as approved, on the arguments the owner had replaced. *)
Theorem late_answer_loses_args id args by_ timeout now :
  ∃ s, run [Create (Ok id); Arm id timeout now now; Answer id true by_ (Some args);
            Expire id (now + timeout); ExpireRow id true; Conclude id true; Wake id] empty_state = Some s ∧
    decided s !! id = Some (RApprovedWithModifiedArgs args) ∧ phases s !! id = Some (Returned Approved).
Proof.
  eexists. cbn [run step]. unfold create. repeat sim. split; [reflexivity|]. by repeat sim.
Qed.

(** A request with a timeout above ten minutes is cancelled by the clean-up
    once it is older than ten minutes, before its deadline. *)
Theorem cleanup_cancels_long_approval id tool timeout now :
  (601 < timeout)%Z →
  ∃ s, run [Create (Ok id); Arm id timeout now now; Prune (now + 601); Receive id tool; CloseRow id true] empty_state = Some s ∧
    phases s !! id = Some (Returned Cancelled) ∧ decided s !! id = None.
Proof.
  intros Ht. eexists. cbn [run step]. unfold create. repeat sim. rewrite map_lookup_imap. repeat sim.
  assert (stale (now + 601) now = true) as -> by (apply Z.ltb_lt; lia). repeat sim. split; [reflexivity|]. by repeat sim.
Qed.
End approvals.
Arguments ApprovalResult V : clear implicits.
Arguments ApprovalOutcome V : clear implicits.
Arguments State V : clear implicits.
Arguments Action V : clear implicits.

(** ** The allowlist

    [tool_pattern = $2 OR $2 LIKE REPLACE(tool_pattern, '*', '%')].  A pattern
    that ends in the escape character makes PostgreSQL reject the statement;
    it is left out. *)

Definition PERCENT : ascii := "%"%char.
Definition UNDERSCORE : ascii := "_"%char.
Definition BACKSLASH : ascii := "\"%char.
(** SQL's [LIKE] on the bytes of a tool name, which are ASCII. *)
Fixpoint like (pattern s : str) {struct pattern} : bool :=
  match pattern with
  | [] => bool_decide (s = [])
  | c :: pattern' =>
      if bool_decide (c = PERCENT) then
        (fix gap (s : str) : bool :=
           like pattern' s || match s with [] => false | _ :: s' => gap s' end) s
      else match s with
      | [] => false
      | d :: s' =>
          if bool_decide (c = UNDERSCORE) then like pattern' s'
          else if bool_decide (c = BACKSLASH) then
            match pattern' with
            | [] => false
            | e :: pattern'' => bool_decide (e = d) && like pattern'' s'
            end
          else bool_decide (c = d) && like pattern' s'
      end
  end.
Definition replace_star (pattern : str) : str := (λ c, if bool_decide (c = STAR) then PERCENT else c) <$> pattern.
(* @src opex-db/src/approvals.rs 174-184 check_allowlist (row) *)
Definition allowlist_row (tool_pattern tool_name : str) : bool :=
  bool_decide (tool_pattern = tool_name) || like (replace_star tool_pattern) tool_name.
(* @src opex-db/src/approvals.rs 174-184 check_allowlist *)
Definition check_allowlist (rows : list (str * str)) (agent_id tool_name : str) : bool :=
  existsb (λ row, bool_decide (row.1 = agent_id) && allowlist_row row.2 tool_name) rows.

Definition plain_char (c : ascii) : bool :=
  negb (bool_decide (c = PERCENT)) && negb (bool_decide (c = UNDERSCORE)) && negb (bool_decide (c = BACKSLASH)).

Lemma like_percent pattern s :
  like (PERCENT :: pattern) s = true ↔ ∃ g t, s = g ++ t ∧ like pattern t = true.
Proof.
  cbn [like]. rewrite bool_decide_eq_true_2 by done. induction s as [|c s IH].
  - rewrite orb_false_r. split; [intros; by exists [], []|]. intros (g & t & Hs & Ht).
    symmetry in Hs. apply app_eq_nil in Hs as [_ ->]. done.
  - rewrite orb_true_iff, IH. split.
    + intros [Hl|(g & t & -> & Ht)]; [by exists [], (c :: s)|by exists (c :: g), t].
    + intros ([|d g] & t & Hs & Ht); cbn in Hs; simplify_eq; [by left|right; by exists g, t].
Qed.

Lemma like_is_glob pattern s :
  forallb plain_char pattern = true → like (replace_star pattern) s = true ↔ glob_match pattern s.
Proof.
  revert s. induction pattern as [|c pattern IH]; intros s Hp; cbn in Hp.
  - cbn. rewrite bool_decide_eq_true, Glob.glob_nil. done.
  - apply andb_true_iff in Hp as [Hc Hp]. unfold replace_star in *. cbn [fmap list_fmap].
    case_bool_decide as Hstar; subst.
    + rewrite like_percent, Glob.glob_star. by setoid_rewrite IH.
    + unfold plain_char in Hc. cbn [like]. destruct (bool_decide (c = PERCENT)); [done|].
      destruct (bool_decide (c = UNDERSCORE)); [done|]. destruct (bool_decide (c = BACKSLASH)); [done|].
      destruct s as [|d s]; [split; [done|by inversion 1]|].
      rewrite andb_true_iff, bool_decide_eq_true, IH by done. split.
      * intros [-> ?]. by constructor.
      * inversion 1; subst; done.
Qed.

(** On patterns free of [%], [_] and the backslash the allowlist's SQL
    accepts the same tools as the glob matcher that decides which tools need
    an approval: a rule written in one list means the same in the other. *)
Theorem allowlist_is_glob pattern name :
  forallb plain_char pattern = true →
  allowlist_row pattern name = tool_pattern_matches pattern name.
Proof.
  intros Hp. apply eq_true_iff_eq. unfold allowlist_row.
  rewrite pattern_matches_glob, orb_true_iff, bool_decide_eq_true, like_is_glob by done.
  split; [|by right]. intros [->|?]; [|done].
  clear Hp. induction name as [|c name IH]; [constructor|].
  destruct (decide (c = STAR)) as [->|]; [|by constructor]. apply gm_star_more, gm_star_end, IH.
Qed.

(** Nearly every tool has an underscore in its name, which SQL reads as any
    character: the rule for one tool lets others through. *)
Example underscore_is_a_wildcard :
  allowlist_row (bs "web_fetch") (bs "webXfetch") = true ∧ tool_pattern_matches (bs "web_fetch") (bs "webXfetch") = false.
Proof. by vm_compute. Qed.

(** ** Concrete runs *)

Definition demo_args : Jv.t := Jv.Obj [(bs "path", Jv.Str (bs "a.txt"))].
Definition demo_run : list (Action Jv.t) :=
  [Create (Ok 1%Z); Arm 1 300 0 0; Answer 1 true (bs "owner") (Some demo_args); Answer 1 false (bs "late") None; Wake 1; Receive 1 (bs "code_exec")].
Lemma run_reachable {V} `{Json V} (l : list (Action V)) s s' : reachable s → run l s = Some s' → reachable s'.
Proof.
  revert s. induction l as [|a l IH]; intros s Hs; cbn [run]; [by intros [= <-]|].
  destruct (step a s) eqn:Hstep; cbn; [|done]. apply IH. by eapply reach_step.
Qed.
Definition demo_state (n : nat) : State Jv.t := default empty_state (run (take n demo_run) empty_state).
Lemma demo_reachable n : is_Some (run (take n demo_run) empty_state) → reachable (demo_state n).
Proof. unfold demo_state. intros [s Hs]. rewrite Hs. eapply run_reachable; [apply reach_init|done]. Qed.

Lemma approval_sound_witness :
  rows (demo_state 6) !! 1%Z = Some APPROVED ∧ decided (demo_state 6) !! 1%Z = Some (RApprovedWithModifiedArgs demo_args).
Proof.
  apply (approval_sound (demo_state 6) 1%Z (ApprovedWithModifiedArgs demo_args)); [|by vm_compute].
  apply demo_reachable. vm_compute. by eexists.
Defined.

Lemma decided_once_witness :
  rows (demo_state 6) !! 1%Z = Some APPROVED ∧ decided (demo_state 6) !! 1%Z = decided (demo_state 3) !! 1%Z.
Proof.
  apply (decided_once (drop 3 demo_run) (demo_state 3) (demo_state 6) 1%Z APPROVED); [by vm_compute..|done].
Defined.

Lemma request_returns_witness :
  ∃ p', phases (demo_state 3) !! 1%Z = Some p' ∧
    length (filter (λ a, own 1 a = true) (take 1 (drop 2 demo_run))) + rank (Some p') ≤ 3 ∧
    ((∃ o, p' = Returned o) ∨
     ∀ tool timeout now db_ok, due p' now →
       ∃ a s'', own 1 a = true ∧ step a (demo_state 3) = Some s'' ∧
         a ∈ [Arm 1 timeout now now; Receive 1 tool; CloseRow 1 db_ok; Expire 1 now; ExpireRow 1 db_ok; Conclude 1 db_ok]).
Proof.
  apply (request_returns (take 1 (drop 2 demo_run)) (demo_state 2) (demo_state 3) 1%Z (Waiting 300 Empty)); [|by vm_compute..].
  apply demo_reachable. vm_compute. by eexists.
Defined.

Definition demo_policy : option ApprovalConfig := Some (mkApproval true [bs "code_*"] [] 300).
Definition demo_call : Jv.t :=
  Jv.Obj [(CONTEXT, Jv.Obj [(bs "chat_id", Jv.Str (bs "7"))]); (bs "path", Jv.Str (bs "b.txt"))].
Lemma gate_needs_consent_witness :
  consented [ApprovedWithModifiedArgs demo_args; Approved] (keep_context demo_call demo_args).
Proof. eapply (gate_needs_consent demo_policy false (bs "code_exec") _ demo_call); by vm_compute. Defined.

Lemma allowlist_is_glob_witness : allowlist_row (bs "git*") (bs "github") = tool_pattern_matches (bs "git*") (bs "github").
Proof. apply (allowlist_is_glob (bs "git*") (bs "github")). by vm_compute. Defined.
