(* ===== verification/Hooks.v ===== *)
(** * Hooks

    [agent/hooks.rs]: the handlers and webhooks that watch a turn and may
    stop or change it, and the points of [agent/engine_dispatch.rs],
    [agent/engine/run.rs] and [agent/pipeline/bootstrap.rs] where they are
    asked; the whole way of a tool call through the approval gate
    ([Approval]), the hooks and the tool.

    The network and the clock are the environment: [elapsed k] is the time in
    milliseconds since the chain started when the [k]-th webhook is reached,
    [post k w req] the body it answers with, [None] when the request fails or
    does not finish within the webhook's timeout.  The regular expressions,
    the parsing of an answer by serde and of the URL are parameters. *)
From S2P Require Import Prelude Text Json Messages Dispatch Approval.

(* @src opex-core/src/agent/hooks.rs 9-15 HookEvent *)
Inductive HookEvent :=
| BeforeMessage
| AfterResponse
| BeforeToolCall (agent tool_name : str)
| AfterToolResult (agent tool_name : str) (duration_ms : Z)
| OnError.
(* @src opex-core/src/agent/hooks.rs 18-23 HookAction *)
Inductive HookAction := Continue | Block (reason : str).

(* @src opex-core/src/agent/hooks.rs 397-405 event_name *)
Definition event_name (event : HookEvent) : str :=
  match event with
  | BeforeMessage => bs "BeforeMessage"
  | AfterResponse => bs "AfterResponse"
  | BeforeToolCall _ _ => bs "BeforeToolCall"
  | AfterToolResult _ _ _ => bs "AfterToolResult"
  | OnError => bs "OnError"
  end.
(* @src opex-core/src/agent/hooks.rs 357-363 event_tool_name *)
Definition event_tool_name (event : HookEvent) : option str :=
  match event with
  | BeforeToolCall _ tool_name | AfterToolResult _ tool_name _ => Some tool_name
  | _ => None
  end.
(* @src opex-core/src/agent/hooks.rs 29-31 webhook_chain_exceeded *)
Definition webhook_chain_exceeded (elapsed_ms budget_ms : Z) : bool :=
  negb (budget_ms =? 0)%Z && (budget_ms <=? elapsed_ms)%Z.

(* @src opex-core/src/config/mod.rs 1129-1140 WebhookMode *)
Inductive WebhookMode := Async | Decision.
(* @src opex-core/src/config/mod.rs 1145-1151 FailureMode *)
Inductive FailureMode := Open | Closed.
#[export] Instance FailureMode_eq_dec : EqDecision FailureMode.
Proof. solve_decision. Defined.
(* @src opex-core/src/config/mod.rs 1160-1183 WebhookConfig *)
Record WebhookConfig := mkWebhook {
  url : str;
  events : list str;
  mode : WebhookMode;
  tool_matcher : option str;
  on_failure : FailureMode;
  timeout_ms : Z;
  allow_internal : bool;
}.
(* @src opex-core/src/agent/hooks.rs 34-37 CompiledWebhook *)
Record CompiledWebhook := mkCompiled { cfg : WebhookConfig; matcher : option (str → bool) }.
(** The handlers are functions; the two clients are there or not. *)
(* @src opex-core/src/agent/hooks.rs 39-48 HookRegistry *)
Record HookRegistry := mkHooks {
  handlers : list (str * (HookEvent → HookAction));
  http_client : bool;
  http_client_internal : bool;
  webhooks : list CompiledWebhook;
  total_webhook_timeout_ms : Z;
  on_chain_timeout : FailureMode;
}.
(* @src opex-core/src/agent/hooks.rs 51-60 HookRegistry::new *)
Definition new : HookRegistry := mkHooks [] false false [] 10000 Open.
(* @src opex-core/src/agent/hooks.rs 62-65 HookRegistry::register *)
Definition register (name : str) (handler : HookEvent → HookAction) (r : HookRegistry) : HookRegistry :=
  mkHooks (handlers r ++ [(name, handler)]) (http_client r) (http_client_internal r) (webhooks r)
    (total_webhook_timeout_ms r) (on_chain_timeout r).
(* @src opex-core/src/agent/hooks.rs 129-132 HookRegistry::set_webhook_chain_budget *)
Definition set_webhook_chain_budget (total : option Z) (on_chain : FailureMode) (r : HookRegistry) : HookRegistry :=
  mkHooks (handlers r) (http_client r) (http_client_internal r) (webhooks r) (default 10000%Z total) on_chain.

Definition is_decision (w : WebhookConfig) : bool := match mode w with Decision => true | Async => false end.
(** [regex_new] compiles a pattern; [internal_built]: the plain client can be
    built.  A pattern that does not compile leaves the webhook without a
    matcher. *)
(* @src opex-core/src/agent/hooks.rs 90-125 HookRegistry::set_webhooks *)
Definition set_webhooks (regex_new : str → option (str → bool)) (internal_built : bool)
    (l : list WebhookConfig) (r : HookRegistry) : HookRegistry :=
  let needs_internal := existsb (λ w, allow_internal w && is_decision w) l in
  mkHooks (handlers r) true (needs_internal && internal_built)
    ((λ w, mkCompiled w (p ← tool_matcher w; regex_new p)) <$> l)
    (total_webhook_timeout_ms r) (on_chain_timeout r).

(* @src opex-core/src/agent/hooks.rs 68-79 HookRegistry::fire *)
Fixpoint fire_handlers (l : list (str * (HookEvent → HookAction))) (event : HookEvent) : HookAction :=
  match l with
  | [] => Continue
  | (name, handler) :: l =>
      match handler event with Continue => fire_handlers l event | action => action end
  end.
Definition fire (r : HookRegistry) (event : HookEvent) : HookAction := fire_handlers (handlers r) event.
(* @src opex-core/src/agent/hooks.rs 416-426 logging_hook *)
Definition logging_hook (event : HookEvent) : HookAction := Continue.
(* @src opex-core/src/agent/hooks.rs 429-437 block_tools_hook *)
Definition block_tools_hook (blocked : list str) (event : HookEvent) : HookAction :=
  match event with
  | BeforeToolCall _ tool_name =>
      if bool_decide (tool_name ∈ blocked)
      then Block (bs "tool '" ++ tool_name ++ bs "' is blocked by policy") else Continue
  | _ => Continue
  end.

Definition MARK : str := bs "[hook:".
(** [hook], a zero-width space and the colon *)
Definition BROKEN_MARK : str := bs "[hook" ++ byte_seq [226; 128; 139] ++ bs ":".
(* @src opex-core/src/agent/hooks.rs 310-313 hook_provenance *)
Definition hook_provenance (host body : str) : str :=
  bs "[hook:" ++ host ++ bs "] " ++ replace_all MARK BROKEN_MARK body.

Section hooks.
Context {V : Type} `{Json V, JsonEntries V}.

(* @src opex-core/src/agent/hooks.rs 339-345 HookDecision *)
Inductive HookDecision :=
| DContinue
| DBlock (reason : str)
| DModifyArgs (args : V)
| DInjectContext (text : str)
| DTransformResult (text : str).
(* @src opex-core/src/agent/hooks.rs 348-354 WebhookResponse *)
Record WebhookResponse := mkResponse {
  r_decision : option str;
  r_reason : option str;
  r_inject_context : option str;
  r_modified_args : option V;
  r_transformed_result : option str;
}.

Variable parse_response : str → option WebhookResponse.
Variable host_of : str → str.

(* @src opex-core/src/agent/hooks.rs 368-392 parse_decision *)
Definition parse_decision (body : str) (event : HookEvent) : HookDecision :=
  match parse_response body with
  | None => DContinue
  | Some r =>
      if bool_decide (r_decision r = Some (bs "block"))
      then DBlock (default (bs "blocked by hook") (r_reason r)) else
      match r_modified_args r, r_transformed_result r, r_inject_context r, event with
      | Some args, _, _, BeforeToolCall _ _ => if jis_object args then DModifyArgs args else DContinue
      | _, Some res, _, AfterToolResult _ _ _ => DTransformResult res
      | _, _, Some ctx, BeforeMessage => DInjectContext ctx
      | _, _, _, _ => DContinue
      end
  end.

(** The webhooks a chain asks: decision webhooks that subscribe to the event,
    whose matcher takes the tool, and that have a client. *)
(* @src opex-core/src/agent/hooks.rs 149-167 fire_decision (filter) *)
Definition asked (r : HookRegistry) (event : HookEvent) (w : CompiledWebhook) : bool :=
  is_decision (cfg w) &&
  bool_decide (event_name event ∈ events (cfg w)) &&
  match matcher w with
  | None => true
  | Some re => match event_tool_name event with Some t => re t | None => false end
  end &&
  (if allow_internal (cfg w) then http_client_internal r else http_client r).

Definition event_agent (event : HookEvent) : str :=
  match event with BeforeToolCall agent _ | AfterToolResult agent _ _ => agent | _ => [] end.
(* @src opex-core/src/agent/hooks.rs 179-189 fire_decision (request) *)
Definition request (event : HookEvent) (cur_extra : V) : V :=
  let req := jinsert (bs "agent") (jstring (event_agent event))
               (jinsert (bs "event") (jstring (event_name event)) jempty) in
  let req := match event_tool_name event with Some t => jinsert (bs "tool_name") (jstring t) req | None => req end in
  jmerge req cur_extra.

(** What a chain carries from one webhook to the next. *)
Record Chain := mkChain {
  cur_extra : V;
  modified_args : option V;
  transformed : option str;
  injected : list str;
}.
(* @src opex-core/src/agent/hooks.rs 224-239 fire_decision (answer) *)
Definition absorb (host : str) (d : HookDecision) (c : Chain) : result str Chain :=
  match d with
  | DBlock reason => Err reason
  | DModifyArgs v =>
      Ok (mkChain (jinsert (bs "tool_input") v (cur_extra c)) (Some v) (transformed c) (injected c))
  | DTransformResult s =>
      let tagged := hook_provenance host s in
      Ok (mkChain (jinsert (bs "result") (jstring tagged) (cur_extra c)) (modified_args c) (Some tagged) (injected c))
  | DInjectContext s =>
      Ok (mkChain (cur_extra c) (modified_args c) (transformed c) (injected c ++ [hook_provenance host s]))
  | DContinue => Ok c
  end.

(** One exchange: the webhook, what it was sent, what came back. *)
Record Post := mkPost { p_webhook : CompiledWebhook; p_request : V; p_reply : option str }.

Variable elapsed : nat → Z.
Variable post : nat → WebhookConfig → V → option str.

(** The chain from the [k]-th webhook on, with the exchanges it makes. *)
(* @src opex-core/src/agent/hooks.rs 149-240 fire_decision (loop) *)
Fixpoint chain (r : HookRegistry) (event : HookEvent) (k : nat) (l : list CompiledWebhook) (c : Chain)
    : list Post * result str Chain :=
  match l with
  | [] => ([], Ok c)
  | w :: l =>
      if negb (asked r event w) then chain r event (S k) l c
      else if webhook_chain_exceeded (elapsed k) (total_webhook_timeout_ms r) then
        match on_chain_timeout r with
        | Open => ([], Ok c)
        | Closed => ([], Err (bs "webhook chain budget exceeded"))
        end
      else
        let req := request event (cur_extra c) in
        let reply := post k (cfg w) req in
        let next := match reply with
          | None => match on_failure (cfg w) with
                    | Open => Ok c
                    | Closed => Err (bs "hook unavailable")
                    end
          | Some body => absorb (host_of (url (cfg w))) (parse_decision body event) c
          end in
        match next with
        | Err reason => ([mkPost w req reply], Err reason)
        | Ok c' => let '(posts, res) := chain r event (S k) l c' in (mkPost w req reply :: posts, res)
        end
  end.

(* @src opex-core/src/agent/hooks.rs 242-245 fire_decision (result) *)
Definition conclude (res : result str Chain) : HookDecision :=
  match res with
  | Err reason => DBlock reason
  | Ok c =>
      match modified_args c, transformed c with
      | Some v, _ => DModifyArgs v
      | None, Some s => DTransformResult s
      | None, None => if bool_decide (injected c = []) then DContinue else DInjectContext (join [LF] (injected c))
      end
  end.
(* @src opex-core/src/agent/hooks.rs 139-246 fire_decision *)
Definition fire_decision (r : HookRegistry) (event : HookEvent) (extra : V) : list Post * HookDecision :=
  let '(posts, res) := chain r event 0 (webhooks r) (mkChain extra None None []) in
  (posts, conclude res).

(** The fire-and-forget webhooks an event is sent to. *)
(* @src opex-core/src/agent/hooks.rs 256-302 fire_webhooks *)
Definition fire_webhooks (r : HookRegistry) (event : HookEvent) : list WebhookConfig :=
  if negb (http_client r) then [] else
  filter (λ w, negb (is_decision w) && bool_decide (event_name event ∈ events w) = true) (cfg <$> webhooks r).

(** ** Where the hooks are asked *)

(** A message: blocked, or the text that goes on. *)
(* @src opex-core/src/agent/pipeline/bootstrap.rs 360-389 bootstrap (hooks) *)
Definition before_message (r : HookRegistry) (enriched_text : str) : result str str :=
  match (fire_decision r BeforeMessage (jinsert (bs "message") (jstring enriched_text) jempty)).2 with
  | DBlock reason => Err (bs "blocked by hook: " ++ reason)
  | DInjectContext ctx => Ok (ctx ++ [LF; LF] ++ enriched_text)
  | _ => Ok enriched_text
  end.
(** A tool call: answered by a hook, or the arguments that go on. *)
(* @src opex-core/src/agent/engine_dispatch.rs 190-242 execute_tool_call_inner (hooks) *)
Definition before_tool (r : HookRegistry) (agent name : str) (arguments : V) : result str V :=
  let event := BeforeToolCall agent name in
  match fire r event with
  | Block reason => Err (bs "Tool blocked by hook: " ++ reason)
  | Continue =>
      match (fire_decision r event (jinsert (bs "tool_input") arguments jempty)).2 with
      | DBlock reason => Err (bs "Tool blocked by hook: " ++ reason)
      | DModifyArgs v => Ok (keep_context arguments v)
      | _ => Ok arguments
      end
  end.
(* @src opex-core/src/agent/engine_dispatch.rs 50-73 execute_tool_call (hooks) *)
Definition after_tool (r : HookRegistry) (agent name : str) (duration_ms : Z) (result : str) : str :=
  match (fire_decision r (AfterToolResult agent name duration_ms) (jinsert (bs "result") (jstring result) jempty)).2 with
  | DTransformResult s => s
  | _ => result
  end.

(** What a tool call did: the arguments the tool ran on, if it ran, and the
    text the model sees. *)
Record ToolOutcome := mkToolOutcome { ran : option V; text : str }.
Definition then_after (r : HookRegistry) (agent name : str) (duration_ms : Z) (o : ToolOutcome) : ToolOutcome :=
  mkToolOutcome (ran o) (after_tool r agent name duration_ms (text o)).
(** [outcomes]: what the approval requests come back with; a request with no
    outcome is still waiting. *)
(* @src opex-core/src/agent/engine_dispatch.rs 14-73 execute_tool_call *)
Fixpoint execute_tool_call (r : HookRegistry) (approval : option ApprovalConfig) (allowed : bool) (agent name : str)
    (duration_ms : Z) (tool : V → str) (outcomes : list (ApprovalOutcome V)) (arguments : V) : option ToolOutcome :=
  let done_ text := Some (then_after r agent name duration_ms (mkToolOutcome None text)) in
  let proceed := 
    match before_tool r agent name arguments with
    | Err text => done_ text
    | Ok args => Some (then_after r agent name duration_ms (mkToolOutcome (Some args) (tool args)))
    end in
  if negb (is_valid_tool_name name) then
    done_ (bs "Error: tool name '" ++ name ++
           bs "' is not a valid identifier; use tool_use(action='search') to find the correct tool name")
  else if asks approval allowed name arguments then
    match outcomes with
    | [] => None
    | Approved :: _ => proceed
    | ApprovedWithModifiedArgs modified :: rest =>
        then_after r agent name duration_ms <$>
          execute_tool_call r approval allowed agent name duration_ms tool rest (keep_context arguments modified)
    | Rejected reason :: _ => done_ reason
    | Cancelled :: _ => done_ (bs "Tool `" ++ name ++ bs "` approval was cancelled.")
    | TimedOut :: _ =>
        done_ (bs "Tool `" ++ name ++ bs "` approval timed out after " ++ decZ (from_option timeout_seconds 300%Z approval) ++ bs "s.")
    end
  else proceed.

(** ** What the chain guarantees *)

Definition not_blocked (event : HookEvent) (p : Post) : Prop :=
  match p_reply p with
  | None => on_failure (cfg (p_webhook p)) = Open
  | Some body => ∀ reason, parse_decision body event ≠ DBlock reason
  end.
Definition is_dblock (d : HookDecision) : bool := match d with DBlock _ => true | _ => false end.

Lemma conclude_ok c : is_dblock (conclude (Ok c)) = false.
Proof. unfold conclude. destruct (modified_args c), (transformed c); try done. by case_bool_decide. Qed.

Lemma chain_spec r event k l c posts c' :
  chain r event k l c = (posts, Ok c') →
  Forall (not_blocked event) posts ∧
  (p_webhook <$> posts = filter (λ w, asked r event w = true) l ∨
   on_chain_timeout r = Open ∧ (p_webhook <$> posts) `prefix_of` filter (λ w, asked r event w = true) l).
Proof.
  revert k c posts. induction l as [|w l IH]; intros k c posts; cbn [chain]; [by intros [= <- <-]; auto|].
  rewrite filter_cons. destruct (asked r event w); cbn [negb]; (case_decide; [|done] || (case_decide; [done|])); [|apply IH].
  destruct (webhook_chain_exceeded _ _).
  { destruct (on_chain_timeout r) eqn:Ho; [|done]. intros [= <- <-]. split; [constructor|right; split; [done|apply prefix_nil]]. }
  set (reply := post k (cfg w) (request event (cur_extra c))).
  assert (∀ c1, match reply with
                | None => match on_failure (cfg w) with Open => Ok c | Closed => Err (bs "hook unavailable") end
                | Some body => absorb (host_of (url (cfg w))) (parse_decision body event) c
                end = Ok c1 → not_blocked event (mkPost w (request event (cur_extra c)) reply)) as Hnb.
  { intros c1. unfold not_blocked. cbn. destruct reply as [body|]; [|by destruct (on_failure (cfg w))].
    by destruct (parse_decision body event). }
  destruct (match reply with Some _ => _ | None => _ end) as [c1|reason] eqn:Hn; [|done].
  destruct (chain r event (S k) l c1) as [posts1 res] eqn:Hc. intros [= <- ->].
  destruct (IH _ _ _ Hc) as [Hf Hp]. split; [constructor; [by eapply Hnb|done]|].
  destruct Hp as [Heq|[Ho Hp]]; [left; cbn; by f_equal|right]. split; [done|]. cbn. by apply prefix_cons.
Qed.

(** A decision webhook cannot be passed over: when a chain does not
    block, every webhook it asked either answered with something other than
    a block or failed with [on_failure] open; and it asked, in the configured
    order, every decision webhook that subscribes to the event, matches the
    tool and has a client. Only a chain that ran out of its time budget and is
    configured to fail open may stop early, after an initial part of them. *)
Theorem decision_chain_complete r event extra posts d :
  fire_decision r event extra = (posts, d) → is_dblock d = false →
  Forall (not_blocked event) posts ∧
  let due := filter (λ w, asked r event w = true) (webhooks r) in
  (p_webhook <$> posts = due ∨ on_chain_timeout r = Open ∧ (p_webhook <$> posts) `prefix_of` due).
Proof.
  unfold fire_decision. destruct (chain r event 0 (webhooks r) _) as [posts' [c'|reason]] eqn:Hc; intros [= <- <-] Hd; [|done].
  by eapply chain_spec.
Qed.

(** The arguments after the given exchanges. *)
Definition args_step (event : HookEvent) (args : V) (p : Post) : V :=
  match p_reply p with
  | Some body => match parse_decision body event with DModifyArgs v => v | _ => args end
  | None => args
  end.
Definition args_after (event : HookEvent) (args : V) (posts : list Post) : V := foldl (args_step event) args posts.

Section laws.
Context `{!JsonLaws V, !JsonEntriesLaws V}.

Lemma request_tool_input event extra : jget (request event extra) (bs "tool_input") = jget extra (bs "tool_input").
Proof.
  unfold request. set (base := match event_tool_name event with Some t => _ | None => _ end).
  assert (jis_object base = true ∧ jget base (bs "tool_input") = None) as [Ho Hn].
  { subst base. destruct (event_tool_name event); rewrite ?jis_object_insert, ?jget_insert_ne by done;
      by rewrite jis_object_empty, jget_empty. }
  destruct (jget_merge base extra (bs "tool_input") Ho) as [_ ->]. by destruct (jget extra _).
Qed.

Lemma before_decision agent name body :
  match parse_decision body (BeforeToolCall agent name) with
  | DTransformResult _ | DInjectContext _ => False
  | DModifyArgs v => jis_object v = true
  | _ => True
  end.
Proof. unfold parse_decision. repeat case_match; simplify_eq; done. Qed.

(** A chain before a tool call whose current arguments are [args]. *)
Definition holds (c : Chain) (args : V) : Prop :=
  jis_object (cur_extra c) = true ∧ jget (cur_extra c) (bs "tool_input") = Some args ∧
  transformed c = None ∧ injected c = [] ∧
  (modified_args c = None ∨ modified_args c = Some args ∧ jis_object args = true).
Lemma holds_start args : holds (mkChain (jinsert (bs "tool_input") args jempty) None None []) args.
Proof. unfold holds. cbn. rewrite jis_object_insert, jis_object_empty, jget_insert by apply jis_object_empty. split_and!; auto. Qed.

Lemma chain_args r agent name k l c posts c' args :
  let event := BeforeToolCall agent name in
  holds c args → chain r event k l c = (posts, Ok c') →
  (∀ pre p post, posts = pre ++ p :: post → jget (p_request p) (bs "tool_input") = Some (args_after event args pre)) ∧
  holds c' (args_after event args posts).
Proof.
  intros event. revert k c posts args.
  induction l as [|w l IH]; intros k c posts args Hc; cbn [chain].
  { intros [= <- <-]. split; [by intros [] ???|exact Hc]. }
  destruct (negb (asked r event w)); [by apply IH|].
  destruct (webhook_chain_exceeded _ _).
  { destruct (on_chain_timeout r); [|done]. intros [= <- <-]. split; [by intros [] ???|exact Hc]. }
  set (req := request event (cur_extra c)). set (reply := post k (cfg w) req).
  destruct (match reply with Some _ => _ | None => _ end) as [c1|reason] eqn:Hn; [|done].
  destruct (chain r event (S k) l c1) as [posts1 res] eqn:Hrest. intros [= <- ->].
  assert (holds c1 (args_step event args (mkPost w req reply))) as Hc1.
  { unfold args_step. cbn [p_reply]. destruct reply as [body|].
    - pose proof (before_decision agent name body) as Hb. fold event in Hb.
      destruct (parse_decision body event); cbn [absorb] in Hn; simplify_eq; try done.
      destruct Hc as (Ho & _ & Ht & Hi & _). unfold holds. cbn. rewrite jis_object_insert, jget_insert by done. split_and!; auto.
    - destruct (on_failure (cfg w)); by simplify_eq. }
  destruct (IH _ _ _ _ Hc1 Hrest) as [Hreq Hres]. split; [|exact Hres].
  intros [|p0 pre] p post' Hp; injection Hp as <- Hp.
  - cbn. unfold req. rewrite request_tool_input. apply Hc.
  - exact (Hreq _ _ _ Hp).
Qed.

(** Changes to a tool call's arguments flow through the chain: each
    webhook is sent the arguments as the webhooks before it left them, and
    when the chain does not block, the tool gets what the last one left, with
    the call's own routing context put back; the chain never hands the tool a
    value that is no object instead. *)
Theorem arguments_flow r agent name arguments posts d args :
  let event := BeforeToolCall agent name in
  fire_decision r event (jinsert (bs "tool_input") arguments jempty) = (posts, d) →
  before_tool r agent name arguments = Ok args →
  (∀ pre p post, posts = pre ++ p :: post →
     jget (p_request p) (bs "tool_input") = Some (args_after event arguments pre)) ∧
  (args = arguments ∧ d = DContinue ∨
   args = keep_context arguments (args_after event arguments posts) ∧ jis_object args = true).
Proof.
  intros event Hd. unfold before_tool. fold event. rewrite Hd. cbn [snd].
  destruct (fire r event); [|done]. unfold fire_decision in Hd.
  destruct (chain r event 0 (webhooks r) _) as [posts' [c'|reason]] eqn:Hc; injection Hd as <- <-; [|done].
  destruct (chain_args r agent name _ _ _ _ _ _ (holds_start arguments) Hc) as [Hreq (_ & _ & Ht & Hi & Hm)].
  unfold conclude. rewrite Ht, Hi. intros Hargs. split; [exact Hreq|].
  destruct Hm as [Hm|[Hm Hobj]]; rewrite Hm in *; injection Hargs as <-; [by left|right]. split; [done|].
  unfold keep_context. destruct (jget arguments CONTEXT); [|done]. by rewrite Hobj, jis_object_insert.
Qed.
End laws.

(** ** A whole tool call *)

Lemma execute_gate r approval allowed agent name ms tool outcomes arguments :
  let result := execute_tool_call r approval allowed agent name ms tool outcomes arguments in
  match gate approval allowed name outcomes arguments with
  | Asks _ => result = None
  | Answers _ => ∃ o, result = Some o ∧ ran o = None
  | Runs a => ∃ o, result = Some o ∧ is_valid_tool_name name = true ∧
                ran o = match before_tool r agent name a with Ok a' => Some a' | Err _ => None end
  end.
Proof.
  assert (∀ a, ∃ o, match before_tool r agent name a with
      | Err text => Some (then_after r agent name ms (mkToolOutcome None text))
      | Ok args => Some (then_after r agent name ms (mkToolOutcome (Some args) (tool args)))
      end = Some o ∧ ran o = match before_tool r agent name a with Ok a' => Some a' | Err _ => None end) as Hproceed.
  { intros a. destruct (before_tool r agent name a); eexists; split; done. }
  revert arguments. induction outcomes as [|o outcomes IH]; intros arguments; cbn [gate execute_tool_call];
    (destruct (is_valid_tool_name name); cbn [negb]; [|by eexists]);
    (destruct (asks approval allowed name arguments); [|by destruct (Hproceed arguments) as (? & -> & ?); eauto]).
  - done.
  - destruct o as [|m|reason| |]; try by eexists.
    + destruct (Hproceed arguments) as (? & -> & ?); eauto.
    + specialize (IH (keep_context arguments m)). cbn in IH.
      destruct (gate approval allowed name outcomes (keep_context arguments m)).
      * destruct IH as (o & -> & ? & ?). eauto.
      * destruct IH as (o & -> & ?). eauto.
      * by rewrite IH.
Qed.

(** A chain that has changed no arguments got no change. *)
Lemma chain_unmodified r event k l c posts c' :
  chain r event k l c = (posts, Ok c') → modified_args c' = None →
  modified_args c = None ∧ ∀ args, args_after event args posts = args.
Proof.
  revert k c posts. induction l as [|w l IH]; intros k c posts; cbn [chain]; [by intros [= <- <-]|].
  destruct (negb (asked r event w)); [by apply IH|].
  destruct (webhook_chain_exceeded _ _).
  { destruct (on_chain_timeout r); [|done]. by intros [= <- <-]. }
  set (req := request event (cur_extra c)). set (reply := post k (cfg w) req).
  destruct (match reply with Some _ => _ | None => _ end) as [c1|reason] eqn:Hn; [|done].
  destruct (chain r event (S k) l c1) as [posts1 res] eqn:Hrest. intros [= <- ->] Hm.
  destruct (IH _ _ _ Hrest Hm) as [Hm1 Ha]. unfold args_after in *.
  enough (modified_args c = None ∧ ∀ args, args_step event args (mkPost w req reply) = args) as [Hc Hs].
  { split; [done|]. intros args. cbn [foldl]. rewrite Hs. apply Ha. }
  unfold args_step. cbn [p_reply]. destruct reply as [body|].
  - destruct (parse_decision body event); cbn [absorb] in Hn; simplify_eq; try done; by cbn in Hm1.
  - destruct (on_failure (cfg w)); by simplify_eq.
Qed.

(** How the arguments [args0] came to be let through.  Either no consent was
    needed for the call's own arguments.  Or the owner changed them
    zero or more times, each change being merged with the call's routing
    context, and then plainly approved the request that was made for exactly
    [args0].  Or the owner's last change, to a request that was still open,
    was no object: it went on as it is, since it has no channel that could be
    asked again. *)
Definition let_through (approval : option ApprovalConfig) (allowed : bool) (name : str)
    (outcomes : list (ApprovalOutcome V)) (arguments args0 : V) : Prop :=
  let changes edits := ApprovedWithModifiedArgs <$> edits in
  asks approval allowed name arguments = false ∧ args0 = arguments ∨
  (∃ edits more, outcomes = changes edits ++ Approved :: more ∧
     args0 = foldl keep_context arguments edits ∧
     gate approval allowed name (changes edits) arguments = Asks args0) ∨
  (∃ edits more a, outcomes = changes (edits ++ [args0]) ++ more ∧ jis_object args0 = false ∧
     gate approval allowed name (changes edits) arguments = Asks a).

Lemma gate_lets_through `{!JsonLaws V} approval allowed name outcomes arguments args0 :
  gate approval allowed name outcomes arguments = Runs args0 →
  let_through approval allowed name outcomes arguments args0.
Proof.
  unfold let_through. revert arguments. induction outcomes as [|o outcomes IH]; intros arguments; cbn [gate].
  { destruct (negb _); [done|]. destruct (asks _ _ _ _); [done|]. intros [= <-]. auto. }
  destruct (negb (is_valid_tool_name name)) eqn:Hv; [done|].
  destruct (asks approval allowed name arguments) eqn:Ha; [|intros [= <-]; auto].
  assert (gate approval allowed name [] arguments = Asks arguments) as Hask
    by (cbn [gate]; by rewrite Hv, Ha).
  destruct o as [|m|reason| |]; [|intros Hg|done..].
  { intros [= <-]. right. left. by exists [], outcomes. }
  assert (∀ l, gate approval allowed name (ApprovedWithModifiedArgs m :: l) arguments =
               gate approval allowed name l (keep_context arguments m)) as Hcons
    by (intros l; cbn [gate]; by rewrite Hv, Ha).
  right. destruct (IH _ Hg) as [[Hn ->]|[(edits & more & -> & Hf & He)|(edits & more & a & -> & Ho & He)]].
  - right. assert (jis_object m = false) as Ho.
    { apply not_true_iff_false. intros Ho. revert Hn. unfold asks in *.
      apply andb_prop in Ha as [Ha Hal]. apply andb_prop in Ha as [Hna Hi].
      by rewrite Hna, Hal, (keep_context_interactive _ _ Ho Hi). }
    rewrite (keep_context_dropped _ _ Ho). by exists [], outcomes, arguments.
  - left. exists (m :: edits), more. split_and!; [done|exact Hf|]. rewrite fmap_cons, Hcons. exact He.
  - right. exists (m :: edits), more, a. split_and!; [done|done|]. rewrite fmap_cons, Hcons. exact He.
Qed.

Lemma fire_continues (l : list (str * (HookEvent → HookAction))) event :
  fire_handlers l event = Continue → Forall (λ h, h.2 event = Continue) l.
Proof.
  induction l as [|[n h] l IH]; cbn [fire_handlers]; [constructor|].
  destruct (h event) eqn:Hh; [|done..]. intros Hl. constructor; auto.
Qed.

(** C5: What it takes for a tool to run: its name is a valid identifier; if
    the call needs the owner's consent, the arguments that go on are those of
    the request that was plainly approved, or a change by the owner that is no
    object (see [let_through]); every handler of the registry lets the call
    continue; and of the decision webhooks that are due (subscribed, matching
    and with a client) every one is asked, in the configured order, and
    either does not block the call or fails with [on_failure] open, or the
    chain, configured to fail open, ran out of its time budget after an
    initial part of them.  The tool then runs on those arguments as the
    webhooks left them, with the call's routing context put back if any
    webhook changed them.  Every other call ends without running the tool. *)
(* @prop refinement defs=execute_tool_call,before_tool,fire_handlers,fire_decision,Approval.keep_context witness=tool_call_gated_witness *)
Theorem tool_call_gated `{!JsonLaws V, !JsonEntriesLaws V} r approval allowed agent name ms tool outcomes arguments o args :
  execute_tool_call r approval allowed agent name ms tool outcomes arguments = Some o → ran o = Some args →
  let event := BeforeToolCall agent name in
  let due := filter (λ w, asked r event w = true) (webhooks r) in
  is_valid_tool_name name = true ∧
  Forall (λ h, h.2 event = Continue) (handlers r) ∧
  ∃ args0 posts, let_through approval allowed name outcomes arguments args0 ∧
    (fire_decision r event (jinsert (bs "tool_input") args0 jempty)).1 = posts ∧
    Forall (not_blocked event) posts ∧
    (p_webhook <$> posts = due ∨ on_chain_timeout r = Open ∧ (p_webhook <$> posts) `prefix_of` due) ∧
    (args = args0 ∧ args_after event args0 posts = args0 ∨
     args = keep_context args0 (args_after event args0 posts) ∧ jis_object args = true).
Proof.
  intros Ho Hran event due. pose proof (execute_gate r approval allowed agent name ms tool outcomes arguments) as Hg.
  cbn in Hg. rewrite Ho in Hg. destruct (gate approval allowed name outcomes arguments) as [a|t|a] eqn:Hgate; [| |done].
  2: { destruct Hg as (? & [= <-] & ?). congruence. }
  destruct Hg as (? & [= <-] & Hv & Hb). split; [done|].
  destruct (before_tool r agent name a) as [a'|] eqn:Hbt; [|congruence]. rewrite Hran in Hb. injection Hb as <-.
  destruct (fire_decision r event (jinsert (bs "tool_input") a jempty)) as [posts d] eqn:Hd.
  destruct (arguments_flow r agent name a posts d args Hd Hbt) as [_ Hflow].
  assert (is_dblock d = false) as Hnb.
  { unfold before_tool in Hbt. fold event in Hbt. rewrite Hd in Hbt. destruct (fire r event); [|done..]. by destruct d. }
  split; [apply fire_continues; unfold before_tool in Hbt; fold event in Hbt; by destruct (fire r event) eqn:Hf|].
  exists a, posts. rewrite Hd. destruct (decision_chain_complete r event _ posts d Hd Hnb) as [Hok Hdue].
  split_and!; [by apply gate_lets_through|done|done|exact Hdue|].
  destruct Hflow as [[-> ->]|Hflow]; [left; split; [done|]|by right].
  unfold fire_decision in Hd. destruct (chain r event 0 (webhooks r) _) as [posts' [c'|reason]] eqn:Hc; [|done].
  injection Hd as <- Hcon. eapply chain_unmodified; [exact Hc|].
  destruct (chain_args r agent name _ _ _ _ _ _ (holds_start a) Hc) as [_ (_ & _ & Ht & Hi & Hm)].
  destruct Hm as [Hm|[Hm _]]; [done|]. revert Hcon. unfold conclude. by rewrite Hm.
Qed.

(** ** Where a hook does not do what it is there for *)

(** A webhook that redacts results is undone by the failure of a later one
    that fails closed: the block has no meaning after the tool has run, and
    the model gets the result as the tool gave it. *)
Theorem failed_hook_drops_redaction agent name ms result redacted w1 w2 t :
  let event := AfterToolResult agent name ms in
  let r := mkHooks [] true false [w1; w2] 0 Open in
  asked r event w1 = true → asked r event w2 = true → on_failure (cfg w2) = Closed →
  post 0 (cfg w1) (request event (jinsert (bs "result") (jstring result) jempty)) = Some t →
  parse_decision t event = DTransformResult redacted →
  (∀ req, post 1 (cfg w2) req = None) →
  after_tool r agent name ms result = result.
Proof.
  intros event r H1 H2 Hf Hp Hd Hn. unfold after_tool, fire_decision. fold event. cbn [webhooks r chain].
  rewrite H1. cbn [negb]. unfold webhook_chain_exceeded. cbn [total_webhook_timeout_ms r Z.eqb negb andb cur_extra].
  rewrite Hp, Hd. cbn [absorb]. rewrite H2. cbn [negb]. by rewrite Hn, Hf.
Qed.

(** A webhook that fails closed and answers with an error page (any body that
    is not the expected JSON, whatever the status) lets the call through. *)
Theorem error_page_passes agent name args body w :
  let event := BeforeToolCall agent name in
  let r := mkHooks [] true false [w] 0 Open in
  asked r event w = true → on_failure (cfg w) = Closed → parse_response body = None →
  (∀ req, post 0 (cfg w) req = Some body) →
  before_tool r agent name args = Ok args.
Proof.
  intros event r Hw Hf Hb Hp. unfold before_tool, fire_decision. fold event. cbn [webhooks r chain fire handlers fire_handlers].
  rewrite Hw. cbn [negb]. unfold webhook_chain_exceeded. cbn [total_webhook_timeout_ms r Z.eqb negb andb cur_extra].
  rewrite Hp. unfold parse_decision. rewrite Hb. done.
Qed.
End hooks.
Arguments HookDecision V : clear implicits.
Arguments WebhookResponse V : clear implicits.
Arguments Post V : clear implicits.

(** ** Provenance *)

Lemma no_mark skip s : contains MARK (replace_go MARK BROKEN_MARK skip s) = false.
Proof.
  revert skip. induction s as [|c s IH]; intros skip; [done|]. cbn [replace_go]. destruct skip as [|skip]; [|apply IH].
  destruct (starts_with MARK (c :: s)) eqn:Hs.
  - unfold BROKEN_MARK. cbn [app bs String.list_ascii_of_string byte_seq fmap list_fmap].
    rewrite !contains_cons, IH. reflexivity.
  - rewrite contains_cons, IH, orb_false_r. apply not_true_is_false. intros Hm.
    apply not_true_iff_false in Hs. apply Hs. unfold MARK in *. cbn in Hm |- *.
    case_bool_decide; [|done].
    apply (replace_start MARK BROKEN_MARK (bs "hook:") s "["%char (bs "hook:") (bs "hook" ++ byte_seq [226; 128; 139] ++ bs ":"));
      [done|done| |exact Hm]. vm_compute. set_solver.
Qed.

(** What a webhook injects is marked with its host, and nothing in its
    answer can pass for the mark of another one: after the leading mark the
    text holds no such mark at all, and an answer that held none is kept as
    it is. *)
Theorem provenance_not_forged host body :
  ∃ clean, hook_provenance host body = MARK ++ host ++ bs "] " ++ clean ∧
    contains MARK clean = false ∧ (contains MARK body = false → clean = body).
Proof.
  exists (replace_all MARK BROKEN_MARK body). split_and!; [done|apply no_mark|apply replace_other].
Qed.

(** ** Concrete hooks *)

Definition toy_args : Jv.t := Jv.Obj [(bs "path", Jv.Str (bs "safe.txt"))].
(** Two answers the toy webhooks give, anything else is no JSON. *)
Definition toy_parse (body : str) : option (WebhookResponse Jv.t) :=
  if bool_decide (body = bs "stop") then Some (mkResponse (Some (bs "block")) (Some (bs "no")) None None None)
  else if bool_decide (body = bs "edit") then Some (mkResponse None None None (Some toy_args) None)
  else if bool_decide (body = bs "redact") then Some (mkResponse None None None None (Some (bs "[hook:x] ***")))
  else None.
Definition toy_hook (u : string) (on_fail : FailureMode) : CompiledWebhook :=
  mkCompiled (mkWebhook (bs u) [bs "BeforeToolCall"; bs "AfterToolResult"] Decision None on_fail 3000 false) None.
(** A webhook answers with its URL; [down] does not answer. *)
Definition toy_post (k : nat) (w : WebhookConfig) (req : Jv.t) : option str :=
  if bool_decide (url w = bs "down") then None else Some (url w).
Definition toy_hooks (l : list CompiledWebhook) : HookRegistry :=
  mkHooks [(bs "block", block_tools_hook [bs "rm"])] true false l 10000 Open.
Definition toy_before := before_tool toy_parse (λ u, u) (λ _, 0%Z) toy_post.
Definition toy_fire := fire_decision toy_parse (λ u, u) (λ _, 0%Z) toy_post.
Definition toy_call : Jv.t :=
  Jv.Obj [(CONTEXT, Jv.Obj [(bs "chat_id", Jv.Str (bs "7"))]); (bs "path", Jv.Str (bs "b.txt"))].
Definition toy_event : HookEvent := BeforeToolCall (bs "main") (bs "code_exec").
Definition toy_registry : HookRegistry := toy_hooks [toy_hook "down" Open; toy_hook "edit" Closed; toy_hook "ok" Closed].
Definition toy_extra : Jv.t := Jv.Obj [(bs "tool_input", toy_call)].

Lemma decision_chain_complete_witness :
  let posts := (toy_fire toy_registry toy_event toy_extra).1 in
  Forall (not_blocked toy_parse toy_event) posts ∧
  let due := filter (λ w, asked toy_registry toy_event w = true) (webhooks toy_registry) in
  (p_webhook <$> posts = due ∨ Open = Open ∧ (p_webhook <$> posts) `prefix_of` due).
Proof.
  apply (decision_chain_complete toy_parse (λ u, u) (λ _, 0%Z) toy_post toy_registry toy_event toy_extra _
           (DModifyArgs toy_args)); by vm_compute.
Defined.

Lemma arguments_flow_witness :
  let posts := (toy_fire toy_registry toy_event toy_extra).1 in
  (∀ pre p post, posts = pre ++ p :: post →
     jget (p_request p) (bs "tool_input") = Some (args_after toy_parse toy_event toy_call pre)) ∧
  (keep_context toy_call toy_args = toy_call ∧ DModifyArgs toy_args = DContinue ∨
   keep_context toy_call toy_args = keep_context toy_call (args_after toy_parse toy_event toy_call posts) ∧
   jis_object (keep_context toy_call toy_args) = true).
Proof.
  apply (arguments_flow toy_parse (λ u, u) (λ _, 0%Z) toy_post toy_registry (bs "main") (bs "code_exec") toy_call
           _ (DModifyArgs toy_args)); by vm_compute.
Defined.

Definition toy_policy : option ApprovalConfig := Some (mkApproval true [bs "code_*"] [] 300).
Definition toy_execute (outcomes : list (ApprovalOutcome Jv.t)) : option (ToolOutcome (V:=Jv.t)) :=
  execute_tool_call toy_parse (λ u, u) (λ _, 0%Z) toy_post toy_registry toy_policy false (bs "main") (bs "code_exec") 5
    (λ _, bs "done") outcomes toy_call.
Example toy_rejected : text <$> toy_execute [Rejected (bs "no")] = Some (bs "no").
Proof. by vm_compute. Qed.
Definition toy_change : Jv.t := Jv.Obj [(bs "path", Jv.Str (bs "c.txt"))].
Definition toy_outcomes : list (ApprovalOutcome Jv.t) := [ApprovedWithModifiedArgs toy_change; Approved].
Lemma tool_call_gated_witness :
  is_valid_tool_name (bs "code_exec") = true ∧
  Forall (λ h, h.2 toy_event = Continue) (handlers toy_registry) ∧
  ∃ args0 posts, let_through toy_policy false (bs "code_exec") toy_outcomes toy_call args0 ∧
    (toy_fire toy_registry toy_event (jinsert (bs "tool_input") args0 jempty)).1 = posts ∧
    Forall (not_blocked toy_parse toy_event) posts ∧
    let due := filter (λ w, asked toy_registry toy_event w = true) (webhooks toy_registry) in
    (p_webhook <$> posts = due ∨ Open = Open ∧ (p_webhook <$> posts) `prefix_of` due) ∧
    (keep_context toy_call toy_args = args0 ∧ args_after toy_parse toy_event args0 posts = args0 ∨
     keep_context toy_call toy_args = keep_context args0 (args_after toy_parse toy_event args0 posts) ∧
     jis_object (keep_context toy_call toy_args) = true).
Proof.
  apply (tool_call_gated toy_parse (λ u, u) (λ _, 0%Z) toy_post toy_registry toy_policy false (bs "main") (bs "code_exec") 5
           (λ _, bs "done") toy_outcomes toy_call (default (mkToolOutcome None []) (toy_execute toy_outcomes))); by vm_compute.
Defined.
