(* ===== verification/ToolLoop.v ===== *)
(** * Loop detection

    [agent/tool_loop.rs] (the detector and its configuration) and
    [agent/pipeline/tool_loop_helpers.rs] (the nudge bookkeeping).

    [DefaultHasher] leaves its algorithm unspecified, and the JSON printer is
    a library: [hash_call] is a parameter of the section.  Counters are
    [nat]: they count calls of one turn. *)
From S2P Require Import Prelude Json Messages.

(* @src opex-core/src/agent/tool_loop.rs 8-27 ToolLoopConfig *)
Record ToolLoopConfig := mkToolLoopConfig {
  max_iterations : nat;
  compact_on_overflow : bool;
  detect_loops : bool;
  cfg_break_threshold : nat;
  max_consecutive_failures : nat;
  max_auto_continues : Z;
  max_loop_nudges : nat;
  cfg_error_break_threshold : nat;
  cfg_loop_window_size : nat;
  cfg_loop_window_repeat_threshold : nat;
}.

(* @src opex-core/src/agent/tool_loop.rs 30-30 DEFAULT_LOOP_WINDOW_SIZE *)
Definition DEFAULT_LOOP_WINDOW_SIZE : nat := 24.
(* @src opex-core/src/agent/tool_loop.rs 32-32 DEFAULT_LOOP_WINDOW_REPEAT_THRESHOLD *)
Definition DEFAULT_LOOP_WINDOW_REPEAT_THRESHOLD : nat := 6.

(** [usize::MAX] is [umax 64]. *)
(* @src opex-core/src/agent/tool_loop.rs 35-37 effective_max_iterations *)
Definition effective_max_iterations (c : ToolLoopConfig) : Z :=
  if max_iterations c =? 0 then umax 64 else Z.of_nat (max_iterations c).

(* @src opex-core/src/agent/tool_loop.rs 40-55 Default *)
Definition default_config : ToolLoopConfig :=
  {| max_iterations := 50;
     compact_on_overflow := true;
     detect_loops := true;
     cfg_break_threshold := 10;
     max_consecutive_failures := 3;
     max_auto_continues := 5;
     max_loop_nudges := 3;
     cfg_error_break_threshold := 3;
     cfg_loop_window_size := DEFAULT_LOOP_WINDOW_SIZE;
     cfg_loop_window_repeat_threshold := DEFAULT_LOOP_WINDOW_REPEAT_THRESHOLD |}.

(** The settings of the agent's TOML file. *)
(* @src opex-core/src/config/mod.rs 1187-1217 ToolLoopSettings *)
Record ToolLoopSettings := mkToolLoopSettings {
  s_max_iterations : nat;
  s_compact_on_overflow : bool;
  s_detect_loops : bool;
  s_warn_threshold : nat;
  s_break_threshold : nat;
  s_max_consecutive_failures : nat;
  s_max_auto_continues : Z;
  s_max_loop_nudges : nat;
  s_ngram_cycle_length : nat;
  s_error_break_threshold : option nat;
}.

(* @src opex-core/src/agent/tool_loop.rs 238-251 from *)
Definition config_of_settings (s : ToolLoopSettings) : ToolLoopConfig :=
  {| max_iterations := s_max_iterations s;
     compact_on_overflow := s_compact_on_overflow s;
     detect_loops := s_detect_loops s;
     cfg_break_threshold := s_break_threshold s;
     max_consecutive_failures := s_max_consecutive_failures s;
     max_auto_continues := s_max_auto_continues s;
     max_loop_nudges := s_max_loop_nudges s;
     cfg_error_break_threshold := default 3 (s_error_break_threshold s);
     cfg_loop_window_size := DEFAULT_LOOP_WINDOW_SIZE;
     cfg_loop_window_repeat_threshold := DEFAULT_LOOP_WINDOW_REPEAT_THRESHOLD |}.

(* @src opex-core/src/agent/tool_loop.rs 58-61 LoopStatus *)
Inductive LoopStatus := LoopOk | Break (reason : str).

(** The deques hold their oldest entry first, as in the code. *)
(* @src opex-core/src/agent/tool_loop.rs 64-76 LoopDetector *)
Record LoopDetector := mkDetector {
  recent : list Z;
  recent_names : list str;
  consecutive : nat;
  last_hash : option Z;
  break_threshold : nat;
  tool_counts : gmap str nat;
  consecutive_errors : nat;
  last_error_tool : option str;
  error_break_threshold : nat;
  loop_window_size : nat;
  loop_window_repeat_threshold : nat;
}.

(* @src opex-core/src/agent/tool_loop.rs 79-93 new *)
Definition new (config : ToolLoopConfig) : LoopDetector :=
  {| recent := []; recent_names := []; consecutive := 0; last_hash := None;
     break_threshold := cfg_break_threshold config;
     tool_counts := ∅; consecutive_errors := 0; last_error_tool := None;
     error_break_threshold := cfg_error_break_threshold config;
     loop_window_size := cfg_loop_window_size config;
     loop_window_repeat_threshold := cfg_loop_window_repeat_threshold config |}.

Definition count_hash (h : Z) (l : list Z) : nat :=
  length (List.filter (Z.eqb h) l).

(* @src opex-core/src/agent/tool_loop.rs 98-108 window_repeat_count *)
Definition window_repeat_count (d : LoopDetector) (hash : Z) : nat :=
  if loop_window_size d =? 0 then 0
  else count_hash hash (take (loop_window_size d) (reverse (recent d))).

(** The update of [consecutive] and [last_hash], and of the bounded deques. *)
Definition note_hash (tool_name : str) (hash : Z) (d : LoopDetector) : LoopDetector :=
  let same := bool_decide (last_hash d = Some hash) in
  let full := 64 <=? length (recent d) in
  {| recent := (if full then tail (recent d) else recent d) ++ [hash];
     recent_names := (if full then tail (recent_names d) else recent_names d) ++ [tool_name];
     consecutive := if same then S (consecutive d) else 1;
     last_hash := if same then last_hash d else Some hash;
     break_threshold := break_threshold d;
     tool_counts := tool_counts d;
     consecutive_errors := consecutive_errors d;
     last_error_tool := last_error_tool d;
     error_break_threshold := error_break_threshold d;
     loop_window_size := loop_window_size d;
     loop_window_repeat_threshold := loop_window_repeat_threshold d |}.

Definition set_errors (n : nat) (t : option str) (d : LoopDetector) : LoopDetector :=
  mkDetector (recent d) (recent_names d) (consecutive d) (last_hash d)
    (break_threshold d) (tool_counts d) n t (error_break_threshold d)
    (loop_window_size d) (loop_window_repeat_threshold d).
Definition bump_count (tool_name : str) (d : LoopDetector) : LoopDetector :=
  mkDetector (recent d) (recent_names d) (consecutive d) (last_hash d)
    (break_threshold d)
    (<[tool_name := S (default 0 (tool_counts d !! tool_name))]> (tool_counts d))
    (consecutive_errors d) (last_error_tool d) (error_break_threshold d)
    (loop_window_size d) (loop_window_repeat_threshold d).

(* @src opex-core/src/agent/tool_loop.rs 179-195 record_result *)
Definition record_result (d : LoopDetector) (tool_name : str) (success : bool)
    : LoopDetector * LoopStatus :=
  if success then (set_errors 0 None d, LoopOk) else
  let d' :=
    if bool_decide (last_error_tool d = Some tool_name)
    then set_errors (S (consecutive_errors d)) (last_error_tool d) d
    else set_errors 1 (Some tool_name) d in
  if error_break_threshold d' <=? consecutive_errors d'
  then (d', Break (bs "tool '" ++ tool_name ++ bs "' failed " ++
                   dec (consecutive_errors d') ++ bs " times consecutively"))
  else (d', LoopOk).

(* @src opex-core/src/agent/tool_loop.rs 160-176 replay_from_timeline *)
Definition replay_from_timeline (d : LoopDetector) (tool_name : str)
    (args_hash : option Z) (success : bool) : LoopDetector :=
  let d1 := match args_hash with
            | Some hash => note_hash tool_name hash d
            | None => d
            end in
  fst (record_result d1 tool_name success).

(* @src opex-db/src/session_timeline.rs 136-142 TimelineToolEvent *)
Record TimelineToolEvent := mkEvent {
  ev_tool_name : str;
  ev_success : bool;
  ev_args_hash : option str;
}.

(* @src opex-core/src/agent/tool_loop.rs 205-215 warm_up_from_timeline *)
Definition warm_up_from_timeline (config : ToolLoopConfig)
    (events : list TimelineToolEvent) : LoopDetector :=
  foldl (λ detector e,
    let hash := ev_args_hash e ≫= parse_hex in
    replay_from_timeline detector (ev_tool_name e) hash (ev_success e))
    (new config) events.

(* @src opex-core/src/agent/tool_loop.rs 228-228 iteration_count *)
Definition iteration_count (d : LoopDetector) : nat :=
  map_fold (λ _ n acc, n + acc) 0 (tool_counts d).

Section detector.
Context {V : Type} (hash_call : str → V → Z).

(* @src opex-core/src/agent/tool_loop.rs 111-132 check_limits *)
Definition check_limits (d : LoopDetector) (tool_name : str) (args : V) : LoopStatus :=
  if bool_decide (recent d = []) then LoopOk else
  let hash := hash_call tool_name args in
  if bool_decide (last_hash d = Some hash) && (break_threshold d <=? consecutive d + 1)
  then Break (bs "tool '" ++ tool_name ++ bs "' called " ++
              dec (consecutive d + 1) ++ bs " times consecutively")
  else if 0 <? loop_window_repeat_threshold d then
    let occurrences := window_repeat_count d hash + 1 in
    if loop_window_repeat_threshold d <=? occurrences
    then Break (bs "tool '" ++ tool_name ++ bs "' called " ++ dec occurrences ++
                bs " times with identical args within the last " ++
                dec (loop_window_size d) ++ bs " calls (alternating loop)")
    else LoopOk
  else LoopOk.

(* @src opex-core/src/agent/tool_loop.rs 135-154 record_execution *)
Definition record_execution (d : LoopDetector) (tool_name : str) (args : V)
    (success : bool) : LoopDetector * LoopStatus :=
  let hash := hash_call tool_name args in
  record_result (note_hash tool_name hash (bump_count tool_name d)) tool_name success.
End detector.

(** ** Nudges *)

(* @src opex-core/src/agent/pipeline/tool_loop_helpers.rs 16-24 build_loop_nudge_message *)
Definition build_loop_nudge_message (reason : option str) : str :=
  let nudge_desc := default (bs "repeating pattern") reason in
  bs "LOOP DETECTED: You have repeated the same sequence of actions (" ++ nudge_desc ++
  bs "). Change your approach entirely. If the task is too large for a single session, tell the user and suggest breaking it into smaller steps. Do NOT retry the same approach.".

(** The messages, the nudge counter and [loop_broken] of the decision. *)
(* @src opex-core/src/agent/pipeline/tool_loop_helpers.rs 58-100 apply_loop_nudge *)
Definition apply_loop_nudge {V} (messages : list (Message V))
    (outcome_loop_break : option (option str)) (loop_nudge_count max_loop_nudges : nat)
    : list (Message V) * nat * bool :=
  match outcome_loop_break with
  | None => (messages, loop_nudge_count, false)
  | Some reason =>
      if loop_nudge_count <? max_loop_nudges
      then (messages ++ [text_message System (build_loop_nudge_message reason)],
            S loop_nudge_count, false)
      else (messages, loop_nudge_count, true)
  end.

(** ** The detector as a function of the history

    The specification keeps the whole history of a session, newest call
    first; the detector must be its summary. *)

(** The length of the run of equal elements at the head of a list. *)
Fixpoint run_of {A} `{EqDecision A} (x : A) (l : list A) : nat :=
  match l with
  | y :: r => if bool_decide (y = x) then S (run_of x r) else 0
  | [] => 0
  end.
Definition head_run {A} `{EqDecision A} (l : list A) : nat :=
  match l with x :: r => S (run_of x r) | [] => 0 end.

Lemma run_of_replicate {A} `{EqDecision A} (x : A) n l :
  run_of x (replicate n x ++ l) = n + run_of x l.
Proof. induction n; simpl; [done|]. rewrite bool_decide_eq_true_2 by done. by f_equal. Qed.

(** The failures of one tool at the head of the history. *)
Definition error_streak (h : list (str * bool)) : nat * option str :=
  match h with
  | (n, false) :: r => (S (run_of (n, false) r), Some n)
  | _ => (0, None)
  end.

Definition counts (names : list str) : gmap str nat :=
  foldr (λ n m, <[n := S (default 0 (m !! n))]> m) ∅ names.

(** The detector that a history of (name, hash, success) should leave. *)
Definition detector_of (c : ToolLoopConfig) (h : list (str * Z * bool)) : LoopDetector :=
  let hs := (λ e, e.1.2) <$> h in
  let es := error_streak ((λ e, (e.1.1, e.2)) <$> h) in
  {| recent := reverse (take 64 hs);
     recent_names := reverse (take 64 ((λ e, e.1.1) <$> h));
     consecutive := head_run hs;
     last_hash := head hs;
     break_threshold := cfg_break_threshold c;
     tool_counts := counts ((λ e, e.1.1) <$> h);
     consecutive_errors := es.1;
     last_error_tool := es.2;
     error_break_threshold := cfg_error_break_threshold c;
     loop_window_size := cfg_loop_window_size c;
     loop_window_repeat_threshold := cfg_loop_window_repeat_threshold c |}.

Lemma push_bounded {A} (k : nat) (x : A) (l : list A) :
  (if S k <=? length (reverse (take (S k) l)) then tail (reverse (take (S k) l))
   else reverse (take (S k) l)) ++ [x] = reverse (take (S k) (x :: l)).
Proof.
  change (take (S k) (x :: l)) with (x :: take k l). rewrite reverse_cons. f_equal.
  rewrite length_reverse, length_take.
  case_if; bool_hyps.
  - destruct (lookup_lt_is_Some_2 l k) as [y Hy]; [lia|].
    by rewrite (take_S_r _ _ y), reverse_app.
  - f_equal. rewrite !take_ge by lia. done.
Qed.

Lemma error_streak_step n ok h :
  error_streak ((n, ok) :: h) =
  if ok then (0, None)
  else if bool_decide ((error_streak h).2 = Some n)
       then (S (error_streak h).1, (error_streak h).2) else (1, Some n).
Proof.
  destruct ok; [done|]. simpl. destruct h as [|[m []] h]; simpl; [done| |].
  - by rewrite bool_decide_eq_false_2.
  - destruct (decide (m = n)) as [->|Hne].
    + by rewrite !bool_decide_eq_true_2.
    + by rewrite !bool_decide_eq_false_2 by congruence.
Qed.

Lemma head_run_step (x : Z) (l : list Z) :
  head_run (x :: l) = if bool_decide (head l = Some x) then S (head_run l) else 1.
Proof.
  destruct l as [|y l]; simpl; [done|]. destruct (decide (y = x)) as [->|].
  - by rewrite !bool_decide_eq_true_2.
  - by rewrite !bool_decide_eq_false_2 by congruence.
Qed.

(** Noting a result on a summary extends the error streak. *)
Lemma record_result_state d n ok h :
  (consecutive_errors d, last_error_tool d) = error_streak h →
  fst (record_result d n ok) =
  set_errors (error_streak ((n, ok) :: h)).1 (error_streak ((n, ok) :: h)).2 d.
Proof.
  intros He. rewrite error_streak_step, <-He. unfold record_result. cbn [fst snd].
  destruct ok; [done|]. repeat case_match; done.
Qed.

(** The hash part of one step. *)
Lemma note_hash_state c h n hash ok :
  note_hash n hash (detector_of c h) =
  let d := detector_of c ((n, hash, ok) :: h) in
  set_errors (error_streak ((λ e, (e.1.1, e.2)) <$> h)).1
             (error_streak ((λ e, (e.1.1, e.2)) <$> h)).2
    (mkDetector (recent d) (recent_names d) (consecutive d) (last_hash d)
       (break_threshold d) (tool_counts (detector_of c h)) 0 None
       (error_break_threshold d) (loop_window_size d) (loop_window_repeat_threshold d)).
Proof.
  unfold note_hash, detector_of, set_errors. cbn -[take reverse Nat.leb head_run error_streak].
  rewrite push_bounded, head_run_step.
  assert (length (reverse (take 64 ((λ e, e.1.2) <$> h))) =
          length (reverse (take 64 ((λ e, e.1.1) <$> h)))) as ->.
  { by rewrite !length_reverse, !length_take, !length_fmap. }
  rewrite push_bounded. f_equal. case_bool_decide; done.
Qed.

(** The sum of the counters. *)
Lemma counts_sum names : map_fold (λ _ n acc, n + acc) 0 (counts names) = length names.
Proof.
  assert (∀ (m : gmap str nat) k,
    map_fold (λ _ n acc, n + acc) 0 m =
    default 0 (m !! k) + map_fold (λ _ n acc, n + acc) 0 (delete k m)) as Hd.
  { intros m k. destruct (m !! k) as [v|] eqn:Hk; simpl.
    - rewrite <-(insert_delete_id m k v Hk) at 1. apply map_fold_insert_L; [lia|].
      apply lookup_delete_eq.
    - by rewrite delete_id. }
  induction names as [|n names IH]; [done|]. cbn [counts foldr length].
  fold (counts names). rewrite (Hd _ n), lookup_insert_eq, delete_insert_eq.
  rewrite (Hd _ n) in IH. simpl. lia.
Qed.

Section detector_spec.
Context {V : Type} (hash_call : str → V → Z).
Implicit Types (calls : list (str * V * bool)) (c : ToolLoopConfig).

Definition hashed (e : str * V * bool) : str * Z * bool :=
  (e.1.1, hash_call e.1.1 e.1.2, e.2).

(** The calls of a session recorded one after the other. *)
Definition record_all (d : LoopDetector) calls : LoopDetector :=
  foldl (λ d e, fst (record_execution hash_call d e.1.1 e.1.2 e.2)) d calls.

Lemma record_execution_state c h n a ok :
  fst (record_execution hash_call (detector_of c h) n a ok) =
  detector_of c ((n, hash_call n a, ok) :: h).
Proof.
  unfold record_execution.
  rewrite (record_result_state _ _ _ ((λ e, (e.1.1, e.2)) <$> h)).
  - change (note_hash n (hash_call n a) (bump_count n (detector_of c h))) with
      (bump_count n (note_hash n (hash_call n a) (detector_of c h))).
    rewrite (note_hash_state _ _ _ _ ok). done.
  - simpl. by destruct (error_streak _).
Qed.

Lemma record_all_state c calls :
  record_all (new c) calls = detector_of c (reverse (hashed <$> calls)).
Proof.
  induction calls as [|[[n a] ok] calls IH] using rev_ind; [done|].
  unfold record_all in *. rewrite foldl_snoc, IH. simpl.
  rewrite record_execution_state, fmap_app, reverse_app. done.
Qed.

Lemma check_limits_ok c h n a :
  check_limits hash_call (detector_of c h) n a = LoopOk ↔
  h = [] ∨
  let hs := (λ e, e.1.2) <$> h in
  (head hs = Some (hash_call n a) → head_run hs + 1 < cfg_break_threshold c) ∧
  (0 < cfg_loop_window_repeat_threshold c →
   count_hash (hash_call n a) (take (cfg_loop_window_size c) (take 64 hs)) + 1
   < cfg_loop_window_repeat_threshold c).
Proof.
  unfold check_limits, window_repeat_count.
  cbn [detector_of recent last_hash consecutive break_threshold loop_window_size
       loop_window_repeat_threshold].
  rewrite reverse_involutive. set (hs := (λ e, e.1.2) <$> h). cbv zeta.
  case_bool_decide as Hr.
  { split; [|done]. intros _. left. apply (f_equal length) in Hr. simpl in Hr.
    rewrite length_reverse, length_take in Hr. unfold hs in Hr.
    rewrite length_fmap in Hr. destruct h; simpl in *; [done|lia]. }
  assert (h ≠ []) as Hh by (by intros ->).
  assert ((if cfg_loop_window_size c =? 0 then 0 else
    count_hash (hash_call n a) (take (cfg_loop_window_size c) (take 64 hs))) =
    count_hash (hash_call n a) (take (cfg_loop_window_size c) (take 64 hs))) as ->.
  { case_if; bool_hyps; [|done]. by rewrite Hif. }
  case_bool_decide as Hlast; cbn [andb].
  - destruct (_ <=? _) eqn:H1; bool_hyps.
    { split; [done|]. intros [?|[H2 _]]; [done|]. specialize (H2 Hlast). lia. }
    destruct (0 <? _) eqn:H2; bool_hyps; [|split; [right; split; [done|lia]|done]].
    destruct (_ <=? _) eqn:H3 in |- *; bool_hyps.
    + split; [done|]. intros [?|[_ H4]]; [done|]. specialize (H4 H2). lia.
    + split; [|done]. intros _. right. split; [done|lia].
  - destruct (0 <? _) eqn:H2; bool_hyps; [|split; [right; split; [done|lia]|done]].
    destruct (_ <=? _) eqn:H3 in |- *; bool_hyps.
    + split; [done|]. intros [?|[_ H4]]; [done|]. specialize (H4 H2). lia.
    + split; [|done]. intros _. right. split; [done|lia].
Qed.

(** A session that records a call only after [check_limits] let it pass;
    newest call first. *)
Inductive guarded_run c : LoopDetector → list (str * V * bool) → Prop :=
| gr_start : guarded_run c (new c) []
| gr_step d calls n a ok :
    guarded_run c d calls →
    check_limits hash_call d n a = LoopOk →
    guarded_run c (fst (record_execution hash_call d n a ok)) ((n, a, ok) :: calls).

Lemma guarded_run_state c d calls :
  guarded_run c d calls → d = detector_of c (hashed <$> calls).
Proof.
  induction 1 as [|d calls n a ok _ IH _]; [done|]. subst d.
  by rewrite record_execution_state.
Qed.

(** C30: The detector is a summary of the whole session: after any sequence of
    recorded calls, its deques hold the last 64 calls, its counters the run
    of identical calls and the streak of failures of one tool that end the
    sequence, and the tool counters add up to the number of calls. *)
(* @prop refinement defs=record_execution,record_result,LoopDetector,iteration_count *)
Theorem detector_refines_history c calls :
  record_all (new c) calls = detector_of c (reverse (hashed <$> calls)) ∧
  iteration_count (record_all (new c) calls) = length calls.
Proof.
  rewrite record_all_state. split; [done|]. unfold iteration_count. simpl.
  by rewrite counts_sum, length_fmap, length_reverse, length_fmap.
Qed.

Lemma head_run_prefix (x : Z) n l : n ≤ head_run (replicate n x ++ l).
Proof. destruct n; simpl; [lia|]. rewrite run_of_replicate. lia. Qed.

(** Loops are cut. In a session that asks [check_limits] before every
    call, no identical call is made [break_threshold] times in a row (twice,
    if the threshold is below 2), and no call is one of
    [loop_window_repeat_threshold] identical ones within the window that
    precedes it, however other calls interleave. *)
Theorem loops_are_cut c d calls before x rest :
  guarded_run c d calls →
  (λ e, hash_call e.1.1 e.1.2) <$> calls = before ++ rest →
  (∀ n r, rest = replicate n x ++ r → n ≤ 1 ∨ n < cfg_break_threshold c) ∧
  (∀ r, rest = x :: r → r ≠ [] → 0 < cfg_loop_window_repeat_threshold c →
    count_hash x (take (cfg_loop_window_size c) (take 64 r)) + 1
    < cfg_loop_window_repeat_threshold c).
Proof.
  intros Hrun. revert before rest. induction Hrun as [|d calls n a ok Hrun IH Hc].
  { intros before rest Heq. symmetry in Heq. apply app_eq_nil in Heq as [_ ->].
    split; [|done]. intros [|n] r ?; [lia|done]. }
  intros [|b before] rest Heq; [|simplify_eq/=; by eapply IH]. rewrite fmap_cons in Heq.
  change ([] ++ rest) with rest in Heq. subst rest.
  apply guarded_run_state in Hrun as ->. apply check_limits_ok in Hc.
  rewrite <-list_fmap_compose in Hc. change ((λ e, e.1.2) ∘ hashed) with
    (λ e : str * V * bool, hash_call e.1.1 e.1.2) in Hc.
  set (hs := (λ e, hash_call e.1.1 e.1.2) <$> calls) in *.
  assert (hs = [] ∨ ((head hs = Some (hash_call n a) → head_run hs + 1 < cfg_break_threshold c) ∧
    (0 < cfg_loop_window_repeat_threshold c →
     count_hash (hash_call n a) (take (cfg_loop_window_size c) (take 64 hs)) + 1
     < cfg_loop_window_repeat_threshold c))) as Hc'.
  { destruct Hc as [Hc|Hc]; [left|by right]. unfold hs. by destruct calls. }
  clear Hc IH. clearbody hs. split.
  - intros [|[|k]] r Hr; [lia|lia|right]. simpl in Hr. injection Hr as Hx Hr.
    destruct Hc' as [Hnil|[Hc' _]]; [by rewrite Hnil in Hr|].
    rewrite Hx in Hc'. specialize (Hc' ltac:(by rewrite Hr)).
    pose proof (head_run_prefix x (S k) r) as Hp.
    change (replicate (S k) x ++ r) with (x :: replicate k x ++ r) in Hp.
    rewrite <-Hr in Hp. lia.
  - intros r Hr Hne Hthr. injection Hr as Hx Hr. rewrite <-Hr in *.
    destruct Hc' as [Hnil|[_ Hc']]; [done|]. rewrite <-Hx. auto.
Qed.

(** The timeline row of a recorded call. *)
Definition event_of (e : str * V * bool) : TimelineToolEvent :=
  mkEvent e.1.1 e.2 (Some (hex (hash_call e.1.1 e.1.2))).

(** A crash does not hide a loop: replaying the timeline rows of a
    session (printed hashes, parsed back) gives the detector of the live
    session, up to the per-tool counters, so both take the same decision on
    every next call. *)
Theorem warm_up_resumes c calls :
  (∀ n a, in_u 64 (hash_call n a)) →
  let live := record_all (new c) calls in
  let warm := warm_up_from_timeline c (event_of <$> calls) in
  warm = mkDetector (recent live) (recent_names live) (consecutive live) (last_hash live)
    (break_threshold live) ∅ (consecutive_errors live) (last_error_tool live)
    (error_break_threshold live) (loop_window_size live) (loop_window_repeat_threshold live) ∧
  ∀ n a, check_limits hash_call warm n a = check_limits hash_call live n a.
Proof.
  intros Hw. cbv zeta. rewrite record_all_state.
  assert (warm_up_from_timeline c (event_of <$> calls) =
    let d := detector_of c (reverse (hashed <$> calls)) in
    mkDetector (recent d) (recent_names d) (consecutive d) (last_hash d)
      (break_threshold d) ∅ (consecutive_errors d) (last_error_tool d)
      (error_break_threshold d) (loop_window_size d) (loop_window_repeat_threshold d)) as ->;
    [|split; [done|reflexivity]].
  induction calls as [|[[n a] ok] calls IH] using rev_ind; [done|].
  rewrite !fmap_app. unfold warm_up_from_timeline in *. cbn [fmap list_fmap].
  rewrite foldl_snoc, IH, reverse_app. cbn [event_of ev_args_hash ev_tool_name ev_success].
  change (Some (hex ?x) ≫= parse_hex) with (parse_hex (hex x)).
  rewrite parse_hex_hex by done. unfold replay_from_timeline.
  set (h := reverse (hashed <$> calls)).
  rewrite (record_result_state _ _ _ ((λ e, (e.1.1, e.2)) <$> h));
    [|simpl; by destruct (error_streak _)].
  pose proof (note_hash_state c h n (hash_call n a) ok) as Hn. simpl in Hn. simpl.
  unfold note_hash in *. simpl in *. injection Hn as H1 H2 H3 H4.
  unfold set_errors. simpl. rewrite H1, H2, H3, H4. done.
Qed.
End detector_spec.

(** The outcomes of the batches of one turn, up to the first break. *)
Fixpoint nudge_all {V} (messages : list (Message V)) (outcomes : list (option (option str)))
    (n max : nat) : list (Message V) * nat * bool :=
  match outcomes with
  | [] => (messages, n, false)
  | o :: os =>
      match apply_loop_nudge messages o n max with
      | (ms, n', true) => (ms, n', true)
      | (ms, n', false) => nudge_all ms os n' max
      end
  end.

Definition breaks (outcomes : list (option (option str))) : list (option str) := omap id outcomes.

(** A turn tolerates at most [max_loop_nudges] loop breaks: each of the
    first ones appends one system message with its reason, the next one ends
    the turn and appends nothing, and without further breaks the turn goes
    on. *)
Theorem nudges_bounded {V} (messages : list (Message V)) outcomes n max :
  n ≤ max →
  nudge_all messages outcomes n max =
  (messages ++ ((λ r, text_message System (build_loop_nudge_message r)) <$>
                take (max - n) (breaks outcomes)),
   Nat.min max (n + length (breaks outcomes)),
   max <? n + length (breaks outcomes)).
Proof.
  revert messages n. induction outcomes as [|o os IH]; intros ms n Hn; simpl.
  - rewrite take_nil. simpl. rewrite app_nil_r.
    destruct (Nat.ltb_spec max (n + 0)); [lia|]. do 2 f_equal. lia.
  - destruct o as [r|]; simpl; [|by rewrite IH].
    destruct (Nat.ltb_spec n max) as [Hlt|Hge]; simpl.
    + rewrite IH by lia. destruct (max - n) as [|k] eqn:Hk; [lia|].
      replace (max - S n) with k by lia. simpl.
      rewrite <-app_assoc. simpl. rewrite <-plus_n_Sm. simpl. done.
    + replace (max - n) with 0 by lia. simpl. rewrite app_nil_r.
      destruct (Nat.ltb_spec max (n + S (length (breaks os)))); [|lia].
      do 2 f_equal. unfold breaks in *. lia.
Qed.

(** *** Witnesses *)

(** A toy hash: the length of the name. *)
Definition toy_hash (n : str) (a : nat) : Z := Z.of_nat (length n mod 7 + a mod 5).

Example alternating_ex :
  check_limits toy_hash
    (record_all toy_hash (new default_config)
       (concat (replicate 5 [(bs "a", 0, true); (bs "bb", 0, true)]))) (bs "a") 0 =
  Break (bs "tool 'a' called 6 times with identical args within the last 24 calls (alternating loop)").
Proof. vm_compute. reflexivity. Qed.

Lemma loops_are_cut_witness :
  1 ≤ 1 ∨ 1 < cfg_break_threshold default_config.
Proof.
  assert (guarded_run toy_hash default_config
    (fst (record_execution toy_hash (new default_config) (bs "a") 0 true))
    [(bs "a", 0, true)]) as Hrun
    by (constructor; [constructor|reflexivity]).
  destruct (loops_are_cut toy_hash _ _ _ [] 1%Z [1%Z] Hrun eq_refl) as [H _].
  exact (H 1 [] eq_refl).
Defined.

Lemma warm_up_witness :
  (∃ n, toy_hash n 3 = 4%Z) ∧
  consecutive (warm_up_from_timeline default_config
     (event_of toy_hash <$> [(bs "fs", 1, true); (bs "fs", 1, false)])) = 2.
Proof.
  split; [by exists (bs "x")|].
  assert (∀ n a, in_u 64 (toy_hash n a)) as Hw.
  { intros n a. unfold in_u, umax, toy_hash.
    pose proof (Nat.mod_upper_bound (length n) 7). pose proof (Nat.mod_upper_bound a 5). lia. }
  destruct (warm_up_resumes toy_hash default_config
              [(bs "fs", 1, true); (bs "fs", 1, false)] Hw) as [-> _].
  reflexivity.
Defined.

Lemma nudges_bounded_witness :
  0 ≤ 1 ∧
  snd (nudge_all (V:=Jv.t) [] [Some None; None; Some (Some (bs "x"))] 0 1) = true.
Proof.
  assert (0 ≤ 1) as Hle by lia. split; [exact Hle|].
  rewrite (nudges_bounded (V:=Jv.t) [] [Some None; None; Some (Some (bs "x"))] 0 1 Hle).
  reflexivity.
Defined.
