(* ===== verification/LlmErrors.v ===== *)
(** * LLM errors: classification, retry delays and cooldowns

    [agent/providers/error.rs] (the typed error), [agent/error_classify.rs]
    (classes and backoff), [agent/localization.rs] (the banners),
    [agent/cli_backend/cooldown.rs] and [agent/provider_cooldown.rs] (the two
    circuit breakers).

    The [regex] crate is a parameter ([Regex]); the patterns are the
    source's.  [Instant]s are integers (milliseconds). *)
From S2P Require Import Prelude.

(** ** The typed error *)

(* @src opex-core/src/agent/providers/error.rs 36-47 PartialState *)
Inductive PartialState := Text (s : str) | ToolUse | Thinking | Empty.

(* @src opex-core/src/agent/providers/error.rs 50-52 is_resumable *)
Definition is_resumable (p : PartialState) : bool :=
  match p with Text s => negb (bool_decide (s = [])) | _ => false end.

(** [reqwest::Error]: the accessors the code calls and its display text. *)
Record ReqwestError := mkReqwest {
  is_connect : bool;
  is_timeout : bool;
  status : option Z;
  reqwest_text : str;
}.

(* @src opex-core/src/agent/providers/error.rs 61-111 LlmCallError *)
Inductive LlmCallError :=
| ConnectTimeout (provider : str) (elapsed_secs : Z)
| InactivityTimeout (provider : str) (silent_secs : Z) (p : PartialState)
| RequestTimeout (provider : str) (elapsed_secs : Z)
| MaxDurationExceeded (provider : str) (elapsed_secs : Z) (p : PartialState)
| UserCancelled (p : PartialState)
| ShutdownDrain (p : PartialState)
| SchemaError (provider detail : str) (at_bytes : Z)
| AuthError (provider : str) (code : Z)
| Server5xx (provider : str) (code : Z)
| Network (e : ReqwestError).

(** The [#[error(..)]] texts of the variants. *)
Definition display (e : LlmCallError) : str :=
  match e with
  | ConnectTimeout p s => p ++ bs ": connect timed out after " ++ decZ s ++ bs "s"
  | InactivityTimeout p s _ => p ++ bs ": provider stopped sending data for " ++ decZ s ++ bs "s"
  | RequestTimeout p s => p ++ bs ": request timed out after " ++ decZ s ++ bs "s"
  | MaxDurationExceeded p s _ => p ++ bs ": stream exceeded max duration " ++ decZ s ++ bs "s"
  | UserCancelled _ => bs "stopped by user"
  | ShutdownDrain _ => bs "interrupted by shutdown drain"
  | SchemaError p d n => p ++ bs ": schema error at byte " ++ decZ n ++ bs ": " ++ d
  | AuthError p s => p ++ bs ": auth failed with status " ++ decZ s
  | Server5xx p s => p ++ bs ": server returned " ++ decZ s
  | Network e => bs "network error: " ++ reqwest_text e
  end.

(* @src opex-core/src/agent/providers/error.rs 139-173 classify_reqwest_err *)
Definition classify_reqwest_err (err : ReqwestError) (provider : str)
    (connect_secs request_secs : Z) : LlmCallError :=
  if is_connect err then ConnectTimeout provider connect_secs else
  if is_timeout err then RequestTimeout provider request_secs else
  match status err with
  | Some code =>
      if (code =? 401)%Z || (code =? 403)%Z then AuthError provider code
      else if (500 <=? code)%Z then Server5xx provider code
      else Network err
  | None => Network err
  end.

(* @src opex-core/src/agent/providers/error.rs 177-193 LlmCallError::is_failover_worthy *)
Definition call_error_failover_worthy (e : LlmCallError) : bool :=
  match e with
  | ConnectTimeout _ _ | RequestTimeout _ _ | InactivityTimeout _ _ _
  | Network _ | Server5xx _ _ => true
  | MaxDurationExceeded _ _ _ | UserCancelled _ | ShutdownDrain _ | AuthError _ _ => false
  | SchemaError _ _ at_bytes => (at_bytes =? 0)%Z
  end.

(* @src opex-core/src/agent/providers/error.rs 196-205 partial_state *)
Definition partial_state (e : LlmCallError) : option PartialState :=
  match e with
  | InactivityTimeout _ _ p | MaxDurationExceeded _ _ p
  | UserCancelled p | ShutdownDrain p => Some p
  | _ => None
  end.

(* @src opex-core/src/agent/providers/error.rs 209-220 abort_reason *)
Definition abort_reason (e : LlmCallError) : option str :=
  match e with
  | ConnectTimeout _ _ => Some (bs "connect_timeout")
  | InactivityTimeout _ _ _ => Some (bs "inactivity")
  | RequestTimeout _ _ => Some (bs "request_timeout")
  | MaxDurationExceeded _ _ _ => Some (bs "max_duration")
  | UserCancelled _ => Some (bs "user_cancelled")
  | ShutdownDrain _ => Some (bs "shutdown_drain")
  | _ => None
  end.

(** [anyhow::Error]: what [downcast_ref::<LlmCallError>] and [to_string] see. *)
Inductive Error := Typed (e : LlmCallError) | Other (msg : str).
Definition downcast (e : Error) : option LlmCallError :=
  match e with Typed e => Some e | Other _ => None end.
Definition error_text (e : Error) : str :=
  match e with Typed e => display e | Other m => m end.

(** ** Classes *)

(* @src opex-core/src/agent/error_classify.rs 11-31 LlmErrorClass *)
Inductive LlmErrorClass :=
| ContextOverflow | SessionCorruption | TransientHttp | RateLimit
| AuthPermanent | Billing | Overloaded | CallTimeout | Unknown.

#[export] Instance LlmErrorClass_eq_dec : EqDecision LlmErrorClass.
Proof. solve_decision. Defined.

(** The [regex] crate: [is_match] and the first capture group. *)
Class Regex := {
  re_is_match : str → str → bool;
  re_capture1 : str → str → option str;
}.

(* @src opex-core/src/agent/error_classify.rs 35-37 RE_CONTEXT_OVERFLOW *)
Definition RE_CONTEXT_OVERFLOW : str := bs "(?i)context.?length|token.?limit|too.many.token|input.too.long|prompt.is.too.long|maximum.context|exceeds.the.model|request_too_large|context.overflow|上下文".
(* @src opex-core/src/agent/error_classify.rs 39-41 RE_SESSION_CORRUPTION *)
Definition RE_SESSION_CORRUPTION : str := bs "(?i)tool_use_block|tool_result.*not.*found|role.*ordering|roles.must.alternate|orphan.*tool|function.call.turn.comes.immediately|incorrect.role.information".
(* @src opex-core/src/agent/error_classify.rs 43-45 RE_TRANSIENT_HTTP *)
Definition RE_TRANSIENT_HTTP : str := bs "(?i)\b(500|502|503|504|521|522|523|524|529)\b|bad.gateway|gateway.timeout|without.sending.*(chunks?|response)".
(* @src opex-core/src/agent/error_classify.rs 47-49 RE_RATE_LIMIT *)
Definition RE_RATE_LIMIT : str := bs "(?i)\b429\b|rate.?limit|too.many.requests|tokens.per.minute|\btpm\b|resource.?exhausted|usage.?limit".
(* @src opex-core/src/agent/error_classify.rs 51-53 RE_AUTH *)
Definition RE_AUTH : str := bs "(?i)(\b(401|403)\b.*(api.?key|unauthorized|authentication|forbidden))|(api.?key.*(invalid|revoked|expired|deactivated))|(unauthorized|authentication.*(failed|error))|PERMISSION_DENIED".
(* @src opex-core/src/agent/error_classify.rs 55-57 RE_BILLING *)
Definition RE_BILLING : str := bs "(?i)\b402\b|payment.required|insufficient.credit|quota.exceeded|insufficient.balance|insufficient.quota|billing".
(* @src opex-core/src/agent/error_classify.rs 59-61 RE_OVERLOADED *)
Definition RE_OVERLOADED : str := bs "(?i)overloaded|service.unavailable.*capacity|high.demand|overloaded_error".
Definition RE_RETRY_AFTER : str := bs "(?i)retry-after:\s*(\d+)".

Section classify.
Context `{Regex}.

(* @src opex-core/src/agent/error_classify.rs 78-105 classify_str *)
Definition classify_str (msg : str) : LlmErrorClass :=
  if re_is_match RE_BILLING msg then Billing else
  if re_is_match RE_AUTH msg then AuthPermanent else
  if re_is_match RE_CONTEXT_OVERFLOW msg then ContextOverflow else
  if re_is_match RE_SESSION_CORRUPTION msg then SessionCorruption else
  if re_is_match RE_RATE_LIMIT msg then RateLimit else
  if re_is_match RE_OVERLOADED msg then Overloaded else
  if re_is_match RE_TRANSIENT_HTTP msg then TransientHttp else
  Unknown.

(* @src opex-core/src/agent/error_classify.rs 64-75 classify *)
Definition classify (error : Error) : LlmErrorClass :=
  match downcast error with
  | Some (InactivityTimeout _ _ _) | Some (MaxDurationExceeded _ _ _) => CallTimeout
  | _ => classify_str (error_text error)
  end.

(** The duration in milliseconds. *)
(* @src opex-core/src/agent/error_classify.rs 245-254 extract_retry_after *)
Definition extract_retry_after (error_msg : str) : option Z :=
  (λ s, (s * 1000)%Z) <$> (re_capture1 RE_RETRY_AFTER error_msg ≫= parse_dec 64).
End classify.

(** Seconds. *)
(* @src opex-core/src/agent/error_classify.rs 108-118 cooldown_duration *)
Definition cooldown_duration (class : LlmErrorClass) : Z :=
  match class with
  | AuthPermanent | Billing => 3600
  | RateLimit => 60
  | Overloaded => 30
  | TransientHttp | Unknown => 15
  | ContextOverflow | SessionCorruption => 0
  | CallTimeout => 0
  end.

(* @src opex-core/src/agent/error_classify.rs 151-156 is_retryable *)
Definition is_retryable (class : LlmErrorClass) : bool :=
  match class with TransientHttp | Overloaded => true | _ => false end.

(* @src opex-core/src/agent/error_classify.rs 179-188 is_failover_worthy *)
Definition is_failover_worthy (class : LlmErrorClass) : bool :=
  match class with
  | TransientHttp | Overloaded | RateLimit | CallTimeout | Unknown => true
  | _ => false
  end.

(** ** Banners *)

(* @src opex-core/src/agent/localization.rs 40-54 ErrorStrings *)
Record ErrorStrings := mkErrorStrings {
  es_context_overflow : str; es_session_corruption : str; es_transient_http : str;
  es_rate_limit : str; es_auth_permanent : str; es_billing : str;
  es_overloaded : str; es_call_timeout : str; es_unknown : str;
  es_fallback_switch : str;
}.

(* @src opex-core/src/agent/localization.rs 128-139 RU_ERR *)
Definition RU_ERR : ErrorStrings := {|
  es_context_overflow := bs "Контекст слишком большой для модели. Попробуйте начать новую сессию.";
  es_session_corruption := bs "Сессия повреждена. Начните новый чат.";
  es_transient_http := bs "Временная ошибка сервера. Попробуйте ещё раз через минуту.";
  es_rate_limit := bs "Слишком много запросов. Подождите немного.";
  es_auth_permanent := bs "Ошибка аутентификации API. Проверьте ключ.";
  es_billing := bs "Проблема с оплатой/квотой API провайдера.";
  es_overloaded := bs "Сервер перегружен. Попробуйте позже.";
  es_call_timeout := bs "Провайдер не отвечает. Переключаюсь на резервного…";
  es_unknown := bs "Произошла ошибка. Попробуйте ещё раз.";
  es_fallback_switch := [LF; LF] ++
    bs "⚠️ _Первичный провайдер недоступен ({}), переключаюсь на резервного…_" ++ [LF] |}.

(* @src opex-core/src/agent/localization.rs 141-152 EN_ERR *)
Definition EN_ERR : ErrorStrings := {|
  es_context_overflow := bs "Context is too large for the model. Try starting a new session.";
  es_session_corruption := bs "Session is corrupted. Please start a new chat.";
  es_transient_http := bs "Temporary server error. Please try again in a minute.";
  es_rate_limit := bs "Too many requests. Please wait a moment.";
  es_auth_permanent := bs "API authentication error. Please check your key.";
  es_billing := bs "API provider billing/quota issue.";
  es_overloaded := bs "Server is overloaded. Please try later.";
  es_call_timeout := bs "Provider not responding. Switching to fallback…";
  es_unknown := bs "An error occurred. Please try again.";
  es_fallback_switch := [LF; LF] ++
    bs "⚠️ _Primary provider unavailable ({}), switching to fallback…_" ++ [LF] |}.

(* @src opex-core/src/agent/localization.rs 158-160 get_error_strings *)
Definition get_error_strings (language : str) : ErrorStrings :=
  if bool_decide (language = bs "en") then EN_ERR else RU_ERR.

(** Replace the first two bytes ["{}"], once per value, from left to right. *)
(* @src opex-core/src/agent/localization.rs 4-12 fmt *)
Definition fmt (template : str) (values : list str) : str :=
  foldl (λ result value,
    match find_sub (bs "{}") result with
    | Some pos => take pos result ++ value ++ drop (pos + 2) result
    | None => result
    end) template values.

(* @src opex-core/src/agent/error_classify.rs 121-134 user_message_lang *)
Definition user_message_lang (class : LlmErrorClass) (language : str) : str :=
  let e := get_error_strings language in
  match class with
  | ContextOverflow => es_context_overflow e
  | SessionCorruption => es_session_corruption e
  | TransientHttp => es_transient_http e
  | RateLimit => es_rate_limit e
  | AuthPermanent => es_auth_permanent e
  | Billing => es_billing e
  | Overloaded => es_overloaded e
  | CallTimeout => es_call_timeout e
  | Unknown => es_unknown e
  end.

(* @src opex-core/src/agent/error_classify.rs 141-143 format_user_error_lang *)
Definition format_user_error_lang `{Regex} (error : Error) (language : str) : str :=
  bs "⚠️ " ++ user_message_lang (classify error) language.

(** ** Backoff *)

(* @src opex-core/src/agent/error_classify.rs 194-203 RetryConfig *)
Record RetryConfig := mkRetryConfig {
  max_attempts : nat;
  base_delay_ms : Z;
  max_delay_ms : Z;
  jitter_factor : f64;
}.

(* @src opex-core/src/agent/error_classify.rs 206-213 default *)
Definition default_retry_config : RetryConfig :=
  {| max_attempts := 5; base_delay_ms := 500; max_delay_ms := 32000;
     jitter_factor := f64_lit 25 100 |}.

(** Milliseconds; [rnd] is the random draw from [0 .. 1), and [2u64.pow]
    wraps as in a release build. *)
(* @src opex-core/src/agent/error_classify.rs 220-226 delay *)
Definition delay (cfg : RetryConfig) (rnd : f64) (attempt : nat) : Z :=
  let exp := f64_mul (f64_of_Z (base_delay_ms cfg))
               (f64_of_Z (wrap 64 (2 ^ Z.of_nat attempt))) in
  let capped := f64_to_u 64 (f64_min exp (f64_of_Z (max_delay_ms cfg))) in
  let jitter_ms := f64_to_u 64 (f64_mul (f64_mul rnd (jitter_factor cfg)) (f64_of_Z capped)) in
  capped + jitter_ms.

(* @src opex-core/src/agent/error_classify.rs 233-238 retry_delay_for_error *)
Definition retry_delay_for_error (cfg : RetryConfig) (rnd : f64) (class : LlmErrorClass)
    (attempt : nat) : Z :=
  match class with
  | RateLimit => cooldown_duration class * 1000
  | _ => delay cfg rnd attempt
  end.

Example delay_ex : (λ a, delay default_retry_config (f64_lit 1 2) a) <$> seq 0 8 =
  [562; 1125; 2250; 4500; 9000; 18000; 36000; 36000]%Z.
Proof. vm_compute. reflexivity. Qed.
