(* ===== verification/CliCooldown.v ===== *)
(** * The circuit breaker of a CLI backend

    [agent/cli_backend/cooldown.rs] and the part of
    [agent/cli_backend/runner.rs] that consults it.

    An [Instant] is an integer number of milliseconds; every operation that
    reads the clock takes what it reads as an argument. *)
From S2P Require Import Prelude.
From S2P Require LlmErrors.

(* @src opex-core/src/agent/cli_backend/cooldown.rs 12-25 CliErrorReason *)
Inductive CliErrorReason :=
| RateLimit | Auth | Billing | Overloaded | Timeout | Unknown.

(* @src opex-core/src/agent/cli_backend/cooldown.rs 29-48 cooldown_ms *)
Definition cooldown_ms (r : CliErrorReason) (error_count : Z) : Z :=
  let n := Z.min error_count 4 in
  match r with
  | RateLimit | Overloaded => Z.min (60000 * 5 ^ sat_sub n 1) 3600000
  | Auth | Billing => Z.min (5 * 3600000 * 2 ^ sat_sub n 1) (24 * 3600000)
  | Timeout | Unknown => Z.min (30000 * 5 ^ Z.min (sat_sub n 1) 3) (30 * 60000)
  end.

(* @src opex-core/src/agent/cli_backend/cooldown.rs 52-62 classify_cli_error *)
Definition classify_cli_error `{LlmErrors.Regex} (stderr stdout : str) : CliErrorReason :=
  match LlmErrors.classify_str (stderr ++ bs " " ++ stdout) with
  | LlmErrors.RateLimit => RateLimit
  | LlmErrors.AuthPermanent => Auth
  | LlmErrors.Billing => Billing
  | LlmErrors.Overloaded | LlmErrors.TransientHttp => Overloaded
  | _ => Unknown
  end.

(* @src opex-core/src/agent/cli_backend/cooldown.rs 64-71 CooldownState *)
Record CooldownState := mkCooldown {
  error_count : Z;
  cooldown_until : option Z;
  last_reason : option CliErrorReason;
}.

(* @src opex-core/src/agent/cli_backend/cooldown.rs 74-76 new *)
Definition new : CooldownState := mkCooldown 0 None None.

(** The remaining time, and the state, reset when the window has passed. *)
(* @src opex-core/src/agent/cli_backend/cooldown.rs 79-91 is_in_cooldown *)
Definition is_in_cooldown (s : CooldownState) (now : Z) : option Z * CooldownState :=
  match cooldown_until s with
  | Some until =>
      if (now <? until)%Z then (Some (until - now)%Z, s) else (None, mkCooldown 0 None None)
  | None => (None, s)
  end.

(** [now1] is the reading of the guard, [now2] the one of the new window. *)
(* @src opex-core/src/agent/cli_backend/cooldown.rs 94-109 record_failure *)
Definition record_failure (s : CooldownState) (reason : CliErrorReason) (now1 now2 : Z)
    : CooldownState :=
  if match cooldown_until s with Some u => (now1 <? u)%Z | None => false end then s else
  let count := (error_count s + 1)%Z in
  mkCooldown count (Some (now2 + cooldown_ms reason count)%Z) (Some reason).

(* @src opex-core/src/agent/cli_backend/cooldown.rs 112-116 record_success *)
Definition record_success (s : CooldownState) : CooldownState := mkCooldown 0 None None.

(** One call of the runner, as far as the breaker is concerned: the check at
    the start, then, when the call is admitted, its outcome. *)
(* @src opex-core/src/agent/cli_backend/runner.rs 78-174 run *)
Definition run (s : CooldownState) (t_check : Z) (outcome : option CliErrorReason)
    (t1 t2 : Z) : CooldownState * bool :=
  match is_in_cooldown s t_check with
  | (Some _, s') => (s', false)
  | (None, s') =>
      (match outcome with
       | Some reason => record_failure s' reason t1 t2
       | None => record_success s'
       end, true)
  end.

(** A CLI that only ever fails or succeeds, called one call at a time. *)
Fixpoint run_all (s : CooldownState) (calls : list (Z * option CliErrorReason * Z * Z))
    : CooldownState :=
  match calls with
  | [] => s
  | (t, o, t1, t2) :: cs => run_all (fst (run s t o t1 t2)) cs
  end.

Lemma cooldown_ms_bounds r n :
  (0 <= n → 30000 <= cooldown_ms r n <= 24 * 3600000)%Z.
Proof.
  intros Hn. unfold cooldown_ms, sat_sub.
  assert (Z.min n 4 = 0 ∨ Z.min n 4 = 1 ∨ Z.min n 4 = 2 ∨ Z.min n 4 = 3 ∨ Z.min n 4 = 4)%Z
    as [Hm|[Hm|[Hm|[Hm|Hm]]]] by lia; rewrite Hm; destruct r; simpl; lia.
Qed.

Lemma cooldown_ms_mono r n m :
  (0 <= n <= m → cooldown_ms r n <= cooldown_ms r m)%Z.
Proof.
  intros [Hn Hm]. unfold cooldown_ms, sat_sub.
  assert (5 ^ Z.max 0 (Z.min n 4 - 1) <= 5 ^ Z.max 0 (Z.min m 4 - 1))%Z
    by (apply Z.pow_le_mono_r; lia).
  assert (2 ^ Z.max 0 (Z.min n 4 - 1) <= 2 ^ Z.max 0 (Z.min m 4 - 1))%Z
    by (apply Z.pow_le_mono_r; lia).
  assert (5 ^ Z.min (Z.max 0 (Z.min n 4 - 1)) 3 <= 5 ^ Z.min (Z.max 0 (Z.min m 4 - 1)) 3)%Z
    by (apply Z.pow_le_mono_r; lia).
  destruct r; lia.
Qed.

(** Windows grow with the error count and never exceed their cap, and an
    active window is never moved: while a cooldown runs, a failure changes
    nothing and every check refuses with the time that is left. *)
Theorem window_fixed_and_capped (s : CooldownState) (r : CliErrorReason) (n m now now2 u : Z) :
  (0 <= n <= m)%Z → cooldown_until s = Some u → (now < u)%Z →
  (30000 <= cooldown_ms r n)%Z ∧ (cooldown_ms r n <= cooldown_ms r m)%Z ∧
  (cooldown_ms r m <= 24 * 3600000)%Z ∧
  record_failure s r now now2 = s ∧
  is_in_cooldown s now = (Some (u - now)%Z, s).
Proof.
  intros Hn Hu Hnow. pose proof (cooldown_ms_bounds r n). pose proof (cooldown_ms_bounds r m).
  pose proof (cooldown_ms_mono r n m). unfold record_failure, is_in_cooldown. rewrite Hu.
  apply Z.ltb_lt in Hnow as ->. split_and!; [lia..|done|done].
Qed.

(** The error count of a breaker whose last window is over or that never
    opened is 0; otherwise it is 1. *)
Definition sequential (s : CooldownState) : Prop :=
  error_count s = 0%Z ∧ cooldown_until s = None ∨
  error_count s = 1%Z ∧ cooldown_until s ≠ None.

Lemma run_sequential s t o t1 t2 : sequential s → sequential (fst (run s t o t1 t2)).
Proof.
  unfold sequential, run, is_in_cooldown, record_failure, record_success.
  intros [[Hc Hu]|[Hc Hu]].
  - rewrite Hu. destruct o; simpl; [right|by left]. rewrite Hu. simpl. split; [lia|done].
  - destruct (cooldown_until s) as [u|] eqn:Hs; [|done].
    case_if; simpl; [right; split; congruence|]. destruct o; simpl; [right; split; [lia|done]|by left].
Qed.

(** The backoff does not escalate for a caller that makes one call at a
    time: the check at the start of a call clears the error count of an
    expired window, so, whatever the outcomes and the times, no count above 1
    is ever reached and every window has the length of a first failure. *)
Theorem no_escalation calls t reason t1 t2 :
  let s := run_all new calls in
  (error_count s <= 1)%Z ∧
  ((run s t (Some reason) t1 t2).2 = true →
   cooldown_until (run s t (Some reason) t1 t2).1 = Some (t2 + cooldown_ms reason 1)%Z).
Proof.
  intros s. assert (sequential s) as Hs.
  { unfold s. assert (sequential new) as Hnew by (by left). revert Hnew.
    generalize new. induction calls as [|[[[? ?] ?] ?] cs IH]; intros s0 H0; [done|].
    simpl. apply IH, run_sequential, H0. }
  split; [unfold sequential in Hs; lia|].
  unfold run, is_in_cooldown, record_failure. destruct Hs as [[Hc Hu]|[Hc Hu]].
  - rewrite Hu. simpl. rewrite Hu, Hc. done.
  - destruct (cooldown_until s) as [u|]; [|done]. case_if; done.
Qed.

Lemma window_witness :
  is_in_cooldown (record_failure new RateLimit 0 0) 1000 =
  (Some 59000%Z, record_failure new RateLimit 0 0).
Proof.
  assert (0 <= 1 <= 2)%Z as H1 by lia.
  assert (cooldown_until (record_failure new RateLimit 0 0) = Some 60000%Z) as H2
    by (vm_compute; reflexivity).
  assert (1000 < 60000)%Z as H3 by lia.
  destruct (window_fixed_and_capped _ RateLimit 1 2 1000 1000 60000 H1 H2 H3)
    as (_ & _ & _ & _ & H). exact H.
Defined.

Lemma no_escalation_witness :
  cooldown_until (run (run_all new [(0, Some RateLimit, 5, 5)%Z; (70000, Some RateLimit, 70005, 70005)%Z])
    140000 (Some RateLimit) 140005 140005).1 = Some 200005%Z.
Proof.
  destruct (no_escalation [(0, Some RateLimit, 5, 5)%Z; (70000, Some RateLimit, 70005, 70005)%Z]
    140000 RateLimit 140005 140005) as [_ H].
  rewrite H by (vm_compute; reflexivity). reflexivity.
Defined.

