(* ===== verification/Cooldown.v ===== *)
(** * The process-wide registry of provider cooldowns

    [agent/provider_cooldown.rs].

    An [Instant] is an integer number of milliseconds; every operation that
    reads the clock takes what it reads as an argument. *)
From S2P Require Import Prelude LlmErrors.

(* @src opex-core/src/db/profiles.rs 15-21 SlotEntry *)
Record SlotEntry := mkSlot { provider : str; model : option str; voice : option str }.

(** The map from provider names to the end of their cooldown. *)
(* @src opex-core/src/agent/provider_cooldown.rs 24-26 ProviderCooldowns *)
Record ProviderCooldowns := mkCooldowns { map : gmap str Z }.

(* @src opex-core/src/agent/provider_cooldown.rs 75-77 insert_cooldown *)
Definition insert_cooldown (m : ProviderCooldowns) (provider_name : str) (dur_ms now : Z)
    : ProviderCooldowns := mkCooldowns (<[provider_name := (now + dur_ms)%Z]> (map m)).

(* @src opex-core/src/agent/provider_cooldown.rs 46-49 record_failure *)
Definition record_failure (m : ProviderCooldowns) (provider_name : str)
    (class : LlmErrorClass) (now : Z) : ProviderCooldowns :=
  let dur := (cooldown_duration class * 1000)%Z in
  insert_cooldown m provider_name dur now.

(* @src opex-core/src/agent/provider_cooldown.rs 52-54 record_success *)
Definition record_success (m : ProviderCooldowns) (provider_name : str) : ProviderCooldowns :=
  mkCooldowns (delete provider_name (map m)).

(* @src opex-core/src/agent/provider_cooldown.rs 61-73 is_cooled *)
Definition is_cooled (m : ProviderCooldowns) (provider_name : str) (now : Z)
    : bool * ProviderCooldowns :=
  match map m !! provider_name with
  | None => (false, m)
  | Some until => if (now <? until)%Z then (true, m)
      else (false, mkCooldowns (delete provider_name (map m)))
  end.

(** The loop, on the part of the chain that is left; [clock i] is the time
    read when position [i] is examined. *)
Fixpoint resolve_loop (rest : list SlotEntry) (m : ProviderCooldowns) (clock : nat → Z)
    (idx : nat) : option (SlotEntry * nat) * ProviderCooldowns :=
  match rest with
  | [] => (None, m)
  | entry :: rest' =>
      match is_cooled m (provider entry) (clock idx) with
      | (false, m') => (Some (entry, idx), m')
      | (true, m') => resolve_loop rest' m' clock (S idx)
      end
  end.

(* @src opex-core/src/agent/provider_cooldown.rs 102-115 resolve_next_uncooled *)
Definition resolve_next_uncooled (chain : list SlotEntry) (m : ProviderCooldowns)
    (clock : nat → Z) (chain_idx : nat) : option (SlotEntry * nat) * ProviderCooldowns :=
  resolve_loop (drop (1 + chain_idx) chain) m clock chain_idx.

Lemma resolve_loop_entry rest m clock idx e i :
  (resolve_loop rest m clock idx).1 = Some (e, i) → idx ≤ i ∧ rest !! (i - idx) = Some e.
Proof.
  revert m idx. induction rest as [|x rest IH]; intros m idx; simpl; [done|].
  destruct (is_cooled m (provider x) (clock idx)) as [[] m']; simpl.
  - intros [? He]%IH. split; [lia|]. by replace (i - idx) with (S (i - S idx)) by lia.
  - intros [= -> ->]. by rewrite Nat.sub_diag.
Qed.

(** A reserve is an entry of the chain behind the primary. *)
Lemma resolve_next_uncooled_entry chain m clock chain_idx e i :
  (resolve_next_uncooled chain m clock chain_idx).1 = Some (e, i) →
  chain_idx ≤ i ∧ chain !! S i = Some e.
Proof.
  intros [Hi He]%resolve_loop_entry. split; [done|]. rewrite lookup_drop in He.
  by replace (S i) with (1 + chain_idx + (i - chain_idx)) by lia.
Qed.

Definition cooled (m : ProviderCooldowns) (p : str) (now : Z) : Prop :=
  ∃ u, map m !! p = Some u ∧ (now < u)%Z.

Lemma is_cooled_spec m p now :
  ((is_cooled m p now).1 = true ↔ cooled m p now) ∧
  ((is_cooled m p now).1 = true → (is_cooled m p now).2 = m).
Proof.
  unfold is_cooled, cooled. destruct (map m !! p) as [u|] eqn:Hm.
  - case_if; bool_hyps; simpl; split; try done; split; try done; [by exists u|].
    intros (u' & ? & ?). simplify_eq. lia.
  - simpl. split; [|done]. split; [done|]. by intros (? & ? & _).
Qed.

(** After a failure is recorded the provider is refused exactly for the
    cooldown of the error class, unless it succeeds before; the read that
    finds the window expired removes the entry; other providers are not
    affected. *)
Theorem cooldown_window (m : ProviderCooldowns) (p q : str) (c : LlmErrorClass) (now t : Z) :
  p ≠ q →
  let m' := record_failure m p c now in
  (is_cooled m' p t).1 = (t <? now + cooldown_duration c * 1000)%Z ∧
  ((now + cooldown_duration c * 1000 <= t)%Z → (is_cooled m' p t).2 = mkCooldowns (delete p (map m))) ∧
  (is_cooled (record_success m' p) p t).1 = false ∧
  (is_cooled m' q t).1 = (is_cooled m q t).1.
Proof.
  intros Hpq m'. unfold m', record_failure, insert_cooldown, is_cooled, record_success. cbn [map].
  rewrite lookup_insert_eq, lookup_delete_eq, lookup_insert_ne by done.
  split_and!; [by case_if| |done|].
  - intros Hle. case_if; bool_hyps; [lia|]. simpl. by rewrite delete_insert_eq.
  - destruct (map m !! q); [by case_if|done].
Qed.

(** The search of the reserve chain stops at the first reserve, from the
    given position on, that is not cooling down at the moment it is
    examined; it fails exactly when all of them are; position 0, the live
    primary, is never returned. *)
Theorem resolve_next_uncooled_spec (chain : list SlotEntry) (m : ProviderCooldowns)
    (clock : nat → Z) (chain_idx : nat) :
  match (resolve_next_uncooled chain m clock chain_idx).1 with
  | Some (e, i) =>
      chain_idx ≤ i ∧ chain !! (1 + i) = Some e ∧ ¬ cooled m (provider e) (clock i) ∧
      ∀ j e', chain_idx ≤ j < i → chain !! (1 + j) = Some e' → cooled m (provider e') (clock j)
  | None =>
      ∀ j e', chain_idx ≤ j → chain !! (1 + j) = Some e' → cooled m (provider e') (clock j)
  end.
Proof.
  unfold resolve_next_uncooled.
  assert (∀ rest k, rest = drop (1 + k) chain →
    match (resolve_loop rest m clock k).1 with
    | Some (e, i) => k ≤ i ∧ chain !! (1 + i) = Some e ∧ ¬ cooled m (provider e) (clock i) ∧
        ∀ j e', k ≤ j < i → chain !! (1 + j) = Some e' → cooled m (provider e') (clock j)
    | None => ∀ j e', k ≤ j → chain !! (1 + j) = Some e' → cooled m (provider e') (clock j)
    end) as Hgen; [|by apply Hgen].
  induction rest as [|entry rest IH]; intros k Hrest; cbn [resolve_loop].
  - intros j e' Hj He. apply lookup_lt_Some in He. apply (f_equal length) in Hrest.
    rewrite length_drop in Hrest. simpl in Hrest. lia.
  - assert (chain !! (1 + k) = Some entry) as Hk.
    { rewrite <-(Nat.add_0_r (1 + k)), <-lookup_drop, <-Hrest. done. }
    assert (rest = drop (1 + S k) chain) as Hrest'.
    { replace (1 + S k) with ((1 + k) + 1) by lia. rewrite <-drop_drop, <-Hrest. done. }
    destruct (is_cooled_spec m (provider entry) (clock k)) as [Hc Hsame].
    destruct (is_cooled m (provider entry) (clock k)) as [b m'] eqn:Hq.
    cbn [fst snd] in *. destruct b.
    + rewrite (Hsame eq_refl). specialize (IH (S k) Hrest').
      destruct (resolve_loop rest m clock (S k)).1 as [[e i]|].
      * destruct IH as (? & ? & ? & IH). split_and!; [lia|done|done|].
        intros j e' Hj He. destruct (decide (j = k)) as [->|];
          [simplify_eq; by apply Hc|apply (IH j); [lia|done]].
      * intros j e' Hj He. destruct (decide (j = k)) as [->|];
          [simplify_eq; by apply Hc|apply (IH j); [lia|done]].
    + split_and!; [lia|done| |intros; lia]. intros ?%Hc. done.
Qed.

Lemma cooldown_window_witness :
  bs "a" ≠ bs "b" ∧
  (is_cooled (record_failure (mkCooldowns ∅) (bs "a") RateLimit 0) (bs "a") 59999).1 = true.
Proof.
  assert (bs "a" ≠ bs "b") as Hne by done. split; [exact Hne|].
  destruct (cooldown_window (mkCooldowns ∅) (bs "a") (bs "b") RateLimit 0 59999 Hne) as (-> & _).
  reflexivity.
Defined.
