(* ===== verification/LlmRetry.v ===== *)
(** * Calling the model: budget, context windows and the three retry layers

    [agent/pipeline/llm_call.rs].  A call to the model goes through
    [chat_stream_with_deadline_retry] (timeouts), which calls
    [chat_stream_with_transient_retry] (server errors), which calls
    [chat_stream_with_overflow_recovery] (one forced compaction), which calls
    the provider.

    Everything outside the process is an [Env]: operations on a world [W]
    that answer as they like.  The loops of the code become recursion on the
    number of attempts that are left. *)
From S2P Require Import Prelude Json Messages LlmErrors.

(** ** Budget and context windows *)

(** [usage] is the query's answer; an error counts as 0, a negative [i64]
    becomes a large [u64]. *)
(* @src opex-core/src/agent/pipeline/llm_call.rs 19-34 check_budget *)
Definition check_budget (usage : option Z) (daily_budget_tokens : Z) : result str unit :=
  if (daily_budget_tokens =? 0)%Z then Ok () else
  let used := wrap 64 (default 0%Z usage) in
  if (daily_budget_tokens <=? used)%Z
  then Err (bs "Daily token budget exceeded (" ++ decZ used ++ bs "/" ++
            decZ daily_budget_tokens ++ bs " tokens). Resets at midnight.")
  else Ok ().

(* @src opex-core/src/agent/pipeline/llm_call.rs 145-177 default_context_for_model *)
Definition default_context_for_model (model : str) : Z :=
  let m := to_ascii_lowercase model in
  let has s := contains (bs s) m in
  if has "gpt-4.1" || has "gpt-5" then 1047576
  else if has "gpt-4" || has "gpt-3.5" || has "o1" || has "o3" || has "o4" then 128000
  else if has "claude" then 200000
  else if has "gemini" then 1000000
  else if has "kimi-k2" then 262144
  else if has "kimi" then 131072
  else if has "minimax" then 200000
  else if has "glm-5.2" then 1048576
  else if has "glm-5" then 202752
  else if has "glm" then 200000
  else if has "deepseek" then 128000
  else if has "qwen" then 131072
  else 128000.

(** [at] is the insertion time, in milliseconds. *)
(* @src opex-core/src/agent/pipeline/llm_call.rs 187-191 CachedLimit *)
Record CachedLimit := mkCached { value : Z; is_fallback : bool; cached_at : Z }.

(* @src opex-core/src/agent/pipeline/llm_call.rs 195-195 FALLBACK_TTL *)
Definition FALLBACK_TTL : Z := 300 * 1000.

(* @src opex-core/src/agent/pipeline/llm_call.rs 266-273 cache_context_limit *)
Definition cache_context_limit (cache : gmap str CachedLimit) (cache_key : str)
    (v : Z) (fallback : bool) (now : Z) : gmap str CachedLimit :=
  <[cache_key := mkCached v fallback now]> cache.

Definition context_key (provider_name model : str) : str :=
  provider_name ++ bs "::" ++ model.

(** [operator_override], [catalog] and [hint] are the answers of the
    configuration, of the model catalog and of the provider's probe. *)
(* @src opex-core/src/agent/pipeline/llm_call.rs 217-262 resolve_context_limit *)
Definition resolve_context_limit (cache : gmap str CachedLimit) (provider_name model : str)
    (operator_override catalog hint : option Z) (now : Z) : Z * gmap str CachedLimit :=
  let cache_key := context_key provider_name model in
  let probe :=
    let '(v, fallback) := match hint with
                          | Some v => (v, false)
                          | None => (default_context_for_model model, true)
                          end in
    (v, cache_context_limit cache cache_key v fallback now) in
  match operator_override with
  | Some v => (v, cache_context_limit cache cache_key v false now)
  | None =>
  match catalog with
  | Some v => (v, cache_context_limit cache cache_key v false now)
  | None =>
  match cache !! cache_key with
  | Some c => if negb (is_fallback c) || (now - cached_at c <? FALLBACK_TTL)%Z
              then (value c, cache) else probe
  | None => probe
  end
  end
  end.

(** The smallest element of a list. *)
Definition min_list (l : list Z) : option Z :=
  match l with [] => None | x :: r => Some (foldr Z.min x r) end.

(* @src opex-core/src/agent/pipeline/llm_call.rs 289-302 context_limit_tokens *)
Definition context_limit_tokens (cache : gmap str CachedLimit) (model : str) : Z :=
  let suffix := bs "::" ++ model in
  let matching := List.filter (λ kv, ends_with suffix kv.1) (map_to_list cache) in
  match min_list ((λ kv, value kv.2) <$> matching) with
  | Some v => v
  | None => default_context_for_model model
  end.

(** ** The environment of a call *)
Record Env (V W : Type) := mkEnv {
  provider_name : str;
  supports_prefill : bool;
  (** one streamed request *)
  chat_stream : W → list (Message V) → list (ToolDefinition V) → CallOptions →
                W * result Error (LlmResponse V);
  (** one request without streaming *)
  chat : W → list (Message V) → list (ToolDefinition V) → CallOptions →
         W * result Error (LlmResponse V);
  compact_force : W → list (Message V) → W * list (Message V);
  is_cancelled : W → bool;
  (** a sleep; [true] when the cancellation came first *)
  sleep : W → Z → W * bool;
  (** a random number of [0 .. 1) *)
  random : W → W * f64;
  now_ms : W → Z;
  (** a text on the chunk channel *)
  send : W → str → W;
  on_retry : W → Z → Z → W;
}.
Arguments mkEnv {V W}.
Arguments provider_name {V W}.
Arguments supports_prefill {V W}.
Arguments chat_stream {V W}.
Arguments chat {V W}.
Arguments compact_force {V W}.
Arguments is_cancelled {V W}.
Arguments sleep {V W}.
Arguments random {V W}.
Arguments now_ms {V W}.
Arguments send {V W}.
Arguments on_retry {V W}.

(* @src opex-core/src/agent/pipeline/llm_call.rs 655-655 RECONNECTING_PREFIX *)
Definition RECONNECTING_PREFIX : str := bs "__reconnecting__:".
(* @src opex-core/src/agent/pipeline/llm_call.rs 665-665 MAX_TIMEOUT_RETRIES *)
Definition MAX_TIMEOUT_RETRIES : nat := 10.

(** Milliseconds before retry number [attempt]. *)
Definition backoff_ms (attempt : nat) : Z :=
  Z.min (sat_mul 64 (Z.min (umax 64) (2 ^ Z.of_nat attempt)) 1000) 30000.

Section calls.
Context {V : Type} `{Regex} {W : Type} (env : Env V W).
Implicit Types (w : W) (messages : list (Message V)) (tools : list (ToolDefinition V)).

(** World, messages and answer. *)
Definition Outcome : Type := W * list (Message V) * result Error (LlmResponse V).

(* @src opex-core/src/agent/pipeline/llm_call.rs 452-454 is_recoverable_overflow *)
Definition is_recoverable_overflow (e : Error) : bool :=
  bool_decide (classify e = ContextOverflow).

(* @src opex-core/src/agent/pipeline/llm_call.rs 467-492 chat_with_overflow_recovery *)
Definition chat_with_overflow_recovery w messages tools : Outcome :=
  let '(w1, result) := chat env w messages tools default_options in
  match result with
  | Ok resp => (w1, messages, Ok resp)
  | Err e =>
      if negb (is_recoverable_overflow e) then (w1, messages, Err e) else
      let '(w2, messages') := compact_force env w1 messages in
      let '(w3, result') := chat env w2 messages' tools default_options in
      (w3, messages', result')
  end.

(* @src opex-core/src/agent/pipeline/llm_call.rs 499-530 chat_stream_with_overflow_recovery *)
Definition chat_stream_with_overflow_recovery w messages tools (opts : CallOptions) : Outcome :=
  let '(w1, result) := chat_stream env w messages tools opts in
  match result with
  | Ok resp => (w1, messages, Ok resp)
  | Err e =>
      if negb (is_recoverable_overflow e) then (w1, messages, Err e) else
      let '(w2, messages') := compact_force env w1 messages in
      let '(w3, result') := chat_stream env w2 messages' tools opts in
      (w3, messages', result')
  end.

(** The delay before a retry, and the world after its random draw. *)
Definition transient_delay w (config : RetryConfig) (e : Error) (attempt : nat) : W * Z :=
  match extract_retry_after (error_text e) with
  | Some d => (w, d)
  | None => let '(w', rnd) := random env w in
            (w', retry_delay_for_error config rnd (classify e) attempt)
  end.

(** The loop over the [left] attempts that remain, with the last error. *)
Fixpoint transient_loop (left : nat) (config : RetryConfig) (last_error : option Error)
    w messages tools (opts : CallOptions) : Outcome :=
  match left with
  | O => (w, messages, Err (default (Other (bs "LLM stream call failed after retries")) last_error))
  | S left' =>
      let attempt := max_attempts config - left in
      if is_cancelled env w then (w, messages, Err (Typed (UserCancelled Empty))) else
      let '(w1, messages1, result) := chat_stream_with_overflow_recovery w messages tools opts in
      match result with
      | Ok resp => (w1, messages1, Ok resp)
      | Err e =>
          if negb (is_retryable (classify e)) then (w1, messages1, Err e) else
          let '(w2, d) := transient_delay w1 config e attempt in
          if attempt <? max_attempts config - 1 then
            let '(w3, cancelled) := sleep env w2 d in
            if cancelled then (w3, messages1, Err (Typed (UserCancelled Empty)))
            else transient_loop left' config (Some e) w3 messages1 tools opts
          else transient_loop left' config (Some e) w2 messages1 tools opts
      end
  end.

(* @src opex-core/src/agent/pipeline/llm_call.rs 539-605 chat_stream_with_transient_retry *)
Definition chat_stream_with_transient_retry w messages tools (opts : CallOptions) : Outcome :=
  let config := default_retry_config in
  transient_loop (max_attempts config) config None w messages tools opts.

(** The two errors that the outer loop retries. *)
Definition is_timeout_error (e : Error) : option LlmCallError :=
  match downcast e with
  | Some (InactivityTimeout _ _ _ as te) | Some (MaxDurationExceeded _ _ _ as te) => Some te
  | _ => None
  end.

(** The prefill of the next attempt, when the partial answer can be resumed. *)
Definition next_messages (base : list (Message V)) (te : LlmCallError)
    : option (list (Message V)) :=
  match partial_state te with
  | Some (Text partial) =>
      if is_resumable (Text partial) && supports_prefill env
      then Some (base ++ [text_message Assistant partial]) else None
  | _ => None
  end.

(** [None] when the fuel runs out before the loop returns. *)
(* @src opex-core/src/agent/pipeline/llm_call.rs 670-812 deadline_retry_inner *)
Fixpoint deadline_loop (fuel : nat) (base : list (Message V)) (started : Z) (attempt : nat)
    (prepared : option (list (Message V))) w messages tools
    (run_max_duration_secs : Z) (opts : CallOptions) : option Outcome :=
  match fuel with
  | O => None
  | S fuel' =>
      let elapsed := ((now_ms env w - started) / 1000)%Z in
      if (0 <? run_max_duration_secs)%Z && (run_max_duration_secs <=? elapsed)%Z then
        Some (w, messages, Err (Typed (MaxDurationExceeded (provider_name env) elapsed Empty)))
      else if is_cancelled env w then
        Some (w, messages, Err (Typed (UserCancelled Empty)))
      else
      let messages0 := default base prepared in
      let '(w1, messages1, result) := chat_stream_with_transient_retry w messages0 tools opts in
      match result with
      | Ok r => Some (w1, messages1, Ok r)
      | Err e =>
          match is_timeout_error e with
          | None => Some (w1, messages1, Err e)
          | Some te =>
              let attempt' := S attempt in
              if MAX_TIMEOUT_RETRIES <=? attempt' then Some (w1, messages1, Err e) else
              let delay_ms := backoff_ms attempt' in
              let w2 := on_retry env w1 (Z.of_nat attempt') delay_ms in
              let w3 := send env w2 (RECONNECTING_PREFIX ++ dec attempt' ++ bs ":" ++ decZ delay_ms) in
              let '(w4, cancelled) := sleep env w3 delay_ms in
              if cancelled then Some (w4, messages1, Err (Typed (UserCancelled Empty)))
              else deadline_loop fuel' base started attempt' (next_messages base te)
                     w4 messages1 tools run_max_duration_secs opts
          end
      end
  end.

(* @src opex-core/src/agent/pipeline/llm_call.rs 846-895 chat_stream_with_deadline_retry *)
Definition chat_stream_with_deadline_retry w messages tools
    (run_max_duration_secs : Z) (opts : CallOptions) : option Outcome :=
  deadline_loop MAX_TIMEOUT_RETRIES messages (now_ms env w) 0 None w messages tools
    run_max_duration_secs opts.
End calls.

(** ** Theorems *)

(** The environment that also records the messages of every request. *)
Definition logged {V W} (env : Env V W) : Env V (W * list (list (Message V))) := {|
  provider_name := provider_name env;
  supports_prefill := supports_prefill env;
  chat_stream w ms tools opts :=
    let '(w', r) := chat_stream env w.1 ms tools opts in ((w', w.2 ++ [ms]), r);
  chat w ms tools opts :=
    let '(w', r) := chat env w.1 ms tools opts in ((w', w.2 ++ [ms]), r);
  compact_force w ms := let '(w', ms') := compact_force env w.1 ms in ((w', w.2), ms');
  is_cancelled w := is_cancelled env w.1;
  sleep w d := let '(w', c) := sleep env w.1 d in ((w', w.2), c);
  random w := let '(w', r) := random env w.1 in ((w', w.2), r);
  now_ms w := now_ms env w.1;
  send w s := (send env w.1 s, w.2);
  on_retry w a d := (on_retry env w.1 a d, w.2);
|}.

Section retry_spec.
Context {V : Type} `{Regex} {W : Type} (env : Env V W).
Implicit Types (base ms : list (Message V)) (log : list (list (Message V))).

(** The contexts that a call may send for [base]. *)
Inductive derived base : list (Message V) → Prop :=
| derived_base : derived base base
| derived_prefill p : p ≠ [] → supports_prefill env = true →
    derived base (base ++ [text_message Assistant p])
| derived_compact w ms : derived base ms → derived base (compact_force env w ms).2.

(** [o] extends the log by at most [n] contexts derived from [base] and
    leaves a derived context. *)
Definition extends base n log (o : Outcome (V:=V) (W:=W * list (list (Message V)))) : Prop :=
  ∃ new, o.1.1.2 = log ++ new ∧ length new ≤ n ∧ Forall (derived base) new ∧
         derived base o.1.2.

Lemma extends_stop base n w log ms (r : result Error (LlmResponse V)) :
  derived base ms → extends base n log ((w, log), ms, r).
Proof. intros ?. exists []. rewrite app_nil_r. split_and!; simpl; [done|lia|constructor|done]. Qed.

Lemma extends_trans base n m log new o :
  length new ≤ n → Forall (derived base) new → extends base m (log ++ new) o →
  extends base (n + m) log o.
Proof.
  intros Hn Hnew (new' & Ho & Hm & Hnew' & Hms). exists (new ++ new').
  rewrite app_assoc. split_and!; [done|rewrite length_app; lia|by apply Forall_app|done].
Qed.

Lemma overflow_extends base w log ms tools opts :
  derived base ms →
  extends base 2 log (chat_stream_with_overflow_recovery (logged env) (w, log) ms tools opts).
Proof.
  intros Hms. unfold chat_stream_with_overflow_recovery. simpl.
  destruct (chat_stream env w ms tools opts) as [w1 r1]. simpl.
  destruct r1 as [resp|e]; [|destruct (is_recoverable_overflow e); simpl].
  - exists [ms]. split_and!; simpl; [done|lia|by rewrite !Forall_cons, Forall_nil|done].
  - destruct (compact_force env w1 ms) as [w2 ms2] eqn:Hc. simpl.
    destruct (chat_stream env w2 ms2 tools opts) as [w3 r3]. simpl.
    assert (derived base ms2) as H2.
    { change ms2 with (w2, ms2).2. rewrite <-Hc. by constructor. }
    exists [ms; ms2]. split_and!; simpl; [by rewrite <-app_assoc|lia|by rewrite !Forall_cons, Forall_nil|done].
  - exists [ms]. split_and!; simpl; [done|lia|by rewrite !Forall_cons, Forall_nil|done].
Qed.

Lemma transient_extends base left config le w log ms tools opts :
  derived base ms →
  extends base (2 * left) log
    (transient_loop (logged env) left config le (w, log) ms tools opts).
Proof.
  revert le w log ms. induction left as [|left IH]; intros le w log ms Hms;
    cbn [transient_loop]; [by apply extends_stop|].
  simpl is_cancelled. destruct (is_cancelled env w); [by apply extends_stop|].
  pose proof (overflow_extends base w log ms tools opts Hms) as (new & Hw & Hlen & Hnew & Hms1).
  destruct (chat_stream_with_overflow_recovery _ _ _ _ _) as [[[w1 log1] ms1] r1].
  simpl in Hw, Hms1. subst log1.
  replace (2 * S left) with (2 + 2 * left) by lia. apply (extends_trans _ _ _ _ new); [done..|].
  destruct r1 as [resp|e]; [by apply extends_stop|].
  destruct (is_retryable _); simpl; [|by apply extends_stop].
  assert (∃ w2 d, transient_delay (logged env) (w1, log ++ new) config e
                    (max_attempts config - S left) = ((w2, log ++ new), d)) as (w2 & d & Hd).
  { unfold transient_delay. destruct (extract_retry_after _); simpl; [by eauto|].
    destruct (random env w1). by eauto. }
  simpl in Hd. rewrite Hd. case_if; [|by apply IH].
  simpl. destruct (sleep env w2 d) as [w3 []]; [by apply extends_stop|by apply IH].
Qed.

Lemma next_messages_derived base te ms :
  next_messages env base te = Some ms → derived base ms.
Proof.
  unfold next_messages. destruct (partial_state te) as [[p| | |]|]; try done.
  case_if; [|done]. intros [= <-]. bool_hyps. simpl in *. bool_hyps. by constructor.
Qed.

Lemma deadline_extends base started fuel attempt prepared w log ms tools maxd opts :
  fuel + attempt = MAX_TIMEOUT_RETRIES → 0 < fuel →
  (∀ m, prepared = Some m → derived base m) → derived base ms →
  ∃ o, deadline_loop (logged env) fuel base started attempt prepared (w, log) ms tools maxd opts
       = Some o ∧ extends base (10 * fuel) log o.
Proof.
  revert attempt prepared w log ms.
  induction fuel as [|fuel IH]; intros attempt prepared w log ms Hf Hpos Hp Hms; [lia|].
  cbn [deadline_loop].
  case_if; [eexists; split; [done|by apply extends_stop]|].
  simpl is_cancelled. destruct (is_cancelled env w);
    [eexists; split; [done|by apply extends_stop]|].
  assert (derived base (default base prepared)) as H0.
  { destruct prepared; simpl; [auto|constructor]. }
  unfold chat_stream_with_transient_retry.
  pose proof (transient_extends base 5 default_retry_config None w log _ tools opts H0)
    as (new & Hw & Hlen & Hnew & Hms1).
  change (max_attempts default_retry_config) with 5.
  destruct (transient_loop _ _ _ _ _ _ _ _) as [[[w1 log1] ms1] r1].
  simpl in Hw, Hms1. subst log1.
  assert (∀ o, extends base (10 * fuel) (log ++ new) o → extends base (10 * S fuel) log o) as Hext.
  { intros o Ho. replace (10 * S fuel) with (10 + 10 * fuel) by lia.
    by apply (extends_trans _ _ _ _ new). }
  destruct r1 as [resp|e];
    [eexists; split; [done|by apply Hext, extends_stop]|].
  destruct (is_timeout_error e) as [te|];
    [|eexists; split; [done|by apply Hext, extends_stop]].
  destruct (MAX_TIMEOUT_RETRIES <=? S attempt) eqn:Hmax;
    [eexists; split; [done|by apply Hext, extends_stop]|]. bool_hyps.
  simpl send. simpl on_retry. simpl sleep. simpl fst.
  destruct (sleep env _ _) as [w4 []] eqn:Hs.
  - eexists. split; [done|]. by apply Hext, extends_stop.
  - change (next_messages (logged env) base te) with (next_messages env base te).
    destruct (IH (S attempt) (next_messages env base te) w4 (log ++ new) ms1) as (o & Ho & Hx);
      [lia|lia|apply next_messages_derived|done|].
    exists o. split; [exact Ho|by apply Hext].
Qed.

(** A call to the model always comes back, whatever the provider, the
    clock and the cancellation token do: the timeout layer returns within its
    ten attempts, at most 100 requests are sent (10 attempts of 5 tries, each
    with one compaction retry), and every request carries the given messages,
    possibly with one non-empty assistant prefill and after compactions. *)
Theorem model_call_returns (w : W) (messages : list (Message V)) tools maxd opts :
  ∃ w' log messages' r,
    chat_stream_with_deadline_retry (logged env) (w, []) messages tools maxd opts =
      Some ((w', log), messages', r) ∧
    length log ≤ 100 ∧ Forall (derived messages) log ∧ derived messages messages'.
Proof.
  destruct (deadline_extends messages (now_ms env w) 10 0 None w [] messages tools maxd opts)
    as ([[[w' log] ms] r] & Ho & new & Hl & Hlen & Hnew & Hms); try done; [lia|constructor|].
  simpl in Hl, Hms. subst log. by exists w', new, ms, r.
Qed.

(** A cancelled session sends nothing: when the token is already
    cancelled the call returns [UserCancelled] at once, with the world and the
    messages untouched. *)
Theorem cancelled_sends_nothing (w : W) messages tools opts :
  is_cancelled env w = true →
  chat_stream_with_deadline_retry env w messages tools 0 opts =
    Some (w, messages, Err (Typed (UserCancelled Empty))).
Proof.
  intros Hc. unfold chat_stream_with_deadline_retry. cbn [deadline_loop MAX_TIMEOUT_RETRIES].
  by rewrite Hc.
Qed.
End retry_spec.

(** The backoff of the timeout layer stays in its bounds and doubles. *)
Lemma backoff_ms_bounds a : (1000 <= backoff_ms a <= 30000)%Z.
Proof.
  unfold backoff_ms, sat_mul, umax.
  assert (1 <= 2 ^ Z.of_nat a)%Z by (pose proof (Z.pow_pos_nonneg 2 (Z.of_nat a)); lia).
  lia.
Qed.

Example backoff_ex : backoff_ms <$> seq 1 6 = [2000; 4000; 8000; 16000; 30000; 30000]%Z.
Proof. reflexivity. Qed.

Lemma min_list_le x l : x ∈ l → ∃ m, min_list l = Some m ∧ (m <= x)%Z.
Proof.
  destruct l as [|y l]; [by intros ?%elem_of_nil|]. intros Hx. simpl. eexists. split; [done|].
  revert x Hx. induction l as [|z l IH]; intros x Hx; simpl.
  - apply elem_of_cons in Hx as [->|Hx]; [lia|by apply elem_of_nil in Hx].
  - apply elem_of_cons in Hx as [->|Hx].
    + specialize (IH y ltac:(by left)). lia.
    + apply elem_of_cons in Hx as [->|Hx]; [lia|].
      specialize (IH x ltac:(by right)). lia.
Qed.

(** The priority of context windows: the operator's override, else the
    catalog, else a cached probe, else a fresh probe, else the name heuristic;
    an expired heuristic entry never hides a probe. After a resolution the
    cache holds the answer, so the synchronous reader never budgets more than
    the window that was resolved. *)
Theorem context_window_resolution (cache : gmap str CachedLimit) p model ov cat hint now :
  let '(v, cache') := resolve_context_limit cache p model ov cat hint now in
  (∀ o, ov = Some o → v = o) ∧
  (∀ c, ov = None → cat = Some c → v = c) ∧
  (∀ h, ov = None → cat = None → hint = Some h →
     (∀ c, cache !! context_key p model = Some c →
        is_fallback c = true ∧ (FALLBACK_TTL <= now - cached_at c)%Z) → v = h) ∧
  (value <$> cache' !! context_key p model) = Some v ∧
  (context_limit_tokens cache' model <= v)%Z.
Proof.
  set (key := context_key p model).
  assert (∀ c' : gmap str CachedLimit, ∀ v, (value <$> c' !! key) = Some v →
            (context_limit_tokens c' model <= v)%Z) as Hread.
  { intros c' v (e & He & ->)%fmap_Some. unfold context_limit_tokens.
    destruct (min_list_le (value e) ((λ kv, value kv.2) <$>
      List.filter (λ kv, ends_with (bs "::" ++ model) kv.1) (map_to_list c'))) as (m & -> & ?);
      [|done].
    apply list_elem_of_fmap. exists (key, e). split; [done|].
    apply list_elem_of_In, List.filter_In. split.
    - by apply list_elem_of_In, elem_of_map_to_list.
    - apply ends_with_app. }
  unfold resolve_context_limit. fold key.
  assert (∀ v f, (value <$> cache_context_limit cache key v f now !! key) = Some v) as Hins.
  { intros v f. unfold cache_context_limit. by rewrite lookup_insert_eq. }
  destruct ov as [o|].
  { split_and!; try naive_solver; auto. }
  destruct cat as [c|].
  { split_and!; try naive_solver; auto. }
  destruct (cache !! key) as [e|] eqn:He.
  - case_if.
    + split_and!; try done; [|by rewrite He|apply Hread; by rewrite He].
      intros h _ _ -> Hc. destruct (Hc e) as [Hf Ht]; [done|]. rewrite Hf in Hif. simpl in Hif.
      bool_hyps. lia.
    + destruct hint as [h|]; split_and!; try naive_solver; auto.
  - destruct hint as [h|]; split_and!; try naive_solver; auto.
Qed.

(** *** Witnesses *)

#[local] Instance demo_regex : Regex :=
  {| re_is_match p s := false; re_capture1 p s := None |}.

Definition dead_env : Env Jv.t unit := {|
  provider_name := bs "p"; supports_prefill := false;
  chat_stream w ms t o := (w, Err (Typed (InactivityTimeout (bs "p") 60 Empty)));
  chat w ms t o := (w, Err (Other (bs "x")));
  compact_force w ms := (w, ms);
  is_cancelled w := true;
  sleep w d := (w, false);
  random w := (w, f64_of_Z 0);
  now_ms w := 0%Z;
  send w s := w;
  on_retry w a d := w |}.

Lemma cancelled_sends_nothing_witness :
  is_cancelled dead_env () = true ∧
  chat_stream_with_deadline_retry dead_env () [] [] 0 default_options =
    Some ((), [], Err (Typed (UserCancelled Empty))).
Proof.
  split; [reflexivity|].
  exact (cancelled_sends_nothing dead_env () [] [] default_options eq_refl).
Defined.

Lemma context_window_witness :
  (context_limit_tokens
    (resolve_context_limit (cache_context_limit ∅ (bs "a::m") 9 false 0)
       (bs "b") (bs "m") None None (Some 7%Z) 5).2 (bs "m") <= 7)%Z.
Proof.
  exact (proj2 (proj2 (proj2 (proj2 (context_window_resolution
    (cache_context_limit ∅ (bs "a::m") 9 false 0) (bs "b") (bs "m") None None (Some 7%Z) 5))))).
Defined.
