(* ===== verification/Thinking.v ===== *)
(** * Thinking blocks

    [agent/thinking.rs]: the one-shot removal of [<think>] blocks, the
    streaming filter, the heuristic for unfinished answers and the extraction
    of a result text.

    Both loops consume their text, so the length of the text is enough fuel
    ([strip_loop_fuel], [drain_fuel]).  The Unicode tables of
    [str::to_lowercase] are a parameter of [looks_incomplete]. *)
From S2P Require Import Prelude Json Messages.

Definition OPEN_TAGS : list str :=
  bs <$> ["<think>"; "<thinking>"; "<thinking "; "<think "; "<thought>"; "<antthinking>"]%string.
Definition CLOSE_TAGS : list str :=
  bs <$> ["</think>"; "</thinking>"; "</thought>"; "</antthinking>"]%string.
Definition PARTIAL_TAGS : list str :=
  bs <$> ["<think>"; "<thinking>"; "<thought>"; "<antthinking>";
          "</think>"; "</thinking>"; "</thought>"; "</antthinking>"]%string.

(** The first tag of the list that occurs, with its first position. *)
Fixpoint find_tag (tags : list str) (text : str) : option (nat * str) :=
  match tags with
  | [] => None
  | tag :: tags' =>
      match find_sub_ci tag text with
      | Some pos => Some (pos, tag)
      | None => find_tag tags' text
      end
  end.

(* @src opex-core/src/agent/thinking.rs 107-118 find_open_tag_ascii *)
Definition find_open_tag_ascii (text : str) : option nat :=
  fst <$> find_tag OPEN_TAGS text.

(* @src opex-core/src/agent/thinking.rs 121-131 find_close_tag_ascii *)
Definition find_close_tag_ascii (text : str) : option nat :=
  (λ p, p.1 + length p.2) <$> find_tag CLOSE_TAGS text.

Definition GT : ascii := ">"%char.
Definition LT : ascii := "<"%char.

(** What the loop of [strip_thinking] collects. *)
Fixpoint strip_loop (fuel : nat) (rest : str) : str :=
  match fuel with
  | O => rest
  | S fuel' =>
      match find_open_tag_ascii rest with
      | None => rest
      | Some start =>
          take start rest ++
          match find_char GT (drop start rest) with
          | Some p =>
              let after_open := start + p + 1 in
              match find_close_tag_ascii (drop after_open rest) with
              | Some close_len => strip_loop fuel' (drop (after_open + close_len) rest)
              | None => []
              end
          | None => []
          end
      end
  end.

(* @src opex-core/src/agent/thinking.rs 10-41 strip_thinking *)
Definition strip_thinking (text : str) : str := trim (strip_loop (S (length text)) text).

(* @src opex-core/src/agent/thinking.rs 134-157 safe_emit_len *)
Definition safe_emit_len (text : str) : nat :=
  match rfind_char LT text with
  | Some pos =>
      let tail_lower := to_ascii_lowercase (drop pos text) in
      let could_be_tag := existsb (λ tag, starts_with tail_lower tag) PARTIAL_TAGS in
      if could_be_tag then pos else length text
  | None => length text
  end.

(* @src opex-core/src/agent/thinking.rs 45-48 ThinkingFilter *)
Record ThinkingFilter := mkFilter { in_thinking : bool; buffer : str }.

(* @src opex-core/src/agent/thinking.rs 51-56 new *)
Definition new : ThinkingFilter := mkFilter false [].

(** The loop of [process]: what it emits and the state it leaves. *)
Fixpoint drain (fuel : nat) (f : ThinkingFilter) : str * ThinkingFilter :=
  match fuel with
  | O => ([], f)
  | S fuel' =>
      if in_thinking f then
        match find_close_tag_ascii (buffer f) with
        | Some pos => drain fuel' (mkFilter false (drop pos (buffer f)))
        | None =>
            if 20 <? length (buffer f) then
              let cut := floor_char_boundary (buffer f) (length (buffer f) - 20) in
              ([], mkFilter true (drop cut (buffer f)))
            else ([], f)
        end
      else
        match find_open_tag_ascii (buffer f) with
        | Some pos =>
            let rest := drop pos (buffer f) in
            let rest' := match find_char GT rest with
                         | Some e => drop (e + 1) rest
                         | None => []
                         end in
            let '(out, f') := drain fuel' (mkFilter true rest') in
            (take pos (buffer f) ++ out, f')
        | None =>
            let safe := safe_emit_len (buffer f) in
            (take safe (buffer f), mkFilter false (drop safe (buffer f)))
        end
  end.

(* @src opex-core/src/agent/thinking.rs 61-102 process *)
Definition process (f : ThinkingFilter) (chunk : str) : str * ThinkingFilter :=
  let f' := mkFilter (in_thinking f) (buffer f ++ chunk) in
  drain (S (length (buffer f'))) f'.

(** A whole stream: the concatenated output and the final state. *)
Fixpoint process_all (f : ThinkingFilter) (chunks : list str) : str * ThinkingFilter :=
  match chunks with
  | [] => ([], f)
  | k :: ks => let '(o, f') := process f k in
               let '(o', f'') := process_all f' ks in (o ++ o', f'')
  end.

Definition MARKERS : list str :=
  bs <$> ["далее нужно"; "следующий шаг"; "осталось сделать"; "затем нужно";
          "теперь нужно"; "нужно ещё"; "нужно еще"; "приступаю к"; "перехожу к";
          "next step"; "remaining steps"; "i'll now"; "i will then"; "starting with";
          "todo:"; "need to also"; "let's begin by"]%string.
Definition EXCLUSIONS : list str :=
  bs <$> ["можешь"; "хочешь"; "хотите"; "если нужно"; "при необходимости";
          "можно также"; "рекомендую"; "предлагаю"; "жду твоих"; "жду ваших";
          "would you like"; "do you want"; "if you need"; "you can"; "let me know"]%string.

(* @src opex-core/src/agent/thinking.rs 161-187 looks_incomplete *)
Definition looks_incomplete (to_lowercase : str → str) (text : str) : bool :=
  let lower := to_lowercase text in
  let trimmed := trim text in
  let is_open_code_block :=
    contains (bs "```") trimmed && negb (ends_with (bs "```") trimmed) &&
    negb (ends_with (bs "```" ++ [LF]) trimmed) in
  let ends_with_list_marker :=
    ends_with (bs ":") trimmed || ends_with (bs "-") trimmed ||
    match last trimmed with Some c => is_ascii_digit c | None => false end in
  let has_marker := existsb (λ m, contains m lower) MARKERS in
  let has_exclusion := existsb (λ m, contains m lower) EXCLUSIONS in
  (has_marker || is_open_code_block || ends_with_list_marker) && negb has_exclusion.

(* @src opex-core/src/agent/thinking.rs 196-206 extract_result_text *)
Definition extract_result_text {V} (content : str) (messages : list (Message V)) : str :=
  let stripped := strip_thinking content in
  if negb (bool_decide (trim stripped = [])) then stripped else
  match List.find (is_role Tool) (reverse messages) with
  | Some last_tool =>
      let preview := take_chars 3000 (Messages.content last_tool) in
      bs "[No summary from agent. Last tool output:]" ++ [LF] ++ preview
  | None => bs "(no result)"
  end.

Example strip_ex : strip_thinking (bs "a <Think>x</THINK> b ") = bs "a  b".
Proof. vm_compute. reflexivity. Qed.
Example leak_ex :
  strip_thinking (bs "<thinking>secret</thinking>x<think>b</think>") =
  bs "<thinking>secret</thinking>x".
Proof. vm_compute. reflexivity. Qed.
Example stream_ex :
  process_all new (bs <$> ["he<th"; "ink>a"; "b</thi"; "nk>llo"]%string) = (bs "hello", new).
Proof. vm_compute. reflexivity. Qed.

(** ** Searching for tags *)

Lemma lower_LT c : lower c = LT → c = LT.
Proof. destruct c as [[] [] [] [] [] [] [] []]; vm_compute; congruence. Qed.

Definition lt_headed (tag : str) : Prop := ∃ t, tag = LT :: t.

Lemma open_tags_headed : Forall lt_headed OPEN_TAGS.
Proof. repeat constructor; eexists; reflexivity. Qed.
Lemma close_tags_headed : Forall lt_headed CLOSE_TAGS.
Proof. repeat constructor; eexists; reflexivity. Qed.

Lemma starts_ci_other tag c s : lt_headed tag → c ≠ LT → starts_with_ci tag (c :: s) = false.
Proof.
  intros [t ->] Hc. unfold starts_with_ci, to_ascii_lowercase. cbn [fmap list_fmap starts_with].
  rewrite bool_decide_eq_false_2; [done|]. intros Heq. apply Hc, lower_LT. by rewrite <-Heq.
Qed.

(** Text without [<] is skipped. *)
Lemma find_sub_ci_skip tag x y :
  lt_headed tag → LT ∉ x →
  find_sub_ci tag (x ++ y) = (λ n, length x + n) <$> find_sub_ci tag y.
Proof.
  intros Ht. unfold find_sub_ci. induction x as [|c x IH]; intros Hx.
  - simpl. by destruct (find_suffix _ y).
  - apply not_elem_of_cons in Hx as [Hc Hx]. cbn [app find_suffix].
    rewrite starts_ci_other by done. rewrite IH by done. by destruct (find_suffix _ y).
Qed.

(** A text that begins with a [<] and then has a part without [<]. *)
Lemma find_sub_ci_one tag b o y :
  lt_headed tag → LT ∉ b → LT ∉ o → find_sub_ci tag y = None →
  find_sub_ci tag (b ++ (LT :: o) ++ y) =
  if starts_with_ci tag ((LT :: o) ++ y) then Some (length b) else None.
Proof.
  intros Ht Hb Ho Hy. rewrite find_sub_ci_skip by done.
  unfold find_sub_ci in *. cbn [app find_suffix].
  destruct (starts_with_ci tag (LT :: o ++ y)); simpl; [f_equal; lia|].
  fold (find_sub_ci tag (o ++ y)). rewrite find_sub_ci_skip by done.
  unfold find_sub_ci. by rewrite Hy.
Qed.

Lemma find_tag_None tags y :
  find_tag tags y = None ↔ Forall (λ tag, find_sub_ci tag y = None) tags.
Proof.
  induction tags as [|tag tags IH]; simpl; [done|]. rewrite Forall_cons.
  destruct (find_sub_ci tag y); [|naive_solver]. split; [done|]. by intros [? _].
Qed.

Lemma find_tag_one tags b o y :
  Forall lt_headed tags → LT ∉ b → LT ∉ o → find_tag tags y = None →
  find_tag tags (b ++ (LT :: o) ++ y) =
  (λ tag, (length b, tag)) <$> List.find (λ tag, starts_with_ci tag ((LT :: o) ++ y)) tags.
Proof.
  intros Ht Hb Ho. rewrite find_tag_None. induction Ht as [|tag tags Ht _ IH]; [done|].
  rewrite Forall_cons. intros [Hy Hys]. cbn [find_tag List.find].
  rewrite find_sub_ci_one by done. destruct (starts_with_ci _ _); [done|auto].
Qed.

Lemma find_tag_free tags y : Forall lt_headed tags → LT ∉ y → find_tag tags y = None.
Proof.
  intros Ht Hy. apply find_tag_None. eapply Forall_impl; [exact Ht|]. intros tag Htag.
  rewrite <-(app_nil_r y), find_sub_ci_skip by done. by destruct Htag as [t ->].
Qed.

(** ** Fuel *)

Lemma find_sub_ci_bound tag s n :
  find_sub_ci tag s = Some n → n + length tag ≤ length s.
Proof.
  intros (Hn & Hs & _)%find_suffix_Some. unfold starts_with_ci in Hs.
  apply starts_with_length in Hs. unfold to_ascii_lowercase in Hs.
  rewrite !length_fmap, length_drop in Hs. lia.
Qed.

Lemma find_tag_bound tags s n tag :
  find_tag tags s = Some (n, tag) → tag ∈ tags ∧ n + length tag ≤ length s.
Proof.
  induction tags as [|t tags IH]; simpl; [done|].
  destruct (find_sub_ci t s) eqn:Hf.
  - intros [= <- <-]. split; [by left|]. by apply find_sub_ci_bound.
  - intros [? ?]%IH. split; [by right|done].
Qed.

Lemma find_close_bound s n : find_close_tag_ascii s = Some n → 0 < n ≤ length s.
Proof.
  unfold find_close_tag_ascii. intros ([k tag] & Hf & ->)%fmap_Some.
  apply find_tag_bound in Hf as [Hin ?]. simpl.
  assert (0 < length tag); [|lia].
  assert (Forall (λ t, 0 < length t) CLOSE_TAGS) as Hall by (repeat constructor).
  rewrite Forall_forall in Hall. by apply Hall.
Qed.

Lemma find_open_bound s n : find_open_tag_ascii s = Some n → n < length s.
Proof.
  unfold find_open_tag_ascii. intros ([k tag] & Hf & ->)%fmap_Some.
  apply find_tag_bound in Hf as [Hin ?]. simpl.
  assert (0 < length tag); [|lia].
  assert (Forall (λ t, 0 < length t) OPEN_TAGS) as Hall by (repeat constructor).
  rewrite Forall_forall in Hall. by apply Hall.
Qed.

(** More fuel than the length of the text changes nothing. *)
Lemma strip_loop_fuel n m s : length s < n → length s < m → strip_loop n s = strip_loop m s.
Proof.
  revert m s. induction n as [|n IH]; intros [|m] s Hn Hm; try lia. cbn [strip_loop].
  destruct (find_open_tag_ascii s) as [st|] eqn:Ho; [|done].
  apply find_open_bound in Ho. f_equal.
  destruct (find_char GT (drop st s)) as [p|]; [|done].
  destruct (find_close_tag_ascii _) as [cl|] eqn:Hc; [|done].
  apply find_close_bound in Hc. rewrite length_drop in Hc.
  apply IH; rewrite length_drop; lia.
Qed.

Lemma drain_fuel n m f :
  length (buffer f) < n → length (buffer f) < m → drain n f = drain m f.
Proof.
  revert m f. induction n as [|n IH]; intros [|m] f Hn Hm; try lia. cbn [drain].
  destruct (in_thinking f).
  - destruct (find_close_tag_ascii _) as [p|] eqn:Hc; [|done].
    apply find_close_bound in Hc. apply IH; simpl; rewrite length_drop; lia.
  - destruct (find_open_tag_ascii _) as [p|] eqn:Ho; [|done].
    apply find_open_bound in Ho.
    assert (drain n (mkFilter true (match find_char GT (drop p (buffer f)) with
              | Some e => drop (e + 1) (drop p (buffer f)) | None => [] end)) =
            drain m (mkFilter true (match find_char GT (drop p (buffer f)) with
              | Some e => drop (e + 1) (drop p (buffer f)) | None => [] end))) as ->;
      [|done].
    apply IH; simpl; (destruct (find_char _ _); [rewrite !length_drop|simpl]); lia.
Qed.

(** ** The stream and the one-shot filter agree *)

Lemma starts_with_one c d s : starts_with [c] (d :: s) = bool_decide (c = d).
Proof. simpl. by destruct s; rewrite andb_true_r. Qed.

Lemma rfind_char_None c s : c ∉ s → rfind_char c s = None.
Proof.
  unfold rfind_char. induction s as [|d s IH]; intros Hs; [done|].
  apply not_elem_of_cons in Hs as [Hd Hs]. cbn [rfind_suffix].
  rewrite IH by done. rewrite starts_with_one, bool_decide_eq_false_2; done.
Qed.

Lemma rfind_char_Some c x y : c ∉ y → rfind_char c (x ++ c :: y) = Some (length x).
Proof.
  intros Hy. induction x as [|d x IH]; unfold rfind_char in *; cbn [app rfind_suffix].
  - fold (rfind_char c y). rewrite rfind_char_None by done.
    by rewrite starts_with_one, bool_decide_eq_true_2.
  - by rewrite IH.
Qed.

Lemma floor_char_boundary_le s n : floor_char_boundary s n ≤ n.
Proof.
  induction n as [|n IH]; cbn [floor_char_boundary].
  - case_if; bool_hyps; lia.
  - case_if; bool_hyps; [lia|].
    destruct (s !! S n) as [d|] eqn:Hd; [case_if; lia|].
    apply lookup_ge_None in Hd. lia.
Qed.

Definition run (f : ThinkingFilter) : str * ThinkingFilter := drain (S (length (buffer f))) f.

Lemma run_close buf p :
  find_close_tag_ascii buf = Some p →
  run (mkFilter true buf) = run (mkFilter false (drop p buf)).
Proof.
  intros Hp. unfold run at 1. cbn [drain in_thinking buffer]. rewrite Hp.
  apply find_close_bound in Hp. apply drain_fuel; simpl; rewrite length_drop; lia.
Qed.

Lemma run_open buf p e :
  find_open_tag_ascii buf = Some p → find_char GT (drop p buf) = Some e →
  run (mkFilter false buf) =
  let '(out, f') := run (mkFilter true (drop (e + 1) (drop p buf))) in
  (take p buf ++ out, f').
Proof.
  intros Hp He. unfold run at 1. cbn [drain in_thinking buffer]. rewrite Hp, He.
  apply find_open_bound in Hp. unfold run.
  rewrite (drain_fuel (length buf) (S (length (buffer (mkFilter true (drop (e + 1) (drop p buf)))))));
    simpl; rewrite ?length_drop; try lia. done.
Qed.

Definition OPENS : list str := bs <$> ["<think>"; "<thinking>"; "<thought>"; "<antthinking>"]%string.

(** Facts about the concrete tags, by evaluation. *)
Definition strict_prefixes (t : str) : list str := (λ n, take n t) <$> seq 0 (length t).

Lemma strict_prefix_elem (t u v : str) : t = u ++ v → v ≠ [] → u ∈ strict_prefixes t.
Proof.
  intros -> Hv. apply list_elem_of_fmap. exists (length u).
  rewrite take_app_length. split; [done|]. apply elem_of_seq. rewrite length_app.
  destruct v; simpl; [done|lia].
Qed.

Definition no_tag (tags : list str) (u : str) : bool :=
  negb (existsb (λ tag, starts_with_ci tag u) tags).
Definition partial_ok (u : str) : bool :=
  bool_decide (u = []) || existsb (λ tag, starts_with (to_ascii_lowercase u) tag) PARTIAL_TAGS.

Lemma no_tag_find tags u :
  no_tag tags u = true → List.find (λ tag, starts_with_ci tag u) tags = None.
Proof.
  unfold no_tag. induction tags as [|t tags IH]; [done|]. simpl.
  destruct (starts_with_ci t u); [done|apply IH].
Qed.

Lemma prefixes_facts :
  forallb (λ C, forallb (no_tag CLOSE_TAGS) (strict_prefixes C) &&
                forallb (no_tag OPEN_TAGS) (strict_prefixes C)) CLOSE_TAGS &&
  forallb (λ O, forallb (no_tag OPEN_TAGS) (strict_prefixes O) &&
                forallb partial_ok (strict_prefixes O)) OPENS = true.
Proof. vm_compute. reflexivity. Qed.

(** The shape of a tag: [<] once, at the start, and at most 14 bytes. *)
Definition tag_shape (t : str) : Prop := ∃ o, t = LT :: o ∧ LT ∉ o ∧ length t ≤ 14.
Lemma tag_shapes : Forall tag_shape (OPENS ++ CLOSE_TAGS).
Proof.
  assert (Forall (λ t, match t with d :: o => d = LT ∧ LT ∉ o ∧ length t ≤ 14 | [] => False end)
            (OPENS ++ CLOSE_TAGS)) as H.
  { repeat constructor; try (apply (bool_decide_unpack _); vm_compute; exact I);
      simpl; lia. }
  eapply Forall_impl; [exact H|]. intros [|d o]; [done|]. intros (-> & ? & ?). by exists o.
Qed.

Section stream.
Context (a O b C c : str).
Context (HO : O ∈ OPENS) (HC : C ∈ CLOSE_TAGS).
Context (Ha : LT ∉ a) (Hb : LT ∉ b) (Hc : LT ∉ c).

Lemma O_shape : tag_shape O.
Proof. pose proof tag_shapes as H. rewrite Forall_app, !Forall_forall in H. destruct H; auto. Qed.
Lemma C_shape : tag_shape C.
Proof. pose proof tag_shapes as H. rewrite Forall_app, !Forall_forall in H. destruct H; auto. Qed.

Lemma C_prefix u : u ∈ strict_prefixes C →
  no_tag CLOSE_TAGS u = true ∧ no_tag OPEN_TAGS u = true.
Proof.
  pose proof prefixes_facts as [H _]%andb_prop. rewrite forallb_elem in H.
  specialize (H C HC). apply andb_prop in H as [H1 H2].
  rewrite forallb_elem in H1, H2. auto.
Qed.
Lemma O_prefix u : u ∈ strict_prefixes O → no_tag OPEN_TAGS u = true ∧ partial_ok u = true.
Proof.
  pose proof prefixes_facts as [_ H]%andb_prop. rewrite forallb_elem in H.
  specialize (H O HO). apply andb_prop in H as [H1 H2].
  rewrite forallb_elem in H1, H2. auto.
Qed.

(** The tags at the head of a text. *)
Lemma C_found y : List.find (λ tag, starts_with_ci tag (C ++ y)) CLOSE_TAGS = Some C.
Proof. clear -HC. unfold CLOSE_TAGS in HC. repeat (apply elem_of_cons in HC as [->|HC]; [reflexivity|]). by apply elem_of_nil in HC. Qed.
Lemma C_not_open y : List.find (λ tag, starts_with_ci tag (C ++ y)) OPEN_TAGS = None.
Proof. clear -HC. unfold CLOSE_TAGS in HC. repeat (apply elem_of_cons in HC as [->|HC]; [reflexivity|]). by apply elem_of_nil in HC. Qed.
Lemma O_found y : is_Some (List.find (λ tag, starts_with_ci tag (O ++ y)) OPEN_TAGS).
Proof. clear -HO. unfold OPENS in HO. repeat (apply elem_of_cons in HO as [->|HO]; [by eexists|]). by apply elem_of_nil in HO. Qed.
Lemma O_gt y : find_char GT (O ++ y) = Some (length O - 1).
Proof. clear -HO. unfold OPENS in HO. repeat (apply elem_of_cons in HO as [->|HO]; [reflexivity|]). by apply elem_of_nil in HO. Qed.

(** A part of a tag that is no full tag is not found. *)
Lemma find_tag_partial tags x u v t :
  Forall lt_headed tags → LT ∉ x → tag_shape t → t = u ++ v →
  no_tag tags u = true → find_tag tags (x ++ u) = None.
Proof.
  intros Ht Hx (o & Ho & Hno & _) Huv Hu. destruct u as [|d u].
  - rewrite app_nil_r. by apply find_tag_free.
  - rewrite Ho in Huv. injection Huv as <- ->.
    apply not_elem_of_app in Hno as [Hno _].
    rewrite <-(app_nil_r (LT :: u)), find_tag_one by (done || by apply find_tag_free, not_elem_of_nil).
    by rewrite app_nil_r, no_tag_find.
Qed.

Lemma open_none y R : y ++ R = b ++ C ++ c → find_tag OPEN_TAGS y = None.
Proof.
  intros [(u & -> & Hu)|(k & -> & _)]%app_eq_inv.
  - symmetry in Hu. apply app_eq_inv in Hu as [(z & -> & ->)|(k & HCk & ->)].
    + apply not_elem_of_app in Hc as [Hz _].
      destruct C_shape as (o & Ho & Hno & _). pose proof (C_not_open z) as Hf. rewrite Ho in *.
      rewrite find_tag_one by (done || apply open_tags_headed || by apply find_tag_free; [apply open_tags_headed|]).
      by rewrite Hf.
    + destruct k as [|d k].
      * rewrite app_nil_r in HCk. subst u. destruct C_shape as (o & Ho & Hno & _).
        pose proof (C_not_open []) as Hf. rewrite Ho in *.
        rewrite <-(app_nil_r (LT :: o)), find_tag_one by
          (done || apply open_tags_headed || by apply find_tag_free; [apply open_tags_headed|apply not_elem_of_nil]).
        by rewrite Hf.
      * eapply find_tag_partial; [apply open_tags_headed|done|apply C_shape|exact HCk|].
        by apply C_prefix, (strict_prefix_elem _ _ (d :: k)).
  - apply not_elem_of_app in Hb as [Hy _]. apply find_tag_free; [apply open_tags_headed|done].
Qed.

(** Where the filter is in the text; [R] is what has not arrived yet. *)
Inductive phase (R : str) : ThinkingFilter → str → Prop :=
| phase_before buf a' out :
    buf ++ R = a' ++ O ++ b ++ C ++ c → LT ∉ a' → out ++ a' = a →
    phase R (mkFilter false buf) out
| phase_inside buf b' :
    buf ++ R = b' ++ C ++ c → LT ∉ b' → phase R (mkFilter true buf) a
| phase_after buf out :
    LT ∉ buf → LT ∉ R → out ++ buf ++ R = a ++ c → phase R (mkFilter false buf) out.

(** What one run must establish. *)
Definition advanced (R out : str) (r : str * ThinkingFilter) : Prop :=
  phase R r.2 (out ++ r.1) ∧ (R = [] → r.2 = new ∧ out ++ r.1 = a ++ c).

Lemma run_plain buf : LT ∉ buf → run (mkFilter false buf) = (buf, new).
Proof.
  intros Hbuf. unfold run. cbn [drain in_thinking buffer]. unfold find_open_tag_ascii.
  rewrite find_tag_free by (done || apply open_tags_headed). simpl.
  unfold safe_emit_len. rewrite rfind_char_None by done.
  by rewrite take_ge, drop_ge by lia.
Qed.

Lemma run_after R buf out :
  LT ∉ buf → LT ∉ R → out ++ buf ++ R = a ++ c → advanced R out (run (mkFilter false buf)).
Proof.
  intros Hbuf HR Heq. rewrite run_plain by done. split; simpl.
  - apply phase_after; [by apply not_elem_of_nil|done|]. by rewrite <-app_assoc.
  - intros ->. by rewrite app_nil_r in Heq.
Qed.

Lemma run_inside R buf b' :
  buf ++ R = b' ++ C ++ c → LT ∉ b' → advanced R a (run (mkFilter true buf)).
Proof.
  intros Heq Hb'. destruct C_shape as (o & Ho & Hno & Hlen).
  pose proof Heq as Heq0. rewrite app_assoc in Heq.
  apply app_eq_inv in Heq as [(y & -> & Hy)|(t & Ht & ->)].
  - assert (LT ∉ y ∧ LT ∉ R) as [Hly HlR] by (rewrite Hy in Hc; by apply not_elem_of_app in Hc).
    rewrite (run_close _ (length (b' ++ C))).
    + rewrite drop_app_length. apply run_after; [done..|]. by rewrite Hy.
    + unfold find_close_tag_ascii. pose proof (C_found y) as Hf. rewrite <-app_assoc.
      rewrite Ho in Hf |- *. rewrite find_tag_one by
        (done || apply close_tags_headed || by apply find_tag_free; [apply close_tags_headed|]).
      rewrite Hf. simpl. by rewrite length_app.
  - destruct t as [|d t].
    { rewrite app_nil_r in Ht. subst buf. rewrite (run_close _ (length (b' ++ C))).
      - rewrite drop_all. apply run_after; [by apply not_elem_of_nil|done|done].
      - unfold find_close_tag_ascii. pose proof (C_found []) as Hf.
        rewrite <-(app_nil_r C). rewrite Ho in Hf |- *. rewrite find_tag_one by
          (done || apply close_tags_headed || by apply find_tag_free; [apply close_tags_headed|apply not_elem_of_nil]).
        rewrite Hf. simpl. by rewrite !length_app, app_nil_r. }
    assert (length b' + length C = length buf + S (length t)) as Hl.
    { apply (f_equal length) in Ht. rewrite !length_app in Ht. simpl in Ht. lia. }
    assert (find_close_tag_ascii buf = None) as Hnone.
    { unfold find_close_tag_ascii. symmetry in Ht.
      apply app_eq_inv in Ht as [(u & -> & Hu)|(k & -> & _)].
      - rewrite (find_tag_partial _ _ _ (d :: t) C); [done|apply close_tags_headed|done|apply C_shape|done|].
        by apply C_prefix, (strict_prefix_elem _ _ (d :: t)).
      - apply not_elem_of_app in Hb' as [Hbuf _].
        rewrite find_tag_free; [done|apply close_tags_headed|done]. }
    unfold run. cbn [drain in_thinking buffer]. rewrite Hnone.
    split; [|by intros [=]]. case_if; bool_hyps; simpl; rewrite app_nil_r.
    + pose proof (floor_char_boundary_le buf (length buf - 20)) as Hcut.
      set (cut := floor_char_boundary buf (length buf - 20)) in *.
      apply (phase_inside _ _ (drop cut b')).
      * apply (f_equal (drop cut)) in Heq0.
        rewrite !drop_app_le in Heq0 by lia. done.
      * intros Hin. apply Hb'. rewrite <-(take_drop cut b'). apply elem_of_app. by right.
    + by apply (phase_inside _ _ b').
Qed.

Lemma run_before R buf a' out :
  buf ++ R = a' ++ O ++ b ++ C ++ c → LT ∉ a' → out ++ a' = a →
  advanced R out (run (mkFilter false buf)).
Proof.
  intros Heq Ha' Hout. destruct O_shape as (o & Ho & Hno & _).
  rewrite app_assoc in Heq. apply app_eq_inv in Heq as [(y & -> & Hy)|(t & Ht & ->)].
  - assert (find_open_tag_ascii ((a' ++ O) ++ y) = Some (length a')) as Hop.
    { unfold find_open_tag_ascii. destruct (O_found y) as [tag Hf].
      rewrite <-app_assoc. rewrite Ho in Hf |- *.
      rewrite find_tag_one by (done || apply open_tags_headed || by apply (open_none y R)).
      by rewrite Hf. }
    rewrite (run_open _ (length a') (length O - 1)); [|done|].
    + rewrite <-app_assoc, drop_app_length, take_app_length.
      replace (length O - 1 + 1) with (length O) by (rewrite Ho; simpl; lia).
      rewrite drop_app_length.
      pose proof (run_inside R y b) as Hr. destruct (run (mkFilter true y)) as [o2 f2].
      rewrite <-Hout in *. unfold advanced in *. simpl in *. rewrite (app_assoc out a' o2).
      apply Hr; done.
    + by rewrite <-app_assoc, drop_app_length, O_gt.
  - destruct (decide (t = [])) as [->|Hne].
    { rewrite app_nil_r in Ht. subst buf.
      assert (find_open_tag_ascii (a' ++ O) = Some (length a')) as Hop.
      { unfold find_open_tag_ascii. destruct (O_found []) as [tag Hf].
        rewrite <-(app_nil_r O). rewrite Ho in Hf |- *.
        rewrite find_tag_one by (done || apply open_tags_headed ||
          by apply find_tag_free; [apply open_tags_headed|apply not_elem_of_nil]).
        by rewrite Hf. }
      rewrite (run_open _ (length a') (length O - 1)); [|done|].
      - rewrite drop_app_length, take_app_length.
        replace (length O - 1 + 1) with (length O) by (rewrite Ho; simpl; lia).
        rewrite drop_all.
        pose proof (run_inside (b ++ C ++ c) [] b) as Hr.
        destruct (run (mkFilter true [])) as [o2 f2].
        rewrite <-Hout in *. unfold advanced in *. simpl in *. rewrite (app_assoc out a' o2).
        apply Hr; done.
      - pose proof (O_gt []) as Hg. rewrite app_nil_r in Hg. by rewrite drop_app_length. }
    assert (LT ∉ buf → advanced (t ++ b ++ C ++ c) out (run (mkFilter false buf))) as Hplain.
    { intros Hbuf. rewrite run_plain by done. split; [|by destruct t].
      symmetry in Ht. apply app_eq_inv in Ht as [(u & -> & Hu)|(k & -> & ->)].
      - apply (phase_before _ _ []); simpl; [|by apply not_elem_of_nil|].
        + destruct u as [|d u]; [by rewrite Hu|]. exfalso. apply Hbuf.
          rewrite Ho in Hu. injection Hu as <- _. apply elem_of_app. right. by left.
        + assert (u = []) as ->; [|by rewrite !app_nil_r].
          destruct u as [|d u]; [done|]. exfalso. apply Hbuf.
          rewrite Ho in Hu. injection Hu as <- _. apply elem_of_app. right. by left.
      - apply (phase_before _ _ k); simpl; [by rewrite <-app_assoc| |by rewrite <-app_assoc].
        intros Hin. apply Ha'. apply elem_of_app. by right. }
    pose proof Ht as Ht0. symmetry in Ht.
    apply app_eq_inv in Ht as [(u & -> & Hu)|(k & -> & _)];
      [|by apply Hplain; apply not_elem_of_app in Ha' as [? _]].
    destruct u as [|d u]; [rewrite app_nil_r in *; by apply Hplain|].
    destruct (O_prefix (d :: u)) as [Hn Hp]; [by apply (strict_prefix_elem _ _ t)|].
    pose proof Hu as Hu0. rewrite Ho in Hu. injection Hu as <- Hou.
    assert (LT ∉ u) as Hlu by (rewrite Hou in Hno; by apply not_elem_of_app in Hno as [? _]).
    unfold run. cbn [drain in_thinking buffer]. unfold find_open_tag_ascii.
    rewrite (find_tag_partial _ _ _ t O); [|apply open_tags_headed|done|apply O_shape|done|done].
    simpl. unfold safe_emit_len. rewrite rfind_char_Some by done.
    rewrite drop_app_length. unfold partial_ok in Hp. cbn [bool_decide orb] in Hp.
    rewrite bool_decide_eq_false_2 in Hp by done. cbn [orb] in Hp. rewrite Hp.
    rewrite take_app_length, drop_app_length. split; [|by destruct t]. simpl.
    apply (phase_before _ _ []); [|by apply not_elem_of_nil|by rewrite app_nil_r].
    rewrite app_assoc, <-Hu0. done.
Qed.

Lemma run_phase R f k out :
  phase (k ++ R) f out → advanced R out (process f k).
Proof.
  intros Hph. unfold process. cbv zeta.
  change (drain (S (length (buffer ?g))) ?g) with (run g).
  inversion Hph as [buf a' ? Heq ? ?|buf b' Heq ?|buf ? Hbuf HR Heq]; subst; cbn [in_thinking buffer];
    rewrite ?app_assoc in Heq.
  - eapply run_before; [|done|done]. by rewrite Heq, <-!app_assoc.
  - eapply run_inside; [|done]. by rewrite Heq, <-!app_assoc.
  - apply not_elem_of_app in HR as [? ?]. apply run_after; [|done|].
    + by apply not_elem_of_app.
    + by rewrite <-!app_assoc in *.
Qed.

Lemma process_all_phase chunks f out :
  chunks ≠ [] → phase (concat chunks) f out →
  let '(o, f') := process_all f chunks in f' = new ∧ out ++ o = a ++ c.
Proof.
  revert f out. induction chunks as [|k ks IH]; intros f out Hne Hph; [done|].
  simpl in Hph. apply run_phase in Hph as [Hph Hend]. cbn [process_all].
  destruct (process f k) as [o1 f1]. simpl in *. destruct ks as [|k2 ks].
  - simpl in *. destruct (Hend eq_refl) as [-> Ho]. by rewrite app_nil_r.
  - specialize (IH f1 (out ++ o1) ltac:(done) Hph).
    destruct (process_all f1 (k2 :: ks)) as [o2 f2].
    by rewrite <-app_assoc in IH.
Qed.

(** One round of the one-shot loop. *)
Lemma strip_loop_block n :
  strip_loop (S (S n)) (a ++ O ++ b ++ C ++ c) = a ++ c.
Proof.
  destruct O_shape as (o & Ho & Hno & _). destruct C_shape as (o' & Ho' & Hno' & _).
  assert (find_open_tag_ascii (a ++ O ++ b ++ C ++ c) = Some (length a)) as Hop.
  { unfold find_open_tag_ascii. destruct (O_found (b ++ C ++ c)) as [tag Hf].
    rewrite Ho in Hf |- *.
    rewrite find_tag_one by (done || apply open_tags_headed ||
      by apply (open_none _ []); rewrite app_nil_r).
    by rewrite Hf. }
  cbn [strip_loop]. rewrite Hop, take_app_length, drop_app_length, O_gt.
  assert (length a + (length O - 1) + 1 = length (a ++ O)) as ->
    by (rewrite length_app, Ho; simpl; lia).
  rewrite (app_assoc a O), drop_app_length.
  assert (find_close_tag_ascii (b ++ C ++ c) = Some (length (b ++ C))) as Hcl.
  { unfold find_close_tag_ascii. pose proof (C_found c) as Hf. rewrite Ho' in Hf |- *.
    rewrite find_tag_one by (done || apply close_tags_headed ||
      by apply find_tag_free; [apply close_tags_headed|]).
    rewrite Hf. simpl. by rewrite length_app. }
  rewrite Hcl. f_equal.
  assert ((a ++ O) ++ b ++ C ++ c = ((a ++ O) ++ b ++ C) ++ c) as -> by (by rewrite <-!app_assoc).
  rewrite <-length_app, drop_app_length.
  unfold find_open_tag_ascii. by rewrite find_tag_free by (done || apply open_tags_headed).
Qed.
End stream.

Lemma strip_loop_S n rest :
  strip_loop (S n) rest =
  match find_open_tag_ascii rest with
  | None => rest
  | Some start =>
      take start rest ++
      match find_char GT (drop start rest) with
      | Some p =>
          match find_close_tag_ascii (drop (start + p + 1) rest) with
          | Some close_len => strip_loop n (drop (start + p + 1 + close_len) rest)
          | None => []
          end
      | None => []
      end
  end.
Proof. done. Qed.

(** ** Properties *)

(** A thinking block is removed exactly, and the stream cannot tell how it
    was cut: for a text with one block, in any of the four tags, upper or
    lower case apart, the streaming filter emits the text around the block
    for every division of the text into chunks, even in the middle of a tag,
    and ends in its initial state; the one-shot function returns the same
    text trimmed. *)
Theorem thinking_block_removed (a O b C c : str) (chunks : list str) :
  O ∈ OPENS → C ∈ CLOSE_TAGS → LT ∉ a → LT ∉ b → LT ∉ c →
  concat chunks = a ++ O ++ b ++ C ++ c →
  process_all new chunks = (a ++ c, new) ∧
  strip_thinking (concat chunks) = trim (a ++ c).
Proof.
  intros HO HC Ha Hb Hc Htext. split.
  - pose proof (process_all_phase a O b C c HO HC Ha Hb Hc chunks new []) as H.
    destruct (process_all new chunks) as [o f']. destruct H as [-> Hout]; [| |simpl in Hout; by rewrite Hout].
    + intros ->. simpl in Htext. destruct (O_shape O HO) as (x & -> & _).
      by destruct a.
    + rewrite Htext. by apply (phase_before _ _ _ _ _ _ _ a).
  - unfold strip_thinking. f_equal. rewrite Htext.
    rewrite (strip_loop_fuel _ (S (S (length (a ++ O ++ b ++ C ++ c))))) by lia.
    by apply strip_loop_block.
Qed.

(** The search prefers a tag kind to a position: in an answer whose first
    block is a [<thinking>] block and whose second one is a [<think>] block,
    the first block is not removed, and its content reaches the user. *)
Theorem first_block_leaks (s t u : str) :
  LT ∉ s → LT ∉ t → LT ∉ u →
  let shown := bs "<thinking>" ++ s ++ bs "</thinking>" ++ t in
  strip_thinking (shown ++ bs "<think>" ++ u ++ bs "</think>") = trim shown.
Proof.
  intros Hs Ht Hu shown. unfold strip_thinking. f_equal.
  set (text := shown ++ _). rewrite (strip_loop_fuel _ (S (S (length text)))) by lia.
  assert (∀ x y, lt_headed x → LT ∉ y → find_sub_ci x y = None) as Hfree.
  { intros x y Hx Hy. rewrite <-(app_nil_r y), find_sub_ci_skip by done.
    by destruct Hx as [? ->]. }
  assert (lt_headed (bs "<think>")) as Hh by (by eexists).
  assert (find_open_tag_ascii text = Some (length shown)) as Hop.
  { unfold find_open_tag_ascii, text, shown. cbn [OPEN_TAGS fmap list_fmap find_tag].
    assert (∀ x o y, LT ∉ x → LT ∉ o → starts_with_ci (bs "<think>") ((LT :: o) ++ y) = false →
      find_sub_ci (bs "<think>") (x ++ (LT :: o) ++ y) =
      (λ n, length x + S (length o) + n) <$> find_sub_ci (bs "<think>") y) as Hskip.
    { intros x o y Hx Ho Hf. rewrite find_sub_ci_skip by done. unfold find_sub_ci at 1.
      cbn [app find_suffix]. cbn [app] in Hf. rewrite Hf. fold (find_sub_ci (bs "<think>") (o ++ y)).
      rewrite find_sub_ci_skip by done. destruct (find_sub_ci _ y); simpl; [f_equal; lia|done]. }
    rewrite <-!app_assoc.
    change (bs "<thinking>") with ([] ++ (LT :: bs "thinking>")).
    change (bs "</thinking>") with (LT :: bs "/thinking>").
    rewrite <-(app_assoc []). rewrite (Hskip [] (bs "thinking>")); [|by apply not_elem_of_nil| |done];
      [|apply (bool_decide_unpack _); vm_compute; exact I].
    rewrite (Hskip s (bs "/thinking>")); [|done| |done];
      [|apply (bool_decide_unpack _); vm_compute; exact I].
    rewrite find_sub_ci_skip by done. simpl. f_equal. rewrite !length_app. simpl. lia. }
  rewrite strip_loop_S, Hop. unfold text. clearbody shown.
  rewrite take_app_length, drop_app_length.
  change (find_char GT (bs "<think>" ++ ?y)) with (Some 6). cbv iota.
  replace (length shown + 6 + 1) with (length (shown ++ bs "<think>"))
    by (rewrite length_app; simpl; lia).
  rewrite (app_assoc shown), drop_app_length.
  assert (find_close_tag_ascii (u ++ bs "</think>") = Some (length (u ++ bs "</think>"))) as ->.
  { unfold find_close_tag_ascii. cbn [CLOSE_TAGS fmap list_fmap find_tag].
    rewrite find_sub_ci_skip by (done || by eexists). simpl. f_equal. rewrite length_app. simpl. lia. }
  rewrite <-length_app, drop_all. by rewrite app_nil_r.
Qed.

Lemma thinking_block_witness :
  process_all new [bs "a<th"; bs "ink>x</th"; bs "ink> b"] = (bs "a b", new).
Proof.
  assert (bs "<think>" ∈ OPENS) as HO by (by left).
  assert (bs "</think>" ∈ CLOSE_TAGS) as HC by (by left).
  assert (LT ∉ bs "a") as Ha by (apply (bool_decide_unpack _); vm_compute; exact I).
  assert (LT ∉ bs "x") as Hb by (apply (bool_decide_unpack _); vm_compute; exact I).
  assert (LT ∉ bs " b") as Hc by (apply (bool_decide_unpack _); vm_compute; exact I).
  exact (proj1 (thinking_block_removed (bs "a") (bs "<think>") (bs "x") (bs "</think>") (bs " b")
    [bs "a<th"; bs "ink>x</th"; bs "ink> b"] HO HC Ha Hb Hc eq_refl)).
Defined.

Lemma first_block_leaks_witness :
  strip_thinking (bs "<thinking>key</thinking>hi<think>x</think>") = bs "<thinking>key</thinking>hi".
Proof.
  assert (LT ∉ bs "key") as H1 by (apply (bool_decide_unpack _); vm_compute; exact I).
  assert (LT ∉ bs "hi") as H2 by (apply (bool_decide_unpack _); vm_compute; exact I).
  assert (LT ∉ bs "x") as H3 by (apply (bool_decide_unpack _); vm_compute; exact I).
  exact (first_block_leaks (bs "key") (bs "hi") (bs "x") H1 H2 H3).
Defined.
