(* ===== verification/Compressor.v ===== *)
(** * The compaction trigger

    [agent/compressor.rs] and the compaction section of the configuration
    ([config/mod.rs]).  The thresholds are computed in binary64, as in the
    code; token counts are [u32] values in [Z]. *)
From S2P Require Import Prelude.

(* @src opex-core/src/config/mod.rs 1980-2007 CompactionConfig *)
Record CompactionConfig := mkCompactionConfig {
  enabled : bool;
  threshold : f64;
  preserve_tool_calls : bool;
  preserve_last_n : nat;
  max_context_tokens : option Z;
  protect_first_n : nat;
  summary_target_ratio : f64;
  anti_thrash_min_savings : f64;
  anti_thrash_max_skips : Z;
  extract_to_memory : bool;
}.

(* @src opex-core/src/config/mod.rs 2009-2049 default *)
Definition default_compaction_config : CompactionConfig :=
  {| enabled := true; threshold := f64_lit 8 10; preserve_tool_calls := false;
     preserve_last_n := 10; max_context_tokens := None; protect_first_n := 3;
     summary_target_ratio := f64_lit 2 10; anti_thrash_min_savings := f64_lit 1 10;
     anti_thrash_max_skips := 2; extract_to_memory := true |}.

(* @src opex-core/src/agent/compressor.rs 9-9 HARD_COMPACT_CEILING *)
Definition HARD_COMPACT_CEILING : f64 := f64_lit 92 100.

(* @src opex-core/src/agent/compressor.rs 14-18 CompressorState *)
Record CompressorState := mkCompressorState {
  st_previous_summary : option str;
  st_ineffective_count : Z;
  st_compression_count : Z;
}.

(* @src opex-core/src/agent/compressor.rs 22-28 Compressor *)
Record Compressor := mkCompressor {
  previous_summary : option str;
  ineffective_count : Z;
  last_prompt_tokens : Z;
  compression_count : Z;
  context_limit : Z;
}.

(* @src opex-core/src/agent/compressor.rs 31-39 new *)
Definition new (limit : Z) : Compressor := mkCompressor None 0 0 0 limit.

(** [decode] and [encode] are the derived serde instances of the state. *)
(* @src opex-core/src/agent/compressor.rs 41-56 load *)
Definition load {V} (decode : V → option CompressorState) (state : option V) (limit : Z)
    : Compressor :=
  let c := new limit in
  match state with
  | Some val =>
      match decode val with
      | Some s => mkCompressor (st_previous_summary s) (st_ineffective_count s) 0
                    (st_compression_count s) limit
      | None => c
      end
  | None => c
  end.

(* @src opex-core/src/agent/compressor.rs 58-65 to_json *)
Definition to_json {V} (encode : CompressorState → V) (c : Compressor) : V :=
  encode (mkCompressorState (previous_summary c) (ineffective_count c) (compression_count c)).

(** [context_limit as f64 * fraction], truncated to [u32]. *)
Definition fraction_of_window (c : Compressor) (fraction : f64) : Z :=
  f64_to_u 32 (f64_mul (f64_of_Z (context_limit c)) fraction).

(* @src opex-core/src/agent/compressor.rs 67-103 should_compress *)
Definition should_compress (c : Compressor) (cfg : CompactionConfig) : bool :=
  if negb (enabled cfg) then false else
  if (last_prompt_tokens c =? 0)%Z then false else
  let limit := fraction_of_window c (threshold cfg) in
  if (last_prompt_tokens c <? limit)%Z then false else
  let hard_ceiling := fraction_of_window c HARD_COMPACT_CEILING in
  if (hard_ceiling <=? last_prompt_tokens c)%Z then true else
  if (anti_thrash_max_skips cfg <=? ineffective_count c)%Z then false else
  true.

(* @src opex-core/src/agent/compressor.rs 105-107 update_token_count *)
Definition update_token_count (c : Compressor) (input_tokens : Z) : Compressor :=
  mkCompressor (previous_summary c) (ineffective_count c) input_tokens
    (compression_count c) (context_limit c).

Definition savings (tokens_before tokens_after : Z) : f64 :=
  if (0 <? tokens_before)%Z
  then f64_div (f64_of_Z (sat_sub tokens_before tokens_after)) (f64_of_Z tokens_before)
  else f64_of_Z 0.

(* @src opex-core/src/agent/compressor.rs 109-132 record_compression_result *)
Definition record_compression_result (c : Compressor) (tokens_before tokens_after : Z)
    (cfg : CompactionConfig) : Compressor :=
  let ineffective := f64_lt (savings tokens_before tokens_after) (anti_thrash_min_savings cfg) in
  mkCompressor (previous_summary c)
    (if ineffective then sat_add 8 (ineffective_count c) 1 else 0%Z)
    (last_prompt_tokens c)
    (sat_add 32 (compression_count c) 1)
    (context_limit c).

Definition set_previous_summary (s : option str) (c : Compressor) : Compressor :=
  mkCompressor s (ineffective_count c) (last_prompt_tokens c) (compression_count c)
    (context_limit c).

(** ** Theorems *)

(** The results of a sequence of compactions that each saved too little. *)
Definition ineffective_run (cfg : CompactionConfig) (c : Compressor) (l : list (Z * Z)) : Compressor :=
  foldl (λ c p, record_compression_result c p.1 p.2 cfg) c l.

Lemma ineffective_run_count cfg c l :
  in_u 8 (ineffective_count c) →
  Forall (λ p, f64_lt (savings p.1 p.2) (anti_thrash_min_savings cfg) = true) l →
  ineffective_count (ineffective_run cfg c l) =
    Z.min 255 (ineffective_count c + Z.of_nat (length l)) ∧
  last_prompt_tokens (ineffective_run cfg c l) = last_prompt_tokens c ∧
  context_limit (ineffective_run cfg c l) = context_limit c.
Proof.
  intros Hc Hl. revert c Hc. induction Hl as [|p l Hp _ IH]; intros c Hc.
  - unfold in_u, umax in Hc. simpl. split_and!; [lia|done|done].
  - destruct (IH (record_compression_result c p.1 p.2 cfg)) as (H1 & H2 & H3).
    + simpl. rewrite Hp. unfold in_u, sat_add, umax in *. lia.
    + unfold ineffective_run in *. simpl. split_and!; [|by rewrite H2|by rewrite H3].
      rewrite H1. simpl. rewrite Hp. unfold in_u, sat_add, umax in *. lia.
Qed.

(** Compaction is attempted only when it is enabled, a prompt was counted
    and it reaches the threshold; then it is attempted always at or above the
    hard ceiling, and below it until [anti_thrash_max_skips] compactions in a
    row saved too little, after which it stays off; one effective compaction
    turns it on again. *)
Theorem compaction_trigger (c : Compressor) (cfg : CompactionConfig) (l : list (Z * Z)) (before after : Z) :
  in_u 8 (ineffective_count c) → in_u 8 (anti_thrash_max_skips cfg) →
  enabled cfg = true → last_prompt_tokens c ≠ 0%Z →
  (fraction_of_window c (threshold cfg) <= last_prompt_tokens c)%Z →
  Forall (λ p, f64_lt (savings p.1 p.2) (anti_thrash_min_savings cfg) = true) l →
  let c' := ineffective_run cfg c l in
  let hard := (fraction_of_window c HARD_COMPACT_CEILING <= last_prompt_tokens c)%Z in
  (hard → should_compress c' cfg = true) ∧
  (¬ hard → should_compress c' cfg =
    (ineffective_count c + Z.of_nat (length l) <? anti_thrash_max_skips cfg)%Z) ∧
  (f64_lt (savings before after) (anti_thrash_min_savings cfg) = false →
   (0 < anti_thrash_max_skips cfg)%Z →
   should_compress (record_compression_result c' before after cfg) cfg = true).
Proof.
  intros Hc Hm He Hp Ht Hl c' hard.
  destruct (ineffective_run_count cfg c l Hc Hl) as (H1 & H2 & H3).
  assert (∀ x, ineffective_count x = ineffective_count x → last_prompt_tokens x = last_prompt_tokens c →
    context_limit x = context_limit c →
    should_compress x cfg = (fraction_of_window c HARD_COMPACT_CEILING <=? last_prompt_tokens c)%Z
      || negb (anti_thrash_max_skips cfg <=? ineffective_count x)%Z) as Hs.
  { intros x _ Hx1 Hx2. unfold should_compress, fraction_of_window in *.
    rewrite He, Hx1, Hx2. simpl. rewrite (proj2 (Z.eqb_neq _ _) Hp).
    rewrite (proj2 (Z.ltb_ge _ _) Ht). repeat case_if; done. }
  split_and!.
  - intros Hh. rewrite Hs by done. unfold hard in Hh. apply Z.leb_le in Hh. by rewrite Hh.
  - intros Hh. rewrite Hs by done. unfold hard in Hh. apply Z.leb_nle in Hh. rewrite Hh. simpl.
    fold c' in H1. rewrite H1. unfold in_u, umax in *. lia.
  - intros Hf Hpos. rewrite Hs by done. simpl. rewrite Hf.
    apply orb_true_iff. right. apply negb_true_iff, Z.leb_gt. done.
Qed.

(** The state survives a save and a load. *)
Lemma load_to_json {V} (encode : CompressorState → V) (decode : V → option CompressorState) c :
  (∀ s, decode (encode s) = Some s) →
  load decode (Some (to_json encode c)) (context_limit c) = update_token_count c 0.
Proof. intros Hd. unfold load, to_json. by rewrite Hd. Qed.

Example trigger_ex1 :
  (λ n, should_compress (update_token_count (new 100000) n) default_compaction_config) <$>
    [79999; 80000; 91999; 92000]%Z = [false; true; true; true].
Proof. vm_compute. reflexivity. Qed.

Lemma trigger_witness :
  should_compress (ineffective_run default_compaction_config
    (update_token_count (new 100000) 85000) [(1000, 950)%Z; (950, 940)%Z]) default_compaction_config = false.
Proof.
  set (c := update_token_count (new 100000) 85000). set (l := [(1000, 950)%Z; (950, 940)%Z]).
  assert (in_u 8 (ineffective_count c)) as H1 by (vm_compute; split; congruence).
  assert (in_u 8 (anti_thrash_max_skips default_compaction_config)) as H2
    by (vm_compute; split; congruence).
  assert (last_prompt_tokens c ≠ 0%Z) as H3 by (vm_compute; congruence).
  assert (fraction_of_window c (threshold default_compaction_config) <= last_prompt_tokens c)%Z as H4
    by (vm_compute; congruence).
  assert (Forall (λ p, f64_lt (savings p.1 p.2)
    (anti_thrash_min_savings default_compaction_config) = true) l) as H5
    by (repeat constructor).
  assert (¬ (fraction_of_window c HARD_COMPACT_CEILING <= last_prompt_tokens c)%Z) as H6
    by (vm_compute; intros Hn; by apply Hn).
  destruct (compaction_trigger c default_compaction_config l 0 0 H1 H2 eq_refl H3 H4 H5) as (_ & H & _).
  rewrite (H H6). reflexivity.
Defined.
