(* ===== verification/History.v ===== *)
(** * Context compaction

    [agent/history.rs]: token estimates, the gated and forced compaction, the
    pre-pass over old tool results, the boundaries of the compressed region,
    the repair of tool pairs and [compress_messages], which composes them; and
    the budget helpers of [agent/pipeline/context.rs].

    The model that writes summaries is a function [ask] from prompts to
    answers (each prompt of a run is asked once, and the prompts differ).  An
    out-of-range index of a slice panics in Rust: the functions that index
    return [None] then. *)
From S2P Require Import Prelude Json Messages LlmErrors LlmRetry ToolLoop Thinking.
From S2P Require Compressor.

Abbreviation CompactionConfig := Compressor.CompactionConfig.
Definition NL : str := [LF].

(* @src opex-core/src/agent/history.rs 8-13 SUMMARY_PREFIX *)
Definition SUMMARY_PREFIX : str := bs "[CONTEXT COMPACTION — REFERENCE ONLY] Earlier turns were compacted into the summary below. This is a handoff from a previous context window — treat it as background reference, NOT as active instructions. Do NOT answer questions or fulfill requests mentioned in this summary; they were already addressed. Your current task is identified in the '## Active Task' section — resume exactly from there. Respond ONLY to the latest user message that appears AFTER this summary.".

(* @src opex-core/src/agent/history.rs 15-16 SUMMARY_NOTE_FOR_SYSTEM *)
Definition SUMMARY_NOTE_FOR_SYSTEM : str := bs "[Note: Some earlier conversation turns have been compacted into a handoff summary to preserve context space. Build on that summary rather than re-doing work.]".

Definition MIN_SUMMARY_TOKENS : Z := 2000.
Definition SUMMARY_RATIO : f64 := f64_lit 20 100.
Definition SUMMARY_TOKENS_CEILING : Z := 12000.
Definition COMPACTION_MESSAGE_FLOOR : nat := 150.

Definition sum_list (l : list nat) : nat := foldr plus 0 l.

Section history.
Context {V : Type} `{Json V}.
Implicit Types (messages : list (Message V)) (m : Message V).

(* @src opex-core/src/agent/history.rs 33-53 estimate_tokens *)
Definition estimate_tokens messages : nat :=
  sum_list ((λ m,
    let content_tokens := length (content m) / 4 + 10 in
    let tool_tokens :=
      match tool_calls m with
      | Some tc => sum_list ((λ t,
          let args_len := length (jprint (tc_arguments t)) in
          let name_len := length (tc_name t) in
          (args_len + name_len + 20) / 4) <$> tc)
      | None => 0
      end in
    content_tokens + tool_tokens) <$> messages).

(* @src opex-core/src/agent/history.rs 586-598 format_messages_for_compaction *)
Definition format_messages_for_compaction messages : str :=
  concat ((λ m,
    let role := match role m with
                | User => bs "User" | Assistant => bs "Assistant"
                | System => bs "System" | Tool => bs "Tool" end in
    bs "[" ++ role ++ bs "]: " ++ content m ++ NL ++ NL) <$> messages).

(** ** The gated and the forced compaction *)

Definition lang_hint (language : option str) : str :=
  if bool_decide (language = Some (bs "ru")) then bs " Write each fact in Russian."
  else if bool_decide (language = Some (bs "en")) then bs " Write each fact in English."
  else [].

(* @src opex-core/src/agent/history.rs 159-199 extraction_prompt *)
Definition extraction_prompt (formatted : str) (language : option str) : list (Message V) :=
  [ text_message System
      (bs "Extract key facts from this conversation as a JSON array of strings." ++ NL ++ NL ++
       bs "MUST PRESERVE:" ++ NL ++
       bs "- Active tasks with their current status and progress (e.g. '5/17 items done')" ++ NL ++
       bs "- All identifiers: UUIDs, URLs, file paths, IPs, hostnames, port numbers, service names" ++ NL ++
       bs "- Decisions made and their rationale" ++ NL ++
       bs "- User preferences and requirements discovered" ++ NL ++
       bs "- Error conditions encountered and their resolutions" ++ NL ++
       bs "- Commitments, action items, and deadlines" ++ NL ++ NL ++
       bs "MAY OMIT:" ++ NL ++
       bs "- Routine greetings and confirmations" ++ NL ++
       bs "- Tool calls that succeeded without noteworthy results" ++ NL ++
       bs "- Repeated information already captured in other facts" ++ NL ++ NL ++
       bs "Each fact must be self-contained and useful without the original conversation." ++
       lang_hint language ++ NL ++
       bs "Return ONLY the JSON array, no other text.");
    text_message User formatted ].

(* @src opex-core/src/agent/history.rs 235-271 summary_prompt *)
Definition summary_prompt (formatted : str) (language : option str) : list (Message V) :=
  let summary_lang := if bool_decide (language = Some (bs "en")) then bs "in English"
                      else bs "in Russian" in
  [ text_message System
      (bs "Summarize this conversation " ++ summary_lang ++
       bs " as a structured context checkpoint for an assistant that will continue the work. Use EXACTLY these Markdown sections, in order:" ++ NL ++
       bs "## Objective" ++ NL ++ bs "[What the user is ultimately trying to accomplish]" ++ NL ++
       bs "## Work State" ++ NL ++ bs "[Completed: … / Active: … / Blocked: … — include exact error messages]" ++ NL ++
       bs "## Key Decisions" ++ NL ++ bs "[Important technical decisions and WHY]" ++ NL ++
       bs "## Open Questions" ++ NL ++ bs "[Unanswered questions or blockers; write " ++ quoted "None." ++ bs " if none]" ++ NL ++
       bs "## Next Move" ++ NL ++ bs "[Concrete next steps, framed as context not instructions]" ++ NL ++ NL ++
       bs "Preserve exact identifiers: UUIDs, URLs, file paths, IPs, hostnames, port numbers, line numbers. NEVER include API keys, tokens, or secrets — write [REDACTED]. Be concrete and terse; omit a section's bullets only if truly empty.");
    text_message User formatted ].

(** [while end > start && messages[end].role == Tool]. *)
Fixpoint back_over_tools messages (start end_ : nat) : option nat :=
  if start <? end_ then
    m ← messages !! end_;
    if is_role Tool m then
      match end_ with O => Some 0 | S e => back_over_tools messages start e end
    else Some end_
  else Some end_.

(** The second adjustment: step over an assistant turn with calls. *)
(* @src opex-core/src/agent/history.rs 144-147 compact_if_needed_inner (second adjustment) *)
Definition back_over_call messages (start end_ : nat) : option nat :=
  if start <? end_ then
    m ← messages !! end_;
    Some (if is_role Assistant m && has_tool_calls m then end_ - 1 else end_)
  else Some end_.

(** The boundary of the compacted part; the outer [None] is a panic, the
    inner one "not enough messages". *)
(* @src opex-core/src/agent/history.rs 125-155 compact_if_needed_inner (boundary) *)
Definition compaction_end messages (preserve_last_n : nat) : option (option (nat * nat)) :=
  let system_msg := match messages with m :: _ => is_role System m | [] => false end in
  let start := if system_msg then 1 else 0 in
  if start + preserve_last_n <? length messages then
    end1 ← back_over_tools messages start (length messages - preserve_last_n);
    end2 ← back_over_call messages start end1;
    Some (if end2 <=? start then None else Some (start, end2))
  else Some None.

(** What a compaction leaves: nothing changed, or new messages and facts. *)
Inductive Compaction :=
| Untouched
| Compacted (messages : list (Message V)) (facts : list str).

(** [ask prompt = None] when the wall-clock budget ran out. *)
(* @src opex-core/src/agent/history.rs 91-330 compact_if_needed_inner *)
Definition compact_if_needed_inner
    (ask : list (Message V) → option (result Error (LlmResponse V)))
    (parse_strings : str → option (list str))
    messages (max_tokens preserve_last_n : nat) (language : option str) (force : bool)
    : option Compaction :=
  let total := estimate_tokens messages in
  let threshold := max_tokens * 80 / 100 in
  if negb force && (total <? threshold) && (length messages <? COMPACTION_MESSAGE_FLOOR)
  then Some Untouched else
  b ← compaction_end messages preserve_last_n;
  match b with
  | None => Some Untouched
  | Some (start, end_) =>
      let to_compact := take (end_ - start) (drop start messages) in
      let formatted := format_messages_for_compaction to_compact in
      match ask (extraction_prompt formatted language) with
      | None | Some (Err _) => Some Untouched
      | Some (Ok facts_response) =>
          let extracted_facts := default [] (parse_strings (r_content facts_response)) in
          match ask (summary_prompt formatted language) with
          | None | Some (Err _) => Some Untouched
          | Some (Ok summary_response) =>
              let preserved := drop end_ messages in
              let summary_text := strip_thinking (r_content summary_response) in
              Some (Compacted
                (take start messages ++
                 (if bool_decide (trim summary_text = []) then []
                  else [text_message System (bs "[Previous conversation summary]" ++ NL ++ summary_text)]) ++
                 preserved)
                extracted_facts)
          end
      end
  end.

(* @src opex-core/src/agent/history.rs 58-67 compact_if_needed *)
Definition compact_if_needed ask parse_strings messages max_tokens preserve_last_n language :=
  compact_if_needed_inner ask parse_strings messages max_tokens preserve_last_n language false.

(* @src opex-core/src/agent/history.rs 80-88 force_compact *)
Definition force_compact ask parse_strings messages preserve_last_n language :=
  compact_if_needed_inner ask parse_strings messages 0 preserve_last_n language true.

(** ** Progress header *)

(** Stable insertion by decreasing count. *)
Fixpoint insert_desc (p : str * nat) (l : list (str * nat)) : list (str * nat) :=
  match l with
  | [] => [p]
  | q :: r => if q.2 <=? p.2 then p :: q :: r else q :: insert_desc p r
  end.
Definition sort_desc (l : list (str * nat)) : list (str * nat) := foldr insert_desc [] l.

(** [entries] is the iteration order of the detector's map, which Rust leaves
    unspecified; [to_lowercase] the Unicode table. *)
(* @src opex-core/src/agent/history.rs 336-368 generate_progress_header *)
Definition generate_progress_header (to_lowercase : str → str) (entries : list (str * nat))
    (iterations : nat) messages : str :=
  let top_tools := (λ p, p.1 ++ bs "(" ++ dec p.2 ++ bs ")") <$> take 5 (sort_desc entries) in
  let error_count := length (List.filter (λ m,
    is_role Tool m && contains (bs "error") (to_lowercase (content m))) messages) in
  let tools_str := if bool_decide (top_tools = []) then bs "none" else join (bs ", ") top_tools in
  let header := bs "[Session Progress] Iterations: " ++ dec iterations ++
                bs ". Tools called: " ++ tools_str ++ bs "." in
  if 0 <? error_count
  then header ++ bs " Errors encountered: " ++ dec error_count ++ bs " tool failures."
  else header.

(* @src opex-core/src/agent/history.rs 372-379 remove_progress_header *)
Definition remove_progress_header messages : list (Message V) :=
  List.filter (λ m,
    negb ((is_role Tool m && starts_with (bs "[Session Progress]") (content m)) ||
          (is_role System m && starts_with (bs "[Session Progress]") (content m)))) messages.

(** ** Phase 1: old tool results *)

Definition DUPLICATE_MARK : str :=
  bs "[Duplicate tool output — same content as a more recent call]".

(** The state of the duplicate scan. *)
Record PruneState := mkPrune {
  p_result : list (Message V);
  p_hashes : gmap Z nat;
  p_canonical : gset nat;
}.

(** One step of the scan, at index [i]. *)
Definition prune_step (content_hash : str → Z) (prune_end : nat) (st : PruneState) (i : nat)
    : PruneState :=
  match p_result st !! i with
  | None => st
  | Some m =>
      if negb (is_role Tool m) then st else
      if length (content m) <? 200 then st else
      let h := content_hash (content m) in
      match p_hashes st !! h with
      | Some newer_idx =>
          if (i <? newer_idx) && (i <? prune_end)
          then mkPrune (<[i := set_content DUPLICATE_MARK m]> (p_result st)) (p_hashes st)
                 ({[newer_idx]} ∪ p_canonical st)
          else st
      | None => mkPrune (p_result st) (<[h := i]> (p_hashes st)) (p_canonical st)
      end
  end.

(** The replacement of one old result by its size. *)
Definition prune_message (prune_end : nat) (canonical : gset nat) (i : nat) m : Message V :=
  if negb (i <? prune_end) then m else
  if bool_decide (i ∈ canonical) then m else
  if negb (is_role Tool m) then m else
  if length (content m) <=? 200 then m else
  if starts_with (bs "[") (content m) then m else
  set_content (bs "[tool result " ++ default [] (tool_call_id m) ++ bs "] (" ++
               dec (length (content m)) ++ bs " chars — pruned)") m.

(* @src opex-core/src/agent/history.rs 384-434 prune_old_tool_results *)
Definition prune_old_tool_results (content_hash : str → Z) messages (protect_tail : nat)
    : list (Message V) :=
  let prune_end := length messages - protect_tail in
  let st := foldl (prune_step content_hash prune_end) (mkPrune messages ∅ ∅)
              (reverse (seq 0 (length messages))) in
  imap (prune_message prune_end (p_canonical st)) (p_result st).

(** ** Phase 2: boundaries *)

(** The [while] loop over the tool messages at [idx]. *)
Fixpoint over_tools (rest : list (Message V)) (idx : nat) : nat :=
  match rest with
  | m :: r => if is_role Tool m then over_tools r (S idx) else idx
  | [] => idx
  end.

(* @src opex-core/src/agent/history.rs 438-444 find_head_end *)
Definition find_head_end messages (protect_first_n : nat) : nat :=
  let idx := Nat.min protect_first_n (length messages) in
  over_tools (drop idx messages) idx.

(** The token scan from the end; [k] indices above [head_end] are left. *)
Fixpoint tail_scan messages (head_end min_tail : nat) (soft_ceiling : Z)
    (k : nat) (accumulated : Z) (cut_idx : nat) : option nat :=
  match k with
  | O => Some cut_idx
  | S k' =>
      let i := head_end + k' in
      m ← messages !! i;
      let msg_tokens := Z.of_nat (length (content m) / 4 + 10) in
      if (soft_ceiling <? accumulated + msg_tokens)%Z && (min_tail <=? length messages - i)
      then Some cut_idx
      else tail_scan messages head_end min_tail soft_ceiling k' (accumulated + msg_tokens)%Z i
  end.

Definition is_user_turn m : bool :=
  is_role User m && negb (starts_with SUMMARY_PREFIX (content m)).

(** [tail_budget] is a [usize]; the answer is [None] on a panic. *)
(* @src opex-core/src/agent/history.rs 447-510 find_tail_start_by_tokens *)
Definition find_tail_start_by_tokens messages (head_end : nat) (tail_budget : Z) : option nat :=
  let n := length messages in
  if n <=? head_end + 1 then Some n else
  let min_tail := Nat.min 3 (n - head_end - 1) in
  let soft_ceiling := f64_to_u 64 (f64_mul (f64_of_Z tail_budget) (f64_lit 3 2)) in
  cut0 ← tail_scan messages head_end min_tail soft_ceiling (n - head_end) 0 n;
  let cut1 := Nat.min cut0 (n - min_tail) in
  let last_user_idx := (λ rel, rel + head_end) <$> rposition is_user_turn (drop head_end messages) in
  let cut2 := match last_user_idx with
              | Some user_idx => if user_idx <? cut1 then user_idx else cut1
              | None => cut1
              end in
  cut3 ← back_over_tools messages head_end cut2;
  cut4 ← back_over_call messages head_end cut3;
  if match last_user_idx with
     | Some user_idx => (user_idx =? head_end) && (cut4 <=? head_end)
     | None => false
     end
  then Some head_end
  else Some (Nat.max cut4 (head_end + 1)).

(** ** Phase 5: tool pairs *)

Definition STUB : str := bs "[Result from earlier conversation — see context summary above]".

Definition call_ids messages : list str :=
  concat ((λ m, if is_role Assistant m then tc_id <$> calls_of m else []) <$> messages).
Definition result_ids messages : list str :=
  omap (λ m, if is_role Tool m then tool_call_id m else None) messages.

Definition stub (id : str) : Message V := mkMessage Tool STUB None (Some id) [] None.

(* @src opex-core/src/agent/history.rs 513-583 sanitize_tool_pairs *)
Definition sanitize_tool_pairs messages : list (Message V) :=
  let surviving_call_ids : gset str := list_to_set (call_ids messages) in
  let result_call_ids : gset str := list_to_set (result_ids messages) in
  let kept := List.filter (λ m,
    if is_role Tool m then
      match tool_call_id m with
      | Some id => bool_decide (id ∈ surviving_call_ids)
      | None => false
      end
    else true) messages in
  let missing_ids := surviving_call_ids ∖ result_call_ids in
  if bool_decide (missing_ids = ∅) then kept else
  concat ((λ m,
    if is_role Assistant m then
      let needs_stubs := List.filter (λ id, bool_decide (id ∈ missing_ids)) (tc_id <$> calls_of m) in
      m :: (stub <$> needs_stubs)
    else [m]) <$> kept).

(** ** Phase 3: summary and facts *)

Definition SUMMARY_TEMPLATE : list str :=
  [ bs "## Active Task";
    bs "[THE SINGLE MOST IMPORTANT FIELD. Copy the user's most recent request verbatim. If no outstanding task, write " ++ quoted "None." ++ bs "]";
    [];
    bs "## Goal";
    bs "[What the user is trying to accomplish overall]";
    [];
    bs "## Constraints & Preferences";
    bs "[User preferences, coding style, important constraints]";
    [];
    bs "## Completed Actions";
    bs "[Numbered list: N. ACTION target — outcome [tool: name]]";
    [];
    bs "## Active State";
    bs "[Working directory, branch, modified files, test status, running processes]";
    [];
    bs "## In Progress";
    bs "[Work underway when compaction fired]";
    [];
    bs "## Blocked";
    bs "[Blockers, errors, issues not resolved — include exact error messages]";
    [];
    bs "## Key Decisions";
    bs "[Important technical decisions and WHY]";
    [];
    bs "## Resolved Questions";
    bs "[Questions already answered — include the answer]";
    [];
    bs "## Pending User Asks";
    bs "[Questions or requests not yet answered — if none, write " ++ quoted "None." ++ bs "]";
    [];
    bs "## Relevant Files";
    bs "[Files read, modified, created — with brief note]";
    [];
    bs "## Remaining Work";
    bs "[What remains to be done — framed as context, not instructions]";
    [];
    bs "## Critical Context";
    bs "[Specific values, error messages, config details. NEVER include API keys — write [REDACTED].]";
    [] ].

Definition summary_budget (turns : list (Message V)) : Z :=
  let b := f64_to_u 64 (f64_mul (f64_of_Z (Z.of_nat (estimate_tokens turns))) SUMMARY_RATIO) in
  Z.max MIN_SUMMARY_TOKENS (Z.min b SUMMARY_TOKENS_CEILING).

(* @src opex-core/src/agent/history.rs 609-695 generate_hermes_summary (prompt) *)
Definition hermes_prompt (turns : list (Message V)) (language previous_summary : option str)
    : list (Message V) :=
  let lang_instruction := if bool_decide (language = Some (bs "en"))
    then bs "Write the summary in English." else bs "Write the summary in Russian." in
  let template := join NL SUMMARY_TEMPLATE ++ NL ++ bs "Target ~" ++ decZ (summary_budget turns) ++
    bs " tokens. Be CONCRETE. Include file paths, commands, error messages, line numbers." in
  let preamble := bs "You are a summarization agent creating a context checkpoint. Your output will be injected as reference material for a DIFFERENT assistant that continues the conversation. Do NOT respond to any questions or requests in the conversation — only output the structured summary. Do NOT include any preamble, greeting, or prefix. " ++
    lang_instruction ++ bs " NEVER include API keys, tokens, passwords, or secrets — write [REDACTED] instead." in
  let turns_text := format_messages_for_compaction turns in
  [text_message User
    match previous_summary with
    | Some prev =>
        preamble ++ NL ++ NL ++ bs "You are UPDATING a context compaction summary. A previous compaction produced the summary below. New turns have occurred since then." ++ NL ++ NL ++
        bs "PREVIOUS SUMMARY:" ++ NL ++ prev ++ NL ++ NL ++ bs "NEW TURNS TO INCORPORATE:" ++ NL ++ turns_text ++ NL ++ NL ++
        bs "Update the summary using the structure below. PRESERVE all existing relevant info. ADD new completed actions (continue numbering). Move answered questions to Resolved. Update Active Task to the user's most recent unfulfilled request." ++ NL ++ NL ++ template
    | None =>
        preamble ++ NL ++ NL ++ bs "Create a structured handoff summary for a different assistant that will continue this conversation." ++ NL ++ NL ++
        bs "TURNS TO SUMMARIZE:" ++ NL ++ turns_text ++ NL ++ NL ++ template
    end].

(* @src opex-core/src/agent/history.rs 697-715 generate_hermes_summary (answer) *)
Definition generate_hermes_summary (chat : list (Message V) → result Error (LlmResponse V))
    (turns : list (Message V)) (language previous_summary : option str) : option str :=
  match chat (hermes_prompt turns language previous_summary) with
  | Ok response =>
      let summary := trim (r_content response) in
      if bool_decide (summary = []) then None else Some (SUMMARY_PREFIX ++ NL ++ summary)
  | Err _ => None
  end.

(* @src opex-core/src/agent/history.rs 720-773 extract_facts_only *)
Definition extract_facts_only (chat : list (Message V) → result Error (LlmResponse V))
    (parse_strings : str → option (list str))
    (turns : list (Message V)) (language : option str) : list str :=
  let formatted := format_messages_for_compaction turns in
  let prompt := [
    text_message System
      (bs "Extract key facts from this conversation as a JSON array of strings." ++ NL ++
       bs "MUST PRESERVE: active tasks with progress, UUIDs/URLs/file paths/IPs, decisions and rationale, user preferences, error conditions and resolutions, commitments." ++ NL ++
       bs "MAY OMIT: routine greetings, tool calls without noteworthy results, repeated info." ++ NL ++
       bs "Each fact must be self-contained." ++ lang_hint language ++ NL ++
       bs "Return ONLY the JSON array, no other text.");
    text_message User formatted ] in
  match chat prompt with
  | Ok resp => default [] (parse_strings (r_content resp))
  | Err _ => []
  end.

(** ** The whole compression *)

(** The rows handed to the database, when the compressed range has ids. *)
(* @src opex-core/src/agent/history.rs 999-1016 CompressionEvent *)
Record CompressionEvent := mkEvent {
  ev_compressed_ids : list Uuid;
  ev_segment_index : Z;
  ev_summary : str;
  ev_first_compressed_id : option Uuid;
  ev_first_live_id : option Uuid;
  ev_tokens_before : Z;
  ev_tokens_after : Z;
}.

Record Compressed := mkCompressed {
  c_messages : list (Message V);
  c_compressor : Compressor.Compressor;
  c_facts : list str;
  c_event : option CompressionEvent;
}.

(** Phase 4: [head ++ summary ++ tail], the summary merged into the tail when
    the roles would collide. *)
(* @src opex-core/src/agent/history.rs 899-987 compress_messages (phase 4) *)
Definition assemble (head tail : list (Message V)) (summary_text : str) : list (Message V) :=
  let head_is_system_only := forallb (is_role System) head in
  let force_user_leading := bool_decide (head = []) || head_is_system_only in
  let summary_role :=
    if force_user_leading ||
       match last head with
       | Some m => is_role Assistant m || is_role Tool m
       | None => false
       end
    then User else Assistant in
  let assembled :=
    imap (λ i msg,
      if (i =? 0) && is_role System msg && negb (contains SUMMARY_NOTE_FOR_SYSTEM (content msg))
      then set_content (content msg ++ NL ++ NL ++ SUMMARY_NOTE_FOR_SYSTEM) msg else msg) head in
  let first_tail_role := role <$> List.hd_error tail in
  let merge_into_tail :=
    bool_decide (first_tail_role = Some summary_role) &&
    bool_decide (role <$> last assembled =
      Some (if bool_decide (summary_role = User) then Assistant else User)) in
  if negb merge_into_tail then
    let role :=
      if force_user_leading then summary_role
      else if bool_decide (first_tail_role = Some summary_role)
      then (if bool_decide (summary_role = User) then Assistant else User)
      else summary_role in
    assembled ++ [text_message role summary_text] ++ tail
  else
    match tail with
    | first_tail :: rest =>
        assembled ++
        set_content (summary_text ++ NL ++ NL ++
          bs "--- END OF CONTEXT SUMMARY — respond to the message below ---" ++ NL ++ NL ++
          content first_tail) first_tail :: rest
    | [] => assembled
    end.

Definition static_summary (n : nat) : str :=
  SUMMARY_PREFIX ++ NL ++ bs "Summary generation was unavailable. " ++ dec n ++
  bs " message(s) were removed to free context space. Continue based on the recent messages below.".

(** The outer [None] is a panic, the inner one "nothing to summarise". *)
(* @src opex-core/src/agent/history.rs 818-898 compress_messages (phases 1-3) *)
Definition compress_messages (content_hash : str → Z)
    (chat : list (Message V) → result Error (LlmResponse V))
    (parse_strings : str → option (list str))
    messages (compressor : Compressor.Compressor) (cfg : CompactionConfig)
    (language : option str) : option (option Compressed) :=
  let tokens_before := wrap 32 (Z.of_nat (estimate_tokens messages)) in
  let pruned := prune_old_tool_results content_hash messages (Compressor.preserve_last_n cfg) in
  let head_end := find_head_end pruned (Compressor.protect_first_n cfg) in
  let tail_budget := f64_to_u 64
    (f64_mul (f64_mul (f64_of_Z (Compressor.context_limit compressor)) (Compressor.threshold cfg))
       (Compressor.summary_target_ratio cfg)) in
  tail_start ← find_tail_start_by_tokens pruned head_end tail_budget;
  if tail_start <=? head_end then Some None else
  let turns := take (tail_start - head_end) (drop head_end pruned) in
  let compressed_ids := omap db_id turns in
  let first_compressed_id := List.hd_error turns ≫= db_id in
  let first_live_id := pruned !! tail_start ≫= db_id in
  let segment_index := Compressor.compression_count compressor in
  let tail := drop tail_start pruned in
  let head := take head_end pruned in
  let summary := generate_hermes_summary chat turns language (Compressor.previous_summary compressor) in
  let facts := if Compressor.extract_to_memory cfg
               then extract_facts_only chat parse_strings turns language else [] in
  let summary_text := default (static_summary (length turns)) summary in
  let messages' := sanitize_tool_pairs (assemble head tail summary_text) in
  let tokens_after := wrap 32 (Z.of_nat (estimate_tokens messages')) in
  let compressor' := Compressor.record_compression_result
    (Compressor.set_previous_summary (Some summary_text) compressor) tokens_before tokens_after cfg in
  Some (Some (mkCompressed messages' compressor' facts
    (if bool_decide (compressed_ids = []) then None
     else Some (mkEvent compressed_ids segment_index summary_text first_compressed_id
                  first_live_id tokens_before tokens_after)))).

(** ** What the providers send

    [strip_orphaned_tool_messages] of [agent/providers/mod.rs]. *)
Fixpoint strip_orphans (result_set valid_call_ids : gset str) messages : list (Message V) :=
  match messages with
  | [] => []
  | msg :: rest =>
      match role msg with
      | Assistant =>
          let ids := tc_id <$> calls_of msg in
          if bool_decide (ids = []) then msg :: strip_orphans result_set valid_call_ids rest
          else if forallb (λ id, bool_decide (id ∈ result_set)) ids
          then msg :: strip_orphans result_set (list_to_set ids ∪ valid_call_ids) rest
          else strip_orphans result_set valid_call_ids rest
      | Tool =>
          let in_valid := match tool_call_id msg with
                          | Some id => bool_decide (id ∈ valid_call_ids)
                          | None => false
                          end in
          if in_valid then msg :: strip_orphans result_set valid_call_ids rest
          else strip_orphans result_set valid_call_ids rest
      | _ => msg :: strip_orphans result_set valid_call_ids rest
      end
  end.

(* @src opex-core/src/agent/providers/mod.rs 436-499 strip_orphaned_tool_messages *)
Definition strip_orphaned_tool_messages messages : list (Message V) :=
  strip_orphans (list_to_set (result_ids messages)) ∅ messages.
End history.

(** ** Tool pairs *)

Section pairs.
Context {V : Type}.
Implicit Types (ms : list (Message V)) (m : Message V).

(** Every tool result names a call, and every call has a result. *)
Definition paired ms : Prop :=
  (∀ m, m ∈ ms → role m = Tool → ∃ id, tool_call_id m = Some id ∧ id ∈ call_ids ms) ∧
  (∀ id, id ∈ call_ids ms → id ∈ result_ids ms).

Lemma call_ids_app ms1 ms2 : call_ids (ms1 ++ ms2) = call_ids ms1 ++ call_ids ms2.
Proof. unfold call_ids. by rewrite fmap_app, concat_app. Qed.

Lemma call_ids_elem id ms :
  id ∈ call_ids ms ↔ ∃ m, m ∈ ms ∧ role m = Assistant ∧ id ∈ tc_id <$> calls_of m.
Proof.
  induction ms as [|m ms IH].
  - split; [by intros ?%elem_of_nil|]. by intros (? & ?%elem_of_nil & _).
  - change (m :: ms) with ([m] ++ ms) at 1. rewrite call_ids_app, elem_of_app, IH.
    unfold call_ids. simpl. rewrite app_nil_r. setoid_rewrite elem_of_cons. split.
    + intros [Hid|(m' & ? & ? & ?)]; [|by eauto].
      destruct (is_role Assistant m) eqn:Hr; [|by apply elem_of_nil in Hid].
      apply is_role_spec in Hr. eauto.
    + intros (m' & [->|?] & Hr & ?); [left|by eauto].
      apply is_role_spec in Hr. by rewrite Hr.
Qed.

Lemma result_ids_elem id ms :
  id ∈ result_ids ms ↔ ∃ m, m ∈ ms ∧ role m = Tool ∧ tool_call_id m = Some id.
Proof.
  unfold result_ids. rewrite list_elem_of_omap. split.
  - intros (m & ? & Hm). destruct (is_role Tool m) eqn:Hr; [|done].
    apply is_role_spec in Hr. eauto.
  - intros (m & ? & Hr & ?). exists m. apply is_role_spec in Hr. by rewrite Hr.
Qed.

(** The messages that survive the first filter. *)
Definition keeps_result (ids : gset str) m : bool :=
  if is_role Tool m then
    match tool_call_id m with Some id => bool_decide (id ∈ ids) | None => false end
  else true.

Lemma sanitize_elem ms m :
  m ∈ sanitize_tool_pairs ms ↔
  (m ∈ ms ∧ keeps_result (list_to_set (call_ids ms)) m = true) ∨
  (∃ id, m = stub id ∧ id ∈ call_ids ms ∧ id ∉ result_ids ms).
Proof.
  unfold sanitize_tool_pairs. fold (keeps_result (list_to_set (call_ids ms))).
  change (λ m0, if is_role Tool m0 then _ else true) with (keeps_result (list_to_set (call_ids ms))).
  set (ids := list_to_set (call_ids ms)).
  set (missing := ids ∖ list_to_set (result_ids ms)).
  assert (∀ x, x ∈ List.filter (keeps_result ids) ms ↔ x ∈ ms ∧ keeps_result ids x = true) as Hf.
  { intros x. by rewrite !list_elem_of_In, List.filter_In. }
  assert (∀ id, id ∈ missing ↔ id ∈ call_ids ms ∧ id ∉ result_ids ms) as Hm.
  { intros id. unfold missing, ids. by rewrite elem_of_difference, !elem_of_list_to_set. }
  case_bool_decide as Hmiss.
  { rewrite Hf. split; [by left|]. intros [?|(id & -> & Hid)]; [done|].
    apply Hm in Hid. rewrite Hmiss in Hid. by apply elem_of_empty in Hid. }
  rewrite list_elem_of_In, in_concat. setoid_rewrite <-list_elem_of_In.
  setoid_rewrite list_elem_of_fmap. split.
  - intros (l & (x & -> & Hx) & Hin). apply Hf in Hx as [Hx Hk].
    destruct (is_role Assistant x) eqn:Hr; [|apply list_elem_of_singleton in Hin as ->; by left].
    apply elem_of_cons in Hin as [->|Hin]; [by left|]. right.
    apply list_elem_of_fmap in Hin as (id & -> & Hid). exists id. split; [done|].
    apply list_elem_of_In, List.filter_In in Hid as [_ Hid]. apply bool_decide_eq_true in Hid.
    by apply Hm.
  - intros [[Hin Hk]|(id & -> & Hid)].
    + eexists. split; [exists m; split; [done|]; by apply Hf|].
      destruct (is_role Assistant m); by left.
    + pose proof Hid as [Hc _]. apply call_ids_elem in Hc as (a & Ha & Hr & Hida).
      eexists. split; [exists a; split; [done|]; apply Hf; split; [done|]|].
      * unfold keeps_result, is_role. by rewrite bool_decide_eq_false_2 by (by rewrite Hr).
      * apply is_role_spec in Hr. rewrite Hr. right. apply list_elem_of_fmap. exists id.
        split; [done|]. apply list_elem_of_In, List.filter_In. rewrite <-list_elem_of_In.
        split; [done|]. apply bool_decide_eq_true. by apply Hm.
Qed.

Lemma sanitize_call_ids id ms : id ∈ call_ids (sanitize_tool_pairs ms) ↔ id ∈ call_ids ms.
Proof.
  rewrite !call_ids_elem. split.
  - intros (m & Hm & Hr & Hid). apply sanitize_elem in Hm as [[? _]|(? & -> & _)]; [by eauto|done].
  - intros (m & Hm & Hr & Hid). exists m. split; [|done]. apply sanitize_elem. left. split; [done|].
    unfold keeps_result, is_role. by rewrite bool_decide_eq_false_2 by (by rewrite Hr).
Qed.

Lemma sanitize_paired ms : paired (sanitize_tool_pairs ms).
Proof.
  split.
  - intros m Hm Hr. setoid_rewrite sanitize_call_ids.
    apply sanitize_elem in Hm as [[_ Hk]|(id & -> & ? & _)]; [|by exists id].
    unfold keeps_result, is_role in Hk. rewrite bool_decide_eq_true_2 in Hk by done.
    destruct (tool_call_id m) as [id|]; [|done]. apply bool_decide_eq_true in Hk.
    exists id. split; [done|]. by apply elem_of_list_to_set in Hk.
  - intros id Hid. rewrite sanitize_call_ids in Hid. apply result_ids_elem.
    destruct (decide (id ∈ result_ids ms)) as [Hr|Hr].
    + apply result_ids_elem in Hr as (m & Hm & Hrole & Hidm). exists m.
      split; [|done]. apply sanitize_elem. left. split; [done|].
      unfold keeps_result. rewrite (proj2 (is_role_spec _ _) Hrole), Hidm.
      apply bool_decide_eq_true. by apply elem_of_list_to_set.
    + exists (stub id). split; [|done]. apply sanitize_elem. right. eauto.
Qed.

(** A transcript that is paired is left alone. *)
Lemma sanitize_id ms : paired ms → sanitize_tool_pairs ms = ms.
Proof.
  intros [H1 H2]. unfold sanitize_tool_pairs.
  assert (list_to_set (C:=gset str) (call_ids ms) ∖ list_to_set (result_ids ms) = ∅) as ->.
  { apply set_eq. intros id. rewrite elem_of_difference, !elem_of_list_to_set. set_solver. }
  rewrite bool_decide_eq_true_2 by done. apply List.forallb_filter_id, forallb_elem.
  intros m Hm. destruct (is_role Tool m) eqn:Hr; [|done]. apply is_role_spec in Hr.
  destruct (H1 m Hm Hr) as (id & -> & ?). apply bool_decide_eq_true. by apply elem_of_list_to_set.
Qed.

(** The conversation, without the tool results. *)
Definition non_tool ms : list (Message V) := List.filter (λ m, negb (is_role Tool m)) ms.

Lemma non_tool_app ms1 ms2 : non_tool (ms1 ++ ms2) = non_tool ms1 ++ non_tool ms2.
Proof. apply List.filter_app. Qed.

Lemma non_tool_stubs (g : Message V → list str) ms :
  non_tool (concat ((λ m, if is_role Assistant m then m :: (stub <$> g m) else [m]) <$> ms)) =
  non_tool ms.
Proof.
  assert (∀ l : list str, non_tool (stub <$> l) = []) as Hs by (by induction l).
  induction ms as [|m ms IH]; [done|]. rewrite fmap_cons. cbn [concat]. rewrite non_tool_app, IH.
  rewrite (non_tool_app [m] ms : non_tool (m :: ms) = _). f_equal.
  destruct (is_role Assistant m); [|done].
  rewrite (non_tool_app [m] (stub <$> g m) : non_tool (m :: _) = _).
  by rewrite Hs, app_nil_r.
Qed.

Lemma non_tool_filter (keep : Message V → bool) ms :
  (∀ m, is_role Tool m = false → keep m = true) →
  non_tool (List.filter keep ms) = non_tool ms.
Proof.
  intros Hk. unfold non_tool. induction ms as [|m ms IH]; [done|]. simpl.
  destruct (is_role Tool m) eqn:Hr; simpl.
  - destruct (keep m); simpl; [by rewrite Hr|done].
  - rewrite Hk by done. simpl. rewrite Hr. simpl. by rewrite IH.
Qed.

Lemma sanitize_non_tool ms : non_tool (sanitize_tool_pairs ms) = non_tool ms.
Proof.
  unfold sanitize_tool_pairs. case_bool_decide; [|rewrite non_tool_stubs];
    apply non_tool_filter; by intros m ->.
Qed.

(** After [sanitize_tool_pairs] every tool result answers a call of the
    transcript and every call has a result; the conversation around the tool
    results is unchanged and in order; sanitizing again changes nothing. *)
Theorem sanitize_tool_pairs_valid ms :
  paired (sanitize_tool_pairs ms) ∧
  non_tool (sanitize_tool_pairs ms) = non_tool ms ∧
  sanitize_tool_pairs (sanitize_tool_pairs ms) = sanitize_tool_pairs ms.
Proof.
  split_and!; [apply sanitize_paired|apply sanitize_non_tool|].
  apply sanitize_id, sanitize_paired.
Qed.

(** *** The wire format *)

(** The call ids of the assistant turns, one list per turn. *)
Definition declares m id : Prop := role m = Assistant ∧ id ∈ tc_id <$> calls_of m.

(** Every result comes after a turn that declares its id. *)
Definition results_after_calls (known : gset str) ms : Prop :=
  ∀ i m id, ms !! i = Some m → role m = Tool → tool_call_id m = Some id →
  id ∈ known ∨ ∃ j a, j < i ∧ ms !! j = Some a ∧ declares a id.

Lemma results_after_cons (known : gset str) m ms :
  (∀ id, role m = Tool → tool_call_id m = Some id → id ∈ known) →
  results_after_calls
    (if is_role Assistant m then list_to_set (tc_id <$> calls_of m) ∪ known else known) ms →
  results_after_calls known (m :: ms).
Proof.
  intros Hm Hms [|i] x id Hi Hr Hid; simplify_eq/=; [left; by apply Hm|].
  destruct (Hms i x id Hi Hr Hid) as [Hk|(j & a & ? & ? & ?)].
  - destruct (is_role Assistant m) eqn:Ha; [|by left]. apply is_role_spec in Ha.
    apply elem_of_union in Hk as [Hk|?]; [|by left]. apply elem_of_list_to_set in Hk.
    right. exists 0, m. split_and!; [lia|done|by split].
  - right. exists (S j), a. split_and!; [lia|done|done].
Qed.

Lemma strip_orphans_after (results known : gset str) ms :
  results_after_calls known (strip_orphans results known ms).
Proof.
  revert known. induction ms as [|m ms IH]; intros known; simpl; [by intros [|i] ? ? ?|].
  destruct (role m) eqn:Hr.
  - apply results_after_cons; [congruence|]. unfold is_role. rewrite bool_decide_eq_false_2 by congruence. auto.
  - apply results_after_cons; [congruence|]. unfold is_role. rewrite bool_decide_eq_false_2 by congruence. auto.
  - case_bool_decide as Hids; [|case_match; [|done]].
    + apply results_after_cons; [congruence|]. unfold is_role. rewrite bool_decide_eq_true_2 by congruence.
      replace (list_to_set (tc_id <$> calls_of m) ∪ known) with known by (rewrite Hids; set_solver).
      auto.
    + apply results_after_cons; [congruence|]. unfold is_role. rewrite bool_decide_eq_true_2 by congruence. auto.
  - destruct (tool_call_id m) as [id|] eqn:Hid; [|done].
    case_bool_decide as Hk; [|done].
    apply results_after_cons; [intros ? _; congruence|].
    unfold is_role. rewrite bool_decide_eq_false_2 by congruence. auto.
Qed.

Lemma strip_orphans_sublist (results known : gset str) ms : strip_orphans results known ms `sublist_of` ms.
Proof.
  revert known. induction ms as [|m ms IH]; intros known; simpl; [done|].
  repeat case_match; constructor; auto.
Qed.

(** The pass over a concatenation. *)
Lemma strip_orphans_app (results known : gset str) (l1 : list (Message V)) :
  ∃ known', ∀ l2 : list (Message V), strip_orphans results known (l1 ++ l2) =
    strip_orphans results known l1 ++ strip_orphans results known' l2.
Proof.
  revert known. induction l1 as [|m l1 IH]; intros known; [by exists known|]. simpl.
  repeat case_match;
    match goal with |- context [strip_orphans results ?k l1] => destruct (IH k) as [k' Hk'] end;
    exists k'; intros l2; by rewrite Hk'.
Qed.

(** A result whose id is already valid is kept. *)
Lemma strip_orphans_keeps (results known : gset str) ms r id :
  id ∈ known → r ∈ ms → role r = Tool → tool_call_id r = Some id →
  r ∈ strip_orphans results known ms.
Proof.
  intros Hk Hr Htool Hid. revert known Hk. induction ms as [|m ms IH]; intros known Hk;
    [by apply elem_of_nil in Hr|].
  apply elem_of_cons in Hr as [<-|Hr].
  - simpl. rewrite Htool, Hid, bool_decide_eq_true_2 by done. by left.
  - specialize (IH Hr). simpl. repeat case_match; try right; apply IH; set_solver.
Qed.

Lemma strip_orphans_complete (results known : gset str) ms a id :
  a ∈ strip_orphans results known ms → declares a id → id ∈ results.
Proof.
  intros Ha [Hrole Hin]. revert known Ha. induction ms as [|m ms IH]; intros known; simpl;
    [by intros ?%elem_of_nil|].
  assert (∀ b k, a ∈ (if b : bool then m :: strip_orphans results k ms else strip_orphans results k ms) →
    a = m ∨ ∃ k, a ∈ strip_orphans results k ms) as Hcase.
  { intros [] k; [rewrite elem_of_cons|]; naive_solver. }
  destruct (role m) eqn:Hr.
  - rewrite elem_of_cons. intros [->|?]; [congruence|eauto].
  - rewrite elem_of_cons. intros [->|?]; [congruence|eauto].
  - case_bool_decide as Hids.
    + rewrite elem_of_cons. intros [->|?]; [|eauto].
      rewrite Hids in Hin. by apply elem_of_nil in Hin.
    + destruct (forallb _ _) eqn:Hall; [|eauto].
      rewrite elem_of_cons. intros [->|?]; [|eauto].
      rewrite forallb_elem in Hall. specialize (Hall id Hin). by apply bool_decide_eq_true in Hall.
  - intros Ha. apply Hcase in Ha as [->|[k Ha]]; [congruence|eauto].
Qed.

Definition unique_ids ms : Prop :=
  ∀ i j x y id, ms !! i = Some x → ms !! j = Some y → declares x id → declares y id → i = j.

(** A surviving turn's calls keep their results, when ids are unique. *)
Lemma strip_orphans_answered ms a id :
  results_after_calls ∅ ms → unique_ids ms →
  a ∈ strip_orphaned_tool_messages ms → declares a id →
  id ∈ result_ids (strip_orphaned_tool_messages ms).
Proof.
  intros Hafter Huniq Ha Hd. unfold strip_orphaned_tool_messages in *.
  set (results := list_to_set (result_ids ms)) in *.
  pose proof (strip_orphans_complete _ _ _ _ _ Ha Hd) as Hres.
  apply elem_of_list_to_set, result_ids_elem in Hres as (r & Hr & Htool & Hid).
  apply list_elem_of_lookup in Hr as [ir Hir].
  destruct (Hafter ir r id Hir Htool Hid) as [?|(j & b & Hj & Hb & Hbd)]; [set_solver|].
  apply result_ids_elem. exists r. split; [|done].
  pose proof (take_drop_middle ms j b Hb) as Hsplit. rewrite <-Hsplit.
  assert (r ∈ drop (S j) ms) as Hrd.
  { apply (list_elem_of_lookup_2 _ (ir - S j)). rewrite lookup_drop.
    by replace (S j + (ir - S j)) with ir by lia. }
  destruct (strip_orphans_app results ∅ (take j ms)) as [k Hk].
  rewrite <-Hsplit, Hk in Ha. rewrite Hk. apply elem_of_app. right.
  pose proof Hbd as [Hbr Hbin]. cbn [strip_orphans] in *. rewrite Hbr in *.
  case_bool_decide as Hids; [rewrite Hids in Hbin; by apply elem_of_nil in Hbin|].
  destruct (forallb _ _) eqn:Hall.
  - right. eapply strip_orphans_keeps; [|done..]. apply elem_of_union_l. by apply elem_of_list_to_set.
  - exfalso. apply elem_of_app in Ha as [Ha|Ha];
      eapply elem_of_sublist in Ha; [|by apply strip_orphans_sublist| |by apply strip_orphans_sublist];
      apply list_elem_of_lookup in Ha as [i Hi].
    + apply lookup_take_Some in Hi as [Hi ?].
      specialize (Huniq i j a b id Hi Hb Hd Hbd). lia.
    + rewrite lookup_drop in Hi. specialize (Huniq _ j a b id Hi Hb Hd Hbd). lia.
Qed.

(** What the providers send is a valid transcript: messages are only
    dropped; every tool result that is sent follows an assistant turn that
    declares its id; and when the history answers its calls after they are
    made, under unique ids, every call that is sent has its result sent. *)
Theorem wire_transcript_valid ms :
  let out := strip_orphaned_tool_messages ms in
  out `sublist_of` ms ∧ results_after_calls ∅ out ∧
  (results_after_calls ∅ ms → unique_ids ms →
   ∀ a id, a ∈ out → declares a id → id ∈ result_ids out).
Proof.
  intros out. split_and!.
  - apply strip_orphans_sublist.
  - apply strip_orphans_after.
  - intros Hafter Huniq a id. by apply strip_orphans_answered.
Qed.
End pairs.

(** ** Boundaries *)

Section boundaries.
Context {V : Type}.
Implicit Types (messages : list (Message V)) (m : Message V).

Lemma back_over_tools_spec messages start e :
  start ≤ e → (e < length messages ∨ e = start) →
  ∃ r, back_over_tools messages start e = Some r ∧ start ≤ r ≤ e ∧
       (∀ m, start < r → messages !! r = Some m → role m ≠ Tool).
Proof.
  induction e as [|e IH]; intros Hs He; cbn [back_over_tools].
  - destruct (Nat.ltb_spec start 0); [lia|]. exists 0. split_and!; [done|lia|lia|lia].
  - destruct (Nat.ltb_spec start (S e)) as [Hlt|Hge]; [|exists (S e); split_and!; [done|lia..]].
    destruct (lookup_lt_is_Some_2 messages (S e)) as [m Hm]; [lia|].
    rewrite Hm. simpl. destruct (is_role Tool m) eqn:Hr.
    + destruct IH as (r & Hr1 & ? & ?); [lia|lia|]. exists r. split_and!; [done|lia|lia|done].
    + apply is_role_false in Hr. exists (S e). split_and!; [done|lia|lia|].
      intros m' _ Hm'. congruence.
Qed.

Lemma back_over_call_spec messages start e :
  start ≤ e → (e < length messages ∨ e = start) →
  ∃ r, back_over_call messages start e = Some r ∧ start ≤ r ≤ e.
Proof.
  intros Hs He. unfold back_over_call. destruct (Nat.ltb_spec start e).
  - destruct (lookup_lt_is_Some_2 messages e) as [m Hm]; [lia|]. rewrite Hm. simpl.
    case_if; eexists; split; try done; lia.
  - exists e. split; [done|lia].
Qed.

Lemma tail_scan_spec messages head_end min_tail ceiling k acc cut :
  head_end + k ≤ length messages → head_end + k ≤ cut ≤ length messages →
  ∃ r, tail_scan messages head_end min_tail ceiling k acc cut = Some r ∧
       head_end ≤ r ≤ length messages.
Proof.
  revert acc cut. induction k as [|k IH]; intros acc cut Hk Hc; cbn [tail_scan].
  - exists cut. split; [done|lia].
  - destruct (lookup_lt_is_Some_2 messages (head_end + k)) as [m Hm]; [lia|]. rewrite Hm. simpl.
    case_if; [exists cut; split; [done|lia]|]. apply IH; lia.
Qed.

Lemma over_tools_bound (rest : list (Message V)) idx :
  idx ≤ over_tools rest idx ≤ idx + length rest.
Proof.
  revert idx. induction rest as [|m rest IH]; intros idx; simpl; [lia|].
  case_if; [|lia]. specialize (IH (S idx)). lia.
Qed.

Lemma find_head_end_le messages n : find_head_end messages n ≤ length messages.
Proof.
  unfold find_head_end. set (i := Nat.min n (length messages)).
  pose proof (over_tools_bound (drop i messages) i) as H. rewrite length_drop in H. lia.
Qed.

(** The boundary exists (no index is out of range), lies between the head
    and the end, and keeps the last user turn of the region in the tail. *)
Lemma tail_start_spec messages head_end budget :
  head_end ≤ length messages →
  ∃ r, find_tail_start_by_tokens messages head_end budget = Some r ∧
    head_end ≤ r ≤ length messages ∧
    ∀ u m, head_end ≤ u → messages !! u = Some m → is_user_turn m = true →
      (∀ j x, u < j → messages !! j = Some x → is_user_turn x = false) →
      head_end + 1 < length messages → r ≤ u.
Proof.
  intros Hh. unfold find_tail_start_by_tokens. set (n := length messages).
  destruct (Nat.leb_spec n (head_end + 1)) as [Hn|Hn].
  { exists n. split_and!; [done|lia|lia|]. intros. unfold n in *. lia. }
  set (mt := Nat.min 3 (n - head_end - 1)). assert (1 ≤ mt ≤ n - head_end - 1) as Hmt by lia.
  destruct (tail_scan_spec messages head_end mt
    (f64_to_u 64 (f64_mul (f64_of_Z budget) (f64_lit 3 2))) (n - head_end) 0 n)
    as (c0 & -> & Hc0); [unfold n; lia|unfold n; lia|]. cbn [mbind option_bind].
  set (c1 := Nat.min c0 (n - mt)). assert (head_end ≤ c1 < n) as Hc1 by lia.
  set (lu := (λ rel, rel + head_end) <$> rposition is_user_turn (drop head_end messages)).
  set (c2 := match lu with Some u => if u <? c1 then u else c1 | None => c1 end).
  assert (head_end ≤ c2 ≤ c1) as Hc2.
  { unfold c2, lu. destruct (rposition _ _); simpl; [case_if; bool_hyps; lia|lia]. }
  destruct (back_over_tools_spec messages head_end c2) as (c3 & -> & Hc3 & _); [lia|unfold n in *; lia|].
  cbn [mbind option_bind].
  destruct (back_over_call_spec messages head_end c3) as (c4 & -> & Hc4); [lia|unfold n in *; lia|].
  cbn [mbind option_bind].
  assert (∀ u m, head_end ≤ u → messages !! u = Some m → is_user_turn m = true →
    (∀ j x, u < j → messages !! j = Some x → is_user_turn x = false) → lu = Some u) as Hlu.
  { intros u m Hu Hm Hut Hlast. unfold lu.
    assert (drop head_end messages !! (u - head_end) = Some m) as Hd.
    { rewrite lookup_drop. by replace (head_end + (u - head_end)) with u by lia. }
    destruct (rposition _ _) as [k|] eqn:Hr; simpl.
    - apply rposition_Some in Hr as (x & Hx & Hfx & Hafter). rewrite lookup_drop in Hx.
      f_equal. destruct (Nat.lt_trichotomy (k + head_end) u) as [Hlt|[?|Hgt]]; [|done|].
      + rewrite (Hafter (u - head_end) m) in Hut; [done|lia|done].
      + rewrite (Hlast (head_end + k) x) in Hfx; [done|lia|done].
    - by rewrite (rposition_None _ _ _ _ Hr Hd) in Hut. }
  destruct lu as [u0|] eqn:Hlu0.
  - assert (c2 ≤ u0) as Hu0 by (unfold c2; case_if; bool_hyps; lia).
    case_if; eexists; split_and!; try done; try lia.
    intros u m Hu Hm Hut Hlast _. specialize (Hlu u m Hu Hm Hut Hlast). injection Hlu as ->.
    apply andb_false_iff in Hif as [?|?]; bool_hyps; lia.
  - eexists. split_and!; [done|lia|lia|]. intros u m Hu Hm Hut Hlast _.
    by specialize (Hlu u m Hu Hm Hut Hlast).
Qed.

(** *** Pruning old tool results *)

Lemma is_role_set_content r c m : is_role r (set_content c m) = is_role r m.
Proof. done. Qed.

(** What the scan keeps true of its state; [k] indices are left to visit. *)
Record scan_inv (content_hash : str → Z) (prune_end : nat) messages (k : nat)
    (st : PruneState (V:=V)) : Prop := {
  si_length : length (p_result st) = length messages;
  si_todo i : i < k → p_result st !! i = messages !! i;
  si_done i m : messages !! i = Some m →
    p_result st !! i = Some m ∨
    (p_result st !! i = Some (set_content DUPLICATE_MARK m) ∧ i < prune_end ∧
     role m = Tool ∧ 200 ≤ length (content m) ∧
     ∃ j, i < j ∧ p_hashes st !! content_hash (content m) = Some j ∧ j ∈ p_canonical st);
  si_hash h j : p_hashes st !! h = Some j → k ≤ j ∧
    ∃ m, messages !! j = Some m ∧ p_result st !! j = Some m ∧ role m = Tool ∧
         200 ≤ length (content m) ∧ content_hash (content m) = h;
}.

Lemma scan_step content_hash prune_end messages k st :
  scan_inv content_hash prune_end messages (S k) st →
  scan_inv content_hash prune_end messages k (prune_step content_hash prune_end st k).
Proof.
  intros [Hlen Htodo Hdone Hhash]. unfold prune_step.
  assert (scan_inv content_hash prune_end messages k st) as Hsame.
  { split; [done|intros; apply Htodo; lia|done|].
    intros h j Hj. destruct (Hhash h j Hj) as [? ?]. split; [lia|done]. }
  rewrite Htodo by lia. destruct (messages !! k) as [m|] eqn:Hm; [|done].
  destruct (is_role Tool m) eqn:Hr; simpl; [|done]. apply is_role_spec in Hr.
  destruct (Nat.ltb_spec (length (content m)) 200) as [|Hl]; [done|].
  destruct (p_hashes st !! content_hash (content m)) as [newer|] eqn:Hh.
  - destruct (Nat.ltb_spec k newer) as [Hkn|]; [|done].
    destruct (Nat.ltb_spec k prune_end) as [Hkp|]; simpl; [|done].
    split; simpl.
    + by rewrite length_insert.
    + intros i Hi. rewrite list_lookup_insert_ne by lia. apply Htodo. lia.
    + intros i x Hx. destruct (decide (i = k)) as [->|Hne].
      * right. simplify_eq. rewrite list_lookup_insert_eq
          by (rewrite Hlen; by apply lookup_lt_Some in Hm).
        split_and!; try done. exists newer. split_and!; [done|done|set_solver].
      * rewrite list_lookup_insert_ne by done.
        destruct (Hdone i x Hx) as [?|(? & ? & ? & ? & j & ? & ? & ?)]; [by left|right].
        split_and!; try done. exists j. split_and!; [done|done|set_solver].
    + intros h j Hj. destruct (Hhash h j Hj) as [? (x & ? & ? & ?)]. split; [lia|].
      exists x. by rewrite list_lookup_insert_ne by lia.
  - split; simpl; [done|intros; apply Htodo; lia| |].
    + intros i x Hx. destruct (Hdone i x Hx) as [?|(? & ? & ? & ? & j & ? & ? & ?)]; [by left|right].
      split_and!; try done. exists j. rewrite lookup_insert_ne by congruence. done.
    + intros h j. destruct (decide (h = content_hash (content m))) as [->|Hne].
      * rewrite lookup_insert_eq. intros [= <-]. split; [lia|]. exists m.
        rewrite Htodo by lia. done.
      * rewrite lookup_insert_ne by done. intros Hj. destruct (Hhash h j Hj) as [? ?].
        split; [lia|done].
Qed.

Lemma scan_all content_hash prune_end messages k st :
  scan_inv content_hash prune_end messages k st →
  scan_inv content_hash prune_end messages 0
    (foldl (prune_step content_hash prune_end) st (reverse (seq 0 k))).
Proof.
  revert st. induction k as [|k IH]; intros st Hst; [done|].
  rewrite seq_S, reverse_app. simpl. apply IH, scan_step, Hst.
Qed.

Lemma prune_scan content_hash messages protect_tail :
  scan_inv content_hash (length messages - protect_tail) messages 0
    (foldl (prune_step content_hash (length messages - protect_tail)) (mkPrune messages ∅ ∅)
       (reverse (seq 0 (length messages)))).
Proof.
  apply scan_all. split; simpl; [done|done|by left|]. intros h j. by rewrite lookup_empty.
Qed.

Lemma prune_length content_hash messages protect_tail :
  length (prune_old_tool_results content_hash messages protect_tail) = length messages.
Proof.
  unfold prune_old_tool_results. rewrite length_imap.
  apply (si_length _ _ _ _ _ (prune_scan content_hash messages protect_tail)).
Qed.

Lemma prune_message_cases prune_end canonical i m :
  prune_message prune_end canonical i m = m ∨
  (∃ c, prune_message prune_end canonical i m = set_content c m) ∧
  i < prune_end ∧ role m = Tool ∧ 200 < length (content m) ∧ i ∉ canonical.
Proof.
  unfold prune_message. destruct (Nat.ltb_spec i prune_end); simpl; [|by left].
  case_bool_decide; [by left|]. destruct (is_role Tool m) eqn:Hr; simpl; [|by left].
  apply is_role_spec in Hr. destruct (Nat.leb_spec (length (content m)) 200); [by left|].
  case_if; [by left|]. right. eauto 10.
Qed.

(** One message of the pruned history. *)
Lemma prune_lookup content_hash messages protect_tail i m :
  messages !! i = Some m →
  ∃ m', prune_old_tool_results content_hash messages protect_tail !! i = Some m' ∧
    (m' = m ∨ (∃ c, m' = set_content c m) ∧ role m = Tool ∧ 200 ≤ length (content m) ∧
              i < length messages - protect_tail).
Proof.
  intros Hm. unfold prune_old_tool_results. set (pe := length messages - protect_tail).
  pose proof (prune_scan content_hash messages protect_tail) as Hst. fold pe in Hst.
  set (st := foldl _ _ _) in *. rewrite list_lookup_imap.
  destruct (si_done _ _ _ _ _ Hst i m Hm) as [->|(-> & Hi & Hr & Hl & _)]; simpl;
    (eexists; split; [done|]).
  - destruct (prune_message_cases pe (p_canonical st) i m) as [->|((c & ->) & ? & ? & ? & _)];
      [by left|right]. split_and!; [by exists c|done|lia|done].
  - right. split_and!; try done.
    destruct (prune_message_cases pe (p_canonical st) i (set_content DUPLICATE_MARK m))
      as [->|((c & ->) & _)]; [by eexists|by exists c].
Qed.

(** The pre-pass only shortens old tool results: positions, roles, ids,
    calls and every message that is not a tool result of at least 200 bytes
    before the protected tail are unchanged; and a result that is replaced by
    the duplicate mark has a later message with the same content hash that
    is kept in full. *)
Theorem prune_keeps_structure content_hash messages protect_tail i m :
  messages !! i = Some m →
  let pruned := prune_old_tool_results content_hash messages protect_tail in
  length pruned = length messages ∧
  ∃ m', pruned !! i = Some m' ∧ set_content (content m) m' = m ∧
    (role m ≠ Tool ∨ length (content m) < 200 ∨ length messages - protect_tail ≤ i → m' = m) ∧
    (content m' = DUPLICATE_MARK → content m ≠ DUPLICATE_MARK →
     ∃ j m2, i < j ∧ pruned !! j = Some m2 ∧ messages !! j = Some m2 ∧
       content_hash (content m2) = content_hash (content m)).
Proof.
  intros Hm pruned. split; [apply prune_length|].
  destruct (prune_lookup content_hash messages protect_tail i m Hm) as (m' & Hm' & Hcase).
  exists m'. split_and!; [done| | |].
  - destruct Hcase as [->|((c & ->) & _)]; by destruct m.
  - intros Hor. destruct Hcase as [->|(_ & ? & ? & ?)]; [done|]. destruct Hor as [?|[?|?]]; [done|lia|lia].
  - intros Hdup Hne. unfold pruned, prune_old_tool_results in *.
    set (pe := length messages - protect_tail) in *.
    pose proof (prune_scan content_hash messages protect_tail) as Hst. fold pe in Hst.
    set (st := foldl _ _ _) in *. rewrite list_lookup_imap in Hm'.
    destruct (si_done _ _ _ _ _ Hst i m Hm) as [Hres|(Hres & Hi & Hr & Hl & j & Hj & Hh & Hcan)].
    + rewrite Hres in Hm'. simpl in Hm'. injection Hm' as <-.
      destruct (prune_message_cases pe (p_canonical st) i m) as [Hsame|(_ & Hi & Hr & Hl & Hc)];
        [by rewrite Hsame in Hdup|].
      exfalso. revert Hdup. unfold prune_message.
      destruct (Nat.ltb_spec i pe); [|lia]. rewrite bool_decide_eq_false_2 by done.
      apply is_role_spec in Hr. rewrite Hr. simpl.
      destruct (Nat.leb_spec (length (content m)) 200); [lia|].
      case_if; [by intros ?|]. by intros [=].
    + destruct (si_hash _ _ _ _ _ Hst _ _ Hh) as (_ & m2 & Hm2 & Hr2 & Htool & _ & Heq).
      exists j, m2. split_and!; try done. rewrite list_lookup_imap, Hr2. simpl.
      unfold prune_message. rewrite bool_decide_eq_true_2 by done. by destruct (negb _).
Qed.
End boundaries.

(** ** The whole compression *)

Section compression.
Context {V : Type} `{Json V}.
Implicit Types (messages head tail : list (Message V)) (m : Message V).

Lemma over_tools_roles (l1 l2 : list (Message V)) idx :
  role <$> l1 = role <$> l2 → over_tools l1 idx = over_tools l2 idx.
Proof.
  revert l2 idx. induction l1 as [|x l1 IH]; intros [|y l2] idx Heq; try done.
  rewrite !fmap_cons in Heq. injection Heq as Hxy Heq. simpl. unfold is_role.
  rewrite Hxy. by rewrite (IH l2).
Qed.

Lemma prune_roles content_hash messages n :
  role <$> prune_old_tool_results content_hash messages n = role <$> messages.
Proof.
  apply list_eq. intros i. rewrite !list_lookup_fmap.
  destruct (messages !! i) as [m|] eqn:Hm.
  - destruct (prune_lookup content_hash messages n i m Hm) as (m' & -> & [->|((c & ->) & _)]); done.
  - apply lookup_ge_None in Hm. rewrite (proj2 (lookup_ge_None _ _)); [done|].
    by rewrite prune_length.
Qed.

Lemma prune_head_end content_hash messages n k :
  find_head_end (prune_old_tool_results content_hash messages n) k = find_head_end messages k.
Proof.
  unfold find_head_end. rewrite prune_length. apply over_tools_roles.
  by rewrite !fmap_drop, prune_roles.
Qed.

(** A user turn is not touched by the pre-pass. *)
Lemma prune_user_turn content_hash messages n i m :
  messages !! i = Some m → role m ≠ Tool →
  prune_old_tool_results content_hash messages n !! i = Some m.
Proof.
  intros Hm Hr. by destruct (prune_lookup content_hash messages n i m Hm) as (m' & -> & [->|(_ & ? & _)]).
Qed.

Lemma is_user_turn_role m : is_user_turn m = true → role m = User.
Proof. unfold is_user_turn. intros [Hu _]%andb_prop. by apply is_role_spec. Qed.

Lemma prune_user_turn_inv content_hash messages n i x :
  prune_old_tool_results content_hash messages n !! i = Some x → is_user_turn x = true →
  messages !! i = Some x.
Proof.
  intros Hx Hu. apply is_user_turn_role in Hu as Hr.
  destruct (messages !! i) as [m|] eqn:Hm.
  - destruct (prune_lookup content_hash messages n i m Hm) as (m' & Hm' & Hcase). simplify_eq.
    destruct Hcase as [->|((c & ->) & Htool & _)]; [done|]. simpl in Hr. congruence.
  - apply lookup_ge_None in Hm. apply lookup_lt_Some in Hx. rewrite prune_length in Hx. lia.
Qed.

(** Messages that the repair of tool pairs leaves in place at the front. *)
Lemma sanitize_front l messages :
  Forall (λ m, role m = System ∨ role m = User) l →
  ∃ rest, sanitize_tool_pairs (l ++ messages) = l ++ rest.
Proof.
  intros Hl. unfold sanitize_tool_pairs. set (ids := list_to_set _).
  set (keep := λ m, if is_role Tool m then _ else true).
  assert (List.filter keep (l ++ messages) = l ++ List.filter keep messages) as ->.
  { rewrite List.filter_app. f_equal. apply List.forallb_filter_id, forallb_elem.
    intros m Hm. rewrite Forall_forall in Hl. specialize (Hl m Hm). unfold keep, is_role.
    rewrite bool_decide_eq_false_2; [done|]. destruct Hl; congruence. }
  case_bool_decide; [by eexists|]. rewrite fmap_app, concat_app. eexists. f_equal.
  set (missing := ids ∖ _). clearbody missing. clear -Hl.
  induction Hl as [|m l Hm Hl IH]; [done|]. rewrite fmap_cons. cbn [concat]. rewrite IH.
  unfold is_role. rewrite bool_decide_eq_false_2; [done|]. destruct Hm; congruence.
Qed.

Lemma sanitize_keeps messages m :
  m ∈ messages → role m ≠ Tool → m ∈ sanitize_tool_pairs messages.
Proof.
  intros Hm Hr. apply sanitize_elem. left. split; [done|]. unfold keeps_result, is_role.
  by rewrite bool_decide_eq_false_2.
Qed.

(** The note is added to the first system message only. *)
Definition noted (i : nat) m : Message V :=
  if (i =? 0) && is_role System m && negb (contains SUMMARY_NOTE_FOR_SYSTEM (content m))
  then set_content (content m ++ NL ++ NL ++ SUMMARY_NOTE_FOR_SYSTEM) m else m.

Lemma noted_roles head : role <$> imap noted head = role <$> head.
Proof.
  apply list_eq. intros i. rewrite !list_lookup_fmap, list_lookup_imap.
  destruct (head !! i) as [m|]; simpl; [|done]. f_equal. unfold noted. by case_if.
Qed.

Lemma assemble_head head tail s m :
  m ∈ head → role m = User → m ∈ assemble head tail s.
Proof.
  intros Hm Hr. unfold assemble. fold noted. change (imap (λ i msg, _) head) with (imap noted head).
  assert (m ∈ imap noted head) as Hin.
  { apply list_elem_of_lookup in Hm as [i Hi]. apply (list_elem_of_lookup_2 _ i).
    rewrite list_lookup_imap, Hi. simpl. f_equal. unfold noted, is_role.
    rewrite (bool_decide_eq_false_2 (role m = System)) by congruence. by rewrite andb_false_r. }
  case_if; [set_solver|]. destruct tail; set_solver.
Qed.

Lemma assemble_tail head tail s m :
  m ∈ tail → ∃ m', m' ∈ assemble head tail s ∧ role m' = role m ∧
    content m `suffix_of` content m'.
Proof.
  intros Hm. unfold assemble. case_if; [exists m; set_solver|].
  destruct tail as [|t tail]; [by apply elem_of_nil in Hm|].
  apply elem_of_cons in Hm as [->|Hm].
  - eexists. split; [apply elem_of_app; right; by left|]. split; [done|]. cbn [set_content content].
    rewrite !app_assoc. by eexists.
  - exists m. set_solver.
Qed.

Lemma assemble_leads head tail s :
  Forall (λ m, role m = System) head →
  ∃ sys rest, assemble head tail s = sys ++ text_message User s :: rest ∧
    Forall (λ m, role m = System) sys.
Proof.
  intros Hh. unfold assemble. change (imap (λ i msg, _) head) with (imap noted head).
  assert (forallb (is_role System) head = true) as ->.
  { apply forallb_elem. intros m Hm. rewrite Forall_forall in Hh. by apply is_role_spec, Hh. }
  rewrite orb_true_r. cbn [orb].
  assert (Forall (λ m, role m = System) (imap noted head)) as Hn.
  { rewrite <-Forall_fmap with (f := role) (P := λ r, r = System), noted_roles, Forall_fmap. done. }
  rewrite (bool_decide_eq_false_2 (role <$> last (imap noted head) = _)).
  - rewrite andb_false_r. simpl. by eexists _, _.
  - rewrite bool_decide_eq_true_2 by done.
    destruct (last (imap noted head)) as [m|] eqn:Hl; [|done]. simpl. intros [= Hr].
    rewrite Forall_forall in Hn. apply last_Some_elem_of in Hl. specialize (Hn m Hl). congruence.
Qed.

Lemma compress_returns content_hash chat parse messages compressor cfg language :
  ∃ res, compress_messages content_hash chat parse messages compressor cfg language = Some res ∧
  ∀ r, res = Some r →
  ∃ head_end tail_start summary,
    let pruned := prune_old_tool_results content_hash messages (Compressor.preserve_last_n cfg) in
    head_end = find_head_end messages (Compressor.protect_first_n cfg) ∧
    head_end < tail_start ≤ length messages ∧
    c_messages r = sanitize_tool_pairs
      (assemble (take head_end pruned) (drop tail_start pruned) summary) ∧
    ∀ u m, head_end ≤ u → messages !! u = Some m → is_user_turn m = true →
      (∀ j x, u < j → messages !! j = Some x → is_user_turn x = false) →
      head_end + 1 < length messages → tail_start ≤ u.
Proof.
  unfold compress_messages.
  set (pruned := prune_old_tool_results content_hash messages _).
  set (budget := f64_to_u 64 _).
  destruct (tail_start_spec pruned (find_head_end pruned (Compressor.protect_first_n cfg)) budget)
    as (ts & -> & Hts & Hu); [apply find_head_end_le|]. cbn [mbind option_bind].
  destruct (Nat.leb_spec ts (find_head_end pruned (Compressor.protect_first_n cfg))) as [Hle|Hgt].
  { eexists. split; [done|]. by intros r [=]. }
  eexists. split; [done|]. intros r [= <-].
  unfold pruned in Hts, Hgt, Hu. rewrite prune_head_end, prune_length in *.
  eexists _, ts, _. split; [done|]. split; [lia|]. split; [cbn [c_messages]; unfold pruned; by rewrite prune_head_end|].
  intros u m Hhu Hm Hut Hlast Hlen. apply (Hu u m); try done.
  - apply prune_user_turn; [done|]. apply is_user_turn_role in Hut. congruence.
  - intros j x Hj Hx. destruct (is_user_turn x) eqn:Hux; [|done].
    rewrite <-Hux. apply (Hlast j); [done|]. by apply prune_user_turn_inv in Hx.
Qed.

(** C28: Compression always completes (no index out of range, a failed summary
    is replaced by a static one), and when it compresses: every tool result
    and call of the new history is paired; the last real user turn is still
    there, at most behind the summary in the same message, unless it is the
    only message after the protected head; and when the protected head is only system
    messages, the first other message is a user message, as the providers
    require. *)
(* @prop safety defs=compress_messages,assemble,find_tail_start_by_tokens,sanitize_tool_pairs,prune_old_tool_results witness=compress_witness *)
Theorem compress_messages_safe content_hash chat parse messages compressor cfg language :
  let head_end := find_head_end messages (Compressor.protect_first_n cfg) in
  ∃ res, compress_messages content_hash chat parse messages compressor cfg language = Some res ∧
  ∀ r, res = Some r →
    paired (c_messages r) ∧
    (∀ u m, messages !! u = Some m → is_user_turn m = true →
       (∀ j x, u < j → messages !! j = Some x → is_user_turn x = false) →
       u < head_end ∨ head_end + 1 < length messages →
       ∃ m', m' ∈ c_messages r ∧ role m' = User ∧ content m `suffix_of` content m') ∧
    (Forall (λ m, role m = System) (take head_end messages) →
       ∃ sys lead rest, c_messages r = sys ++ lead :: rest ∧
         Forall (λ m, role m = System) sys ∧ role lead = User).
Proof.
  intros head_end.
  destruct (compress_returns content_hash chat parse messages compressor cfg language)
    as (res & Hres & Hr). exists res. split; [done|]. intros r Hrr.
  destruct (Hr r Hrr) as (he & ts & s & -> & Hts & -> & Hlast). clear Hr Hres.
  fold head_end in Hts, Hlast |- *. set (pruned := prune_old_tool_results _ _ _).
  split_and!; [apply sanitize_paired| |].
  - intros u m Hm Hut Hl Hor. pose proof (is_user_turn_role m Hut) as Hrole.
    assert (pruned !! u = Some m) as Hp by (apply prune_user_turn; [done|congruence]).
    assert (∃ m', m' ∈ assemble (take head_end pruned) (drop ts pruned) s ∧ role m' = User ∧
              content m `suffix_of` content m') as (m' & Hin & Hr' & Hsuf).
    { destruct (decide (u < head_end)) as [Hlt|Hge].
      - exists m. split_and!; [|done|done]. apply assemble_head; [|done].
        apply (list_elem_of_lookup_2 _ u). by rewrite lookup_take_lt.
      - assert (ts ≤ u) as Htu by (apply (Hlast u m); try done; lia).
        destruct (assemble_tail (take head_end pruned) (drop ts pruned) s m) as (m' & ? & ? & ?).
        { apply (list_elem_of_lookup_2 _ (u - ts)). rewrite lookup_drop.
          by replace (ts + (u - ts)) with u by lia. }
        exists m'. split_and!; [done|congruence|done]. }
    exists m'. split_and!; [|done|done]. apply sanitize_keeps; [done|congruence].
  - intros Hsys. destruct (assemble_leads (take head_end pruned) (drop ts pruned) s) as (sys & rest & -> & Hs).
    { rewrite <-Forall_fmap with (f := role) (P := λ r, r = System).
      rewrite <-Forall_fmap with (f := role) (P := λ r, r = System) in Hsys.
      rewrite fmap_take in Hsys |- *. unfold pruned. by rewrite prune_roles. }
    destruct (sanitize_front (sys ++ [text_message User s]) rest) as [rest' Hx].
    { apply Forall_app. split; [|by repeat constructor; right].
      eapply Forall_impl; [exact Hs|]. by left. }
    rewrite <-!app_assoc in Hx. simpl in Hx. rewrite Hx. by eexists sys, _, rest'.
Qed.

(** The anchor of the last user turn fails when one message follows the
    protected head: the boundary is then the end of the history, so the
    compressed region is that message, and a user turn in it is replaced by
    the summary. *)
Theorem last_user_dropped messages head_end budget m :
  length messages = head_end + 1 → last messages = Some m → is_user_turn m = true →
  find_tail_start_by_tokens messages head_end budget = Some (length messages) ∧
  take (length messages - head_end) (drop head_end messages) = [m] ∧
  drop (length messages) messages = [].
Proof.
  intros Hl Hm _. apply last_Some in Hm as [l ->]. rewrite length_app in *. simpl in *.
  split_and!.
  - unfold find_tail_start_by_tokens. rewrite length_app. simpl.
    destruct (Nat.leb_spec (length l + 1) (head_end + 1)); [done|lia].
  - replace head_end with (length l) by lia. rewrite drop_app_length.
    by replace (length l + 1 - length l) with 1 by lia.
  - apply drop_ge. rewrite length_app. simpl. lia.
Qed.

(** *** The reactive compaction *)

Definition region_start messages : nat :=
  if match messages with m :: _ => is_role System m | [] => false end then 1 else 0.

Lemma compaction_end_spec messages n :
  1 ≤ n → ∃ b, compaction_end messages n = Some b ∧
  ∀ st e, b = Some (st, e) → st = region_start messages ∧ st < e ∧ e + n ≤ length messages.
Proof.
  intros Hn. unfold compaction_end. fold (region_start messages). set (st := region_start messages).
  destruct (Nat.ltb_spec (st + n) (length messages)) as [Hlt|]; [|by eexists].
  destruct (back_over_tools_spec messages st (length messages - n)) as (e1 & -> & He1 & _); [lia|lia|].
  cbn [mbind option_bind].
  destruct (back_over_call_spec messages st e1) as (e2 & -> & He2); [lia|lia|]. cbn [mbind option_bind].
  eexists. split; [done|]. intros st' e'. case_if; bool_hyps; intros [=]. lia.
Qed.

(** Compaction is fail-open and keeps the recent history: with a positive
    [preserve_last_n] it always completes; when either model call fails or
    runs out of time nothing changes; otherwise the new history is the system
    message, at most one summary message, and a suffix of the old history
    that is shorter than it and has at least [preserve_last_n] messages. *)
Theorem compaction_keeps_recent ask parse messages max_tokens n language force :
  1 ≤ n →
  ∃ c, compact_if_needed_inner ask parse messages max_tokens n language force = Some c ∧
  match c with
  | Untouched => True
  | Compacted messages' facts =>
      ∃ e formatted r1 r2 summary,
        ask (extraction_prompt formatted language) = Some (Ok r1) ∧
        ask (summary_prompt formatted language) = Some (Ok r2) ∧
        region_start messages < e ∧ e + n ≤ length messages ∧
        messages' = take (region_start messages) messages ++ summary ++ drop e messages ∧
        length summary ≤ 1 ∧ facts = default [] (parse (r_content r1))
  end.
Proof.
  intros Hn. unfold compact_if_needed_inner. case_if; [by eexists|].
  destruct (compaction_end_spec messages n Hn) as ([[st e]|] & -> & Hb); cbn [mbind option_bind];
    [|by eexists].
  destruct (Hb st e eq_refl) as (-> & Hlt & He). set (formatted := format_messages_for_compaction _).
  destruct (ask (extraction_prompt formatted language)) as [[r1|]|] eqn:H1; [|by eexists..].
  destruct (ask (summary_prompt formatted language)) as [[r2|]|] eqn:H2; [|by eexists..].
  eexists. split; [done|]. eexists e, formatted, r1, r2, _. split_and!; try done. case_bool_decide; simpl; lia.
Qed.

(** With [preserve_last_n = 0] a compaction that passes the gate indexes
    the history at its length, which panics. *)
Theorem compaction_panics ask parse messages max_tokens language :
  region_start messages < length messages →
  compact_if_needed_inner ask parse messages max_tokens 0 language true = None.
Proof.
  intros Hl. unfold compact_if_needed_inner. cbn [negb andb].
  unfold compaction_end. fold (region_start messages).
  destruct (Nat.ltb_spec (region_start messages + 0) (length messages)); [|lia].
  assert (back_over_tools messages (region_start messages) (length messages - 0) = None) as ->; [|done].
  rewrite Nat.sub_0_r. destruct (length messages) as [|k] eqn:Hk; [lia|]. cbn [back_over_tools].
  destruct (Nat.ltb_spec (region_start messages) (S k)); [|lia].
  by rewrite (proj2 (lookup_ge_None messages (S k))) by lia.
Qed.

(** The second adjustment undoes the first: when the preserved part would
    begin at an assistant turn with calls that follows another tool result,
    it is moved back onto that result, whose own call is compacted away. *)
Theorem boundary_splits_group (before after : list (Message V)) (t a : Message V) :
  role t = Tool → role a = Assistant → has_tool_calls a = true →
  region_start (before ++ t :: a :: after) < length before →
  compaction_end (before ++ t :: a :: after) (S (length after)) =
    Some (Some (region_start (before ++ t :: a :: after), length before)) ∧
  drop (length before) (before ++ t :: a :: after) = t :: a :: after.
Proof.
  intros Ht Ha Hc Hs. split; [|by rewrite drop_app_length].
  unfold compaction_end. set (ms := before ++ t :: a :: after) in *. fold (region_start ms).
  assert (length ms = length before + S (S (length after))) as Hl by (unfold ms; rewrite length_app; done).
  rewrite Hl. destruct (Nat.ltb_spec (region_start ms + S (length after))
    (length before + S (S (length after)))); [|lia].
  replace (length before + S (S (length after)) - S (length after)) with (S (length before)) by lia.
  assert (ms !! S (length before) = Some a) as Hma.
  { unfold ms. rewrite lookup_app_r by lia. by replace (S (length before) - length before) with 1 by lia. }
  cbn [back_over_tools]. destruct (Nat.ltb_spec (region_start ms) (S (length before))); [|lia].
  rewrite Hma. cbn [mbind option_bind].
  assert (is_role Tool a = false) as -> by (apply is_role_false; congruence). cbn [mbind option_bind].
  unfold back_over_call. destruct (Nat.ltb_spec (region_start ms) (S (length before))); [|lia].
  rewrite Hma. cbn [mbind option_bind].
  apply is_role_spec in Ha as ->. rewrite Hc. cbn [andb mbind option_bind].
  replace (S (length before) - 1) with (length before) by lia.
  destruct (Nat.leb_spec (length before) (region_start ms)); [lia|done].
Qed.
End compression.

(** *** Witnesses *)

Definition demo_msg (r : MessageRole) (c : string) : Message Jv.t := text_message r (bs c).
Definition demo_caller (id : string) : Message Jv.t :=
  mkMessage Assistant [] (Some [mkToolCall (bs id) (bs "fs") (Jv.Obj []) None]) None [] None.
Definition demo_result (id c : string) : Message Jv.t :=
  mkMessage Tool (bs c) None (Some (bs id)) [] None.
Definition demo_answer (c : string) : LlmResponse Jv.t :=
  mkResponse (bs c) [] None None None None None [] 0 [].

Definition demo_history : list (Message Jv.t) :=
  [demo_msg System "sys"; demo_msg User "q1"; demo_msg Assistant "a1"; demo_caller "c1";
   demo_result "c1" "r1"; demo_msg Assistant "a2"; demo_msg User "q2"; demo_msg Assistant "a3"].

Example sanitize_ex :
  content <$> sanitize_tool_pairs [demo_result "x" "lost"; demo_caller "c9"; demo_msg User "u"] =
  [[]; STUB; bs "u"].
Proof. vm_compute. reflexivity. Qed.

Example prune_ex :
  content <$> prune_old_tool_results (λ s, Z.of_nat (length s))
    [mkMessage (V:=Jv.t) Tool (replicate 300 "a"%char) None (Some (bs "c1")) [] None;
     mkMessage Tool (replicate 250 "b"%char) None (Some (bs "c2")) [] None;
     mkMessage Tool (replicate 300 "a"%char) None (Some (bs "c3")) [] None] 1 =
  [DUPLICATE_MARK; bs "[tool result c2] (250 chars — pruned)"; replicate 300 "a"%char].
Proof. vm_compute. reflexivity. Qed.

Lemma prune_witness :
  length (prune_old_tool_results (λ s, Z.of_nat (length s)) demo_history 2) = 8.
Proof.
  assert (demo_history !! 1 = Some (demo_msg User "q1")) as Hm by reflexivity.
  destruct (prune_keeps_structure (λ s, Z.of_nat (length s)) demo_history 2 1 _ Hm) as [Hl _].
  exact Hl.
Defined.

Definition demo_compressor : Compressor.Compressor := Compressor.new 50.

Lemma compress_witness :
  ∃ r, compress_messages (λ s, Z.of_nat (length s)) (λ _, Ok (demo_answer "sum")) (λ _, None)
         demo_history demo_compressor Compressor.default_compaction_config None = Some (Some r) ∧
       paired (c_messages r).
Proof.
  destruct (compress_messages_safe (λ s, Z.of_nat (length s)) (λ _, Ok (demo_answer "sum"))
    (λ _, None) demo_history demo_compressor Compressor.default_compaction_config None)
    as (res & Hres & Hr).
  assert (∃ r, compress_messages (λ s, Z.of_nat (length s)) (λ _, Ok (demo_answer "sum")) (λ _, None)
    demo_history demo_compressor Compressor.default_compaction_config None = Some (Some r)) as [r Hc]
    by (eexists; vm_compute; reflexivity).
  exists r. split; [exact Hc|]. rewrite Hc in Hres. injection Hres as Hres.
  exact (proj1 (Hr r (eq_sym Hres))).
Defined.

Lemma last_user_dropped_witness :
  find_tail_start_by_tokens [demo_msg System "s"; demo_msg User "u"] 1 100 = Some 2.
Proof.
  assert (length [demo_msg System "s"; demo_msg User "u"] = 1 + 1) as H1 by reflexivity.
  assert (last [demo_msg System "s"; demo_msg User "u"] = Some (demo_msg User "u")) as H2 by reflexivity.
  assert (is_user_turn (demo_msg User "u") = true) as H3 by (vm_compute; reflexivity).
  exact (proj1 (last_user_dropped _ _ 100 _ H1 H2 H3)).
Defined.

Lemma compaction_witness :
  ∃ c, compact_if_needed_inner (λ _, Some (Ok (demo_answer "sum"))) (λ _, None) demo_history
         0 2 None true = Some c ∧
       match c with Untouched => False | Compacted ms _ => length ms = 4 end.
Proof.
  assert (1 ≤ 2) as Hn by lia.
  destruct (compaction_keeps_recent (λ _, Some (Ok (demo_answer "sum"))) (λ _, None) demo_history
         0 2 None true Hn) as (c & Hc & _).
  exists c. split; [exact Hc|].
  assert (compact_if_needed_inner (λ _, Some (Ok (demo_answer "sum"))) (λ _, None) demo_history
         0 2 None true = Some (Compacted (firstn 1 demo_history ++
           [demo_msg System "[Previous conversation summary]
sum"] ++ skipn 6 demo_history) [])) as Hv by (vm_compute; reflexivity).
  rewrite Hv in Hc. injection Hc as <-. reflexivity.
Defined.

Lemma compaction_panics_witness :
  compact_if_needed_inner (λ _, Some (Ok (demo_answer "sum"))) (λ _, None) demo_history
    0 0 None true = None.
Proof.
  assert (region_start demo_history < length demo_history) as H1 by (vm_compute; lia).
  exact (compaction_panics _ (λ _, None) demo_history 0 None H1).
Defined.

Lemma boundary_splits_group_witness :
  compaction_end ([demo_msg User "q"; demo_caller "c1"] ++ demo_result "c1" "r" :: demo_caller "c2" ::
    [demo_result "c2" "r2"]) 2 = Some (Some (0, 2)).
Proof.
  assert (role (demo_result "c1" "r") = Tool) as H1 by reflexivity.
  assert (role (demo_caller "c2") = Assistant) as H2 by reflexivity.
  assert (has_tool_calls (demo_caller "c2") = true) as H3 by reflexivity.
  assert (region_start ([demo_msg User "q"; demo_caller "c1"] ++ demo_result "c1" "r" ::
    demo_caller "c2" :: [demo_result "c2" "r2"]) < length [demo_msg User "q"; demo_caller "c1"]) as H4
    by (vm_compute; lia).
  exact (proj1 (boundary_splits_group [demo_msg User "q"; demo_caller "c1"] [demo_result "c2" "r2"]
    (demo_result "c1" "r") (demo_caller "c2") H1 H2 H3 H4)).
Defined.

Lemma wire_transcript_witness :
  bs "c1" ∈ result_ids (strip_orphaned_tool_messages [demo_caller "c1"; demo_result "c1" "r"]).
Proof.
  destruct (wire_transcript_valid [demo_caller "c1"; demo_result "c1" "r"]) as (_ & _ & Ha).
  apply (Ha) with (a := demo_caller "c1").
  - intros [|[|i]] m id Hm Hr Hid; simplify_eq/=. right. exists 0, (demo_caller "c1").
    split_and!; [lia|reflexivity|split; [reflexivity|by left]].
  - intros [|[|i]] [|[|j]] x y id Hx Hy [Hrx ?] [Hry ?]; simplify_eq/=; done.
  - vm_compute. by left.
  - split; [reflexivity|by left].
Defined.
