(* ===== verification/Budget.v ===== *)
(** * Context budget and provenance of tool results

    The budget helpers of [agent/pipeline/context.rs] and the provenance
    wrappers of [agent/provenance.rs].  The closing-tag patterns are regular
    expressions of a library: their replacement is the parameter
    [neutralize] (pattern, replacement, text). *)
From S2P Require Import Prelude Json Messages LlmRetry.
From S2P Require Compressor.

(* @src opex-core/src/agent/pipeline/context.rs 62-74 truncate_preview *)
Definition truncate_preview (s : str) (max : nat) : str :=
  let n := char_count s in
  if n <=? max then s else
  if max <? 4 then take_chars max s else
  take_chars (max - 3) s ++ bs "...".

(** [limit_tokens] is the answer of [context_limit_tokens] for the model. *)
(* @src opex-core/src/agent/pipeline/context.rs 81-109 truncate_tool_result *)
Definition truncate_tool_result (limit_tokens : nat) (result : str) (current_context_chars : nat) : str :=
  let model_max_chars := limit_tokens * 4 in
  let remaining := model_max_chars - current_context_chars in
  let limit := Nat.max (remaining * 50 / 100) 2000 in
  if length result <=? limit then result else
  let tail_region := drop (floor_char_boundary result (length result - 1500)) result in
  let tail_has_error :=
    contains (bs "error") tail_region || contains (bs "Error") tail_region ||
    contains (bs "failed") tail_region || contains (bs "exception") tail_region in
  let tail_size := if tail_has_error then 1500 else 500 in
  let marker := [LF; LF] ++ bs "[... truncated " ++ dec (length result) ++ bs " → " ++
                dec limit ++ bs " chars ...]" ++ [LF; LF] in
  let head_size := limit - tail_size - length marker in
  let head := take (floor_char_boundary result head_size) result in
  let tail := drop (floor_char_boundary result (length result - tail_size)) result in
  head ++ marker ++ tail.

(* @src opex-core/src/agent/pipeline/context.rs 159-171 compaction_params *)
Definition compaction_params (limit_tokens : nat) (cfg : option Compressor.CompactionConfig)
    : nat * nat :=
  let max_tokens := match cfg ≫= Compressor.max_context_tokens with
                    | Some t => Z.to_nat t
                    | None => limit_tokens
                    end in
  let preserve_last_n := default 10 (Compressor.preserve_last_n <$> cfg) in
  (max_tokens, preserve_last_n).

Section compact.
Context {V : Type}.
Implicit Types (messages : list (Message V)) (m : Message V).

Definition COMPACTED_MARK : str := bs "[tool result compacted]".

(** The pass over the messages: [left] tool results are still to be
    compacted; the messages, the characters removed and whether any was. *)
Fixpoint compact_pass (left : nat) messages : list (Message V) * nat :=
  match messages with
  | [] => ([], 0)
  | m :: rest =>
      if is_role Tool m then
        match left with
        | O => (m :: rest, 0)
        | S left' =>
            let '(rest', removed) := compact_pass left' rest in
            let old_len := char_count (content m) in
            if 100 <? old_len
            then (set_content COMPACTED_MARK m :: rest', old_len - length COMPACTED_MARK + removed)
            else (m :: rest', removed)
        end
      else let '(rest', removed) := compact_pass left rest in (m :: rest', removed)
  end.

(** The messages and [context_chars]. *)
(* @src opex-core/src/agent/pipeline/context.rs 113-156 compact_tool_results *)
Definition compact_tool_results (limit_tokens : nat) (cfg : option Compressor.CompactionConfig)
    messages (context_chars : nat) : list (Message V) * nat :=
  let context_window := limit_tokens * 4 in
  let threshold := context_window * 70 / 100 in
  if context_chars <=? threshold then (messages, context_chars) else
  let preserve_n := default 10 (Compressor.preserve_last_n <$> cfg) in
  let to_compact := length (List.filter (is_role Tool) messages) - preserve_n in
  let '(messages', removed) := compact_pass to_compact messages in
  (messages', context_chars - removed).

(** The characters of a history. *)
Definition total_chars messages : nat := foldr plus 0 ((λ m, char_count (content m)) <$> messages).

Lemma total_chars_cons m messages :
  total_chars (m :: messages) = char_count (content m) + total_chars messages.
Proof. done. Qed.

Lemma compact_pass_spec left messages :
  let '(messages', removed) := compact_pass left messages in
  length messages' = length messages ∧
  total_chars messages' + removed = total_chars messages ∧
  (∀ i m, messages !! i = Some m → ∃ m', messages' !! i = Some m' ∧
     (m' = m ∨ (m' = set_content COMPACTED_MARK m ∧ role m = Tool ∧
        length (List.filter (is_role Tool) (take i messages)) < left))).
Proof.
  revert left. induction messages as [|m rest IH]; intros left; cbn [compact_pass].
  { split_and!; [done|done|]. intros i m. by rewrite lookup_nil. }
  destruct (is_role Tool m) eqn:Hr.
  - destruct left as [|left].
    + split_and!; [done|lia|]. intros i x Hx. exists x. auto.
    + specialize (IH left). destruct (compact_pass left rest) as [rest' removed].
      destruct IH as (Hl & Ht & Hi). apply is_role_spec in Hr as Hrole.
      assert (∀ i x, rest !! i = Some x → ∃ m', rest' !! i = Some m' ∧
        (m' = x ∨ (m' = set_content COMPACTED_MARK x ∧ role x = Tool ∧
          S (length (List.filter (is_role Tool) (take i rest))) < S left))) as Hi'.
      { intros i x Hx. destruct (Hi i x Hx) as (x' & ? & [?|(? & ? & ?)]); exists x'; auto with lia. }
      destruct (Nat.ltb_spec 100 (char_count (content m))) as [Hlong|];
        (split_and!; [simpl; lia| |]).
      * rewrite !total_chars_cons. change (content (set_content COMPACTED_MARK m)) with COMPACTED_MARK.
        change (char_count COMPACTED_MARK) with 23. change (length COMPACTED_MARK) with 23. lia.
      * intros [|i] x Hx; simplify_eq/=.
        -- eexists. split; [done|]. right. split_and!; [done|done|lia].
        -- rewrite Hr. by apply Hi'.
      * rewrite !total_chars_cons. lia.
      * intros [|i] x Hx; simplify_eq/=; [by eauto|]. rewrite Hr. by apply Hi'.
  - specialize (IH left). destruct (compact_pass left rest) as [rest' removed].
    destruct IH as (Hl & Ht & Hi). split_and!; [simpl; lia|rewrite !total_chars_cons; lia|].
    intros [|i] x Hx; simplify_eq/=; [by eauto|]. rewrite Hr. by apply Hi.
Qed.

(** The in-turn compaction of tool results changes nothing else: every
    message stays at its place, only tool results with at least
    [preserve_last_n] later ones are replaced by the mark, and when the
    counter held the size of the history before, it does after. *)
Theorem compact_tool_results_spec (limit_tokens : nat) cfg messages (context_chars : nat) :
  let '(messages', chars') := compact_tool_results limit_tokens cfg messages context_chars in
  length messages' = length messages ∧
  (context_chars = total_chars messages → chars' = total_chars messages') ∧
  ∀ i m, messages !! i = Some m → ∃ m', messages' !! i = Some m' ∧
    (m' = m ∨ (m' = set_content COMPACTED_MARK m ∧ role m = Tool ∧
       length (List.filter (is_role Tool) (take i messages)) + default 10 (Compressor.preserve_last_n <$> cfg)
       < length (List.filter (is_role Tool) messages))).
Proof.
  unfold compact_tool_results. case_if; [split_and!; [done|done|by eauto]|].
  set (k := length _ - _). pose proof (compact_pass_spec k messages) as H.
  destruct (compact_pass k messages) as [ms' removed]. destruct H as (Hl & Ht & Hi).
  split_and!; [done|lia|]. intros i m Hm. destruct (Hi i m Hm) as (m' & ? & [?|(? & ? & ?)]); exists m';
    (split; [done|]); [by left|right]. split_and!; [done|done|lia].
Qed.
End compact.

(** A text whose every byte is at most three bytes after the start of a
    character, as in UTF-8. *)
Definition char_text (s : str) : Prop :=
  ∀ i, i < length s → ∃ j c, j ≤ i ≤ j + 3 ∧ s !! j = Some c ∧ is_char_start c = true.

Lemma floor_char_boundary_ge s n :
  char_text s → n ≤ length s → n ≤ floor_char_boundary s n + 3.
Proof.
  intros Hs Hn. destruct (decide (n = length s)) as [->|Hne].
  { destruct (length s) eqn:Hl; cbn [floor_char_boundary]; [lia|].
    rewrite Hl, Nat.leb_refl. lia. }
  destruct (Hs n) as (j & c & Hj & Hc & Hstart); [lia|].
  assert (∀ k, j ≤ k → k < length s → j ≤ floor_char_boundary s k) as Hk.
  { induction k as [|k IH]; intros Hjk Hkl; cbn [floor_char_boundary]; [lia|].
    destruct (Nat.leb_spec (length s) (S k)); [lia|].
    destruct (lookup_lt_is_Some_2 s (S k)) as [d Hd]; [lia|]. rewrite Hd.
    destruct (is_char_start d) eqn:Hds; [lia|].
    destruct (decide (j = S k)) as [->|]; [|apply IH; lia]. congruence. }
  specialize (Hk n). lia.
Qed.

(** A truncated tool result fits: it has at most [limit] bytes, plus the
    at most three bytes by which the tail is moved to a character boundary,
    as long as the marker and the tail themselves fit; a result within the
    limit is unchanged. *)
Theorem truncate_fits (limit_tokens : nat) (result : str) (chars : nat) :
  char_text result →
  let limit := Nat.max ((limit_tokens * 4 - chars) * 50 / 100) 2000 in
  length (dec (length result)) + length (dec limit) ≤ 400 →
  (length result ≤ limit → truncate_tool_result limit_tokens result chars = result) ∧
  length (truncate_tool_result limit_tokens result chars) ≤ limit + 3.
Proof.
  intros Hc limit Hdec. unfold truncate_tool_result. fold limit.
  destruct (Nat.leb_spec (length result) limit) as [Hle|Hgt]; [split; [done|lia]|].
  split; [lia|]. set (ts := if _ || _ || _ || _ then 1500 else 500).
  assert (ts = 1500 ∨ ts = 500) as Hts by (unfold ts; destruct (_ || _); auto).
  set (marker := [LF; LF] ++ _). assert (length marker ≤ 500) as Hm.
  { unfold marker. rewrite !length_app. simpl. lia. }
  clearbody ts marker. rewrite !length_app, length_take, length_drop.
  assert (2000 ≤ limit) by lia.
  pose proof (floor_char_boundary_ge result (length result - ts) Hc ltac:(lia)).
  assert (floor_char_boundary result (limit - ts - length marker) ≤ limit - ts - length marker).
  { generalize (limit - ts - length marker). clear. intros n.
    induction n as [|n IH]; cbn [floor_char_boundary]; [case_if; bool_hyps; lia|].
    case_if; bool_hyps; [lia|]. destruct (result !! S n) eqn:Hr; [case_if; lia|].
    apply lookup_ge_None in Hr. lia. }
  lia.
Qed.

(** ** Provenance *)

Definition replace_char (c : ascii) (by_ : str) (s : str) : str :=
  concat ((λ d, if bool_decide (d = c) then by_ else [d]) <$> s).

(* @src opex-core/src/agent/provenance.rs 21-23 attr_escape *)
Definition attr_escape (s : str) : str :=
  replace_char DQ (bs "&quot;") (replace_char "&"%char (bs "&amp;") s).

Section provenance.
Context (neutralize : str → str → str → str).
Context (to_lowercase : str → str).
Context (is_internal_endpoint : str → bool).

(* @src opex-core/src/agent/provenance.rs 37-44 wrap_file_output *)
Definition wrap_file_output (handler_id upload_id body : str) : str :=
  bs "<file_output handler=" ++ [DQ] ++ attr_escape handler_id ++ [DQ] ++ bs " upload=" ++ [DQ] ++
  attr_escape upload_id ++ [DQ] ++ bs " trust=" ++ quoted "untrusted" ++ bs ">" ++ [LF] ++
  neutralize (bs "(?i)</\s*file_output\s*>") (bs "&lt;/file_output&gt;") body ++ [LF] ++
  bs "</file_output>".

(* @src opex-core/src/agent/provenance.rs 70-76 wrap_lsp_output *)
Definition wrap_lsp_output (file body : str) : str :=
  bs "<lsp_output file=" ++ [DQ] ++ attr_escape file ++ [DQ] ++ bs " trust=" ++ quoted "untrusted" ++
  bs ">" ++ [LF] ++
  neutralize (bs "(?i)</\s*lsp_output\s*>") (bs "&lt;/lsp_output&gt;") body ++ [LF] ++
  bs "</lsp_output>".

(* @src opex-core/src/agent/provenance.rs 106-112 wrap_untrusted_tool_output *)
Definition wrap_untrusted_tool_output (tool_name body : str) : str :=
  bs "<untrusted_tool_output tool=" ++ [DQ] ++ attr_escape tool_name ++ [DQ] ++ bs " trust=" ++
  quoted "untrusted" ++ bs ">" ++ [LF] ++
  neutralize (bs "(?i)</\s*untrusted_tool_output\s*>") (bs "&lt;/untrusted_tool_output&gt;") body ++
  [LF] ++ bs "</untrusted_tool_output>".

(* @src opex-core/src/agent/provenance.rs 118-118 UNTRUSTED_SYSTEM_TOOL_NAMES *)
Definition UNTRUSTED_SYSTEM_TOOL_NAMES : list str := [bs "web_fetch"; bs "browser_action"].
(* @src opex-core/src/agent/provenance.rs 137-137 UNTRUSTED_NAME_HINTS *)
Definition UNTRUSTED_NAME_HINTS : list str := [bs "web"; bs "browser"; bs "search"; bs "its"].

(* @src opex-core/src/agent/provenance.rs 182-185 name_hints_untrusted *)
Definition name_hints_untrusted (tool_name : str) : bool :=
  let lower := to_lowercase tool_name in
  existsb (λ hint, contains hint lower) UNTRUSTED_NAME_HINTS.

(* @src opex-core/src/agent/provenance.rs 168-176 is_untrusted_tool *)
Definition is_untrusted_tool (tool_name : str) (is_mcp : bool) : bool :=
  if is_mcp then true else
  if existsb (λ n, bool_decide (n = tool_name)) UNTRUSTED_SYSTEM_TOOL_NAMES then true else
  name_hints_untrusted tool_name.

(* @src opex-core/src/agent/provenance.rs 208-210 is_untrusted_yaml_tool *)
Definition is_untrusted_yaml_tool (tool_name endpoint : str) : bool :=
  negb (is_internal_endpoint endpoint) || name_hints_untrusted tool_name.
End provenance.

Lemma truncate_fits_witness :
  length (truncate_tool_result 0 (replicate 3000 "x"%char) 0) ≤ 2003.
Proof.
  assert (char_text (replicate 3000 "x"%char)) as Hc.
  { intros i Hi. rewrite length_replicate in Hi. exists i, "x"%char.
    split_and!; [lia|lia|by apply lookup_replicate|done]. }
  assert (length (dec (length (replicate 3000 "x"%char))) +
    length (dec (Nat.max ((0 * 4 - 0) * 50 / 100) 2000)) ≤ 400) as Hd
    by (apply (bool_decide_unpack _); vm_compute; exact I).
  exact (proj2 (truncate_fits 0 (replicate 3000 "x"%char) 0 Hc Hd)).
Defined.
