(* ===== verification/StreamRegistry.v ===== *)
(** * The registry of live SSE streams

    [gateway/stream_registry.rs]: one buffered, replayable stream per session.
    A cancellation token is a number, an [Instant] a number of milliseconds,
    and the receiver of a broadcast channel is the number of messages that
    were sent before it subscribed.  The rows of the table [stream_jobs] that
    the registry writes are part of the state. *)
From S2P Require Import Prelude Json Messages.
From stdpp Require Import sorting list_numbers.

(* @src opex-core/src/gateway/stream_registry.rs 17-17 BROADCAST_CAPACITY *)
Definition BROADCAST_CAPACITY : Z := 10000.
(* @src opex-core/src/gateway/stream_registry.rs 18-18 MAX_BUFFER_SIZE *)
Definition MAX_BUFFER_SIZE : Z := 10000.
(* @src opex-core/src/gateway/stream_registry.rs 28-28 COMPACTION_TARGET *)
Definition COMPACTION_TARGET : Z := MAX_BUFFER_SIZE / 2.
(* @src opex-core/src/gateway/stream_registry.rs 30-30 MAX_ACTIVE_STREAMS *)
Definition MAX_ACTIVE_STREAMS : nat := 50.

(* @src opex-core/src/gateway/stream_registry.rs 51-65 ActiveStream *)
Record ActiveStream := mkStream {
  events : list (Z * str);
  finished_at : option Z;
  next_event_id : Z;
  truncated : bool;
  sent : list (Z * str);         (** everything sent on [broadcast_tx] *)
  cancel_token : nat;
  finished : bool;
  job_id : Uuid;
  boundary_message_id : Uuid;
}.

Inductive JobStatus := Running | JobFinished | JobError (reason : str).

(** The map of streams, the cancelled tokens and the job rows. *)
(* @src opex-core/src/gateway/stream_registry.rs 79-82 StreamRegistry *)
Record Registry := mkRegistry {
  streams : gmap str ActiveStream;
  cancelled : gset nat;
  jobs : gmap Uuid JobStatus;
}.
Definition empty_registry : Registry := mkRegistry ∅ ∅ ∅.

Definition set_stream (key : str) (s : ActiveStream) (r : Registry) : Registry :=
  mkRegistry (<[key := s]> (streams r)) (cancelled r) (jobs r).
Definition set_job (id : Uuid) (st : JobStatus) (r : Registry) : Registry :=
  mkRegistry (streams r) (cancelled r) (<[id := st]> (jobs r)).
Definition cancel_stream_token (t : nat) (r : Registry) : Registry :=
  mkRegistry (streams r) ({[t]} ∪ cancelled r) (jobs r).

Definition finish_stream (now : Z) (s : ActiveStream) : ActiveStream :=
  mkStream (events s) (Some now) (next_event_id s) (truncated s) (sent s) (cancel_token s) true
    (job_id s) (boundary_message_id s).

(** ** Registration and cancellation *)

Definition fresh_stream (token : nat) (job boundary : Uuid) : ActiveStream :=
  mkStream [] None 0 false [] token false job boundary.

(** [created] is the row that the database made, or [None] for an error. *)
(* @src opex-core/src/gateway/stream_registry.rs 107-182 register_with_token *)
Definition register_with_token (key : str) (token : nat) (boundary : Uuid) (created : option Uuid)
    (now : Z) (r : Registry) : Registry * option Uuid :=
  match created with
  | None => (r, None)
  | Some job =>
      let r := set_job job Running r in
      let kept :=
        if MAX_ACTIVE_STREAMS <=? size (streams r)
        then filter (λ p, finished p.2 = false) (streams r) else streams r in
      let r := mkRegistry kept (cancelled r) (jobs r) in
      if MAX_ACTIVE_STREAMS <=? size kept then (r, None) else
      let r := match kept !! key with
               | Some existing =>
                   set_job (job_id existing) (JobError (bs "superseded by new stream"))
                     (set_stream key (finish_stream now existing)
                        (cancel_stream_token (cancel_token existing) r))
               | None => r
               end in
      (set_stream key (fresh_stream token job boundary) r, Some job)
  end.

(* @src opex-core/src/gateway/stream_registry.rs 185-193 cancel *)
Definition cancel (key : str) (r : Registry) : Registry * bool :=
  match streams r !! key with
  | Some s => (cancel_stream_token (cancel_token s) r, true)
  | None => (r, false)
  end.

(** ** The buffer *)
Section buffer.
Context {V : Type} `{Json V}.

Definition str_field (name : string) (v : V) : option str := jget v (bs name) ≫= jas_str.

(* @src opex-core/src/gateway/stream_registry.rs 348-364 try_merge_text_delta *)
Definition try_merge_text_delta (prev next : str) : option str :=
  p ← jparse prev;
  ptype ← str_field "type" p;
  if negb (bool_decide (ptype = bs "text-delta")) then None else
  n ← jparse next;
  ntype ← str_field "type" n;
  if negb (bool_decide (ntype = bs "text-delta")) then None else
  pid ← str_field "id" p;
  nid ← str_field "id" n;
  if negb (bool_decide (pid = nid)) then None else
  pd ← str_field "delta" p;
  nd ← str_field "delta" n;
  Some (jprint (jinsert (bs "delta") (jstring (pd ++ nd)) p)).

(** One event on the output, which is kept with its last event first. *)
Definition compact_step (out : list (Z * str)) (ev : Z * str) : list (Z * str) :=
  match out with
  | last :: rest =>
      match try_merge_text_delta last.2 ev.2 with
      | Some merged => (ev.1, merged) :: rest
      | None => ev :: out
      end
  | [] => [ev]
  end.
(* @src opex-core/src/gateway/stream_registry.rs 330-343 compact_events *)
Definition compact_events (evs : list (Z * str)) : list (Z * str) := rev (foldl compact_step [] evs).

Definition long (n : Z) (evs : list (Z * str)) : bool := (n <=? Z.of_nat (length evs))%Z.

Definition push_stream (event_json : str) (s : ActiveStream) : ActiveStream :=
  let id := next_event_id s in
  let compacting := long MAX_BUFFER_SIZE (events s) && negb (truncated s) in
  let evs := if compacting then compact_events (events s) else events s in
  let trunc := if compacting && long COMPACTION_TARGET evs then true else truncated s in
  let evs' := if negb trunc && negb (long MAX_BUFFER_SIZE evs) then evs ++ [(id, event_json)] else evs in
  mkStream evs' (finished_at s) (id + 1) trunc (sent s ++ [(id, event_json)]) (cancel_token s)
    (finished s) (job_id s) (boundary_message_id s).

(* @src opex-core/src/gateway/stream_registry.rs 200-231 push_event *)
Definition push_event (key event_json : str) (r : Registry) : Registry * Z :=
  match streams r !! key with
  | Some s => (set_stream key (push_stream event_json s) r, next_event_id s)
  | None => (r, 0%Z)
  end.
End buffer.

(** ** The end of a stream *)

(* @src opex-core/src/gateway/stream_registry.rs 234-241 set_finished_state *)
Definition set_finished_state (key : str) (now : Z) (r : Registry) : Registry * option Uuid :=
  match streams r !! key with
  | Some s => (set_stream key (finish_stream now s) r, Some (job_id s))
  | None => (r, None)
  end.
(* @src opex-core/src/gateway/stream_registry.rs 244-249 mark_finished *)
Definition mark_finished (key : str) (now : Z) (r : Registry) : Registry :=
  match set_finished_state key now r with
  | (r, Some job) => set_job job JobFinished r
  | (r, None) => r
  end.
(* @src opex-core/src/gateway/stream_registry.rs 252-257 mark_error *)
Definition mark_error (key error : str) (now : Z) (r : Registry) : Registry :=
  match set_finished_state key now r with
  | (r, Some job) => set_job job (JobError error) r
  | (r, None) => r
  end.

(* @src opex-core/src/gateway/stream_registry.rs 267-269 snapshot_size *)
Definition snapshot_size (r : Registry) : nat := size (streams r).

(** ** Subscriptions *)

(** [rx] is the position of the new receiver. *)
(* @src opex-core/src/gateway/stream_registry.rs 87-93 StreamSubscription *)
Record StreamSubscription := mkSubscription {
  sub_events : list (Z * str);
  sub_rx : nat;
  sub_finished : bool;
  sub_boundary : Uuid;
  sub_truncated : bool;
}.
Definition subscribe_stream (s : ActiveStream) : StreamSubscription :=
  mkSubscription (events s) (length (sent s)) (finished s) (boundary_message_id s) (truncated s).
(* @src opex-core/src/gateway/stream_registry.rs 277-294 subscribe *)
Definition subscribe (key : str) (r : Registry) : option StreamSubscription :=
  subscribe_stream <$> streams r !! key.

(** ** The two phases of a cleanup

    Between them the locks are free and any other operation may run. *)

Definition expired (now max_age : Z) (s : ActiveStream) : bool :=
  finished s &&
  match finished_at s with Some t => (max_age <=? sat_sub now t)%Z | None => false end.
(* @src opex-core/src/gateway/stream_registry.rs 298-315 cleanup (phase 1) *)
Definition cleanup_scan (now max_age : Z) (r : Registry) : list str :=
  fst <$> List.filter (λ p : str * ActiveStream, expired now max_age p.2) (map_to_list (streams r)).
(* @src opex-core/src/gateway/stream_registry.rs 316-323 cleanup (phase 2) *)
Definition cleanup_remove (keys : list str) (r : Registry) : Registry :=
  mkRegistry (foldr delete (streams r) keys) (cancelled r) (jobs r).

(** ** Runs of the registry

    Every operation, in any order and with any arguments; the two phases of a
    cleanup are separate steps. *)
Section runs.
Context {V : Type} `{Json V}.

Inductive step : Registry → Registry → Prop :=
| step_register key token boundary created now r :
    step r (register_with_token key token boundary created now r).1
| step_cancel key r : step r (cancel key r).1
| step_push key json r : step r (push_event (V:=V) key json r).1
| step_finished key now r : step r (mark_finished key now r)
| step_error key error now r : step r (mark_error key error now r)
| step_remove keys r : step r (cleanup_remove keys r).
Definition reachable (r : Registry) : Prop := rtc step empty_registry r.

Fixpoint push_all (l : list str) (s : ActiveStream) : ActiveStream :=
  match l with
  | [] => s
  | ev :: rest => push_all rest (push_stream (V:=V) ev s)
  end.
End runs.

(** ** What a reader sees

    Deltas of one block that follow each other are one piece of text. *)
Inductive Block := Delta (id text : str) | Frame (json : str).

Section replay.
Context {V : Type} `{JsonLaws V} `{!JsonText V}.
Implicit Types (evs : list (Z * str)) (s : ActiveStream).

Definition view (ev : str) : option (str * str) :=
  v ← jparse (V:=V) ev;
  t ← str_field "type" v;
  if negb (bool_decide (t = bs "text-delta")) then None else
  id ← str_field "id" v;
  d ← str_field "delta" v;
  Some (id, d).

(** The blocks so far, last first. *)
Definition render_step (out : list Block) (ev : str) : list Block :=
  match view ev with
  | Some (id, d) =>
      match out with
      | Delta id' d' :: rest =>
          if bool_decide (id' = id) then Delta id (d' ++ d) :: rest else Delta id d :: out
      | _ => Delta id d :: out
      end
  | None => Frame ev :: out
  end.
Definition render (evs : list (Z * str)) : list Block := foldl render_step [] (snd <$> evs).

Lemma render_app evs1 evs2 : render (evs1 ++ evs2) = foldl render_step (render evs1) (snd <$> evs2).
Proof. unfold render. by rewrite fmap_app, foldl_app. Qed.

Lemma str_field_delta k d (p : V) :
  bs k ≠ bs "delta" → str_field k (jinsert (bs "delta") (jstring d) p) = str_field k p.
Proof. intros Hne. unfold str_field. by rewrite jget_insert_ne. Qed.

Lemma try_merge_view a b m :
  try_merge_text_delta (V:=V) a b = Some m →
  ∃ id d1 d2, view a = Some (id, d1) ∧ view b = Some (id, d2) ∧ view m = Some (id, d1 ++ d2).
Proof.
  unfold try_merge_text_delta, view. intros Hm.
  destruct (jparse a) as [p|]; [|done]. simpl in *.
  destruct (str_field "type" p) as [tp|] eqn:Htp; [|done]. simpl in *.
  destruct (negb _) eqn:Hdt; [done|].
  destruct (jparse b) as [n|]; [|done]. simpl in *.
  destruct (str_field "type" n) as [tn|]; [|done]. simpl in *.
  destruct (negb (bool_decide (tn = _))); [done|].
  destruct (str_field "id" p) as [ip|] eqn:Hip; [|done]. simpl in *.
  destruct (str_field "id" n) as [inn|]; [|done]. simpl in *.
  case_bool_decide; [|done]. subst inn. simpl in *.
  destruct (str_field "delta" p) as [dp|] eqn:Hdp; [|done]. simpl in *.
  destruct (str_field "delta" n) as [dn|]; [|done]. simpl in *. injection Hm as <-.
  exists ip, dp, dn. split_and!; [done|done|].
  rewrite jparse_jprint. simpl. rewrite (str_field_delta "type"), (str_field_delta "id") by done. rewrite Htp. simpl. rewrite Hdt, Hip. simpl.
  assert (jis_object p = true) as Ho.
  { unfold str_field in Htp. destruct (jget p _) eqn:Hg; [|done]. by eapply jget_object. }
  unfold str_field. rewrite jget_insert by done. simpl. by rewrite jas_str_jstring.
Qed.

Lemma render_merge out a b m :
  try_merge_text_delta (V:=V) a b = Some m → render_step (render_step out a) b = render_step out m.
Proof.
  intros (id & d1 & d2 & Ha & Hb & Hm)%try_merge_view. unfold render_step. rewrite Ha, Hb, Hm.
  destruct out as [|[id' d'|] rest]; simpl; repeat case_bool_decide; simplify_eq; rewrite ?app_assoc; done.
Qed.

Lemma compact_fold evs out :
  render (rev (foldl (compact_step (V:=V)) out evs)) = render (rev out ++ evs).
Proof.
  revert out. induction evs as [|ev evs IH]; intros out; cbn [foldl]; [by rewrite app_nil_r|].
  rewrite IH, !render_app. cbn [fmap list_fmap foldl]. f_equal.
  unfold compact_step. destruct out as [|last rest]; [done|].
  destruct (try_merge_text_delta last.2 ev.2) as [m|] eqn:Hm; cbn [rev]; rewrite !render_app; cbn [fmap list_fmap foldl].
  - by rewrite (render_merge _ _ _ _ Hm).
  - done.
Qed.

Lemma compact_render evs : render (compact_events (V:=V) evs) = render evs.
Proof. unfold compact_events. by rewrite compact_fold. Qed.

(** ** The invariant of a stream *)

Lemma sublist_sorted {A} (R : relation A) l1 l2 :
  l1 `sublist_of` l2 → StronglySorted R l2 → StronglySorted R l1.
Proof.
  induction 1 as [|x l1 l2 Hl IH|x l1 l2 Hl IH]; [constructor|..];
    intros [HS HR]%StronglySorted_inv; [|auto].
  constructor; [auto|]. eapply Forall_forall. intros y Hy. rewrite Forall_forall in HR.
  apply HR. by eapply elem_of_sublist.
Qed.

Lemma compact_fold_ids evs out :
  fst <$> rev (foldl (compact_step (V:=V)) out evs) `sublist_of` fst <$> (rev out ++ evs).
Proof.
  revert out. induction evs as [|ev evs IH]; intros out; cbn [foldl]; [by rewrite app_nil_r|].
  etrans; [apply IH|]. rewrite !fmap_app. cbn [fmap list_fmap].
  unfold compact_step. destruct out as [|last rest]; [done|].
  destruct (try_merge_text_delta last.2 ev.2) as [m|]; cbn [rev]; rewrite !fmap_app, <-!app_assoc; simpl.
  - apply sublist_app; [done|]. by apply sublist_cons.
  - done.
Qed.
Lemma compact_ids evs : fst <$> compact_events (V:=V) evs `sublist_of` fst <$> evs.
Proof. apply (compact_fold_ids evs []). Qed.

Record stream_ok s : Prop := mkStreamOk {
  ok_sent : fst <$> sent s = seqZ 0 (next_event_id s);
  ok_next : next_event_id s = Z.of_nat (length (sent s));
  ok_sorted : StronglySorted Z.lt (fst <$> events s);
  ok_ids : ∀ i, i ∈ fst <$> events s → (0 <= i < next_event_id s)%Z;
  ok_len : (Z.of_nat (length (events s)) <= MAX_BUFFER_SIZE)%Z;
  ok_render : truncated s = false → render (events s) = render (sent s);
  ok_finished : finished s = true ↔ is_Some (finished_at s);
}.

Lemma fresh_stream_ok token job boundary : stream_ok (fresh_stream token job boundary).
Proof.
  constructor; simpl; try done.
  - apply SSorted_nil.
  - intros i Hi. by apply elem_of_nil in Hi.
Qed.
Lemma finish_stream_ok now s : stream_ok s → stream_ok (finish_stream now s).
Proof. intros []. by constructor. Qed.

(** What a push makes of the buffer before it appends. *)
Lemma push_buffer_ok s evs trunc :
  stream_ok s →
  (evs = events s ∨ evs = compact_events (V:=V) (events s)) →
  (trunc = false → truncated s = false) →
  fst <$> evs `sublist_of` fst <$> events s ∧ (trunc = false → render evs = render (sent s)).
Proof.
  intros Hs He Ht. destruct He as [->| ->].
  - split; [done|]. intros. by apply ok_render; auto.
  - split; [apply compact_ids|]. intros. rewrite compact_render. apply ok_render; auto.
Qed.

Lemma push_stream_ok ev s : stream_ok s → stream_ok (push_stream (V:=V) ev s).
Proof.
  intros Hs. unfold push_stream.
  set (compacting := long _ _ && _). set (evs := if compacting then _ else _).
  set (trunc := if compacting && _ then _ else _).
  destruct (push_buffer_ok s evs trunc Hs) as [Hids Hr].
  { unfold evs. destruct compacting; auto. }
  { unfold trunc. destruct (compacting && _); done. }
  assert (trunc = false → long MAX_BUFFER_SIZE evs = false) as Hroom.
  { unfold trunc, evs, compacting, long, COMPACTION_TARGET, MAX_BUFFER_SIZE. intros Ht.
    destruct (truncated s); simpl in *; [by rewrite andb_false_r in Ht|].
    rewrite andb_true_r in *.
    destruct (Z.leb_spec 10000 (Z.of_nat (length (events s)))) as [Hfull|]; simpl in *;
      [|by apply Z.leb_gt].
    destruct (Z.leb_spec (10000 / 2) (Z.of_nat (length (compact_events (V:=V) (events s))))); [done|].
    apply Z.leb_gt. eapply Z.lt_le_trans; [eassumption|done]. }
  clearbody evs trunc. clear compacting.
  pose proof Hs as [Hsent Hnext Hsort Hin Hlen _ Hfin].
  assert (StronglySorted Z.lt (fst <$> evs)) as Hsort' by (by eapply sublist_sorted).
  assert (∀ i, i ∈ fst <$> evs → (0 <= i < next_event_id s)%Z) as Hin'
    by (intros i Hi; apply Hin; by eapply elem_of_sublist).
  assert (Z.of_nat (length evs) <= MAX_BUFFER_SIZE)%Z as Hlen'.
  { apply sublist_length in Hids. rewrite !length_fmap in Hids. lia. }
  constructor; cbn [events sent next_event_id truncated finished finished_at].
  - rewrite fmap_app, Hsent. simpl. rewrite Hnext.
    replace (Z.of_nat (length (sent s)) + 1)%Z with (Z.of_nat (S (length (sent s)))) by lia.
    by rewrite seqZ_S.
  - rewrite length_app. simpl. lia.
  - destruct (negb trunc && _); [|done]. rewrite fmap_app. apply StronglySorted_app_2; [|done|by repeat constructor].
    intros x y Hx Hy. simpl in Hy. apply list_elem_of_singleton in Hy as ->. by apply Hin'.
  - intros i Hi. destruct (negb trunc && _); [|apply Hin' in Hi; lia].
    rewrite fmap_app in Hi. apply elem_of_app in Hi as [Hi|Hi]; [apply Hin' in Hi; lia|].
    simpl in Hi. apply list_elem_of_singleton in Hi as ->. lia.
  - destruct (negb trunc && negb (long MAX_BUFFER_SIZE evs)) eqn:Hl; [|done].
    apply andb_prop in Hl as [_ Hl]. unfold long in Hl. rewrite length_app. simpl.
    destruct (Z.leb_spec MAX_BUFFER_SIZE (Z.of_nat (length evs))); [done|lia].
  - intros Ht. rewrite (Hroom Ht), Ht. cbn [negb andb]. by rewrite !render_app, (Hr Ht).
  - exact Hfin.
Qed.

(** ** Theorems *)

Record registry_ok (r : Registry) : Prop := mkRegistryOk {
  rg_size : size (streams r) ≤ MAX_ACTIVE_STREAMS;
  rg_streams : map_Forall (λ _ s, stream_ok s) (streams r);
}.

Lemma registry_ok_set key s r :
  registry_ok r → is_Some (streams r !! key) → stream_ok s → registry_ok (set_stream key s r).
Proof.
  intros [Hsz Hst] Hk Hs. constructor; simpl.
  - rewrite map_size_insert. destruct Hk as [? ->]. done.
  - by apply map_Forall_insert_2.
Qed.
Lemma registry_ok_job id st r : registry_ok r → registry_ok (set_job id st r).
Proof. by intros []. Qed.
Lemma registry_ok_token t r : registry_ok r → registry_ok (cancel_stream_token t r).
Proof. by intros []. Qed.
Lemma registry_ok_sub m r :
  m ⊆ streams r → registry_ok r → registry_ok (mkRegistry m (cancelled r) (jobs r)).
Proof.
  intros Hm [Hsz Hst]. constructor; simpl.
  - etrans; [by apply map_subseteq_size|done].
  - intros k s Hk. apply (Hst k). by eapply lookup_weaken.
Qed.

Lemma set_finished_ok key now r : registry_ok r → registry_ok (set_finished_state key now r).1.
Proof.
  intros Hr. unfold set_finished_state. destruct (streams r !! key) as [s|] eqn:Hk; [|done].
  apply registry_ok_set; [done|by eexists|]. apply finish_stream_ok. by apply (rg_streams r Hr key).
Qed.

Lemma register_ok key token boundary created now r :
  registry_ok r → registry_ok (register_with_token key token boundary created now r).1.
Proof.
  intros Hr. unfold register_with_token. destruct created as [job|]; [|done].
  apply (registry_ok_job job Running) in Hr. revert Hr. generalize (set_job job Running r). clear r.
  intros r Hr.
  set (kept := if MAX_ACTIVE_STREAMS <=? size (streams r) then filter _ (streams r) else streams r).
  assert (registry_ok (mkRegistry kept (cancelled r) (jobs r))) as Hk.
  { apply registry_ok_sub; [|done]. unfold kept. case_match; [apply map_filter_subseteq|done]. }
  clearbody kept. destruct (Nat.leb_spec MAX_ACTIVE_STREAMS (size kept)); [done|]. cbn [fst].
  destruct (kept !! key) as [old|] eqn:Hold.
  - apply registry_ok_set; [|simpl; rewrite lookup_insert_eq; by eexists|apply fresh_stream_ok].
    apply registry_ok_job, registry_ok_set; [by apply registry_ok_token|by eexists|].
    apply finish_stream_ok. by apply (rg_streams _ Hk key).
  - destruct Hk as [Hsz Hst]. constructor; simpl in *.
    + rewrite map_size_insert, Hold. lia.
    + apply map_Forall_insert_2; [apply fresh_stream_ok|done].
Qed.

Lemma step_ok r r' : step (V:=V) r r' → registry_ok r → registry_ok r'.
Proof.
  intros Hs Hr. destruct Hs.
  - by apply register_ok.
  - unfold cancel. case_match; [by apply registry_ok_token|done].
  - unfold push_event. destruct (streams r !! key) as [s|] eqn:Hk; [|done].
    apply registry_ok_set; [done|by eexists|]. apply push_stream_ok. by apply (rg_streams r Hr key).
  - unfold mark_finished. pose proof (set_finished_ok key now r Hr).
    by destruct (set_finished_state key now r) as [? [?|]]; [apply registry_ok_job|].
  - unfold mark_error. pose proof (set_finished_ok key now r Hr).
    by destruct (set_finished_state key now r) as [? [?|]]; [apply registry_ok_job|].
  - apply registry_ok_sub; [|done]. induction keys as [|k keys IH]; simpl; [done|].
    etrans; [apply delete_subseteq|done].
Qed.

Lemma reachable_ok r : reachable (V:=V) r → registry_ok r.
Proof.
  intros Hr. refine (rtc_ind_r (R:=step (V:=V)) registry_ok empty_registry _ _ r Hr); [|intros; by eapply step_ok].
  constructor; simpl; [rewrite map_size_empty; unfold MAX_ACTIVE_STREAMS; lia|apply map_Forall_empty].
Qed.

(** In every reachable registry there are at most 50 streams; the ids of
    a stream's events are the numbers from 0 in the order they were pushed;
    its buffer holds at most 10000 events with increasing ids; and unless it
    was marked truncated, the buffer shows a reader exactly the blocks that
    were pushed, deltas of one block being one text. *)
Theorem registry_invariant r key s :
  reachable (V:=V) r → streams r !! key = Some s →
  snapshot_size r ≤ MAX_ACTIVE_STREAMS ∧
  fst <$> sent s = seqZ 0 (next_event_id s) ∧
  StronglySorted Z.lt (fst <$> events s) ∧
  (Z.of_nat (length (events s)) <= MAX_BUFFER_SIZE)%Z ∧
  (truncated s = false → render (events s) = render (sent s)).
Proof.
  intros [Hsz Hst]%reachable_ok Hk. destruct (Hst key s Hk). by split_and!.
Qed.

Lemma push_all_sent l s :
  stream_ok s → stream_ok (push_all (V:=V) l s) ∧ ∃ new, sent (push_all (V:=V) l s) = sent s ++ new.
Proof.
  revert s. induction l as [|ev l IH]; intros s Hs; simpl; [split; [done|]; exists []; by rewrite app_nil_r|].
  destruct (IH _ (push_stream_ok ev s Hs)) as [Hok [new Hn]]. split; [done|].
  exists ([(next_event_id s, ev)] ++ new). rewrite Hn. simpl. by rewrite <-app_assoc.
Qed.

(** A reader that subscribes at any moment misses nothing and sees nothing
    twice: unless the buffer was truncated, the snapshot followed by what the
    receiver delivers afterwards shows the same blocks as all the pushes of
    the stream, and every id of the snapshot is smaller than every id that
    is delivered. *)
Theorem replay_complete r key s l :
  reachable (V:=V) r → streams r !! key = Some s → truncated s = false →
  let sub := subscribe_stream s in
  let s' := push_all (V:=V) l s in
  render (sub_events sub ++ drop (sub_rx sub) (sent s')) = render (sent s') ∧
  ∀ i j, i ∈ fst <$> sub_events sub → j ∈ fst <$> drop (sub_rx sub) (sent s') → (i < j)%Z.
Proof.
  intros [_ Hst]%reachable_ok Hk Ht sub s'. pose proof (Hst key s Hk) as Hs. simpl in Hs.
  destruct (push_all_sent l s Hs) as [Hs' [new Hnew]]. unfold sub, subscribe_stream. cbn [sub_events sub_rx].
  fold s' in Hs', Hnew. rewrite Hnew, drop_app_length. split.
  - rewrite !render_app. by rewrite (ok_render s Hs Ht).
  - intros i j Hi Hj. apply (ok_ids s Hs) in Hi.
    pose proof (ok_sent s' Hs') as Hids. rewrite Hnew, fmap_app, (ok_sent s Hs) in Hids.
    apply list_elem_of_lookup in Hj as [k Hj].
    assert (((fst <$> sent s) ++ (fst <$> new)) !! (length (sent s) + k) = Some j) as Hl.
    { rewrite lookup_app_r by (rewrite length_fmap; lia). by rewrite length_fmap, Nat.add_sub_swap, Nat.sub_diag by lia. }
    rewrite (ok_sent s Hs), Hids in Hl. apply lookup_seqZ in Hl as [-> _].
    pose proof (ok_next s Hs). lia.
Qed.
End replay.

(** A superseded turn ends the stream that replaced it: the registry is
    keyed by the session, so when the cancelled turn marks its stream as
    finished, the running stream of the new turn is marked instead and its
    job row is closed, although nothing cancelled it. *)
Theorem superseded_turn_ends_new_stream r key old token boundary job now now' r' :
  streams r !! key = Some old → token ∉ cancelled r → cancel_token old ≠ token →
  register_with_token key token boundary (Some job) now r = (r', Some job) →
  (streams r' !! key = Some (fresh_stream token job boundary)) ∧
  let r'' := mark_finished key now' r' in
  (finished <$> streams r'' !! key) = Some true ∧ jobs r'' !! job = Some JobFinished ∧
  token ∉ cancelled r''.
Proof.
  intros Hold Ht Hne Hreg. unfold register_with_token in Hreg.
  set (kept := if MAX_ACTIVE_STREAMS <=? size (streams (set_job job Running r))
    then filter _ (streams (set_job job Running r)) else streams (set_job job Running r)) in Hreg.
  destruct (MAX_ACTIVE_STREAMS <=? size kept); [done|]. injection Hreg as <-.
  assert (token ∉ cancelled (match kept !! key with
    | Some existing => set_job (job_id existing) (JobError (bs "superseded by new stream"))
        (set_stream key (finish_stream now existing)
           (cancel_stream_token (cancel_token existing) (mkRegistry kept (cancelled r) (jobs (set_job job Running r)))))
    | None => mkRegistry kept (cancelled r) (jobs (set_job job Running r)) end)) as Htok.
  { destruct (kept !! key) as [e|] eqn:He; [|done]. simpl.
    assert (e = old) as ->.
    { unfold kept in He. cbn [set_job streams] in He. revert He. case_match; [|congruence].
      intros [? _]%map_lookup_filter_Some. congruence. }
    set_solver. }
  split; [simpl; by rewrite lookup_insert_eq|].
  unfold mark_finished, set_finished_state. cbn [streams set_stream]. rewrite lookup_insert_eq.
  cbn [set_job streams set_stream jobs fmap option_fmap option_map cancelled].
  rewrite !lookup_insert_eq. by split_and!.
Qed.

(** A cleanup that meets a new turn removes its live stream: the keys are
    collected under the read lock and removed later under the write lock, so
    a stream registered in between under an expired key is dropped, and the
    events of the running turn are lost from then on. *)
Theorem cleanup_removes_live_stream r key old now max_age token boundary job later r' keys :
  streams r !! key = Some old → expired now max_age old = true →
  keys = cleanup_scan now max_age r →
  register_with_token key token boundary (Some job) later r = (r', Some job) →
  (finished <$> streams r' !! key) = Some false ∧
  let r'' := cleanup_remove keys r' in
  streams r'' !! key = None ∧
  ∀ (V : Type) (HV : Json V) json, push_event (V:=V) key json r'' = (r'', 0%Z).
Proof.
  intros Hold Hex Hkeys Hreg.
  assert (streams r' !! key = Some (fresh_stream token job boundary)) as Hnew.
  { unfold register_with_token in Hreg. set (kept := if MAX_ACTIVE_STREAMS <=? size (streams (set_job job Running r))
    then filter _ (streams (set_job job Running r)) else streams (set_job job Running r)) in Hreg.
    destruct (MAX_ACTIVE_STREAMS <=? size kept); [done|]. injection Hreg as <-.
    simpl. by rewrite lookup_insert_eq. }
  split; [by rewrite Hnew|]. intros r''.
  assert (streams r'' !! key = None) as Hgone.
  { assert (key ∈ keys) as Hin.
    { rewrite Hkeys. apply list_elem_of_fmap. exists (key, old). split; [done|].
      apply list_elem_of_In, List.filter_In. split; [|done].
      apply list_elem_of_In. by apply elem_of_map_to_list. }
    unfold r''. simpl. clear -Hin. induction keys as [|k keys IH]; [by apply elem_of_nil in Hin|].
    simpl. destruct (decide (k = key)) as [->|]; [apply lookup_delete_eq|].
    rewrite lookup_delete_ne by done. apply elem_of_cons in Hin as [?|?]; [congruence|auto]. }
  split; [done|]. intros. unfold push_event. by rewrite Hgone.
Qed.

(** At capacity a turn cannot even replace its own stream: with 50 running
    streams a registration is refused before the session's own entry is
    looked at, and the job row that was just created stays [Running]. *)
Theorem capacity_refuses_replacement r key old token boundary job now :
  size (streams r) = MAX_ACTIVE_STREAMS → map_Forall (λ _ s, finished s = false) (streams r) →
  streams r !! key = Some old →
  register_with_token key token boundary (Some job) now r =
    (mkRegistry (streams r) (cancelled r) (<[job := Running]> (jobs r)), None).
Proof.
  intros Hsz Hall Hold. unfold register_with_token. cbn [set_job streams].
  rewrite Hsz. cbn [Nat.leb MAX_ACTIVE_STREAMS].
  assert (filter (λ p : str * ActiveStream, finished p.2 = false) (streams r) = streams r) as Hf.
  { apply map_filter_id. intros k s Hk. by apply (Hall k). }
  change (50 <=? 50) with true. cbn iota. rewrite Hf, Hsz. done.
Qed.

(** *** Witnesses *)

#[local] Existing Instance JvText.json.
#[local] Existing Instance JvText.laws.
#[local] Existing Instance JvText.text.

Definition delta (id text : string) : str :=
  jprint (Jv.Obj [(bs "type", Jv.Str (bs "text-delta")); (bs "id", Jv.Str (bs id));
                  (bs "delta", Jv.Str (bs text))]).

(** Two deltas of a block merge, a third of another block does not. *)
Example compact_ex :
  render (V:=Jv.t) (compact_events (V:=Jv.t) [(0%Z, delta "a" "x"); (1%Z, delta "a" "y"); (2%Z, delta "b" "z")]) =
    [Delta (bs "b") (bs "z"); Delta (bs "a") (bs "xy")] ∧
  fst <$> compact_events (V:=Jv.t) [(0%Z, delta "a" "x"); (1%Z, delta "a" "y"); (2%Z, delta "b" "z")] = [1; 2]%Z.
Proof. vm_compute. split; reflexivity. Qed.

Definition toy_registry : Registry :=
  (push_event (V:=Jv.t) (bs "s") (delta "a" "x")
     (register_with_token (bs "s") 1 5%Z (Some 10%Z) 0%Z empty_registry).1).1.
Definition toy_stream : ActiveStream :=
  push_stream (V:=Jv.t) (delta "a" "x") (fresh_stream 1 10%Z 5%Z).

Lemma toy_registry_reachable : reachable (V:=Jv.t) toy_registry.
Proof.
  eapply rtc_r; [|apply (step_push (V:=Jv.t) (bs "s") (delta "a" "x"))].
  apply rtc_once. apply (step_register (bs "s") 1 5%Z (Some 10%Z) 0%Z).
Qed.

Lemma registry_witness :
  snapshot_size toy_registry ≤ MAX_ACTIVE_STREAMS ∧
  render (V:=Jv.t) (events toy_stream) = render (V:=Jv.t) (sent toy_stream).
Proof.
  assert (streams toy_registry !! bs "s" = Some toy_stream) as Hk by reflexivity.
  destruct (registry_invariant (V:=Jv.t) toy_registry (bs "s") toy_stream toy_registry_reachable Hk)
    as (Hn & _ & _ & _ & Hr).
  split; [exact Hn|exact (Hr eq_refl)].
Defined.

Lemma replay_witness :
  let sub := subscribe_stream toy_stream in
  let s' := push_all (V:=Jv.t) [delta "a" "y"] toy_stream in
  render (V:=Jv.t) (sub_events sub ++ drop (sub_rx sub) (sent s')) = render (V:=Jv.t) (sent s').
Proof.
  assert (streams toy_registry !! bs "s" = Some toy_stream) as Hk by reflexivity.
  exact (proj1 (replay_complete (V:=Jv.t) toy_registry (bs "s") toy_stream [delta "a" "y"]
    toy_registry_reachable Hk eq_refl)).
Defined.

Definition superseding : Registry :=
  (register_with_token (bs "s") 2 6%Z (Some 11%Z) 7%Z toy_registry).1.

Lemma superseded_witness :
  jobs (mark_finished (bs "s") 9%Z superseding) !! 11%Z = Some JobFinished ∧
  2 ∉ cancelled (mark_finished (bs "s") 9%Z superseding).
Proof.
  assert (streams toy_registry !! bs "s" = Some toy_stream) as H1 by reflexivity.
  assert (2 ∉ cancelled toy_registry) as H2 by (apply (bool_decide_unpack _); vm_compute; exact I).
  assert (cancel_token toy_stream ≠ 2) as H3 by done.
  assert (register_with_token (bs "s") 2 6%Z (Some 11%Z) 7%Z toy_registry = (superseding, Some 11%Z)) as H4
    by reflexivity.
  destruct (superseded_turn_ends_new_stream toy_registry (bs "s") toy_stream 2 6%Z 11%Z 7%Z 9%Z superseding
    H1 H2 H3 H4) as (_ & _ & Hj & Ht).
  split; [exact Hj|exact Ht].
Defined.

Definition done_registry : Registry := mark_finished (bs "s") 1%Z toy_registry.

Lemma cleanup_race_witness :
  streams (cleanup_remove (cleanup_scan 200000%Z 120000%Z done_registry)
    (register_with_token (bs "s") 2 6%Z (Some 11%Z) 200000%Z done_registry).1) !! bs "s" = None.
Proof.
  assert (streams done_registry !! bs "s" = Some (finish_stream 1%Z toy_stream)) as H1 by reflexivity.
  assert (expired 200000%Z 120000%Z (finish_stream 1%Z toy_stream) = true) as H2 by reflexivity.
  assert (register_with_token (bs "s") 2 6%Z (Some 11%Z) 200000%Z done_registry =
    ((register_with_token (bs "s") 2 6%Z (Some 11%Z) 200000%Z done_registry).1, Some 11%Z)) as H4 by reflexivity.
  exact (proj1 (proj2 (cleanup_removes_live_stream done_registry (bs "s") _ 200000%Z 120000%Z 2 6%Z 11%Z
    200000%Z _ _ H1 H2 eq_refl H4))).
Defined.

(** Fifty running streams. *)
Definition full_registry : Registry :=
  foldr (λ i r, (register_with_token (dec i) i 5%Z (Some (Z.of_nat i)) 0%Z r).1) empty_registry (seq 0 50).

Lemma capacity_witness :
  (register_with_token (dec 3) 99 5%Z (Some 99%Z) 0%Z full_registry).2 = None.
Proof.
  assert (size (streams full_registry) = MAX_ACTIVE_STREAMS) as H1 by (vm_compute; reflexivity).
  assert (map_Forall (λ _ s, finished s = false) (streams full_registry)) as H2
    by (apply (bool_decide_unpack _); vm_compute; exact I).
  assert (∃ old, streams full_registry !! dec 3 = Some old) as [old H3] by (eexists; vm_compute; reflexivity).
  exact (f_equal snd (capacity_refuses_replacement full_registry (dec 3) old 99 5%Z 99%Z 0%Z H1 H2 H3)).
Defined.
