(* ===== verification/Patch.v ===== *)
(** * V4A patches

    The parser of the patch envelope and the application of its hunks to a
    text, as in [agent/v4a_patch.rs].  A text is its lines between line
    feeds; the loops over lines are folds in the error monad, with the
    section under construction as their state. *)
From S2P Require Import Prelude.

Definition BEGIN : str := bs "*** Begin Patch".
Definition END_ : str := bs "*** End Patch".
Definition UPDATE : str := bs "*** Update File:".
Definition ADD : str := bs "*** Add File:".

(* @src opex-core/src/agent/v4a_patch.rs 42-45 Hunk *)
Record Hunk := mkHunk { old_lines : list str; new_lines : list str }.

(* @src opex-core/src/agent/v4a_patch.rs 33-36 FileOp *)
Inductive FileOp :=
| Update (path : str) (hunks : list Hunk)
| Add (path content : str).

#[export] Instance hunk_eq_dec : EqDecision Hunk.
Proof. solve_decision. Defined.
#[export] Instance file_op_eq_dec : EqDecision FileOp.
Proof. solve_decision. Defined.

(** The file section being accumulated. *)
(* @src opex-core/src/agent/v4a_patch.rs 70-74 Section *)
Inductive FileSection :=
| SNone
| SUpdate (path : str) (hunks : list Hunk) (cur : Hunk)
| SAdd (path : str) (ls : list str).

Definition no_hunk : Hunk := mkHunk [] [].

(** The hunks with the current one, which is emptied. *)
(* @src opex-core/src/agent/v4a_patch.rs 78-88 flush_hunk *)
Definition flush_hunk (hunks : list Hunk) (cur : Hunk) : result str (list Hunk) :=
  if bool_decide (old_lines cur = []) && bool_decide (new_lines cur = []) then Ok hunks else
  if bool_decide (old_lines cur = new_lines cur) then Err (bs "hunk has no additions or removals") else
  Ok (hunks ++ [cur]).

(* @src opex-core/src/agent/v4a_patch.rs 90-105 close_section *)
Definition close_section (ops : list FileOp) (section : FileSection) : result str (list FileOp) :=
  match section with
  | SNone => Ok ops
  | SUpdate path hunks cur =>
      hunks ← flush_hunk hunks cur;
      if bool_decide (hunks = []) then Err (bs "'" ++ UPDATE ++ bs " " ++ path ++ bs "' has no hunks") else
      Ok (ops ++ [Update path hunks])
  | SAdd path ls => Ok (ops ++ [Add path (join [LF] ls)])
  end.

(** One line of a hunk: context, removed or added. *)
(* @src opex-core/src/agent/v4a_patch.rs 166-182 push_hunk_line *)
Definition push_hunk_line (cur : Hunk) (line : str) : result str Hunk :=
  match strip_prefix (bs "+") line with
  | Some c => Ok (mkHunk (old_lines cur) (new_lines cur ++ [c]))
  | None =>
  match strip_prefix (bs "-") line with
  | Some c => Ok (mkHunk (old_lines cur ++ [c]) (new_lines cur))
  | None =>
  match strip_prefix (bs " ") line with
  | Some c => Ok (mkHunk (old_lines cur ++ [c]) (new_lines cur ++ [c]))
  | None =>
      if bool_decide (line = []) then Ok (mkHunk (old_lines cur ++ [[]]) (new_lines cur ++ [[]]))
      else Err (bs "hunk line must start with ' ', '+' or '-': " ++ line)
  end end end.

(** A line that is no marker, by the section it stands in. *)
(* @src opex-core/src/agent/v4a_patch.rs 127-149 parse_patch *)
Definition section_line (section : FileSection) (line : str) : result str FileSection :=
  match section with
  | SNone =>
      if bool_decide (trim line = []) then Ok SNone
      else Err (bs "content outside a file section: " ++ line)
  | SUpdate path hunks cur =>
      if starts_with (bs "@@") line then
        hunks ← flush_hunk hunks cur; Ok (SUpdate path hunks no_hunk)
      else
        cur ← push_hunk_line cur line; Ok (SUpdate path hunks cur)
  | SAdd path ls =>
      match strip_prefix (bs "+") line with
      | Some content => Ok (SAdd path (ls ++ [content]))
      | None =>
          if bool_decide (line = []) then Ok (SAdd path (ls ++ [[]]))
          else Err (bs "Add File line must start with '+': " ++ line)
      end
  end.

(** The path of a section marker. *)
(* @src opex-core/src/agent/v4a_patch.rs 110-122 parse_patch *)
Definition marker_path (marker rest : str) : result str str :=
  let path := trim rest in
  if bool_decide (path = []) then Err (bs "'" ++ marker ++ bs "' with empty path") else Ok path.

(** One turn of the loop over the lines of the envelope. *)
(* @src opex-core/src/agent/v4a_patch.rs 107-151 parse_patch *)
Definition patch_line (st : list FileOp * FileSection) (line : str) : result str (list FileOp * FileSection) :=
  let '(ops, section) := st in
  match strip_prefix UPDATE line with
  | Some rest =>
      ops ← close_section ops section;
      path ← marker_path UPDATE rest;
      Ok (ops, SUpdate path [] no_hunk)
  | None =>
  match strip_prefix ADD line with
  | Some rest =>
      ops ← close_section ops section;
      path ← marker_path ADD rest;
      Ok (ops, SAdd path [])
  | None =>
      if starts_with (bs "***") (trim_end line) then Err (bs "unknown marker: " ++ trim_end line) else
      section ← section_line section line;
      Ok (ops, section)
  end end.

(* @src opex-core/src/agent/v4a_patch.rs 107-151 parse_patch *)
Fixpoint patch_lines (st : list FileOp * FileSection) (ls : list str) : result str (list FileOp * FileSection) :=
  match ls with
  | [] => Ok st
  | line :: ls' => st ← patch_line st line; patch_lines st ls'
  end.

(* @src opex-core/src/agent/v4a_patch.rs 52-158 parse_patch *)
Definition parse_patch (patch : str) : result str (list FileOp) :=
  let ls := split_on LF patch in
  begin ← ok_or (bs "missing '" ++ BEGIN ++ bs "'")
            (position (λ l, bool_decide (trim_end l = BEGIN)) ls);
  end_ ← ok_or (bs "missing '" ++ END_ ++ bs "'")
           (rposition (λ l, bool_decide (trim_end l = END_)) ls);
  if end_ <=? begin then Err (bs "'" ++ END_ ++ bs "' must come after '" ++ BEGIN ++ bs "'") else
  st ← patch_lines ([], SNone) (take (end_ - S begin) (drop (S begin) ls));
  ops ← close_section st.1 st.2;
  if bool_decide (ops = []) then Err (bs "patch contains no file operations") else Ok ops.

(** Two lines match, up to trailing white space in the tolerant pass. *)
(* @src opex-core/src/agent/v4a_patch.rs 220-222 find_run *)
Definition line_matches (tolerant : bool) (n h : str) : bool :=
  if tolerant then bool_decide (trim_end n = trim_end h) else bool_decide (n = h).
(* @src opex-core/src/agent/v4a_patch.rs 220-222 find_run *)
Definition run_at (tolerant : bool) (haystack needle : list str) (i : nat) : bool :=
  forallb (λ '(n, h), line_matches tolerant n h)
    (zip needle (take (length needle) (drop i haystack))).

(** The positions [from..=last] in order, first in the exact pass, then in
    the tolerant one. *)
(* @src opex-core/src/agent/v4a_patch.rs 210-229 find_run *)
Definition find_run (haystack needle : list str) (from : nat) : option nat :=
  if bool_decide (needle = []) || (length haystack <? length needle) then None else
  let last := length haystack - length needle in
  let positions := seq from (S last - from) in
  match List.find (run_at false haystack needle) positions with
  | Some i => Some i
  | None => List.find (run_at true haystack needle) positions
  end.

(* @src opex-core/src/agent/v4a_patch.rs 191-206 apply_hunks *)
Fixpoint apply_loop (idx : nat) (ls : list str) (search_from : nat) (hunks : list Hunk)
    : result str (list str) :=
  match hunks with
  | [] => Ok ls
  | hunk :: rest =>
      if bool_decide (old_lines hunk = []) then
        Err (bs "hunk " ++ dec (idx + 1) ++ bs " has no context to locate (need ' ' or '-' lines)") else
      at_ ← ok_or (bs "hunk " ++ dec (idx + 1) ++ bs ": context not found in file")
              (find_run ls (old_lines hunk) search_from);
      let end_ := at_ + length (old_lines hunk) in
      apply_loop (S idx) (take at_ ls ++ new_lines hunk ++ drop end_ ls)
        (at_ + length (new_lines hunk)) rest
  end.

(* @src opex-core/src/agent/v4a_patch.rs 191-206 apply_hunks *)
Definition apply_hunks (original : str) (hunks : list Hunk) : result str str :=
  ls ← apply_loop 0 (split_on LF original) 0 hunks;
  Ok (join [LF] ls).

(** ** Applying hunks *)

(** [patched ls hunks ls']: the blocks of [hunks] stand in [ls] in this order
    and apart from each other, up to white space at the ends of the lines;
    [ls'] has the new block in the place of each and every other line as it
    was. *)
Inductive patched : list str → list Hunk → list str → Prop :=
| patched_done ls : patched ls [] ls
| patched_hunk gap block hunk rest hunks rest' :
    old_lines hunk ≠ [] →
    Forall2 (λ n h, trim_end n = trim_end h) (old_lines hunk) block →
    patched rest hunks rest' →
    patched (gap ++ block ++ rest) (hunk :: hunks) (gap ++ new_lines hunk ++ rest').

(** [in_order ls hunks]: the same blocks, to the letter. *)
Inductive in_order : list str → list Hunk → Prop :=
| in_order_done ls : in_order ls []
| in_order_hunk gap hunk rest hunks :
    old_lines hunk ≠ [] → in_order rest hunks →
    in_order (gap ++ old_lines hunk ++ rest) (hunk :: hunks).

Lemma in_order_pad pre ls hunks : in_order ls hunks → in_order (pre ++ ls) hunks.
Proof. destruct 1; [constructor|]. rewrite app_assoc. by constructor. Qed.

Lemma line_matches_trim b n h : line_matches b n h = true → trim_end n = trim_end h.
Proof. destruct b; simpl; intros; bool_hyps; by subst. Qed.

Lemma run_at_Forall2 b haystack needle i :
  i + length needle ≤ length haystack →
  run_at b haystack needle i = true ↔
  Forall2 (λ n h, line_matches b n h = true) needle (take (length needle) (drop i haystack)).
Proof.
  intros Hi. unfold run_at.
  assert (length (take (length needle) (drop i haystack)) = length needle) as Hl
    by (rewrite length_take, length_drop; lia).
  revert Hl. generalize (take (length needle) (drop i haystack)). clear Hi.
  induction needle as [|n needle IH]; intros [|h l] Hl; simplify_eq/=; [by split|].
  rewrite andb_true_iff, Forall2_cons, IH by done. done.
Qed.

Lemma find_seq f from n i :
  List.find f (seq from n) = Some i → from ≤ i < from + n ∧ f i = true ∧ ∀ j, from ≤ j < i → f j = false.
Proof.
  revert from. induction n as [|n IH]; intros from; simpl; [done|].
  destruct (f from) eqn:Hf.
  - intros [= <-]. split_and!; [lia|lia|done|intros j ?; lia].
  - intros (? & ? & Hmin)%IH. split_and!; [lia|lia|done|]. intros j Hj.
    destruct (decide (j = from)) as [->|]; [done|]. apply Hmin. lia.
Qed.

Lemma find_seq_None f from n j : List.find f (seq from n) = None → from ≤ j < from + n → f j = false.
Proof. intros Hf Hj. apply (List.find_none _ _ Hf). apply in_seq. lia. Qed.

(** [find_run] answers with a match at or after [from]. *)
Lemma find_run_Some haystack needle from i :
  find_run haystack needle from = Some i →
  from ≤ i ∧ i + length needle ≤ length haystack ∧ needle ≠ [] ∧
  Forall2 (λ n h, trim_end n = trim_end h) needle (take (length needle) (drop i haystack)).
Proof.
  unfold find_run. case_if; [done|]. bool_hyps. intros Hf.
  assert (∃ b, List.find (run_at b haystack needle)
    (seq from (S (length haystack - length needle) - from)) = Some i) as [b Hb]
    by (destruct (List.find (run_at false haystack needle) _) eqn:?; simplify_eq; eauto).
  destruct (find_seq _ _ _ _ Hb) as (? & Hr & _). split_and!; [lia|lia|done|].
  apply run_at_Forall2 in Hr; [|lia]. eapply Forall2_impl; [exact Hr|]. apply line_matches_trim.
Qed.

(** An exact match is found, and no later than where it is. *)
Lemma find_run_exact gap needle rest from :
  needle ≠ [] → from ≤ length gap →
  ∃ i, find_run (gap ++ needle ++ rest) needle from = Some i ∧ from ≤ i ≤ length gap ∧
    take (length needle) (drop i (gap ++ needle ++ rest)) = needle.
Proof.
  intros Hne Hf. unfold find_run. rewrite bool_decide_eq_false_2 by done. cbn [orb].
  rewrite (proj2 (Nat.ltb_ge _ _)) by (rewrite !length_app; lia).
  set (hs := gap ++ needle ++ rest).
  assert (length hs = length gap + (length needle + length rest)) as Hl by (unfold hs; by rewrite !length_app).
  assert (run_at false hs needle (length gap) = true) as Hgap.
  { apply run_at_Forall2; [lia|]. unfold hs. rewrite drop_app_length, take_app_length.
    apply Forall2_same_length_lookup_2; [done|]. intros k x y ? ?. simplify_eq. by apply bool_decide_eq_true. }
  destruct (List.find (run_at false hs needle) _) as [i|] eqn:Hi.
  - exists i. destruct (find_seq _ _ _ _ Hi) as (? & Hr & Hmin). split; [done|].
    assert (i ≤ length gap) as Hle.
    { destruct (decide (i ≤ length gap)); [done|].
      rewrite Hmin in Hgap by lia. done. }
    split; [lia|]. apply run_at_Forall2 in Hr; [|lia].
    symmetry. apply list_eq_Forall2. eapply Forall2_impl; [exact Hr|].
    intros n h Hb. by apply bool_decide_eq_true in Hb.
  - rewrite (find_seq_None _ _ _ (length gap) Hi) in Hgap by lia. done.
Qed.

(** One turn of the loop, at a position of the part not yet searched. *)
Lemma splice_eq (pre suf new : list str) i n :
  take (length pre + i) (pre ++ suf) ++ new ++ drop (length pre + i + n) (pre ++ suf) =
  (pre ++ take i suf ++ new) ++ drop (i + n) suf.
Proof.
  rewrite take_app_add, <- Nat.add_assoc, drop_app_add. by rewrite <- !app_assoc.
Qed.

Lemma block_eq {A} (suf : list A) i n : suf = take i suf ++ take n (drop i suf) ++ drop (i + n) suf.
Proof. rewrite <- (drop_drop suf n i), !take_drop. done. Qed.

Lemma apply_loop_sound hunks idx pre suf r :
  apply_loop idx (pre ++ suf) (length pre) hunks = Ok r →
  ∃ suf', r = pre ++ suf' ∧ patched suf hunks suf'.
Proof.
  revert idx pre suf. induction hunks as [|hunk hunks IH]; intros idx pre suf; simpl.
  { intros [= <-]. exists suf. split; [done|constructor]. }
  case_if; [done|]. bool_hyps.
  destruct (find_run _ _ _) as [at_|] eqn:Hf; [|done]. cbn [mbind ok_or result_bind].
  destruct (find_run_Some _ _ _ _ Hf) as (Hge & Hle & _ & Hm).
  destruct (Nat.le_exists_sub _ _ Hge) as (i & -> & _). rewrite (Nat.add_comm i) in *.
  rewrite length_app in Hle. rewrite drop_app_add in Hm. rewrite splice_eq.
  intros Hr. replace (length pre + i + length (new_lines hunk))
    with (length (pre ++ take i suf ++ new_lines hunk)) in Hr
    by (rewrite !length_app, length_take; lia).
  destruct (IH _ _ _ Hr) as (suf' & -> & Hp).
  exists (take i suf ++ new_lines hunk ++ suf'). split; [by rewrite <- !app_assoc|].
  rewrite (block_eq suf i (length (old_lines hunk))) at 1. by constructor.
Qed.

Lemma apply_loop_complete hunks idx pre suf :
  in_order suf hunks → ∃ r, apply_loop idx (pre ++ suf) (length pre) hunks = Ok r.
Proof.
  revert idx pre suf. induction hunks as [|hunk hunks IH]; intros idx pre suf Hin; simpl; [eauto|].
  inversion Hin as [|gap ? rest ? Hne Hrest]; subst.
  rewrite bool_decide_eq_false_2 by done.
  destruct (find_run_exact (pre ++ gap) (old_lines hunk) rest (length pre)) as (at_ & Hf & [Hge Hle] & _);
    [done|rewrite length_app; lia|].
  rewrite <- app_assoc in Hf. rewrite Hf. cbn [mbind ok_or result_bind].
  destruct (Nat.le_exists_sub _ _ Hge) as (i & -> & _). rewrite (Nat.add_comm i) in *.
  rewrite length_app in Hle. rewrite splice_eq.
  replace (length pre + i + length (new_lines hunk))
    with (length (pre ++ take i (gap ++ old_lines hunk ++ rest) ++ new_lines hunk))
    by (rewrite !length_app, length_take, !length_app; lia).
  apply IH. rewrite app_assoc, drop_app_le by (rewrite length_app; lia).
  by apply in_order_pad.
Qed.

(** C29: When [apply_hunks] answers, every hunk's old block was found in the
    file after the one before it, up to white space at the ends of lines,
    and was replaced by its new block, with all other lines unchanged; and
    whenever the old blocks stand in the file, to the letter and in this
    order, it does answer. *)
(* @prop functional defs=apply_hunks,find_run,Hunk witness=apply_hunks_witness *)
Theorem apply_hunks_spec original hunks :
  (∀ r, apply_hunks original hunks = Ok r →
     ∃ ls, r = join [LF] ls ∧ patched (split_on LF original) hunks ls) ∧
  (in_order (split_on LF original) hunks → ∃ r, apply_hunks original hunks = Ok r).
Proof.
  unfold apply_hunks. split.
  - intros r Hr. destruct (apply_loop _ _ _ _) as [ls|] eqn:Hl; simplify_eq/=.
    destruct (apply_loop_sound hunks 0 [] _ _ Hl) as (ls' & -> & ?). eauto.
  - intros Hin. destruct (apply_loop_complete hunks 0 [] _ Hin) as [r Hr]. simpl in Hr.
    rewrite Hr. simpl. eauto.
Qed.

(** ** Writing a patch

    The envelope of a list of operations: the removed lines of a hunk before
    its added ones, each hunk after an anchor. *)
Definition print_hunk (h : Hunk) : list str :=
  bs "@@" :: (cons "-"%char <$> old_lines h) ++ (cons "+"%char <$> new_lines h).
Definition print_op (op : FileOp) : list str :=
  match op with
  | Update path hunks => (UPDATE ++ bs " " ++ path) :: concat (print_hunk <$> hunks)
  | Add path content => (ADD ++ bs " " ++ path) :: (cons "+"%char <$> split_on LF content)
  end.
Definition print_patch (ops : list FileOp) : str :=
  join [LF] (BEGIN :: concat (print_op <$> ops) ++ [END_]).

(** The operations an envelope can carry: paths that survive trimming, lines
    without line feeds, and hunks that change something. *)
Definition path_ok (path : str) : Prop := path ≠ [] ∧ trim path = path ∧ LF ∉ path.
Definition hunk_ok (h : Hunk) : Prop :=
  old_lines h ≠ new_lines h ∧ Forall (λ l, LF ∉ l) (old_lines h) ∧ Forall (λ l, LF ∉ l) (new_lines h).
Definition op_ok (op : FileOp) : Prop :=
  match op with
  | Update path hunks => path_ok path ∧ hunks ≠ [] ∧ Forall hunk_ok hunks
  | Add path content => path_ok path
  end.

Lemma patch_lines_app st l1 l2 :
  patch_lines st (l1 ++ l2) = (st' ← patch_lines st l1; patch_lines st' l2).
Proof.
  revert st. induction l1 as [|l l1 IH]; intros st; simpl; [done|].
  destruct (patch_line st l) as [st'|e]; simpl; [apply IH|done].
Qed.

(** A line of a body is no marker. *)
Definition body_byte (c : ascii) : bool := bool_decide (c ∈ bs "+-@").
Lemma body_line ops section c l :
  body_byte c = true →
  patch_line (ops, section) (c :: l) = (section ← section_line section (c :: l); Ok (ops, section)).
Proof.
  intros Hc%bool_decide_eq_true. unfold patch_line.
  assert (c ≠ "*"%char) as Hne by (intros ->; revert Hc; apply (bool_decide_unpack _); vm_compute; exact I).
  assert (∀ p s, strip_prefix ("*"%char :: p) (c :: s) = None) as Hs.
  { intros p s. unfold strip_prefix. cbn [starts_with]. rewrite bool_decide_eq_false_2 by congruence. done. }
  rewrite (Hs _ l : strip_prefix UPDATE (c :: l) = None), (Hs _ l : strip_prefix ADD (c :: l) = None).
  assert (starts_with (bs "***") (trim_end (c :: l)) = false) as ->; [|done].
  destruct (trim_end_head c l) as [->|[s' ->]]; [done|].
  cbn [bs String.list_ascii_of_string starts_with]. rewrite bool_decide_eq_false_2 by congruence. done.
Qed.

Lemma section_removed path hunks cur l :
  section_line (SUpdate path hunks cur) ("-"%char :: l) =
  Ok (SUpdate path hunks (mkHunk (old_lines cur ++ [l]) (new_lines cur))).
Proof. by destruct l. Qed.
Lemma section_added path hunks cur l :
  section_line (SUpdate path hunks cur) ("+"%char :: l) =
  Ok (SUpdate path hunks (mkHunk (old_lines cur) (new_lines cur ++ [l]))).
Proof. by destruct l. Qed.
Lemma section_anchor path hunks cur :
  section_line (SUpdate path hunks cur) (bs "@@") =
  (hunks ← flush_hunk hunks cur; Ok (SUpdate path hunks no_hunk)).
Proof. done. Qed.
Lemma section_content path acc l :
  section_line (SAdd path acc) ("+"%char :: l) = Ok (SAdd path (acc ++ [l])).
Proof. by destruct l. Qed.

Lemma removed_lines ops path hunks cur ls :
  patch_lines (ops, SUpdate path hunks cur) (cons "-"%char <$> ls) =
  Ok (ops, SUpdate path hunks (mkHunk (old_lines cur ++ ls) (new_lines cur))).
Proof.
  revert cur. induction ls as [|l ls IH]; intros [o n]; cbn [fmap list_fmap patch_lines].
  - by rewrite app_nil_r.
  - rewrite body_line, section_removed by done. cbn [mbind result_bind]. rewrite IH. cbn. by rewrite <- app_assoc.
Qed.
Lemma added_lines ops path hunks cur ls :
  patch_lines (ops, SUpdate path hunks cur) (cons "+"%char <$> ls) =
  Ok (ops, SUpdate path hunks (mkHunk (old_lines cur) (new_lines cur ++ ls))).
Proof.
  revert cur. induction ls as [|l ls IH]; intros [o n]; cbn [fmap list_fmap patch_lines].
  - by rewrite app_nil_r.
  - rewrite body_line, section_added by done. cbn [mbind result_bind]. rewrite IH. cbn. by rewrite <- app_assoc.
Qed.
Lemma content_lines ops path acc ls :
  patch_lines (ops, SAdd path acc) (cons "+"%char <$> ls) = Ok (ops, SAdd path (acc ++ ls)).
Proof.
  revert acc. induction ls as [|l ls IH]; intros acc; cbn [fmap list_fmap patch_lines].
  - by rewrite app_nil_r.
  - rewrite body_line, section_content by done. cbn [mbind result_bind]. rewrite IH. by rewrite <- app_assoc.
Qed.

(** The anchor before a hunk files the one before it. *)
Definition filed (hunks : list Hunk) (cur : Hunk) (all : list Hunk) : Prop :=
  flush_hunk hunks cur = Ok all.
Lemma filed_hunk hunks h : hunk_ok h → filed hunks h (hunks ++ [h]).
Proof.
  intros (Hne & _). unfold filed, flush_hunk. rewrite (bool_decide_eq_false_2 (old_lines h = new_lines h)) by done.
  destruct h as [[|o os] [|n ns]]; [done| | |]; done.
Qed.

Lemma hunk_lines ops path hunks cur all hs :
  filed hunks cur all → Forall hunk_ok hs →
  ∃ hunks' cur', patch_lines (ops, SUpdate path hunks cur) (concat (print_hunk <$> hs)) =
    Ok (ops, SUpdate path hunks' cur') ∧ filed hunks' cur' (all ++ hs).
Proof.
  intros Hf Hhs. revert hunks cur all Hf. induction Hhs as [|h hs Hh Hhs IH]; intros hunks cur all Hf.
  - exists hunks, cur. by rewrite app_nil_r.
  - destruct (IH all h (all ++ [h]) (filed_hunk _ _ Hh)) as (hunks' & cur' & Hp & Hf').
    exists hunks', cur'. rewrite <- app_assoc in Hf'. split; [|exact Hf'].
    cbn [fmap list_fmap concat]. rewrite patch_lines_app.
    assert (patch_lines (ops, SUpdate path hunks cur) (print_hunk h) = Ok (ops, SUpdate path all h)) as ->; [|exact Hp].
    unfold print_hunk. cbn [patch_lines].
    rewrite (body_line ops _ "@"%char (bs "@") eq_refl), section_anchor, Hf. cbn [mbind result_bind].
    rewrite patch_lines_app, removed_lines. cbn [mbind result_bind]. rewrite added_lines. by destruct h.
Qed.

Lemma trim_space p : trim (" "%char :: p) = trim p.
Proof. reflexivity. Qed.

Lemma marker_lines ops all section path marker (mk : str → FileSection) :
  (marker = UPDATE ∧ mk = λ p, SUpdate p [] no_hunk) ∨ (marker = ADD ∧ mk = λ p, SAdd p []) →
  close_section ops section = Ok all → path_ok path →
  patch_line (ops, section) (marker ++ bs " " ++ path) = Ok (all, mk path).
Proof.
  intros Hm Hc (Hne & Ht & _).
  destruct Hm as [[-> ->]|[-> ->]]; unfold patch_line.
  2: replace (strip_prefix UPDATE (ADD ++ bs " " ++ path)) with (@None str) by done.
  all: rewrite (proj2 (strip_prefix_Some _ _ (bs " " ++ path)) eq_refl), Hc;
    unfold marker_path; cbn [mbind result_bind bs String.list_ascii_of_string app];
    by rewrite trim_space, Ht, bool_decide_eq_false_2.
Qed.

Lemma op_lines ops section all op :
  close_section ops section = Ok all → op_ok op →
  ∃ ops' section', patch_lines (ops, section) (print_op op) = Ok (ops', section') ∧
    close_section ops' section' = Ok (all ++ [op]).
Proof.
  intros Hc Hop. destruct op as [path hunks|path content]; cbn [print_op patch_lines].
  - destruct Hop as (Hp & Hne & Hhs).
    rewrite (marker_lines _ _ _ _ _ _ (or_introl (conj eq_refl eq_refl)) Hc Hp). cbn [mbind result_bind].
    destruct (hunk_lines all path [] no_hunk [] hunks eq_refl Hhs) as (hs' & cur' & -> & Hf).
    eexists _, _. split; [done|]. cbn. rewrite Hf. cbn.
    by rewrite bool_decide_eq_false_2.
  - rewrite (marker_lines _ _ _ _ _ _ (or_intror (conj eq_refl eq_refl)) Hc Hop). cbn [mbind result_bind].
    rewrite content_lines. eexists _, _. split; [done|]. cbn. by rewrite join_split.
Qed.

Lemma all_lines ops section all new :
  close_section ops section = Ok all → Forall op_ok new →
  ∃ ops' section', patch_lines (ops, section) (concat (print_op <$> new)) = Ok (ops', section') ∧
    close_section ops' section' = Ok (all ++ new).
Proof.
  intros Hc Hn. revert ops section all Hc. induction Hn as [|op new Hop Hn IH]; intros ops section all Hc.
  - exists ops, section. by rewrite app_nil_r.
  - destruct (op_lines _ _ _ _ Hc Hop) as (o1 & s1 & Hp & Hc1).
    destruct (IH _ _ _ Hc1) as (o2 & s2 & Hp2 & Hc2). exists o2, s2.
    rewrite <- app_assoc in Hc2. split; [|done].
    cbn [fmap list_fmap concat]. by rewrite patch_lines_app, Hp.
Qed.

Lemma no_LF_app x y : LF ∉ x → LF ∉ y → LF ∉ x ++ y.
Proof. set_solver. Qed.
Lemma no_LF_lit (x : str) : bool_decide (LF ∉ x) = true → LF ∉ x.
Proof. apply bool_decide_eq_true. Qed.
Lemma no_LF_cons c (ls : list str) :
  c ≠ LF → Forall (λ l, LF ∉ l) ls → Forall (λ l, LF ∉ l) (cons c <$> ls).
Proof. intros Hc Hl. apply Forall_fmap. eapply Forall_impl; [exact Hl|]. intros l ?. cbn. set_solver. Qed.

Lemma print_op_no_LF op : op_ok op → Forall (λ l, LF ∉ l) (print_op op).
Proof.
  intros Hop. destruct op as [path hunks|path content]; cbn [op_ok print_op] in *; constructor.
  - destruct Hop as ((_ & _ & Hp) & _).
    apply no_LF_app; [|apply no_LF_app; [|exact Hp]]; apply no_LF_lit; vm_compute; reflexivity.
  - destruct Hop as (_ & _ & Hh). apply Forall_concat, Forall_fmap.
    eapply Forall_impl; [exact Hh|]. intros h (_ & Ho & Hn). unfold print_hunk, compose. constructor.
    + apply no_LF_lit; vm_compute; reflexivity.
    + apply Forall_app. split; apply no_LF_cons; done.
  - destruct Hop as (_ & _ & Hp).
    apply no_LF_app; [|apply no_LF_app; [|exact Hp]]; apply no_LF_lit; vm_compute; reflexivity.
  - apply no_LF_cons; [done|]. apply split_on_no_sep_elems.
Qed.

(** C38: Every list of operations that the envelope can carry is read back
    from its printed patch: [parse_patch] returns exactly these operations,
    with their paths, hunks and contents. *)
(* @prop roundtrip defs=parse_patch,patch_line,close_section,flush_hunk,push_hunk_line witness=parse_print_patch_witness *)
Theorem parse_print_patch ops :
  ops ≠ [] → Forall op_ok ops → parse_patch (print_patch ops) = Ok ops.
Proof.
  intros Hne Hok. unfold parse_patch, print_patch.
  set (body := concat (print_op <$> ops)).
  rewrite split_join; [|done|].
  2: { constructor; [apply no_LF_lit; vm_compute; reflexivity|]. apply Forall_app. split.
       - apply Forall_concat, Forall_fmap. eapply Forall_impl; [exact Hok|]. apply print_op_no_LF.
       - constructor; [apply no_LF_lit; vm_compute; reflexivity|constructor]. }
  cbn [position]. replace (bool_decide (trim_end BEGIN = BEGIN)) with true by (vm_compute; reflexivity).
  rewrite app_comm_cons, rposition_last by (vm_compute; reflexivity). cbn [ok_or mbind result_bind length].
  rewrite (proj2 (Nat.leb_gt _ _)) by lia.
  change (drop 1 ((BEGIN :: body) ++ [END_])) with (body ++ [END_]).
  replace (S (length body) - 1) with (length body) by lia. rewrite take_app_length.
  destruct (all_lines [] SNone [] ops eq_refl Hok) as (ops' & section' & Hp & Hc).
  fold body in Hp. rewrite Hp. cbn [mbind result_bind fst snd]. rewrite Hc. cbn [mbind result_bind app].
  by rewrite bool_decide_eq_false_2.
Qed.

(** ** What a patch can carry *)

Lemma no_LF_strip p l r : strip_prefix p l = Some r → LF ∉ l → LF ∉ r.
Proof. intros ->%strip_prefix_Some. set_solver. Qed.
Lemma no_LF_prefix (s t : str) : s `prefix_of` t → LF ∉ t → LF ∉ s.
Proof. intros [k ->]. set_solver. Qed.
Lemma no_LF_suffix (s t : str) : s `suffix_of` t → LF ∉ t → LF ∉ s.
Proof. intros [k ->]. set_solver. Qed.
Lemma no_LF_trim s : LF ∉ s → LF ∉ trim s.
Proof.
  intros Hs. eapply no_LF_prefix; [apply trim_end_prefix|].
  eapply no_LF_suffix; [apply strip_all_suffix|exact Hs].
Qed.

(** The state of the parser on lines without line feeds. *)
Definition lines_ok (h : Hunk) : Prop := Forall (λ l, LF ∉ l) (old_lines h) ∧ Forall (λ l, LF ∉ l) (new_lines h).
Definition section_ok (s : FileSection) : Prop :=
  match s with
  | SNone => True
  | SUpdate path hunks cur => path_ok path ∧ Forall hunk_ok hunks ∧ lines_ok cur
  | SAdd path _ => path_ok path
  end.

Lemma flush_ok hunks cur hunks' :
  Forall hunk_ok hunks → lines_ok cur → flush_hunk hunks cur = Ok hunks' → Forall hunk_ok hunks'.
Proof.
  intros Hh [Ho Hn]. unfold flush_hunk. case_if; [by intros [= <-]|]. case_if; [done|]. bool_hyps.
  intros [= <-]. apply Forall_app. split; [done|]. by repeat constructor.
Qed.
Lemma close_ok ops s ops' :
  Forall op_ok ops → section_ok s → close_section ops s = Ok ops' → Forall op_ok ops'.
Proof.
  intros Ho Hs. destruct s as [|path hunks cur|path ls]; simpl in *.
  - by intros [= <-].
  - destruct Hs as (Hp & Hh & Hc). destruct (flush_hunk hunks cur) as [hunks'|] eqn:Hf; [|done]. simpl.
    case_if; [done|]. bool_hyps. intros [= <-]. apply Forall_app. split; [done|]. constructor; [|constructor].
    split; [done|]. split; [done|]. by eapply flush_ok.
  - intros [= <-]. apply Forall_app. split; [done|]. by constructor; [|constructor].
Qed.
Lemma push_ok cur l cur' : lines_ok cur → LF ∉ l → push_hunk_line cur l = Ok cur' → lines_ok cur'.
Proof.
  intros [Ho Hn] Hl. unfold push_hunk_line.
  destruct (strip_prefix _ l) as [c|] eqn:H1.
  { intros [= <-]. split; simpl; [done|]. apply Forall_app. eauto using no_LF_strip. }
  destruct (strip_prefix (bs "-") l) as [c|] eqn:H2.
  { intros [= <-]. split; simpl; [|done]. apply Forall_app. eauto using no_LF_strip. }
  destruct (strip_prefix (bs " ") l) as [c|] eqn:H3.
  { intros [= <-]. split; simpl; apply Forall_app; eauto using no_LF_strip. }
  case_if; [|done]. intros [= <-].
  assert (Forall (λ l : str, LF ∉ l) [[]]) as H0 by (repeat constructor; set_solver).
  split; simpl; by apply Forall_app.
Qed.
Lemma section_line_ok s l s' : section_ok s → LF ∉ l → section_line s l = Ok s' → section_ok s'.
Proof.
  intros Hs Hl. destruct s as [|path hunks cur|path ls]; simpl in *.
  - case_if; [by intros [= <-]|done].
  - destruct Hs as (Hp & Hh & Hc). case_if.
    + destruct (flush_hunk hunks cur) as [hunks'|] eqn:Hf; [|done]. intros [= <-].
      split; [done|]. split; [by eapply flush_ok|]. by repeat constructor.
    + destruct (push_hunk_line cur l) as [cur'|] eqn:Hf; [|done]. intros [= <-].
      split; [done|]. split; [done|]. by eapply push_ok.
  - destruct (strip_prefix _ l); [by intros [= <-]|]. case_if; [by intros [= <-]|done].
Qed.
Lemma marker_path_ok marker rest path : LF ∉ rest → marker_path marker rest = Ok path → path_ok path.
Proof.
  intros Hl. unfold marker_path. case_if; [done|]. bool_hyps. intros [= <-].
  split; [done|]. split; [apply trim_idem|by apply no_LF_trim].
Qed.
Lemma patch_line_ok ops s l ops' s' :
  Forall op_ok ops → section_ok s → LF ∉ l → patch_line (ops, s) l = Ok (ops', s') →
  Forall op_ok ops' ∧ section_ok s'.
Proof.
  intros Ho Hs Hl. unfold patch_line.
  destruct (strip_prefix UPDATE l) as [rest|] eqn:H1; [|destruct (strip_prefix ADD l) as [rest|] eqn:H2].
  1,2: destruct (close_section ops s) as [ops1|] eqn:Hc; [|done]; cbn [mbind result_bind];
    destruct (marker_path _ rest) as [path|] eqn:Hm; [|done]; intros [= <- <-];
    pose proof (marker_path_ok _ _ _ (no_LF_strip _ _ _ ltac:(eassumption) Hl) Hm);
    split; [by eapply close_ok|]; try done; by repeat constructor.
  case_if; [done|]. destruct (section_line s l) as [s1|] eqn:Hc; [|done]. intros [= <- <-].
  split; [done|]. by eapply section_line_ok.
Qed.
Lemma patch_lines_ok ls ops s ops' s' :
  Forall (λ l, LF ∉ l) ls → Forall op_ok ops → section_ok s → patch_lines (ops, s) ls = Ok (ops', s') →
  Forall op_ok ops' ∧ section_ok s'.
Proof.
  intros Hl. revert ops s. induction Hl as [|l ls Hl Hls IH]; intros ops s Ho Hs; cbn [patch_lines].
  - by intros [= <- <-].
  - destruct (patch_line (ops, s) l) as [[o1 s1]|] eqn:Hp; [|done]. cbn [mbind result_bind].
    destruct (patch_line_ok _ _ _ _ _ Ho Hs Hl Hp). by apply IH.
Qed.

(** C40: What [parse_patch] returns is well formed: there is an operation,
    every path is trimmed, not empty and on one line, every update has hunks,
    and every hunk changes something and consists of single lines. *)
(* @prop type defs=parse_patch,flush_hunk,close_section,FileOp,Hunk witness=parsed_ops_witness *)
Theorem parsed_ops_ok patch ops : parse_patch patch = Ok ops → ops ≠ [] ∧ Forall op_ok ops.
Proof.
  unfold parse_patch. destruct (position _ _) as [b|]; [|done]. cbn [ok_or mbind result_bind].
  destruct (rposition _ _) as [e|]; [|done]. cbn [ok_or mbind result_bind]. case_if; [done|].
  destruct (patch_lines _ _) as [[ops1 s1]|] eqn:Hp; [|done]. cbn [mbind result_bind fst snd].
  assert (Forall op_ok ops1 ∧ section_ok s1) as [Ho Hs].
  { apply (patch_lines_ok _ _ _ _ _) with (4 := Hp); [|constructor|exact I].
    apply Forall_take, Forall_drop, split_on_no_sep_elems. }
  destruct (close_section ops1 s1) as [ops2|] eqn:Hc; [|done]. cbn [mbind result_bind]. case_if; [done|].
  bool_hyps. intros [= <-]. split; [done|]. by eapply close_ok.
Qed.

(** ** Examples *)

Definition toy_lines (ls : list string) : str := join [LF] (bs <$> ls).

Example parse_ex :
  parse_patch (toy_lines ["*** Begin Patch"; "*** Update File: notes/todo.md"; "@@ anchor";
    " context line"; "-removed line"; "+added line"; "*** Add File: new.md"; "+first"; "+"; "*** End Patch"]) =
  Ok [Update (bs "notes/todo.md") [mkHunk [bs "context line"; bs "removed line"] [bs "context line"; bs "added line"]];
      Add (bs "new.md") (bs "first" ++ [LF])].
Proof. vm_compute. reflexivity. Qed.

Example parse_errors :
  parse_patch (bs "hello") = Err (bs "missing '*** Begin Patch'") ∧
  parse_patch (toy_lines ["*** Begin Patch"; "*** Update File: a"; "*** End Patch"]) =
    Err (bs "'*** Update File: a' has no hunks") ∧
  parse_patch (toy_lines ["*** Begin Patch"; "*** Update File: a"; " x"; "*** End Patch"]) =
    Err (bs "hunk has no additions or removals") ∧
  parse_patch (toy_lines ["*** Begin Patch"; "*** Delete File: a"; "*** End Patch"]) =
    Err (bs "unknown marker: *** Delete File: a").
Proof. vm_compute. done. Qed.

Definition toy_file : str := toy_lines ["a"; "b  "; "c"; "d"; "a"].
Definition toy_hunks : list Hunk := [mkHunk [bs "b"; bs "c"] [bs "B"]; mkHunk [bs "a"] [bs "z"; bs "z"]].

Lemma apply_hunks_witness :
  ∃ ls, toy_lines ["a"; "B"; "d"; "z"; "z"] = join [LF] ls ∧ patched (split_on LF toy_file) toy_hunks ls.
Proof.
  apply (apply_hunks_spec toy_file toy_hunks). vm_compute. reflexivity.
Defined.

Definition toy_ops : list FileOp := [Update (bs "a.md") toy_hunks; Add (bs "b.md") toy_file].
Lemma parse_print_patch_witness :
  Forall op_ok toy_ops ∧ parse_patch (print_patch toy_ops) = Ok toy_ops.
Proof.
  assert (toy_ops ≠ []) as Hne by discriminate.
  assert (path_ok (bs "a.md")) as Ha
    by (split; [discriminate|split; [vm_compute; reflexivity|apply no_LF_lit; vm_compute; reflexivity]]).
  assert (path_ok (bs "b.md")) as Hb
    by (split; [discriminate|split; [vm_compute; reflexivity|apply no_LF_lit; vm_compute; reflexivity]]).
  assert (Forall hunk_ok toy_hunks) as Hh.
  { repeat constructor; try discriminate; apply no_LF_lit; vm_compute; reflexivity. }
  assert (Forall op_ok toy_ops) as Hok
    by (constructor; [split; [exact Ha|split; [discriminate|exact Hh]]|constructor; [exact Hb|constructor]]).
  split; [exact Hok|]. exact (parse_print_patch toy_ops Hne Hok).
Defined.

Lemma parsed_ops_witness :
  parse_patch (toy_lines ["*** Begin Patch"; "*** Add File: a "; "+x"; "*** End Patch"]) = Ok [Add (bs "a") (bs "x")] ∧
  Forall op_ok [Add (bs "a") (bs "x")].
Proof.
  assert (parse_patch (toy_lines ["*** Begin Patch"; "*** Add File: a "; "+x"; "*** End Patch"]) =
    Ok [Add (bs "a") (bs "x")]) as H by (vm_compute; reflexivity).
  split; [exact H|]. exact (proj2 (parsed_ops_ok _ _ H)).
Defined.
