(* ===== verification/Files.v ===== *)
(** * Paths and files

    What the code uses of [std::path] and [std::fs] on a POSIX system.  A
    path keeps the components the operating system walks, a trailing
    separator being a final [CurDir]; [components] is the normalised view of
    [Path::components], by which paths are compared.  The file system maps
    absolute names to files, directories and symbolic links; [walk] is the
    path resolution of the kernel, with its bound on symbolic links. *)
From S2P Require Import Prelude.

(** ** Paths *)

Inductive Comp := Normal (name : str) | ParentDir | CurDir.
#[export] Instance comp_eq_dec : EqDecision Comp.
Proof. solve_decision. Defined.

Record Path := mkPath { p_abs : bool; p_parts : list Comp }.

(** The components of the pieces between separators; the last piece, when it
    is empty, is a trailing separator. *)
Fixpoint parts_of (pieces : list str) : list Comp :=
  match pieces with
  | [] => []
  | [[]] => [CurDir]
  | p :: rest =>
      let c := if bool_decide (p = []) then [] else
               if bool_decide (p = bs ".") then [CurDir] else
               if bool_decide (p = bs "..") then [ParentDir] else [Normal p] in
      c ++ parts_of rest
  end.

Definition path_of (s : str) : Path :=
  if bool_decide (s = []) then mkPath false []
  else mkPath (starts_with (bs "/") s) (parts_of (split_on "/" s)).

Definition is_cur (c : Comp) : bool := match c with CurDir => true | _ => false end.
Definition is_parent (c : Comp) : bool := match c with ParentDir => true | _ => false end.
Definition normals (cs : list Comp) : list Comp := List.filter (λ c, negb (is_cur c)) cs.

(** [Path::components]: [.] counts only at the start of a relative path. *)
Definition components (p : Path) : list Comp :=
  match p_parts p with
  | CurDir :: rest => if p_abs p then normals rest else CurDir :: normals rest
  | cs => normals cs
  end.

(** [Path == Path] *)
Definition path_eqb (p q : Path) : bool :=
  bool_decide (p_abs p = p_abs q) && bool_decide (components p = components q).

(** [Path::join] *)
Definition join_path (p q : Path) : Path :=
  if p_abs q then q else
  if bool_decide (p_parts p = []) && negb (p_abs p) then q else
  mkPath (p_abs p) (p_parts p ++ (if bool_decide (p_parts q = []) then [CurDir] else p_parts q)).

(** [Path::file_name] *)
Definition file_name (p : Path) : option str :=
  match last (components p) with Some (Normal n) => Some n | _ => None end.

(** [Path::parent] *)
Definition parent (p : Path) : option Path :=
  if bool_decide (components p = []) then None
  else Some (mkPath (p_abs p) (removelast (components p))).

(** [Path::strip_prefix] and [Path::starts_with] *)
Fixpoint strip_comps (pre cs : list Comp) : option (list Comp) :=
  match pre, cs with
  | [], _ => Some cs
  | a :: pre', b :: cs' => if bool_decide (a = b) then strip_comps pre' cs' else None
  | _ :: _, [] => None
  end.
Definition strip_path (p base : Path) : option (list Comp) :=
  if bool_decide (p_abs p = p_abs base) then strip_comps (components base) (components p) else None.
Definition path_starts_with (p base : Path) : bool :=
  match strip_path p base with Some _ => true | None => false end.

(** An absolute name as a path. *)
Definition abs_path (names : list str) : Path := mkPath true (Normal <$> names).

(** ** The file system *)

Inductive Node := File (content : str) | Dir | Link (target : Path).
Record Fs := mkFs { fs_cwd : list str; fs_nodes : gmap (list str) Node }.

Definition node (fs : Fs) (name : list str) : option Node :=
  if bool_decide (name = []) then Some Dir else fs_nodes fs !! name.
Definition set_nodes (fs : Fs) (m : gmap (list str) Node) : Fs := mkFs (fs_cwd fs) m.
Definition put (fs : Fs) (name : list str) (n : Node) : Fs := set_nodes fs (<[name := n]> (fs_nodes fs)).

(** The kernel follows at most 40 links. *)
Definition MAXSYMLINKS : nat := 40.

(** Path resolution from the directory [done]; with [create] the last
    component may be missing. *)
Fixpoint walk (fs : Fs) (create : bool) (links : nat) : list str → list Comp → option (list str) :=
  fix go (done : list str) (todo : list Comp) {struct todo} : option (list str) :=
    match todo with
    | [] => Some done
    | CurDir :: rest => go done rest
    | ParentDir :: rest => go (removelast done) rest
    | Normal n :: rest =>
        let here := done ++ [n] in
        match node fs here with
        | Some Dir => go here rest
        | Some (File _) => if bool_decide (rest = []) then Some here else None
        | Some (Link target) =>
            match links with
            | O => None
            | S links' =>
                walk fs create links' (if p_abs target then [] else done) (p_parts target ++ rest)
            end
        | None => if create && bool_decide (rest = []) then Some here else None
        end
    end.

Definition start_dir (fs : Fs) (p : Path) : list str := if p_abs p then [] else fs_cwd fs.
Definition resolve (fs : Fs) (create : bool) (p : Path) : option (list str) :=
  if negb (p_abs p) && bool_decide (p_parts p = []) then None
  else walk fs create MAXSYMLINKS (start_dir fs p) (p_parts p).

(** [fs::canonicalize], [Path::exists], [Path::is_dir] *)
Definition canonicalize (fs : Fs) (p : Path) : option (list str) := resolve fs false p.
Definition exists_ (fs : Fs) (p : Path) : bool := bool_decide (is_Some (canonicalize fs p)).
Definition is_dir (fs : Fs) (p : Path) : bool :=
  match canonicalize fs p with
  | Some c => match node fs c with Some Dir => true | _ => false end
  | None => false
  end.

(** The name of a path without following a link in its last component; a
    path that ends otherwise is followed. *)
Definition entry (fs : Fs) (p : Path) : option (list str) :=
  match last (p_parts p) with
  | Some (Normal n) =>
      d ← walk fs false MAXSYMLINKS (start_dir fs p) (removelast (p_parts p));
      match node fs d with Some Dir => Some (d ++ [n]) | _ => None end
  | _ => canonicalize fs p
  end.

(** [symlink_metadata().is_symlink()] *)
Definition is_symlink (fs : Fs) (p : Path) : bool :=
  match entry fs p ≫= node fs with Some (Link _) => true | _ => false end.

(** [fs::read_to_string] *)
Definition read_to_string (fs : Fs) (p : Path) : option str :=
  c ← canonicalize fs p;
  match node fs c with Some (File content) => Some content | _ => None end.

(** [fs::write]: the file at the end of the links is created or replaced. *)
Definition write (fs : Fs) (p : Path) (content : str) : option Fs :=
  c ← resolve fs true p;
  match node fs c with
  | Some Dir => None
  | _ => Some (put fs c (File content))
  end.

Definition mkdir (fs : Fs) (p : Path) : option Fs :=
  name ← entry fs p;
  match node fs name with None => Some (put fs name Dir) | Some _ => None end.

(** [fs::create_dir_all]: every prefix of the path becomes a directory. *)
Fixpoint create_dirs (fs : Fs) (abs : bool) (done todo : list Comp) : Fs * bool :=
  match todo with
  | [] => (fs, true)
  | c :: rest =>
      let p := mkPath abs (done ++ [c]) in
      if is_dir fs p then create_dirs fs abs (done ++ [c]) rest else
      match mkdir fs p with
      | Some fs' => create_dirs fs' abs (done ++ [c]) rest
      | None => (fs, false)
      end
  end.
Definition create_dir_all (fs : Fs) (p : Path) : Fs * bool := create_dirs fs (p_abs p) [] (components p).

(** [fs::remove_file] *)
Definition remove_file (fs : Fs) (p : Path) : option Fs :=
  name ← entry fs p;
  match node fs name with
  | Some (File _) | Some (Link _) => Some (set_nodes fs (delete name (fs_nodes fs)))
  | _ => None
  end.

(** [below d n]: the name [n] is [d] or stands below it. *)
Fixpoint below (d n : list str) : bool :=
  match d, n with
  | [], _ => true
  | a :: d', b :: n' => bool_decide (a = b) && below d' n'
  | _ :: _, [] => false
  end.

(** [fs::remove_dir_all]: a link is unlinked, a directory goes with
    everything below it. *)
Definition remove_dir_all (fs : Fs) (p : Path) : option Fs :=
  name ← entry fs p;
  match node fs name with
  | Some (Link _) => Some (set_nodes fs (delete name (fs_nodes fs)))
  | Some Dir => Some (set_nodes fs (filter (λ '(n, _), below name n = false) (fs_nodes fs)))
  | _ => None
  end.

(** Everything at or below [a] moves to [b]. *)
Definition rebase (a b n : list str) : list str := if below a n then b ++ drop (length a) n else n.
Definition move_nodes (a b : list str) (m : gmap (list str) Node) : gmap (list str) Node :=
  list_to_map (prod_map (rebase a b) id <$>
    map_to_list (filter (λ '(n, _), below b n = false) m)).

(** [rename(2)] within one file system: links are not followed, a directory
    does not move below itself nor onto a directory that has entries. *)
Definition empty_dir (fs : Fs) (d : list str) : bool :=
  bool_decide (filter (λ '(n, _), below d n = true ∧ n ≠ d) (fs_nodes fs) = ∅).
Definition rename (fs : Fs) (src dst : Path) : option Fs :=
  a ← entry fs src; b ← entry fs dst; n ← node fs a;
  if bool_decide (a = b) then Some fs else
  if below a b then None else
  let moved := Some (set_nodes fs (move_nodes a b (fs_nodes fs))) in
  match n, node fs b with
  | _, None => moved
  | Dir, Some Dir => if empty_dir fs b then moved else None
  | Dir, Some _ | _, Some Dir => None
  | _, Some _ => moved
  end.

(** [fs::copy] *)
Definition copy (fs : Fs) (src dst : Path) : option Fs :=
  content ← read_to_string fs src; write fs dst content.

(** ** Lemmas on resolution *)

(** [fs'] is [fs] with more directories. *)
Definition grows (fs fs' : Fs) : Prop :=
  fs_cwd fs' = fs_cwd fs ∧
  (∀ n x, node fs n = Some x → node fs' n = Some x) ∧
  (∀ n, node fs n = None → node fs' n = None ∨ node fs' n = Some Dir).

#[export] Instance grows_preorder : PreOrder grows.
Proof.
  split.
  - intros fs. split_and!; auto.
  - intros f1 f2 f3 (C1 & K1 & N1) (C2 & K2 & N2). split; [congruence|]. split; [auto|].
    intros n Hn. destruct (N1 n Hn) as [H|H]; [auto|]. right. auto.
Qed.

Lemma node_put fs name x n :
  name ≠ [] → node (put fs name x) n = if decide (n = name) then Some x else node fs n.
Proof.
  intros Hne. unfold node, put, set_nodes; simpl. destruct (decide (n = name)) as [->|Hn].
  - rewrite bool_decide_eq_false_2 by done. by rewrite lookup_insert_eq.
  - case_bool_decide; [done|]. by rewrite lookup_insert_ne.
Qed.

Lemma mkdir_grows fs p fs' : mkdir fs p = Some fs' → grows fs fs'.
Proof.
  unfold mkdir. intros H. apply bind_Some in H as (name & _ & H).
  destruct (node fs name) eqn:Hn; [done|]. simplify_eq.
  assert (name ≠ []) as Hne by (intros ->; done).
  split; [done|]. split.
  - intros n x Hx. rewrite node_put by done. case_decide; [congruence|done].
  - intros n Hx. rewrite node_put by done. case_decide; auto.
Qed.

Lemma create_dirs_grows todo fs abs done : grows fs (create_dirs fs abs done todo).1.
Proof.
  revert fs done. induction todo as [|c todo IH]; intros fs done; simpl; [reflexivity|].
  destruct (is_dir _ _); [apply IH|]. destruct (mkdir _ _) as [fs1|] eqn:Hm; [|reflexivity].
  etrans; [by eapply mkdir_grows|apply IH].
Qed.
Lemma create_dir_all_grows fs p : grows fs (create_dir_all fs p).1.
Proof. apply create_dirs_grows. Qed.

(** The directories on the way to [d] are no links. *)
Definition settled (fs : Fs) (d : list str) : Prop := ∀ k, 0 < k ≤ length d → node fs (take k d) = Some Dir.

Lemma settled_nil fs : settled fs [].
Proof. intros k Hk. simpl in Hk. lia. Qed.
Lemma settled_snoc fs d n : settled fs d → node fs (d ++ [n]) = Some Dir → settled fs (d ++ [n]).
Proof.
  intros Hd Hn k Hk. rewrite length_app in Hk; simpl in Hk.
  destruct (decide (k ≤ length d)).
  - rewrite take_app_le by done. apply Hd. lia.
  - rewrite take_ge by (rewrite length_app; simpl; lia). done.
Qed.
Lemma settled_take fs d k : settled fs d → settled fs (take k d).
Proof.
  intros Hd j Hj. rewrite take_take. apply Hd. rewrite length_take in Hj. lia.
Qed.
Lemma removelast_take {A} (l : list A) : removelast l = take (length l - 1) l.
Proof.
  induction l as [|x l IH]; [done|]. destruct l as [|y l]; [done|].
  change (removelast (x :: y :: l)) with (x :: removelast (y :: l)). rewrite IH.
  simpl. by rewrite Nat.sub_0_r.
Qed.
Lemma settled_up fs d : settled fs d → settled fs (removelast d).
Proof. rewrite removelast_take. apply settled_take. Qed.
Lemma settled_grows fs fs' d : grows fs fs' → settled fs d → settled fs' d.
Proof. intros (_ & Hk & _) Hd k Hl. apply Hk, Hd, Hl. Qed.
Lemma settled_dir fs d : settled fs d → node fs d = Some Dir.
Proof.
  intros Hd. destruct d as [|x d]; [done|]. rewrite <- (Hd (length (x :: d))) by (simpl; lia).
  by rewrite take_ge.
Qed.

Ltac walk_cases :=
  repeat match goal with
  | H : context [match node ?fs ?n with _ => _ end] |- _ => destruct (node fs n) as [[?| |?]|] eqn:?
  | |- context [match node ?fs ?n with _ => _ end] => destruct (node fs n) as [[?| |?]|] eqn:?
  end.

Lemma walk_cons fs create links d c todo :
  walk fs create links d (c :: todo) =
  match c with
  | CurDir => walk fs create links d todo
  | ParentDir => walk fs create links (removelast d) todo
  | Normal n =>
      match node fs (d ++ [n]) with
      | Some Dir => walk fs create links (d ++ [n]) todo
      | Some (File _) => if bool_decide (todo = []) then Some (d ++ [n]) else None
      | Some (Link target) =>
          match links with
          | O => None
          | S links' => walk fs create links' (if p_abs target then [] else d) (p_parts target ++ todo)
          end
      | None => if create && bool_decide (todo = []) then Some (d ++ [n]) else None
      end
  end.
Proof. destruct links, c; reflexivity. Qed.
Lemma walk_nil fs create links d : walk fs create links d [] = Some d.
Proof. by destruct links. Qed.

(** Induction on a resolution: the links left, then the components. *)
Lemma walk_ind (P : nat → list str → list Comp → Prop) :
  (∀ links, (∀ links' d todo, links' < links → P links' d todo) →
     (∀ d, P links d []) ∧
     (∀ d c todo, (∀ d', P links d' todo) → P links d (c :: todo))) →
  ∀ links d todo, P links d todo.
Proof.
  intros H links. induction links as [links IH] using lt_wf_ind. intros d todo. revert d.
  destruct (H links) as [Hn Hc]; [auto|]. induction todo; eauto.
Qed.

(** More links do no harm. *)
Lemma walk_links fs create links links' d todo c :
  links ≤ links' → walk fs create links d todo = Some c → walk fs create links' d todo = Some c.
Proof.
  revert links'. revert links d todo. refine (walk_ind _ _).
  intros links IH. split; [intros d links'; by rewrite !walk_nil|].
  intros d k todo IHt links' Hle. rewrite !walk_cons. destruct k; auto.
  walk_cases; auto. destruct links as [|links]; [done|]. destruct links' as [|links']; [lia|].
  apply IH; lia.
Qed.

(** More directories do no harm. *)
Lemma walk_grows fs fs' links d todo c :
  grows fs fs' → walk fs false links d todo = Some c → walk fs' false links d todo = Some c.
Proof.
  intros (_ & Hk & _). revert links d todo. refine (walk_ind _ _).
  intros links IH. split; [intros d; by rewrite !walk_nil|].
  intros d k todo IHt. rewrite !walk_cons. destruct k; auto.
  destruct (node fs (d ++ [name])) as [x|] eqn:Hn; [|done]. rewrite (Hk _ _ Hn).
  destruct x; auto. destruct links; auto.
Qed.

(** Creation only adds results. *)
Lemma walk_create fs links d todo c :
  walk fs false links d todo = Some c → walk fs true links d todo = Some c.
Proof.
  revert links d todo. refine (walk_ind _ _).
  intros links IH. split; [intros d; by rewrite !walk_nil|].
  intros d k todo IHt. rewrite !walk_cons. destruct k; auto.
  walk_cases; auto; [|done]. destruct links; auto.
Qed.

(** A resolution that goes on passes a directory. *)
Lemma walk_app fs create links d l1 l2 c :
  l2 ≠ [] → settled fs d → walk fs create links d (l1 ++ l2) = Some c →
  ∃ e links', links' ≤ links ∧ settled fs e ∧
    walk fs false links d l1 = Some e ∧ walk fs create links' e l2 = Some c.
Proof.
  intros Hne. revert links d l1. refine (walk_ind _ _).
  intros links IH. split.
  { intros d Hs Hw. exists d, links. by rewrite walk_nil. }
  intros d k l1 IHt Hs. cbn [app]. rewrite !walk_cons. destruct k; eauto using settled_up.
  walk_cases; eauto using settled_snoc.
  - rewrite bool_decide_eq_false_2; [done|]. by destruct l1.
  - destruct links as [|links]; [done|]. rewrite app_assoc. intros Hw.
    assert (settled fs (if p_abs target then [] else d)) as Hs' by (destruct (p_abs target); [apply settled_nil|exact Hs]).
    destruct (IH links _ _ ltac:(lia) Hs' Hw) as (e & j & ? & ? & ? & ?). exists e, j. split; [lia|done].
  - rewrite bool_decide_eq_false_2; [by rewrite andb_false_r|]. by destruct l1.
Qed.

(** [todo'] is [todo] without some of its [CurDir]s. *)
Inductive trims : list Comp → list Comp → Prop :=
| trims_nil : trims [] []
| trims_cur a b : trims a b → trims (CurDir :: a) b
| trims_cons c a b : trims a b → trims (c :: a) (c :: b).
Lemma trims_normals l : trims l (normals l).
Proof. induction l as [|[] l IH]; simpl; by constructor. Qed.
Lemma trims_refl l : trims l l.
Proof. induction l; by constructor. Qed.
Lemma trims_app a b x y : trims a b → trims x y → trims (a ++ x) (b ++ y).
Proof. induction 1; simpl; intros; [done| |]; constructor; auto. Qed.
Lemma trims_components p : trims (p_parts p) (components p).
Proof.
  unfold components. destruct (p_parts p) as [|[] cs] eqn:Hp; try apply trims_normals.
  destruct (p_abs p); constructor; apply trims_normals.
Qed.

Lemma walk_trims fs create links d todo todo' c :
  trims todo todo' → walk fs create links d todo = Some c → walk fs create links d todo' = Some c.
Proof.
  revert todo'. revert links d todo. refine (walk_ind _ _).
  intros links IH. split.
  { intros d todo' Ht. by inversion Ht; subst. }
  intros d k todo IHt todo' Ht. rewrite walk_cons. inversion Ht as [|a b Ht'|k' a b Ht']; subst; [by apply IHt|].
  rewrite walk_cons. destruct k; auto. walk_cases; auto.
  - case_bool_decide; [|done]. subst. by inversion Ht'.
  - destruct links as [|links]; [done|]. apply IH; [lia|]. apply trims_app; [apply trims_refl|done].
  - destruct create; [|done]. simpl. case_bool_decide; [|done]. subst. by inversion Ht'.
Qed.

(** A settled name resolves to itself. *)
Lemma walk_settled fs create links pre d todo :
  settled fs (pre ++ d) → walk fs create links pre ((Normal <$> d) ++ todo) = walk fs create links (pre ++ d) todo.
Proof.
  revert pre. induction d as [|n d IH]; intros pre Hs; [by rewrite app_nil_r|].
  cbn [fmap list_fmap app]. rewrite walk_cons.
  assert (node fs (pre ++ [n]) = Some Dir) as ->.
  { rewrite <- (Hs (S (length pre))) by (rewrite length_app; simpl; lia).
    rewrite take_app_ge by lia. by replace (S (length pre) - length pre) with 1 by lia. }
  replace (pre ++ n :: d) with ((pre ++ [n]) ++ d) in * by (by rewrite <- app_assoc). by apply IH.
Qed.

(** ** Joining and stripping *)

Lemma normals_app a b : normals (a ++ b) = normals a ++ normals b.
Proof. apply List.filter_app. Qed.
Lemma components_join p q :
  p_abs q = false → p_parts p ≠ [] ∨ p_abs p = true →
  components (join_path p q) = components p ++ normals (p_parts q) ∧ p_abs (join_path p q) = p_abs p.
Proof.
  intros Hq Hp. unfold join_path. rewrite Hq.
  replace (bool_decide (p_parts p = []) && negb (p_abs p)) with false.
  2: { symmetry. apply andb_false_iff. destruct Hp as [Hp| ->]; [left; by apply bool_decide_eq_false|by right]. }
  split; [|done]. unfold components. cbn [p_parts p_abs].
  set (qs := if bool_decide (p_parts q = []) then [CurDir] else p_parts q).
  assert (normals qs = normals (p_parts q)) as Hqs. { unfold qs. case_bool_decide as Hb; [by rewrite Hb|done]. }
  rewrite <-Hqs. destruct (p_parts p) as [|c cs].
  - destruct Hp as [|Ha]; [done|]. cbn [app]. destruct qs as [|[n| |] l]; try done. by rewrite Ha.
  - destruct c as [n| |]; cbn -[normals].
    + apply (normals_app (Normal n :: cs)).
    + apply (normals_app (ParentDir :: cs)).
    + destruct (p_abs p); [|cbn; f_equal]; apply normals_app.
Qed.
Lemma strip_comps_app pre cs rest : strip_comps pre cs = Some rest ↔ cs = pre ++ rest.
Proof.
  revert cs. induction pre as [|a pre IH]; intros cs; simpl.
  - split; [by intros [= ->]|by intros ->].
  - destruct cs as [|b cs]; simpl; [split; [done|intros H; done]|].
    case_bool_decide as Hab.
    + rewrite IH. subst. split; [by intros ->|by intros [= ->]].
    + split; [done|]. intros [= -> ->]. done.
Qed.
