(* ===== verification/Workspace.v ===== *)
(** * The workspace of an agent

    The file tools of an agent, from [agent/workspace.rs], with the V4A patch
    tool on top of [Patch] and the code-smell notes of [tools/code_smell.rs].
    The operations run in the state-and-error monad [Io] over the file system
    of [Files]. *)
From S2P Require Import Prelude Json Files Patch.

(** [anyhow::Error]: a message, an error of the system, or one with context. *)
Inductive Error := Bail (msg : str) | Os | Context (msg : str) (e : Error).

Definition Io (A : Type) : Type := Fs → Fs * result Error A.
#[export] Instance io_ret : MRet Io := λ A a fs, (fs, Ok a).
#[export] Instance io_bind : MBind Io := λ A B f m fs,
  match m fs with
  | (fs', Ok a) => f a fs'
  | (fs', Err e) => (fs', Err e)
  end.
Definition bail {A} (msg : str) : Io A := λ fs, (fs, Err (Bail msg)).
Definition gets {A} (f : Fs → A) : Io A := λ fs, (fs, Ok (f fs)).
Definition lift {A} (r : result Error A) : Io A := λ fs, (fs, r).
(** A system call that changes the file system, or fails. *)
Definition sys (f : Fs → option Fs) : Io () := λ fs,
  match f fs with Some fs' => (fs', Ok ()) | None => (fs, Err Os) end.
Definition sys_dirs (p : Path) : Io () := λ fs,
  match create_dir_all fs p with (fs', true) => (fs', Ok ()) | (fs', false) => (fs', Err Os) end.
Definition context {A} (msg : str) (m : Io A) : Io A := λ fs,
  match m fs with (fs', Err e) => (fs', Err (Context msg e)) | r => r end.
Definition quote (s : str) : str := bs "'" ++ s ++ bs "'".

(** ** Code smells *)

Definition Rule : Type := str * str * str.
Definition rule (needle excl label : string) : Rule := (bs needle, bs excl, bs label).

(* @src opex-core/src/tools/code_smell.rs 6-14 PY *)
Definition PY : list Rule := [
  rule "eval(" "" "eval"; rule "exec(" "" "exec"; rule "pickle.load" "" "pickle.load";
  rule "yaml.load(" "loader=" "yaml.load-unsafe"; rule "os.system(" "" "os.system";
  rule "shell=true" "" "subprocess-shell"; rule "verify=false" "" "tls-verify-off" ].
(* @src opex-core/src/tools/code_smell.rs 15-20 JS *)
Definition JS : list Rule := [
  rule "eval(" "" "eval"; rule "dangerouslysetinnerhtml" "" "dangerouslySetInnerHTML";
  rule "child_process.exec(" "" "child_process.exec"; rule "new function(" "" "new-Function" ].
(* @src opex-core/src/tools/code_smell.rs 21-25 SH *)
Definition SH : list Rule := [
  rule "| sh" "" "pipe-to-sh"; rule "| bash" "" "pipe-to-sh"; rule "rm -rf /" "" "rm-root" ].

Section smell.
(** [str::to_lowercase], by the tables of Unicode. *)
Context (to_lowercase : str → str).

(* @src opex-core/src/tools/code_smell.rs 27-42 rules_for *)
Definition rules_for (filename : str) : list Rule :=
  let lower := to_lowercase filename in
  if ends_with (bs ".py") lower then PY
  else if ends_with (bs ".js") lower || ends_with (bs ".ts") lower ||
          ends_with (bs ".tsx") lower || ends_with (bs ".jsx") lower then JS
  else if ends_with (bs ".sh") lower || ends_with (bs ".bash") lower then SH
  else [].

(* @src opex-core/src/tools/code_smell.rs 44-53 scan_written *)
Definition scan_written (filename content : str) : list str :=
  let lower := to_lowercase content in
  fold_left (λ out '(needle, excl, label),
    if contains needle lower && (bool_decide (excl = []) || negb (contains excl lower))
       && negb (bool_decide (label ∈ out))
    then out ++ [label] else out)
    (rules_for filename) [].

(* @src opex-core/src/tools/code_smell.rs 56-66 warning_for *)
Definition warning_for (filename content : str) : str :=
  let labels := scan_written filename content in
  if bool_decide (labels = []) then [] else
  LF :: bs "⚠ Security note: potentially unsafe patterns (" ++ join (bs ", ") labels ++
  bs "). Review before relying on it.".
End smell.

(** ** Names and roles *)

(* @src opex-core/src/agent/workspace.rs 79-81 agent_dir *)
Definition agent_dir (workspace_dir agent_name : str) : Path :=
  join_path (join_path (path_of workspace_dir) (path_of (bs "agents"))) (path_of agent_name).

(* @src opex-core/src/agent/workspace.rs 135-135 READ_ONLY_FILES *)
Definition READ_ONLY_FILES : list str := [bs "AGENTS.md"].
(* @src opex-core/src/agent/workspace.rs 138-138 PRIVILEGED_ROOT_FILES *)
Definition PRIVILEGED_ROOT_FILES : list str := [bs "TOOLS.md"].
(* @src opex-core/src/agent/workspace.rs 147-147 IDENTITY_FILES *)
Definition IDENTITY_FILES : list str := [bs "SOUL.md"; bs "IDENTITY.md"; bs "MEMORY.md"; bs "HEARTBEAT.md"; bs "SELF.md"].

(* @src opex-core/src/agent/workspace.rs 153-158 file_basename *)
Definition file_basename (path : str) : result Error str :=
  ok_or (Bail (bs "invalid file path: no basename for " ++ path)) (file_name (path_of path)).

(** [canonicalize(dir).unwrap_or(dir)] *)
Definition canonical_or (fs : Fs) (p : Path) : Path :=
  match canonicalize fs p with Some c => abs_path c | None => p end.

(* @src opex-core/src/agent/workspace.rs 164-201 is_read_only *)
Definition is_read_only (fs : Fs) (workspace_dir : str) (resolved : Path) (base : bool) : bool :=
  let root := canonical_or fs (path_of workspace_dir) in
  if existsb (λ name, path_eqb resolved (join_path root (path_of name))) READ_ONLY_FILES then true else
  if negb base && existsb (λ name, path_eqb resolved (join_path root (path_of name))) PRIVILEGED_ROOT_FILES
  then true else
  if bool_decide (file_name resolved = Some (bs "SELF.md")) then true else
  if base && bool_decide (file_name resolved = Some (bs "SOUL.md") ∨
       file_name resolved = Some (bs "IDENTITY.md") ∨ file_name resolved = None) then true else
  if path_starts_with resolved (join_path root (path_of (bs "tools"))) then negb base else
  false.

(* @src opex-core/src/agent/workspace.rs 770-770 SHARED_ROOT_FILES *)
Definition SHARED_ROOT_FILES : list str := [bs "USER.md"; bs "AGENTS.md"; bs "TOOLS.md"; bs "SYSTEM_TOOLS.md"].
(* @src opex-core/src/agent/workspace.rs 773-773 SHARED_ROOT_DIRS *)
Definition SHARED_ROOT_DIRS : list str := [bs "tools"; bs "skills"; bs "mcp"; bs "uploads"].
(* @src opex-core/src/agent/workspace.rs 779-781 ROOT_DIRS *)
Definition ROOT_DIRS : list str :=
  [bs "agents"; bs "tools"; bs "skills"; bs "mcp"; bs "uploads"; bs "toolgate"; bs "channels"].
(* @src opex-core/src/agent/workspace.rs 821-821 ALLOWED_EXTERNAL_PREFIXES *)
Definition ALLOWED_EXTERNAL_PREFIXES : list str := [bs "docker"; bs "toolgate"; bs "browser-renderer"].
Definition mem (x : str) (l : list str) : bool := bool_decide (x ∈ l).

(** [trim_start_matches] for a text pattern. *)
Definition trim_start_matches (pat s : str) : str := strip_all [pat] (length s) s.
(* @src opex-core/src/agent/workspace.rs 764-766 validate_workspace_path_inner *)
Definition normalize_name (filename : str) : str :=
  trim_start_matches (bs "/") (trim_start_matches (bs "workspace/") filename).

Section workspace.
Context (to_lowercase : str → str).
(** [shared_writable_dirs()], set once from the configuration. *)
Context (shared_dirs : list str).
Context (workspace_dir agent_name : str).
Implicit Types (filename : str) (fs : Fs).

Definition root : Path := path_of workspace_dir.

(** Where a name is looked up. *)
(* @src opex-core/src/agent/workspace.rs 764-816 validate_workspace_path_inner *)
Definition place fs filename (allow_read_any : bool) : Path :=
  let normalized := normalize_name filename in
  let at_root := join_path root (path_of normalized) in
  let at_agent := join_path (agent_dir workspace_dir agent_name) (path_of normalized) in
  if contains (bs "/") normalized then
    let first_component := default [] (head (split_on "/" normalized)) in
    if mem first_component ROOT_DIRS || mem first_component SHARED_ROOT_FILES || mem first_component shared_dirs
    then at_root else at_agent
  else if mem normalized SHARED_ROOT_FILES || mem normalized SHARED_ROOT_DIRS || mem normalized shared_dirs
  then at_root
  else if allow_read_any && exists_ fs at_root then at_root
  else at_agent.

(** The canonical target lies in the workspace or in an allowed directory
    next to it. *)
(* @src opex-core/src/agent/workspace.rs 824-834 validate_workspace_path_inner *)
Definition reachable_target fs (canonical : list str) : bool :=
  let ws_canonical := canonical_or fs root in
  let outer := default ws_canonical (parent ws_canonical) in
  path_starts_with (abs_path canonical) ws_canonical ||
  existsb (λ prefix, path_starts_with (abs_path canonical) (join_path outer (path_of prefix)))
    ALLOWED_EXTERNAL_PREFIXES.

(** The directory whitelist of write access. *)
Definition comp_str (c : Comp) : str :=
  match c with Normal n => n | ParentDir => bs ".." | CurDir => bs "." end.
(* @src opex-core/src/agent/workspace.rs 874-907 validate_workspace_path_inner *)
Definition may_write filename (relative : list Comp) : result Error () :=
  let first := from_option comp_str [] (head relative) in
  if (length relative =? 1) && negb (bool_decide (first = [])) then Ok () else
  if bool_decide (first = bs "agents") then
    let own_dir := join_path (path_of (bs "agents")) (path_of agent_name) in
    if path_starts_with (mkPath false relative) own_dir then Ok ()
    else Err (Bail (bs "access denied: cannot write to another agent's directory (" ++ quote filename ++ bs ")"))
  else if mem first [bs "tools"; bs "skills"; bs "mcp"; bs "uploads"; bs "toolgate"; bs "channels"]
    || mem first shared_dirs then Ok ()
  else Err (Bail (bs "access denied: writing to " ++ quote first ++ bs " is not permitted")).

(** The checks on the place, in the order of the code. *)
(* @src opex-core/src/agent/workspace.rs 818-909 validate_workspace_path_inner *)
Definition check_place fs filename (allow_read_any : bool) (resolved : Path) : result Error Path :=
  if exists_ fs resolved && match canonicalize fs resolved with
                            | Some c => negb (reachable_target fs c) | None => false end
  then Err (Bail (bs "path traversal via symlink denied: " ++ quote filename ++ bs " resolves outside workspace"))
  else if existsb is_parent (components resolved)
  then Err (Bail (bs "path traversal denied: " ++ quote filename ++ bs " contains '..' component"))
  else if negb (exists_ fs resolved) &&
    match parent resolved with
    | Some p => match canonicalize fs p with Some c => negb (reachable_target fs c) | None => false end
    | None => false
    end
  then Err (Bail (bs "path traversal denied: parent of " ++ quote filename ++ bs " resolves outside workspace"))
  else
    let relative := default [] (strip_path resolved root) in
    if existsb is_parent relative
    then Err (Bail (bs "path traversal denied: " ++ quote filename ++ bs " is outside workspace"))
    else if allow_read_any then Ok resolved
    else _ ← may_write filename relative; Ok resolved.

(* @src opex-core/src/agent/workspace.rs 753-910 validate_workspace_path_inner *)
Definition validate_workspace_path_inner filename (allow_read_any : bool) : Io Path :=
  _ ← (λ fs, ((create_dir_all fs (agent_dir workspace_dir agent_name)).1, Ok ()));
  r ← gets (λ fs, check_place fs filename allow_read_any (place fs filename allow_read_any));
  lift r.
(* @src opex-core/src/agent/workspace.rs 732-738 validate_workspace_path *)
Definition validate_workspace_path filename : Io Path := validate_workspace_path_inner filename false.
(* @src opex-core/src/agent/workspace.rs 741-747 validate_workspace_path_read *)
Definition validate_workspace_path_read filename : Io Path := validate_workspace_path_inner filename true.

(** ** The operations *)

Fixpoint crlf_to_lf (s : str) : str :=
  match s with
  | [] => []
  | c :: rest =>
      match rest with
      | d :: rest' =>
          if bool_decide (c = ascii_of_nat 13) && bool_decide (d = LF) then LF :: crlf_to_lf rest'
          else c :: crlf_to_lf rest
      | [] => [c]
      end
  end.

(* @src opex-core/src/agent/workspace.rs 913-922 read_workspace_file *)
Definition read_workspace_file filename : Io str :=
  path ← validate_workspace_path_read filename;
  content ← gets (λ fs, read_to_string fs path);
  content ← lift (ok_or Os content);
  mret (crlf_to_lf content).

(** The path of which write access is decided: the canonical parent and the
    file name, or what a link of that name leads to. *)
(* @src opex-core/src/agent/workspace.rs 615-628 write_workspace_file *)
Definition check_path filename (path dir : Path) : Io Path :=
  dir_canon ← gets (λ fs, canonicalize fs dir);
  dir_canon ← lift (ok_or (Context (quote filename ++ bs " escapes workspace or cannot be resolved") Os) dir_canon);
  file ← lift (ok_or (Bail (bs "path has no filename")) (file_name path));
  let candidate := join_path (abs_path dir_canon) (mkPath false [Normal file]) in
  gets (λ fs, if is_symlink fs candidate then canonical_or fs candidate else candidate).

(* @src opex-core/src/agent/workspace.rs 629-637 write_workspace_file *)
(** The target stays inside the workspace and is not read-only. *)
Definition guard_target filename (target : Path) (base : bool) : Io () :=
  ws_canon ← gets (λ fs, canonical_or fs root);
  if negb (path_starts_with target ws_canon) then bail (quote filename ++ bs " resolves outside workspace") else
  ro ← gets (λ fs, is_read_only fs workspace_dir target base);
  if ro : bool then bail (quote filename ++ bs " is read-only and cannot be modified") else
  mret ().

(* @src opex-core/src/agent/workspace.rs 601-642 write_workspace_file *)
Definition write_workspace_file filename (content : str) (base : bool) : Io () :=
  path ← validate_workspace_path filename;
  dir ← lift (ok_or (Bail (bs "path has no parent")) (parent path));
  _ ← sys_dirs dir;
  target ← check_path filename path dir;
  _ ← guard_target filename target base;
  sys (λ fs, write fs path content).

(* @src opex-core/src/agent/workspace.rs 1038-1091 edit_workspace_file *)
Definition edit_workspace_file filename (old_text new_text : str) (base : bool) : Io () :=
  path ← validate_workspace_path filename;
  dir ← lift (ok_or (Bail (bs "path has no parent")) (parent path));
  target ← check_path filename path dir;
  _ ← guard_target filename target base;
  raw ← gets (λ fs, read_to_string fs path);
  raw ← lift (ok_or Os raw);
  let content := crlf_to_lf raw in
  match find_sub old_text content with
  | None => bail (bs "old_text not found in file " ++ quote filename)
  | Some i =>
      sys (λ fs, write fs path (take i content ++ new_text ++ drop (i + length old_text) content))
  end.

(* @src opex-core/src/agent/workspace.rs 926-952 delete_workspace_file *)
Definition delete_workspace_file filename : Io () :=
  path ← validate_workspace_path filename;
  ro ← gets (λ fs, is_read_only fs workspace_dir path false);
  let protected : Io () := bail (quote filename ++ bs " is a protected file and cannot be deleted") in
  if ro : bool then protected else
  name ← lift (file_basename filename);
  if mem name IDENTITY_FILES then protected else
  dir ← gets (λ fs, is_dir fs path);
  if dir : bool
  then context (bs "failed to remove directory " ++ quote filename) (sys (λ fs, remove_dir_all fs path))
  else context (bs "file " ++ quote filename ++ bs " not found") (sys (λ fs, remove_file fs path)).

(* @src opex-core/src/agent/workspace.rs 962-969 rename_workspace_file *)
Definition pinned (label p : str) : Io () :=
  name ← lift (file_basename p);
  if mem name IDENTITY_FILES
  then bail (quote p ++ bs " (" ++ label ++ bs ") is a protected identity file and cannot be renamed")
  else mret ().

(* @src opex-core/src/agent/workspace.rs 956-991 rename_workspace_file *)
Definition rename_workspace_file (old_path new_path : str) : Io () :=
  _ ← pinned (bs "old_path") old_path;
  _ ← pinned (bs "new_path") new_path;
  src ← validate_workspace_path old_path;
  dst ← validate_workspace_path new_path;
  _ ← match parent dst with Some dir => sys_dirs dir | None => mret () end;
  renamed ← gets (λ fs, rename fs src dst);
  match renamed with
  | Some fs' => (λ _, (fs', Ok ())) : Io ()
  | None =>
      dir ← gets (λ fs, is_dir fs src);
      if dir : bool then bail (bs "cannot move directories across mount points") else
      _ ← context (bs "failed to copy " ++ quote old_path ++ bs " to " ++ quote new_path)
            (sys (λ fs, copy fs src dst));
      context (bs "failed to remove source " ++ quote old_path) (sys (λ fs, remove_file fs src))
  end.

(** ** Patches *)

(* @src opex-core/src/agent/workspace.rs 646-652 PatchOutcome *)
Record PatchOutcome := mkPatchOutcome {
  updated : list str; added : list str; hunks : nat; warnings : str }.
Definition no_outcome : PatchOutcome := mkPatchOutcome [] [] 0 [].

Record Staged := mkStaged { s_seen : list str; s_writes : list (str * str); s_outcome : PatchOutcome }.

Definition op_path (op : FileOp) : str := match op with Update path _ | Add path _ => path end.

(** Phase 1 for one section: its new content, computed in memory. *)
(* @src opex-core/src/agent/workspace.rs 679-713 apply_v4a_patch *)
Definition stage_op (base : bool) (st : Staged) (op : FileOp) : Io Staged :=
  let path := op_path op in
  let o := s_outcome st in
  if mem path (s_seen st) then bail (bs "duplicate file section for " ++ quote path ++ bs " in one patch") else
  resolved ← validate_workspace_path path;
  ro ← gets (λ fs, is_read_only fs workspace_dir resolved base);
  if ro : bool then bail (quote path ++ bs " is read-only and cannot be modified") else
  '(content, o) ← match op with
    | Update _ hs =>
        original ← context (bs "cannot read " ++ quote path ++ bs " to update") (read_workspace_file path);
        new_content ← lift (match apply_hunks original hs with
                            | Ok c => Ok c | Err e => Err (Bail (quote path ++ bs ": " ++ e)) end);
        mret (new_content, mkPatchOutcome (updated o ++ [path]) (added o) (hunks o + length hs) (warnings o))
    | Add _ content =>
        there ← gets (λ fs, exists_ fs resolved);
        if there : bool then bail (quote path ++ bs " already exists — use Update File") else
        mret (content, mkPatchOutcome (updated o) (added o ++ [path]) (hunks o) (warnings o))
    end;
  mret (mkStaged (path :: s_seen st) (s_writes st ++ [(path, content)])
    (mkPatchOutcome (updated o) (added o) (hunks o) (warnings o ++ warning_for to_lowercase path content))).

(* @src opex-core/src/agent/workspace.rs 679-713 apply_v4a_patch *)
Fixpoint stage_ops (base : bool) (st : Staged) (ops : list FileOp) : Io Staged :=
  match ops with
  | [] => mret st
  | op :: rest => st ← stage_op base st op; stage_ops base st rest
  end.

(** Phase 2: the writes in order, up to the first that fails. *)
(* @src opex-core/src/agent/workspace.rs 715-717 apply_v4a_patch *)
Fixpoint write_all (base : bool) (writes : list (str * str)) : Io () :=
  match writes with
  | [] => mret ()
  | (filename, content) :: rest => _ ← write_workspace_file filename content base; write_all base rest
  end.

(* @src opex-core/src/agent/workspace.rs 664-719 apply_v4a_patch *)
Definition apply_v4a_patch (patch : str) (base : bool) : Io PatchOutcome :=
  ops ← lift (match parse_patch patch with
              | Ok ops => Ok ops | Err e => Err (Bail (bs "patch parse error: " ++ e)) end);
  st ← stage_ops base (mkStaged [] [] no_outcome) ops;
  _ ← write_all base (s_writes st);
  mret (s_outcome st).
End workspace.

(** ** Lemmas on the operations *)

Lemma bind_Ok {A B} (m : Io A) (f : A → Io B) fs fs' b :
  (m ≫= f) fs = (fs', Ok b) → ∃ fs1 a, m fs = (fs1, Ok a) ∧ f a fs1 = (fs', Ok b).
Proof. unfold mbind, io_bind. destruct (m fs) as [fs1 [a|e]]; [eauto|done]. Qed.

(** Split a run that answered into the runs of its steps. *)
Ltac io_inv H :=
  let fs := fresh "fs" in let a := fresh "a" in let Ha := fresh "Hrun" in
  apply bind_Ok in H as (fs & a & Ha & H).

Lemma strip_path_Some p base rel :
  strip_path p base = Some rel ↔ p_abs p = p_abs base ∧ components p = components base ++ rel.
Proof. unfold strip_path. case_bool_decide; rewrite ?strip_comps_app; naive_solver. Qed.

Lemma components_abs names : components (abs_path names) = Normal <$> names.
Proof. unfold components, abs_path; simpl. destruct names as [|n names]; [done|]. simpl. f_equal.
  induction names as [|x names IH]; simpl; [done|]. by rewrite IH. Qed.
Lemma below_spec d n : below d n = true ↔ ∃ rest, n = d ++ rest.
Proof.
  revert n. induction d as [|a d IH]; intros n; simpl; [naive_solver|].
  destruct n as [|b n]; [split; [done|by intros [? [=]]]|].
  rewrite andb_true_iff, bool_decide_eq_true, IH. naive_solver.
Qed.
Lemma starts_with_below d n : path_starts_with (abs_path n) (abs_path d) = true → below d n = true.
Proof.
  unfold path_starts_with. destruct (strip_path _ _) as [rest|] eqn:Hs; [|done]. intros _.
  apply strip_path_Some in Hs as [_ Hs]. rewrite !components_abs in Hs. apply below_spec.
  symmetry in Hs. exists (drop (length d) n).
  assert (take (length d) n = d) as Ht.
  { apply (f_equal (take (length d))) in Hs. rewrite take_app_length' in Hs by (by rewrite length_fmap).
    rewrite <- fmap_take in Hs. symmetry in Hs.
    assert (Inj (=) (=) Normal) by (intros ?? [= ->]; done). by apply (list_fmap_eq_inj _) in Hs. }
  rewrite <- Ht at 1. by rewrite take_drop.
Qed.

(** Every link leads somewhere. *)
Definition no_dangling (fs : Fs) : Prop :=
  ∀ n target, node fs n = Some (Link target) → is_Some (canonicalize fs (abs_path n)).

Lemma canonicalize_grows fs fs' p c : grows fs fs' → canonicalize fs p = Some c → canonicalize fs' p = Some c.
Proof.
  intros Hg. unfold canonicalize, resolve, start_dir. destruct Hg as (Hc & Hr). rewrite Hc.
  case_match; [done|]. by apply walk_grows.
Qed.
Lemma no_dangling_grows fs fs' : grows fs fs' → no_dangling fs → no_dangling fs'.
Proof.
  intros Hg Hd n target Hn. pose proof Hg as (Hc & Hk & Hnew).
  destruct (node fs n) as [x|] eqn:Hx; [|destruct (Hnew n Hx); congruence].
  rewrite (Hk _ _ Hx) in Hn. simplify_eq. destruct (Hd _ _ Hx) as [c Hcan].
  exists c. exact (canonicalize_grows _ _ _ _ Hg Hcan).
Qed.

Lemma last_Some_removelast {A} (l : list A) x : last l = Some x → l = removelast l ++ [x].
Proof.
  induction l as [|y l IH]; [done|]. destruct l as [|z l].
  - by intros [= ->].
  - intros H. change (y :: z :: l = y :: (removelast (z :: l) ++ [x])). f_equal. by apply IH.
Qed.

Lemma entry_abs fs d n : settled fs d → entry fs (abs_path (d ++ [n])) = Some (d ++ [n]).
Proof.
  intros Hs. unfold entry, abs_path, start_dir. cbn [p_parts p_abs].
  rewrite fmap_app. cbn [fmap list_fmap]. rewrite last_snoc, removelast_last.
  pose proof (walk_settled fs false MAXSYMLINKS [] d [] Hs) as Hw. rewrite app_nil_r in Hw.
  rewrite Hw, walk_nil. cbn [mbind option_bind]. by rewrite settled_dir.
Qed.

(** What [check_path] decides on is what [fs::write] writes. *)
Lemma check_path_target filename p dir fs fs' target c :
  settled fs (fs_cwd fs) → no_dangling fs → parent p = Some dir →
  check_path filename p dir fs = (fs', Ok target) →
  resolve fs true p = Some c → node fs c ≠ Some Dir →
  fs' = fs ∧ target = abs_path c.
Proof.
  intros Hcwd Hnd Hpar Hchk Hw Hdir. unfold check_path in Hchk.
  io_inv Hchk. injection Hrun as <- <-. io_inv Hchk.
  destruct (canonicalize fs dir) as [d|] eqn:Hd; [|done]. injection Hrun as <- <-.
  io_inv Hchk. destruct (file_name p) as [n|] eqn:Hn; [|done]. injection Hrun as <- <-.
  injection Hchk as <- <-. split; [done|].
  unfold file_name in Hn. destruct (last (components p)) as [[m| |]|] eqn:Hl; try done.
  injection Hn as ->. apply last_Some_removelast in Hl.
  unfold parent in Hpar. case_bool_decide as Hnil; [done|]. injection Hpar as <-.
  assert (settled fs (start_dir fs p)) as Hst by (unfold start_dir; destruct (p_abs p); [apply settled_nil|done]).
  unfold resolve in Hw. case_match; [done|]. apply (walk_trims _ _ _ _ _ _ _ (trims_components p)) in Hw.
  rewrite Hl in Hw. apply walk_app in Hw as (e & j & Hj & He & Hwe & Hwn); [|done|done].
  unfold canonicalize, resolve in Hd. cbn [p_abs p_parts] in Hd. case_match; [done|].
  change (start_dir fs {| p_abs := p_abs p; p_parts := removelast (components p) |}) with (start_dir fs p) in Hd.
  rewrite Hwe in Hd. injection Hd as ->.
  replace (join_path (abs_path d) (mkPath false [Normal n])) with (abs_path (d ++ [n])).
  2: { unfold join_path, abs_path; cbn. by rewrite andb_false_r, fmap_app. }
  unfold is_symlink. rewrite entry_abs by done. cbn [mbind option_bind].
  rewrite walk_cons in Hwn. destruct (node fs (d ++ [n])) as [[x| |t]|] eqn:Hnode.
  - rewrite bool_decide_eq_true_2 in Hwn by done. congruence.
  - rewrite walk_nil in Hwn. congruence.
  - destruct j as [|j]; [done|]. unfold canonical_or.
    destruct (Hnd _ _ Hnode) as [c' Hc']. rewrite Hc'. f_equal.
    unfold canonicalize, resolve in Hc'. cbn [abs_path p_abs p_parts negb andb] in Hc'.
    unfold start_dir in Hc'. cbn [p_abs] in Hc'. rewrite fmap_app, walk_settled in Hc' by done.
    cbn [p_abs abs_path fmap list_fmap app] in Hc'. rewrite walk_cons, Hnode in Hc'.
    unfold MAXSYMLINKS in Hc'. apply walk_create in Hc'. rewrite app_nil_r in *.
    apply (walk_links _ _ j 39) in Hwn; [|unfold MAXSYMLINKS in Hj; lia]. congruence.
  - simpl in Hwn. by injection Hwn as <-.
Qed.

Lemma sys_dirs_grows p fs fs' : sys_dirs p fs = (fs', Ok ()) → grows fs fs'.
Proof.
  unfold sys_dirs. pose proof (create_dir_all_grows fs p). destruct (create_dir_all fs p) as [f []]; [|done].
  by intros [= <-].
Qed.

Section lemmas.
Context (to_lowercase : str → str) (shared_dirs : list str) (workspace_dir agent_name : str).
Implicit Types (filename : str) (fs : Fs).
#[local] Abbreviation root := (root workspace_dir).
#[local] Abbreviation validate_workspace_path := (validate_workspace_path shared_dirs workspace_dir agent_name).
#[local] Abbreviation write_workspace_file := (write_workspace_file shared_dirs workspace_dir agent_name).
#[local] Abbreviation delete_workspace_file := (delete_workspace_file shared_dirs workspace_dir agent_name).

Lemma validate_grows filename read fs :
  grows fs (validate_workspace_path_inner shared_dirs workspace_dir agent_name filename read fs).1.
Proof.
  unfold validate_workspace_path_inner. cbv [mbind io_bind gets lift].
  destruct (check_place _ _ _ _ _ _ _); apply create_dir_all_grows.
Qed.

(** What a directory whitelist admits, relative to the workspace. *)
Definition admitted (rel : list Comp) : Prop :=
  (∃ c, rel = [c]) ∨
  path_starts_with (mkPath false rel) (join_path (path_of (bs "agents")) (path_of agent_name)) = true ∨
  ∃ d rest, rel = Normal d :: rest ∧ d ≠ bs "agents" ∧
    d ∈ [bs "tools"; bs "skills"; bs "mcp"; bs "uploads"; bs "toolgate"; bs "channels"] ++ shared_dirs.

Lemma may_write_admitted filename rel :
  [] ∉ shared_dirs → bs ".." ∉ shared_dirs → bs "." ∉ shared_dirs →
  may_write shared_dirs agent_name filename rel = Ok () → rel ≠ [] ∧ admitted rel.
Proof.
  intros Hs Hp Hc. unfold may_write. destruct rel as [|c rest].
  - cbn [head from_option length Nat.eqb andb]. rewrite bool_decide_eq_false_2 by done.
    replace (mem [] _) with false by (vm_compute; reflexivity).
    cbn [orb]. unfold mem. by rewrite bool_decide_eq_false_2.
  - cbn [head from_option length]. intros H. split; [done|].
    destruct rest as [|c' rest]; [left; eauto|]. cbn [length Nat.eqb andb] in H.
    case_bool_decide as Ha.
    + right; left. cbv zeta in H. destruct (path_starts_with _ _); [done|discriminate H].
    + right; right. destruct (mem (comp_str c) _) eqn:H2 in H; cbn [orb] in H.
      * apply bool_decide_eq_true in H2. destruct c as [d| |];
          [|exfalso; revert H2; apply (bool_decide_unpack _); vm_compute; exact I..].
        exists d, (c' :: rest). split_and!; [done|done|]. apply elem_of_app. by left.
      * destruct (mem (comp_str c) shared_dirs) eqn:H3; [|done]. apply bool_decide_eq_true in H3.
        destruct c as [d| |]; [|done|done]. exists d, (c' :: rest). split_and!; [done|done|].
        apply elem_of_app. by right.
Qed.

(** *** Operations that at most make the agent's directory *)
Definition make_dir fs : Fs := (create_dir_all fs (agent_dir workspace_dir agent_name)).1.
(** [fs'] is [fs] after any number of attempts to make that directory, which
    is what validating names does to a file system. *)
Definition prepared fs fs' : Prop := ∃ k, fs' = Nat.iter k make_dir fs.
#[local] Instance prepared_preorder : PreOrder prepared.
Proof.
  split; [by intros fs; exists 0|]. intros fs1 fs2 fs3 [k ->] [k' ->]. exists (k' + k). by rewrite Nat.iter_add.
Qed.
Lemma prepared_grows fs fs' : prepared fs fs' → grows fs fs'.
Proof.
  intros [k ->]. induction k as [|k IH]; [reflexivity|]. etrans; [exact IH|apply create_dir_all_grows].
Qed.
Definition preparing {A} (m : Io A) : Prop := ∀ fs, prepared fs (m fs).1.
Lemma preparing_bind {A B} (m : Io A) (f : A → Io B) :
  preparing m → (∀ a, preparing (f a)) → preparing (m ≫= f).
Proof.
  intros Hm Hf fs. unfold mbind, io_bind. specialize (Hm fs). destruct (m fs) as [fs1 [a|e]]; [|exact Hm].
  etrans; [exact Hm|apply Hf].
Qed.
Lemma preparing_bail {A} msg : preparing (bail (A:=A) msg).
Proof. intros fs. reflexivity. Qed.
Lemma preparing_gets {A} (f : Fs → A) : preparing (gets f).
Proof. intros fs. reflexivity. Qed.
Lemma preparing_lift {A} (r : result Error A) : preparing (lift r).
Proof. intros fs. reflexivity. Qed.
Lemma preparing_ret {A} (a : A) : preparing (mret a).
Proof. intros fs. reflexivity. Qed.
Lemma preparing_context {A} msg (m : Io A) : preparing m → preparing (context msg m).
Proof. intros Hm fs. unfold context. specialize (Hm fs). by destruct (m fs) as [fs1 [a|e]]. Qed.
Ltac preparing_tac :=
  repeat first
    [ apply preparing_bind; [|intros ?] | apply preparing_context
    | apply preparing_bail | apply preparing_gets | apply preparing_lift | apply preparing_ret
    | match goal with |- preparing (match ?x with _ => _ end) => destruct x end
    | intros ?; by exists 1 ].

Lemma stage_op_preparing base st op :
  preparing (stage_op to_lowercase shared_dirs workspace_dir agent_name base st op).
Proof. unfold stage_op, read_workspace_file. preparing_tac. Qed.
Lemma stage_ops_preparing base ops st :
  preparing (stage_ops to_lowercase shared_dirs workspace_dir agent_name base st ops).
Proof.
  revert st. induction ops as [|op ops IH]; intros st; [intros fs; reflexivity|].
  apply preparing_bind; [apply stage_op_preparing|exact IH].
Qed.

(** What a section of a patch puts into its file, in a file system in which
    it can be applied: the name is accepted for writing and not read-only,
    the file of an update can be read and its hunks apply, the file of an
    addition does not exist. *)
Definition section_content base fs (op : FileOp) : option str :=
  let '(fs1, place) := validate_workspace_path (op_path op) fs in
  match place with
  | Err _ => None
  | Ok resolved =>
      if is_read_only fs1 workspace_dir resolved base then None else
      match op with
      | Update path hs =>
          match (read_workspace_file shared_dirs workspace_dir agent_name path fs1).2 with
          | Err _ => None
          | Ok original => match apply_hunks original hs with Ok c => Some c | Err _ => None end
          end
      | Add _ content => if exists_ fs1 resolved then None else Some content
      end
  end.
(** The content of a write is that of its section. *)
Definition staged base fs (op : FileOp) (w : str * str) : Prop :=
  w.1 = op_path op ∧ ∃ fs0, prepared fs fs0 ∧ section_content base fs0 op = Some w.2.
(** A section that cannot be applied after the sections [done]. *)
Definition unfit base fs (done : list FileOp) (op : FileOp) : Prop :=
  op_path op ∈ op_path <$> done ∨ ∃ fs0, prepared fs fs0 ∧ section_content base fs0 op = None.

Lemma staged_prepared base fs fs1 op w : prepared fs fs1 → staged base fs1 op w → staged base fs op w.
Proof. intros Hg (Hw & fs0 & Hg0 & Hc). split; [done|]. exists fs0. split; [by etrans|done]. Qed.
Lemma unfit_prepared base fs fs1 done op : prepared fs fs1 → unfit base fs1 done op → unfit base fs done op.
Proof. intros Hg [Hin|(fs0 & Hg0 & Hc)]; [by left|right]. exists fs0. split; [by etrans|done]. Qed.

Lemma stage_op_spec base st op fs :
  match (stage_op to_lowercase shared_dirs workspace_dir agent_name base st op fs).2 with
  | Ok st' => op_path op ∉ s_seen st ∧ s_seen st' = op_path op :: s_seen st ∧
      ∃ content, section_content base fs op = Some content ∧
        s_writes st' = s_writes st ++ [(op_path op, content)]
  | Err _ => op_path op ∈ s_seen st ∨ section_content base fs op = None
  end.
Proof.
  unfold stage_op, section_content. destruct (mem _ _) eqn:Hm.
  { apply bool_decide_eq_true in Hm. by left. }
  apply bool_decide_eq_false in Hm. cbv [mbind io_bind gets lift].
  destruct (validate_workspace_path (op_path op) fs) as [fs1 [resolved|e]]; [|by right].
  destruct (is_read_only _ _ _ _); [by right|]. destruct op as [path hs|path content]; cbn [op_path] in *.
  - unfold context. destruct (read_workspace_file _ _ _ path fs1) as [fs2 [original|e]]; cbn; [|by right].
    destruct (apply_hunks original hs) as [c|e]; cbn; [|by right]. eauto.
  - destruct (exists_ fs1 resolved); cbn; [by right|]. eauto.
Qed.

Lemma stage_ops_spec base ops st fs :
  match (stage_ops to_lowercase shared_dirs workspace_dir agent_name base st ops fs).2 with
  | Ok st' => ∃ writes, s_writes st' = s_writes st ++ writes ∧ Forall2 (staged base fs) ops writes ∧
      NoDup (op_path <$> ops) ∧ (∀ x, x ∈ s_seen st → x ∉ op_path <$> ops)
  | Err _ => ∃ before op after, ops = before ++ op :: after ∧
      (op_path op ∈ s_seen st ∨ unfit base fs before op)
  end.
Proof.
  revert st fs. induction ops as [|op ops IH]; intros st fs.
  { exists []. rewrite app_nil_r. split_and!; [done|constructor|constructor|set_solver]. }
  cbn [stage_ops]. unfold mbind, io_bind.
  pose proof (stage_op_spec base st op fs) as Hop. pose proof (stage_op_preparing base st op fs) as Hg.
  destruct (stage_op _ _ _ _ _ _ _ fs) as [fs1 [st1|e]]; cbn [fst snd] in *.
  2: { exists [], op, ops. split; [done|]. destruct Hop as [Hin|Hc]; [by left|]. right. right. by exists fs. }
  destruct Hop as (Hnew & Hseen & content & Hc & Hw). specialize (IH st1 fs1). rewrite Hseen in IH.
  destruct (stage_ops _ _ _ _ _ _ _ fs1) as [fs2 [st2|e]]; cbn [snd] in *.
  - destruct IH as (writes & Hw2 & Hf & Hnd & Hfree). exists ((op_path op, content) :: writes).
    rewrite Hw2, Hw, <- app_assoc. split_and!; [done| | |].
    + constructor; [split; [done|by exists fs]|]. eapply Forall2_impl; [exact Hf|]. intros. by eapply staged_prepared.
    + constructor; [apply Hfree; set_solver|done].
    + intros x Hx. cbn. rewrite not_elem_of_cons. split; [by intros ->|apply Hfree; set_solver].
  - destruct IH as (before & o & after & -> & Hun). exists (op :: before), o, after. split; [done|].
    destruct Hun as [Hin|Hun]; [|right; eapply unfit_prepared; [done|]; destruct Hun as [Hin|Hun]; [left; set_solver|by right]].
    apply elem_of_cons in Hin as [Heq|Hin]; [right; left; rewrite Heq; set_solver|by left].
Qed.

(** ** Properties *)

(** A name accepted for writing is a place in the workspace, with no
    [..] on the way, that is an entry of its root, in the agent's own
    directory, or in a directory shared for writing; in particular it is
    never a place inside the directory of another agent. *)
Theorem validated_write_confined filename fs fs' p :
  [] ∉ shared_dirs → bs ".." ∉ shared_dirs → bs "." ∉ shared_dirs →
  validate_workspace_path filename fs = (fs', Ok p) →
  ∃ rel, p_abs p = p_abs root ∧ components p = components root ++ rel ∧
    ParentDir ∉ components p ∧ rel ≠ [] ∧ admitted rel ∧
    (path_of agent_name = mkPath false [Normal agent_name] →
     ∀ other c rest, rel = Normal (bs "agents") :: Normal other :: c :: rest → other = agent_name).
Proof.
  intros Hs Hp Hc H. unfold Workspace.validate_workspace_path, validate_workspace_path_inner in H.
  io_inv H. io_inv H. injection Hrun0 as <- <-. injection H as <- H.
  unfold check_place in H. destruct (_ && _) in H; [done|].
  destruct (existsb is_parent (components _)) eqn:Hpar in H; [done|].
  destruct (_ && _) in H; [done|]. destruct (existsb is_parent (default _ _)) in H; [done|].
  set (q := place _ _ _ _ _ _) in *. set (rel := default [] (strip_path q _)) in *.
  destruct (may_write _ _ _ rel) as [[]|] eqn:Hm; [|done]. injection H as <-.
  destruct (may_write_admitted _ _ Hs Hp Hc Hm) as [Hne Had].
  destruct (strip_path q (Workspace.root workspace_dir)) as [r|] eqn:Hstrip; [|done].
  apply strip_path_Some in Hstrip as [Habs Hcomp]. exists r. split_and!; [done|done| |done|done|].
  - intros Hin. apply not_true_iff_false in Hpar. apply Hpar.
    apply existsb_exists. exists ParentDir. split; [by apply list_elem_of_In|done].
  - intros Hname other c rest ->. destruct Had as [[x Hx]|[Hown|(d & r & Hd & Hna & _)]]; [done| |].
    + unfold path_starts_with in Hown. destruct (strip_path _ _) as [own|] eqn:Hst in Hown; [|done].
      apply strip_path_Some in Hst as [_ Hst]. unfold join_path in Hst. rewrite Hname in Hst. cbn in Hst.
      by injection Hst as [= ->].
    + by injection Hd as <- _.
Qed.

(** C3: In a file system in which no symbolic link dangles (every link leads
    to something that exists) and the working directory is its own canonical
    name, a write that succeeds changes one file, which lies in the canonical
    workspace and is not read-only for the caller, even when links are
    followed on the way to it; everything else is as it was, but for new
    directories.  The links that dangle must be excluded: through one, a
    write leaves the workspace ([dangling_link_escapes]). *)
(* @prop safety defs=write_workspace_file,check_path,guard_target,is_read_only witness=write_lands_inside_witness *)
Theorem write_lands_inside filename content base fs fs' w :
  settled fs (fs_cwd fs) → no_dangling fs → canonicalize fs root = Some w →
  write_workspace_file filename content base fs = (fs', Ok ()) →
  ∃ fs1 c, grows fs fs1 ∧ fs' = put fs1 c (File content) ∧ below w c = true ∧
    is_read_only fs1 workspace_dir (abs_path c) base = false.
Proof.
  intros Hcwd Hnd Hw H. unfold Workspace.write_workspace_file in H.
  io_inv H. pose proof (validate_grows filename false fs) as Hg1.
  unfold Workspace.validate_workspace_path in Hrun. rewrite Hrun in Hg1. cbn [fst] in Hg1.
  io_inv H. unfold lift, ok_or in Hrun0. destruct (parent a) as [dir|] eqn:Hpar; [|done]. injection Hrun0 as <- <-.
  io_inv H. destruct a0. apply sys_dirs_grows in Hrun0 as Hg2.
  assert (grows fs fs1) as Hg by exact (transitivity Hg1 Hg2). clear Hg1 Hg2 Hrun Hrun0.
  io_inv H. io_inv H. destruct a1.
  assert (settled fs1 (fs_cwd fs1)) as Hst by (rewrite (proj1 Hg); exact (settled_grows _ _ _ Hg Hcwd)).
  unfold sys in H. destruct (write fs3 a content) as [f|] eqn:Hwr; [|done]. injection H as <-.
  assert (fs3 = fs2) as ->.
  { unfold guard_target in Hrun0. io_inv Hrun0. injection Hrun1 as <- <-.
    destruct (negb _) in Hrun0; [done|]. io_inv Hrun0. injection Hrun1 as <- <-.
    destruct (is_read_only _ _ _ _) in Hrun0; [done|]. by injection Hrun0. }
  unfold write in Hwr. apply bind_Some in Hwr as (c & Hc & Hwr).
  assert (fs2 = fs1) as ->.
  { unfold check_path in Hrun. io_inv Hrun. injection Hrun1 as <- <-. io_inv Hrun. injection Hrun1 as <- _.
    io_inv Hrun. injection Hrun1 as <- _. by injection Hrun. }
  assert (node fs1 c ≠ Some Dir ∧ f = put fs1 c (File content)) as [Hdir ->]
    by (destruct (node fs1 c) as [[]|]; by simplify_eq).
  destruct (check_path_target _ _ _ _ _ _ _ Hst (no_dangling_grows _ _ Hg Hnd) Hpar Hrun Hc Hdir) as [_ ->].
  exists fs1, c. split_and!; [done|done| |].
  - unfold guard_target in Hrun0. io_inv Hrun0. injection Hrun1 as <- <-.
    unfold canonical_or in Hrun0. rewrite (canonicalize_grows _ _ _ _ Hg Hw) in Hrun0.
    destruct (path_starts_with _ _) eqn:Hsw in Hrun0; [|done]. by apply starts_with_below.
  - unfold guard_target in Hrun0. io_inv Hrun0. injection Hrun1 as <- <-.
    destruct (negb _) in Hrun0; [done|]. io_inv Hrun0. injection Hrun1 as <- <-.
    by destruct (is_read_only _ _ _ _) in Hrun0 |- *.
Qed.

End lemmas.

(** ** The workspace of the service

    The service runs with the relative directory [workspace] (the constant
    [WORKSPACE_DIR] of [config/mod.rs]), so accepted names resolve to
    relative paths, while [is_read_only] compares with the canonical root. *)
(* @src opex-core/src/config/mod.rs 920-920 WORKSPACE_DIR *)
Definition WORKSPACE_DIR : str := bs "workspace".
Definition home (fs : Fs) : list str := fs_cwd fs ++ [WORKSPACE_DIR].

Section service.
Context (shared_dirs : list str) (agent_name : str).
#[local] Abbreviation delete_workspace_file := (delete_workspace_file shared_dirs WORKSPACE_DIR agent_name).
#[local] Abbreviation write_workspace_file := (write_workspace_file shared_dirs WORKSPACE_DIR agent_name).

(** The workspace is a directory of the working directory. *)
Definition served (fs : Fs) : Prop := settled fs (home fs).

Lemma served_cwd fs : served fs → settled fs (fs_cwd fs).
Proof. intros Hs. pose proof (settled_up _ _ Hs) as H. unfold home in H. by rewrite removelast_last in H. Qed.
Lemma home_grows fs fs' : grows fs fs' → home fs' = home fs.
Proof. intros (Hc & _). unfold home. by rewrite Hc. Qed.
Lemma served_grows fs fs' : grows fs fs' → served fs → served fs'.
Proof. intros Hg Hs. unfold served. rewrite (home_grows _ _ Hg). exact (settled_grows _ _ _ Hg Hs). Qed.

Lemma walk_home fs create todo :
  served fs → walk fs create MAXSYMLINKS (fs_cwd fs) (Normal WORKSPACE_DIR :: todo) =
              walk fs create MAXSYMLINKS (home fs) todo.
Proof. intros Hs. exact (walk_settled fs create MAXSYMLINKS (fs_cwd fs) [WORKSPACE_DIR] todo Hs). Qed.

Lemma root_home fs : served fs → canonical_or fs (root WORKSPACE_DIR) = abs_path (home fs).
Proof.
  intros Hs. unfold canonical_or.
  assert (canonicalize fs (root WORKSPACE_DIR) = Some (home fs)) as ->; [|done].
  change (walk fs false MAXSYMLINKS (fs_cwd fs) [Normal WORKSPACE_DIR] = Some (home fs)).
  by rewrite walk_home, walk_nil.
Qed.

Lemma starts_with_abs d n : path_starts_with (abs_path (d ++ n)) (abs_path d) = true.
Proof.
  unfold path_starts_with.
  assert (strip_path (abs_path (d ++ n)) (abs_path d) = Some (Normal <$> n)) as ->; [|done].
  apply strip_path_Some. rewrite !components_abs, fmap_app. done.
Qed.

Lemma home_reachable fs n : served fs → reachable_target WORKSPACE_DIR fs (home fs ++ n) = true.
Proof. intros Hs. unfold reachable_target. by rewrite root_home, starts_with_abs. Qed.

(** For a relative place the protection of the root and of [tools] is void. *)
Lemma relative_not_read_only fs p :
  served fs → p_abs p = false → file_name p ≠ Some (bs "SELF.md") →
  is_read_only fs WORKSPACE_DIR p false = false.
Proof.
  intros Hs Hp Hn. unfold is_read_only. fold (root WORKSPACE_DIR). rewrite root_home by done.
  assert (∀ s, path_eqb p (join_path (abs_path (home fs)) (path_of s)) = false) as Heq.
  { intros s. unfold path_eqb. rewrite Hp. unfold join_path. destruct (p_abs (path_of s)) eqn:Ha.
    - by rewrite Ha.
    - by rewrite andb_false_r. }
  cbn [existsb READ_ONLY_FILES PRIVILEGED_ROOT_FILES negb andb orb]. rewrite !Heq. cbn [orb].
  rewrite bool_decide_eq_false_2 by done. unfold path_starts_with, strip_path.
  rewrite Hp, bool_decide_eq_false_2; [done|]. unfold join_path, abs_path. simpl. by rewrite andb_false_r.
Qed.

Lemma validate_eq fs filename read :
  validate_workspace_path_inner shared_dirs WORKSPACE_DIR agent_name filename read fs =
  let fs1 := (create_dir_all fs (agent_dir WORKSPACE_DIR agent_name)).1 in
  (fs1, check_place shared_dirs WORKSPACE_DIR agent_name fs1 filename read
          (place shared_dirs WORKSPACE_DIR agent_name fs1 filename read)).
Proof. reflexivity. Qed.

(** A name of the root is accepted as it is. *)
Lemma root_name_accepted fs filename n cs :
  served fs → is_Some (node fs (home fs ++ [n])) →
  canonicalize fs (mkPath false (Normal WORKSPACE_DIR :: Normal n :: cs)) = Some (home fs ++ [n]) →
  normals cs = [] → n ≠ [] →
  check_place shared_dirs WORKSPACE_DIR agent_name fs filename false
    (mkPath false (Normal WORKSPACE_DIR :: Normal n :: cs)) =
  Ok (mkPath false (Normal WORKSPACE_DIR :: Normal n :: cs)).
Proof.
  intros Hs Hnode Hc Hcs Hn. set (p := mkPath _ _) in *.
  assert (components p = [Normal WORKSPACE_DIR; Normal n]) as Hcomp
    by (unfold p, components; cbn; unfold normals in Hcs; cbn; by rewrite Hcs).
  unfold check_place.
  assert (exists_ fs p = true) as -> by (apply bool_decide_eq_true; rewrite Hc; eauto).
  rewrite Hc, home_reachable by done. cbn [negb andb]. rewrite Hcomp. cbn [existsb is_parent orb].
  replace (strip_path p (root WORKSPACE_DIR)) with (Some [Normal n]).
  2: { symmetry. apply strip_path_Some. by rewrite Hcomp. }
  cbn [default existsb is_parent orb]. unfold may_write. cbn. by rewrite bool_decide_eq_false_2.
Qed.

(** Any agent can delete the directories of all agents: the name
    [agents/] is a single component below the workspace, which the directory
    whitelist takes for a file of the root, and nothing protects it. *)
Theorem agents_root_deletable fs :
  served fs → node fs (home fs ++ [bs "agents"]) = Some Dir →
  ∃ fs', delete_workspace_file (bs "agents/") fs = (fs', Ok ()) ∧
    ∀ rest, fs_nodes fs' !! (home fs ++ bs "agents" :: rest) = None.
Proof.
  intros Hs Hd. unfold Workspace.delete_workspace_file, validate_workspace_path.
  set (fs1 := (create_dir_all fs (agent_dir WORKSPACE_DIR agent_name)).1).
  assert (grows fs fs1) as Hg by apply create_dir_all_grows.
  pose proof (served_grows _ _ Hg Hs) as Hs1. pose proof Hg as (Hcwd & Hk & _).
  rewrite <- (home_grows _ _ Hg) in *. apply Hk in Hd.
  set (p := mkPath false (Normal WORKSPACE_DIR :: Normal (bs "agents") :: [CurDir])).
  assert (settled fs1 (home fs1 ++ [bs "agents"])) as Ha by by apply settled_snoc.
  assert (canonicalize fs1 p = Some (home fs1 ++ [bs "agents"])) as Hc.
  { change (walk fs1 false MAXSYMLINKS (fs_cwd fs1) (p_parts p) = Some (home fs1 ++ [bs "agents"])).
    unfold p; cbn [p_parts]. rewrite walk_home by done.
    etrans; [exact (walk_settled fs1 false MAXSYMLINKS _ [bs "agents"] [CurDir] Ha)|]. by rewrite walk_cons, walk_nil. }
  assert (∀ fs', place shared_dirs WORKSPACE_DIR agent_name fs' (bs "agents/") false = p) as Hplace by reflexivity.
  unfold mbind, io_bind. rewrite validate_eq. cbv zeta. fold fs1. rewrite Hplace.
  rewrite (root_name_accepted fs1 _ (bs "agents") [CurDir]) by (rewrite ?Hd; eauto).
  unfold gets, lift. rewrite relative_not_read_only by done.
  replace (file_basename (bs "agents/")) with (Ok (E:=Error) (bs "agents")) by (vm_compute; reflexivity).
  replace (mem (bs "agents") IDENTITY_FILES) with false by (vm_compute; reflexivity).
  unfold is_dir. fold p. rewrite Hc, Hd. unfold context, sys, remove_dir_all, entry.
  replace (last (p_parts p)) with (Some CurDir) by reflexivity.
  rewrite Hc. cbn [mbind option_bind]. rewrite Hd. eexists. split; [reflexivity|].
  intros rest. cbn [fs_nodes set_nodes]. apply map_lookup_filter_None. right. intros x _ Hb.
  assert (below (home fs1 ++ [bs "agents"]) (home fs1 ++ bs "agents" :: rest) = true) as Hb'
    by (apply below_spec; exists rest; by rewrite <- app_assoc).
  change (below (home fs1 ++ [bs "agents"]) (home fs1 ++ bs "agents" :: rest) = false) in Hb. congruence.
Qed.

Lemma delete_root_file fs f content :
  served fs → f ∈ [bs "AGENTS.md"; bs "TOOLS.md"] → node fs (home fs ++ [f]) = Some (File content) →
  ∃ fs', delete_workspace_file f fs = (fs', Ok ()) ∧ node fs' (home fs ++ [f]) = None.
Proof.
  intros Hs Hf Hd. unfold Workspace.delete_workspace_file, validate_workspace_path.
  set (fs1 := (create_dir_all fs (agent_dir WORKSPACE_DIR agent_name)).1).
  assert (grows fs fs1) as Hg by apply create_dir_all_grows.
  pose proof (served_grows _ _ Hg Hs) as Hs1. pose proof Hg as (Hcwd & Hk & _).
  rewrite <- (home_grows _ _ Hg) in *. apply Hk in Hd.
  set (p := mkPath false [Normal WORKSPACE_DIR; Normal f]).
  assert (canonicalize fs1 p = Some (home fs1 ++ [f])) as Hc.
  { change (walk fs1 false MAXSYMLINKS (fs_cwd fs1) (p_parts p) = Some (home fs1 ++ [f])).
    unfold p; cbn [p_parts]. rewrite walk_home by done. rewrite walk_cons, Hd. by rewrite bool_decide_eq_true_2. }
  assert (entry fs1 p = Some (home fs1 ++ [f])) as He.
  { unfold entry, p, start_dir. cbn [p_parts p_abs last removelast]. rewrite walk_home, walk_nil by done.
    cbn [mbind option_bind]. by rewrite settled_dir. }
  assert (∀ fs', place shared_dirs WORKSPACE_DIR agent_name fs' f false = p) as Hplace
    by (apply elem_of_cons in Hf as [->|Hf]; [|apply list_elem_of_singleton in Hf as ->]; reflexivity).
  assert (f ≠ [] ∧ file_basename f = Ok f ∧ mem f IDENTITY_FILES = false ∧ file_name p ≠ Some (bs "SELF.md"))
    as (Hne & Hbase & Hid & Hself)
    by (apply elem_of_cons in Hf as [->|Hf]; [|apply list_elem_of_singleton in Hf as ->]; repeat split; discriminate).
  unfold mbind, io_bind. rewrite validate_eq. cbv zeta. fold fs1. rewrite Hplace.
  rewrite (root_name_accepted fs1 _ f []) by (rewrite ?Hd; eauto).
  unfold gets, lift. fold p. rewrite relative_not_read_only by done. rewrite Hbase, Hid.
  unfold is_dir. rewrite Hc, Hd. unfold context, sys, remove_file. rewrite He. cbn [mbind option_bind].
  rewrite Hd. eexists. split; [reflexivity|]. unfold node, set_nodes; cbn [fs_nodes].
  rewrite bool_decide_eq_false_2 by (by intros [_ [=]]%app_nil). apply lookup_delete_eq.
Qed.
End service.

(** ** Examples *)

Definition names (s : string) : list str := List.filter (λ x, negb (bool_decide (x = []))) (split_on "/" (bs s)).
Definition toy_fs : Fs := mkFs (names "srv") (list_to_map ((λ '(n, k), (names n, k)) <$>
  [("srv", Dir); ("srv/workspace", Dir); ("srv/workspace/agents", Dir); ("srv/workspace/agents/op", Dir);
   ("srv/workspace/agents/opex", Dir); ("srv/workspace/agents/opex/SOUL.md", File (bs "soul"));
   ("srv/workspace/AGENTS.md", File (bs "rules")); ("srv/workspace/TOOLS.md", File (bs "tools"));
   ("srv/workspace/tools", Dir); ("srv/workspace/agents/op/note.md", File (bs "x"));
   ("srv/workspace/agents/op/link.md", Link (path_of (bs "note.md")))]%string)).
(** The same with a link to a file that does not exist, outside. *)
Definition linked_fs : Fs := put (put toy_fs (names "etc") Dir) (names "srv/workspace/agents/op/out.md")
  (Link (path_of (bs "/etc/cron"))).

Definition failed {A} (r : Fs * result Error A) : bool := negb (is_ok r.2).

Example write_ex :
  let w f := write_workspace_file [] WORKSPACE_DIR (bs "op") (bs f) (bs "y") false toy_fs in
  node (w "a/b.md").1 (names "srv/workspace/agents/op/a/b.md") = Some (File (bs "y")) ∧
  node (w "link.md").1 (names "srv/workspace/agents/op/note.md") = Some (File (bs "y")) ∧
  failed (w "agents/opex/SOUL.md") = true ∧ failed (w "AGENTS.md") = true ∧
  failed (w "../opex/SOUL.md") = true ∧ failed (w "tools/t.yaml") = true ∧ failed (w "docs/../../x") = true.
Proof. vm_compute. repeat split. Qed.

(** A rename checks no protection but the identity names: a file of the
    agent's own becomes a tool definition, or the rules of all agents. *)
Lemma rename_bypasses_protection :
  let w f := write_workspace_file [] WORKSPACE_DIR (bs "op") (bs f) (bs "x") false toy_fs in
  let mv f := rename_workspace_file [] WORKSPACE_DIR (bs "op") (bs "note.md") (bs f) toy_fs in
  failed (w "AGENTS.md") = true ∧ failed (w "tools/t.yaml") = true ∧
  (mv "AGENTS.md").2 = Ok () ∧ node (mv "AGENTS.md").1 (names "srv/workspace/AGENTS.md") = Some (File (bs "x")) ∧
  (mv "tools/t.yaml").2 = Ok () ∧ node (mv "tools/t.yaml").1 (names "srv/workspace/tools/t.yaml") = Some (File (bs "x")).
Proof. vm_compute. repeat split. Qed.

(** A write through a link to nowhere creates the file it names, outside the
    workspace. *)
Lemma dangling_link_escapes :
  let r := write_workspace_file [] WORKSPACE_DIR (bs "op") (bs "out.md") (bs "y") false linked_fs in
  r.2 = Ok () ∧ node r.1 (names "etc/cron") = Some (File (bs "y")).
Proof. vm_compute. repeat split. Qed.

Definition toy_patch : str := print_patch [Update (bs "note.md") [mkHunk [bs "x"] [bs "y"]];
  Update (bs "TOOLS.md") [mkHunk [bs "tools"] [bs "mine"]]].

(** A patch with a read-only section fails after it has written the others:
    with the relative directory the check of phase 1 sees nothing. *)
Lemma patch_not_atomic :
  let r := apply_v4a_patch (λ s, s) [] WORKSPACE_DIR (bs "op") toy_patch false toy_fs in
  failed r = true ∧ node r.1 (names "srv/workspace/agents/op/note.md") = Some (File (bs "y")) ∧
  let r' := apply_v4a_patch (λ s, s) [] (bs "/srv/workspace") (bs "op") toy_patch false toy_fs in
  failed r' = true ∧ node r'.1 (names "srv/workspace/agents/op/note.md") = Some (File (bs "x")).
Proof. vm_compute. repeat split. Qed.

(** Names are compared as they are spelled: of two sections for one file under
    two names only the last takes effect. *)
Lemma second_spelling_wins :
  let patch := print_patch [Update (bs "note.md") [mkHunk [bs "x"] [bs "y"]];
                            Update (bs "./note.md") [mkHunk [bs "x"] [bs "z"]]] in
  let r := apply_v4a_patch (λ s, s) [] WORKSPACE_DIR (bs "op") patch false toy_fs in
  failed r = false ∧ node r.1 (names "srv/workspace/agents/op/note.md") = Some (File (bs "z")).
Proof. vm_compute. repeat split. Qed.

Lemma answered {A B} {r : A * B} {b} : r.2 = b → r = (r.1, b).
Proof. destruct r. by intros <-. Defined.

Lemma write_confined_witness :
  let p := join_path (path_of (bs "workspace/agents/op")) (path_of (bs "note.md")) in
  ∃ rel, components p = components (root WORKSPACE_DIR) ++ rel ∧ admitted [] (bs "op") rel.
Proof.
  intros p.
  assert ([] ∉ ([] : list str)) as H1 by (apply (bool_decide_unpack _); vm_compute; exact I).
  assert (bs ".." ∉ ([] : list str)) as H2 by (apply (bool_decide_unpack _); vm_compute; exact I).
  assert (bs "." ∉ ([] : list str)) as H3 by (apply (bool_decide_unpack _); vm_compute; exact I).
  assert ((validate_workspace_path [] WORKSPACE_DIR (bs "op") (bs "note.md") toy_fs).2 = Ok p) as H
    by (vm_compute; reflexivity).
  destruct (validated_write_confined [] WORKSPACE_DIR (bs "op") (bs "note.md") toy_fs _ p H1 H2 H3 (answered H))
    as (rel & _ & Hc & _ & _ & Ha & _).
  exists rel. exact (conj Hc Ha).
Defined.

Lemma toy_fs_settled : settled toy_fs (home toy_fs).
Proof.
  intros k Hk. replace (length (home toy_fs)) with 2 in Hk by (vm_compute; reflexivity).
  destruct k as [|[|[|k]]]; [lia|vm_compute; reflexivity|vm_compute; reflexivity|lia].
Qed.
Lemma toy_fs_links : no_dangling toy_fs.
Proof.
  assert (map_Forall (λ n x, match x with
    | Link _ => bool_decide (is_Some (canonicalize toy_fs (abs_path n))) | _ => true end = true) (fs_nodes toy_fs)) as H.
  { apply (bool_decide_unpack _). vm_compute. exact I. }
  intros n target Hn. unfold node in Hn. case_bool_decide; [done|].
  exact (proj1 (bool_decide_eq_true _) (H _ _ Hn)).
Qed.

Lemma write_lands_inside_witness :
  let r := write_workspace_file [] WORKSPACE_DIR (bs "op") (bs "link.md") (bs "y") false toy_fs in
  ∃ fs1 c, r.1 = put fs1 c (File (bs "y")) ∧ below (names "srv/workspace") c = true.
Proof.
  intros r. assert (r.2 = Ok ()) as H by (vm_compute; reflexivity).
  assert (canonicalize toy_fs (root WORKSPACE_DIR) = Some (names "srv/workspace")) as Hw by (vm_compute; reflexivity).
  destruct (write_lands_inside [] WORKSPACE_DIR (bs "op") (bs "link.md") (bs "y") false toy_fs _ _
    (served_cwd _ toy_fs_settled) toy_fs_links Hw (answered H)) as (fs1 & c & _ & Hc & Hb & _).
  exists fs1, c. exact (conj Hc Hb).
Defined.

Lemma agents_root_witness :
  ∃ fs', delete_workspace_file [] WORKSPACE_DIR (bs "op") (bs "agents/") toy_fs = (fs', Ok ()) ∧
    fs_nodes fs' !! names "srv/workspace/agents/opex/SOUL.md" = None.
Proof.
  destruct (agents_root_deletable [] (bs "op") toy_fs) as (fs' & H & Hgone);
    [exact toy_fs_settled|vm_compute; reflexivity|].
  exists fs'. split; [exact H|]. exact (Hgone [bs "opex"; bs "SOUL.md"]).
Defined.
