(* ===== verification/Uploads.v ===== *)
(** * Signed URLs and capability tokens

    The signatures of [uploads.rs]: URLs of uploads and workspace files, the
    callback tokens of jobs and the capability tokens of code mode.  All are
    MACs under one key over a text that starts with a namespace.  The MAC
    ([hmac], [sha2]) and the encodings ([base64], [hex], [percent_encoding])
    are libraries: parameters of the model, with the round trips of the two
    encodings that verification decodes as hypotheses.  Times are seconds
    since the epoch. *)
From S2P Require Import Prelude.

(* @src opex-core/src/uploads.rs 51-58 UploadSignatureError *)
Inductive UploadSignatureError := Missing | Invalid | Expired.
#[export] Instance upload_error_eq_dec : EqDecision UploadSignatureError.
Proof. solve_decision. Defined.

(* @src opex-core/src/uploads.rs 39-42 SignedUploadQuery *)
Record SignedUploadQuery := mkSignedUploadQuery { sig : option str; exp : option Z }.

(** [str::split_once] *)
Fixpoint split_once (c : ascii) (s : str) : option (str * str) :=
  match s with
  | [] => None
  | d :: s' => if bool_decide (d = c) then Some ([], s') else
               match split_once c s' with Some (a, b) => Some (d :: a, b) | None => None end
  end.

(** [str::replacen] with a count of one. *)
Definition replace_first (pat by_ s : str) : str :=
  match find_sub pat s with
  | Some i => take i s ++ by_ ++ drop (i + length pat) s
  | None => s
  end.

(* @src opex-core/src/uploads.rs 88-90 ns_payload *)
Definition ns_payload (ns path : str) (exp : Z) : str := ns ++ bs ":" ++ path ++ bs ":" ++ decZ exp.

(* @src opex-core/src/uploads.rs 240-240 JOB_CB_NS *)
Definition JOB_CB_NS : str := bs "jobcb".
(* @src opex-core/src/uploads.rs 309-309 CODEMODE_NS *)
Definition CODEMODE_NS : str := bs "codemode".

(* @src opex-core/src/uploads.rs 259-259 mint_job_callback_token *)
Definition job_payload (job_id : str) (exp : Z) : str :=
  JOB_CB_NS ++ bs ":" ++ job_id ++ bs ":" ++ decZ exp.
(* @src opex-core/src/uploads.rs 339-339 mint_codemode_token *)
Definition codemode_payload (session_id agent_name : str) (tools_hash exp : Z) : str :=
  CODEMODE_NS ++ bs ":" ++ session_id ++ bs ":" ++ agent_name ++ bs ":" ++ decZ tools_hash ++ bs ":" ++ decZ exp.

(** [now + ttl_secs] on [u64]. *)
Definition expiry (now ttl_secs : Z) : Z := wrap 64 (now + ttl_secs).

Section tokens.
Context (hmac : str → str → str).                  (** key and message *)
Context (b64 : str → str) (unb64 : str → option str).
Context (hex_encode : str → str) (hex_decode : str → option str).
Context (url_encode_keep_slash : str → str).

(* @src opex-core/src/uploads.rs 93-114 mint_namespaced_url *)
Definition mint_namespaced_url (base ns path key : str) (ttl_secs now : Z) : str :=
  let exp := expiry now ttl_secs in
  let sig := b64 (hmac key (ns_payload ns path exp)) in
  base ++ bs "/" ++ ns ++ bs "/" ++ url_encode_keep_slash path ++ bs "?sig=" ++ sig ++ bs "&exp=" ++ decZ exp.

(* @src opex-core/src/uploads.rs 117-141 verify_namespaced_url *)
Definition verify_namespaced_url (ns path sig_b64 : str) (exp : Z) (key : str) (now_unix : Z)
    : result UploadSignatureError () :=
  if (exp <? now_unix)%Z then Err Expired else
  match unb64 sig_b64 with
  | None => Err Invalid
  | Some submitted =>
      if bool_decide (submitted = hmac key (ns_payload ns path exp)) then Ok () else Err Invalid
  end.

(* @src opex-core/src/uploads.rs 145-147 mint_workspace_file_url *)
Definition mint_workspace_file_url (rel_path key : str) (ttl_secs now : Z) : str :=
  mint_namespaced_url [] (bs "workspace-files") rel_path key ttl_secs now.

(* @src opex-core/src/uploads.rs 157-165 mint_uploads_url *)
Definition mint_uploads_url (base id key : str) (ttl_secs now : Z) : str :=
  replace_first (bs "/uploads/") (bs "/api/uploads/") (mint_namespaced_url base (bs "uploads") id key ttl_secs now).

(* @src opex-core/src/uploads.rs 471-482 verify_signed_url *)
Definition verify_signed_url (filename : str) (query : SignedUploadQuery) (key : str) (now_unix : Z)
    : result UploadSignatureError () :=
  match sig query, exp query with
  | Some s, Some e => verify_namespaced_url (bs "uploads") filename s e key now_unix
  | _, _ => Err Missing
  end.

(* @src opex-core/src/uploads.rs 197-212 verify_uploads_url *)
Definition verify_uploads_url (id sig_b64 : str) (exp_unix : Z) (key : str) (now_unix : Z) :=
  verify_signed_url id (mkSignedUploadQuery (Some sig_b64) (Some exp_unix)) key now_unix.

(* @src opex-core/src/uploads.rs 215-223 verify_workspace_file_url *)
Definition verify_workspace_file_url (rel_path sig_b64 : str) (exp : Z) (key : str) (now_unix : Z) :=
  verify_namespaced_url (bs "workspace-files") rel_path sig_b64 exp key now_unix.

(* @src opex-core/src/uploads.rs 452-454 mint_signed_url *)
Definition mint_signed_url (base filename key : str) (ttl_secs now : Z) : str :=
  mint_namespaced_url base (bs "uploads") filename key ttl_secs now.

(** The token [{exp}.{hex-HMAC}] over the payload that [payload] makes of
    the expiry, and its check; the two kinds of token differ only in the
    payload. *)
Definition mint_token (payload : Z → str) (key : str) (ttl_secs now : Z) : str :=
  let exp := expiry now ttl_secs in
  decZ exp ++ bs "." ++ hex_encode (hmac key (payload exp)).
(* @src opex-core/src/uploads.rs 275-301 verify_job_callback_token *)
Definition verify_token (payload : Z → str) (key token : str) (now : Z) : bool :=
  match split_once "." token with
  | None => false
  | Some (exp_str, hex_sig) =>
      match parse_dec 64 exp_str with
      | None => false
      | Some exp =>
          match hex_decode hex_sig with
          | None => false
          | Some submitted =>
              if (exp <? now)%Z then false else bool_decide (submitted = hmac key (payload exp))
          end
      end
  end.

(* @src opex-core/src/uploads.rs 253-265 mint_job_callback_token *)
Definition mint_job_callback_token (key job_id : str) : Z → Z → str := mint_token (job_payload job_id) key.
(* @src opex-core/src/uploads.rs 274-302 verify_job_callback_token *)
Definition verify_job_callback_token (key job_id : str) : str → Z → bool := verify_token (job_payload job_id) key.
(* @src opex-core/src/uploads.rs 327-345 mint_codemode_token *)
Definition mint_codemode_token (key session_id agent_name : str) (tools_hash : Z) : Z → Z → str :=
  mint_token (codemode_payload session_id agent_name tools_hash) key.
(* @src opex-core/src/uploads.rs 352-383 verify_codemode_token *)
Definition verify_codemode_token (key session_id agent_name : str) (tools_hash : Z) : str → Z → bool :=
  verify_token (codemode_payload session_id agent_name tools_hash) key.
End tokens.

(** ** The hash of a tool list *)

Fixpoint insert_sorted (x : str) (l : list str) : list str :=
  match l with
  | [] => [x]
  | y :: l' => if str_leb x y then x :: l else y :: insert_sorted x l'
  end.
Definition sort_unstable (l : list str) : list str := foldr insert_sorted [] l.

Definition FNV_OFFSET : Z := 0xcbf29ce484222325.
Definition FNV_PRIME : Z := 0x100000001b3.
Definition fnv_byte (h : Z) (b : Z) : Z := wrap 64 (Z.lxor h b * FNV_PRIME).
(* @src opex-core/src/uploads.rs 391-398 codemode_tools_hash *)
Definition fnv_tool (h : Z) (tool : str) : Z :=
  fnv_byte (foldl (λ h c, fnv_byte h (Z.of_nat (nat_of_ascii c))) h tool) 0x2f.
(* @src opex-core/src/uploads.rs 387-400 codemode_tools_hash *)
Definition codemode_tools_hash (allowed_tools : list str) : Z :=
  foldl fnv_tool FNV_OFFSET (sort_unstable allowed_tools).

(** ** Texts with separators *)

Lemma split_once_app c a b : c ∉ a → split_once c (a ++ c :: b) = Some (a, b).
Proof.
  induction a as [|d a IH]; intros Ha; simpl.
  - by rewrite bool_decide_eq_true_2.
  - rewrite bool_decide_eq_false_2 by set_solver. rewrite IH by set_solver. done.
Qed.

(** A text is cut in one way at its first separator, and at its last. *)
Lemma cut_first (c : ascii) (a a' b b' : str) :
  c ∉ a → c ∉ a' → a ++ c :: b = a' ++ c :: b' → a = a' ∧ b = b'.
Proof.
  intros Ha Ha' He. apply (f_equal (split_once c)) in He.
  rewrite !split_once_app in He by done. by simplify_eq.
Qed.
Lemma cut_last (c : ascii) (a a' b b' : str) :
  c ∉ b → c ∉ b' → a ++ c :: b = a' ++ c :: b' → a = a' ∧ b = b'.
Proof.
  intros Hb Hb' He. apply (f_equal reverse) in He. rewrite !reverse_app, !reverse_cons, <- !app_assoc in He.
  assert (∀ x : str, c ∉ x → c ∉ reverse x) as Hr by (intros x Hx Hin; apply Hx; by rewrite elem_of_reverse in Hin).
  apply cut_first in He as [H1 H2]; auto. split; by apply (inj reverse).
Qed.
Lemma colon_dec n : (0 <= n)%Z → ":"%char ∉ decZ n.
Proof. intros Hn. by apply decZ_no. Qed.

(** ** What a signature is for *)

Inductive Use :=
| ForUrl (ns path : str)
| ForJob (job_id : str)
| ForCode (session_id agent_name : str) (tools_hash : Z).
Definition payload_of (u : Use) : Z → str :=
  match u with
  | ForUrl ns path => ns_payload ns path
  | ForJob job_id => job_payload job_id
  | ForCode session_id agent_name tools_hash => codemode_payload session_id agent_name tools_hash
  end.
(** The namespaces of URLs are not those of tokens; an identifier of a
    session has no colon. *)
Definition use_ok (u : Use) : Prop :=
  match u with
  | ForUrl ns _ => ":"%char ∉ ns ∧ ns ≠ JOB_CB_NS ∧ ns ≠ CODEMODE_NS
  | ForJob _ => True
  | ForCode session_id _ tools_hash => ":"%char ∉ session_id ∧ (0 <= tools_hash)%Z
  end.

Definition use_ns (u : Use) : str :=
  match u with ForUrl ns _ => ns | ForJob _ => JOB_CB_NS | ForCode _ _ _ => CODEMODE_NS end.
Definition use_body (u : Use) : str :=
  match u with
  | ForUrl _ path => path
  | ForJob job_id => job_id
  | ForCode session_id agent_name tools_hash => session_id ++ bs ":" ++ agent_name ++ bs ":" ++ decZ tools_hash
  end.

Lemma payload_shape u e : payload_of u e = use_ns u ++ ":"%char :: (use_body u ++ ":"%char :: decZ e).
Proof.
  destruct u; cbn [payload_of use_ns use_body]; unfold ns_payload, job_payload, codemode_payload;
    rewrite <- ?app_assoc; reflexivity.
Qed.
Lemma use_ns_colon u : use_ok u → ":"%char ∉ use_ns u.
Proof.
  destruct u; [by intros (? & _)|..]; intros _; apply (bool_decide_unpack _); vm_compute; exact I.
Qed.

(** The signed text determines the use and the expiry. *)
Lemma payload_inj u v e f :
  use_ok u → use_ok v → (0 <= e)%Z → (0 <= f)%Z → payload_of u e = payload_of v f → u = v ∧ e = f.
Proof.
  intros Hu Hv He Hf Hp. rewrite !payload_shape in Hp.
  apply cut_first in Hp as [Hns Hp]; [|by apply use_ns_colon..].
  apply cut_last in Hp as [Hb Hd]; [|by apply colon_dec..]. apply decZ_inj in Hd; [|done..]. split; [|done].
  destruct u as [ns p|j|s a h], v as [ns' p'|j'|s' a' h']; simpl in *; try naive_solver.
  destruct Hu as [Hs Hh], Hv as [Hs' Hh']. apply cut_first in Hb as [-> Hb]; [|done..].
  apply cut_last in Hb as [-> Hb]; [|by apply colon_dec..]. by apply decZ_inj in Hb as ->.
Qed.

Section theorems.
Context (hmac : str → str → str) (b64 : str → str) (unb64 : str → option str).
Context (hex_encode : str → str) (hex_decode : str → option str) (url_encode_keep_slash : str → str).

(** The two texts that are signed for these uses differ and have the same MAC. *)
Definition clash (key : str) (u : Use) (e : Z) (v : Use) (f : Z) : Prop :=
  payload_of u e ≠ payload_of v f ∧ hmac key (payload_of u e) = hmac key (payload_of v f).
(** A signature made for [u] until [e] is accepted for [v] until [f]. *)
Definition bound (key : str) (now : Z) (u : Use) (e : Z) (v : Use) (f : Z) : Prop :=
  (now <= f)%Z ∧ (u = v ∧ e = f ∨ clash key u e v f).

Lemma same_mac key now u v e f :
  use_ok u → use_ok v → (0 <= e)%Z → (0 <= f)%Z → (now <= f)%Z →
  hmac key (payload_of u e) = hmac key (payload_of v f) → bound key now u e v f.
Proof.
  intros Hu Hv He Hf Hn Hm. split; [done|]. destruct (decide (payload_of u e = payload_of v f)) as [Hp|Hp].
  - left. by apply payload_inj.
  - by right.
Qed.

Lemma parse_dec_nonneg w s n : parse_dec w s = Some n → (0 <= n)%Z.
Proof.
  unfold parse_dec. case_bool_decide; [done|]. generalize (default s (strip_prefix (bs "+") s)).
  intros l. assert (∀ acc, from_option (Z.le 0) True acc → from_option (Z.le 0) True (foldl (dec_step w) acc l)) as H'.
  { induction l as [|c l IH]; intros acc Ha; [done|]. apply IH. unfold dec_step. destruct acc as [a|]; [|done].
    cbn [mbind option_bind]. unfold is_ascii_digit. case_match eqn:Hd; [|done]. bool_hyps. case_match; [|done].
    simpl in *. lia. }
  intros Hf. specialize (H' (Some 0%Z)). rewrite Hf in H'. apply H'. simpl. lia.
Qed.

(** C37: A signature made for one use (a URL of a namespace, a job, or a run of
    code mode, which is identified by its session, its agent and the hash of
    its tool list) and one expiry is accepted for no other use and no other
    expiry, unless the two texts that are signed for these two uses, which
    differ, happen to have the same MAC; and it is not accepted after its
    expiry.  The namespaces and the decimal numbers make the signed texts
    unambiguous.  Two tool lists with the same hash are one use
    ([tools_hash_ambiguous]). *)
(* @prop safety defs=ns_payload,job_payload,codemode_payload,verify_namespaced_url,verify_job_callback_token,verify_codemode_token,verify_token witness=signature_witness *)
Theorem signature_binds_use key u e now :
  use_ok u → (0 <= e)%Z →
  let mac := hmac key (payload_of u e) in
  (∀ ns path s f, use_ok (ForUrl ns path) → (0 <= f)%Z → unb64 s = Some mac →
     verify_namespaced_url hmac unb64 ns path s f key now = Ok () →
     bound key now u e (ForUrl ns path) f) ∧
  (∀ job token f_str h, token = f_str ++ "."%char :: h → "."%char ∉ f_str → hex_decode h = Some mac →
     verify_job_callback_token hmac hex_decode key job token now = true →
     ∃ f, parse_dec 64 f_str = Some f ∧ bound key now u e (ForJob job) f) ∧
  (∀ session agent tools token f_str h, use_ok (ForCode session agent tools) →
     token = f_str ++ "."%char :: h → "."%char ∉ f_str → hex_decode h = Some mac →
     verify_codemode_token hmac hex_decode key session agent tools token now = true →
     ∃ f, parse_dec 64 f_str = Some f ∧ bound key now u e (ForCode session agent tools) f).
Proof.
  intros Hu He mac.
  assert (∀ v token f_str h, use_ok v → token = f_str ++ "."%char :: h → "."%char ∉ f_str → hex_decode h = Some mac →
     verify_token hmac hex_decode (payload_of v) key token now = true →
     ∃ f, parse_dec 64 f_str = Some f ∧ bound key now u e v f) as Htok.
  { intros v token f_str h Hv -> Hdot Hh. unfold verify_token. rewrite split_once_app by done.
    destruct (parse_dec 64 f_str) as [f|] eqn:Hf; [|done]. rewrite Hh. destruct (Z.ltb_spec f now); [done|].
    intros Hm. apply bool_decide_eq_true in Hm. exists f. split; [done|].
    apply same_mac; try done. by eapply parse_dec_nonneg. }
  split_and!.
  - intros ns path s f Hv Hf Hs. unfold verify_namespaced_url. destruct (Z.ltb_spec f now); [done|]. rewrite Hs.
    case_bool_decide as Hm; [|done]. intros _. by apply same_mac.
  - intros job token f_str h Ht Hd Hh Hv. exact (Htok (ForJob job) token f_str h I Ht Hd Hh Hv).
  - intros session agent tools token f_str h Hok Ht Hd Hh Hv.
    exact (Htok (ForCode session agent tools) token f_str h Hok Ht Hd Hh Hv).
Qed.

(** What is minted is accepted until it expires and not a second longer:
    a signed URL carries a signature and an expiry that verify for its file
    until the expiry, and the tokens of jobs and of code mode verify as they
    are. *)
Theorem minted_verifies key ttl now later :
  (∀ x, unb64 (b64 x) = Some x) → (∀ x, hex_decode (hex_encode x) = Some x) →
  (0 <= now)%Z → (0 <= ttl)%Z → (now + ttl <= umax 64)%Z →
  let alive := (later <=? now + ttl)%Z in
  (∀ base filename, ∃ s,
     mint_signed_url hmac b64 url_encode_keep_slash base filename key ttl now =
       base ++ bs "/uploads/" ++ url_encode_keep_slash filename ++ bs "?sig=" ++ s ++ bs "&exp=" ++ decZ (now + ttl) ∧
     verify_signed_url hmac unb64 filename (mkSignedUploadQuery (Some s) (Some (now + ttl)%Z)) key later =
       (if alive then Ok () else Err Expired)) ∧
  (∀ job, verify_job_callback_token hmac hex_decode key job
            (mint_job_callback_token hmac hex_encode key job ttl now) later = alive) ∧
  (∀ session agent tools, verify_codemode_token hmac hex_decode key session agent tools
            (mint_codemode_token hmac hex_encode key session agent tools ttl now) later = alive).
Proof.
  intros Hb Hx Hn Ht Hw alive.
  assert (expiry now ttl = now + ttl)%Z as Hexp.
  { unfold expiry, wrap, umax in *. rewrite Z.mod_small by lia. done. }
  assert (∀ payload, verify_token hmac hex_decode payload key (mint_token hmac hex_encode payload key ttl now) later = alive)
    as Htok.
  { intros payload. unfold verify_token, mint_token. rewrite Hexp.
    change (bs "." ++ ?x) with ("."%char :: x). rewrite split_once_app by (apply decZ_no; [lia|done]).
    rewrite parse_dec_decZ by (split; lia). rewrite Hx. unfold alive.
    rewrite bool_decide_eq_true_2 by done. destruct (Z.ltb_spec (now + ttl) later), (Z.leb_spec later (now + ttl)); lia || done. }
  split_and!; [|intros; apply Htok|intros; apply Htok].
  intros base filename. exists (b64 (hmac key (ns_payload (bs "uploads") filename (now + ttl)))). split.
  - unfold mint_signed_url, mint_namespaced_url. by rewrite Hexp.
  - unfold verify_signed_url, verify_namespaced_url. cbn [sig exp]. rewrite Hb.
    rewrite bool_decide_eq_true_2 by done. unfold alive.
    destruct (Z.ltb_spec (now + ttl) later), (Z.leb_spec later (now + ttl)); lia || done.
Qed.
End theorems.

(** ** The hash of a tool list *)

Lemma insert_sorted_perm x l : insert_sorted x l ≡ₚ x :: l.
Proof. induction l as [|y l IH]; simpl; [done|]. case_match; [done|]. rewrite IH. constructor. Qed.

(** A tool whose name contains a slash hashes like two tools: the separator
    of the hash is a byte a name may have. *)
Lemma tools_hash_ambiguous a b :
  str_leb a b = true → codemode_tools_hash [a ++ bs "/" ++ b] = codemode_tools_hash [a; b].
Proof.
  intros Hle. unfold codemode_tools_hash, sort_unstable. cbn [foldr insert_sorted]. rewrite Hle.
  cbn [foldl]. unfold fnv_tool. by rewrite !foldl_app.
Qed.

(** The prefix is rewritten at its first occurrence, which may lie in the
    base. *)
Lemma uploads_base_rewritten :
  mint_uploads_url (λ _ _, bs "mac") (λ s, s) (λ s, s) (bs "http://h/uploads/x") (bs "7") [] 10 20 =
  bs "http://h/api/uploads/x/uploads/7?sig=mac&exp=30".
Proof. vm_compute. reflexivity. Qed.

(** ** Witnesses: the MAC is the message, the encodings the identity. *)

Lemma signature_witness :
  let mac := λ _ m : str, m in
  verify_job_callback_token mac Some (bs "k") (bs "j1") (decZ 30 ++ bs "." ++ job_payload (bs "j1") 30) 20 = true ∧
  ∃ f, parse_dec 64 (decZ 30) = Some f ∧ bound mac (bs "k") 20 (ForJob (bs "j1")) 30 (ForJob (bs "j1")) f.
Proof.
  intros mac.
  assert (verify_job_callback_token mac Some (bs "k") (bs "j1") (decZ 30 ++ bs "." ++ job_payload (bs "j1") 30) 20 = true)
    as Hv by (vm_compute; reflexivity).
  split; [exact Hv|].
  assert ("."%char ∉ decZ 30) as Hdot by (apply (bool_decide_unpack _); vm_compute; exact I).
  assert (0 <= 30)%Z as H30 by lia.
  destruct (signature_binds_use mac Some Some (bs "k") (ForJob (bs "j1")) 30 20 I H30) as (_ & Hj & _).
  exact (Hj (bs "j1") _ (decZ 30) (job_payload (bs "j1") 30) eq_refl Hdot eq_refl Hv).
Defined.

Lemma minted_witness :
  verify_job_callback_token (λ _ m, m) Some (bs "k") (bs "j1")
    (mint_job_callback_token (λ _ m, m) (λ s, s) (bs "k") (bs "j1") 10 20) 25 = true.
Proof.
  assert (0 <= 20)%Z as H1 by lia. assert (0 <= 10)%Z as H2 by lia.
  assert (20 + 10 <= umax 64)%Z as H3 by (vm_compute; discriminate).
  destruct (minted_verifies (λ _ m, m) (λ s, s) Some (λ s, s) Some (λ s, s) (bs "k") 10 20 25
    (λ _, eq_refl) (λ _, eq_refl) H1 H2 H3) as (_ & Hj & _).
  exact (Hj (bs "j1")).
Defined.
