(* ===== verification/RateLimit.v ===== *)
(** * Rate limits of the gateway

    The two limiters of [opex-gateway-util/src/rate_limiter.rs]: failed
    logins per address, and requests per address and minute.  A [DashMap] is
    a map from the address; a method on one address runs under the lock of
    its entry, so these run one after the other.  The sweepers first collect
    the expired addresses and then remove them one by one.  [Instant]s and [Duration]s are
    milliseconds. *)
From S2P Require Import Prelude.

(** [now.duration_since(t)], which is zero for a later [t]. *)
Definition duration_since (now t : Z) : Z := Z.max 0 (now - t).
Definition as_secs (d : Z) : Z := d / 1000.
(** [+= 1] on [u32]. *)
Definition incr (n : Z) : Z := wrap 32 (n + 1).

(** ** Failed logins *)

Record Attempt := mkAttempt { fail_count : Z; first_fail : Z; locked_until : option Z }.

(* @src opex-gateway-util/src/rate_limiter.rs 24-33 AuthRateLimiter *)
Record AuthRateLimiter := mkAuth { max_attempts : Z; lockout_secs : Z; attempts : gmap str Attempt }.

Implicit Types (l : AuthRateLimiter) (ip : str) (now : Z).

Definition with_attempts l m : AuthRateLimiter := mkAuth (max_attempts l) (lockout_secs l) m.

(* @src opex-gateway-util/src/rate_limiter.rs 36-42 AuthRateLimiter::new *)
Definition auth_new (max_attempts lockout_secs : Z) : AuthRateLimiter := mkAuth max_attempts lockout_secs ∅.

(* @src opex-gateway-util/src/rate_limiter.rs 44-51 AuthRateLimiter::is_locked *)
Definition is_locked l ip now : bool :=
  match attempts l !! ip ≫= locked_until with
  | Some until => (now <? until)%Z
  | None => false
  end.

(** The entry of a failure. *)
(* @src opex-gateway-util/src/rate_limiter.rs 60-75 AuthRateLimiter::record_failure *)
Definition failed_entry l (e : Attempt) now : Attempt :=
  let e := if bool_decide (locked_until e = None) && (lockout_secs l <? as_secs (duration_since now (first_fail e)))%Z
           then mkAttempt 0 now None else e in
  let count := incr (fail_count e) in
  if (max_attempts l <=? count)%Z
  then mkAttempt count (first_fail e) (Some (now + lockout_secs l * 1000)%Z)
  else mkAttempt count (first_fail e) (locked_until e).

(* @src opex-gateway-util/src/rate_limiter.rs 53-77 AuthRateLimiter::record_failure *)
Definition record_failure l ip now : AuthRateLimiter :=
  let e := default (mkAttempt 0 now None) (attempts l !! ip) in
  with_attempts l (<[ip := failed_entry l e now]> (attempts l)).

(* @src opex-gateway-util/src/rate_limiter.rs 79-81 AuthRateLimiter::record_success *)
Definition record_success l ip : AuthRateLimiter := with_attempts l (delete ip (attempts l)).

(* @src opex-gateway-util/src/rate_limiter.rs 97-101 AuthRateLimiter::sweep *)
Definition attempt_expired l (e : Attempt) now : bool :=
  match locked_until e with
  | Some until => (until <=? now)%Z
  | None => (lockout_secs l * 1000 <=? duration_since now (first_fail e))%Z
  end.
(* @src opex-gateway-util/src/rate_limiter.rs 92-108 AuthRateLimiter::sweep *)
Definition auth_expired l now : gset str := dom (filter (λ '(_, e), attempt_expired l e now = true) (attempts l)).
(* @src opex-gateway-util/src/rate_limiter.rs 109-111 AuthRateLimiter::sweep *)
Definition auth_remove l (to_remove : gset str) : AuthRateLimiter :=
  with_attempts l (filter (λ '(ip, _), ip ∉ to_remove) (attempts l)).
(** A sweep that nothing interrupts. *)
(* @src opex-gateway-util/src/rate_limiter.rs 89-112 AuthRateLimiter::sweep *)
Definition auth_sweep l now : AuthRateLimiter := auth_remove l (auth_expired l now).

(** ** Requests *)

Record Window := mkWindow { requests : Z; window_start : Z }.
(* @src opex-gateway-util/src/rate_limiter.rs 143-149 RequestRateLimiter *)
Record RequestRateLimiter := mkReq { max_per_minute : Z; windows : gmap str Window }.
(* @src opex-gateway-util/src/rate_limiter.rs 152-157 RequestRateLimiter::new *)
Definition request_new (max_per_minute : Z) : RequestRateLimiter := mkReq max_per_minute ∅.

Implicit Types (r : RequestRateLimiter).

Definition WINDOW : Z := 60000.
(* @src opex-gateway-util/src/rate_limiter.rs 165-168 RequestRateLimiter::check *)
(** The window a request at [now] falls into. *)
Definition current_window (w : Window) now : Window :=
  if (WINDOW <=? duration_since now (window_start w))%Z then mkWindow 0 now else w.

(* @src opex-gateway-util/src/rate_limiter.rs 160-179 RequestRateLimiter::check *)
Definition check r ip now : RequestRateLimiter * result Z () :=
  let w := current_window (default (mkWindow 0 now) (windows r !! ip)) now in
  let w := mkWindow (incr (requests w)) (window_start w) in
  (mkReq (max_per_minute r) (<[ip := w]> (windows r)),
   if (max_per_minute r <? requests w)%Z
   then Err (sat_sub 60 (as_secs (duration_since now (window_start w))))
   else Ok ()).

(* @src opex-gateway-util/src/rate_limiter.rs 187-197 RequestRateLimiter::sweep *)
Definition request_expired r now : gset str :=
  dom (filter (λ '(_, w), (WINDOW <=? duration_since now (window_start w))%Z = true) (windows r)).
(* @src opex-gateway-util/src/rate_limiter.rs 198-200 RequestRateLimiter::sweep *)
Definition request_remove r (to_remove : gset str) : RequestRateLimiter :=
  mkReq (max_per_minute r) (filter (λ '(ip, _), ip ∉ to_remove) (windows r)).
(* @src opex-gateway-util/src/rate_limiter.rs 184-201 RequestRateLimiter::sweep *)
Definition request_sweep r now : RequestRateLimiter := request_remove r (request_expired r now).

(** The bearer token of a header, compared in constant time. *)
(* @src opex-gateway-util/src/rate_limiter.rs 230-237 valid_bearer *)
Definition valid_bearer (authorization : option str) (expected_token : str) : bool :=
  match authorization ≫= strip_prefix (bs "Bearer ") with
  | Some t => bool_decide (t = expected_token)
  | None => false
  end.

(** ** Sweeps *)

Lemma swept_lookup {A} (expired : A → bool) (m : gmap str A) ip :
  filter (λ '(k, _), k ∉ dom (filter (λ '(_, x), expired x = true) m)) m !! ip =
  match m !! ip with Some x => if expired x then None else Some x | None => None end.
Proof.
  destruct (m !! ip) as [x|] eqn:Hx.
  - destruct (expired x) eqn:He.
    + apply map_lookup_filter_None. right. intros y Hy Hn. simplify_eq. apply Hn, elem_of_dom. exists x.
      by apply map_lookup_filter_Some.
    + apply map_lookup_filter_Some. split; [done|]. intros [y Hy]%elem_of_dom.
      apply map_lookup_filter_Some in Hy as [Hy He']. simplify_eq. congruence.
  - apply map_lookup_filter_None. by left.
Qed.
Lemma request_sweep_lookup r now ip :
  windows (request_sweep r now) !! ip =
  match windows r !! ip with
  | Some w => if (WINDOW <=? duration_since now (window_start w))%Z then None else Some w
  | None => None
  end.
Proof. apply (swept_lookup (λ w, (WINDOW <=? duration_since now (window_start w))%Z)). Qed.
Lemma auth_sweep_lookup l now ip :
  attempts (auth_sweep l now) !! ip =
  match attempts l !! ip with Some e => if attempt_expired l e now then None else Some e | None => None end.
Proof. apply (swept_lookup (λ e, attempt_expired l e now)). Qed.

(** ** The request limit *)

Inductive Event := Check (ip : str) (now : Z) | Sweep (now : Z).
Definition ev_time (e : Event) : Z := match e with Check _ now | Sweep now => now end.
(** The limiter after an event, and whether a request of [ip] was let
    through. *)
Definition req_event r (e : Event) : RequestRateLimiter :=
  match e with Check ip now => (check r ip now).1 | Sweep now => request_sweep r now end.
Definition passes r ip (e : Event) : bool :=
  match e with Check ip' now => bool_decide (ip' = ip) && is_ok (check r ip now).2 | Sweep _ => false end.
Fixpoint req_run r (es : list Event) : RequestRateLimiter :=
  match es with [] => r | e :: es' => req_run (req_event r e) es' end.
Fixpoint passed r ip (es : list Event) : Z :=
  match es with
  | [] => 0
  | e :: es' => (if passes r ip e then 1 else 0) + passed (req_event r e) ip es'
  end%Z.

Definition within (t0 t1 : Z) (es : list Event) : Prop := Forall (λ e, t0 <= ev_time e < t1)%Z es.

(** No counter exceeds the number of events so far. *)
Definition counts_ok (n : Z) r : Prop := map_Forall (λ _ w, 0 <= requests w <= n)%Z (windows r).

Lemma incr_small n : (0 <= n)%Z → (n + 1 < 2 ^ 32)%Z → incr n = (n + 1)%Z.
Proof. intros. unfold incr, wrap. by rewrite Z.mod_small by lia. Qed.

Lemma counts_event n r e :
  (0 <= n)%Z → (n + 1 < 2 ^ 32)%Z → counts_ok n r → counts_ok (n + 1) (req_event r e).
Proof.
  intros Hn Hm Hr. destruct e as [ip now|now]; simpl.
  - apply map_Forall_insert_2.
    + assert (0 <= requests (current_window (default (mkWindow 0 now) (windows r !! ip)) now) <= n)%Z as Hc.
      { unfold current_window. case_if; [simpl; lia|]. destruct (windows r !! ip) eqn:Hw; simpl; [exact (Hr _ _ Hw)|lia]. }
      simpl. unfold incr, wrap. rewrite Z.mod_small; lia.
    + eapply map_Forall_impl; [exact Hr|]. simpl. lia.
  - intros i w Hw. rewrite request_sweep_lookup in Hw.
    destruct (windows r !! i) as [w'|] eqn:Hw'; [|done]. case_if; simplify_eq. pose proof (Hr _ _ Hw') as Hb. simpl in Hb. lia.
Qed.
Lemma counts_run es n r :
  (0 <= n)%Z → (n + Z.of_nat (length es) < 2 ^ 32)%Z → counts_ok n r →
  counts_ok (n + Z.of_nat (length es)) (req_run r es).
Proof.
  revert n r. induction es as [|e es IH]; intros n r Hn Hm Hr; simpl; [by rewrite Z.add_0_r|].
  simpl in Hm. replace (n + Z.of_nat (S (length es)))%Z with (n + 1 + Z.of_nat (length es))%Z by lia.
  apply IH; [lia|lia|]. apply counts_event; [lia|lia|done].
Qed.

(** [k] requests of the address passed since [t0]: in the window that was
    open then at most [max], in a later one again as many. *)
Definition budget (max t0 k : Z) (o : option Window) : Prop :=
  match o with
  | None => k <= max
  | Some w => k <= Z.min (requests w) max ∨ (t0 <= window_start w ∧ k <= max + Z.min (requests w) max)
  end%Z.

Lemma budget_bound max t0 k o : (0 <= max)%Z → budget max t0 k o → (k <= 2 * max)%Z.
Proof. destruct o; simpl; lia. Qed.

Lemma max_event r e : max_per_minute (req_event r e) = max_per_minute r.
Proof. by destruct e. Qed.

Lemma budget_event n r ip e t0 k :
  (0 <= n)%Z → (n + 1 < 2 ^ 32)%Z → counts_ok n r → (0 <= max_per_minute r)%Z →
  (t0 <= ev_time e < t0 + WINDOW)%Z →
  budget (max_per_minute r) t0 k (windows r !! ip) →
  budget (max_per_minute r) t0 ((if passes r ip e then 1 else 0) + k)%Z (windows (req_event r e) !! ip).
Proof.
  intros Hn Hm Hc Hmax Ht Hb. destruct e as [ip' now|now]; cbn [ev_time passes req_event] in *.
  - destruct (decide (ip' = ip)) as [->|Hne].
    2: { rewrite bool_decide_eq_false_2 by done. cbn [andb]. unfold check; cbn [fst windows].
         rewrite lookup_insert_ne by done. by rewrite Z.add_0_l. }
    rewrite bool_decide_eq_true_2 by done. unfold check; cbn [fst snd windows andb]. rewrite lookup_insert_eq.
    cbn [requests window_start].
    assert (∀ w, (windows r !! ip) = Some w → 0 <= requests w <= n)%Z as Hr by (intros w Hw; exact (Hc _ _ Hw)).
    unfold current_window. destruct (windows r !! ip) as [w|] eqn:Hw; cbn [default from_option id budget] in *.
    + specialize (Hr w eq_refl). unfold WINDOW, duration_since in *.
      destruct (60000 <=? _)%Z eqn:Hage; cbn [requests window_start]; bool_hyps; rewrite incr_small by lia;
        destruct (max_per_minute r <? _)%Z eqn:Hfull; cbn [is_ok]; bool_hyps; lia.
    + destruct (WINDOW <=? _)%Z; cbn [requests window_start]; rewrite incr_small by lia;
        destruct (max_per_minute r <? _)%Z eqn:Hfull; cbn [is_ok]; bool_hyps; lia.
  - rewrite Z.add_0_l, request_sweep_lookup. destruct (windows r !! ip) as [w|]; [|exact Hb].
    destruct (WINDOW <=? _)%Z eqn:Hd; [|exact Hb]. simpl in Hb |- *. unfold WINDOW, duration_since in *. bool_hyps. lia.
Qed.

Lemma budget_run es n r ip t0 k :
  (0 <= n)%Z → (n + Z.of_nat (length es) < 2 ^ 32)%Z → counts_ok n r → (0 <= max_per_minute r)%Z →
  within t0 (t0 + WINDOW) es → budget (max_per_minute r) t0 k (windows r !! ip) →
  (k + passed r ip es <= 2 * max_per_minute r)%Z.
Proof.
  revert n r k. induction es as [|e es IH]; intros n r k Hn Hm Hc Hmax Hw Hb; cbn [passed].
  - rewrite Z.add_0_r. by eapply budget_bound.
  - cbn [length] in Hm. apply Forall_cons in Hw as [Ht Hw].
    pose proof (budget_event n r ip e t0 k Hn ltac:(lia) Hc Hmax Ht Hb) as Hb'.
    rewrite <- (max_event r e) in Hb', Hmax |- *.
    specialize (IH (n + 1)%Z _ _ ltac:(lia) ltac:(lia) (counts_event _ _ _ Hn ltac:(lia) Hc) Hmax Hw Hb'). lia.
Qed.

(** Of the requests of one address during any minute, whatever came
    before, whatever other addresses do, and with any uninterrupted sweeps
    between them, at most twice the limit are let through (the window is
    fixed, so a full one may end and a full one begin within the minute). *)
Theorem minute_bound max pre es ip t0 :
  (0 <= max)%Z → (Z.of_nat (length (pre ++ es)) < 2 ^ 32)%Z → within t0 (t0 + WINDOW) es →
  (passed (req_run (request_new max) pre) ip es <= 2 * max)%Z.
Proof.
  intros Hmax Hlen Hw. rewrite length_app in Hlen.
  assert (counts_ok 0 (request_new max)) as H0 by apply map_Forall_empty.
  pose proof (counts_run pre 0 _ ltac:(lia) ltac:(lia) H0) as Hc. rewrite Z.add_0_l in Hc.
  assert (∀ r, max_per_minute (req_run r pre) = max_per_minute r) as Hm.
  { clear. induction pre as [|e pre IH]; intros r; simpl; [done|]. by rewrite IH, max_event. }
  pose proof (budget_run es (Z.of_nat (length pre)) (req_run (request_new max) pre) ip t0 0) as Hb.
  rewrite Hm in Hb. cbn [max_per_minute request_new] in Hb. rewrite Z.add_0_l in Hb.
  apply Hb; [lia|lia|done|lia|done|].
  destruct (windows _ !! ip) as [w|] eqn:Hwin; simpl; [|lia]. pose proof (Hc _ _ Hwin) as Hcw. simpl in Hcw. lia.
Qed.

(** A refused caller who waits the seconds it is told is let through: the
    [Retry-After] of a refusal is at most a minute, and the next request of
    the address after it succeeds, even if the sweeper ran meanwhile. *)
Theorem retry_after_suffices r r' ip now secs later swept :
  (1 <= max_per_minute r)%Z → (∀ w, windows r !! ip = Some w → window_start w <= now)%Z →
  check r ip now = (r', Err secs) → (now + secs * 1000 <= later)%Z →
  (0 <= secs <= 60)%Z ∧
  (check r' ip later).2 = Ok () ∧ (check (request_sweep r' swept) ip later).2 = Ok ().
Proof.
  intros Hmax Hpast Hc Hl. unfold check in Hc. cbv zeta in Hc. injection Hc as Hr' He.
  set (w := current_window _ now) in *. cbn [requests window_start] in He.
  destruct (max_per_minute r <? incr (requests w))%Z eqn:Hfull; [|done]. injection He as Hs.
  assert (window_start w <= now)%Z as Hstart.
  { subst w. unfold current_window. case_if; simpl; [lia|].
    destruct (windows r !! ip) as [w|] eqn:Hw; simpl; [by apply Hpast|lia]. }
  assert (0 <= secs <= 60 ∧ WINDOW <= later - window_start w)%Z as [Hb Hage].
  { unfold sat_sub, as_secs, duration_since, WINDOW in *. rewrite (Z.max_r 0 (now - window_start w)) in Hs by lia.
    pose proof (Z.div_pos (now - window_start w) 1000 ltac:(lia) ltac:(lia)).
    pose proof (Z.mul_div_le (now - window_start w) 1000 ltac:(lia)). lia. }
  assert (∀ r2, max_per_minute r2 = max_per_minute r →
    (∀ x, windows r2 !! ip = Some x → WINDOW <= later - window_start x)%Z → (check r2 ip later).2 = Ok ()) as Hok.
  { intros r2 Hm Hx. unfold check; cbn [snd requests]. rewrite Hm.
    replace (requests (current_window _ later)) with 0%Z; [change (incr 0) with 1%Z; rewrite (proj2 (Z.ltb_ge (max_per_minute r) 1)) by lia; done|].
    unfold current_window. destruct (windows r2 !! ip) as [x|]; cbn [default from_option id].
    - specialize (Hx x eq_refl). unfold duration_since. rewrite (proj2 (Z.leb_le _ _)); [done|lia].
    - by destruct (_ <=? _)%Z. }
  subst r'. split; [exact Hb|]. split; apply Hok; try done.
  - cbn [windows]. intros x Hx. rewrite lookup_insert_eq in Hx. by injection Hx as <-.
  - intros x Hx. rewrite request_sweep_lookup in Hx. cbn [windows] in Hx. rewrite lookup_insert_eq in Hx.
    case_if; by simplify_eq/=.
Qed.

(** ** Examples *)

Definition toy_ip : str := bs "9.9.9.9".
Definition toy_limiter : RequestRateLimiter := request_new 2.
(** A full window that ends and a full one that begins within a minute. *)
Example twice_the_limit :
  let pre := [Check toy_ip 0] in
  let es := [Check toy_ip 59000; Check toy_ip 59500; Check toy_ip 60000; Check toy_ip 60001; Check toy_ip 60002] in
  passed (req_run toy_limiter pre) toy_ip es = 3%Z.
Proof. vm_compute. reflexivity. Qed.

(** A sweep that is interrupted between its two loops forgets a window that
    began meanwhile: more than twice the limit pass within a minute. *)
Lemma interrupted_sweep_forgets :
  let r1 := req_run toy_limiter [Check toy_ip 0; Check toy_ip 59990; Check toy_ip 60000; Check toy_ip 60001] in
  let r2 := request_remove r1 (request_expired (req_run toy_limiter [Check toy_ip 0; Check toy_ip 59990]) 60000) in
  (passed (req_run toy_limiter [Check toy_ip 0]) toy_ip [Check toy_ip 59990; Check toy_ip 60000; Check toy_ip 60001] +
   passed r2 toy_ip [Check toy_ip 60002; Check toy_ip 60003] = 5)%Z.
Proof. vm_compute. reflexivity. Qed.

Lemma minute_bound_witness :
  (passed (req_run (request_new 2) [Check toy_ip 0]) toy_ip
    [Check toy_ip 59000; Sweep 59100; Check toy_ip 60000; Check toy_ip 60001] <= 2 * 2)%Z.
Proof.
  assert (within 59000 (59000 + WINDOW) [Check toy_ip 59000; Sweep 59100; Check toy_ip 60000; Check toy_ip 60001])
    as Hw by (repeat constructor; vm_compute; congruence).
  apply (minute_bound 2 [Check toy_ip 0] _ toy_ip 59000); [lia|vm_compute; reflexivity|exact Hw].
Defined.

Lemma retry_after_witness :
  let r := req_run toy_limiter [Check toy_ip 0; Check toy_ip 10] in
  ∃ r', check r toy_ip 20500 = (r', Err 40%Z) ∧ (check r' toy_ip 60500).2 = Ok ().
Proof.
  intros r. exists (check r toy_ip 20500).1.
  assert (check r toy_ip 20500 = ((check r toy_ip 20500).1, Err 40%Z)) as Hc by (vm_compute; reflexivity).
  assert (∀ w, windows r !! toy_ip = Some w → window_start w <= 20500)%Z as Hp.
  { intros w Hw. replace (windows r !! toy_ip) with (Some (mkWindow 2 0)) in Hw by (vm_compute; reflexivity).
    injection Hw as <-. vm_compute. discriminate. }
  split; [exact Hc|].
  assert (1 <= max_per_minute r)%Z as H1 by (vm_compute; discriminate).
  assert (20500 + 40 * 1000 <= 60500)%Z as H2 by lia.
  exact (proj1 (proj2 (retry_after_suffices r _ toy_ip 20500 40 60500 0 H1 Hp Hc H2))).
Defined.
