(* ===== verification/Auth.v ===== *)
(** * Authentication of the gateway

    The middlewares of [gateway/middleware.rs] that decide whether a request
    reaches its handler, with the one-time tickets of
    [gateway/handlers/auth.rs].  A request is what they look at: path, query,
    [Authorization] header and peer address; [Pass] stands for
    [next.run(req)]. *)
From S2P Require Import Prelude RateLimit.

Record Request := mkRequest {
  path : str; query : option str;
  authorization : option str;   (** the header, when it is text *)
  peer : option str }.          (** [ConnectInfo]: the address of the peer *)

Inductive Outcome :=
| Pass
| Unauthorized                         (** 401 *)
| TooMany (retry_after : option Z).    (** 429 *)
#[export] Instance outcome_eq_dec : EqDecision Outcome.
Proof. solve_decision. Defined.

(* @src opex-core/src/gateway/middleware.rs 174-179 extract_client_ip *)
Definition extract_client_ip (req : Request) : str := default (bs "unknown") (peer req).

(* @src opex-core/src/gateway/middleware.rs 184-186 is_loopback *)
Definition is_loopback (ip : str) : bool :=
  bool_decide (ip = bs "127.0.0.1") || bool_decide (ip = bs "::1") || starts_with (bs "::ffff:127.") ip.

(* @src opex-core/src/gateway/middleware.rs 195-211 is_docker_gateway *)
Definition is_docker_gateway (ip : str) : bool :=
  let ip := default ip (strip_prefix (bs "::ffff:") ip) in
  match split_on "." ip with
  | [a; b; c; d] =>
      let second := default 0%Z (parse_dec 8 b) in
      bool_decide (a = bs "172") && ((16 <=? second)%Z && (second <=? 31)%Z) &&
      bool_decide (is_Some (parse_dec 8 c)) && bool_decide (is_Some (parse_dec 8 d))
  | _ => false
  end.

Definition among (p : str) (l : list string) : bool := existsb (λ x, bool_decide (p = bs x)) l.
Definition under (p : str) (l : list string) : bool := existsb (λ x, starts_with (bs x) p) l.

(* @src opex-core/src/gateway/middleware.rs 232-244 auth_middleware *)
Definition is_public (p : str) : bool :=
  among p ["/health"; "/api/oauth/callback"; "/api/triggers/email/push"; "/api/csp-report"] ||
  under p ["/webhook/"; "/api/uploads/"; "/workspace-files/"; "/api/shares/"].

(* @src opex-core/src/gateway/middleware.rs 267-288 auth_middleware *)
Definition loopback_allowed (p : str) : bool :=
  among p ["/health"; "/api/vision/analyze"; "/api/internal/infra-event";
           "/api/sandbox/tool-call"; "/api/sandbox/tool-search"] ||
  under p ["/api/uploads/"].

(* @src opex-core/src/gateway/middleware.rs 294-298 auth_middleware *)
Definition codemode_path (p : str) : bool := among p ["/api/sandbox/tool-call"; "/api/sandbox/tool-search"].

(** Failures that do not count. *)
(* @src opex-core/src/gateway/middleware.rs 346-354 auth_middleware *)
Definition is_static_asset (p : str) : bool :=
  starts_with (bs "/_next/") p ||
  existsb (λ x, ends_with (bs x) p) [".js"; ".css"; ".png"; ".jpg"; ".ico"; ".svg"; ".woff2"]%string.
Definition is_setup_wizard (p : str) : bool := starts_with (bs "/api/setup/") p.

(** ** Tickets *)

(* @src opex-core/src/gateway/handlers/auth.rs 11-11 TICKET_TTL_SECS *)
Definition TICKET_TTL_SECS : Z := 30.
Definition fresh_ticket (created now : Z) : bool := (as_secs (duration_since now created) <? TICKET_TTL_SECS)%Z.

(* @src opex-core/src/gateway/handlers/auth.rs 16-25 api_create_ws_ticket *)
Definition api_create_ws_ticket (tickets : gmap str Z) (ticket : str) (now : Z) : gmap str Z :=
  <[ticket := now]> (filter (λ '(_, created), fresh_ticket created now = true) tickets).

(* @src opex-core/src/gateway/handlers/auth.rs 28-38 validate_ws_ticket *)
Definition validate_ws_ticket (tickets : gmap str Z) (ticket : str) (now : Z) : gmap str Z * bool :=
  match tickets !! ticket with
  | Some created => (delete ticket tickets, fresh_ticket created now)
  | None => (tickets, false)
  end.

(** The loop over the pairs of the query, up to the first valid ticket. *)
(* @src opex-core/src/gateway/middleware.rs 321-331 auth_middleware *)
Fixpoint try_tickets (tickets : gmap str Z) (pairs : list str) (now : Z) : gmap str Z * bool :=
  match pairs with
  | [] => (tickets, false)
  | kv :: rest =>
      match strip_prefix (bs "ticket=") kv with
      | Some val =>
          match validate_ws_ticket tickets val now with
          | (tickets', true) => (tickets', true)
          | (tickets', false) => try_tickets tickets' rest now
          end
      | None => try_tickets tickets rest now
      end
  end.

(** A socket path may show a ticket in its query. *)
(* @src opex-core/src/gateway/middleware.rs 321-331 auth_middleware *)
Definition socket_ticket (tickets : gmap str Z) (req : Request) (now : Z) : gmap str Z * bool :=
  match query req with
  | Some q => if starts_with (bs "/ws") (path req) then try_tickets tickets (split_on "&" q) now
              else (tickets, false)
  | None => (tickets, false)
  end.

(** ** The middlewares *)

Record AuthState := mkAuthState { limiter : AuthRateLimiter; ws_tickets : gmap str Z }.

(* @src opex-core/src/gateway/middleware.rs 213-359 auth_middleware *)
Definition auth_middleware (expected_token : str) (st : AuthState) (req : Request) (now : Z) : AuthState * Outcome :=
  let p := path req in
  if is_public p then (st, Pass) else
  let client_ip := extract_client_ip req in
  if is_loopback client_ip && loopback_allowed p then (st, Pass) else
  if is_docker_gateway client_ip && codemode_path p then (st, Pass) else
  let exempt_from_lockout := is_loopback client_ip in
  if valid_bearer (authorization req) expected_token
  then (mkAuthState (record_success (limiter st) client_ip) (ws_tickets st), Pass) else
  let '(tickets, ticketed) := socket_ticket (ws_tickets st) req now in
  if ticketed : bool then (mkAuthState (record_success (limiter st) client_ip) tickets, Pass) else
  if negb exempt_from_lockout && is_locked (limiter st) client_ip now
  then (mkAuthState (limiter st) tickets, TooMany None) else
  if negb exempt_from_lockout && negb (is_static_asset p) && negb (is_setup_wizard p)
  then (mkAuthState (record_failure (limiter st) client_ip now) tickets, Unauthorized)
  else (mkAuthState (limiter st) tickets, Unauthorized).

(* @src opex-core/src/gateway/middleware.rs 124-172 request_rate_limit_middleware *)
Definition request_rate_limit_middleware (expected_token : str) (r : RequestRateLimiter) (req : Request) (now : Z)
    : RequestRateLimiter * Outcome :=
  let p := path req in
  if bool_decide (p = bs "/health") || starts_with (bs "/ws") p then (r, Pass) else
  let client_ip := extract_client_ip req in
  if is_loopback client_ip || valid_bearer (authorization req) expected_token then (r, Pass) else
  match check r client_ip now with
  | (r', Ok _) => (r', Pass)
  | (r', Err retry_after) => (r', TooMany (Some retry_after))
  end.

(* @src opex-core/src/gateway/middleware.rs 90-122 webhook_rate_limit_middleware *)
Definition webhook_rate_limit_middleware (r : RequestRateLimiter) (req : Request) (now : Z)
    : RequestRateLimiter * Outcome :=
  if negb (starts_with (bs "/webhook/") (path req)) then (r, Pass) else
  let client_ip := extract_client_ip req in
  if is_loopback client_ip then (r, Pass) else
  match check r client_ip now with
  | (r', Ok _) => (r', Pass)
  | (r', Err retry_after) => (r', TooMany (Some retry_after))
  end.

(** ** Tickets are used once *)

Lemma try_tickets_true tickets pairs now tickets' :
  try_tickets tickets pairs now = (tickets', true) →
  ∃ val created, bs "ticket=" ++ val ∈ pairs ∧ tickets !! val = Some created ∧
    fresh_ticket created now = true ∧ tickets' !! val = None.
Proof.
  revert tickets. induction pairs as [|kv rest IH]; intros tickets; simpl; [done|].
  destruct (strip_prefix _ kv) as [val|] eqn:Hkv.
  - apply strip_prefix_Some in Hkv as ->. unfold validate_ws_ticket.
    destruct (tickets !! val) as [created|] eqn:Hval.
    + destruct (fresh_ticket created now) eqn:Hf.
      * intros [= <-]. exists val, created. split_and!; [left|done|done|apply lookup_delete_eq].
      * intros (v & c & Hin & Hv & Hc & Hn)%IH. apply lookup_delete_Some in Hv as [_ Hv].
        exists v, c. split_and!; [by right|done|done|done].
    + intros (v & c & Hin & Hv)%IH. exists v, c. split_and!; [by right|apply Hv..].
  - intros (v & c & Hin & Hv)%IH. exists v, c. split_and!; [by right|apply Hv..].
Qed.

(** C34: A request reaches its handler only by a public path, by an internal
    path from an internal address, by the bearer token, or, on a socket path,
    by a ticket of its query that was issued, is less than 30 seconds old and
    can never be used again. *)
(* @prop safety defs=auth_middleware,try_tickets,validate_ws_ticket,is_public,loopback_allowed,codemode_path witness=only_credentials_witness *)
Theorem only_credentials_pass expected_token st req now st' :
  auth_middleware expected_token st req now = (st', Pass) →
  is_public (path req) = true ∨
  (is_loopback (extract_client_ip req) = true ∧ loopback_allowed (path req) = true) ∨
  (is_docker_gateway (extract_client_ip req) = true ∧ codemode_path (path req) = true) ∨
  authorization req = Some (bs "Bearer " ++ expected_token) ∨
  (starts_with (bs "/ws") (path req) = true ∧
   ∃ q val created, query req = Some q ∧ bs "ticket=" ++ val ∈ split_on "&" q ∧
     ws_tickets st !! val = Some created ∧ (as_secs (duration_since now created) < 30)%Z ∧
     ws_tickets st' !! val = None).
Proof.
  unfold auth_middleware. case_if; [auto|]. case_if; [bool_hyps; auto|]. case_if; [bool_hyps; auto|].
  case_if.
  { intros _. unfold valid_bearer in *. right; right; right; left. destruct (authorization req) as [h|]; [|done].
    cbn [mbind option_bind] in *. destruct (strip_prefix _ h) as [t|] eqn:Ht; [|done].
    apply strip_prefix_Some in Ht as ->. bool_hyps. by subst. }
  destruct (socket_ticket _ _ _) as [tickets ticketed] eqn:Hq.
  destruct ticketed.
  - intros [= <-]. do 4 right. unfold socket_ticket in Hq. destruct (query req) as [q|]; [|done].
    destruct (starts_with (bs "/ws") (path req)) eqn:Hws; [|done]. split; [done|].
    apply try_tickets_true in Hq as (val & created & Hin & Hval & Hf & Hgone).
    exists q, val, created. split_and!; [done|done|done| |exact Hgone]. by apply Z.ltb_lt in Hf.
  - repeat case_if; done.
Qed.

(** ** Guessing *)

Inductive AuthEvent := Req (req : Request) (now : Z) | AuthSweep (now : Z).
Definition auth_time (e : AuthEvent) : Z := match e with Req _ now | AuthSweep now => now end.
Definition auth_event (expected_token : str) (st : AuthState) (e : AuthEvent) : AuthState :=
  match e with
  | Req req now => (auth_middleware expected_token st req now).1
  | AuthSweep now => mkAuthState (auth_sweep (limiter st) now) (ws_tickets st)
  end.
Fixpoint auth_run (expected_token : str) (st : AuthState) (es : list AuthEvent) : AuthState :=
  match es with [] => st | e :: es' => auth_run expected_token (auth_event expected_token st e) es' end.

(** A request of [ip] that is told its guess was wrong. *)
Definition rejected expected_token st ip (e : AuthEvent) : bool :=
  match e with
  | Req req now => bool_decide (extract_client_ip req = ip) &&
                   bool_decide ((auth_middleware expected_token st req now).2 = Unauthorized)
  | AuthSweep _ => false
  end.
Fixpoint rejections expected_token st ip (es : list AuthEvent) : Z :=
  match es with
  | [] => 0
  | e :: es' => (if rejected expected_token st ip e then 1 else 0) +
                rejections expected_token (auth_event expected_token st e) ip es'
  end%Z.

(** [ip] presents no valid credential, and only asks for paths whose
    failures count. *)
Definition guesses expected_token ip (e : AuthEvent) : Prop :=
  match e with
  | Req req _ => extract_client_ip req = ip →
      valid_bearer (authorization req) expected_token = false ∧
      (∀ q, query req = Some q → Forall (λ kv, strip_prefix (bs "ticket=") kv = None) (split_on "&" q)) ∧
      is_static_asset (path req) = false ∧ is_setup_wizard (path req) = false
  | AuthSweep _ => True
  end.

Lemma no_tickets tickets pairs now :
  Forall (λ kv, strip_prefix (bs "ticket=") kv = None) pairs → try_tickets tickets pairs now = (tickets, false).
Proof. induction 1 as [|kv rest H _ IH]; cbn [try_tickets]; [done|]. by rewrite H. Qed.

Lemma record_failure_other l ip ip' now : ip' ≠ ip → attempts (record_failure l ip' now) !! ip = attempts l !! ip.
Proof. intros. unfold record_failure; cbn. by apply lookup_insert_ne. Qed.

(** Another address does not touch the entry. *)
Lemma auth_other expected_token st req now ip :
  extract_client_ip req ≠ ip →
  let st' := (auth_middleware expected_token st req now).1 in
  attempts (limiter st') !! ip = attempts (limiter st) !! ip.
Proof.
  intros Hne. unfold auth_middleware.
  repeat case_if; cbn [fst limiter]; try done;
    try (unfold record_success; cbn; by apply lookup_delete_ne).
  all: destruct (socket_ticket _ _ _) as [tickets []]; cbn [fst limiter];
    try (unfold record_success; cbn; by apply lookup_delete_ne).
  all: repeat case_if; cbn [fst limiter]; try done; by apply record_failure_other.
Qed.
Lemma auth_params expected_token st e :
  max_attempts (limiter (auth_event expected_token st e)) = max_attempts (limiter st) ∧
  lockout_secs (limiter (auth_event expected_token st e)) = lockout_secs (limiter st).
Proof.
  destruct e as [req now|now]; [|done]. cbn [auth_event]. unfold auth_middleware.
  repeat case_if; try done.
  all: destruct (socket_ticket _ _ _) as [tickets []]; repeat case_if; done.
Qed.

(** [k] rejections of an address since [t0], and the entry it has. *)
Definition guess_inv (l : AuthRateLimiter) (t0 k : Z) (o : option Attempt) : Prop :=
  match o with
  | None => k = 0
  | Some e =>
      match locked_until e with
      | None => k = fail_count e ∧ k < max_attempts l ∧ t0 <= first_fail e
      | Some until => k <= max_attempts l ∧ t0 + lockout_secs l * 1000 <= until
      end
  end%Z.

Lemma record_failure_inv l ip t0 k now :
  (1 <= max_attempts l < 2 ^ 32)%Z → (0 <= k)%Z → (t0 <= now < t0 + lockout_secs l * 1000)%Z →
  is_locked l ip now = false → guess_inv l t0 k (attempts l !! ip) →
  guess_inv l t0 (k + 1) (attempts (record_failure l ip now) !! ip).
Proof.
  intros Hm Hk Ht Hl Hi. unfold record_failure; cbn [attempts with_attempts]. rewrite lookup_insert_eq.
  unfold is_locked in Hl. unfold failed_entry.
  assert (∀ e, (t0 <= first_fail e)%Z → (lockout_secs l <? as_secs (duration_since now (first_fail e)))%Z = false) as Hyoung.
  { intros e He. apply Z.ltb_ge. unfold as_secs, duration_since.
    apply Z.div_le_upper_bound; lia. }
  destruct (attempts l !! ip) as [e|]; cbn [default from_option id mbind option_bind] in *.
  - destruct (locked_until e) as [until|] eqn:Hu; cbn [guess_inv] in Hi; rewrite Hu in Hi.
    + bool_hyps. lia.
    + destruct Hi as (-> & Hlt & Hf). rewrite Hyoung, andb_false_r by done.
      rewrite incr_small by lia. case_if; cbn [guess_inv locked_until fail_count first_fail]; bool_hyps; [lia|].
      rewrite Hu. lia.
  - cbn [guess_inv] in Hi. subst k. cbn [locked_until first_fail fail_count].
    pose proof (Hyoung (mkAttempt 0 now None)) as Hy. cbn [first_fail] in Hy.
    rewrite Hy, andb_false_r by lia. cbn [fail_count]. change (incr 0) with 1%Z.
    cbn [fail_count first_fail locked_until].
    case_if; cbn [guess_inv locked_until fail_count first_fail]; bool_hyps; lia.
Qed.

Lemma guess_event expected_token st ip e t0 k :
  is_loopback ip = false →
  (1 <= max_attempts (limiter st) < 2 ^ 32)%Z → (0 <= k)%Z → guesses expected_token ip e →
  (t0 <= auth_time e < t0 + lockout_secs (limiter st) * 1000)%Z →
  guess_inv (limiter st) t0 k (attempts (limiter st) !! ip) →
  guess_inv (limiter st) t0 ((if rejected expected_token st ip e then 1 else 0) + k)
    (attempts (limiter (auth_event expected_token st e)) !! ip).
Proof.
  intros Hloop Hm Hk Hg Ht Hi. destruct e as [req now|now]; cbn [rejected auth_event auth_time guesses] in *.
  - destruct (decide (extract_client_ip req = ip)) as [Hip|Hip].
    2: { rewrite bool_decide_eq_false_2 by done. cbn [andb]. rewrite Z.add_0_l.
         pose proof (auth_other expected_token st req now ip Hip) as Ho. cbv zeta in Ho. by rewrite Ho. }
    rewrite bool_decide_eq_true_2 by done. cbn [andb].
    destruct (Hg Hip) as (Hb & Hq & Hs & Hw). unfold auth_middleware. rewrite Hip, Hloop, Hb, Hs, Hw. cbn [andb negb].
    destruct (is_public (path req)); [cbn; by rewrite Z.add_0_l|].
    destruct (is_docker_gateway ip && codemode_path (path req)); [cbn; by rewrite Z.add_0_l|].
    assert (socket_ticket (ws_tickets st) req now = (ws_tickets st, false)) as ->.
    { unfold socket_ticket. destruct (query req) as [q|]; [|done]. case_if; [|done]. apply no_tickets. by apply Hq. }
    destruct (is_locked (limiter st) ip now) eqn:Hlock; cbn; [by rewrite Z.add_0_l|].
    rewrite Z.add_comm. by apply record_failure_inv.
  - rewrite Z.add_0_l. cbn [limiter]. rewrite auth_sweep_lookup.
    destruct (attempts (limiter st) !! ip) as [a|]; [|exact Hi].
    replace (attempt_expired (limiter st) a now) with false; [exact Hi|].
    unfold attempt_expired, duration_since. cbn [guess_inv] in Hi.
    destruct (locked_until a); symmetry; apply Z.leb_gt; lia.
Qed.

Lemma guess_run expected_token es st ip t0 k :
  is_loopback ip = false → (1 <= max_attempts (limiter st) < 2 ^ 32)%Z → (0 <= k)%Z →
  Forall (guesses expected_token ip) es →
  Forall (λ e, t0 <= auth_time e < t0 + lockout_secs (limiter st) * 1000)%Z es →
  guess_inv (limiter st) t0 k (attempts (limiter st) !! ip) →
  (k + rejections expected_token st ip es <= max_attempts (limiter st))%Z.
Proof.
  intros Hloop. revert st k. induction es as [|e es IH]; intros st k Hm Hk Hg Ht Hi; cbn [rejections].
  - rewrite Z.add_0_r. destruct (attempts (limiter st) !! ip) as [a|]; cbn [guess_inv] in Hi; [|lia].
    destruct (locked_until a); lia.
  - apply Forall_cons in Hg as [Hge Hg]. apply Forall_cons in Ht as [Hte Ht].
    pose proof (guess_event expected_token st ip e t0 k Hloop Hm Hk Hge Hte Hi) as Hi'.
    destruct (auth_params expected_token st e) as [Hmax Hlock].
    set (d := (if rejected expected_token st ip e then 1 else 0)%Z) in *.
    assert (0 <= d)%Z as Hd by (unfold d; case_if; lia).
    specialize (IH (auth_event expected_token st e) (d + k)%Z). rewrite Hmax, Hlock in IH.
    assert (guess_inv (limiter (auth_event expected_token st e)) t0 (d + k)
      (attempts (limiter (auth_event expected_token st e)) !! ip)) as Hi''.
    { unfold guess_inv in *. by rewrite Hmax, Hlock. }
    specialize (IH Hm ltac:(lia) Hg Ht Hi''). lia.
Qed.

(** An address that has no failures on record and presents no valid
    credential is told at most [max_attempts] times, within one lockout
    period, that its guess was wrong, whatever else the gateway does
    meanwhile; every other request of it is refused unseen. *)
Theorem guessing_is_bounded expected_token st ip t0 es :
  is_loopback ip = false → (1 <= max_attempts (limiter st) < 2 ^ 32)%Z →
  attempts (limiter st) !! ip = None → Forall (guesses expected_token ip) es →
  Forall (λ e, t0 <= auth_time e < t0 + lockout_secs (limiter st) * 1000)%Z es →
  (rejections expected_token st ip es <= max_attempts (limiter st))%Z.
Proof.
  intros Hloop Hm Hnone Hg Ht.
  pose proof (guess_run expected_token es st ip t0 0 Hloop Hm ltac:(lia) Hg Ht) as H.
  rewrite Hnone in H. apply H. done.
Qed.

(** The bound is void for guesses on a path that ends like an asset: they
    are answered 401 or let through, forever, and never counted, so the token
    can be searched there without a lockout. *)
Theorem asset_guesses_are_free expected_token st req now :
  is_static_asset (path req) = true → is_public (path req) = false →
  codemode_path (path req) = false → is_loopback (extract_client_ip req) = false → query req = None →
  is_locked (limiter st) (extract_client_ip req) now = false →
  (valid_bearer (authorization req) expected_token = false →
     auth_middleware expected_token st req now = (st, Unauthorized)) ∧
  (valid_bearer (authorization req) expected_token = true →
     (auth_middleware expected_token st req now).2 = Pass).
Proof.
  intros Hs Hp Hc Hl Hq Hk. unfold auth_middleware, socket_ticket. rewrite Hp, Hl, Hc, Hs, Hq, Hk, andb_false_r. cbn [andb negb].
  split; intros ->; [|done]. by destruct st.
Qed.

(** A lock that has run out but was not swept is renewed by one failure. *)
Lemma expired_lock_renewed l ip e until now :
  attempts l !! ip = Some e → locked_until e = Some until → (until <= now)%Z →
  (0 <= fail_count e)%Z → (fail_count e + 1 < 2 ^ 32)%Z → (max_attempts l <= fail_count e)%Z → (0 < lockout_secs l)%Z →
  is_locked l ip now = false ∧ is_locked (record_failure l ip now) ip now = true.
Proof.
  intros He Hu Hn H0 H1 Hm Hls. unfold is_locked, record_failure, failed_entry. cbn [attempts with_attempts].
  rewrite He, lookup_insert_eq. cbn [mbind option_bind default from_option id]. rewrite Hu.
  cbn [bool_decide]. rewrite (bool_decide_eq_false_2 (Some until = None)) by done. cbn [andb].
  rewrite incr_small by lia. rewrite (proj2 (Z.leb_le _ _)) by lia. cbn [locked_until].
  split; [apply Z.ltb_ge; lia|apply Z.ltb_lt; lia].
Qed.

(** ** Examples *)

Definition toy_auth : AuthState := mkAuthState (auth_new 2 30) {[bs "t1" := 0%Z]}.
Definition toy_req (p : string) (token : option string) : Request :=
  mkRequest (bs p) None ((λ t, bs "Bearer " ++ bs t) <$> token) (Some (bs "9.9.9.9")).

Example auth_ex :
  let run := auth_run (bs "key") toy_auth in
  let ask st p token now := (auth_middleware (bs "key") st (toy_req p token) now).2 in
  ask toy_auth "/api/agents" (Some "key"%string) 0%Z = Pass ∧
  ask toy_auth "/api/agents" (Some "kex"%string) 0%Z = Unauthorized ∧
  ask (run [Req (toy_req "/api/agents" None) 0%Z; Req (toy_req "/api/agents" None) 10%Z]) "/api/agents" None 20%Z = TooMany None ∧
  ask toy_auth "/api/shares/x" None 0%Z = Pass ∧
  is_docker_gateway (bs "::ffff:172.18.0.1") = true ∧ is_docker_gateway (bs "172.32.0.1") = false.
Proof. vm_compute. repeat split. Qed.

Lemma only_credentials_witness :
  let req := mkRequest (bs "/ws") (Some (bs "ticket=t1")) None (Some (bs "9.9.9.9")) in
  let st' := (auth_middleware (bs "key") toy_auth req 500).1 in
  (auth_middleware (bs "key") toy_auth req 500).2 = Pass ∧
  (∃ q val created, query req = Some q ∧ bs "ticket=" ++ val ∈ split_on "&" q ∧
     ws_tickets toy_auth !! val = Some created ∧ (as_secs (duration_since 500 created) < 30)%Z ∧
     ws_tickets st' !! val = None).
Proof.
  intros req st'.
  assert ((auth_middleware (bs "key") toy_auth req 500).2 = Pass) as Hp by (vm_compute; reflexivity).
  assert (auth_middleware (bs "key") toy_auth req 500 = (st', Pass)) as H.
  { rewrite <- Hp. apply surjective_pairing. }
  split; [exact Hp|].
  destruct (only_credentials_pass (bs "key") toy_auth req 500 st' H) as [H1|[[H1 _]|[[H1 _]|[H1|[_ H1]]]]];
    [discriminate H1|discriminate H1|discriminate H1|discriminate H1|exact H1].
Defined.

Lemma guessing_witness :
  (rejections (bs "key") toy_auth (bs "9.9.9.9")
    [Req (toy_req "/api/agents" None) 0; Req (toy_req "/api/agents" (Some "x"%string)) 5;
     AuthSweep 6; Req (toy_req "/api/agents" (Some "y"%string)) 7] <= 2)%Z.
Proof.
  apply (guessing_is_bounded (bs "key") toy_auth (bs "9.9.9.9") 0).
  - vm_compute. reflexivity.
  - split; vm_compute; [discriminate|reflexivity].
  - vm_compute. reflexivity.
  - repeat constructor; try discriminate.
  - repeat constructor; vm_compute; discriminate || reflexivity.
Defined.

Lemma asset_guess_witness :
  auth_middleware (bs "key") toy_auth (toy_req "/x.js" (Some "guess"%string)) 5 = (toy_auth, Unauthorized) ∧
  (auth_middleware (bs "key") toy_auth (toy_req "/x.js" (Some "key"%string)) 5).2 = Pass.
Proof.
  assert (∀ t, is_static_asset (path (toy_req "/x.js" t)) = true) as H1 by reflexivity.
  assert (∀ t, is_public (path (toy_req "/x.js" t)) = false) as H2 by reflexivity.
  assert (∀ t, codemode_path (path (toy_req "/x.js" t)) = false) as H3 by reflexivity.
  assert (∀ t, is_loopback (extract_client_ip (toy_req "/x.js" t)) = false) as H4 by reflexivity.
  assert (∀ t, is_locked (limiter toy_auth) (extract_client_ip (toy_req "/x.js" t)) 5 = false) as H5 by reflexivity.
  split.
  - exact (proj1 (asset_guesses_are_free (bs "key") toy_auth (toy_req "/x.js" (Some "guess"%string)) 5
      (H1 _) (H2 _) (H3 _) (H4 _) eq_refl (H5 _)) eq_refl).
  - exact (proj2 (asset_guesses_are_free (bs "key") toy_auth (toy_req "/x.js" (Some "key"%string)) 5
      (H1 _) (H2 _) (H3 _) (H4 _) eq_refl (H5 _)) eq_refl).
Defined.
