(* ===== verification/Ssrf.v ===== *)
(** * Outbound requests

    The guard of [net/ssrf.rs] against requests to internal addresses: the
    address classes, the name resolvers of the two clients, and the checks
    of a URL.  Addresses are 32- and 128-bit integers, as the octets and
    segments of [std::net] in network order; their textual form is read as
    [IpAddr::from_str] does.  The [url] crate is a parameter: a function from
    a text to the parts of a URL the code asks for; DNS is another. *)
From S2P Require Import Prelude.

(** ** Addresses *)

Inductive IpAddr := V4 (a : Z) | V6 (a : Z).
#[export] Instance ip_eq_dec : EqDecision IpAddr.
Proof. solve_decision. Defined.

(** [octets()[i]] and [segments()[i]] *)
Definition octet (a i : Z) : Z := Z.land (Z.shiftr a (8 * (3 - i))) 0xff.
Definition segment (a i : Z) : Z := Z.land (Z.shiftr a (16 * (7 - i))) 0xffff.

(** The tests of [Ipv4Addr] and [Ipv6Addr]. *)
Definition v4_is_loopback (a : Z) : bool := (octet a 0 =? 127)%Z.
Definition v4_is_private (a : Z) : bool :=
  ((octet a 0 =? 10) || (octet a 0 =? 172) && ((16 <=? octet a 1) && (octet a 1 <=? 31)) ||
   (octet a 0 =? 192) && (octet a 1 =? 168))%Z.
Definition v4_is_link_local (a : Z) : bool := ((octet a 0 =? 169) && (octet a 1 =? 254))%Z.
Definition v4_is_broadcast (a : Z) : bool := (a =? 0xffffffff)%Z.
Definition v4_is_multicast (a : Z) : bool := ((224 <=? octet a 0) && (octet a 0 <=? 239))%Z.
Definition v6_is_loopback (a : Z) : bool := (a =? 1)%Z.
Definition v6_is_multicast (a : Z) : bool := (Z.land (segment a 0) 0xff00 =? 0xff00)%Z.
Definition to_ipv4_mapped (a : Z) : option Z :=
  if (Z.shiftr a 32 =? 0xffff)%Z then Some (Z.land a 0xffffffff) else None.

Definition is_cgnat (a : Z) : bool := ((octet a 0 =? 100) && (Z.land (octet a 1) 0xC0 =? 64))%Z.

(* @src opex-core/src/net/ssrf.rs 103-112 is_private_ip *)
Definition is_private_v4 (a : Z) : bool :=
  v4_is_loopback a || v4_is_private a || v4_is_link_local a || v4_is_broadcast a || v4_is_multicast a ||
  (a =? 0)%Z || is_cgnat a.
(* @src opex-core/src/net/ssrf.rs 118-130 is_private_ip *)
Definition is_private_v6 (a : Z) : bool :=
  v6_is_loopback a || (a =? 0)%Z || v6_is_multicast a ||
  (Z.land (segment a 0) 0xfe00 =? 0xfc00)%Z || (Z.land (segment a 0) 0xffc0 =? 0xfe80)%Z ||
  ((segment a 0 =? 0x2001) && (segment a 1 =? 0))%Z || (segment a 0 =? 0x2002)%Z.
(* @src opex-core/src/net/ssrf.rs 101-132 is_private_ip *)
Definition is_private_ip (ip : IpAddr) : bool :=
  match ip with
  | V4 a => is_private_v4 a
  | V6 a => match to_ipv4_mapped a with Some v4 => is_private_v4 v4 | None => is_private_v6 a end
  end.

(* @src opex-core/src/net/ssrf.rs 143-150 is_dangerous_ip *)
Definition is_dangerous_v4 (a : Z) : bool :=
  v4_is_loopback a || v4_is_link_local a || v4_is_broadcast a || v4_is_multicast a || (a =? 0)%Z || is_cgnat a.
(* @src opex-core/src/net/ssrf.rs 141-161 is_dangerous_ip *)
Definition is_dangerous_ip (ip : IpAddr) : bool :=
  match ip with
  | V4 a => is_dangerous_v4 a
  | V6 a =>
      match to_ipv4_mapped a with
      | Some v4 => is_dangerous_v4 v4
      | None => v6_is_loopback a || (a =? 0)%Z || v6_is_multicast a || (Z.land (segment a 0) 0xffc0 =? 0xfe80)%Z
      end
  end.

(** ** The text of an address: [IpAddr::from_str] *)

(** A number of at most [max] digits below [bound], and the rest. *)
Fixpoint read_digits (radix : Z) (max : nat) (acc : Z) (s : str) : Z * nat * str :=
  match max, s with
  | S max', c :: s' =>
      match hex_val c with
      | Some d => if (d <? radix)%Z
                  then let '(v, n, r) := read_digits radix max' (acc * radix + d)%Z s' in (v, S n, r)
                  else (acc, O, s)
      | None => (acc, O, s)
      end
  | _, _ => (acc, O, s)
  end.
(** [read_number]: the text may not go on with another digit. *)
Definition read_number (radix : Z) (max : nat) (bound : Z) (zero_prefix : bool) (s : str) : option (Z * str) :=
  let '(v, n, r) := read_digits radix max 0 s in
  let more := match r with c :: _ => match hex_val c with Some d => (d <? radix)%Z | None => false end | [] => false end in
  if (n =? 0) || (bound <=? v)%Z || more then None else
  if negb zero_prefix && starts_with (bs "0") s && (1 <? n) then None else Some (v, r).

Definition read_sep (sep : ascii) (i : nat) (s : str) : option str :=
  if i =? 0 then Some s else strip_prefix [sep] s.
Fixpoint read_octets (k i : nat) (acc : Z) (s : str) : option (Z * str) :=
  match k with
  | O => Some (acc, s)
  | S k' =>
      s ← read_sep "." i s; '(v, s) ← read_number 10 3 256 false s; read_octets k' (S i) (acc * 256 + v)%Z s
  end.
Definition read_ipv4 (s : str) : option (Z * str) := read_octets 4 0 0 s.

(** Up to [limit] groups; whether an IPv4 address ended them. *)
Fixpoint read_groups (left i : nat) (s : str) : list Z * bool * str :=
  match left with
  | O => ([], false, s)
  | S left' =>
      let v4 := if 1 <? left then s ← read_sep ":" i s; read_ipv4 s else None in
      match v4 with
      | Some (a, r) => ([Z.shiftr a 16; Z.land a 0xffff], true, r)
      | None =>
          match s' ← read_sep ":" i s; read_number 16 4 65536 true s' with
          | Some (g, r) => let '(gs, b, r') := read_groups left' (S i) r in (g :: gs, b, r')
          | None => ([], false, s)
          end
      end
  end.
Definition of_segments (gs : list Z) : Z := foldl (λ a g, a * 65536 + g)%Z 0%Z gs.
Definition read_ipv6 (s : str) : option (Z * str) :=
  let '(head, head_v4, r) := read_groups 8 0 s in
  if length head =? 8 then Some (of_segments head, r) else
  if head_v4 : bool then None else
  r ← strip_prefix (bs "::") r;
  let '(tail, _, r) := read_groups (7 - length head) 0 r in
  Some (of_segments (head ++ replicate (8 - length head - length tail) 0%Z ++ tail), r).
Definition parse_ip (s : str) : option IpAddr :=
  match read_ipv4 s with
  | Some (a, []) => if length s <=? 15 then Some (V4 a) else None
  | _ => match read_ipv6 s with Some (a, []) => Some (V6 a) | _ => None end
  end.

Example parse_ip_ex :
  parse_ip (bs "127.0.0.1") = Some (V4 0x7f000001) ∧ parse_ip (bs "::1") = Some (V6 1) ∧
  parse_ip (bs "::ffff:10.0.0.1") = Some (V6 0xffff0a000001) ∧ parse_ip (bs "01.2.3.4") = None ∧
  parse_ip (bs "2606:4700:4700::1111") = Some (V6 0x26064700470000000000000000001111) ∧
  parse_ip (bs "256.1.1.1") = None ∧ parse_ip (bs "[::1]") = None ∧ parse_ip (bs "::1.2.3.4:5") = None ∧
  parse_ip (bs "1:2:3:4:5:6:7:8") = Some (V6 0x00010002000300040005000600070008) ∧ parse_ip (bs "localhost") = None.
Proof. vm_compute. repeat split. Qed.

(** ** URLs *)

Inductive Host := Domain (d : str) | HostV4 (a : Z) | HostV6 (a : Z).
Record Url := mkUrl {
  scheme : str;
  host : option Host;                  (** [Url::host] *)
  host_str : option str;               (** [Url::host_str] *)
  port_or_known_default : option Z }.

(* @src opex-core/src/net/ssrf.rs 41-53 SsrfError *)
Inductive SsrfError :=
| InvalidUrl | BlockedScheme (s : str) | InternalBlocked (s : str) | PrivateIpResolved.

(* @src opex-core/src/net/ssrf.rs 66-70 METADATA_HOSTNAME_BLOCKLIST *)
Definition METADATA_HOSTNAME_BLOCKLIST : list str :=
  [bs "metadata.google.internal"; bs "metadata.goog"; bs "metadata"].
(* @src opex-core/src/net/ssrf.rs 82-93 INTERNAL_BLOCKLIST *)
Definition INTERNAL_BLOCKLIST : list str :=
  [bs "localhost:9011"; bs "toolgate:9011"; bs "localhost:9020"; bs "browser-renderer:9020"; bs "localhost:8080";
   bs "searxng:8080"; bs "localhost:18789"; bs "localhost:5432"; bs "postgres:5432"; bs "localhost:2375"].

(** [trim_end_matches('.')] *)
Definition trim_dots (s : str) : str := reverse (strip_all [bs "."] (length s) (reverse s)).
(* @src opex-core/src/net/ssrf.rs 73-78 is_blocked_metadata_hostname *)
Definition is_blocked_metadata_hostname (host : str) : bool :=
  let host := to_ascii_lowercase (trim_dots host) in
  existsb (λ blocked, bool_decide (host = blocked) || ends_with (bs "." ++ blocked) host) METADATA_HOSTNAME_BLOCKLIST.

Section guard.
Context (parse_url : str → option Url).

Definition authority (h : str) (u : Url) : str := h ++ bs ":" ++ decZ (default 80%Z (port_or_known_default u)).

(* @src opex-core/src/net/ssrf.rs 247-255 is_internal_endpoint *)
Definition is_internal_endpoint (url : str) : bool :=
  match parse_url url with
  | None => false
  | Some u => bool_decide (authority (default [] (host_str u)) u ∈ INTERNAL_BLOCKLIST)
  end.

(* @src opex-core/src/net/ssrf.rs 355-366 validate_url_scheme *)
Definition http_host (url : str) : result SsrfError (Url * str) :=
  parsed ← ok_or InvalidUrl (parse_url url);
  if bool_decide (scheme parsed = bs "http") || bool_decide (scheme parsed = bs "https") then
    h ← ok_or InvalidUrl (host_str parsed); Ok (parsed, h)
  else Err (BlockedScheme (scheme parsed)).

(* @src opex-core/src/net/ssrf.rs 354-398 validate_url_scheme *)
Definition validate_url_scheme (url : str) : result SsrfError () :=
  '(parsed, h) ← http_host url;
  let authority := authority h parsed in
  if bool_decide (authority ∈ INTERNAL_BLOCKLIST) then Err (InternalBlocked authority) else
  if is_blocked_metadata_hostname h
  then Err (InternalBlocked (bs "URL targets cloud-metadata hostname (" ++ h ++ bs ")")) else
  let ip := match host parsed with Some (HostV4 a) => Some (V4 a) | Some (HostV6 a) => Some (V6 a) | _ => None end in
  match ip with
  | Some ip => if is_private_ip ip
               then Err (InternalBlocked (bs "URL targets private IP address (" ++ h ++ bs ")")) else Ok ()
  | None => Ok ()
  end.

(* @src opex-core/src/net/ssrf.rs 308-313 validate_outbound_endpoint *)
Definition validate_outbound_endpoint (endpoint : str) : result SsrfError () :=
  if is_internal_endpoint endpoint then Ok () else validate_url_scheme endpoint.

(* @src opex-core/src/net/ssrf.rs 322-339 validate_lan_endpoint *)
Definition validate_lan_endpoint (endpoint : str) : result SsrfError () :=
  '(_, h) ← http_host endpoint;
  match parse_ip h with
  | Some ip => if is_dangerous_ip ip then Err (InternalBlocked h) else Ok ()
  | None => Ok ()
  end.

(** ** Clients

    What a client may connect to: a literal address as it is written, a name
    as its resolver answers. *)
Inductive Client := SafeClient | LanClient | PlainClient.
(** [lookup_host], which may answer differently at every call. *)
Context (lookup_host : str → option (list IpAddr)).

(* @src opex-core/src/net/ssrf.rs 218-241 SsrfSafeResolver::resolve *)
Definition safe_resolve (name : str) : option (list IpAddr) :=
  addrs ← lookup_host name;
  let addrs := List.filter (λ a, negb (is_private_ip a)) addrs in
  if bool_decide (addrs = []) then None else Some addrs.
(* @src opex-core/src/net/ssrf.rs 168-191 SsrfLanResolver::resolve *)
Definition lan_resolve (name : str) : option (list IpAddr) :=
  addrs ← lookup_host name;
  let addrs := List.filter (λ a, negb (is_dangerous_ip a)) addrs in
  if bool_decide (addrs = []) then None else Some addrs.

Definition targets (c : Client) (url : str) : list IpAddr :=
  match parse_url url ≫= host with
  | Some (HostV4 a) => [V4 a]
  | Some (HostV6 a) => [V6 a]
  | Some (Domain d) =>
      default [] (match c with SafeClient => safe_resolve d | LanClient => lan_resolve d | PlainClient => lookup_host d end)
  | None => []
  end.

(* @src opex-core/src/net/ssrf.rs 285-295 select_ssrf_aware_client *)
Definition select_ssrf_aware_client (endpoint : str) : Client :=
  if is_internal_endpoint endpoint then PlainClient else SafeClient.

(* @src opex-core/src/net/ssrf.rs 416-444 preflight_resolve *)
Definition preflight_resolve (h : str) : result SsrfError () :=
  match parse_ip h with
  | Some ip => if is_private_ip ip then Err PrivateIpResolved else Ok ()
  | None =>
      match lookup_host h with
      | Some addrs =>
          if existsb is_private_ip addrs then Err PrivateIpResolved else
          if bool_decide (addrs = []) then Err PrivateIpResolved else Ok ()
      | None => Err PrivateIpResolved
      end
  end.
End guard.

(** Arithmetic with divisions by constants. *)
Ltac dlia := Z.div_mod_to_equations; lia.

(** ** The ranges *)

(** [a] lies in the network of [len] bits at [base]. *)
Definition in_net (bits : Z) (net : Z * Z) (a : Z) : bool :=
  (Z.shiftr a (bits - net.2) =? Z.shiftr net.1 (bits - net.2))%Z.
Definition ip4 (a b c d : Z) : Z := (((a * 256 + b) * 256 + c) * 256 + d)%Z.
Definition ip6 (gs : list Z) : Z := of_segments (gs ++ replicate (8 - length gs) 0%Z).

(** The documented lists: RFC 1918, loopback, link-local, CGNAT, multicast,
    broadcast and unspecified; for version 6 also unique local, Teredo and
    6to4. *)
Definition private_nets4 : list (Z * Z) :=
  [(ip4 127 0 0 0, 8); (ip4 10 0 0 0, 8); (ip4 172 16 0 0, 12); (ip4 192 168 0 0, 16); (ip4 169 254 0 0, 16);
   (ip4 255 255 255 255, 32); (ip4 224 0 0 0, 4); (ip4 0 0 0 0, 32); (ip4 100 64 0 0, 10)]%Z.
Definition private_nets6 : list (Z * Z) :=
  [(1, 128); (0, 128); (ip6 [0xff00], 8); (ip6 [0xfc00], 7); (ip6 [0xfe80], 10);
   (ip6 [0x2001; 0], 32); (ip6 [0x2002], 16)]%Z.
Definition lan_nets4 : list (Z * Z) := [(ip4 10 0 0 0, 8); (ip4 172 16 0 0, 12); (ip4 192 168 0 0, 16)]%Z.

Lemma octet_eq a i : (0 <= i <= 3)%Z → octet a i = (a / 2 ^ (8 * (3 - i)) mod 256)%Z.
Proof.
  intros Hi. unfold octet. rewrite Z.shiftr_div_pow2 by lia. change 255%Z with (Z.ones 8).
  by rewrite Z.land_ones.
Qed.
Lemma segment_eq a i : (0 <= i <= 7)%Z → segment a i = (a / 2 ^ (16 * (7 - i)) mod 65536)%Z.
Proof.
  intros Hi. unfold segment. rewrite Z.shiftr_div_pow2 by lia. change 65535%Z with (Z.ones 16).
  by rewrite Z.land_ones.
Qed.

(** A mask of the upper bits of a [w]-bit number. *)
Lemma mask_high w k s m :
  (0 <= k)%Z → (0 <= w)%Z → m = Z.ldiff (Z.ones w) (Z.ones k) → (0 <= s < 2 ^ w)%Z →
  Z.land s m = (s / 2 ^ k * 2 ^ k)%Z.
Proof.
  intros Hk Hw -> Hs.
  assert (Z.land s (Z.ones w) = s) as He by (rewrite Z.land_ones by done; apply Z.mod_small; lia).
  rewrite <- (Z.shiftl_mul_pow2 _ k) by done. rewrite <- (Z.shiftr_div_pow2 _ k) by done.
  rewrite <- Z.ldiff_ones_r by done. rewrite !Z.ldiff_land, Z.land_assoc, He. done.
Qed.

(** Rewrite the tests of the code and of the table into divisions. *)
Ltac net_tac :=
  unfold in_net, ip4; cbn [fst snd]; rewrite ?Z.shiftr_div_pow2 by lia.
Ltac bool_eq := apply eq_iff_eq_true; rewrite ?andb_true_iff, ?orb_true_iff, ?Z.eqb_eq, ?Z.leb_le.

Section ranges4.
Context (a : Z) (Hu : in_u 32 a).
Lemma Ha : (0 <= a < 4294967296)%Z.
Proof. unfold in_u, umax in Hu. change (2 ^ 32)%Z with 4294967296%Z in Hu. lia. Qed.
Lemma oct0 : octet a 0 = (a / 16777216)%Z.
Proof. rewrite octet_eq by lia. change (2 ^ (8 * (3 - 0)))%Z with 16777216%Z. pose proof Ha. dlia. Qed.
Lemma oct1 : octet a 1 = (a / 65536 mod 256)%Z.
Proof. rewrite octet_eq by lia. done. Qed.

Lemma loopback4 : v4_is_loopback a = in_net 32 (ip4 127 0 0 0, 8)%Z a.
Proof. unfold v4_is_loopback. rewrite oct0. net_tac. done. Qed.
Lemma lan4 : v4_is_private a = existsb (λ n, in_net 32 n a) lan_nets4.
Proof.
  unfold v4_is_private. rewrite oct0, oct1. cbn [existsb lan_nets4]. net_tac.
  change (2 ^ (32 - 8))%Z with 16777216%Z. change (2 ^ (32 - 12))%Z with 1048576%Z. change (2 ^ (32 - 16))%Z with 65536%Z.
  rewrite orb_false_r. bool_eq. pose proof Ha. dlia.
Qed.
Lemma link_local4 : v4_is_link_local a = in_net 32 (ip4 169 254 0 0, 16)%Z a.
Proof.
  unfold v4_is_link_local. rewrite oct0, oct1. net_tac. change (2 ^ (32 - 16))%Z with 65536%Z.
  bool_eq. pose proof Ha. dlia.
Qed.
Lemma broadcast4 : v4_is_broadcast a = in_net 32 (ip4 255 255 255 255, 32)%Z a.
Proof. unfold v4_is_broadcast. net_tac. by rewrite !Z.div_1_r. Qed.
Lemma multicast4 : v4_is_multicast a = in_net 32 (ip4 224 0 0 0, 4)%Z a.
Proof.
  unfold v4_is_multicast. rewrite oct0. net_tac. change (2 ^ (32 - 4))%Z with 268435456%Z.
  bool_eq. pose proof Ha. dlia.
Qed.
Lemma unspecified4 : (a =? 0)%Z = in_net 32 (ip4 0 0 0 0, 32)%Z a.
Proof. net_tac. by rewrite !Z.div_1_r. Qed.
Lemma cgnat4 : is_cgnat a = in_net 32 (ip4 100 64 0 0, 10)%Z a.
Proof.
  unfold is_cgnat. rewrite oct0, oct1. rewrite (mask_high 8 6 _ 192) by first [done | apply Z.mod_pos_bound; done | lia]. pose proof Ha.
  net_tac. change (2 ^ (32 - 10))%Z with 4194304%Z. change (2 ^ 6)%Z with 64%Z.
  bool_eq. dlia.
Qed.

Lemma private_v4_nets : is_private_v4 a = existsb (λ n, in_net 32 n a) private_nets4.
Proof.
  unfold is_private_v4. rewrite loopback4, lan4, link_local4, broadcast4, multicast4, unspecified4, cgnat4.
  cbn [existsb private_nets4 lan_nets4]. rewrite !orb_false_r, <- !orb_assoc. done.
Qed.
Lemma dangerous_v4_nets :
  is_private_v4 a = is_dangerous_v4 a || existsb (λ n, in_net 32 n a) lan_nets4.
Proof.
  unfold is_private_v4, is_dangerous_v4. rewrite lan4.
  by destruct (v4_is_loopback a), (existsb _ _), (v4_is_link_local a), (v4_is_broadcast a), (v4_is_multicast a), (a =? 0)%Z, (is_cgnat a).
Qed.
End ranges4.

Lemma private_v6_nets a : in_u 128 a → is_private_v6 a = existsb (λ n, in_net 128 n a) private_nets6.
Proof.
  intros Ha. unfold is_private_v6, v6_is_loopback, v6_is_multicast.
  rewrite !segment_eq by lia.
  rewrite (mask_high 16 8 _ 0xff00), (mask_high 16 9 _ 0xfe00), (mask_high 16 6 _ 0xffc0) by first [done | apply Z.mod_pos_bound; done | lia].
  cbn [existsb private_nets6]. rewrite orb_false_r, <- !orb_assoc.
  assert (0 <= a < 340282366920938463463374607431768211456)%Z as Hb
    by (unfold in_u, umax in Ha; change (2 ^ 128)%Z with 340282366920938463463374607431768211456%Z in Ha; lia).
  repeat f_equal; unfold in_net; cbn [fst snd]; rewrite ?Z.shiftr_div_pow2 by lia.
  all: repeat match goal with |- context [ip6 ?l] => let v := eval vm_compute in (ip6 l) in change (ip6 l) with v end.
  all: bool_eq.
  all: repeat match goal with |- context [(2 ^ ?e)%Z] => let v := eval vm_compute in (2 ^ e)%Z in change (2 ^ e)%Z with v end.
  all: try dlia.
Qed.

(** Addresses as the two families have them. *)
Definition ip_ok (ip : IpAddr) : Prop := match ip with V4 a => in_u 32 a | V6 a => in_u 128 a end.

(** The IPv4 address an address stands for, if any. *)
Definition as_v4 (ip : IpAddr) : option Z := match ip with V4 a => Some a | V6 a => to_ipv4_mapped a end.

Lemma mapped_in_u a v : to_ipv4_mapped a = Some v → in_u 32 v.
Proof.
  unfold to_ipv4_mapped. case_if; [|done]. intros [= <-]. change 4294967295%Z with (Z.ones 32).
  rewrite Z.land_ones by lia. unfold in_u, umax. pose proof (Z.mod_pos_bound a (2 ^ 32)). lia.
Qed.
Lemma as_v4_in_u ip v : ip_ok ip → as_v4 ip = Some v → in_u 32 v.
Proof. destruct ip; cbn [as_v4 ip_ok]; [by intros ? [= <-]|intros _; apply mapped_in_u]. Qed.

(** The address filter is exactly the documented table. For every IPv4 or
    IPv6 address, [is_private_ip] holds if and only if the address, with an
    IPv4-mapped IPv6 address read as its IPv4 address, lies in one of the
    listed networks: loopback, RFC 1918, link-local, broadcast, multicast,
    unspecified and carrier-grade NAT, for IPv6 also unique local, Teredo and
    6to4. The filter of the LAN client differs from it for IPv4 by the three
    RFC 1918 networks and nothing else. *)
Theorem is_private_ip_spec ip :
  ip_ok ip →
  is_private_ip ip = match as_v4 ip, ip with
                     | Some v, _ => existsb (λ n, in_net 32 n v) private_nets4
                     | None, V6 a => existsb (λ n, in_net 128 n a) private_nets6
                     | None, V4 _ => false
                     end ∧
  ∀ v, as_v4 ip = Some v → is_private_ip ip = is_dangerous_ip ip || existsb (λ n, in_net 32 n v) lan_nets4.
Proof.
  intros Hok. destruct (as_v4 ip) as [v|] eqn:Hv.
  - pose proof (as_v4_in_u _ _ Hok Hv) as Hu.
    assert (is_private_ip ip = is_private_v4 v ∧ is_dangerous_ip ip = is_dangerous_v4 v) as [-> ->].
    { destruct ip as [a|a]; cbn [as_v4] in Hv; unfold is_private_ip, is_dangerous_ip;
        [by injection Hv as -> |by rewrite Hv]. }
    split; [by apply private_v4_nets|]. intros w [= <-]. by apply dangerous_v4_nets.
  - split; [|done]. destruct ip as [a|a]; [done|]. cbn [as_v4] in Hv. unfold is_private_ip. rewrite Hv. by apply private_v6_nets.
Qed.
Lemma is_private_ip_spec_witness :
  is_private_ip (V6 0xffff0a000001) = true ∧ is_private_ip (V4 (ip4 172 32 0 1)) = false ∧
  ip_ok (V6 0xffff0a000001) ∧
  is_private_ip (V6 0xffff0a000001) = existsb (λ n, in_net 32 n (ip4 10 0 0 1)) private_nets4.
Proof.
  assert (ip_ok (V6 0xffff0a000001)) as Hok by (split; vm_compute; discriminate).
  split_and!; [vm_compute; reflexivity|vm_compute; reflexivity|exact Hok|].
  exact (proj1 (is_private_ip_spec (V6 0xffff0a000001) Hok)).
Defined.

(** ** The clients *)

Section clients.
Context (parse_url : str → option Url) (lookup_host : str → option (list IpAddr)).

Lemma filtered_answers (bad : IpAddr → bool) d ip :
  ip ∈ default [] (addrs ← lookup_host d;
                   let addrs := List.filter (λ a, negb (bad a)) addrs in
                   if bool_decide (addrs = []) then None else Some addrs) →
  bad ip = false.
Proof.
  destruct (lookup_host d) as [addrs|]; simpl; [|by intros ?%elem_of_nil].
  case_bool_decide; simpl; [by intros ?%elem_of_nil|].
  intros Hin%list_elem_of_In%filter_In. destruct (bad ip); naive_solver.
Qed.

Lemma http_host_ok url u h :
  http_host parse_url url = Ok (u, h) →
  parse_url url = Some u ∧ host_str u = Some h ∧ (scheme u = bs "http" ∨ scheme u = bs "https").
Proof.
  unfold http_host. destruct (parse_url url) as [u'|]; [|done]. simpl.
  destruct (bool_decide _ || bool_decide _) eqn:Hs; [|done].
  destruct (host_str u') eqn:Hh; [|done]. intros [= -> ->]. split_and!; try done.
  apply orb_true_iff in Hs as [?%bool_decide_eq_true|?%bool_decide_eq_true]; auto.
Qed.

(** C32: Outbound requests stay outside. When [validate_outbound_endpoint]
    accepts an endpoint, then either its authority is on the list of the
    program's own services and the plain client is selected, or its scheme
    is http or https, the filtering client is selected, and every address
    that client can connect to for this endpoint, a literal in the URL or
    any answer the name resolver gives at the time of the connection, is
    outside the private and internal ranges. *)
(* @prop safety defs=validate_outbound_endpoint,validate_url_scheme,http_host,is_internal_endpoint,select_ssrf_aware_client,safe_resolve,is_private_ip,INTERNAL_BLOCKLIST witness=outbound_safe_witness *)
Theorem outbound_safe url :
  validate_outbound_endpoint parse_url url = Ok () →
  (∃ u, parse_url url = Some u ∧ authority (default [] (host_str u)) u ∈ INTERNAL_BLOCKLIST ∧
        select_ssrf_aware_client parse_url url = PlainClient) ∨
  (∃ u, parse_url url = Some u ∧ (scheme u = bs "http" ∨ scheme u = bs "https") ∧
        select_ssrf_aware_client parse_url url = SafeClient ∧
        ∀ ip, ip ∈ targets parse_url lookup_host (select_ssrf_aware_client parse_url url) url → is_private_ip ip = false).
Proof.
  unfold validate_outbound_endpoint, select_ssrf_aware_client.
  destruct (is_internal_endpoint parse_url url) eqn:Hi; intros Hv.
  - left. unfold is_internal_endpoint in Hi. destruct (parse_url url) as [u|]; [|done].
    apply bool_decide_eq_true in Hi. by exists u.
  - right. unfold validate_url_scheme in Hv.
    destruct (http_host parse_url url) as [[u h]|e] eqn:Hh; [|done].
    destruct (http_host_ok _ _ _ Hh) as (Hu & Hs & Hsch). exists u. split_and!; try done. intros ip.
    unfold targets. rewrite Hu. cbn [mbind option_bind result_bind] in Hv |- *.
    destruct (bool_decide (authority h u ∈ _)); [done|]. destruct (is_blocked_metadata_hostname h); [done|].
    destruct (host u) as [[d|a|a]|]; [apply filtered_answers| | |by intros ?%elem_of_nil].
    all: intros ->%list_elem_of_singleton; by destruct (is_private_ip _).
Qed.

(** The [url] crate writes an IPv4 host in dotted form and an IPv6 host in
    brackets, and a name is neither. *)
Definition dotted (a : Z) : str :=
  decZ (octet a 0) ++ bs "." ++ decZ (octet a 1) ++ bs "." ++ decZ (octet a 2) ++ bs "." ++ decZ (octet a 3).
Definition url_text_ok (u : Url) : Prop :=
  match host u with
  | Some (HostV4 a) => in_u 32 a ∧ host_str u = Some (dotted a)
  | Some (HostV6 a) => ∃ t, host_str u = Some (bs "[" ++ t)
  | _ => True
  end.
End clients.

(** A character that is no digit ends the number. *)
Lemma read_digits_sep radix max acc s c r :
  hex_val c = None →
  read_digits radix max acc (s ++ c :: r) =
    let '(v, n, r') := read_digits radix max acc s in (v, n, r' ++ c :: r).
Proof.
  intros Hc. revert acc s. induction max as [|max IH]; intros acc s; [done|].
  destruct s as [|d s]; cbn [app read_digits]; [by rewrite Hc|].
  destruct (hex_val d) as [w|]; [|done]. destruct (w <? radix)%Z; [|done]. rewrite IH.
  by destruct (read_digits radix max (acc * radix + w) s) as [[v n] r'].
Qed.
Lemma read_octet_digits :
  Forall (λ d, (read_digits 10 3 0 (decZ d)).1.1 = d ∧ (read_digits 10 3 0 (decZ d)).2 = [] ∧
               (0 < (read_digits 10 3 0 (decZ d)).1.2) ∧ read_number 10 3 256 false (decZ d) = Some (d, []))
         (seqZ 0 256).
Proof. apply (bool_decide_unpack _). vm_compute. exact I. Qed.
Lemma octet_zero_prefix :
  Forall (λ d, starts_with (bs "0") (decZ d) && (1 <? (read_digits 10 3 0 (decZ d)).1.2) = false) (seqZ 0 256).
Proof. apply (bool_decide_unpack _). vm_compute. exact I. Qed.
Lemma read_octet_last d : d ∈ seqZ 0 256 → read_number 10 3 256 false (decZ d) = Some (d, []).
Proof. intros Hd. apply (proj1 (Forall_forall _ _) read_octet_digits d Hd). Qed.
Lemma starts_with_cons_app c s r : s ≠ [] → starts_with [c] (s ++ r) = starts_with [c] s.
Proof. by destruct s. Qed.
Lemma read_octet d r : d ∈ seqZ 0 256 → read_number 10 3 256 false (decZ d ++ bs "." ++ r) = Some (d, bs "." ++ r).
Proof.
  intros Hd. destruct (proj1 (Forall_forall _ _) read_octet_digits d Hd) as (Hv & Hr & Hn & _).
  pose proof (proj1 (Forall_forall _ _) octet_zero_prefix d Hd) as Hz. cbv beta in Hz.
  unfold read_number. change (bs "." ++ r) with ("."%char :: r). rewrite read_digits_sep by reflexivity.
  change (bs "0") with ["0"%char]. rewrite starts_with_cons_app by (by intros He; rewrite He in Hn; cbn in Hn; lia).
  destruct (read_digits 10 3 0 (decZ d)) as [[v n] r'] eqn:He. cbn [fst snd] in Hv, Hr, Hn, Hz. subst v r'.
  cbn [app]. change (bs "0") with ["0"%char] in Hz. cbn [negb andb]. rewrite Hz.
  apply elem_of_seqZ in Hd. destruct (Nat.eqb_spec n 0); [lia|]. destruct (Z.leb_spec 256 d); [lia|]. reflexivity.
Qed.
Lemma octet_len : Forall (λ d, length (decZ d) ≤ 3) (seqZ 0 256).
Proof. apply (bool_decide_unpack _). vm_compute. exact I. Qed.
Lemma octet_bound a i : (0 <= i <= 3)%Z → octet a i ∈ seqZ 0 256.
Proof. intros Hi. rewrite octet_eq by done. apply elem_of_seqZ. pose proof (Z.mod_pos_bound (a / 2 ^ (8 * (3 - i))) 256). lia. Qed.
Lemma octets_value a :
  in_u 32 a → ((((0 * 256 + octet a 0) * 256 + octet a 1) * 256 + octet a 2) * 256 + octet a 3)%Z = a.
Proof.
  intros Hu. pose proof (Ha a Hu). rewrite !octet_eq by lia.
  change (2 ^ (8 * (3 - 0)))%Z with 16777216%Z. change (2 ^ (8 * (3 - 1)))%Z with 65536%Z.
  change (2 ^ (8 * (3 - 2)))%Z with 256%Z. change (2 ^ (8 * (3 - 3)))%Z with 1%Z. dlia.
Qed.

Lemma read_sep_0 c s : read_sep c 0 s = Some s.
Proof. done. Qed.
Lemma read_sep_dot i s : 0 < i → read_sep "." i (bs "." ++ s) = Some s.
Proof. intros Hi. unfold read_sep. destruct (Nat.eqb_spec i 0); [lia|]. reflexivity. Qed.

Lemma parse_dotted a : in_u 32 a → parse_ip (dotted a) = Some (V4 a).
Proof.
  intros Hu. unfold parse_ip.
  assert (read_ipv4 (dotted a) = Some (a, [])) as ->.
  { unfold read_ipv4, dotted. cbn [read_octets].
    pose proof (λ i r Hi, read_octet _ r (octet_bound a i Hi)) as Hn.
    pose proof (read_octet_last _ (octet_bound a 3 ltac:(lia))) as Hl.
    rewrite read_sep_0. cbn [mbind option_bind]. rewrite Hn by lia. cbn [mbind option_bind].
    rewrite read_sep_dot by lia. cbn [mbind option_bind]. rewrite Hn by lia. cbn [mbind option_bind].
    rewrite read_sep_dot by lia. cbn [mbind option_bind]. rewrite Hn by lia. cbn [mbind option_bind].
    rewrite read_sep_dot by lia. cbn [mbind option_bind]. rewrite Hl. cbn [mbind option_bind].
    by rewrite octets_value. }
  assert (∀ i, (0 <= i <= 3)%Z → length (decZ (octet a i)) ≤ 3) as Hlen.
  { intros i Hi. exact (proj1 (Forall_forall _ _) octet_len _ (octet_bound a i Hi)). }
  destruct (Nat.leb_spec (length (dotted a)) 15) as [|Hgt]; [done|]. unfold dotted in Hgt.
  rewrite !length_app in Hgt. change (length (bs ".")) with 1 in Hgt.
  pose proof (Hlen 0%Z). pose proof (Hlen 1%Z). pose proof (Hlen 2%Z). pose proof (Hlen 3%Z). lia.
Qed.
Lemma bracket_no_ip t : parse_ip (bs "[" ++ t) = None.
Proof. reflexivity. Qed.

(** The guard of the LAN client. For an http or https endpoint whose
    host is a name or an IPv4 literal, acceptance by [validate_lan_endpoint]
    means that no address the LAN client can connect to is loopback,
    link-local (the cloud metadata service), carrier-grade NAT, multicast,
    broadcast or unspecified. An IPv6 literal passes whatever its address:
    the text the check parses carries the brackets of the URL, so it is never
    read as an address, and the client connects to it without a resolver. *)
Theorem lan_guard parse_url lookup_host url u :
  parse_url url = Some u → url_text_ok u →
  (∀ ip, validate_lan_endpoint parse_url url = Ok () →
         (∀ a, host u ≠ Some (HostV6 a)) →
         ip ∈ targets parse_url lookup_host LanClient url → is_dangerous_ip ip = false) ∧
  (∀ a, host u = Some (HostV6 a) → scheme u = bs "http" ∨ scheme u = bs "https" →
        validate_lan_endpoint parse_url url = Ok () ∧ targets parse_url lookup_host LanClient url = [V6 a]).
Proof.
  intros Hu Htext. unfold url_text_ok in Htext. unfold targets. rewrite Hu. cbn [mbind option_bind]. split.
  - intros ip Hv Hn. unfold validate_lan_endpoint in Hv.
    destruct (http_host parse_url url) as [[u' h]|] eqn:Hh; [|done].
    destruct (http_host_ok _ _ _ _ Hh) as (Hu' & Hs & _). rewrite Hu in Hu'. injection Hu' as <-.
    destruct (host u) as [[d|a|a]|] eqn:Hhost.
    + apply filtered_answers.
    + destruct Htext as [Ha Ht]. rewrite Ht in Hs. injection Hs as <-. cbn [mbind result_bind] in Hv. rewrite parse_dotted in Hv by done.
      intros ->%list_elem_of_singleton. by destruct (is_dangerous_ip (V4 a)).
    + by destruct (Hn a).
    + by intros ?%elem_of_nil.
  - intros a Hhost Hs. rewrite Hhost in Htext |- *. destruct Htext as [t Ht]. split; [|done].
    unfold validate_lan_endpoint, http_host. rewrite Hu. cbn [mbind result_bind ok_or].
    assert (bool_decide (scheme u = bs "http") || bool_decide (scheme u = bs "https") = true) as Hsch
      by (apply orb_true_iff; rewrite !bool_decide_eq_true; done).
    rewrite Hsch, Ht. cbn [ok_or mbind result_bind]. by rewrite bracket_no_ip.
Qed.

(** A parser of three texts. *)
Definition parse_demo (s : str) : option Url :=
  if bool_decide (s = bs "http://[::1]:5432/") then
    Some (mkUrl (bs "http") (Some (HostV6 1)) (Some (bs "[::1]")) (Some 5432%Z))
  else if bool_decide (s = bs "https://example.com/") then
    Some (mkUrl (bs "https") (Some (Domain (bs "example.com"))) (Some (bs "example.com")) (Some 443%Z))
  else if bool_decide (s = bs "http://10.0.0.7/") then
    Some (mkUrl (bs "http") (Some (HostV4 (ip4 10 0 0 7))) (Some (bs "10.0.0.7")) (Some 80%Z))
  else None.
Definition dns_demo (s : str) : option (list IpAddr) := Some [V4 (ip4 127 0 0 1); V4 (ip4 93 184 216 34)].

Lemma outbound_safe_witness :
  validate_outbound_endpoint parse_demo (bs "https://example.com/") = Ok () ∧
  targets parse_demo dns_demo SafeClient (bs "https://example.com/") = [V4 (ip4 93 184 216 34)] ∧
  validate_outbound_endpoint parse_demo (bs "http://[::1]:5432/") ≠ Ok () ∧
  is_private_ip (V4 (ip4 93 184 216 34)) = false.
Proof.
  assert (validate_outbound_endpoint parse_demo (bs "https://example.com/") = Ok ()) as Hv by (vm_compute; reflexivity).
  split_and!; [exact Hv|vm_compute; reflexivity|vm_compute; discriminate|].
  destruct (outbound_safe parse_demo dns_demo _ Hv) as [(u & Hu & Hin & _)|(u & _ & _ & Hc & Hs)].
  - exfalso. assert (select_ssrf_aware_client parse_demo (bs "https://example.com/") = SafeClient) as Hc
      by (vm_compute; reflexivity).
    injection Hu as <-. revert Hin. apply (bool_decide_unpack _). vm_compute. exact I.
  - apply Hs. rewrite Hc. apply (bool_decide_unpack _). vm_compute. exact I.
Defined.
Lemma lan_guard_witness :
  validate_lan_endpoint parse_demo (bs "http://[::1]:5432/") = Ok () ∧
  targets parse_demo dns_demo LanClient (bs "http://[::1]:5432/") = [V6 1] ∧ is_dangerous_ip (V6 1) = true.
Proof.
  assert (∃ t, Some (bs "[::1]") = Some (bs "[" ++ t)) as Ht by (by exists (bs "::1]")).
  destruct (proj2 (lan_guard parse_demo dns_demo (bs "http://[::1]:5432/")
    (mkUrl (bs "http") (Some (HostV6 1)) (Some (bs "[::1]")) (Some 5432%Z)) eq_refl Ht) 1%Z eq_refl (or_introl eq_refl)) as [H1 H2].
  split_and!; [exact H1|exact H2|vm_compute; reflexivity].
Defined.
