(* ===== verification/Execute.v ===== *)
(** * The LLM and tool loop of one turn

    [agent/pipeline/execute.rs] with the layer policies of
    [agent/pipeline/behaviour.rs] and the wrapper [compact_messages] of
    [agent/pipeline/context.rs].

    The loop is written in a small monad over the locals of [execute]: a
    computation returns a value or leaves with an [Exit] (return an outcome,
    propagate a sink error, [continue] the loop, panic).  What the turn does
    to the outside is appended to a trace of [Action]s. *)
From S2P Require Import Prelude Json Messages LlmErrors ToolLoop Dispatch LlmRetry Thinking.
From S2P Require Import Budget Parallel.
From S2P Require Compressor History Cooldown.

(** ** Layers *)

(* @src opex-core/src/agent/pipeline/behaviour.rs 40-42 AUTO_CONTINUE_NUDGE *)
Definition AUTO_CONTINUE_NUDGE : str :=
  bs "[system] You described remaining steps but didn't execute them. Continue and complete the task using tools.".
(* @src opex-core/src/agent/pipeline/behaviour.rs 47-52 INTERRUPTED_VERIFY_BLOCK_RESULT *)
Definition INTERRUPTED_VERIFY_BLOCK_RESULT : str :=
  bs "Error: blocked by the interrupted-verify guard. The previous turn was interrupted before this tool's result was recorded, so this action may have ALREADY taken effect. Do NOT blindly repeat it — first verify the current state with a read-only check (read the file, list the directory/process, inspect the result), then decide whether the action still needs to run.".
(* @src opex-db/src/sessions.rs 26-26 INTERRUPTED_VERIFY_TAG *)
Definition INTERRUPTED_VERIFY_TAG : str := bs "[interrupted:verify]".
(* @src opex-core/src/agent/pipeline/behaviour.rs 59-60 NON_IDEMPOTENT_TOOLS *)
Definition NON_IDEMPOTENT_TOOLS : list str :=
  [bs "code_exec"; bs "process"; bs "workspace_delete"; bs "workspace_rename"].
(* @src opex-core/src/agent/pipeline/behaviour.rs 63-65 is_non_idempotent_tool *)
Definition is_non_idempotent_tool (name : str) : bool :=
  existsb (λ n, bool_decide (n = name)) NON_IDEMPOTENT_TOOLS.

(** Durations are seconds, counters that the code keeps in [u8] are [Z]. *)
(* @src opex-core/src/agent/pipeline/behaviour.rs 112-117 FallbackPolicy *)
Record FallbackPolicy := mkFallback { consecutive_failure_threshold : nat }.
(* @src opex-core/src/agent/pipeline/behaviour.rs 143-149 AutoContinuePolicy *)
Record AutoContinuePolicy := mkAutoContinue { max_continues : Z; retry_on_empty : bool }.
(* @src opex-core/src/agent/pipeline/behaviour.rs 177-182 SessionRecoveryPolicy *)
Record SessionRecoveryPolicy := mkRecovery { original_user_text : str }.
(* @src opex-core/src/agent/pipeline/behaviour.rs 254-261 BehaviourLayers *)
Record BehaviourLayers := mkLayers {
  l_fallback : option FallbackPolicy;
  l_auto_continue : option AutoContinuePolicy;
  l_recovery : option SessionRecoveryPolicy;
  l_tool_policy : option AgentToolPolicy;
  l_forced_final : bool;
  l_verify_guard : bool;
}.
(* @src opex-core/src/agent/pipeline/behaviour.rs 298-320 for_interactive *)
Definition for_interactive (cfg : ToolLoopConfig) (user_text : str) : BehaviourLayers :=
  mkLayers (Some (mkFallback (max_consecutive_failures cfg))) (Some (mkAutoContinue 0 true))
    (Some (mkRecovery user_text)) None false false.
(** [tool_policy] is the decoded override of the message, if any. *)
(* @src opex-core/src/agent/pipeline/behaviour.rs 329-352 for_cron *)
Definition for_cron (cfg : ToolLoopConfig) (text : option str) (tool_policy : option AgentToolPolicy)
    : BehaviourLayers :=
  mkLayers (Some (mkFallback (max_consecutive_failures cfg)))
    (Some (mkAutoContinue (max_auto_continues cfg) true))
    (Some (mkRecovery (default [] text))) tool_policy true true.

(** A provider is its name. *)
(* @src opex-core/src/agent/pipeline/behaviour.rs 369-382 LayerRuntimeState *)
Record LayerRuntimeState := mkLayerState {
  consecutive_failures : nat;
  using_fallback : bool;
  fallback_provider : option str;
  fallback_chain_idx : nat;
  did_reset_session : bool;
  auto_continue_count : Z;
  empty_retry_count : Z;
}.
Definition initial_layer_state : LayerRuntimeState := mkLayerState 0 false None 0 false 0 0.
(* @src opex-core/src/agent/pipeline/behaviour.rs 391-399 adopt_fallback *)
Definition adopt_fallback (p : str) (s : LayerRuntimeState) : LayerRuntimeState :=
  mkLayerState 0 true (Some p) (S (fallback_chain_idx s)) (did_reset_session s)
    (auto_continue_count s) (empty_retry_count s).
Definition set_failures (n : nat) (s : LayerRuntimeState) : LayerRuntimeState :=
  mkLayerState n (using_fallback s) (fallback_provider s) (fallback_chain_idx s)
    (did_reset_session s) (auto_continue_count s) (empty_retry_count s).
Definition set_chain_idx (n : nat) (s : LayerRuntimeState) : LayerRuntimeState :=
  mkLayerState (consecutive_failures s) (using_fallback s) (fallback_provider s) n
    (did_reset_session s) (auto_continue_count s) (empty_retry_count s).
Definition set_reset (s : LayerRuntimeState) : LayerRuntimeState :=
  mkLayerState (consecutive_failures s) (using_fallback s) (fallback_provider s)
    (fallback_chain_idx s) true (auto_continue_count s) (empty_retry_count s).
Definition bump_continue (s : LayerRuntimeState) : LayerRuntimeState :=
  mkLayerState (consecutive_failures s) (using_fallback s) (fallback_provider s)
    (fallback_chain_idx s) (did_reset_session s) (auto_continue_count s + 1) (empty_retry_count s).
Definition bump_empty (s : LayerRuntimeState) : LayerRuntimeState :=
  mkLayerState (consecutive_failures s) (using_fallback s) (fallback_provider s)
    (fallback_chain_idx s) (did_reset_session s) (auto_continue_count s) (empty_retry_count s + 1).

(* @src opex-core/src/agent/pipeline/execute.rs 2164-2189 promote_provider_in_profile *)
Definition promote_provider_in_profile {A} (slots : list A) (from_idx : nat) : list A :=
  if (from_idx =? 0) || (length slots <=? from_idx) then slots else
  match slots !! from_idx with
  | Some entry => entry :: delete from_idx slots
  | None => slots
  end.

(* @src opex-core/src/agent/pipeline/execute.rs 59-61 is_upstream_empty_garbage *)
Definition is_upstream_empty_garbage (text : str) : bool :=
  starts_with (bs "(Empty response:") (trim_start text).

(** ** Events and outcomes *)

(* @src opex-core/src/agent/pipeline/sink.rs 28-35 SinkError *)
Inductive SinkError := Closed | Full | Fatal (msg : str).

(* @src opex-core/src/agent/pipeline/execute.rs 102-112 ExecuteStatus *)
Inductive ExecuteStatus := Done | DoneTurnLimited | Failed (reason : str) | Interrupted (reason : str).

(** The serialised thinking blocks are kept as the blocks. *)
(* @src opex-core/src/agent/pipeline/execute.rs 65-85 ExecuteOutcome *)
Record ExecuteOutcome := mkOutcome {
  status : ExecuteStatus;
  final_text : str;
  thinking_json : option (list ThinkingBlock);
  messages_len_at_end : nat;
  final_parent_msg_id : Uuid;
  assistant_message_id : Uuid;
  effective_provider_name : option str;
}.

Inductive Exit := Return (o : ExecuteOutcome) | Propagate (e : SinkError) | Continue | Panic.

(* @src opex-types/src/approvals.rs 14-18 ApprovalAction *)
Inductive ApprovalAction := Approved | Rejected | TimeoutRejected.

(* @src opex-core/src/agent/stream_event.rs 19-130 StreamEvent *)
Inductive StreamEvent (V : Type) :=
| SessionId (session_id : str) (context_limit : Z)
| MessageStart (message_id : Uuid)
| StepStart (index : Z) (message_id : Uuid)
| TextDelta (text : str)
| ToolCallStart (id name : str) (parallel_batch_id : option Uuid)
| ToolCallArgs (id args_text : str)
| ToolResult (id result : str)
| StepFinish (step_id finish_reason : str)
| RichCard (card_type : str) (data : V)
| File (url media_type : str) (filename : option str)
| Finish (finish_reason : str) (continuation : bool)
| ClarifyNeeded (clarify_id : Uuid) (question : str) (choices : list str) (timeout_ms : Z)
| ApprovalNeeded (approval_id : Uuid) (tool_name : str) (tool_input : V) (timeout_ms : Z)
| ApprovalResolved (approval_id : Uuid) (action : ApprovalAction) (modified_input : option V)
| AgentSwitch (agent_name : str)
| ErrorEvent (msg : str)
| Reconnecting (attempt delay_ms : Z)
| Usage (usage : TokenUsage).
Arguments SessionId {V}.
Arguments MessageStart {V}.
Arguments StepStart {V}.
Arguments TextDelta {V}.
Arguments ToolCallStart {V}.
Arguments ToolCallArgs {V}.
Arguments ToolResult {V}.
Arguments StepFinish {V}.
Arguments RichCard {V}.
Arguments File {V}.
Arguments Finish {V}.
Arguments ClarifyNeeded {V}.
Arguments ApprovalNeeded {V}.
Arguments ApprovalResolved {V}.
Arguments AgentSwitch {V}.
Arguments ErrorEvent {V}.
Arguments Reconnecting {V}.
Arguments Usage {V}.

(** What a turn does besides changing its locals; [Emit] is an event offered
    to the sink, accepted or not. *)
Inductive Action (V : Type) :=
| Emit (ev : StreamEvent V)
| TouchSession
| CooldownSkip (primary adopted : str)
| IndexFacts (facts : list str)
| CompressionRow (ev : History.CompressionEvent)
| LlmCall (provider : str) (messages : list (Message V))
| FinalCall (provider : str) (messages : list (Message V))
| RecordUsage (provider model : str) (usage : TokenUsage)
| NotifyAutoContinue (count max : Z)
| Promote (slot_idx : nat)
| PersistAssistant (id : Uuid) (text : str) (calls : list (ToolCall V))
    (blocks : option (list ThinkingBlock)) (parent : Uuid) (step_id : Z)
| PersistBlocked (id : Uuid) (tool_call_id : str) (parent : Uuid) (batch : option Uuid)
| RunBatch (calls : list (ToolCall V)) (effects : list (Effect V)).
Arguments Emit {V}.
Arguments TouchSession {V}.
Arguments CooldownSkip {V}.
Arguments IndexFacts {V}.
Arguments CompressionRow {V}.
Arguments LlmCall {V}.
Arguments FinalCall {V}.
Arguments RecordUsage {V}.
Arguments NotifyAutoContinue {V}.
Arguments Promote {V}.
Arguments PersistAssistant {V}.
Arguments PersistBlocked {V}.
Arguments RunBatch {V}.

(** ** The environment of a turn *)

(** One streamed model call as the receiving end sees it: the chunks that
    arrived, in order; [None] when the cancellation came first, the result of
    the call otherwise; the messages it leaves (a context overflow is
    answered by a compaction inside the call). *)
Record ModelRun (V : Type) := mkRun {
  mr_chunks : list str;
  mr_result : option (result Error (LlmResponse V));
  mr_messages : list (Message V);
}.
Arguments mkRun {V}.
Arguments mr_chunks {V}.
Arguments mr_result {V}.
Arguments mr_messages {V}.

(** The places where the loop looks at the cancellation token. *)
Inductive CheckPoint := AtEntry | AtIteration (i : nat) | BeforeDispatch (i : nat).

(** [tick] below is the number of actions done so far. *)
Record TurnEnv (V : Type) := mkTurnEnv {
  e_layers : BehaviourLayers;
  e_loop : ToolLoopConfig;
  e_primary : str;
  e_chain : option (list Cooldown.SlotEntry);    (** the profile slot [text] *)
  e_build : Cooldown.SlotEntry → option str;     (** a reserve from its row *)
  e_language : str;
  e_limit_tokens : nat;
  e_compaction : option Compressor.CompactionConfig;
  e_user_message_id : Uuid;
  e_fresh : nat → Uuid;
  e_clock : nat → nat → Z;                       (** tick and chain position *)
  e_cancelled : CheckPoint → bool;
  e_sink : nat → StreamEvent V → option SinkError;
  e_llm : nat → str → list (Message V) → ModelRun V;
  e_final_call : str → list (Message V) → result Error (LlmResponse V);
  e_compact_ask : list (Message V) → option (result Error (LlmResponse V));
  e_compress_chat : nat → list (Message V) → result Error (LlmResponse V);
  e_parse_strings : str → option (list str);
  e_content_hash : str → Z;
  e_map_order : gmap str nat → list (str * nat);
  e_ui : bool;                                   (** a UI channel is attached *)
  e_executor : option (nat → Batch (V:=V));      (** the batch environment *)
  e_batch_deadline : nat → option nat;           (** effects done when 600 s were over *)
}.
Arguments e_layers {V}.
Arguments e_loop {V}.
Arguments e_primary {V}.
Arguments e_chain {V}.
Arguments e_build {V}.
Arguments e_language {V}.
Arguments e_limit_tokens {V}.
Arguments e_compaction {V}.
Arguments e_user_message_id {V}.
Arguments e_fresh {V}.
Arguments e_clock {V}.
Arguments e_cancelled {V}.
Arguments e_sink {V}.
Arguments e_llm {V}.
Arguments e_final_call {V}.
Arguments e_compact_ask {V}.
Arguments e_compress_chat {V}.
Arguments e_parse_strings {V}.
Arguments e_content_hash {V}.
Arguments e_map_order {V}.
Arguments e_ui {V}.
Arguments e_executor {V}.
Arguments e_batch_deadline {V}.

(** The locals of [execute]. *)
Record Turn (V : Type) := mkTurn {
  t_messages : list (Message V);
  t_chars : nat;                    (** [context_chars] *)
  t_nudges : nat;                   (** [loop_nudge_count] *)
  t_layer : LayerRuntimeState;
  t_last_msg : Uuid;
  t_assistant : Uuid;
  t_text : str;                     (** [final_text] *)
  t_detector : LoopDetector;
  t_compressor : Compressor.Compressor;
  t_cooldowns : Cooldown.ProviderCooldowns;
  t_fresh : nat;
  t_trace : list (Action V);
}.
Arguments mkTurn {V}.
Arguments t_messages {V}.
Arguments t_chars {V}.
Arguments t_nudges {V}.
Arguments t_layer {V}.
Arguments t_last_msg {V}.
Arguments t_assistant {V}.
Arguments t_text {V}.
Arguments t_detector {V}.
Arguments t_compressor {V}.
Arguments t_cooldowns {V}.
Arguments t_fresh {V}.
Arguments t_trace {V}.

Section execute.
Context {V : Type} `{Json V} `{Regex}.
Context (hash_call : str → V → Z) (neutralize : str → str → str → str).
Context (to_lowercase : str → str) (is_internal_endpoint : str → bool) (uuid_str : Uuid → str).
Context (env : TurnEnv V).
Implicit Types (messages : list (Message V)) (t : Turn V) (ev : StreamEvent V).

(** ** The monad *)
Definition M (A : Type) : Type := Turn V → Turn V * (Exit + A).
#[local] Instance M_ret : MRet M := λ A a t, (t, inr a).
#[local] Instance M_bind : MBind M := λ A B f m t,
  match m t with
  | (t', inl e) => (t', inl e)
  | (t', inr a) => f a t'
  end.

Definition gets {A} (f : Turn V → A) : M A := λ t, (t, inr (f t)).
Definition modify (f : Turn V → Turn V) : M unit := λ t, (f t, inr tt).
Definition stop {A} (e : Exit) : M A := λ t, (t, inl e).
Definition when (b : bool) (m : M unit) : M unit := if b then m else mret tt.

Definition set_messages (f : list (Message V) → list (Message V)) : M unit := modify (λ t,
  mkTurn (f (t_messages t)) (t_chars t) (t_nudges t) (t_layer t) (t_last_msg t) (t_assistant t)
    (t_text t) (t_detector t) (t_compressor t) (t_cooldowns t) (t_fresh t) (t_trace t)).
Definition set_chars (f : nat → nat) : M unit := modify (λ t,
  mkTurn (t_messages t) (f (t_chars t)) (t_nudges t) (t_layer t) (t_last_msg t) (t_assistant t)
    (t_text t) (t_detector t) (t_compressor t) (t_cooldowns t) (t_fresh t) (t_trace t)).
Definition set_nudges (n : nat) : M unit := modify (λ t,
  mkTurn (t_messages t) (t_chars t) n (t_layer t) (t_last_msg t) (t_assistant t)
    (t_text t) (t_detector t) (t_compressor t) (t_cooldowns t) (t_fresh t) (t_trace t)).
Definition set_layer (f : LayerRuntimeState → LayerRuntimeState) : M unit := modify (λ t,
  mkTurn (t_messages t) (t_chars t) (t_nudges t) (f (t_layer t)) (t_last_msg t) (t_assistant t)
    (t_text t) (t_detector t) (t_compressor t) (t_cooldowns t) (t_fresh t) (t_trace t)).
Definition set_last_msg (id : Uuid) : M unit := modify (λ t,
  mkTurn (t_messages t) (t_chars t) (t_nudges t) (t_layer t) id (t_assistant t)
    (t_text t) (t_detector t) (t_compressor t) (t_cooldowns t) (t_fresh t) (t_trace t)).
Definition set_assistant (id : Uuid) : M unit := modify (λ t,
  mkTurn (t_messages t) (t_chars t) (t_nudges t) (t_layer t) (t_last_msg t) id
    (t_text t) (t_detector t) (t_compressor t) (t_cooldowns t) (t_fresh t) (t_trace t)).
Definition set_text (s : str) : M unit := modify (λ t,
  mkTurn (t_messages t) (t_chars t) (t_nudges t) (t_layer t) (t_last_msg t) (t_assistant t)
    s (t_detector t) (t_compressor t) (t_cooldowns t) (t_fresh t) (t_trace t)).
Definition set_turn_detector (d : LoopDetector) : M unit := modify (λ t,
  mkTurn (t_messages t) (t_chars t) (t_nudges t) (t_layer t) (t_last_msg t) (t_assistant t)
    (t_text t) d (t_compressor t) (t_cooldowns t) (t_fresh t) (t_trace t)).
Definition set_compressor (c : Compressor.Compressor) : M unit := modify (λ t,
  mkTurn (t_messages t) (t_chars t) (t_nudges t) (t_layer t) (t_last_msg t) (t_assistant t)
    (t_text t) (t_detector t) c (t_cooldowns t) (t_fresh t) (t_trace t)).
Definition set_cooldowns (f : Cooldown.ProviderCooldowns → Cooldown.ProviderCooldowns) : M unit := modify (λ t,
  mkTurn (t_messages t) (t_chars t) (t_nudges t) (t_layer t) (t_last_msg t) (t_assistant t)
    (t_text t) (t_detector t) (t_compressor t) (f (t_cooldowns t)) (t_fresh t) (t_trace t)).
Definition act (a : Action V) : M unit := modify (λ t,
  mkTurn (t_messages t) (t_chars t) (t_nudges t) (t_layer t) (t_last_msg t) (t_assistant t)
    (t_text t) (t_detector t) (t_compressor t) (t_cooldowns t) (t_fresh t) (t_trace t ++ [a])).
(** [Uuid::new_v4]. *)
Definition new_uuid : M Uuid := λ t,
  (mkTurn (t_messages t) (t_chars t) (t_nudges t) (t_layer t) (t_last_msg t) (t_assistant t)
    (t_text t) (t_detector t) (t_compressor t) (t_cooldowns t) (S (t_fresh t)) (t_trace t),
   inr (e_fresh env (t_fresh t))).

Definition tick t : nat := length (t_trace t).
(** [sink.emit(ev).await] *)
Definition emit ev : M (option SinkError) :=
  n ← gets tick;
  act (Emit ev);;
  mret (e_sink env n ev).
(** [let _ = sink.emit(ev).await] *)
Definition emit_ ev : M unit := _ ← emit ev; mret tt.

(** [return Ok(ExecuteOutcome { .. })]; the text, the parent row and the
    assistant row differ between the exits. *)
Definition leave {A} (st : ExecuteStatus) (text : str) (parent assistant : Uuid) : M A :=
  n ← gets (λ t, length (t_messages t));
  stop (Return (mkOutcome st text None n parent assistant None)).
(** The usual exit, with the locals as they are. *)
Definition leave_here {A} (st : ExecuteStatus) : M A :=
  t ← gets id;
  leave st (t_text t) (t_last_msg t) (t_assistant t).
Definition check_cancelled (c : CheckPoint) : M unit :=
  if e_cancelled env c then leave_here (Interrupted (bs "cancel_token")) else mret tt.

(** ** Before the loop *)

(* @src opex-core/src/agent/pipeline/context.rs 178-265 compact_messages *)
Definition compact_messages (detector : option LoopDetector) : M unit :=
  messages ← gets t_messages;
  let '(max_tokens, preserve_last_n) := compaction_params (e_limit_tokens env) (e_compaction env) in
  match History.compact_if_needed (e_compact_ask env) (e_parse_strings env) messages max_tokens
          preserve_last_n (Some (e_language env)) with
  | None => stop Panic
  | Some History.Untouched => mret tt
  | Some (History.Compacted ms facts) =>
      act (IndexFacts facts);;
      match detector with
      | None => set_messages (λ _, ms)
      | Some det =>
          let ms := History.remove_progress_header ms in
          let header := History.generate_progress_header to_lowercase
            (e_map_order env (tool_counts det)) (iteration_count det) ms in
          let insert_pos := match ms with m :: _ => if is_role System m then 1 else 0 | [] => 0 end in
          set_messages (λ _, take insert_pos ms ++ [text_message System header] ++ drop insert_pos ms)
      end
  end.

(** The reserve at or after [chain_idx], and its position. *)
(* @src opex-core/src/agent/engine/loop_detector_integration.rs 44-77 create_fallback_provider *)
Definition create_fallback_provider (chain_idx : nat) : M (option (str * nat)) :=
  match e_chain env with
  | None => mret None
  | Some chain =>
      m ← gets t_cooldowns;
      n ← gets tick;
      let '(r, m') := Cooldown.resolve_next_uncooled chain m (e_clock env n) chain_idx in
      set_cooldowns (λ _, m');;
      mret (match r with
            | Some (entry, resolved_idx) => (λ p, (p, resolved_idx)) <$> e_build env entry
            | None => None
            end)
  end.

(** [cooldowns.is_cooled(name)]. *)
Definition is_cooled (name : str) : M bool :=
  m ← gets t_cooldowns;
  n ← gets tick;
  let '(b, m') := Cooldown.is_cooled m name (e_clock env n 0) in
  set_cooldowns (λ _, m');;
  mret b.

(** A turn starts on a reserve when its primary is cooled. *)
(* @src opex-core/src/agent/pipeline/execute.rs 257-287 execute (cooldown check) *)
Definition start_on_reserve : M unit :=
  match l_fallback (e_layers env) with
  | None => mret tt
  | Some _ =>
      cooled ← is_cooled (e_primary env);
      if (cooled : bool) then
        r ← create_fallback_provider 0;
        match r with
        | Some (p, resolved_idx) =>
            set_layer (λ s, adopt_fallback p (set_chain_idx resolved_idx s));;
            act (CooldownSkip (e_primary env) p)
        | None => mret tt
        end
      else mret tt
  end.

Definition recount_chars : M unit :=
  t ← gets id;
  set_chars (λ _, total_chars (t_messages t)).

(* @src opex-core/src/agent/pipeline/execute.rs 171-257 execute (entry) *)
Definition preflight : M unit :=
  (if e_cancelled env AtEntry then
     parent ← gets t_last_msg;
     leave (Interrupted (bs "cancel_token")) [] parent 0%Z
   else mret tt);;
  t ← gets id;
  compact_messages (Some (t_detector t));;
  recount_chars;;
  start_on_reserve.

(** ** One iteration: opening the step *)

(** [IterationId.index]. *)
Definition step_index (i : nat) : Z := wrap 32 (Z.of_nat i).
Definition step_id (i : nat) : str := bs "step_" ++ decZ (step_index i).
Definition finish_step (i : nat) (reason : string) : M unit := emit_ (StepFinish (step_id i) (bs reason)).

(** The legacy event of the first iteration. *)
(* @src opex-core/src/agent/pipeline/execute.rs 339-360 execute (MessageStart) *)
Definition emit_message_start (iter_msg_id : Uuid) : M unit :=
  r ← emit (MessageStart iter_msg_id);
  match r with
  | None => mret tt
  | Some Closed | Some Full =>
      parent ← gets t_last_msg;
      leave (Interrupted (bs "sink_closed")) [] parent iter_msg_id
  | Some e => stop (Propagate e)
  end.

(* @src opex-core/src/agent/pipeline/execute.rs 290-391 execute (step start) *)
Definition open_step (i : nat) : M Uuid :=
  check_cancelled (AtIteration i);;
  act TouchSession;;
  iter_msg_id ← new_uuid;
  set_assistant iter_msg_id;;
  when (i =? 0) (emit_message_start iter_msg_id);;
  r ← emit (StepStart (step_index i) iter_msg_id);
  match r with
  | None => mret iter_msg_id
  | Some Closed => leave_here (Interrupted (bs "sink_closed"))
  | Some e => stop (Propagate e)
  end.

(** [Message] updates of the two context reductions. *)
(* @src opex-core/src/agent/pipeline/execute.rs 396-437 execute (compaction) *)
Definition shrink_context : M unit :=
  t ← gets id;
  let '(ms, chars) := compact_tool_results (e_limit_tokens env) (e_compaction env)
                        (t_messages t) (t_chars t) in
  set_messages (λ _, ms);;
  set_chars (λ _, chars);;
  match e_compaction env with
  | Some cfg =>
      if Compressor.enabled cfg && Compressor.should_compress (t_compressor t) cfg then
        match History.compress_messages (e_content_hash env) (e_compress_chat env (tick t))
                (e_parse_strings env) ms (t_compressor t) cfg (Some (e_language env)) with
        | None => stop Panic
        | Some None => recount_chars
        | Some (Some c) =>
            set_messages (λ _, History.c_messages c);;
            set_compressor (History.c_compressor c);;
            match History.c_event c with Some ev => act (CompressionRow ev) | None => mret tt end;;
            recount_chars
        end
      else mret tt
  | None => mret tt
  end.

(** ** The streamed call *)

(** [parse::<u32>] and [parse::<u64>] with their defaults, on the two parts
    of [splitn(2, ':')]. *)
Definition parse_reconnecting (rest : str) : Z * Z :=
  match find_char ":"%char rest with
  | Some k => (default 1%Z (parse_dec 32 (take k rest)), default 2000%Z (parse_dec 64 (drop (S k) rest)))
  | None => (default 1%Z (parse_dec 32 rest), 2000%Z)
  end.

(** The text so far and the first sink error other than [Closed]. *)
(* @src opex-core/src/agent/pipeline/execute.rs 1632-1659 emit_chunk *)
Definition emit_chunk (chunk partial : str) (first_err : option SinkError) : M (str * option SinkError) :=
  let note (r : option SinkError) :=
    match r, first_err with
    | Some Closed, _ | None, _ => first_err
    | Some e, None => Some e
    | Some _, Some _ => first_err
    end in
  match strip_prefix RECONNECTING_PREFIX chunk with
  | Some rest =>
      let '(attempt, delay_ms) := parse_reconnecting rest in
      r ← emit (Reconnecting attempt delay_ms);
      mret (partial, note r)
  | None =>
      r ← emit (TextDelta chunk);
      mret (partial ++ chunk, note r)
  end.

(** Every chunk of the run is forwarded, in order; the chunks that are still
    buffered when the call resolves are drained before it returns. *)
(* @src opex-core/src/agent/pipeline/execute.rs 1608-1696 forward_chunks_into_sink *)
Fixpoint forward_chunks (chunks : list str) (partial : str) (first_err : option SinkError)
    : M (str * option SinkError) :=
  match chunks with
  | [] => mret (partial, first_err)
  | c :: rest =>
      p ← emit_chunk c partial first_err;
      forward_chunks rest p.1 p.2
  end.

(* @src opex-core/src/agent/pipeline/execute.rs 453-458 execute (live provider) *)
Definition live_provider : M str :=
  s ← gets t_layer;
  mret (match using_fallback s, fallback_provider s with
        | true, Some fb => fb
        | _, _ => e_primary env
        end).

(** The provider of a forced final call. *)
(* @src opex-core/src/agent/pipeline/execute.rs 1305-1310 execute (forced provider) *)
Definition forced_provider : M str :=
  s ← gets t_layer;
  mret (default (e_primary env) (fallback_provider s)).

(** ** A failed call *)

(** The context of a corrupted session: the system messages and the request. *)
Definition reset_messages (user_text : str) messages : list (Message V) :=
  List.filter (is_role System) messages ++ [text_message User user_text].

(* @src opex-core/src/agent/pipeline/execute.rs 560-593 execute (session recovery) *)
Definition recover_session (i : nat) (class : LlmErrorClass) : M unit :=
  s ← gets t_layer;
  match l_recovery (e_layers env) with
  | Some recovery =>
      if bool_decide (class = SessionCorruption) && negb (did_reset_session s) then
        set_layer set_reset;;
        set_messages (reset_messages (original_user_text recovery));;
        recount_chars;;
        finish_step i "session_recovery";;
        stop Continue
      else mret tt
  | None => mret tt
  end.

(** The profile entry that is made primary after a switch to the reserve
    [resolved_idx]. *)
(* @src opex-core/src/agent/pipeline/execute.rs 642-665 execute (promotion) *)
Definition promote_reserve (resolved_idx : nat) : M unit :=
  if 0 <? resolved_idx then
    match e_chain env ≫= lookup resolved_idx with
    | Some entry => act (Promote resolved_idx)
    | None => mret tt
    end
  else mret tt.

(* @src opex-core/src/agent/pipeline/execute.rs 594-708 execute (fallback) *)
Definition fail_over (i : nat) (live : str) (class : LlmErrorClass) : M unit :=
  match l_fallback (e_layers env) with
  | None => mret tt
  | Some fb_policy =>
      set_layer (λ s, set_failures (S (consecutive_failures s)) s);;
      let failover_worthy := is_failover_worthy class in
      n ← gets tick;
      when failover_worthy
        (set_cooldowns (λ m, Cooldown.record_failure m live class (e_clock env n 0)));;
      s ← gets t_layer;
      if failover_worthy || (consecutive_failure_threshold fb_policy <=? consecutive_failures s) then
        next ← create_fallback_provider (fallback_chain_idx s);
        match next with
        | Some (p, resolved_idx) =>
            set_layer (λ s, adopt_fallback p (set_chain_idx resolved_idx s));;
            promote_reserve resolved_idx;;
            emit_ (TextDelta (fmt (es_fallback_switch (get_error_strings (e_language env)))
                                [user_message_lang class (e_language env)]));;
            finish_step i "fallback_switch";;
            stop Continue
        | None => mret tt
        end
      else mret tt
  end.

(* @src opex-core/src/agent/pipeline/execute.rs 710-736 execute (LLM error) *)
Definition fail_turn {A} (i : nat) (e : Error) : M A :=
  let user_msg := format_user_error_lang e (e_language env) in
  r ← emit (TextDelta user_msg);
  match r with
  | None | Some Closed => mret tt
  | Some e2 => stop (Propagate e2)
  end;;
  finish_step i "error";;
  t ← gets id;
  leave (Failed (bs "LLM call failed: " ++ error_text e)) user_msg (t_last_msg t) (t_assistant t).

Definition on_error {A} (i : nat) (live : str) (e : Error) : M A :=
  let err_class := classify e in
  recover_session i err_class;;
  fail_over i live err_class;;
  fail_turn i e.

(** ** The call of one iteration *)

(** The response, the streamed text and the provider that was called. *)
(* @src opex-core/src/agent/pipeline/execute.rs 448-559 execute (call) *)
Definition call_model (i : nat) : M (LlmResponse V * str * str) :=
  live ← live_provider;
  t ← gets id;
  let run := e_llm env i live (t_messages t) in
  act (LlmCall live (t_messages t));;
  set_messages (λ _, mr_messages run);;
  p ← forward_chunks (mr_chunks run) [] None;
  let partial := p.1 in
  match mr_result run with
  | None => leave (Interrupted (bs "cancel_token")) partial (e_user_message_id env) (t_assistant t)
  | Some llm_result =>
      match p.2 with
      | Some _ => leave (Interrupted (bs "sink_fatal")) partial (e_user_message_id env) (t_assistant t)
      | None =>
          match llm_result with
          | Ok r =>
              set_layer (set_failures 0);;
              set_cooldowns (λ m, Cooldown.record_success m live);;
              mret (r, partial, live)
          | Err e => on_error i live e
          end
      end
  end.

(* @src opex-core/src/agent/pipeline/execute.rs 739-792 execute (usage) *)
Definition record_usage (r : LlmResponse V) : M unit :=
  t ← gets id;
  match r_usage r with
  | Some usage =>
      emit_ (Usage usage);;
      set_compressor (Compressor.update_token_count (t_compressor t) (input_tokens usage));;
      act (RecordUsage (default (e_primary env) (r_provider r)) (default [] (r_model r)) usage)
  | None =>
      let estimated := wrap 32 (Z.of_nat (t_chars t / 4)) in
      when (Compressor.last_prompt_tokens (t_compressor t) <? estimated)%Z
        (set_compressor (Compressor.update_token_count (t_compressor t) estimated))
  end.

(** ** A response without tool calls *)

Definition stripped_answer (partial : str) : str :=
  let stripped := strip_thinking partial in
  if is_upstream_empty_garbage stripped then [] else stripped.

(* @src opex-core/src/agent/pipeline/execute.rs 833-912 execute (auto-continue) *)
Definition auto_continue (i : nat) (stripped : str) : M unit :=
  match l_auto_continue (e_layers env) with
  | None => mret tt
  | Some ac_policy =>
      s ← gets t_layer;
      if retry_on_empty ac_policy && bool_decide (stripped = []) && (empty_retry_count s <? 1)%Z then
        set_layer bump_empty;;
        finish_step i "empty_retry";;
        stop Continue
      else if (auto_continue_count s <? max_continues ac_policy)%Z &&
              negb (bool_decide (stripped = [])) && looks_incomplete to_lowercase stripped then
        set_layer bump_continue;;
        when (e_ui env) (act (NotifyAutoContinue (auto_continue_count s + 1) (max_continues ac_policy)));;
        set_messages (λ ms, ms ++ [text_message User AUTO_CONTINUE_NUDGE]);;
        set_chars (λ n, n + length AUTO_CONTINUE_NUDGE);;
        finish_step i "auto_continue";;
        stop Continue
      else mret tt
  end.

(* @src opex-core/src/agent/pipeline/execute.rs 798-968 execute (final answer) *)
Definition final_answer {A} (i : nat) (r : LlmResponse V) (partial : str) : M A :=
  let stripped := stripped_answer partial in
  auto_continue i stripped;;
  set_text stripped;;
  finish_step i "stop";;
  res ← emit (Finish (bs "stop") false);
  match res with
  | None =>
      t ← gets id;
      stop (Return (mkOutcome Done (t_text t)
        (if bool_decide (r_thinking_blocks r = []) then None else Some (r_thinking_blocks r))
        (length (t_messages t)) (t_last_msg t) (t_assistant t) None))
  | Some Closed => leave_here (Interrupted (bs "sink_closed"))
  | Some e => stop (Propagate e)
  end.

(** ** A response with tool calls *)

(* @src opex-core/src/agent/pipeline/behaviour.rs 72-78 last_tool_result_is_interrupted_verify *)
Definition last_tool_result_is_interrupted_verify messages : bool :=
  match List.find (is_role Tool) (rev messages) with
  | Some m => starts_with INTERRUPTED_VERIFY_TAG (content m)
  | None => false
  end.

(* @src opex-core/src/agent/pipeline/behaviour.rs 83-89 should_block_interrupted_batch *)
Definition should_block_interrupted_batch messages (calls : list (ToolCall V)) : bool :=
  last_tool_result_is_interrupted_verify messages &&
  existsb (λ tc, is_non_idempotent_tool (tc_name tc)) calls.

(** The assistant turn that carries the calls. *)
Definition calling_message (r : LlmResponse V) (partial : str) : Message V :=
  mkMessage Assistant (strip_thinking partial) (Some (r_tool_calls r)) None (r_thinking_blocks r) None.

(** [T::new()] for the batch id, when there are at least two calls. *)
Definition new_batch_id (calls : list (ToolCall V)) : M (option Uuid) :=
  if 2 <=? length calls then id ← new_uuid; mret (Some id) else mret None.

Fixpoint announce_calls (batch : option Uuid) (calls : list (ToolCall V)) : M unit :=
  match calls with
  | [] => mret tt
  | tc :: rest =>
      emit_ (ToolCallStart (tc_id tc) (tc_name tc) batch);;
      emit_ (ToolCallArgs (tc_id tc) (jprint (tc_arguments tc)));;
      announce_calls batch rest
  end.

(* @src opex-core/src/agent/pipeline/execute.rs 971-1069 execute (tool calls) *)
Definition open_tool_calls (i : nat) (iter_msg_id : Uuid) (r : LlmResponse V) (partial : str)
    : M (option Uuid) :=
  set_messages (λ ms, ms ++ [calling_message r partial]);;
  set_chars (λ n, n + char_count partial);;
  parent ← gets t_last_msg;
  act (PersistAssistant iter_msg_id partial (r_tool_calls r)
        (if bool_decide (r_thinking_blocks r = []) then None else Some (r_thinking_blocks r))
        parent (step_index i));;
  set_last_msg iter_msg_id;;
  parallel_batch_id ← new_batch_id (r_tool_calls r);
  announce_calls parallel_batch_id (r_tool_calls r);;
  mret parallel_batch_id.

Definition tool_message (id text : str) : Message V := mkMessage Tool text None (Some id) [] None.

(* @src opex-core/src/agent/pipeline/execute.rs 1092-1124 execute (blocked calls) *)
Fixpoint block_calls (batch : option Uuid) (calls : list (ToolCall V)) : M unit :=
  match calls with
  | [] => mret tt
  | tc :: rest =>
      emit_ (ToolResult (tc_id tc) INTERRUPTED_VERIFY_BLOCK_RESULT);;
      blocked_id ← new_uuid;
      parent ← gets t_last_msg;
      act (PersistBlocked blocked_id (tc_id tc) parent batch);;
      set_last_msg blocked_id;;
      set_messages (λ ms, ms ++ [tool_message (tc_id tc) INTERRUPTED_VERIFY_BLOCK_RESULT]);;
      set_chars (λ n, n + char_count INTERRUPTED_VERIFY_BLOCK_RESULT);;
      block_calls batch rest
  end.

(* @src opex-core/src/agent/pipeline/execute.rs 1081-1126 execute (interrupted-verify guard) *)
Definition verify_guard (batch : option Uuid) (calls : list (ToolCall V)) : M unit :=
  messages ← gets t_messages;
  if l_verify_guard (e_layers env) && should_block_interrupted_batch messages calls then
    block_calls batch calls;;
    stop Continue
  else mret tt.

(** The batch of this iteration: its environment with the arguments that
    [execute] passes. *)
Definition turn_batch (b : Batch (V:=V)) (parent : Uuid) (chars : nat) (batch : option Uuid) : Batch :=
  mkBatch (b_executor b) (b_context b) (b_session_id b) (b_channel b) (b_limit_tokens b)
    chars (detect_loops (e_loop env)) (b_yaml_tools b) (Some (Some parent)) (b_policy b) []
    (b_system_tools b) (b_mcp b) batch.

(* @src opex-core/src/agent/pipeline/execute.rs 1136-1223 execute (dispatch) *)
Definition dispatch (i : nat) (batch : option Uuid) (calls : list (ToolCall V)) : M BatchOutcome :=
  match e_executor env with
  | None => leave_here (Failed (bs "tool_executor not initialized"))
  | Some executor =>
      check_cancelled (BeforeDispatch i);;
      act TouchSession;;
      t ← gets id;
      let chars := History.sum_list ((λ m, length (content m)) <$> t_messages t) in
      let '(o, det, effects) :=
        execute_tool_calls_partitioned hash_call neutralize to_lowercase is_internal_endpoint
          uuid_str (turn_batch (executor i) (t_last_msg t) chars batch) calls (t_detector t) in
      match e_batch_deadline env i with
      | Some n =>
          act (RunBatch calls (take n effects));;
          leave_here (Failed (bs "tool_batch_timeout"))
      | None =>
          act (RunBatch calls effects);;
          set_turn_detector det;;
          mret o
      end
  end.

(** The events of the markers in a result and the text that the model reads. *)
Definition marker_events (line : str) : list (StreamEvent V) * option str :=
  match strip_prefix FILE_PREFIX line with
  | Some json_str =>
      (match jparse json_str with
       | Some meta =>
           let url := default [] (jget meta (bs "url") ≫= jas_str) in
           let media_type := default (bs "application/octet-stream")
                               (jget meta (bs "mediaType") ≫= jas_str) in
           let filename := jget meta (bs "filename") ≫= jas_str in
           if starts_with (bs "/api/uploads/") url then [File url media_type filename] else []
       | None => []
       end, None)
  | None =>
      match strip_prefix TOOL_CALL_PREFIX line with
      | Some json_str =>
          (match jparse json_str with
           | Some evt =>
               [ToolCallArgs (default (bs "unknown") (jget evt (bs "tool") ≫= jas_str))
                             (default [] (jprint <$> jget evt (bs "input")))]
           | None => []
           end, None)
      | None => ([], Some line)
      end
  end.

(* @src opex-core/src/agent/pipeline/execute.rs 1481-1584 extract_tool_result_events *)
Definition extract_tool_result_events (tool_result : str) : list (StreamEvent V) * str :=
  match strip_prefix RICH_CARD_PREFIX tool_result with
  | Some json_str =>
      match jparse json_str with
      | Some data =>
          ([RichCard (default (bs "table") (jget data (bs "card_type") ≫= jas_str)) data],
           default (bs "Rich card displayed") (jget data (bs "text") ≫= jas_str))
      | None => ([], bs "Rich card displayed")
      end
  | None =>
      if contains FILE_PREFIX tool_result || contains TOOL_CALL_PREFIX tool_result then
        let parts := marker_events <$> lines tool_result in
        let text := join [LF] (omap snd parts) in
        (concat (fst <$> parts),
         if bool_decide (text = []) then
           bs "Image displayed inline in the chat. Do NOT use canvas or other tools to show it again."
         else text)
      else ([], tool_result)
  end.

Fixpoint emit_all (l : list (StreamEvent V)) : M unit :=
  match l with
  | [] => mret tt
  | ev :: rest => emit_ ev;; emit_all rest
  end.

(** One result: its events, its message and the new end of the row chain. *)
(* @src opex-core/src/agent/pipeline/execute.rs 1229-1270 execute (results) *)
Definition push_result (b : ToolBatchResult) : M unit :=
  let '(events, display_result) := extract_tool_result_events (br_result b) in
  emit_all events;;
  emit_ (ToolResult (br_tool_call_id b) display_result);;
  set_messages (λ ms, ms ++ [tool_message (br_tool_call_id b) display_result]);;
  set_chars (λ n, n + char_count display_result);;
  match br_tool_msg_id b with
  | Some persisted => set_last_msg persisted
  | None => mret tt
  end.
Fixpoint push_results (l : list ToolBatchResult) : M unit :=
  match l with
  | [] => mret tt
  | b :: rest => push_result b;; push_results rest
  end.

(* @src opex-core/src/agent/pipeline/execute.rs 1271-1291 execute (nudge) *)
Definition nudge (i : nat) (o : BatchOutcome) : M bool :=
  t ← gets id;
  let '(ms, n, loop_broken) := apply_loop_nudge (t_messages t) (bo_loop_break o) (t_nudges t)
                                 (max_loop_nudges (e_loop env)) in
  set_messages (λ _, ms);;
  set_nudges n;;
  finish_step i "tool-calls";;
  mret loop_broken.

(** ** The ends of a turn *)

(** The text of the bonus call without tools. *)
Definition forced_final : M unit :=
  p ← forced_provider;
  messages ← gets t_messages;
  act (FinalCall p messages);;
  set_text (match e_final_call env p messages with
            | Ok forced => strip_thinking (r_content forced)
            | Err e => format_user_error_lang e (e_language env)
            end).

(** The row id and the provider of an outcome after a loop break or at the
    turn limit. *)
Definition leave_attributed {A} (st : ExecuteStatus) : M A :=
  t ← gets id;
  assistant ← (if l_forced_final (e_layers env) then new_uuid else mret (t_assistant t));
  p ← forced_provider;
  stop (Return (mkOutcome st (t_text t) None (length (t_messages t)) (t_last_msg t) assistant (Some p))).

(* @src opex-core/src/agent/pipeline/execute.rs 1294-1379 execute (loop break) *)
Definition loop_broken_exit {A} : M A :=
  st ← (if l_forced_final (e_layers env) then forced_final;; mret Done
        else mret (Failed (bs "loop_detected_max_nudges")));
  emit_ (Finish (bs "loop_detected") false);;
  leave_attributed st.

(* @src opex-core/src/agent/pipeline/execute.rs 1384-1457 execute (turn limit) *)
Definition turn_limit {A} : M A :=
  when (l_forced_final (e_layers env)) forced_final;;
  emit_ (Finish (bs "turn_limit") false);;
  leave_attributed DoneTurnLimited.

(** The part of an iteration after a response with tool calls. *)
Definition tool_step (i : nat) (iter_msg_id : Uuid) (r : LlmResponse V) (partial : str) : M unit :=
  batch ← open_tool_calls i iter_msg_id r partial;
  verify_guard batch (r_tool_calls r);;
  o ← dispatch i batch (r_tool_calls r);
  push_results (bo_results o);;
  loop_broken ← nudge i o;
  if (loop_broken : bool) then loop_broken_exit else mret tt.

Definition iteration (i : nat) : M unit :=
  iter_msg_id ← open_step i;
  shrink_context;;
  c ← call_model i;
  let '(r, partial, live) := c in
  record_usage r;;
  if bool_decide (r_tool_calls r = []) then final_answer i r partial
  else tool_step i iter_msg_id r partial.

(** [continue] ends an iteration like its normal end. *)
Definition catch_continue (m : M unit) : M unit := λ t,
  match m t with
  | (t', inl Continue) => (t', inr tt)
  | r => r
  end.

(* @src opex-core/src/agent/pipeline/execute.rs 290-290 execute (loop) *)
Fixpoint iterate (left i : nat) : M unit :=
  match left with
  | O => mret tt
  | S left' => catch_continue (iteration i);; iterate left' (S i)
  end.

(* @src opex-core/src/agent/pipeline/execute.rs 134-170 execute *)
Definition execute t : Turn V * Exit :=
  match (preflight;; iterate (Z.to_nat (effective_max_iterations (e_loop env))) 0;;
         turn_limit (A:=ExecuteOutcome)) t with
  | (t', inl e) => (t', e)
  | (t', inr o) => (t', Return o)
  end.

(** The locals at the start. *)
Definition start messages (detector : LoopDetector) (compressor : Compressor.Compressor)
    (cooldowns : Cooldown.ProviderCooldowns) : Turn V :=
  mkTurn messages 0 0 initial_layer_state (e_user_message_id env) 0%Z [] detector compressor
    cooldowns 0 [].
End execute.
