(* ===== verification/ExecuteSpec.v ===== *)
(** * The protocol of a turn

    Theorems about [Execute].  A turn is specified by an automaton over its
    actions ([Phase], [step]) and by counters of its recoveries; both are
    functions of the trace and of the layer state, so the proofs use a small
    program logic ([lwp]) whose assertions speak of these two only. *)
From S2P Require Import Prelude Json Messages LlmErrors ToolLoop Dispatch LlmRetry Thinking.
From S2P Require Import Budget Parallel Execute.
From S2P Require Compressor History Cooldown.

(** ** The logic *)
Section logic.
Context {V : Type} `{Json V} `{Regex}.
Context (env : TurnEnv V).
Implicit Types (s : LayerRuntimeState) (l : list (Action V)).

Definition Assertion : Type := LayerRuntimeState → list (Action V) → Prop.

(** From the layer state [s] and the trace [l], [m] returns in [Q] or leaves
    in [E]. *)
Definition lwp {A} (m : M A) (Q : A → Assertion) (E : Exit → Assertion) : Assertion := λ s l,
  ∀ t, t_layer t = s → t_trace t = l →
  match m t with
  | (t', inr a) => Q a (t_layer t') (t_trace t')
  | (t', inl e) => E e (t_layer t') (t_trace t')
  end.

Lemma lwp_mono {A} (m : M A) (Q Q' : A → Assertion) (E E' : Exit → Assertion) s l :
  lwp m Q E s l → (∀ a s l, Q a s l → Q' a s l) → (∀ e s l, E e s l → E' e s l) → lwp m Q' E' s l.
Proof.
  intros Hm HQ HE t <- <-. specialize (Hm t eq_refl eq_refl).
  destruct (m t) as [t' [e|a]]; eauto.
Qed.

Lemma lwp_bind {A B} (m : M A) (f : A → M B) Q E s l :
  lwp m (λ a, lwp (f a) Q E) E s l → lwp (M_bind A B f m) Q E s l.
Proof.
  intros Hm t <- <-. specialize (Hm t eq_refl eq_refl). unfold M_bind.
  destruct (m t) as [t' [e|a]]; [done|]. by apply Hm.
Qed.

Lemma lwp_ret {A} (a : A) Q E s l : Q a s l → lwp (M_ret A a) Q E s l.
Proof. by intros ? t <- <-. Qed.
Lemma lwp_stop {A} e (Q : A → Assertion) E s l : E e s l → lwp (stop e) Q E s l.
Proof. by intros ? t <- <-. Qed.
Lemma lwp_gets {A} (f : Turn V → A) (Q : A → Assertion) E s l : (∀ a, Q a s l) → lwp (gets f) Q E s l.
Proof. intros HQ t <- <-. apply HQ. Qed.
Lemma lwp_layer (Q : LayerRuntimeState → Assertion) E s l : Q s s l → lwp (gets t_layer) Q E s l.
Proof. by intros HQ t <- <-. Qed.
(** An update of any other local. *)
Lemma lwp_local (f : Turn V → Turn V) (Q : unit → Assertion) E s l :
  (∀ t, t_layer (f t) = t_layer t ∧ t_trace (f t) = t_trace t) → Q tt s l → lwp (modify f) Q E s l.
Proof. intros Hf HQ t <- <-. unfold modify. by destruct (Hf t) as [-> ->]. Qed.
Lemma lwp_set_layer f (Q : unit → Assertion) E s l : Q tt (f s) l → lwp (set_layer f) Q E s l.
Proof. by intros HQ t <- <-. Qed.
Lemma lwp_act a (Q : unit → Assertion) E s l : Q tt s (l ++ [a]) → lwp (act a) Q E s l.
Proof. by intros HQ t <- <-. Qed.
Lemma lwp_uuid (Q : Uuid → Assertion) E s l : (∀ a, Q a s l) → lwp (new_uuid env) Q E s l.
Proof. intros HQ t <- <-. apply HQ. Qed.
Lemma lwp_emit ev (Q : option SinkError → Assertion) E s l :
  (∀ r, Q r s (l ++ [Emit ev])) → lwp (emit env ev) Q E s l.
Proof. intros HQ t <- <-. apply HQ. Qed.
Lemma lwp_emit_ ev (Q : unit → Assertion) E s l :
  Q tt s (l ++ [Emit ev]) → lwp (emit_ env ev) Q E s l.
Proof. intros HQ t <- <-. apply HQ. Qed.
Lemma lwp_leave {A} st text parent asst (Q : A → Assertion) E s l :
  (∀ n, E (Return (mkOutcome st text None n parent asst None)) s l) →
  lwp (leave st text parent asst) Q E s l.
Proof. intros HE t <- <-. apply HE. Qed.
Lemma lwp_leave_here {A} st (Q : A → Assertion) E s l :
  (∀ text n p a, E (Return (mkOutcome st text None n p a None)) s l) →
  lwp (leave_here st) Q E s l.
Proof. intros HE t <- <-. apply HE. Qed.
Lemma lwp_catch m (Q : unit → Assertion) E s l :
  lwp m Q (λ e, match e with Continue => Q tt | _ => E e end) s l → lwp (catch_continue m) Q E s l.
Proof.
  intros Hm t <- <-. specialize (Hm t eq_refl eq_refl). unfold catch_continue.
  destruct (m t) as [t' [[]|a]]; done.
Qed.
End logic.

(** Symbolic execution: splits binds, runs the primitives and destructs the
    scrutinees; it stops at named operations, which have their own lemmas. *)
Ltac lwp_prim :=
  lazymatch goal with
  | |- lwp (mbind _ _) _ _ _ _ => apply lwp_bind
  | |- lwp (M_bind _ _ _ _) _ _ _ _ => apply lwp_bind
  | |- lwp (mret _) _ _ _ _ => apply lwp_ret
  | |- lwp (M_ret _ _) _ _ _ _ => apply lwp_ret
  | |- lwp (stop _) _ _ _ _ => apply lwp_stop
  | |- lwp (gets t_layer) _ _ _ _ => apply lwp_layer
  | |- lwp (gets _) _ _ _ _ => apply lwp_gets; intros ?
  | |- lwp (set_layer _) _ _ _ _ => apply lwp_set_layer
  | |- lwp (act _) _ _ _ _ => apply lwp_act
  | |- lwp (new_uuid _) _ _ _ _ => apply lwp_uuid; intros ?
  | |- lwp (emit _ _) _ _ _ _ => apply lwp_emit; intros ?
  | |- lwp (emit_ _ _) _ _ _ _ => apply lwp_emit_
  | |- lwp (finish_step _ _ _) _ _ _ _ => apply lwp_emit_
  | |- lwp (leave _ _ _ _) _ _ _ _ => apply lwp_leave; intros ?
  | |- lwp (leave_here _) _ _ _ _ => apply lwp_leave_here; intros ????
  | |- lwp (set_messages _) _ _ _ _ => apply lwp_local; [by intros|]
  | |- lwp (set_chars _) _ _ _ _ => apply lwp_local; [by intros|]
  | |- lwp (set_nudges _) _ _ _ _ => apply lwp_local; [by intros|]
  | |- lwp (set_last_msg _) _ _ _ _ => apply lwp_local; [by intros|]
  | |- lwp (set_assistant _) _ _ _ _ => apply lwp_local; [by intros|]
  | |- lwp (set_text _) _ _ _ _ => apply lwp_local; [by intros|]
  | |- lwp (set_turn_detector _) _ _ _ _ => apply lwp_local; [by intros|]
  | |- lwp (set_compressor _) _ _ _ _ => apply lwp_local; [by intros|]
  | |- lwp (set_cooldowns _) _ _ _ _ => apply lwp_local; [by intros|]
  | |- lwp recount_chars _ _ _ _ => unfold recount_chars
  | |- lwp (when ?b _) _ _ _ _ => unfold when
  | |- lwp (check_cancelled _ _) _ _ _ _ => unfold check_cancelled
  | |- lwp (match ?x with _ => _ end) _ _ _ _ => destruct x eqn:?
  end.
Ltac lwp_go := repeat (lwp_prim; cbv beta).
(** Runs a named operation by its lemma; the exits must be the same. *)
Ltac lwp_call lem := eapply lwp_mono; [by apply lem| |intros ??? HE; exact HE].

(** ** The automaton *)

(** [n] counts the steps that were opened; step [i] is the [i]-th iteration. *)
Inductive Phase :=
| Fresh                      (** nothing was announced *)
| Started                    (** the message was announced *)
| Opened (i : nat)           (** the step is announced, the model not yet called *)
| Called (i : nat)           (** its call was made *)
| Acted (i : nat)            (** the row of the assistant turn with calls is stored *)
| Ran (i : nat)              (** the batch was executed *)
| Between (n : nat)          (** no step is open *)
| Summed (n : nat)           (** the call without tools was made *)
| Ended (n : nat).           (** the stream is finished *)

Definition steps (p : Phase) : nat :=
  match p with
  | Fresh | Started => 0
  | Opened i | Called i | Acted i | Ran i => S i
  | Between n | Summed n | Ended n => n
  end.

(** The number of the next step where one may be opened.  With the
    interrupted-verify guard a step whose batch was blocked is left open. *)
Definition ready (guard : bool) (p : Phase) : option nat :=
  match p with
  | Started => Some 0
  | Between n => Some n
  | Acted i => if guard then Some (S i) else None
  | _ => None
  end.

Definition expect (b : bool) (p : Phase) : option Phase := if b then Some p else None.

Definition event_step {V} (guard : bool) (p : Phase) (ev : StreamEvent V) : option Phase :=
  match ev with
  | MessageStart _ => match p with Fresh => Some Started | _ => None end
  | StepStart k _ => n ← ready guard p; expect (bool_decide (k = step_index n)) (Opened n)
  | TextDelta _ | Reconnecting _ _ | Usage _ => match p with Called _ => Some p | _ => None end
  | ToolCallStart _ _ _ => match p with Acted _ => Some p | _ => None end
  | ToolCallArgs _ _ | ToolResult _ _ => match p with Acted _ | Ran _ => Some p | _ => None end
  | RichCard _ _ | File _ _ _ => match p with Ran _ => Some p | _ => None end
  | StepFinish id _ =>
      match p with
      | Called i | Ran i => expect (bool_decide (id = step_id i)) (Between (S i))
      | _ => None
      end
  | Finish _ continuation =>
      match p with
      | Summed n => expect (negb continuation) (Ended n)
      | _ => n ← ready guard p; expect (negb continuation) (Ended n)
      end
  | _ => None
  end.

Definition step {V} (guard : bool) (p : Phase) (a : Action V) : option Phase :=
  match a with
  | Emit ev => event_step guard p ev
  | LlmCall _ _ => match p with Opened i => Some (Called i) | _ => None end
  | FinalCall _ _ => Summed <$> ready guard p
  | PersistAssistant _ _ _ _ _ k =>
      match p with Called i => expect (bool_decide (k = step_index i)) (Acted i) | _ => None end
  | PersistBlocked _ _ _ _ => match p with Acted _ => expect guard p | _ => None end
  | RunBatch _ _ => match p with Acted i => Some (Ran i) | _ => None end
  | TouchSession | CooldownSkip _ _ | IndexFacts _ | CompressionRow _ | RecordUsage _ _ _
  | NotifyAutoContinue _ _ | Promote _ => match p with Ended _ => None | _ => Some p end
  end.

Definition run {V} (guard : bool) (l : list (Action V)) : option Phase :=
  foldl (λ o a, p ← o; step guard p a) (Some Fresh) l.

Lemma run_snoc {V} guard (l : list (Action V)) a : run guard (l ++ [a]) = p ← run guard l; step guard p a.
Proof. unfold run. by rewrite foldl_app. Qed.

Definition is_llm_call {V} (a : Action V) : bool := match a with LlmCall _ _ => true | _ => false end.
Definition is_final_call {V} (a : Action V) : bool := match a with FinalCall _ _ => true | _ => false end.
Definition count {V} (f : Action V → bool) (l : list (Action V)) : nat := length (List.filter f l).

Lemma count_snoc {V} f (l : list (Action V)) a : count f (l ++ [a]) = count f l + (if f a then 1 else 0).
Proof. unfold count. rewrite List.filter_app, length_app. cbn. by destruct (f a). Qed.

(** The calls that a phase allows for. *)
Definition llm_calls (p : Phase) : nat := match p with Opened i => i | _ => steps p end.
Definition final_calls (p : Phase) : nat := match p with Summed _ | Ended _ => 1 | _ => 0 end.

Lemma step_counts {V} guard p (a : Action V) q :
  step guard p a = Some q →
  llm_calls p + (if is_llm_call a then 1 else 0) ≤ llm_calls q ∧
  final_calls p + (if is_final_call a then 1 else 0) ≤ final_calls q.
Proof.
  unfold step, event_step, expect.
  destruct p, a as [[]| | | | | | | | | | | |]; cbn [ready mbind option_bind fmap option_fmap option_map];
    repeat case_match; intros; simplify_option_eq; simpl; try lia; destruct guard; simplify_option_eq; simpl; lia.
Qed.

Lemma run_counts {V} guard (l : list (Action V)) p :
  run guard l = Some p → count is_llm_call l ≤ steps p ∧ count is_final_call l ≤ 1.
Proof.
  intros Hr. assert (count is_llm_call l ≤ llm_calls p ∧ count is_final_call l ≤ final_calls p) as [? ?].
  { revert p Hr. induction l as [|a l IH] using rev_ind; intros p.
    { unfold run. simpl. intros [= <-]. done. }
    rewrite run_snoc, !count_snoc. intros Hr.
    destruct (run guard l) as [q|] eqn:Hq; [|done]. apply step_counts in Hr.
    specialize (IH q eq_refl). lia. }
  destruct p; simpl in *; lia.
Qed.

(** ** Every operation follows the automaton *)
Section protocol.
Context {V : Type} `{Json V} `{Regex}.
Context (hash_call : str → V → Z) (neutralize : str → str → str → str).
Context (to_lowercase : str → str) (is_internal_endpoint : str → bool) (uuid_str : Uuid → str).
Context (env : TurnEnv V).
Implicit Types (s : LayerRuntimeState) (l : list (Action V)).

Definition guard : bool := l_verify_guard (e_layers env).
Definition at_ (p : Phase) : Assertion (V:=V) := λ _ l, run guard l = Some p.

(** A turn may only report success on a stream that it has finished. *)
Definition finishes (st : ExecuteStatus) : bool :=
  match st with Done | DoneTurnLimited => true | _ => false end.
(** The configuration with which the compaction before the loop indexes past
    the history. *)
Definition preserves_nothing : Prop :=
  (compaction_params (e_limit_tokens env) (e_compaction env)).2 = 0.
Definition left_with (loop : bool) (e : Exit) (n : nat) : Assertion (V:=V) := λ _ l,
  ∃ q, run guard l = Some q ∧ steps q ≤ n ∧
  match e with
  | Continue => loop = true ∧ ready guard q = Some n
  | Return o => finishes (status o) = true → ∃ m, q = Ended m
  | Panic => preserves_nothing ∧ l = []
  | Propagate _ => True
  end.

Lemma at_snoc p q a l : run guard l = Some p → step guard p a = Some q → run guard (l ++ [a]) = Some q.
Proof. intros Hp Hq. by rewrite run_snoc, Hp. Qed.

(** Decides a step of the automaton. *)
Ltac step_tac :=
  cbn [step event_step ready mbind option_bind fmap option_fmap option_map negb];
  unfold expect; rewrite ?bool_decide_eq_true_2 by done; cbn; try reflexivity.
(** Proves that a trace is accepted. *)
Ltac at_rec := first [ eassumption | eapply at_snoc; [at_rec|step_tac] ].
Ltac at_tac := unfold at_ in *; at_rec.
Ltac left_tac := first
  [ eexists; split; [at_tac | split; [simpl; lia | (try done; try (intros; first [congruence | by eexists]); try (split; reflexivity))]] ].

Lemma internal_at p a l :
  (∀ n, p ≠ Ended n) →
  match a with
  | TouchSession | CooldownSkip _ _ | IndexFacts _ | CompressionRow _ | RecordUsage _ _ _
  | NotifyAutoContinue _ _ | Promote _ => True
  | _ => False
  end → run guard l = Some p → run guard (l ++ [a]) = Some p.
Proof.
  intros Hp Ha Hl. eapply at_snoc; [done|].
  destruct a; try done; simpl; destruct p; try done; by destruct (Hp n).
Qed.

Lemma create_fallback_at idx p s l E :
  at_ p s l → lwp (create_fallback_provider env idx) (λ _ s' l', s' = s ∧ at_ p s' l') E s l.
Proof. intros Hp. unfold create_fallback_provider. lwp_go; auto. Qed.

(** The compaction before the loop can only fail without a preserved part. *)
Lemma compaction_panic ask parse messages k n language s :
  compaction_params (e_limit_tokens env) (e_compaction env) = (k, n) →
  History.compact_if_needed ask parse messages k n language = None →
  left_with false Panic 0 s [].
Proof.
  intros Hk Hc. exists Fresh. split_and!; [done..| |done]. unfold preserves_nothing. rewrite Hk. simpl.
  destruct n as [|n]; [done|]. exfalso. unfold History.compact_if_needed in Hc.
  destruct (History.compaction_keeps_recent ask parse messages k (S n) language false)
    as (c & Hs & _); [lia|]. congruence.
Qed.

Lemma preflight_at s l :
  l = [] → lwp (preflight to_lowercase env) (λ _, at_ Fresh) (λ e, left_with false e 0) s l.
Proof.
  intros ->. assert (at_ Fresh s []) as Hp by done.
  unfold preflight, compact_messages, start_on_reserve, is_cooled.
  lwp_go; try (by eapply compaction_panic); try left_tac; try at_tac.
  all: (eapply lwp_mono; [apply create_fallback_at; at_tac| |intros ??? HE; exact HE]);
    intros r s' l' [-> Hl]; lwp_go; at_tac.
Qed.

(** The phases in which iteration [i] may start. *)
Definition waiting (i : nat) : Assertion (V:=V) := λ _ l,
  ∃ p, run guard l = Some p ∧ (if i =? 0 then p = Fresh else ready guard p = Some i).

Lemma ready_steps g p n : ready g p = Some n → steps p = n ∧ ∀ m, p ≠ Ended m.
Proof. destruct p; simpl; intros; repeat case_match; simplify_eq; auto. Qed.

Lemma waiting_left i l s e :
  waiting i s l → e ≠ Continue → e ≠ Panic → (∀ o, e = Return o → finishes (status o) = false) → left_with true e (S i) s l.
Proof.
  intros (p & Hp & Hi) He Hn Ho. exists p. split_and!; [done| |].
  - destruct i; simpl in Hi; [subst; simpl; lia|]. apply ready_steps in Hi. lia.
  - destruct e; try done. intros Hf. rewrite (Ho o) in Hf; done.
Qed.

Lemma touch_at i s l : waiting i s l → waiting i s (l ++ [TouchSession]).
Proof.
  intros (p & Hp & Hi). exists p. split; [|done].
  apply (internal_at p); [|done|done]. destruct i; simpl in Hi; [by subst|].
  by apply ready_steps in Hi as [_ ?].
Qed.

(** A step that may be opened is accepted as [Opened]. *)
Lemma ready_opened g p i id : ready g p = Some i →
  step (V:=V) g p (Emit (StepStart (step_index i) id)) = Some (Opened i).
Proof. intros Hr. cbn. rewrite Hr. cbn. unfold expect. by rewrite bool_decide_eq_true_2. Qed.

Lemma open_step_at i s l :
  waiting i s l → lwp (open_step env i) (λ _, at_ (Opened i)) (λ e, left_with true e (S i)) s l.
Proof.
  intros Hw. unfold open_step. lwp_prim. unfold check_cancelled. lwp_prim.
  { lwp_go. by apply (waiting_left i); [done..|intros ? [= <-]]. }
  clear Heqb. lwp_go; apply touch_at in Hw; destruct Hw as (ph & Hp & Hi);
    lazymatch goal with
    | Hz : (i =? 0) = true |- _ =>
        apply Nat.eqb_eq in Hz; subst i; simpl in Hi; subst ph; unfold emit_message_start; lwp_go
    | Hz : (i =? 0) = false |- _ => rewrite Hz in Hi; pose proof (ready_opened _ _ _ 0%Z Hi)
    end.
  all: try (left_tac; fail).
  all: unfold at_; try (eapply at_snoc; [|by apply ready_opened]; eassumption).
  all: try at_tac.
  all: try (eexists; split_and!;
    [eapply at_snoc; [eassumption|by apply ready_opened]|simpl; lia|done]).
Qed.

Lemma compress_no_panic content_hash chat parse messages compressor cfg language :
  History.compress_messages (V:=V) content_hash chat parse messages compressor cfg language ≠ None.
Proof.
  destruct (History.compress_returns content_hash chat parse messages compressor cfg language)
    as (res & -> & _). done.
Qed.

Lemma shrink_context_at i s l :
  at_ (Opened i) s l → lwp (shrink_context env) (λ _, at_ (Opened i)) (λ e, left_with true e (S i)) s l.
Proof.
  intros Hp. unfold shrink_context. lwp_go; try at_tac.
  all: match goal with
  | Hc : History.compress_messages _ _ _ _ _ _ _ = None |- _ => by apply compress_no_panic in Hc
  end.
Qed.

Lemma forward_chunks_at i chunks partial err s l E :
  at_ (Called i) s l →
  lwp (forward_chunks env chunks partial err) (λ _ s' l', s' = s ∧ at_ (Called i) s' l') E s l.
Proof.
  revert partial err l. induction chunks as [|c rest IH]; intros partial err l Hp; simpl; [by lwp_go|].
  lwp_prim. unfold emit_chunk. lwp_go; (eapply lwp_mono; [apply IH; at_tac|auto|auto]).
Qed.

Lemma on_error_at {A} i live e (Q : A → Assertion) s l :
  at_ (Called i) s l → lwp (on_error env i live e) Q (λ e, left_with true e (S i)) s l.
Proof.
  intros Hp. unfold on_error, recover_session, fail_over, fail_turn.
  lwp_go; try left_tac.
  all: (eapply lwp_mono; [apply create_fallback_at; at_tac| |intros ??? HE; exact HE]);
    intros r s' l' [-> Hl]; unfold promote_reserve; lwp_go; left_tac.
Qed.

Lemma call_model_at i s l :
  at_ (Opened i) s l → lwp (call_model env i) (λ _, at_ (Called i)) (λ e, left_with true e (S i)) s l.
Proof.
  intros Hp. unfold call_model, live_provider. lwp_go.
  eapply lwp_mono; [apply (forward_chunks_at i); at_tac| |intros ??? HE; exact HE].
  intros [partial err] s' l' [-> Hl]. lwp_go; try left_tac; try at_tac. by apply on_error_at.
Qed.

Lemma record_usage_at i r s l E :
  at_ (Called i) s l → lwp (record_usage env r) (λ _, at_ (Called i)) E s l.
Proof. intros Hp. unfold record_usage. lwp_go; at_tac. Qed.

Lemma final_answer_at {A} i r partial (Q : A → Assertion) s l :
  at_ (Called i) s l →
  lwp (final_answer to_lowercase env i r partial) Q (λ e, left_with true e (S i)) s l.
Proof. intros Hp. unfold final_answer, auto_continue. lwp_go; left_tac. Qed.

Lemma announce_calls_at i batch calls s l E :
  at_ (Acted i) s l → lwp (announce_calls env batch calls) (λ _, at_ (Acted i)) E s l.
Proof.
  revert l. induction calls as [|c rest IH]; intros l Hp; simpl; [by lwp_go|].
  lwp_go. apply IH. at_tac.
Qed.

Lemma open_tool_calls_at i id r partial s l E :
  at_ (Called i) s l → lwp (open_tool_calls env i id r partial) (λ _, at_ (Acted i)) E s l.
Proof.
  intros Hp. unfold open_tool_calls, new_batch_id. lwp_go;
    (eapply lwp_mono; [apply (announce_calls_at i); at_tac| |intros ??? HE; exact HE]);
    intros [] s' l' Hl; lwp_go; at_tac.
Qed.

Lemma block_calls_at i batch calls s l E :
  guard = true → at_ (Acted i) s l →
  lwp (block_calls env batch calls) (λ _, at_ (Acted i)) E s l.
Proof.
  intros Hg. revert l. induction calls as [|c rest IH]; intros l Hp; simpl; [by lwp_go|].
  lwp_go. apply IH. unfold at_ in *. eapply at_snoc; [at_rec|]. rewrite Hg. done.
Qed.

Lemma verify_guard_at i batch calls s l :
  at_ (Acted i) s l →
  lwp (verify_guard env batch calls) (λ _, at_ (Acted i)) (λ e, left_with true e (S i)) s l.
Proof.
  intros Hp. unfold verify_guard. lwp_go; [|at_tac]. apply andb_prop in Heqb as [Hg _].
  eapply lwp_mono; [by apply (block_calls_at i)| |intros ??? HE; exact HE].
  intros [] s' l' Hl. lwp_go. eexists; split_and!; [exact Hl|done|done|]. unfold guard. simpl. by rewrite Hg.
Qed.

Lemma dispatch_at i batch calls s l :
  at_ (Acted i) s l →
  lwp (dispatch hash_call neutralize to_lowercase is_internal_endpoint uuid_str env i batch calls)
    (λ _, at_ (Ran i)) (λ e, left_with true e (S i)) s l.
Proof. intros Hp. unfold dispatch. lwp_go; first [left_tac | at_tac]. Qed.

Lemma marker_events_shape line ev :
  ev ∈ (marker_events (V:=V) line).1 →
  match ev with File _ _ _ | RichCard _ _ | ToolCallArgs _ _ => True | _ => False end.
Proof.
  unfold marker_events. repeat case_match; simpl; rewrite ?list_elem_of_singleton; set_unfold;
    intros; subst; try done; naive_solver.
Qed.

Lemma extract_shape r ev :
  ev ∈ (extract_tool_result_events (V:=V) r).1 →
  match ev with File _ _ _ | RichCard _ _ | ToolCallArgs _ _ => True | _ => False end.
Proof.
  unfold extract_tool_result_events. repeat case_match; simpl;
    rewrite ?list_elem_of_singleton; intros Hin; subst; try done; try (by set_unfold).
  all: apply list_elem_of_In, in_concat in Hin as (evs & Hin & Hev);
    apply list_elem_of_In in Hin, Hev;
    apply list_elem_of_fmap in Hin as ([] & -> & Hin);
    apply list_elem_of_fmap in Hin as (line & Hl & _);
    pose proof (marker_events_shape line) as Hs; rewrite <-Hl in Hs; exact (Hs _ Hev).
Qed.

Lemma emit_all_at i evs s l E :
  at_ (Ran i) s l →
  (∀ ev, ev ∈ evs → match ev with File _ _ _ | RichCard _ _ | ToolCallArgs _ _ => True | _ => False end) →
  lwp (emit_all env evs) (λ _, at_ (Ran i)) E s l.
Proof.
  revert l. induction evs as [|ev rest IH]; intros l Hp Hs; simpl; [by lwp_go|].
  lwp_go. apply IH; [|intros; apply Hs; by right].
  pose proof (Hs ev (list_elem_of_here _ _)). destruct ev; try done; at_tac.
Qed.

Lemma push_results_at i results s l E :
  at_ (Ran i) s l → lwp (push_results env results) (λ _, at_ (Ran i)) E s l.
Proof.
  revert s l. induction results as [|b rest IH]; intros s l Hp; simpl; [by lwp_go|].
  lwp_prim. unfold push_result. pose proof (extract_shape (br_result b)) as Hs.
  destruct (extract_tool_result_events _) as [evs display]. lwp_prim.
  eapply lwp_mono; [by apply emit_all_at| |intros ??? HE; exact HE].
  intros [] s' l' Hl. lwp_go; apply IH; at_tac.
Qed.

Lemma nudge_at i o s l E :
  at_ (Ran i) s l → lwp (nudge env i o) (λ _, at_ (Between (S i))) E s l.
Proof. intros Hp. unfold nudge. lwp_go; at_tac. Qed.

(** The end of the stream, from a phase that can take it. *)
Lemma finish_at p n st l :
  run guard l = Some p → ready guard p = Some n ∨ p = Summed n →
  run guard (l ++ [Emit (Finish st false)]) = Some (Ended n).
Proof.
  intros Hp Hn. eapply at_snoc; [done|]. cbn. destruct Hn as [Hn| ->]; [|done].
  rewrite Hn. by destruct p.
Qed.

Lemma leave_attributed_at {A} b st n (Q : A → Assertion) s l :
  at_ (Ended n) s l → lwp (leave_attributed env st) Q (λ e, left_with b e n) s l.
Proof.
  intros Hp. unfold leave_attributed, forced_provider. lwp_go; exists (Ended n); eauto.
Qed.

Lemma forced_final_at n p s l E :
  run guard l = Some p → ready guard p = Some n →
  lwp (forced_final env) (λ _, at_ (Summed n)) E s l.
Proof.
  intros Hp Hn. unfold forced_final, forced_provider. lwp_go;
    (eapply at_snoc; [done|]; cbn; by rewrite Hn).
Qed.

Lemma loop_broken_exit_at {A} i (Q : A → Assertion) s l :
  at_ (Between (S i)) s l → lwp (loop_broken_exit env) Q (λ e, left_with true e (S i)) s l.
Proof.
  intros Hp. unfold loop_broken_exit. lwp_prim. destruct (l_forced_final _).
  - lwp_prim. eapply lwp_mono; [by apply (forced_final_at (S i) (Between (S i)))| |intros ??? HE; exact HE].
    intros [] s' l' Hl. lwp_prim. lwp_prim. lwp_prim. apply leave_attributed_at.
    eapply finish_at; [exact Hl|by right].
  - lwp_prim. lwp_prim. lwp_prim. apply leave_attributed_at. eapply finish_at; [exact Hp|by left].
Qed.

Lemma turn_limit_at {A} n p (Q : A → Assertion) s l :
  run guard l = Some p → ready guard p = Some n →
  lwp (turn_limit env) Q (λ e, left_with false e n) s l.
Proof.
  intros Hp Hn. unfold turn_limit, when. lwp_prim. destruct (l_forced_final _).
  - eapply lwp_mono; [by apply (forced_final_at n p)| |intros ??? HE; exact HE].
    intros [] s' l' Hl. lwp_prim. lwp_prim. apply leave_attributed_at.
    eapply finish_at; [exact Hl|by right].
  - lwp_prim. lwp_prim. lwp_prim. apply leave_attributed_at. eapply finish_at; [exact Hp|by left].
Qed.

Lemma iteration_at i s l :
  waiting i s l →
  lwp (iteration hash_call neutralize to_lowercase is_internal_endpoint uuid_str env i)
    (λ _, at_ (Between (S i))) (λ e, left_with true e (S i)) s l.
Proof.
  intros Hw. unfold iteration, tool_step.
  lwp_prim. lwp_call open_step_at. cbv beta. clear s l Hw. intros id s l Hp.
  lwp_prim. lwp_call shrink_context_at. cbv beta. clear s l Hp. intros _ s l Hp.
  lwp_prim. lwp_call call_model_at. cbv beta. clear s l Hp. intros [[r partial] live] s l Hp.
  lwp_prim. lwp_call (record_usage_at i). cbv beta. clear s l Hp. intros _ s l Hp.
  case_bool_decide; [by apply final_answer_at|].
  lwp_prim. lwp_call (open_tool_calls_at i). cbv beta. clear s l Hp. intros batch s l Hp.
  lwp_prim. lwp_call verify_guard_at. cbv beta. clear s l Hp. intros _ s l Hp.
  lwp_prim. lwp_call dispatch_at. cbv beta. clear s l Hp. intros o s l Hp.
  lwp_prim. lwp_call (push_results_at i). cbv beta. clear s l Hp. intros _ s l Hp.
  lwp_prim. lwp_call (nudge_at i). cbv beta. clear s l Hp.
  intros [] s l Hp; [by apply loop_broken_exit_at|by lwp_prim].
Qed.

Lemma left_with_mono e n m s l : left_with false e n s l → n ≤ m → left_with false e m s l.
Proof.
  intros (q & Hq & Hn & He) Hm. exists q. split_and!; [done|lia|]. destruct e; try done. by destruct He.
Qed.

Lemma iterate_at left i s l :
  waiting i s l →
  lwp (iterate hash_call neutralize to_lowercase is_internal_endpoint uuid_str env left i)
    (λ _, waiting (i + left)) (λ e, left_with false e (i + left)) s l.
Proof.
  revert i s l. induction left as [|left IH]; intros i s l Hw; cbn [iterate].
  { lwp_prim. by rewrite Nat.add_0_r. }
  assert (∀ s l, waiting (S i) s l →
    lwp (iterate hash_call neutralize to_lowercase is_internal_endpoint uuid_str env left (S i))
      (λ _, waiting (i + S left)) (λ e, left_with false e (i + S left)) s l) as IH'.
  { intros s' l' Hw'. rewrite Nat.add_succ_r. by apply (IH (S i)). }
  lwp_prim. apply lwp_catch. eapply lwp_mono; [by apply iteration_at| |].
  - intros [] s' l' Hp. apply IH'. eexists. split; [exact Hp|done].
  - intros e s' l' (q & Hq & Hn & He).
    destruct e; try (exists q; split; [done|split; [lia|done]]).
    destruct He as [_ He]. apply IH'. exists q. by split.
Qed.

Lemma effective_iterations_pos (c : ToolLoopConfig) : Z.to_nat (effective_max_iterations c) ≠ 0.
Proof.
  unfold effective_max_iterations, umax. destruct (Nat.eqb_spec (max_iterations c) 0); lia.
Qed.

(** The whole turn: its trace is accepted, in at most as many steps as the
    configuration allows, and a success is only reported on an ended stream. *)
Lemma execute_at t :
  t_trace t = [] →
  let '(t', e) := execute hash_call neutralize to_lowercase is_internal_endpoint uuid_str env t in
  left_with false e (Z.to_nat (effective_max_iterations (e_loop env))) (t_layer t') (t_trace t').
Proof.
  intros Ht. unfold execute. pose proof (effective_iterations_pos (e_loop env)) as Hpos.
  set (N := Z.to_nat (effective_max_iterations (e_loop env))) in *. clearbody N.
  match goal with |- context [match ?m t with _ => _ end] =>
    assert (lwp m (λ _ _ _, False) (λ e, left_with false e N) (t_layer t) []) as Hw end.
  { lwp_prim. eapply lwp_mono; [by apply preflight_at| |].
    - intros [] s l Hp. lwp_prim. eapply lwp_mono; [apply (iterate_at N 0)| |intros ??? HE; exact HE].
      + exists Fresh. by split.
      + intros [] s' l' (p & Hl & Hr). simpl in Hl, Hr.
        destruct (Nat.eqb_spec N 0); [done|].
        by apply (turn_limit_at N p).
    - intros e s l He. eapply left_with_mono; [exact He|lia]. }
  specialize (Hw t eq_refl Ht). cbv beta in Hw.
  lazymatch type of Hw with match ?r with _ => _ end => by destruct r as [t' [e|o]] end.
Qed.

(** C1: Every turn's trace is accepted by the automaton [Phase]: one message
    announcement, then steps numbered from 0, in each one a single model call
    and the row of the assistant turn before its batch runs, then at most one
    call without tools, and nothing after the end of the stream.  A step is
    ended before the next begins, with one exception, which the automaton
    has: under the interrupted-verify guard a step whose batch was not run
    is left open.  No more steps are opened than the configured maximum.  The
    turn never asks for another round: it returns, it propagates a sink's
    error, or it panics, which it only does in the compaction before the
    first event and with [preserve_last_n = 0]; and it reports success only
    on a stream that it has finished. *)
(* @prop refinement defs=execute,iterate,open_step,call_model,final_answer,turn_limit,compact_messages,shrink_context *)
Theorem turn_follows_protocol messages detector compressor cooldowns :
  let '(t', e) := execute hash_call neutralize to_lowercase is_internal_endpoint uuid_str env
                    (start env messages detector compressor cooldowns) in
  ∃ p, run guard (t_trace t') = Some p ∧
       steps p ≤ Z.to_nat (effective_max_iterations (e_loop env)) ∧
       e ≠ Continue ∧
       (e = Panic → preserves_nothing ∧ t_trace t' = []) ∧
       ∀ o, e = Return o → finishes (status o) = true → ∃ n, p = Ended n.
Proof.
  pose proof (execute_at (start env messages detector compressor cooldowns) eq_refl) as Hx.
  destruct (execute _ _ _ _ _ _ _) as [t' e]. destruct Hx as (p & Hp & Hn & He). exists p.
  split_and!; [done..|intros ->; by destruct He|by intros ->|]. intros o -> Hf. by apply He.
Qed.

(** A turn makes at most [effective_max_iterations] model calls with
    tools, whatever the model, the tools, the sink and the recoveries do, and
    at most one call without tools. *)
Theorem turn_bounded messages detector compressor cooldowns :
  let '(t', _) := execute hash_call neutralize to_lowercase is_internal_endpoint uuid_str env
                    (start env messages detector compressor cooldowns) in
  count is_llm_call (t_trace t') ≤ Z.to_nat (effective_max_iterations (e_loop env)) ∧
  count is_final_call (t_trace t') ≤ 1.
Proof.
  pose proof (execute_at (start env messages detector compressor cooldowns) eq_refl) as Hx.
  destruct (execute _ _ _ _ _ _ _) as [t' e]. destruct Hx as (p & Hp & Hn & _).
  destruct (run_counts _ _ _ Hp). lia.
Qed.

(** ** Recoveries are bounded *)

Definition is_finish (reason : string) (a : Action V) : bool :=
  match a with Emit (StepFinish _ r) => bool_decide (r = bs reason) | _ => false end.
Definition reserves : nat := match e_chain env with Some chain => length chain - 1 | None => 0 end.
Definition continues : Z :=
  match l_auto_continue (e_layers env) with Some p => Z.max 0 (max_continues p) | None => 0 end.

(** Each recovery that ended a step is counted in the layer state, and the
    counters stay in their bounds. *)
Record bounded s l : Prop := mkBounded {
  bd_reset : count (is_finish "session_recovery") l ≤ (if did_reset_session s then 1 else 0);
  bd_empty : (Z.of_nat (count (is_finish "empty_retry") l) <= empty_retry_count s <= 1)%Z;
  bd_continue : (Z.of_nat (count (is_finish "auto_continue") l) <= auto_continue_count s <= continues)%Z;
  bd_switch : count (is_finish "fallback_switch") l ≤ fallback_chain_idx s ≤ reserves;
}.

(** An action that is not one of the four. *)
Definition quiet (a : Action V) : Prop :=
  is_finish "session_recovery" a = false ∧ is_finish "empty_retry" a = false ∧
  is_finish "auto_continue" a = false ∧ is_finish "fallback_switch" a = false.

Lemma bounded_quiet s l a : bounded s l → quiet a → bounded s (l ++ [a]).
Proof.
  intros [] (H1 & H2 & H3 & H4). constructor; rewrite count_snoc, ?H1, ?H2, ?H3, ?H4, Nat.add_0_r; done.
Qed.
Lemma bounded_failures s l n : bounded s l → bounded (set_failures n s) l.
Proof. by intros []. Qed.
Lemma bounded_adopt s l p r :
  bounded s l → fallback_chain_idx s ≤ r → r < reserves →
  bounded (adopt_fallback p (set_chain_idx r s)) l.
Proof. intros [] ??. constructor; simpl; try done; lia. Qed.

Ltac quiet_tac := by split_and!.
Ltac bd_tac := first
  [ eassumption
  | apply bounded_failures; bd_tac
  | apply bounded_quiet; [bd_tac|quiet_tac] ].

Definition kept : Assertion (V:=V) := bounded.

Lemma create_fallback_entry idx s l E :
  lwp (create_fallback_provider env idx) (λ a s' l', s' = s ∧ l' = l ∧
    ∀ p r, a = Some (p, r) → idx ≤ r ∧ r < reserves) E s l.
Proof.
  unfold create_fallback_provider. destruct (e_chain env) as [chain|] eqn:Hc; [|by lwp_go].
  lwp_prim. apply lwp_gets; intros m. cbv beta. lwp_prim. apply lwp_gets; intros n. cbv beta.
  destruct (Cooldown.resolve_next_uncooled _ _ _ _) as [r m'] eqn:Hr.
  lwp_prim. lwp_prim. lwp_prim. split_and!; [done|done|]. intros p i.
  destruct r as [[entry j]|]; [|done]. destruct (e_build env entry); [|done]. simpl. intros [= -> ->].
  pose proof (Cooldown.resolve_next_uncooled_entry chain m (e_clock env n) idx entry i) as He.
  rewrite Hr in He. destruct (He eq_refl) as [? Hi]. apply lookup_lt_Some in Hi.
  unfold reserves. rewrite Hc. lia.
Qed.

Lemma preflight_kept s l :
  bounded s l → fallback_chain_idx s = 0 →
  lwp (preflight to_lowercase env) (λ _, kept) (λ _, kept) s l.
Proof.
  intros Hb Hz. unfold preflight, compact_messages, start_on_reserve, is_cooled, kept.
  lwp_go; try bd_tac.
  all: (eapply lwp_mono; [apply create_fallback_entry| |intros ??? HE; exact HE]);
    intros r s' l' (-> & -> & Hr); lwp_go; [|bd_tac];
    destruct (Hr _ _ eq_refl); apply bounded_quiet; [|quiet_tac];
    apply bounded_adopt; [bd_tac|lia|lia].
Qed.

Lemma forward_chunks_kept chunks partial err s l E :
  bounded s l → lwp (forward_chunks env chunks partial err) (λ _, kept) E s l.
Proof.
  revert partial err l. induction chunks as [|c rest IH]; intros partial err l Hb; simpl; [by lwp_go|].
  lwp_prim. unfold emit_chunk. lwp_go; apply IH; bd_tac.
Qed.

Lemma recover_session_kept i class s l :
  bounded s l → lwp (recover_session env i class) (λ _, kept) (λ _, kept) s l.
Proof.
  intros Hb. unfold recover_session, kept. lwp_go; try bd_tac.
  apply andb_prop in Heqb as [_ Hr]. apply negb_true_iff in Hr. destruct Hb.
  rewrite Hr in bd_reset0.
  constructor; rewrite count_snoc; simpl; rewrite ?Nat.add_0_r; [lia|done..].
Qed.

Lemma switch_kept i s l p r text :
  bounded s l → fallback_chain_idx s ≤ r → r < reserves →
  bounded (adopt_fallback p (set_chain_idx r s))
    ((l ++ [Emit (TextDelta text)]) ++ [Emit (StepFinish (step_id i) (bs "fallback_switch"))]).
Proof.
  intros [] ??. constructor; rewrite !count_snoc; simpl; rewrite ?Nat.add_0_r; [done..|lia].
Qed.

Lemma fail_over_kept i live class s l :
  bounded s l → lwp (fail_over env i live class) (λ _, kept) (λ _, kept) s l.
Proof.
  intros Hb. unfold fail_over, kept. lwp_go; try bd_tac.
  all: (eapply lwp_mono; [apply create_fallback_entry| |intros ??? HE; exact HE]);
    intros r s' l' (-> & -> & Hr); unfold promote_reserve; lwp_go; try bd_tac;
    destruct (Hr _ _ eq_refl); apply switch_kept; (done || bd_tac).
Qed.

Lemma fail_turn_kept {A} i e (Q : A → Assertion) s l :
  bounded s l → lwp (fail_turn env i e) Q (λ _, kept) s l.
Proof. intros Hb. unfold fail_turn, kept. lwp_go; bd_tac. Qed.

Lemma call_model_kept i s l :
  bounded s l → lwp (call_model env i) (λ _, kept) (λ _, kept) s l.
Proof.
  intros Hb. unfold call_model, live_provider, on_error.
  lwp_go.
  eapply lwp_mono; [apply forward_chunks_kept; bd_tac| |intros ??? HE; exact HE].
  intros [partial err] s' l' Hl. unfold kept in Hl. lwp_go; unfold kept; try bd_tac.
  lwp_call recover_session_kept. cbv beta. intros _ s1 l1 H1. lwp_prim.
  lwp_call fail_over_kept. cbv beta. intros _ s2 l2 H2. by apply fail_turn_kept.
Qed.

Lemma auto_continue_kept i text s l :
  bounded s l → lwp (auto_continue to_lowercase env i text) (λ _, kept) (λ _, kept) s l.
Proof.
  intros Hb. unfold auto_continue, kept. pose proof Hb as [? ? Hc ?].
  unfold continues in Hc. destruct (l_auto_continue _) as [p|] eqn:Hp; [|by lwp_go].
  lwp_go; try bd_tac; bool_hyps.
  - constructor; rewrite count_snoc; simpl; rewrite ?Nat.add_0_r; try done; [lia|].
    unfold continues. by rewrite Hp.
  - constructor; rewrite !count_snoc; simpl; rewrite ?Nat.add_0_r; try done.
    unfold continues. rewrite Hp. lia.
  - constructor; rewrite !count_snoc; simpl; rewrite ?Nat.add_0_r; try done.
    unfold continues. rewrite Hp. lia.
Qed.

Lemma announce_calls_kept batch calls s l E :
  bounded s l → lwp (announce_calls env batch calls) (λ _, kept) E s l.
Proof.
  revert l. induction calls as [|c rest IH]; intros l Hb; simpl; [by lwp_go|]. lwp_go. apply IH. bd_tac.
Qed.

Lemma block_calls_kept batch calls s l E :
  bounded s l → lwp (block_calls env batch calls) (λ _, kept) E s l.
Proof.
  revert l. induction calls as [|c rest IH]; intros l Hb; simpl; [by lwp_go|]. lwp_go. apply IH. bd_tac.
Qed.

Lemma emit_all_kept evs s l E :
  bounded s l →
  (∀ ev, ev ∈ evs → match ev with File _ _ _ | RichCard _ _ | ToolCallArgs _ _ => True | _ => False end) →
  lwp (emit_all env evs) (λ _, kept) E s l.
Proof.
  revert l. induction evs as [|ev rest IH]; intros l Hb Hs; simpl; [by lwp_go|].
  lwp_go. apply IH; [|intros; apply Hs; by right].
  pose proof (Hs ev (list_elem_of_here _ _)). destruct ev; try done; bd_tac.
Qed.

Lemma push_results_kept results s l E :
  bounded s l → lwp (push_results env results) (λ _, kept) E s l.
Proof.
  revert s l. induction results as [|b rest IH]; intros s l Hb; simpl; [by lwp_go|].
  lwp_prim. unfold push_result. pose proof (extract_shape (br_result b)) as Hs.
  destruct (extract_tool_result_events _) as [evs display]. lwp_prim.
  eapply lwp_mono; [by apply emit_all_kept| |intros ??? HE; exact HE].
  intros [] s' l' Hl. unfold kept in Hl. lwp_go; apply IH; bd_tac.
Qed.

Lemma leave_attributed_kept {A} st (Q : A → Assertion) s l :
  bounded s l → lwp (leave_attributed env st) Q (λ _, kept) s l.
Proof. intros Hb. unfold leave_attributed, forced_provider, kept. lwp_go; bd_tac. Qed.

Lemma forced_final_kept s l E : bounded s l → lwp (forced_final env) (λ _, kept) E s l.
Proof. intros Hb. unfold forced_final, forced_provider, kept. lwp_go; bd_tac. Qed.

(** The straight-line operations. *)
Ltac kept_tac op := intros Hb; unfold op, kept; lwp_go; bd_tac.

Lemma open_step_kept i s l : bounded s l → lwp (open_step env i) (λ _, kept) (λ _, kept) s l.
Proof. intros Hb. unfold open_step, emit_message_start, kept. lwp_go; bd_tac. Qed.
Lemma shrink_context_kept s l : bounded s l → lwp (shrink_context env) (λ _, kept) (λ _, kept) s l.
Proof. kept_tac @shrink_context. Qed.
Lemma record_usage_kept r s l : bounded s l → lwp (record_usage env r) (λ _, kept) (λ _, kept) s l.
Proof. kept_tac @record_usage. Qed.
Lemma dispatch_kept i batch calls s l :
  bounded s l →
  lwp (dispatch hash_call neutralize to_lowercase is_internal_endpoint uuid_str env i batch calls)
    (λ _, kept) (λ _, kept) s l.
Proof. kept_tac @dispatch. Qed.
Lemma nudge_kept i o s l : bounded s l → lwp (nudge env i o) (λ _, kept) (λ _, kept) s l.
Proof. kept_tac @nudge. Qed.

Lemma final_answer_kept {A} i r partial (Q : A → Assertion) s l :
  bounded s l → lwp (final_answer to_lowercase env i r partial) Q (λ _, kept) s l.
Proof.
  intros Hb. unfold final_answer. lwp_prim. lwp_call auto_continue_kept. cbv beta.
  intros _ s1 l1 H1. unfold kept in *. lwp_go; bd_tac.
Qed.

Lemma open_tool_calls_kept i id r partial s l :
  bounded s l → lwp (open_tool_calls env i id r partial) (λ _, kept) (λ _, kept) s l.
Proof.
  intros Hb. unfold open_tool_calls, new_batch_id. lwp_go;
    (eapply lwp_mono; [apply announce_calls_kept; bd_tac| |intros ??? HE; exact HE]);
    intros [] s' l' Hl; by lwp_go.
Qed.

Lemma verify_guard_kept batch calls s l :
  bounded s l → lwp (verify_guard env batch calls) (λ _, kept) (λ _, kept) s l.
Proof.
  intros Hb. unfold verify_guard. lwp_go; [|done]. lwp_call block_calls_kept.
  cbv beta. intros _ s' l' Hl. by lwp_go.
Qed.

Lemma loop_broken_exit_kept {A} (Q : A → Assertion) s l :
  bounded s l → lwp (loop_broken_exit env) Q (λ _, kept) s l.
Proof.
  intros Hb. unfold loop_broken_exit. lwp_prim. destruct (l_forced_final _); lwp_prim.
  - lwp_call forced_final_kept. cbv beta. intros _ s' l' Hl. unfold kept in Hl.
    lwp_prim. lwp_prim. lwp_prim. apply leave_attributed_kept. bd_tac.
  - lwp_prim. lwp_prim. apply leave_attributed_kept. bd_tac.
Qed.

Lemma turn_limit_kept {A} (Q : A → Assertion) s l :
  bounded s l → lwp (turn_limit env) Q (λ _, kept) s l.
Proof.
  intros Hb. unfold turn_limit, when. lwp_prim. destruct (l_forced_final _).
  - lwp_call forced_final_kept. cbv beta. intros _ s' l' Hl. unfold kept in Hl.
    lwp_prim. lwp_prim. apply leave_attributed_kept. bd_tac.
  - lwp_prim. lwp_prim. lwp_prim. apply leave_attributed_kept. bd_tac.
Qed.

Lemma iteration_kept i s l :
  bounded s l →
  lwp (iteration hash_call neutralize to_lowercase is_internal_endpoint uuid_str env i)
    (λ _, kept) (λ _, kept) s l.
Proof.
  intros Hb. unfold iteration, tool_step.
  lwp_prim. lwp_call open_step_kept. cbv beta. clear s l Hb. intros id s l Hb.
  lwp_prim. lwp_call shrink_context_kept. cbv beta. clear s l Hb. intros _ s l Hb.
  lwp_prim. lwp_call call_model_kept. cbv beta. clear s l Hb. intros [[r partial] live] s l Hb.
  lwp_prim. lwp_call record_usage_kept. cbv beta. clear s l Hb. intros _ s l Hb.
  case_bool_decide; [by apply final_answer_kept|].
  lwp_prim. lwp_call open_tool_calls_kept. cbv beta. clear s l Hb. intros batch s l Hb.
  lwp_prim. lwp_call verify_guard_kept. cbv beta. clear s l Hb. intros _ s l Hb.
  lwp_prim. lwp_call dispatch_kept. cbv beta. clear s l Hb. intros o s l Hb.
  lwp_prim. lwp_call push_results_kept. cbv beta. clear s l Hb. intros _ s l Hb.
  lwp_prim. lwp_call nudge_kept. cbv beta. clear s l Hb.
  intros [] s l Hb; [by apply loop_broken_exit_kept|by lwp_prim].
Qed.

Lemma iterate_kept left i s l :
  bounded s l →
  lwp (iterate hash_call neutralize to_lowercase is_internal_endpoint uuid_str env left i)
    (λ _, kept) (λ _, kept) s l.
Proof.
  revert i s l. induction left as [|left IH]; intros i s l Hb; cbn [iterate]; [by lwp_prim|].
  lwp_prim. apply lwp_catch. eapply lwp_mono; [by apply iteration_kept| |]; cbv beta.
  - intros _ s' l' Hl. by apply IH.
  - intros [] s' l' Hl; try done. by apply IH.
Qed.

(** C24: The recoveries of a turn are bounded, whatever the model, the tools and
    the database do: of the steps of a turn at most one ends to reset a
    corrupted session, at most one to repeat an empty answer, at most
    [max_continues] to nudge the model about an incomplete answer (none
    without that layer), and at most as many to switch the provider as the
    fallback chain has reserves behind its first provider. *)
(* @prop bounds defs=execute,recover_session,auto_continue,fail_over *)
Theorem recoveries_bounded messages detector compressor cooldowns :
  let '(t', _) := execute hash_call neutralize to_lowercase is_internal_endpoint uuid_str env
                    (start env messages detector compressor cooldowns) in
  count (is_finish "session_recovery") (t_trace t') ≤ 1 ∧
  count (is_finish "empty_retry") (t_trace t') ≤ 1 ∧
  (Z.of_nat (count (is_finish "auto_continue") (t_trace t')) <= continues)%Z ∧
  count (is_finish "fallback_switch") (t_trace t') ≤ reserves.
Proof.
  set (t := start _ _ _ _ _). unfold execute.
  match goal with |- context [match ?m t with _ => _ end] =>
    assert (lwp m (λ _, kept) (λ _, kept) (t_layer t) (t_trace t)) as Hw end.
  { assert (bounded (t_layer t) (t_trace t)) as Hb.
    { constructor; simpl; unfold count, continues, reserves; simpl; repeat case_match; lia. }
    lwp_prim. eapply lwp_mono; [by apply preflight_kept| |intros ??? HE; exact HE]. cbv beta.
    intros _ s l Hp. lwp_prim. lwp_call iterate_kept. cbv beta. intros _ s' l' Hl.
    by apply turn_limit_kept. }
  specialize (Hw t eq_refl eq_refl). cbv beta in Hw.
  lazymatch type of Hw with match ?r with _ => _ end => destruct r as [t' [e|o]] end;
    destruct Hw as [Hr]; (split_and!; [|lia..]); revert Hr; case_match; lia.
Qed.

(** ** The transcript

    The same logic over the messages of the turn. *)
Definition mwp {A} (m : M (V:=V) A) (Q : A → list (Message V) → Prop) (E : Exit → list (Message V) → Prop)
    (ms : list (Message V)) : Prop :=
  ∀ t, t_messages t = ms →
  match m t with
  | (t', inr a) => Q a (t_messages t')
  | (t', inl e) => E e (t_messages t')
  end.

Lemma mwp_bind {A B} (m : M (V:=V) A) (f : A → M (V:=V) B) Q E ms :
  mwp m (λ a, mwp (f a) Q E) E ms → mwp (M_bind A B f m) Q E ms.
Proof.
  intros Hm t <-. specialize (Hm t eq_refl). unfold M_bind.
  destruct (m t) as [t' [e|a]]; [done|]. by apply Hm.
Qed.
Lemma mwp_mono {A} (m : M (V:=V) A) (Q Q' : A → list (Message V) → Prop) E ms :
  mwp m Q E ms → (∀ a ms, Q a ms → Q' a ms) → mwp m Q' E ms.
Proof. intros Hm HQ t <-. specialize (Hm t eq_refl). destruct (m t) as [t' [e|a]]; eauto. Qed.
(** An operation that returns with the messages as they were. *)
Definition still {A} (m : M (V:=V) A) : Prop := ∀ t, ∃ t' a, m t = (t', inr a) ∧ t_messages t' = t_messages t.
Lemma mwp_still {A} (m : M (V:=V) A) Q E ms : still m → (∀ a, Q a ms) → mwp m Q E ms.
Proof. intros Hm HQ t <-. destruct (Hm t) as (t' & a & -> & Ht). rewrite Ht. apply HQ. Qed.
Lemma mwp_set f (Q : unit → list (Message V) → Prop) E ms : Q tt (f ms) → mwp (set_messages f) Q E ms.
Proof. by intros HQ t <-. Qed.
Lemma mwp_ret {A} (a : A) Q (E : Exit → list (Message V) → Prop) ms : Q a ms → mwp (M_ret A a) Q E ms.
Proof. by intros ? t <-. Qed.
Lemma mwp_stop {A} e (Q : A → list (Message V) → Prop) E ms : E e ms → mwp (stop e) Q E ms.
Proof. by intros ? t <-. Qed.

Lemma still_bind {A B} (m : M (V:=V) A) (f : A → M (V:=V) B) : still m → (∀ a, still (f a)) → still (M_bind A B f m).
Proof.
  intros Hm Hf t. destruct (Hm t) as (t1 & a & Ha & H1). destruct (Hf a t1) as (t2 & b & Hb & H2).
  exists t2, b. unfold M_bind. rewrite Ha. split; [done|congruence].
Qed.
Lemma still_emit_ ev : still (emit_ env ev).
Proof. intros t. by do 2 eexists. Qed.
Lemma still_modify f : (∀ t : Turn V, t_messages (f t) = t_messages t) → still (modify f).
Proof. intros Hf t. do 2 eexists. split; [done|apply Hf]. Qed.
Lemma still_gets {A} (f : Turn V → A) : still (gets f).
Proof. intros t. by do 2 eexists. Qed.
Lemma still_uuid : still (new_uuid env).
Proof. intros t. by do 2 eexists. Qed.
Lemma still_ret {A} (a : A) : still (M_ret A a).
Proof. intros t. by do 2 eexists. Qed.

Ltac still_tac :=
  repeat first
    [ apply still_bind; [|intros ?]
    | apply still_emit_ | apply still_gets | apply still_uuid | apply still_ret
    | apply still_modify; by intros
    | case_match ].

Lemma still_announce batch calls : still (announce_calls env batch calls).
Proof. induction calls; simpl; still_tac; done. Qed.
Lemma still_emit_all evs : still (emit_all env evs).
Proof. induction evs; simpl; still_tac; done. Qed.

(** The answer to the call [id]. *)
Definition answers (id : str) (m : Message V) : Prop :=
  role m = Tool ∧ tool_call_id m = Some id ∧ tool_calls m = None.

Definition blocked_message (tc : ToolCall V) : Message V :=
  tool_message (tc_id tc) INTERRUPTED_VERIFY_BLOCK_RESULT.

Lemma block_calls_messages batch calls E (ms : list (Message V)) :
  mwp (block_calls env batch calls) (λ _ ms', ms' = ms ++ (blocked_message <$> calls)) E ms.
Proof.
  revert ms. induction calls as [|c rest IH]; intros ms; simpl.
  { apply mwp_ret. by rewrite app_nil_r. }
  apply mwp_bind, mwp_still; [still_tac|intros _].
  apply mwp_bind, mwp_still; [still_tac|intros id].
  apply mwp_bind, mwp_still; [still_tac|intros parent].
  apply mwp_bind, mwp_still; [still_tac|intros _].
  apply mwp_bind, mwp_still; [still_tac|intros _].
  apply mwp_bind, mwp_set.
  apply mwp_bind, mwp_still; [still_tac|intros _].
  eapply mwp_mono; [apply IH|]. intros _ ms' ->. by rewrite <-app_assoc.
Qed.

Lemma blocked_answers calls : Forall2 answers (tc_id <$> calls) (blocked_message <$> calls).
Proof. induction calls; constructor; done. Qed.

Lemma push_results_messages results E (ms : list (Message V)) :
  mwp (push_results env results)
    (λ _ ms', ∃ l : list (Message V), ms' = ms ++ l ∧ Forall2 answers (br_tool_call_id <$> results) l) E ms.
Proof.
  revert ms. induction results as [|b rest IH]; intros ms; simpl.
  { apply mwp_ret. exists []. by rewrite app_nil_r. }
  apply mwp_bind. unfold push_result. destruct (extract_tool_result_events _) as [evs display].
  apply mwp_bind, mwp_still; [apply still_emit_all|intros _].
  apply mwp_bind, mwp_still; [still_tac|intros _].
  apply mwp_bind, mwp_set.
  apply mwp_bind, mwp_still; [still_tac|intros _].
  apply mwp_still; [still_tac|intros _].
  eapply mwp_mono; [apply IH|]. intros _ ms' (l & -> & Hl).
  eexists (_ :: l). rewrite <-app_assoc. split; [done|]. by constructor.
Qed.

Lemma mwp_leave_here {A} st (Q : A → list (Message V) → Prop) E ms :
  (∀ o, E (Return o) ms) → mwp (leave_here st) Q E ms.
Proof. intros HE t <-. apply HE. Qed.

Lemma dispatch_messages i batch calls (E : Exit → list (Message V) → Prop) ms :
  (∀ o, E (Return o) ms) →
  mwp (dispatch hash_call neutralize to_lowercase is_internal_endpoint uuid_str env i batch calls)
    (λ o ms', ms' = ms ∧ br_tool_call_id <$> bo_results o = nub [] (tc_id <$> calls)) E ms.
Proof.
  intros HE. unfold dispatch. destruct (e_executor env) as [executor|]; [|by apply mwp_leave_here].
  apply mwp_bind. unfold check_cancelled. case_match; [by apply mwp_leave_here|]. apply mwp_ret.
  apply mwp_bind, mwp_still; [still_tac|intros _].
  apply mwp_bind, mwp_still; [still_tac|intros t].
  pose proof (batch_ids hash_call neutralize to_lowercase is_internal_endpoint uuid_str
    (turn_batch env (executor i) (t_last_msg t)
       (History.sum_list ((λ m, length (content m)) <$> t_messages t)) batch)
    calls (t_detector t)) as Hids.
  destruct (execute_tool_calls_partitioned _ _ _ _ _ _ _ _) as [[o det] effects].
  destruct (e_batch_deadline env i).
  - apply mwp_bind, mwp_still; [still_tac|intros _]. by apply mwp_leave_here.
  - apply mwp_bind, mwp_still; [still_tac|intros _].
    apply mwp_bind, mwp_still; [still_tac|intros _]. by apply mwp_ret.
Qed.

Definition nudged (extra : list (Message V)) : Prop :=
  extra = [] ∨ ∃ reason, extra = [text_message System (build_loop_nudge_message reason)].

Lemma nudge_messages i o (E : Exit → list (Message V) → Prop) ms :
  mwp (nudge env i o) (λ _ ms', ∃ extra, ms' = ms ++ extra ∧ nudged extra) E ms.
Proof.
  unfold nudge. apply mwp_bind. intros t <-. cbn [gets id].
  destruct (apply_loop_nudge (t_messages t) (bo_loop_break o) (t_nudges t)
    (max_loop_nudges (e_loop env))) as [[ms n] broken] eqn:Hn.
  revert t Hn. intros t Hn. enough (∃ extra, ms = t_messages t ++ extra ∧ nudged extra) as He.
  { apply mwp_bind, mwp_set. apply mwp_bind, mwp_still; [still_tac|intros _].
    apply mwp_bind, mwp_still; [still_tac|intros _]. by apply mwp_ret. }
  revert Hn. unfold apply_loop_nudge. repeat case_match; intros [= <- <- <-].
  - eexists. split; [done|]. right. by eexists.
  - exists []. rewrite app_nil_r. split; [done|by left].
  - exists []. rewrite app_nil_r. split; [done|by left].
Qed.

Lemma mwp_returns {A} (m : M (V:=V) A) Q (E : Exit → list (Message V) → Prop) ms :
  (∀ t, ∃ t' o, m t = (t', inl (Return o))) → (∀ o ms', E (Return o) ms') → mwp m Q E ms.
Proof. intros Hm HE t _. destruct (Hm t) as (t' & o & ->). apply HE. Qed.

Lemma loop_broken_exit_returns {A} t : ∃ t' o, loop_broken_exit (A:=A) env t = (t', inl (Return o)).
Proof.
  unfold loop_broken_exit, leave_attributed, forced_final, forced_provider. cbn.
  destruct (l_forced_final (e_layers env)); cbn; eauto.
Qed.

(** The assistant turn was appended, then an answer to each of the [ids], then
    at most a nudge. *)
Definition answered (r : LlmResponse V) (partial : str) (ids : list str) (ms ms' : list (Message V)) : Prop :=
  ∃ l extra : list (Message V), ms' = ms ++ calling_message r partial :: l ++ extra ∧
    Forall2 answers ids l ∧ nudged extra.

(** C2: Before the next model call every tool call is answered: an iteration
    with tool calls that goes on has appended the assistant turn that carries
    them, then, whether the batch ran, was denied or was cut by the loop
    detector, one tool message per call id, in the order in which the ids
    first occur (so one per call, unless the model repeats an id; a repeated
    id is answered once), and after them at most a loop nudge.  When the
    interrupted-verify guard blocks the batch, each call has its message,
    repeated ids too. *)
(* @prop invariant defs=open_tool_calls,verify_guard,dispatch,push_result,nudge,block_calls witness=calls_are_answered_witness *)
Theorem calls_are_answered i id r partial t :
  let ids := tc_id <$> r_tool_calls r in
  match tool_step hash_call neutralize to_lowercase is_internal_endpoint uuid_str env i id r partial t with
  | (t', inr _) => answered r partial (nub [] ids) (t_messages t) (t_messages t')
  | (t', inl Continue) => answered r partial ids (t_messages t) (t_messages t')
  | _ => True
  end.
Proof.
  intros ids.
  assert (mwp (tool_step hash_call neutralize to_lowercase is_internal_endpoint uuid_str env i id r partial)
    (λ _, answered r partial (nub [] ids) (t_messages t))
    (λ e ms', match e with Continue => answered r partial ids (t_messages t) ms' | _ => True end)
    (t_messages t)) as Hw.
  { apply mwp_bind. unfold open_tool_calls. apply mwp_bind, mwp_set.
    apply mwp_bind, mwp_still; [still_tac|intros _].
    apply mwp_bind, mwp_still; [still_tac|intros parent].
    apply mwp_bind, mwp_still; [still_tac|intros _].
    apply mwp_bind, mwp_still; [still_tac|intros _].
    apply mwp_bind, mwp_still; [unfold new_batch_id; still_tac|intros batch].
    apply mwp_bind, mwp_still; [apply still_announce|intros _]. apply mwp_ret.
    apply mwp_bind. unfold verify_guard. apply mwp_bind, mwp_still; [still_tac|intros messages].
    case_match.
    { apply mwp_bind. eapply mwp_mono; [apply block_calls_messages|]. intros _ ms ->.
      apply mwp_stop. eexists _, []. rewrite app_nil_r, <-app_assoc.
      split_and!; [done|apply blocked_answers|by left]. }
    apply mwp_ret. apply mwp_bind. eapply mwp_mono; [by apply dispatch_messages|].
    intros o ms [-> Hids].
    apply mwp_bind. eapply mwp_mono; [apply push_results_messages|]. intros _ ms (l & -> & Hl).
    rewrite Hids in Hl. apply mwp_bind. eapply mwp_mono; [apply nudge_messages|].
    intros broken ms (extra & -> & He). destruct broken.
    - by apply mwp_returns; [apply loop_broken_exit_returns|].
    - apply mwp_ret. exists l, extra. rewrite <-!app_assoc. done. }
  specialize (Hw t eq_refl). destruct (tool_step _ _ _ _ _ _ _ _ _ _ t) as [t' [[]|]]; done.
Qed.

(** ** The interrupted-verify guard *)

(** Neither runs tools nor ends a step. *)
Definition calm (a : Action V) : Prop :=
  match a with RunBatch _ _ | Emit (StepFinish _ _) => False | _ => True end.
Definition ext l0 : Assertion (V:=V) := λ _ l, ∃ k, l = l0 ++ k ∧ Forall calm k.
Lemma ext_refl l0 s : ext l0 s l0.
Proof. exists []. by rewrite app_nil_r. Qed.
Lemma ext_snoc l0 s l a : ext l0 s l → calm a → ext l0 s (l ++ [a]).
Proof.
  intros (k & -> & Hk) Ha. exists (k ++ [a]). rewrite app_assoc. split; [done|].
  apply Forall_app. auto.
Qed.
Ltac ext_tac := first [ eassumption | apply ext_refl | apply ext_snoc; [ext_tac|done] ].

Lemma announce_calls_ext l0 batch calls s l :
  ext l0 s l → lwp (announce_calls env batch calls) (λ _, ext l0) (λ _ _ _, False) s l.
Proof.
  revert l. induction calls as [|c rest IH]; intros l Hb; simpl; [by lwp_go|]. lwp_go. apply IH. ext_tac.
Qed.
Lemma block_calls_ext l0 batch calls s l :
  ext l0 s l → lwp (block_calls env batch calls) (λ _, ext l0) (λ _ _ _, False) s l.
Proof.
  revert l. induction calls as [|c rest IH]; intros l Hb; simpl; [by lwp_go|]. lwp_go. apply IH. ext_tac.
Qed.
Lemma open_tool_calls_ext i id r partial s l :
  lwp (open_tool_calls env i id r partial) (λ _, ext l) (λ _ _ _, False) s l.
Proof.
  unfold open_tool_calls, new_batch_id. lwp_go;
    (eapply lwp_mono; [apply (announce_calls_ext l); ext_tac| |intros ??? HE; exact HE]);
    cbv beta; intros _ s' l' Hl; lwp_prim; exact Hl.
Qed.
Lemma open_tool_calls_messages i id r partial ms :
  mwp (open_tool_calls env i id r partial) (λ _ ms', ms' = ms ++ [calling_message r partial])
    (λ _ _, False) ms.
Proof.
  unfold open_tool_calls. apply mwp_bind, mwp_set.
  apply mwp_bind, mwp_still; [still_tac|intros _].
  apply mwp_bind, mwp_still; [still_tac|intros parent].
  apply mwp_bind, mwp_still; [still_tac|intros _].
  apply mwp_bind, mwp_still; [still_tac|intros _].
  apply mwp_bind, mwp_still; [unfold new_batch_id; still_tac|intros batch].
  apply mwp_bind, mwp_still; [apply still_announce|intros _]. by apply mwp_ret.
Qed.

Lemma blocked_not_interrupted ms calls :
  calls ≠ [] → last_tool_result_is_interrupted_verify (ms ++ (blocked_message <$> calls)) = false.
Proof.
  intros Hne. unfold last_tool_result_is_interrupted_verify. rewrite rev_app_distr.
  destruct (rev (blocked_message <$> calls)) as [|m rest] eqn:Hr.
  - apply (f_equal length) in Hr. rewrite length_rev, length_fmap in Hr. by destruct calls.
  - assert (m ∈ blocked_message <$> calls) as Hm.
    { apply list_elem_of_In, in_rev. rewrite Hr. by left. }
    apply list_elem_of_fmap in Hm as (tc & -> & _). done.
Qed.

Lemma verify_guard_eq batch calls t :
  guard = true → should_block_interrupted_batch (t_messages t) calls = true →
  verify_guard env batch calls t =
  match block_calls env batch calls t with
  | (t', inl e) => (t', inl e)
  | (t', inr _) => (t', inl Continue)
  end.
Proof.
  intros Hg Hb. unfold verify_guard, mbind, M_bind at 1, gets. fold guard. by rewrite Hg, Hb.
Qed.
Lemma bind_exit {A B} (m : M (V:=V) A) (f : A → M (V:=V) B) t t' e :
  m t = (t', inl e) → M_bind A B f m t = (t', inl e).
Proof. intros Hm. unfold M_bind. by rewrite Hm. Qed.
Lemma bind_value {A B} (m : M (V:=V) A) (f : A → M (V:=V) B) t t' a :
  m t = (t', inr a) → M_bind A B f m t = f a t'.
Proof. intros Hm. unfold M_bind. by rewrite Hm. Qed.

(** The interrupted-verify guard: when the last tool outcome is unknown
    and the batch has a non-idempotent tool, no tool of the batch runs, every
    call is answered by the block message, and the guard is cleared, so that
    it does not block again.  The step is however left open: no
    [StepFinish] is sent for it, as for every other step. *)
Theorem verify_guard_blocks i id r partial t :
  guard = true →
  should_block_interrupted_batch (t_messages t ++ [calling_message r partial]) (r_tool_calls r) = true →
  ∃ t', tool_step hash_call neutralize to_lowercase is_internal_endpoint uuid_str env i id r partial t =
          (t', inl Continue) ∧
    t_messages t' = t_messages t ++ calling_message r partial :: (blocked_message <$> r_tool_calls r) ∧
    last_tool_result_is_interrupted_verify (t_messages t') = false ∧
    ∃ l, t_trace t' = t_trace t ++ l ∧ Forall calm l.
Proof.
  intros Hg Hb. unfold tool_step.
  pose proof (open_tool_calls_ext i id r partial (t_layer t) (t_trace t) t eq_refl eq_refl) as He.
  pose proof (open_tool_calls_messages i id r partial (t_messages t) t eq_refl) as Hm.
  destruct (open_tool_calls env i id r partial t) as [t1 [e|batch]] eqn:Ho; [done|].
  pose proof (block_calls_ext (t_trace t) batch (r_tool_calls r) _ _ He t1 eq_refl eq_refl) as He1.
  pose proof (block_calls_messages batch (r_tool_calls r) (λ _ _, False) (t_messages t1) t1 eq_refl) as Hm1.
  rewrite <-Hm in Hb. pose proof (verify_guard_eq batch (r_tool_calls r) t1 Hg Hb) as Hv.
  destruct (block_calls env batch (r_tool_calls r) t1) as [t2 [e|u]]; [done|].
  rewrite Hm, <-app_assoc in Hm1. exists t2. split_and!; [|exact Hm1| |exact He1].
  - etrans; [apply (bind_value _ _ _ _ _ Ho)|]. by apply bind_exit.
  - rewrite Hm1, app_assoc. apply blocked_not_interrupted.
    intros Hn. revert Hb. unfold should_block_interrupted_batch. rewrite Hn. by rewrite andb_false_r.
Qed.

(** ** Failover *)

(** The promotions among the actions. *)
Definition promotions l : list nat := omap (λ a, match a with Promote k => Some k | _ => None end) l.

(** A failover adopts the next reserve that is not cooled, entry [S r] of
    the chain, but what it makes primary in the stored profile is entry [r],
    the one before it (the provider that failed or was skipped as cooled),
    and the first reserve is never promoted. *)
Theorem promotion_off_by_one i live class t policy chain entry r p :
  l_fallback (e_layers env) = Some policy → is_failover_worthy class = true →
  e_chain env = Some chain →
  (Cooldown.resolve_next_uncooled chain
     (Cooldown.record_failure (t_cooldowns t) live class (e_clock env (tick t) 0))
     (e_clock env (tick t)) (fallback_chain_idx (t_layer t))).1 = Some (entry, r) →
  e_build env entry = Some p →
  ∃ t' l, fail_over env i live class t = (t', inl Continue) ∧ t_trace t' = t_trace t ++ l ∧
    fallback_provider (t_layer t') = Some p ∧ chain !! S r = Some entry ∧
    promotions l = (if 0 <? r then [r] else []) ∧
    (0 < r → head (promote_provider_in_profile chain r) = chain !! r).
Proof.
  destruct t as [ms chars nudges layer last asst text det comp cool fresh tr].
  cbn [t_layer t_trace t_cooldowns]. intros Hpol Hw Hc Hr Hp. pose proof (Cooldown.resolve_next_uncooled_entry _ _ _ _ _ _ Hr) as [_ He].
  assert (r < length chain) as Hlt by (apply lookup_lt_Some in He; lia).
  assert (0 < r → head (promote_provider_in_profile chain r) = chain !! r) as Hhead.
  { intros Hr0. unfold promote_provider_in_profile.
    destruct (Nat.eqb_spec r 0); [lia|]. destruct (Nat.leb_spec (length chain) r); [lia|]. simpl.
    by destruct (chain !! r) eqn:Hl; [|apply lookup_ge_None in Hl; lia]. }
  unfold fail_over. rewrite Hpol, Hw. unfold create_fallback_provider. rewrite Hc.
  unfold promote_reserve. rewrite Hc.
  destruct (Cooldown.resolve_next_uncooled _ _ _ _) as [res m'] eqn:Hres. simpl in Hr. subst res.
  destruct (chain !! r) as [e0|] eqn:Her; [|apply lookup_ge_None in Her; lia].
  destruct layer as [cf uf fp ci dr ac er]. unfold tick in Hres. cbn [t_trace fallback_chain_idx] in Hres. cbn [mbind option_bind lookup].
  cbv [mbind M_bind set_layer gets modify set_cooldowns emit_ emit finish_step stop mret M_ret act tick when
       t_layer t_cooldowns t_trace orb set_failures fallback_chain_idx].
  rewrite Hres. cbn [fmap option_fmap option_map].
  rewrite Hp. cbn -[fmt user_message_lang step_id Nat.ltb].
  rewrite Her. destruct (0 <? r) eqn:Hr0.
  - do 2 eexists. split; [done|]. cbn [t_trace t_layer]. rewrite <-!app_assoc. split_and!; done.
  - do 2 eexists. split; [done|]. cbn [t_trace t_layer]. rewrite <-!app_assoc. split_and!; done.
Qed.

(** The provider that was called, recorded in the trace. *)
Definition called (p : str) : Assertion (V:=V) := λ _ l, ∃ ms, LlmCall p ms ∈ l.
Lemma called_snoc p s l a : called p s l → called p s (l ++ [a]).
Proof. intros [ms Hms]. exists ms. apply elem_of_app. by left. Qed.
Lemma called_here p ms s l : called p s (l ++ [LlmCall p ms]).
Proof. exists ms. apply elem_of_app. right. by left. Qed.
Ltac called_tac := first [ eassumption | apply called_here | apply called_snoc; called_tac ].

Definition unattributed (p : str) (e : Exit) : Assertion (V:=V) := λ s l,
  ∀ o, e = Return o → called p s l ∧ effective_provider_name o = None.

Lemma called_layer p s s' l : called p s l → called p s' l.
Proof. done. Qed.

Lemma forward_chunks_called p chunks partial err s l E :
  called p s l → lwp (forward_chunks env chunks partial err) (λ _, called p) E s l.
Proof.
  revert partial err l. induction chunks as [|c rest IH]; intros partial err l Hb; simpl; [by lwp_go|].
  lwp_prim. unfold emit_chunk. lwp_go; apply IH; called_tac.
Qed.

Lemma on_error_unattributed {A} p i e (Q : A → Assertion) s l :
  called p s l → lwp (on_error env i p e) Q (unattributed p) s l.
Proof.
  intros Hp. unfold on_error, recover_session, fail_over, fail_turn, unattributed.
  lwp_go; try (intros o Ho; simplify_eq; (split; [called_tac|done])).
  all: (eapply lwp_mono; [apply create_fallback_entry| |intros ??? HE; exact HE]);
    intros r s' l' (-> & -> & _); unfold promote_reserve; lwp_go;
    intros o Ho; simplify_eq; (split; [called_tac|done]).
Qed.

(** A turn that runs on a reserve and whose call fails or is cancelled
    leaves with no provider name, which the caller reads as the primary: the
    failure is not attributed to the provider that served the call. *)
Theorem served_provider_lost i t p :
  using_fallback (t_layer t) = true → fallback_provider (t_layer t) = Some p →
  match call_model env i t with
  | (t', inl (Return o)) => (∃ ms, LlmCall p ms ∈ t_trace t') ∧ effective_provider_name o = None
  | _ => True
  end.
Proof.
  intros Hu Hp.
  assert (lwp (call_model env i) (λ _ _ _, True) (unattributed p) (t_layer t) (t_trace t)) as Hw.
  { unfold call_model, live_provider. lwp_prim. lwp_prim. lwp_prim. cbv beta. rewrite Hu, Hp.
    lwp_go. eapply lwp_mono; [apply forward_chunks_called; called_tac| |intros ??? HE; exact HE].
    cbv beta. intros [partial err] s l Hl.
    lwp_go; unfold unattributed; try done; try (intros o Ho; simplify_eq; (split; [called_tac|done])).
    by apply on_error_unattributed. }
  specialize (Hw t eq_refl eq_refl). destruct (call_model env i t) as [t' [[]|]]; try done.
  by apply Hw.
Qed.
End protocol.

(** ** A toy turn *)

Definition toy_answer (text : string) (calls : list (ToolCall Jv.t)) : LlmResponse Jv.t :=
  mkResponse (bs text) calls None None None None None [] 0 [].
Definition toy_chain : list Cooldown.SlotEntry :=
  (λ n, Cooldown.mkSlot (bs n) None None) <$> ["main"; "spare"; "last"]%string.

(** The model calls a tool in the first step and answers in the second; the
    primary is down. *)
Definition toy_llm (tick : nat) (p : str) (ms : list (Message Jv.t)) : ModelRun Jv.t :=
  if bool_decide (p = bs "main") then mkRun [] (Some (Err (Other (bs "connection reset")))) ms
  else if last_tool_result_is_interrupted_verify ms || bool_decide (length ms = 1)
  then mkRun [bs "let me"; bs " see"] (Some (Ok (toy_answer "let me see" [toy_call "1" "git"]))) ms
  else mkRun [bs "done"] (Some (Ok (toy_answer "done" []))) ms.

Definition toy_turn_env (layers : BehaviourLayers) : TurnEnv Jv.t := {|
  e_layers := layers;
  e_loop := mkToolLoopConfig 4 true true 5 3 5 3 3 24 6;
  e_primary := bs "main"; e_chain := Some toy_chain;
  e_build entry := Some (Cooldown.provider entry);
  e_language := bs "en"; e_limit_tokens := 100; e_compaction := None;
  e_user_message_id := 99%Z; e_fresh n := Z.of_nat n;
  e_clock _ _ := 0%Z; e_cancelled _ := false; e_sink _ _ := None;
  e_llm := toy_llm; e_final_call _ _ := Err (Other (bs "down"));
  e_compact_ask _ := None; e_compress_chat _ _ := Err (Other []);
  e_parse_strings _ := None; e_content_hash s := Z.of_nat (length s);
  e_map_order m := map_to_list m; e_ui := false;
  e_executor := Some (λ _, toy_batch); e_batch_deadline _ := None |}.

#[local] Instance toy_regex : Regex := {| re_is_match _ _ := false; re_capture1 _ _ := None |}.

Definition toy_execute (env : TurnEnv Jv.t) (ms : list (Message Jv.t)) :=
  execute toy_jhash (λ _ _ s, s) (λ s, s) (λ _, false) decZ env
    (start env ms (ToolLoop.new default_config) (Compressor.new 100) (Cooldown.mkCooldowns ∅)).
Definition interactive : BehaviourLayers := for_interactive default_config (bs "hello").

(** The primary fails, the first reserve calls the tool and answers. *)
Example toy_turn_ex :
  let '(t, e) := toy_execute (toy_turn_env interactive) [text_message User (bs "hello")] in
  (role <$> t_messages t) = [User; Assistant; Tool] ∧
  run false (t_trace t) = Some (Ended 3) ∧
  e = Return (mkOutcome Done (bs "done") None 3 0%Z 2%Z None).
Proof. vm_compute. done. Qed.

Definition toy_start (env : TurnEnv Jv.t) (ms : list (Message Jv.t)) : Turn Jv.t :=
  start env ms (ToolLoop.new default_config) (Compressor.new 100) (Cooldown.mkCooldowns ∅).
Abbreviation toy_step env calls :=
  (tool_step toy_jhash (λ _ _ s, s) (λ s, s) (λ _, false) decZ env 0 7%Z (toy_answer "" calls) (bs "look")).

Lemma calls_are_answered_witness :
  let env := toy_turn_env interactive in
  let calls := [toy_call "1" "git"; toy_call "2" "memory"; toy_call "1" "git"] in
  match toy_step env calls (toy_start env []) with
  | (t', inr _) =>
      answered (toy_answer "" calls) (bs "look") [bs "1"; bs "2"] (t_messages (toy_start env [])) (t_messages t')
  | _ => False
  end.
Proof.
  intros env calls.
  pose proof (calls_are_answered toy_jhash (λ _ _ s, s) (λ s, s) (λ _, false) decZ env 0 7%Z
    (toy_answer "" calls) (bs "look") (toy_start env [])) as Ha.
  assert (match (toy_step env calls (toy_start env [])).2 with inr _ => true | _ => false end = true) as Hr
    by (vm_compute; reflexivity).
  assert (nub [] (tc_id <$> r_tool_calls (toy_answer "" calls)) = [bs "1"; bs "2"]) as Hn
    by (vm_compute; reflexivity).
  cbv zeta in Ha. rewrite Hn in Ha.
  destruct (toy_step env calls (toy_start env [])) as [t' [e|u]]; [discriminate Hr|exact Ha].
Defined.

Definition cron : BehaviourLayers := for_cron default_config None None.
Definition lost_result : Message Jv.t :=
  mkMessage Tool (INTERRUPTED_VERIFY_TAG ++ bs " unknown") None (Some (bs "0")) [] None.

Lemma verify_guard_witness :
  ∃ t', toy_step (toy_turn_env cron) [toy_call "1" "code_exec"]
          (toy_start (toy_turn_env cron) [lost_result]) = (t', inl Continue) ∧
    last_tool_result_is_interrupted_verify (t_messages t') = false.
Proof.
  assert (guard (toy_turn_env cron) = true) as Hg by reflexivity.
  assert (should_block_interrupted_batch
    ([lost_result] ++ [calling_message (toy_answer "" [toy_call "1" "code_exec"]) (bs "look")])
    [toy_call "1" "code_exec"] = true) as Hb by (vm_compute; reflexivity).
  destruct (verify_guard_blocks toy_jhash (λ _ _ s, s) (λ s, s) (λ _, false) decZ (toy_turn_env cron) 0 7%Z
    (toy_answer "" [toy_call "1" "code_exec"]) (bs "look")
    (toy_start (toy_turn_env cron) [lost_result]) Hg Hb) as (t' & Ht & _ & Hc & _).
  exists t'. split; [exact Ht|exact Hc].
Defined.

(** The primary fails with the first reserve still cooled: the turn goes on
    with [last], and [spare] is made primary. *)
Lemma promotion_off_by_one_witness :
  let env := toy_turn_env interactive in
  let t := mkTurn [] 0 0 initial_layer_state 0%Z 0%Z [] (ToolLoop.new default_config)
             (Compressor.new 100) (Cooldown.mkCooldowns {[bs "spare" := 5%Z]}) 0 [] in
  ∃ t' (l : list (Action Jv.t)), fail_over env 0 (bs "main") Unknown t = (t', inl Continue) ∧
    fallback_provider (t_layer t') = Some (bs "last") ∧ promotions l = [1] ∧
    (Cooldown.provider <$> head (promote_provider_in_profile toy_chain 1)) = Some (bs "spare").
Proof.
  intros env t.
  assert (l_fallback (e_layers env) = Some (mkFallback 3)) as H1 by reflexivity.
  assert (is_failover_worthy Unknown = true) as H2 by reflexivity.
  assert (e_chain env = Some toy_chain) as H3 by reflexivity.
  assert ((Cooldown.resolve_next_uncooled toy_chain
     (Cooldown.record_failure (t_cooldowns t) (bs "main") Unknown (e_clock env (tick t) 0))
     (e_clock env (tick t)) (fallback_chain_idx (t_layer t))).1 =
     Some (Cooldown.mkSlot (bs "last") None None, 1)) as H4 by (vm_compute; reflexivity).
  assert (e_build env (Cooldown.mkSlot (bs "last") None None) = Some (bs "last")) as H5 by reflexivity.
  destruct (promotion_off_by_one env 0 (bs "main") Unknown t (mkFallback 3) toy_chain _ 1 _ H1 H2 H3 H4 H5)
    as (t' & l & Ht & _ & Hf & _ & Hpr & _).
  exists t', l. split; [exact Ht|]. split; [exact Hf|]. split; [exact Hpr|]. reflexivity.
Defined.

(** A turn on [spare] whose call is cancelled. *)
Lemma served_provider_witness :
  let env := mkTurnEnv Jv.t (e_layers (toy_turn_env interactive)) (e_loop (toy_turn_env interactive))
    (bs "main") (Some toy_chain) (λ e, Some (Cooldown.provider e)) (bs "en") 100 None 99%Z Z.of_nat
    (λ _ _, 0%Z) (λ _, false) (λ _ _, None) (λ _ _ ms, mkRun [bs "par"] None ms)
    (λ _ _, Err (Other [])) (λ _, None) (λ _ _, Err (Other [])) (λ _, None)
    (λ _, 0%Z) (λ m, map_to_list m) false None (λ _, None) in
  let t := mkTurn [] 0 0 (adopt_fallback (bs "spare") initial_layer_state) 0%Z 0%Z []
             (ToolLoop.new default_config) (Compressor.new 100) (Cooldown.mkCooldowns ∅) 0 [] in
  match call_model env 0 t with
  | (t', inl (Return o)) => effective_provider_name o = None
  | _ => False
  end.
Proof.
  intros env t.
  assert (using_fallback (t_layer t) = true) as H1 by reflexivity.
  assert (fallback_provider (t_layer t) = Some (bs "spare")) as H2 by reflexivity.
  pose proof (served_provider_lost env 0 t (bs "spare") H1 H2) as Hs.
  assert (match (call_model env 0 t).2 with inl (Return _) => true | _ => false end = true) as He
    by (vm_compute; reflexivity).
  destruct (call_model env 0 t) as [t' [[]|]]; try discriminate He. exact (proj2 Hs).
Defined.
