(* ===== verification/YamlTools.v ===== *)
(** * YAML tools

    [tools/yaml_tools.rs]: tools that are HTTP calls described by a YAML
    file.  A call checks its parameters, builds one request, sends it with
    retries, page by page if it is paginated, and transforms the answer; the
    answers of a tool may be kept in a cache.

    The fields of a definition that are hash maps in the code are lists in
    the order the map is walked.  The network is the environment: [http] maps
    the requests of a call, numbered, to an error or to status and body; the
    body of a response is what [read_body_capped] makes of it.  Base64, the
    encoding of URLs and the JSON library are parameters. *)
From S2P Require Import Prelude Text Json Messages Redact Ssrf.

(* @src opex-core/src/tools/yaml_tools.rs 52-57 ToolStatus *)
Inductive ToolStatus := Verified | Draft | Disabled.
(* @src opex-core/src/tools/yaml_tools.rs 64-70 ParamLocation *)
Inductive ParamLocation := InPath | InQuery | InBody | InHeader.

(** ** The response cache *)

(* @src opex-core/src/tools/yaml_tools.rs 219-222 CachedResponse *)
Record CachedResponse := mkCached { c_body : str; expires_at : Z }.
(* @src opex-core/src/tools/yaml_tools.rs 227-230 ToolExecutionContext *)
Record ToolExecutionContext := mkCache { cache : gmap str CachedResponse; max_entries : nat }.
Definition set_cache c x := mkCache c (max_entries x).
(** An expired entry is dropped by the read that finds it. *)
(* @src opex-core/src/tools/yaml_tools.rs 246-261 ToolExecutionContext::get_cached *)
Definition get_cached (key : str) (now : Z) (x : ToolExecutionContext) : option str * ToolExecutionContext :=
  match cache x !! key with
  | None => (None, x)
  | Some e => if (expires_at e <=? now)%Z then (None, set_cache (delete key (cache x)) x) else (Some (c_body e), x)
  end.
(** The entries that expire first, a tenth of the capacity. *)
Definition victims (x : ToolExecutionContext) : list str :=
  take (Nat.max (max_entries x `div` 10) 1)
    (fst <$> sort_by (λ a b : str * CachedResponse, (expires_at a.2 <? expires_at b.2)%Z) (map_to_list (cache x))).
(* @src opex-core/src/tools/yaml_tools.rs 263-283 ToolExecutionContext::set_cached *)
Definition set_cached (key body : str) (ttl_secs now : Z) (x : ToolExecutionContext) : ToolExecutionContext :=
  let kept := if max_entries x <=? size (cache x) then foldr delete (cache x) (victims x) else cache x in
  set_cache (<[key := mkCached body (now + ttl_secs)]> kept) x.

(** ** JSON paths *)

(* @src opex-core/src/tools/yaml_tools.rs 1523-1528 PathToken *)
Inductive PathToken :=
| Key (k : str)
| Index (i : Z)
| Slice (start stop : option Z)
| Wildcard.

(** [str::parse] to [isize]; [parse_dec 64] is the one to [usize]. *)
Definition parse_isize (s : str) : option Z :=
  match strip_prefix (bs "-") s with
  | Some s' => if starts_with (bs "+") s' then None else
               n ← parse_dec 64 s'; if (n <=? 2 ^ 63)%Z then Some (- n)%Z else None
  | None => n ← parse_dec 64 s; if (n <? 2 ^ 63)%Z then Some n else None
  end.
Definition opt_usize (s : str) : option (option Z) :=
  if bool_decide (s = []) then Some None else Some <$> parse_dec 64 s.
(* @src opex-core/src/tools/yaml_tools.rs 1559-1569 parse_bracket_token *)
Definition parse_bracket_token (inner : str) : option PathToken :=
  if bool_decide (inner = bs "*") then Some Wildcard else
  match find_char ":"%char inner with
  | Some i => start ← opt_usize (take i inner); stop ← opt_usize (drop (S i) inner); Some (Slice start stop)
  | None => Index <$> parse_isize inner
  end.
Definition key_end (c : ascii) : bool := bool_decide (c = "."%char) || bool_decide (c = "["%char).
(** Every round takes at least one character, so the length is enough fuel. *)
(* @src opex-core/src/tools/yaml_tools.rs 1537-1557 tokenize_jsonpath *)
Fixpoint tokenize_loop (fuel : nat) (rest : str) : option (list PathToken) :=
  match fuel with
  | O => Some []
  | S fuel =>
      match skip_while (λ c, bool_decide (c = "."%char)) rest with
      | [] => Some []
      | c :: after =>
          if bool_decide (c = "["%char) then
            stop ← find_char "]"%char after;
            tok ← parse_bracket_token (take stop after);
            toks ← tokenize_loop fuel (drop (S stop) after);
            Some (tok :: toks)
          else
            toks ← tokenize_loop fuel (skip_while (λ c, negb (key_end c)) (c :: after));
            Some (Key (take_while (λ c, negb (key_end c)) (c :: after)) :: toks)
      end
  end.
Definition tokenize_jsonpath (path : str) : option (list PathToken) := tokenize_loop (length path) path.

(* @src opex-core/src/tools/yaml_tools.rs 381-388 ResponsePipelineStep *)
Inductive ResponsePipelineStep :=
| Jsonpath (path : str)
| PickFields (fields : list str)
| SortBy (field : str) (desc : bool)
| Limit (count : nat)
| Join (separator : str).

Section values.
Context {V : Type} `{Json V, JsonArrays V, JsonEntries V, JsonNumbers V}.

(* @src opex-core/src/tools/yaml_tools.rs 1574-1603 walk_jsonpath *)
Fixpoint walk_jsonpath (value : V) (toks : list PathToken) {struct toks} : option V :=
  match toks with
  | [] => Some value
  | Key k :: rest => v ← jget value k; walk_jsonpath v rest
  | Index i :: rest =>
      arr ← jas_array value;
      let idx := if (i <? 0)%Z then (Z.of_nat (length arr) + i)%Z else i in
      if (idx <? 0)%Z then None else
      v ← arr !! Z.to_nat idx; walk_jsonpath v rest
  | Slice start stop :: rest =>
      arr ← jas_array value;
      let n := Z.of_nat (length arr) in
      let s := Z.min (default 0%Z start) n in
      let e := Z.min (default n stop) n in
      walk_jsonpath (jarray (take (Z.to_nat (e - s)) (drop (Z.to_nat s) arr))) rest
  | Wildcard :: rest =>
      arr ← jas_array value; Some (jarray (omap (λ el, walk_jsonpath el rest) arr))
  end.

(** [trim_start_matches] *)
Fixpoint trim_matches (fuel : nat) (p s : str) : str :=
  match fuel with
  | O => s
  | S fuel => match strip_prefix p s with Some s' => trim_matches fuel p s' | None => s end
  end.
(* @src opex-core/src/tools/yaml_tools.rs 1605-1612 apply_jsonpath *)
Definition apply_jsonpath (value : V) (path : str) : option V :=
  let path := trim_matches (length path) (bs "$.") path in
  let path := trim_matches (length path) (bs "$") path in
  if bool_decide (path = []) then Some value else
  toks ← tokenize_jsonpath path; walk_jsonpath value toks.

(** ** The response pipeline *)

(** [Value::String] as it is, everything else printed. *)
Definition val_str (v : V) : str := match jas_str v with Some s => s | None => jprint v end.
Definition sort_key (field : str) (v : V) : f64 := default (f64_of_Z 0) (f ← jget v field; jas_f64 f).
Definition pick_fields (fields : list str) (item : V) : V :=
  if jis_object item
  then foldl (λ o kv, if bool_decide (kv.1 ∈ fields) then jinsert kv.1 kv.2 o else o) jempty (jentries item)
  else item.
Definition join_item (v : V) : str :=
  match jas_str v with Some s => s | None => if jis_null v then [] else jprint v end.
Definition pipeline_step (current : V) (step : ResponsePipelineStep) : V :=
  match step with
  | Jsonpath path => default current (apply_jsonpath current path)
  | PickFields fields =>
      match jas_array current with Some arr => jarray (pick_fields fields <$> arr) | None => current end
  | SortBy field desc =>
      match jas_array current with
      | Some arr =>
          jarray (sort_by (λ a b, if desc then f64_lt (sort_key field b) (sort_key field a)
                                  else f64_lt (sort_key field a) (sort_key field b)) arr)
      | None => current
      end
  | Limit count => match jas_array current with Some arr => jarray (take count arr) | None => current end
  | Join separator =>
      match jas_array current with Some arr => jstring (join separator (join_item <$> arr)) | None => current end
  end.
(* @src opex-core/src/tools/yaml_tools.rs 435-519 apply_pipeline *)
Definition apply_pipeline (value : V) (pipeline : list ResponsePipelineStep) : V := foldl pipeline_step value pipeline.

(** ** The cache key *)

Definition key_part (params : V) (k : str) : str :=
  match jget params k with Some v => k ++ bs "=" ++ jprint v ++ bs "&" | None => [] end.
(* @src opex-core/src/tools/yaml_tools.rs 324-366 build_cache_key *)
Definition build_cache_key (agent_name tool_name method endpoint : str) (params : V) (key_params : list str) : str :=
  agent_name ++ bs "|" ++ tool_name ++ bs "|" ++ method ++ bs "|" ++ endpoint ++ bs "|" ++
  if jis_object params then
    let keys := if bool_decide (key_params = []) then sort_by (λ a b, negb (str_leb b a)) (jentries params).*1
                else key_params in
    concat (key_part params <$> keys)
  else [].
End values.

(** ** Templates *)

Definition BS : ascii := "\"%char.
Definition CR : ascii := ascii_of_nat 13.
Definition TAB : ascii := ascii_of_nat 9.
(* @src opex-core/src/tools/yaml_tools.rs 1691-1697 json_escape *)
Definition json_escape (raw : str) : str :=
  let raw := replace_all [BS] [BS; BS] raw in
  let raw := replace_all [DQ] [BS; DQ] raw in
  let raw := replace_all [LF] [BS; "n"%char] raw in
  let raw := replace_all [CR] [BS; "r"%char] raw in
  replace_all [TAB] [BS; "t"%char] raw.

(** The text between the first [open] and the [close] after it: what comes
    before, the text, and what comes after. *)
Definition cut_between (open close s : str) : option (str * str * str) :=
  i ← find_sub open s;
  let after := drop (i + length open) s in
  j ← find_sub close after;
  Some (take i s, take j after, drop (j + length close) after).

(** One kind of block; [keep]: the block stays when the parameter [has] a
    value.  Every round removes the two tags. *)
Fixpoint conditionals (fuel : nat) (open close : str) (keep : bool) (has : str → bool) (s : str) : str :=
  match fuel with
  | O => s
  | S fuel =>
      match cut_between open (bs "}}") s with
      | None => s
      | Some (before, name, rest) =>
          match find_sub close rest with
          | None => s
          | Some e =>
              let block := if bool_decide (has name = keep) then take e rest else [] in
              conditionals fuel open close keep has (before ++ block ++ drop (e + length close) rest)
          end
      end
  end.
(** Every [${NAME}] of the template, from left to right; what is put in is
    not looked at again. *)
Fixpoint expand_env (fuel : nat) (value : str → str) (s : str) : str :=
  match fuel with
  | O => s
  | S fuel =>
      match find_sub (bs "${") s with
      | None => s
      | Some i =>
          match find_char "}"%char (drop i s) with
          | None => s
          | Some j => take i s ++ value (take (j - 2) (drop (i + 2) s)) ++ expand_env fuel value (drop (i + S j) s)
          end
      end
  end.

(** ** Credentials *)

(* @src opex-core/src/secrets.rs 43-45 is_reserved_secret_name *)
Definition is_reserved_secret_name (name : str) : bool :=
  bool_decide (name ∈ [bs "OPEX_MASTER_KEY"; bs "OPEX_AUTH_TOKEN"; bs "DATABASE_URL"]).

(** What the process answers: the resolver of the agent's secrets, if there
    is one, and the environment of the process. *)
Record Secrets := mkSecrets { resolver : option (str → option str); env_var : str → option str }.
(* @src opex-core/src/tools/yaml_tools.rs 21-31 resolve_env *)
Definition resolve_env (key : str) (w : Secrets) : result str str :=
  match (r ← resolver w; r key) with
  | Some v => Ok v
  | None =>
      if is_reserved_secret_name key
      then Err (bs "env var '" ++ key ++ bs "' is reserved and cannot be used as a tool credential")
      else ok_or (bs "env var '" ++ key ++ bs "' not set") (env_var w key)
  end.
Definition or_empty (r : result str str) : str := match r with Ok s => s | Err _ => [] end.
(* @src opex-core/src/tools/yaml_tools.rs 1740-1763 resolve_env_template *)
Definition resolve_env_template (template : str) (w : Secrets) : str :=
  expand_env (length template) (λ name, or_empty (resolve_env name w)) template.

Section render.
Context {V : Type} `{Json V, JsonEntries V}.
Definition has_value (params : V) (name : str) : bool :=
  match jget params name with Some v => negb (jis_null v) | None => false end.
(* @src opex-core/src/tools/yaml_tools.rs 1617-1672 process_conditionals *)
Definition process_conditionals (template : str) (params : V) : str :=
  let result := conditionals (length template) (bs "{{#if ") (bs "{{/if}}") true (has_value params) template in
  conditionals (length result) (bs "{{#unless ") (bs "{{/unless}}") false (has_value params) result.
Definition placeholder (name : str) : str := bs "{{" ++ name ++ bs "}}".
(* @src opex-core/src/tools/yaml_tools.rs 1685-1735 render_body_template *)
Definition render_body_template (template : str) (params : V) (w : Secrets) : str :=
  let after_env := expand_env (length template) (λ name, json_escape (or_empty (resolve_env name w))) template in
  foldl (λ body kv, replace_all (placeholder kv.1) (json_escape (val_str kv.2)) body)
    (process_conditionals after_env params) (jentries params).
End render.

(** ** Definitions and requests *)

Section tools.
Context {V : Type} `{Json V, JsonArrays V, JsonEntries V, JsonNumbers V}.

(* @src opex-core/src/tools/yaml_tools.rs 73-94 YamlParam *)
Record YamlParam := mkParam {
  param_type : str;
  required : bool;
  location : ParamLocation;
  p_default : option V;
  default_from_env : option str;
}.
(** The kinds of [auth_type] with the fields each uses. *)
(* @src opex-core/src/tools/yaml_tools.rs 104-137 YamlAuth *)
Record YamlAuth := mkAuth {
  auth_type : str;
  a_key : option str;
  username_key : option str;
  password_key : option str;
  header_name : option str;
  param_name : option str;
  a_headers : option (list (str * str));
  token_url : option str;
  token_body : option str;
  token_field : option str;
}.
(* @src opex-core/src/tools/yaml_tools.rs 142-149 YamlRetryConfig *)
Record YamlRetryConfig := mkRetry { max_attempts_ : nat; backoff_base_ms_ : Z; retry_on : list Z }.
(* @src opex-core/src/tools/yaml_tools.rs 171-177 YamlCacheConfig *)
Record YamlCacheConfig := mkCacheConfig { ttl : Z; key_params : list str }.
(* @src opex-core/src/tools/yaml_tools.rs 199-215 YamlPaginationConfig *)
Record YamlPaginationConfig := mkPagination {
  pagination_type : str;
  pg_param : str;
  limit_param : option str;
  pg_limit : option Z;
  max_pages : option Z;
  results_path : option str;
  next_path : option str;
}.
(* @src opex-core/src/tools/yaml_tools.rs 371-376 YamlGraphqlConfig *)
Record YamlGraphqlConfig := mkGraphql { gql_query : str; gql_variables : option (list (str * str)) }.
(* @src opex-core/src/tools/yaml_tools.rs 542-603 YamlToolDef *)
Record YamlToolDef := mkTool {
  y_name : str;
  endpoint : str;
  y_method : str;
  y_headers : list (str * str);
  parameters : list (str * YamlParam);
  auth : option YamlAuth;
  body_template : option str;
  response_transform : option str;
  y_status : ToolStatus;
  timeout : Z;
  retry : option YamlRetryConfig;
  content_type : str;
  y_cache : option YamlCacheConfig;
  pagination : option YamlPaginationConfig;
  graphql : option YamlGraphqlConfig;
  response_pipeline : list ResponsePipelineStep;
}.

Inductive Part := TextPart (s : str) | FilePart (bytes filename : str).
Inductive Body :=
| NoBody
| RawBody (content_type text : str)
| Multipart (parts : list (str * Part))
| Form (fields : list (str * str))
| JsonBody (v : V).
Record Request := mkRequest {
  rq_method : str;
  rq_url : str;
  rq_headers : list (str * str);
  rq_query : list (str * str);
  rq_body : Body;
}.
(** What building a request asks of the world: secrets, the token of the
    server itself, OAuth tokens by provider, a token endpoint (URL and body to
    status and body), and the download of a file (its announced length and
    its bytes). *)
Record World := mkWorld {
  secrets : Secrets;
  shared_token : option str;
  oauth_token : option (str → result str str);
  token_endpoint : str → str → result str (Z * str);
  download : str → result str (option Z * str);
}.
Context (urlencode b64 : str → str) (parse_url : str → option Url).

Definition is_success (status : Z) : bool := (200 <=? status)%Z && (status <? 300)%Z.

(* @src opex-core/src/tools/yaml_tools.rs 711-738 send_request (validation) *)
Definition check_param (w : Secrets) (params : V) (np : str * YamlParam) : result str () :=
  let '(name, p) := np in
  let val := jget params name in
  let missing := match val with Some v => jis_null v | None => true end in
  let env_default := match default_from_env p with
                     | Some k => bool_decide (is_Some (r ← resolver w; r k)) || bool_decide (is_Some (env_var w k))
                     | None => false
                     end in
  if required p && missing && negb env_default && negb (bool_decide (is_Some (p_default p)))
  then Err (bs "required parameter '" ++ name ++ bs "' is missing")
  else match val with
  | Some v => if bool_decide (param_type p = bs "integer") && negb (jis_number v) && negb (jis_null v)
              then Err (bs "parameter '" ++ name ++ bs "' must be integer, got " ++ jprint v) else Ok ()
  | None => Ok ()
  end.
(* @src opex-core/src/tools/yaml_tools.rs 746-769 send_request (value) *)
Definition param_value (w : Secrets) (params : V) (name : str) (p : YamlParam) : V :=
  match jget params name with
  | Some v => v
  | None =>
      match (k ← default_from_env p; r ← resolver w; r k) with
      | Some s => jstring s
      | None => default jnull (p_default p)
      end
  end.
(** The request under construction. *)
Record Placed := mkPlaced { pl_url : str; pl_query : list (str * str); pl_headers : list (str * str); pl_body : V }.
Definition brace (name : str) : str := bs "{" ++ name ++ bs "}".
(* @src opex-core/src/tools/yaml_tools.rs 771-786 send_request (placement) *)
Definition place_param (w : Secrets) (params : V) (r : Placed) (np : str * YamlParam) : Placed :=
  let '(name, p) := np in
  let value := param_value w params name p in
  if jis_null value then r else
  match location p with
  | InPath => mkPlaced (replace_all (brace name) (urlencode (val_str value)) (pl_url r)) (pl_query r) (pl_headers r) (pl_body r)
  | InQuery => mkPlaced (pl_url r) (pl_query r ++ [(name, val_str value)]) (pl_headers r) (pl_body r)
  | InHeader => mkPlaced (pl_url r) (pl_query r) (pl_headers r ++ [(name, val_str value)]) (pl_body r)
  | InBody => mkPlaced (pl_url r) (pl_query r) (pl_headers r) (jinsert name value (pl_body r))
  end.
Definition place_params (w : Secrets) (d : YamlToolDef) (params : V) : Placed :=
  foldl (place_param w params) (mkPlaced (endpoint d) [] [] jempty) (parameters d).

(** The message of the URL parser is left out. *)
(* @src opex-core/src/net/ssrf.rs 41-53 SsrfError (display) *)
Definition ssrf_text (e : SsrfError) : str :=
  match e with
  | InvalidUrl => bs "invalid URL"
  | BlockedScheme s => bs "blocked scheme: " ++ s
  | InternalBlocked s => bs "blocked: URL targets internal service (" ++ s ++ bs ")"
  | PrivateIpResolved => bs "target resolves to private IP"
  end.
Definition bearer (token : str) : list (str * str) := [(bs "Authorization", bs "Bearer " ++ token)].
(** Headers and query parameters of the credentials. *)
(* @src opex-core/src/tools/yaml_tools.rs 789-917 send_request (auth) *)
Definition apply_auth (w : World) (url : str) (a : YamlAuth) : result str (list (str * str) * list (str * str)) :=
  if bool_decide (auth_type a = bs "bearer_env") then
    match a_key a with
    | Some key => token ← resolve_env key (secrets w); Ok (bearer token, [])
    | None => Ok ([], [])
    end
  else if bool_decide (auth_type a = bs "bearer_internal") then
    if negb (is_internal_endpoint parse_url url)
    then Err (bs "auth type 'bearer_internal' is only permitted for loopback/internal endpoints; endpoint '"
              ++ url ++ bs "' is not internal")
    else token ← ok_or (bs "core shared token not available") (shared_token w); Ok (bearer token, [])
  else if bool_decide (auth_type a = bs "basic_env") then
    let user := or_empty (resolve_env (default [] (username_key a)) (secrets w)) in
    let pass := or_empty (resolve_env (default [] (password_key a)) (secrets w)) in
    Ok ([(bs "Authorization", bs "Basic " ++ b64 (user ++ bs ":" ++ pass))], [])
  else if bool_decide (auth_type a = bs "api_key_header") then
    match header_name a, a_key a with
    | Some hdr, Some key => val ← resolve_env key (secrets w); Ok ([(hdr, val)], [])
    | _, _ => Ok ([], [])
    end
  else if bool_decide (auth_type a = bs "api_key_query") then
    match param_name a, a_key a with
    | Some param, Some key => val ← resolve_env key (secrets w); Ok ([], [(param, val)])
    | _, _ => Ok ([], [])
    end
  else if bool_decide (auth_type a = bs "custom") then
    Ok ((λ ht, (ht.1, resolve_env_template ht.2 (secrets w))) <$> default [] (a_headers a), [])
  else if bool_decide (auth_type a = bs "oauth_refresh") then
    match a_key a, token_url a with
    | Some key, Some turl =>
        refresh ← resolve_env key (secrets w);
        let body := replace_all (bs "{{bearer}}") refresh
                      (default (bs "grant_type=refresh_token&refresh_token={{bearer}}") (token_body a)) in
        match validate_url_scheme parse_url turl with
        | Err e => Err (ssrf_text e)
        | Ok _ =>
            match token_endpoint w turl body with
            | Err e => Err (bs "oauth token request failed: " ++ e)
            | Ok (status, answer) =>
                if negb (is_success status)
                then Err (bs "oauth token endpoint returned " ++ decZ status ++ bs ": " ++ redact_secrets answer)
                else match jparse answer with
                | None => Err (bs "oauth token response not JSON")
                | Some json =>
                    let field := default (bs "access_token") (token_field a) in
                    token ← ok_or (bs "oauth response missing '" ++ field ++ bs "' field") (v ← jget json field; jas_str v);
                    Ok (bearer token, [])
                end
            end
        end
    | _, _ => Ok ([], [])
    end
  else if bool_decide (auth_type a = bs "oauth_provider") then
    provider ← ok_or (bs "oauth_provider auth requires 'key' field (provider name)") (a_key a);
    get ← ok_or (bs "oauth_provider auth for '" ++ provider ++ bs "' requires OAuth connection") (oauth_token w);
    match get provider with
    | Ok token => Ok (bearer token, [])
    | Err e => Err (bs "OAuth token for " ++ provider ++ bs ": " ++ e)
    end
  else Ok ([], []).

Definition MAX_TEXT_RESPONSE_BYTES : Z := (50 * 1024 * 1024)%Z.
(** [to_uppercase] and [to_ascii_lowercase] of an ASCII method and media type. *)
Definition upper (c : ascii) : ascii :=
  let n := nat_of_ascii c in if (97 <=? n) && (n <=? 122) then ascii_of_nat (n - 32) else c.
Definition known_method (m : str) : bool :=
  bool_decide (m ∈ [bs "GET"; bs "POST"; bs "PUT"; bs "PATCH"; bs "DELETE"]).
Definition json_media (content_type : str) : bool :=
  let ct := to_ascii_lowercase content_type in
  existsb (λ p, starts_with p ct) [bs "application/json"; bs "application/vnd.api+json"; bs "application/ld+json"].
(* @src opex-core/src/tools/yaml_tools.rs 954-975 send_request (graphql) *)
Definition gql_vars (g : YamlGraphqlConfig) (params : V) : V :=
  foldl (λ vars kt,
    jinsert kt.1 (jstring (foldl (λ val kv, replace_all (placeholder kv.1) (val_str kv.2) val) kt.2 (jentries params))) vars)
    jempty (default [] (gql_variables g)).
(** A part of a form: a field whose name says it is a file is downloaded. *)
(* @src opex-core/src/tools/yaml_tools.rs 1004-1056 send_request (multipart) *)
Definition form_part (w : World) (fields : V) (kv : str * V) : result str (str * Part) :=
  let '(name, val) := kv in
  let text := val_str val in
  if bool_decide (name = bs "file") || ends_with (bs "_url") name then
    match validate_url_scheme parse_url text with
    | Err e => Err (bs "rejected file URL '" ++ text ++ bs "' for multipart upload: " ++ ssrf_text e)
    | Ok _ =>
        match download w text with
        | Err e => Err e
        | Ok (announced, bytes) =>
            match announced with
            | Some len => if (MAX_TEXT_RESPONSE_BYTES <? len)%Z
                          then Err (bs "multipart file too large: " ++ decZ len ++ bs " bytes (cap " ++ decZ MAX_TEXT_RESPONSE_BYTES ++ bs ")")
                          else Ok ()
            | None => Ok ()
            end;;
            if (MAX_TEXT_RESPONSE_BYTES <? Z.of_nat (length bytes))%Z
            then Err (bs "multipart file exceeded " ++ decZ MAX_TEXT_RESPONSE_BYTES ++ bs " byte cap")
            else Ok (name, FilePart bytes (default (bs "file") (v ← jget fields (bs "file_name"); jas_str v)))
        end
    end
  else Ok (name, TextPart text).
(** The body and the header that announces it. *)
(* @src opex-core/src/tools/yaml_tools.rs 951-1075 send_request (body) *)
Definition build_body (w : World) (d : YamlToolDef) (params fields : V) : result str (list (str * str) * Body) :=
  let content_header ct := [(bs "Content-Type", ct)] in
  match graphql d, body_template d with
  | Some g, _ =>
      Ok (content_header (bs "application/json"),
          RawBody (bs "application/json")
            (jprint (jinsert (bs "variables") (gql_vars g params) (jinsert (bs "query") (jstring (gql_query g)) jempty))))
  | None, Some template =>
      if negb (json_media (content_type d))
      then Err (bs "tool '" ++ y_name d ++ bs "': body_template requires a JSON content_type (got '" ++ content_type d
                ++ bs "'); use body params or a JSON content_type to avoid template-injection across delimiter characters")
      else Ok (content_header (content_type d),
               RawBody (content_type d) (render_body_template template params (secrets w)))
  | None, None =>
      if bool_decide (jentries fields = []) then Ok ([], NoBody)
      else if bool_decide (content_type d = bs "multipart/form-data")
      then parts ← mapM (form_part w fields) (jentries fields); Ok ([], Multipart parts)
      else if bool_decide (content_type d = bs "application/x-www-form-urlencoded")
      then Ok ([], Form ((λ kv, (kv.1, val_str kv.2)) <$> jentries fields))
      else Ok ([], JsonBody fields)
  end.

Fixpoint check_all (w : Secrets) (params : V) (l : list (str * YamlParam)) : result str () :=
  match l with
  | [] => Ok ()
  | np :: l => _ ← check_param w params np; check_all w params l
  end.
(** The request of a call. *)
(* @src opex-core/src/tools/yaml_tools.rs 701-1082 send_request *)
Definition build_request (w : World) (d : YamlToolDef) (injected : list (str * str)) (params : V) : result str Request :=
  _ ← check_all (secrets w) params (parameters d);
  let r := place_params (secrets w) d params in
  '(auth_headers, auth_query) ← match auth d with Some a => apply_auth w (pl_url r) a | None => Ok ([], []) end;
  let m := upper <$> y_method d in
  if negb (known_method m) then Err (bs "unsupported HTTP method: " ++ m) else
  '(body_headers, body) ←
    (if bool_decide (m = bs "GET") || bool_decide (m = bs "DELETE") then Ok ([], NoBody)
     else build_body w d params (pl_body r));
  Ok (mkRequest m (pl_url r) (y_headers d ++ auth_headers ++ injected ++ pl_headers r ++ body_headers)
        (pl_query r ++ auth_query) body).

(** ** Execution *)

(* @src opex-core/src/tools/yaml_tools.rs 1085-1087 max_attempts *)
Definition max_attempts (d : YamlToolDef) : nat := from_option max_attempts_ 1 (retry d).
(* @src opex-core/src/tools/yaml_tools.rs 1090-1094 is_retryable *)
Definition is_retryable (d : YamlToolDef) (status : Z) : bool :=
  from_option (λ r, bool_decide (status ∈ retry_on r)) false (retry d).
(* @src opex-core/src/tools/yaml_tools.rs 1097-1099 backoff_base_ms *)
Definition backoff_base_ms (d : YamlToolDef) : Z := from_option backoff_base_ms_ 1000%Z (retry d).
(** The pause before attempt [attempt], from the second one on. *)
Definition delay_ms (d : YamlToolDef) (attempt : nat) : Z :=
  sat_mul 64 (backoff_base_ms d) (Z.min (umax 64) (2 ^ (Z.of_nat (Nat.min attempt 63) - 1))).

(** What a call does to the outside: it waits and it sends. *)
Inductive Event := Sleep (ms : Z) | Send (rq : Request).
Variable http : nat → Request → result str (Z * str).

(** A status without its reason phrase. *)
Definition http_error (d : YamlToolDef) (status : Z) (body : str) : str :=
  bs "tool '" ++ y_name d ++ bs "' returned HTTP " ++ decZ status ++ bs ": " ++ redact_secrets body.
(** One round of attempts on the same request: [attempt] is the number of the
    next one, [remaining] how many are left, [last] the error of the one before,
    [sent] how many requests went out already. *)
(* @src opex-core/src/tools/yaml_tools.rs 1142-1230 execute_with_ctx (attempts) *)
Fixpoint attempts (d : YamlToolDef) (retry_error : Z → str → str) (built : result str Request)
    (sent attempt remaining : nat) (last : option str) : list Event * result str str :=
  match remaining with
  | O => ([], Err (default (bs "tool '" ++ y_name d ++ bs "' failed after " ++ dec (max_attempts d) ++ bs " attempts") last))
  | S remaining =>
      let pause := if decide (attempt = 0) then [] else [Sleep (delay_ms d attempt)] in
      match built with
      | Err e => let '(ev, r) := attempts d retry_error built sent (S attempt) remaining (Some e) in (pause ++ ev, r)
      | Ok rq =>
          match http sent rq with
          | Err e => let '(ev, r) := attempts d retry_error built (S sent) (S attempt) remaining (Some e) in
                     (pause ++ Send rq :: ev, r)
          | Ok (status, body) =>
              if is_success status then (pause ++ [Send rq], Ok body)
              else if bool_decide (remaining ≠ 0) && is_retryable d status then
                let '(ev, r) := attempts d retry_error built (S sent) (S attempt) remaining (Some (retry_error status body)) in
                (pause ++ Send rq :: ev, r)
              else (pause ++ [Send rq], Err (http_error d status body))
          end
      end
  end.

(* @src opex-core/src/tools/yaml_tools.rs 1181-1206 execute_with_ctx (transform) *)
Definition transform (d : YamlToolDef) (body : str) : str :=
  let result :=
    match response_transform d with
    | Some path => default body (json ← jparse body; val_str <$> apply_jsonpath json path)
    | None => body
    end in
  if bool_decide (response_pipeline d = []) then result
  else match jparse result with
       | Some json => val_str (apply_pipeline json (response_pipeline d))
       | None => result
       end.

(** ** Pages *)

Definition PAGINATION_MAX_PAGES_HARD_CAP : Z := 1000.
Definition PAGINATION_MAX_TOTAL_BYTES : Z := (50 * 1024 * 1024)%Z.
(** The parameters of a page; [None]: there is no next page. *)
(* @src opex-core/src/tools/yaml_tools.rs 1263-1294 execute_paginated (parameters) *)
Definition page_params (pg : YamlPaginationConfig) (params : V) (page : nat) (cursor : option str) : option V :=
  if negb (jis_object params) then Some params else
  let with_limit o := match limit_param pg with Some lp => jinsert lp (jnumber (default 50%Z (pg_limit pg))) o | None => o end in
  if bool_decide (pagination_type pg = bs "offset") then
    Some (with_limit (jinsert (pg_param pg) (jnumber (sat_mul 64 (Z.of_nat page) (default 50%Z (pg_limit pg)))) params))
  else if bool_decide (pagination_type pg = bs "page") then
    Some (with_limit (jinsert (pg_param pg) (jnumber (Z.of_nat page + 1)) params))
  else if bool_decide (pagination_type pg = bs "cursor") then
    match cursor with
    | Some c => Some (with_limit (jinsert (pg_param pg) (jstring c) params))
    | None => if bool_decide (page = 0) then Some (with_limit params) else None
    end
  else Some (with_limit params).
Definition page_json (body : str) : V := default (jstring body) (jparse body).
Definition page_items (pg : YamlPaginationConfig) (json : V) : list V :=
  let items := match results_path pg with Some rp => default json (apply_jsonpath json rp) | None => json end in
  default [items] (jas_array items).
Definition next_cursor (pg : YamlPaginationConfig) (json : V) : option str :=
  np ← next_path pg; v ← apply_jsonpath json np; jas_str v.
Definition plain_error (status : Z) (body : str) : str := bs "HTTP " ++ decZ status ++ bs ": " ++ redact_secrets body.
Definition is_send (e : Event) : bool := match e with Send _ => true | Sleep _ => false end.
Definition sends (ev : list Event) : nat := length (filter (λ e, is_send e = true) ev).

(** The pages from number [page] on, [remaining] at most; [total] bytes and
    [results] so far, [sent] requests. *)
(* @src opex-core/src/tools/yaml_tools.rs 1234-1360 execute_paginated *)
Fixpoint pages (w : World) (d : YamlToolDef) (injected : list (str * str)) (pg : YamlPaginationConfig) (params : V)
    (remaining page sent : nat) (cursor : option str) (total : Z) (results : list V) : list Event * result str (list V) :=
  match remaining with
  | O => ([], Ok results)
  | S remaining =>
      match page_params pg params page cursor with
      | None => ([], Ok results)
      | Some p =>
          let '(ev, r) := attempts d plain_error (build_request w d injected p) sent 0 (max_attempts d) None in
          match r with
          | Err e => (ev, Err e)
          | Ok body =>
              let total := (total + Z.of_nat (length body))%Z in
              let json := page_json body in
              let items := page_items pg json in
              if (PAGINATION_MAX_TOTAL_BYTES <? total)%Z then (ev, Ok (results ++ items))
              else if bool_decide (items = []) then (ev, Ok results)
              else
                let cursor' := if bool_decide (pagination_type pg = bs "cursor") then next_cursor pg json else cursor in
                if bool_decide (pagination_type pg = bs "cursor") && negb (bool_decide (is_Some cursor'))
                then (ev, Ok (results ++ items))
                else let '(ev', r') := pages w d injected pg params remaining (S page) (sent + sends ev) cursor' total (results ++ items) in
                     (ev ++ ev', r')
          end
      end
  end.
Definition page_count (pg : YamlPaginationConfig) : nat :=
  Z.to_nat (Z.min (default 5%Z (max_pages pg)) PAGINATION_MAX_PAGES_HARD_CAP).
(* @src opex-core/src/tools/yaml_tools.rs 1116-1231 execute_with_ctx *)
Definition execute (w : World) (d : YamlToolDef) (injected : list (str * str)) (params : V) : list Event * result str str :=
  match pagination d with
  | Some pg =>
      let '(ev, r) := pages w d injected pg params (page_count pg) 0 0 None 0 [] in
      (ev, match r with Ok results => Ok (jprint (jarray results)) | Err e => Err e end)
  | None =>
      let '(ev, r) := attempts d (http_error d) (build_request w d injected params) 0 0 (max_attempts d) None in
      (ev, match r with Ok body => Ok (transform d body) | Err e => Err e end)
  end.

(** The tools an agent is offered. *)
(* @src opex-core/src/tools/yaml_tools.rs 1772-1783 load_yaml_tools *)
Definition offered (include_draft : bool) (d : YamlToolDef) : bool :=
  match y_status d with Verified => true | Draft => include_draft | Disabled => false end.

(** ** Bounds on what a call does *)

Lemma sends_app a b : sends (a ++ b) = sends a + sends b.
Proof. unfold sends. by rewrite filter_app, length_app. Qed.
(** What one round of at most [n] attempts does, the first being request
    number [sent]. *)
Definition round_ok (built : result str Request) (sent n : nat) (out : list Event * result str str) : Prop :=
  sends out.1 ≤ n ∧
  (∀ rq, Send rq ∈ out.1 → built = Ok rq) ∧
  (∀ body, out.2 = Ok body → ∃ rq status before, built = Ok rq ∧ out.1 = before ++ [Send rq] ∧
     is_success status = true ∧ http (sent + sends before) rq = Ok (status, body)).
Definition quiet (ev : list Event) : Prop := ∀ rq, Send rq ∉ ev.
Lemma quiet_sends ev : quiet ev → sends ev = 0.
Proof.
  induction ev as [|e ev IH]; [done|]. intros Hq. destruct e as [ms|rq]; [|by destruct (Hq rq); left].
  unfold sends. cbn. apply IH. intros rq Hin. apply (Hq rq). by right.
Qed.
Lemma sends_last pause rq ev : quiet pause → sends (pause ++ Send rq :: ev) = S (sends ev).
Proof. intros Hq. by rewrite sends_app, (quiet_sends _ Hq). Qed.

Lemma round_quiet built sent n pause ev r : quiet pause → round_ok built sent n (ev, r) → round_ok built sent n (pause ++ ev, r).
Proof.
  intros Hq (Q1 & Q2 & Q3). unfold round_ok in *. cbn [fst snd] in *. rewrite sends_app, (quiet_sends _ Hq). split_and!; [done| |].
  - intros rq [Hin|Hin]%elem_of_app; [by apply Hq in Hin|by apply Q2].
  - intros body Hr. destruct (Q3 body Hr) as (rq & st & before & Hb & -> & Hst & Hh).
    exists rq, st, (pause ++ before). rewrite app_assoc, sends_app, (quiet_sends _ Hq). auto.
Qed.
Lemma round_more rq sent n ev r :
  round_ok (Ok rq) (S sent) n (ev, r) → round_ok (Ok rq) sent (S n) (Send rq :: ev, r).
Proof.
  intros (Q1 & Q2 & Q3). unfold round_ok in *. cbn [fst snd] in *.
  pose proof (sends_last [] rq) as Hs. cbn [app] in Hs. rewrite Hs by (intros ? ?%elem_of_nil; done). split_and!; [lia| |].
  - intros rq0 [[= ->]|Hin]%elem_of_cons; [done|by apply Q2].
  - intros body Hr. destruct (Q3 body Hr) as (rq0 & st & before & [= <-] & -> & Hst & Hh).
    exists rq, st, (Send rq :: before). rewrite Hs by (intros ? ?%elem_of_nil; done).
    replace (sent + S (sends before)) with (S sent + sends before) by lia. auto.
Qed.
Lemma round_last rq sent n r :
  (∀ body, r = Ok body → ∃ status, is_success status = true ∧ http sent rq = Ok (status, body)) →
  round_ok (Ok rq) sent (S n) ([Send rq], r).
Proof.
  intros Hr. unfold round_ok. cbn [fst snd]. split_and!; [change (sends [Send rq]) with 1; lia|by intros rq0 [= ->]%list_elem_of_singleton|].
  intros body Hb. destruct (Hr body Hb) as (st & Hst & Hh). exists rq, st, []. cbn. rewrite Nat.add_0_r. auto.
Qed.

Lemma attempts_spec d re built sent attempt remaining last :
  round_ok built sent remaining (attempts d re built sent attempt remaining last).
Proof.
  revert sent attempt last. induction remaining as [|remaining IH]; intros sent attempt last; cbn [attempts].
  { unfold round_ok. cbn. split_and!; [done|by intros ? ?%elem_of_nil|done]. }
  assert (quiet (if decide (attempt = 0) then [] else [Sleep (delay_ms d attempt)])) as Hq
    by (intros rq; destruct (decide _); set_solver).
  destruct built as [rq|e].
  - destruct (http sent rq) as [[status body]|e] eqn:Hh.
    + destruct (is_success status) eqn:Hst.
      { apply round_quiet; [done|]. apply round_last. intros ? [= <-]. eauto. }
      destruct (bool_decide (remaining ≠ 0) && is_retryable d status).
      * specialize (IH (S sent) (S attempt) (Some (re status body))).
        destruct (attempts d re (Ok rq) (S sent) (S attempt) remaining _) as [ev r].
        apply round_quiet; [done|]. by apply round_more.
      * apply round_quiet; [done|]. by apply round_last.
    + specialize (IH (S sent) (S attempt) (Some e)).
      destruct (attempts d re (Ok rq) (S sent) (S attempt) remaining _) as [ev r].
      apply round_quiet; [done|]. by apply round_more.
  - specialize (IH sent (S attempt) (Some e)). destruct (attempts d re (Err e) sent (S attempt) remaining _) as [ev r].
    apply round_quiet; [done|]. destruct IH as (Q1 & Q2 & Q3). unfold round_ok. cbn [fst snd] in *. split_and!; [lia|done|done].
Qed.

Lemma pages_bound w d injected pg params remaining page sent cursor total results :
  sends (pages w d injected pg params remaining page sent cursor total results).1 ≤ remaining * max_attempts d.
Proof.
  revert page sent cursor total results. induction remaining as [|remaining IH]; intros page sent cursor total results; cbn [pages]; [done|].
  destruct (page_params pg params page cursor) as [p|]; [|apply Nat.le_0_l].
  pose proof (attempts_spec d plain_error (build_request w d injected p) sent 0 (max_attempts d) None) as Ha.
  destruct (attempts d plain_error (build_request w d injected p) sent 0 (max_attempts d) None) as [ev [body|e]];
    destruct Ha as (Ha & _); cbn [fst] in Ha; [|cbn [fst]; nia].
  destruct (_ <? _)%Z; [cbn [fst]; nia|]. case_bool_decide; [cbn [fst]; nia|].
  destruct (bool_decide _ && _); [cbn [fst]; nia|].
  match goal with |- context [pages ?a ?b ?c ?d ?e ?f ?g ?h ?i ?j ?k] =>
    specialize (IH g h i j k); destruct (pages a b c d e f g h i j k) as [ev' r'] end.
  cbn [fst] in *. rewrite sends_app. nia.
Qed.

(** What a call sends is bounded: a plain call sends its one request at most
    [max_attempts] times and returns the answer of the last, which was a
    success; a paginated call sends at most [max_attempts] requests for each
    of its pages, of which there are never more than a thousand, whatever
    [max_pages] says and the service answers. *)
Theorem calls_bounded w d injected params :
  let '(ev, r) := execute w d injected params in
  match pagination d with
  | None =>
      sends ev ≤ max_attempts d ∧
      (∀ rq, Send rq ∈ ev → build_request w d injected params = Ok rq) ∧
      (∀ text, r = Ok text → ∃ rq status body before,
         ev = before ++ [Send rq] ∧ http (sends before) rq = Ok (status, body) ∧ is_success status = true ∧
         text = transform d body)
  | Some pg => sends ev ≤ 1000 * max_attempts d
  end.
Proof.
  unfold execute. destruct (pagination d) as [pg|].
  - pose proof (pages_bound w d injected pg params (page_count pg) 0 0 None 0 []) as Hp.
    destruct (pages w d injected pg params (page_count pg) 0 0 None 0 []) as [ev r]. cbn in Hp.
    assert (page_count pg ≤ 1000) as Hpc by (unfold page_count, PAGINATION_MAX_PAGES_HARD_CAP; lia).
    etransitivity; [exact Hp|]. by apply Nat.mul_le_mono_r.
  - pose proof (attempts_spec d (http_error d) (build_request w d injected params) 0 0 (max_attempts d) None) as Ha.
    destruct (attempts d (http_error d) (build_request w d injected params) 0 0 (max_attempts d) None) as [ev r].
    destruct Ha as (Q1 & Q2 & Q3). cbn [fst snd] in *. split_and!; [done| |].
    + intros rq Hin. by apply Q2.
    + intros text Ht. destruct r as [body|]; [|done]. injection Ht as <-.
      destruct (Q3 body eq_refl) as (rq & st & before & _ & -> & Hst & Hh). exists rq, st, body, before. auto.
Qed.

(** ** What reaches the request *)

(** Two calls that give the declared parameters the same values. *)
Definition agree (l : list (str * YamlParam)) (params params' : V) : Prop :=
  Forall (λ np, jget params np.1 = jget params' np.1) l.

Lemma check_all_agree w params params' l : agree l params params' → check_all w params l = check_all w params' l.
Proof.
  induction 1 as [|[name p] l Hnp _ IH]; [done|]. cbn [check_all]. rewrite IH. cbn in Hnp.
  unfold check_param. by rewrite Hnp.
Qed.
Lemma place_agree w params params' l r :
  agree l params params' → foldl (place_param w params) r l = foldl (place_param w params') r l.
Proof.
  intros Hl. revert r. induction Hl as [|[name p] l Hnp _ IH]; intros r; [done|]. cbn [foldl]. rewrite IH. f_equal.
  cbn in Hnp. unfold place_param, param_value. by rewrite Hnp.
Qed.

(** Only what a tool declares reaches the network: for a tool without a
    template, two calls whose parameters agree on the declared names build
    the same request, refusals included. Parameters the model adds on its own
    have no effect on URL, query, headers or body. *)
Theorem declared_params_only w d injected params params' :
  graphql d = None → body_template d = None → agree (parameters d) params params' →
  build_request w d injected params = build_request w d injected params'.
Proof.
  intros Hg Ht Ha. unfold build_request, place_params, build_body.
  by rewrite Hg, Ht, (check_all_agree _ _ _ _ Ha), (place_agree _ _ _ _ _ Ha).
Qed.

(** A page counter that is not a declared parameter is never sent: every page
    is the same request. *)
Theorem undeclared_page_counter w d injected pg params page cursor p :
  graphql d = None → body_template d = None → (∀ np, np ∈ parameters d → np.1 ≠ pg_param pg ∧ Some np.1 ≠ limit_param pg) →
  (∀ k k' v o, k ≠ k' → jget (jinsert k v o) k' = jget o k') →
  page_params pg params page cursor = Some p →
  build_request w d injected p = build_request w d injected params.
Proof.
  intros Hg Ht Hno Hins Hp. apply declared_params_only; [done|done|]. apply Forall_forall. intros np Hin.
  destruct (Hno np Hin) as [Hn Hl]. unfold page_params in Hp.
  assert (∀ o, jget (match limit_param pg with Some lp => jinsert lp (jnumber (default 50%Z (pg_limit pg))) o | None => o end) np.1
               = jget o np.1) as Hlim.
  { intros o. destruct (limit_param pg); [|done]. apply Hins. congruence. }
  destruct (negb (jis_object params)); [by injection Hp as <-|].
  repeat case_bool_decide; [..|destruct cursor]; repeat case_match; simplify_eq; rewrite ?Hlim, ?Hins by congruence; done.
Qed.

(** ** The URL *)

Definition count (c : ascii) (s : str) : nat := length (filter (λ d, d = c) s).
Lemma count_app c a b : count c (a ++ b) = count c a + count c b.
Proof. unfold count. by rewrite filter_app, length_app. Qed.
Lemma count_cons c d s : count c (d :: s) = (if decide (d = c) then 1 else 0) + count c s.
Proof. unfold count. rewrite filter_cons. by case_decide. Qed.
Lemma count_none c s : c ∉ s → count c s = 0.
Proof.
  unfold count. induction s as [|d s IH]; [done|]. intros [Hd Hs]%not_elem_of_cons. rewrite filter_cons.
  case_decide; [by subst|by apply IH].
Qed.
Lemma count_replace c p by_ s : p ≠ [] → c ∉ p → c ∉ by_ → count c (replace_all p by_ s) = count c s.
Proof.
  intros Hne Hp Hb. unfold replace_all.
  assert (∀ n s, count c (replace_go p by_ n s) = count c (drop n s)) as Hgo; [|by rewrite Hgo, drop_0].
  intros n t. revert n. induction t as [|d t IH]; intros n; [by destruct n|].
  destruct n as [|n]; cbn [replace_go drop]; [|apply IH].
  destruct (starts_with p (d :: t)) eqn:Hs.
  - destruct p as [|e p]; [done|]. apply starts_with_split in Hs. cbn [length drop app] in Hs. injection Hs as -> Hs.
    rewrite count_app, (count_none _ _ Hb), IH. cbn [length]. replace (S (length p) - 1) with (length p) by lia.
    apply not_elem_of_cons in Hp as [He Hp].
    rewrite count_cons, decide_False by congruence. rewrite Hs at 2. by rewrite count_app, (count_none _ _ Hp).
  - by rewrite !count_cons, IH, drop_0.
Qed.

(** A path parameter stays inside its place: when the URL encoding never
    yields the character [c] (a slash, a question mark, a hash, a brace), the
    URL of a request has as many of it as the endpoint of the tool, whatever
    the values: no parameter adds a path segment, a query or a fragment. *)
Theorem url_shape_kept w d injected params rq c :
  (∀ s, c ∉ urlencode s) → (∀ np, np ∈ parameters d → c ∉ brace np.1) →
  build_request w d injected params = Ok rq →
  count c (rq_url rq) = count c (endpoint d).
Proof.
  intros Henc Hnames. unfold build_request.
  assert (∀ l r, (∀ np, np ∈ l → c ∉ brace np.1) →
    count c (pl_url (foldl (place_param (secrets w) params) r l)) = count c (pl_url r)) as Hfold.
  { intros l. induction l as [|[name p] l IH]; intros r Hl; [done|]. cbn [foldl].
    rewrite IH by (intros np Hin; apply Hl; by right). unfold place_param.
    destruct (jis_null _); [done|]. destruct (location p); try done. cbn [pl_url].
    apply count_replace; [done| |apply Henc]. exact (Hl (name, p) ltac:(by left)). }
  destruct (check_all (secrets w) params (parameters d)); [|done]. cbn.
  destruct (match auth d with Some _ => _ | None => _ end) as [[auth_headers auth_query]|]; [|done]. cbn.
  destruct (negb (known_method _)); [done|].
  match goal with |- context [build_body w d params ?f] => destruct (build_body w d params f) as [[bh b]|] end;
    destruct (bool_decide _ || bool_decide _); cbn; try done; intros [= <-]; exact (Hfold (parameters d) _ Hnames).
Qed.

(** ** Credentials *)

(** The token of the server goes to internal endpoints only. *)
Lemma internal_only w url a headers query :
  auth_type a = bs "bearer_internal" → apply_auth w url a = Ok (headers, query) →
  is_internal_endpoint parse_url url = true ∧ (∃ token, shared_token w = Some token ∧ headers = bearer token) ∧ query = [].
Proof.
  intros Ht. unfold apply_auth. rewrite Ht. cbn -[is_internal_endpoint]. 
  destruct (is_internal_endpoint parse_url url); [|done]. cbn. destruct (shared_token w) as [token|]; [|done]. cbn.
  intros [= <- <-]. eauto.
Qed.
(** A reserved name is never read from the environment of the process. *)
Lemma reserved_not_read key w v : is_reserved_secret_name key = true → resolve_env key w = Ok v → (r ← resolver w; r key) = Some v.
Proof. intros Hr. unfold resolve_env. destruct (r ← resolver w; r key); [by intros [= ->]|by rewrite Hr]. Qed.
End tools.

(** ** Sorting *)


(** ** The cache *)

Lemma delete_all_lookup {A} (ks : list str) (m : gmap str A) k :
  foldr delete m ks !! k = if bool_decide (k ∈ ks) then None else m !! k.
Proof.
  induction ks as [|k' ks IH]; [done|]. cbn [foldr]. destruct (decide (k' = k)) as [->|Hne].
  - by rewrite lookup_delete_eq, bool_decide_eq_true_2 by set_solver.
  - rewrite lookup_delete_ne, IH by done. clear IH. repeat case_bool_decide; try done; set_solver.
Qed.
Lemma delete_all_size {A} (ks : list str) (m : gmap str A) :
  NoDup ks → (∀ k, k ∈ ks → is_Some (m !! k)) → size (foldr delete m ks) + length ks = size m.
Proof.
  induction 1 as [|k ks Hk Hnd IH]; intros Hin; [cbn; lia|]. cbn [foldr length].
  specialize (IH (λ k' Hk', Hin k' (ltac:(by right)))).
  destruct (Hin k ltac:(by left)) as [v Hv].
  assert (foldr delete m ks !! k = Some v) as Hl by (rewrite delete_all_lookup, bool_decide_eq_false_2 by done; done).
  pose proof (map_size_delete_Some (M:=gmap str) k (foldr delete m ks) (mk_is_Some _ _ Hl)) as Hs.
  assert (size (foldr delete m ks) ≠ 0) by (intros H0%map_size_empty_inv; by rewrite H0, lookup_empty in Hl). lia.
Qed.
Lemma victims_in x k : k ∈ victims x → is_Some (cache x !! k).
Proof.
  unfold victims. intros Hk. apply elem_of_take in Hk as (i & Hi & _). apply list_elem_of_lookup_2 in Hi.
  apply list_elem_of_fmap in Hi as ([k' e] & -> & Hin). rewrite sort_by_perm in Hin.
  apply elem_of_map_to_list in Hin. by eexists.
Qed.
Lemma victims_nodup x : NoDup (victims x).
Proof.
  unfold victims. eapply sublist_NoDup; [|apply sublist_take]. rewrite (fmap_Permutation fst _ _ (sort_by_perm _ _)).
  apply NoDup_fst_map_to_list.
Qed.
Lemma victims_length x : length (victims x) = Nat.min (Nat.max (max_entries x `div` 10) 1) (size (cache x)).
Proof.
  unfold victims. rewrite length_take, length_fmap, (Permutation_length (sort_by_perm _ _)). by rewrite length_map_to_list.
Qed.

(** The response cache: it never holds more than its capacity (one entry
    for a capacity of zero); a read within the time to live returns the body
    that was stored, a read after it nothing, and drops the entry; storing
    under one key never changes what another key holds, it can only evict it. *)
Theorem cache_correct x key body ttl_secs now :
  size (cache x) ≤ Nat.max 1 (max_entries x) →
  let x' := set_cached key body ttl_secs now x in
  size (cache x') ≤ Nat.max 1 (max_entries x') ∧ max_entries x' = max_entries x ∧
  (∀ later, (get_cached key later x').1 = if (now + ttl_secs <=? later)%Z then None else Some body) ∧
  (∀ later, (now + ttl_secs <= later)%Z → cache (get_cached key later x').2 !! key = None) ∧
  (∀ k, k ≠ key → cache x' !! k = cache x !! k ∨ cache x' !! k = None).
Proof.
  intros Hsize x'. unfold x', set_cached. set (kept := if _ <=? _ then _ else _).
  assert (size kept < Nat.max 1 (max_entries x) ∨ size kept ≤ size (cache x) ∧ 0 < max_entries x ∧ size kept < max_entries x) as Hkept.
  { unfold kept. destruct (max_entries x <=? size (cache x)) eqn:Hle.
    - apply Nat.leb_le in Hle.
      pose proof (delete_all_size (victims x) (cache x) (victims_nodup x) (victims_in x)) as Hd.
      rewrite victims_length in Hd. left. lia.
    - apply Nat.leb_gt in Hle. right. lia. }
  split_and!.
  - cbn. rewrite map_size_insert. destruct (kept !! key); cbn; lia.
  - done.
  - intros later. unfold get_cached. cbn. rewrite lookup_insert_eq. cbn. by destruct (_ <=? _)%Z.
  - intros later Hl. unfold get_cached. cbn. rewrite lookup_insert_eq. cbn. rewrite (proj2 (Z.leb_le _ _) Hl).
    cbn. apply lookup_delete_eq.
  - intros k Hk. cbn. rewrite lookup_insert_ne by done. unfold kept. destruct (_ <=? _); [|by left].
    rewrite delete_all_lookup. case_bool_decide; [by right|by left].
Qed.

(** ** JSON paths *)

Definition print_opt (o : option Z) : str := from_option decZ [] o.
Definition print_token (t : PathToken) : str :=
  match t with
  | Key k => bs "." ++ k
  | Index i => bs "[" ++ (if (i <? 0)%Z then bs "-" ++ decZ (- i) else decZ i) ++ bs "]"
  | Slice a b => bs "[" ++ print_opt a ++ bs ":" ++ print_opt b ++ bs "]"
  | Wildcard => bs "[*]"
  end.
Definition token_ok (t : PathToken) : Prop :=
  match t with
  | Key k => k ≠ [] ∧ forallb (λ c, negb (key_end c)) k = true
  | Index i => (- 2 ^ 63 <= i < 2 ^ 63)%Z
  | Slice a b => (∀ n, a = Some n → in_u 64 n) ∧ (∀ n, b = Some n → in_u 64 n)
  | Wildcard => True
  end.

Lemma find_char_app c a b : c ∉ a → find_char c (a ++ c :: b) = Some (length a).
Proof.
  intros Ha. unfold find_char, find_sub. apply find_suffix_Some. split_and!.
  - rewrite length_app. lia.
  - rewrite drop_app_length. cbn. by rewrite bool_decide_eq_true_2.
  - intros j Hj. rewrite drop_app_le by lia. destruct (drop j a) as [|d u] eqn:Hd.
    { apply (f_equal length) in Hd. rewrite length_drop in Hd. cbn in Hd. lia. }
    cbn. rewrite bool_decide_eq_false_2; [done|]. intros ->. apply Ha.
    rewrite <- (take_drop j a), Hd. apply elem_of_app. right. by left.
Qed.
Lemma find_char_free c a : c ∉ a → find_char c a = None.
Proof.
  intros Ha. unfold find_char, find_sub. apply find_suffix_None. intros j Hj. destruct (drop j a) as [|d u] eqn:Hd; [done|].
  cbn. rewrite bool_decide_eq_false_2; [done|]. intros ->. apply Ha. rewrite <- (take_drop j a), Hd. apply elem_of_app. right. by left.
Qed.
Lemma decZ_head n : (0 <= n)%Z → ∃ d l, decZ n = d :: l ∧ is_ascii_digit d = true.
Proof.
  intros Hn. pose proof (decZ_not_nil n Hn). pose proof (decZ_digits n Hn) as Hd.
  destruct (decZ n) as [|d l]; [done|]. exists d, l. split; [done|]. by apply Forall_cons in Hd as [? _].
Qed.
Lemma no_prefix c n : (0 <= n)%Z → is_ascii_digit c = false → strip_prefix [c] (decZ n) = None.
Proof.
  intros Hn Hc. destruct (decZ_head n Hn) as (d & l & -> & Hd). apply strip_prefix_None. cbn.
  rewrite bool_decide_eq_false_2; [done|]. intros ->. congruence.
Qed.

Lemma parse_isize_print i :
  (- 2 ^ 63 <= i < 2 ^ 63)%Z → parse_isize (if (i <? 0)%Z then bs "-" ++ decZ (- i) else decZ i) = Some i.
Proof.
  intros Hi. unfold parse_isize. destruct (Z.ltb_spec i 0).
  - assert (strip_prefix (bs "-") (bs "-" ++ decZ (- i)) = Some (decZ (- i))) as ->.
    { unfold strip_prefix. by rewrite starts_with_app, drop_app_length. }
    pose proof (no_prefix "+"%char (- i) ltac:(lia) eq_refl) as Hp%strip_prefix_None.
    change (bs "+") with ["+"%char]. rewrite Hp, parse_dec_decZ by (unfold in_u, umax; lia). cbn -[Z.leb Z.opp].
    rewrite (proj2 (Z.leb_le _ _)) by lia. f_equal. lia.
  - change (bs "-") with ["-"%char]. rewrite no_prefix by (lia || done).
    rewrite parse_dec_decZ by (unfold in_u, umax; lia). cbn. by rewrite (proj2 (Z.ltb_lt _ _)) by lia.
Qed.
Lemma opt_usize_print o : (∀ n, o = Some n → in_u 64 n) → opt_usize (print_opt o) = Some o.
Proof.
  intros Ho. destruct o as [n|]; [|done]. specialize (Ho n eq_refl). unfold opt_usize. cbn [print_opt from_option].
  rewrite bool_decide_eq_false_2 by (apply decZ_not_nil, Ho). by rewrite parse_dec_decZ.
Qed.
Lemma print_opt_free o c : (∀ n, o = Some n → in_u 64 n) → is_ascii_digit c = false → c ∉ print_opt o.
Proof. intros Ho Hc. destruct o as [n|]; [apply decZ_no; [apply (Ho n eq_refl)|done]|by intros ?%elem_of_nil]. Qed.
Lemma index_free i c : (- 2 ^ 63 <= i)%Z → is_ascii_digit c = false → c ≠ "-"%char →
  c ∉ (if (i <? 0)%Z then bs "-" ++ decZ (- i) else decZ i).
Proof.
  intros Hi Hc Hd. destruct (Z.ltb_spec i 0); [|by apply decZ_no].
  intros [Hin%list_elem_of_singleton|Hin]%elem_of_app; [done|]. by apply decZ_no in Hin; [|lia|].
Qed.

(** The text between the brackets of a token. *)
Definition inner (t : PathToken) : str :=
  match t with
  | Key k => k
  | Index i => if (i <? 0)%Z then bs "-" ++ decZ (- i) else decZ i
  | Slice a b => print_opt a ++ ":"%char :: print_opt b
  | Wildcard => bs "*"
  end.
Lemma inner_parses t : token_ok t → (∀ k, t ≠ Key k) → parse_bracket_token (inner t) = Some t ∧ "]"%char ∉ inner t.
Proof.
  intros Ht Hk. unfold parse_bracket_token. destruct t as [k|i|a b|]; [by destruct (Hk k)| | |split; [done|by vm_compute; set_solver]]; cbn [inner token_ok] in *.
  - assert (∀ c, is_ascii_digit c = false → c ≠ "-"%char → c ∉ inner (Index i)) as Hfree by (intros; apply index_free; [lia|done..]).
    cbn [inner] in Hfree. split; [|by apply Hfree].
    rewrite bool_decide_eq_false_2 by (intros He; apply (Hfree "*"%char); [done|done|rewrite He; by left]).
    rewrite find_char_free by by apply Hfree. by rewrite parse_isize_print.
  - destruct Ht as [Ha Hb]. split.
    + rewrite bool_decide_eq_false_2.
      2: { intros He. assert (":"%char ∈ bs "*") as Hin by (rewrite <- He; set_solver). by apply list_elem_of_singleton in Hin. }
      rewrite find_char_app by by apply print_opt_free. rewrite take_app_length.
      replace (drop (S (length (print_opt a))) (print_opt a ++ ":"%char :: print_opt b)) with (print_opt b).
      2: { rewrite <- (drop_app_length (print_opt a ++ [":"%char]) (print_opt b)) at 1.
           by rewrite length_app, <- app_assoc, Nat.add_comm. }
      by rewrite !opt_usize_print.
    + intros [Hin|[?|Hin]%elem_of_cons]%elem_of_app; [by apply print_opt_free in Hin|done|by apply print_opt_free in Hin].
Qed.

Lemma print_bracket t : (∀ k, t ≠ Key k) → print_token t = "["%char :: inner t ++ bs "]".
Proof. intros Hk. destruct t; cbn [print_token inner]; try done; [by destruct (Hk k)|by rewrite <- app_assoc]. Qed.

Definition key_stops (s : str) : Prop := stops (λ c, negb (key_end c)) s = true.
Lemma tokenize_printed toks fuel :
  Forall token_ok toks → length (concat (print_token <$> toks)) ≤ fuel →
  tokenize_loop fuel (concat (print_token <$> toks)) = Some toks.
Proof.
  intros Hok. revert fuel. induction Hok as [|t toks Ht Hok IH]; intros fuel Hfuel; [by destruct fuel|].
  cbn [fmap list_fmap concat] in *. rewrite length_app in Hfuel.
  assert (key_stops (concat (print_token <$> toks))) as Hstop.
  { destruct Hok as [|u toks Hu _]; [done|]. unfold key_stops. by destruct u. }
  assert ((∃ k, t = Key k) ∨ ∀ k, t ≠ Key k) as [[k ->]|Hk'] by (destruct t; eauto).
  - cbn [print_token app] in *. destruct Ht as [Hne Hk]. destruct fuel as [|fuel]; [cbn in Hfuel; lia|].
    destruct k as [|c k]; [done|]. cbn in Hk. apply andb_true_iff in Hk as [Hc Hk].
    assert (c ≠ "."%char ∧ c ≠ "["%char) as [Hc1 Hc2] by (split; intros ->; done).
    set (rest := concat (print_token <$> toks)) in *. cbn [tokenize_loop].
    assert (skip_while (λ c, bool_decide (c = "."%char)) ((bs "." ++ c :: k) ++ rest) = c :: k ++ rest) as ->.
    { cbn. by rewrite (bool_decide_eq_false_2 (c = "."%char)). }
    rewrite (bool_decide_eq_false_2 (c = "["%char)) by done.
    destruct (take_while_app (λ c, negb (key_end c)) (c :: k) rest) as [Htw Hsw]; [by cbn; rewrite Hc|].
    cbn [app] in Htw, Hsw. rewrite Htw, Hsw.
    destruct (take_while_stops _ _ Hstop) as [-> ->]. rewrite IH by (cbn in Hfuel; lia). cbn. by rewrite app_nil_r.
  - rewrite (print_bracket t Hk') in *.
    destruct (inner_parses t Ht Hk') as [Hp Hfree]. destruct fuel as [|fuel]; [cbn in Hfuel; lia|].
    set (rest := concat (print_token <$> toks)) in *. cbn [tokenize_loop].
    assert (skip_while (λ c, bool_decide (c = "."%char)) (("["%char :: inner t ++ bs "]") ++ rest) = "["%char :: inner t ++ "]"%char :: rest) as ->.
    { cbn. by rewrite <- app_assoc. }
    rewrite bool_decide_eq_true_2 by done.
    rewrite find_char_app by done. cbn. rewrite take_app_length, Hp. cbn.
    replace (drop (S (length (inner t))) (inner t ++ "]"%char :: rest)) with rest.
    2: { rewrite <- (drop_app_length (inner t ++ ["]"%char]) rest) at 1.
         by rewrite length_app, <- app_assoc, Nat.add_comm. }
    rewrite IH; [done|]. cbn in Hfuel. lia.
Qed.

(** Paths are read as they are written: a path of keys, indices (negative
    ones from the end), slices and wildcards, written with a dot before a key
    and brackets around the rest, is tokenized to exactly these steps. *)
Theorem path_round_trip toks :
  Forall token_ok toks → tokenize_jsonpath (concat (print_token <$> toks)) = Some toks.
Proof. intros Hok. by apply tokenize_printed. Qed.

(** ** Values in JSON templates *)

Lemma replace_char (c : ascii) by_ d s :
  replace_all [c] by_ (d :: s) = (if bool_decide (d = c) then by_ else [d]) ++ replace_all [c] by_ s.
Proof.
  unfold replace_all. cbn [replace_go starts_with length]. rewrite andb_true_r.
  destruct (decide (d = c)) as [->|Hne].
  - rewrite !bool_decide_eq_true_2 by done. done.
  - by rewrite (bool_decide_eq_false_2 (c = d)), (bool_decide_eq_false_2 (d = c)) by congruence.
Qed.
Lemma replace_char_app c by_ a b : replace_all [c] by_ (a ++ b) = replace_all [c] by_ a ++ replace_all [c] by_ b.
Proof.
  induction a as [|d a IH]; [done|]. rewrite <- app_comm_cons, !replace_char, IH. by rewrite app_assoc.
Qed.
(** One character of a value inside a JSON string. *)
Definition escape_char (c : ascii) : str :=
  if bool_decide (c = BS) then [BS; BS]
  else if bool_decide (c = DQ) then [BS; DQ]
  else if bool_decide (c = LF) then [BS; "n"%char]
  else if bool_decide (c = CR) then [BS; "r"%char]
  else if bool_decide (c = TAB) then [BS; "t"%char]
  else [c].
Lemma json_escape_app a b : json_escape (a ++ b) = json_escape a ++ json_escape b.
Proof. unfold json_escape. by rewrite !replace_char_app. Qed.
Lemma json_escape_one c : json_escape [c] = escape_char c.
Proof.
  unfold json_escape, escape_char. rewrite (replace_char BS). destruct (decide (c = BS)) as [->|H1]; [by vm_compute|].
  rewrite (bool_decide_eq_false_2 (c = BS)) by done. cbn [app].
  rewrite (replace_char DQ). destruct (decide (c = DQ)) as [->|H2]; [by vm_compute|].
  rewrite (bool_decide_eq_false_2 (c = DQ)) by done. cbn [app].
  rewrite (replace_char LF). destruct (decide (c = LF)) as [->|H3]; [by vm_compute|].
  rewrite (bool_decide_eq_false_2 (c = LF)) by done. cbn [app].
  rewrite (replace_char CR). destruct (decide (c = CR)) as [->|H4]; [by vm_compute|].
  rewrite (bool_decide_eq_false_2 (c = CR)) by done. cbn [app].
  rewrite (replace_char TAB). by rewrite app_nil_r.
Qed.
Lemma json_escape_cons c s : json_escape (c :: s) = escape_char c ++ json_escape s.
Proof. change (c :: s) with (app [c] s). by rewrite json_escape_app, json_escape_one. Qed.

(** A JSON string from after its opening quote: its value and the text after
    the closing quote.  The escapes are those a writer needs; a control
    character inside a string is an error. *)
Definition is_control (c : ascii) : bool := nat_of_ascii c <? 32.
Definition unescape (c : ascii) : option ascii :=
  if bool_decide (c = BS) then Some BS
  else if bool_decide (c = DQ) then Some DQ
  else if bool_decide (c = "n"%char) then Some LF
  else if bool_decide (c = "r"%char) then Some CR
  else if bool_decide (c = "t"%char) then Some TAB
  else None.
Fixpoint read_string (s : str) : option (str * str) :=
  match s with
  | [] => None
  | c :: s' =>
      if bool_decide (c = DQ) then Some ([], s')
      else if bool_decide (c = BS) then
        match s' with
        | [] => None
        | d :: s'' => e ← unescape d; '(v, rest) ← read_string s''; Some (e :: v, rest)
        end
      else if is_control c then None
      else '(v, rest) ← read_string s'; Some (c :: v, rest)
  end.
Lemma read_escape d e t v rest :
  unescape d = Some e → read_string t = Some (v, rest) → read_string (BS :: d :: t) = Some (e :: v, rest).
Proof.
  intros Hd Ht. cbn [read_string]. rewrite (bool_decide_eq_false_2 (BS = DQ)), (bool_decide_eq_true_2 (BS = BS)) by done.
  by rewrite Hd, Ht.
Qed.
Definition writable (c : ascii) : bool :=
  negb (is_control c) || bool_decide (c = LF) || bool_decide (c = CR) || bool_decide (c = TAB).

(** A value put into a JSON template stays in its string: from inside a
    string, a reader finds in the escaped value exactly the value, and then
    the quote that was there before. So no parameter of the model and no
    secret can close the string and add fields of its own. The values are
    those whose only control characters are line feed, carriage return and
    tab. *)
Theorem escaped_value_stays s rest :
  forallb writable s = true → read_string (json_escape s ++ DQ :: rest) = Some (s, rest).
Proof.
  induction s as [|c s IH]; [by intros _; cbn|]. cbn [forallb]. intros [Hc Hs]%andb_true_iff. specialize (IH Hs).
  rewrite json_escape_cons, <- app_assoc. unfold escape_char.
  destruct (decide (c = BS)) as [->|H1]; [rewrite bool_decide_eq_true_2 by done; by apply read_escape|]. rewrite (bool_decide_eq_false_2 (c = BS)) by done.
  destruct (decide (c = DQ)) as [->|H2]; [rewrite bool_decide_eq_true_2 by done; by apply read_escape|]. rewrite (bool_decide_eq_false_2 (c = DQ)) by done.
  destruct (decide (c = LF)) as [->|H3]; [rewrite bool_decide_eq_true_2 by done; by apply read_escape|]. rewrite (bool_decide_eq_false_2 (c = LF)) by done.
  destruct (decide (c = CR)) as [->|H4]; [rewrite bool_decide_eq_true_2 by done; by apply read_escape|]. rewrite (bool_decide_eq_false_2 (c = CR)) by done.
  destruct (decide (c = TAB)) as [->|H5]; [rewrite bool_decide_eq_true_2 by done; by apply read_escape|]. rewrite (bool_decide_eq_false_2 (c = TAB)) by done.
  cbn [app read_string].
  rewrite (bool_decide_eq_false_2 (c = DQ)), (bool_decide_eq_false_2 (c = BS)) by done.
  unfold writable in Hc. rewrite !bool_decide_eq_false_2, !orb_false_r in Hc by done.
  destruct (is_control c); [done|]. by rewrite IH.
Qed.
(** Any other control character makes the body invalid. *)
Example backspace_breaks_body : read_string (json_escape [ascii_of_nat 8] ++ [DQ]) = None.
Proof. by vm_compute. Qed.

(** ** Concrete tools *)

Definition toy_param (loc : ParamLocation) : YamlParam (V:=Jv.t) := mkParam (bs "string") false loc None None.
Definition toy_tool (l : list (str * YamlParam (V:=Jv.t))) : YamlToolDef (V:=Jv.t) :=
  mkTool (bs "weather") (bs "http://h/{city}/now") (bs "get") [] l None None None Verified 60 None
    (bs "application/json") None None None [].
Definition toy_world : World := mkWorld (mkSecrets None (λ _, None)) None None (λ _ _, Err []) (λ _, Err []).
Definition toy_city (s : str) : Jv.t := Jv.Obj [(bs "city", Jv.Str s)].
Definition toy_request (l : list (str * YamlParam (V:=Jv.t))) (params : Jv.t) :=
  build_request (λ s, s) (λ s, s) (λ _, None) toy_world (toy_tool l) [] params.

(** Two dots are no reserved characters: the encoding leaves them as they are,
    and the path goes up. *)
Example dots_climb :
  rq_url <$> (match toy_request [(bs "city", toy_param InPath)] (toy_city (bs "..")) with Ok r => Some r | Err _ => None end) =
  Some (bs "http://h/../now").
Proof. by vm_compute. Qed.

(** A parameter name with the separators of the cache key in it: the call
    sends nothing of it, and its answer is kept under the key of another
    call. *)
Definition forged_params : Jv.t := Jv.Obj [(bs "a='x'&b", Jv.Str (bs "y"))].
Definition honest_params : Jv.t := Jv.Obj [(bs "a", Jv.Str (bs "x")); (bs "b", Jv.Str (bs "y"))].
Example cache_key_ambiguous :
  build_cache_key (bs "main") (bs "t") (bs "GET") (bs "http://h") forged_params [] =
  build_cache_key (bs "main") (bs "t") (bs "GET") (bs "http://h") honest_params [].
Proof. by vm_compute. Qed.

Lemma declared_params_only_witness :
  toy_request [(bs "city", toy_param InPath)] (Jv.Obj [(bs "city", Jv.Str (bs "oslo")); (bs "x", Jv.Null)]) =
  toy_request [(bs "city", toy_param InPath)] (toy_city (bs "oslo")).
Proof. apply declared_params_only; [done|done|]. repeat constructor. Defined.

Definition toy_sent : Request (V:=Jv.t) := mkRequest (bs "GET") (bs "http://h/oslo/now") [] [] NoBody.
Lemma url_shape_witness : count "/"%char (rq_url toy_sent) = count "/"%char (bs "http://h/{city}/now").
Proof.
  apply (url_shape_kept (filter (λ c, c ≠ "/"%char)) (λ s, s) (λ _, None) toy_world (toy_tool [(bs "city", toy_param InPath)]) []
           (toy_city (bs "oslo")) toy_sent "/"%char).
  - intros s [Hc _]%list_elem_of_filter. done.
  - intros np ->%list_elem_of_singleton. vm_compute. set_solver.
  - by vm_compute.
Defined.

Lemma cache_witness :
  let x := mkCache ∅ 2 in
  let x' := set_cached (bs "k") (bs "body") 60 0 x in
  size (cache x') ≤ Nat.max 1 (max_entries x') ∧ max_entries x' = max_entries x ∧
  (∀ later, (get_cached (bs "k") later x').1 = if (0 + 60 <=? later)%Z then None else Some (bs "body")) ∧
  (∀ later, (0 + 60 <= later)%Z → cache (get_cached (bs "k") later x').2 !! bs "k" = None) ∧
  (∀ k, k ≠ bs "k" → cache x' !! k = cache x !! k ∨ cache x' !! k = None).
Proof. apply (cache_correct (mkCache ∅ 2) (bs "k") (bs "body") 60 0). vm_compute. lia. Defined.

Definition demo_path : list PathToken := [Key (bs "data"); Index (-1); Wildcard; Slice (Some 0%Z) None; Key (bs "id")].
Lemma path_round_trip_witness : tokenize_jsonpath (bs ".data[-1][*][0:].id") = Some demo_path.
Proof.
  apply (path_round_trip demo_path). unfold demo_path. rewrite !Forall_cons. cbn.
  split_and!; try done; try lia; intros n [= <-]; unfold in_u, umax; lia.
Defined.

Lemma escaped_value_witness : read_string (json_escape (DQ :: bs "},") ++ DQ :: bs "}") = Some (DQ :: bs "},", bs "}").
Proof. apply (escaped_value_stays (DQ :: bs "},") (bs "}")). by vm_compute. Defined.
