(* ===== verification/Jobs.v ===== *)
(** * Jobs of file handlers

    The durable queue of [opex-db/src/handler_jobs.rs], the worker of
    [agent/file_handler_worker.rs] that hands jobs to the toolgate service,
    and the callbacks of [gateway/handlers/files.rs] by which a runner reports
    back.

    The table [handler_jobs] is the list of its rows in the order of
    insertion; a statement is a function on it.  What happens outside the
    table is a trace of effects: chat messages, UI events, runs handed to the
    toolgate, notes written.  The worker is a machine whose steps are its
    statements, so the callbacks of runners fall between any two of them.
    Times are seconds. *)
From S2P Require Import Prelude Text Json Files Budget Uploads.

(** The values the column [status] may have (migration 067). *)
Inductive JobStatus := Queued | Processing | Done | Failed.
#[export] Instance job_status_eq_dec : EqDecision JobStatus.
Proof. solve_decision. Defined.
Definition terminal (s : JobStatus) : bool := match s with Done | Failed => true | _ => false end.

(** ** The table *)

Section jobs.
Context {V : Type} `{Json V}.

(* @src opex-db/src/handler_jobs.rs 9-22 HandlerJob *)
Record HandlerJob := mkJob {
  j_id : str;
  upload_id : option str;
  source_ref : option str;
  handler_id : str;
  agent_name : str;
  session_id : str;
  params : V;
  status : JobStatus;
  phase : option str;
  pct : option Z;
  j_result : option V;
  attempts : Z;
  created_at : Z;
  updated_at : Z;
}.
(** The columns a statement changes. *)
Definition set_row st ph pc res att upd (j : HandlerJob) : HandlerJob :=
  mkJob (j_id j) (upload_id j) (source_ref j) (handler_id j) (agent_name j) (session_id j) (params j)
    st ph pc res att (created_at j) upd.

(* @src opex-db/src/handler_jobs.rs 26-28 error (HandlerJob) *)
Definition job_error (j : HandlerJob) : option str :=
  r ← j_result j; v ← jget r (bs "reason"); jas_str v.

(** [UPDATE … SET f WHERE p] and the number of rows it touched. *)
Definition update (p : HandlerJob → bool) (f : HandlerJob → HandlerJob) (db : list HandlerJob) : list HandlerJob * nat :=
  ((λ j, if p j then f j else j) <$> db, length (List.filter p db)).
Definition with_id (id : str) (j : HandlerJob) : bool := bool_decide (j_id j = id).
Definition in_status (s : JobStatus) (j : HandlerJob) : bool := bool_decide (status j = s).

(* @src opex-db/src/handler_jobs.rs 36-59 insert_handler_job *)
Definition insert_handler_job (id : str) (upload_id source_ref : option str) (handler_id agent_name session_id : str)
    (params : V) (now : Z) (db : list HandlerJob) : list HandlerJob :=
  db ++ [mkJob id upload_id source_ref handler_id agent_name session_id params Queued None None None 0 now now].

(** The queued row with the least [created_at], the first one inserted among equals. *)
Fixpoint oldest_queued (db : list HandlerJob) : option HandlerJob :=
  match db with
  | [] => None
  | j :: db =>
      if in_status Queued j then
        match oldest_queued db with
        | Some k => if (created_at k <? created_at j)%Z then Some k else Some j
        | None => Some j
        end
      else oldest_queued db
  end.
Definition claimed (now : Z) (j : HandlerJob) : HandlerJob :=
  set_row Processing (phase j) (pct j) (j_result j) (attempts j + 1) now j.
(* @src opex-db/src/handler_jobs.rs 63-74 claim_next_handler_job *)
Definition claim_next_handler_job (now : Z) (db : list HandlerJob) : list HandlerJob * option HandlerJob :=
  match oldest_queued db with
  | None => (db, None)
  | Some j => ((update (with_id (j_id j)) (claimed now) db).1, Some (claimed now j))
  end.
(* @src opex-db/src/handler_jobs.rs 81-87 count_processing_handler_jobs *)
Definition count_processing_handler_jobs (db : list HandlerJob) : nat := length (List.filter (in_status Processing) db).
(* @src opex-db/src/handler_jobs.rs 89-95 mark_handler_job_processing *)
Definition mark_handler_job_processing (id : str) (now : Z) (db : list HandlerJob) : list HandlerJob :=
  (update (with_id id) (λ j, set_row Processing (phase j) (pct j) (j_result j) (attempts j) now j) db).1.
(* @src opex-db/src/handler_jobs.rs 97-110 update_handler_job_progress *)
Definition update_handler_job_progress (id ph : str) (pc now : Z) (db : list HandlerJob) : list HandlerJob :=
  (update (with_id id) (λ j, set_row (status j) (Some ph) (Some pc) (j_result j) (attempts j) now j) db).1.
Definition finish (st : JobStatus) (id : str) (res : V) (now : Z) (db : list HandlerJob) : list HandlerJob * bool :=
  let '(db, rows) := update (λ j, with_id id j && in_status Processing j)
                       (λ j, set_row st (phase j) (pct j) (Some res) (attempts j) now j) db in
  (db, bool_decide (rows ≠ 0)).
(* @src opex-db/src/handler_jobs.rs 116-131 mark_handler_job_done *)
Definition mark_handler_job_done : str → V → Z → list HandlerJob → list HandlerJob * bool := finish Done.
Definition failure (reason : str) : V :=
  jinsert (bs "reason") (jstring reason) (jinsert (bs "status") (jstring (bs "failed")) jempty).
(* @src opex-db/src/handler_jobs.rs 137-151 mark_handler_job_failed *)
Definition mark_handler_job_failed (id error : str) : Z → list HandlerJob → list HandlerJob * bool :=
  finish Failed id (failure error).
(** [status = 'processing' AND updated_at < now() - age] *)
Definition stale (now age : Z) (j : HandlerJob) : bool := in_status Processing j && (updated_at j <? now - age)%Z.
(* @src opex-db/src/handler_jobs.rs 163-178 recover_stale_handler_jobs *)
Definition recover_stale_handler_jobs (max_age_secs now : Z) (db : list HandlerJob) : list HandlerJob :=
  (update (stale now max_age_secs)
     (λ j, if (3 <=? attempts j)%Z
           then set_row Failed (phase j) (pct j) (Some (failure (bs "exceeded retry limit after crash"))) (attempts j) now j
           else set_row Queued (phase j) (pct j) (j_result j) (attempts j) now j) db).1.
(* @src opex-db/src/handler_jobs.rs 188-200 list_stale_processing_jobs *)
Definition list_stale_processing_jobs (older_than_secs now : Z) (db : list HandlerJob) : list HandlerJob :=
  List.filter (stale now older_than_secs) db.
(* @src opex-db/src/handler_jobs.rs 202-209 get_handler_job *)
Definition get_handler_job (id : str) (db : list HandlerJob) : option HandlerJob := List.find (with_id id) db.
End jobs.
Arguments HandlerJob : clear implicits.

(** ** Outcomes *)

(* @src opex-core/src/agent/file_scenario/outcome.rs 11-17 ScenarioStatus *)
Inductive ScenarioStatus := ScOk | ScFailed | ScUnsupported | ScTooLarge | ScTimeout.
Definition scenario_status_str (s : ScenarioStatus) : str :=
  match s with
  | ScOk => bs "ok" | ScFailed => bs "failed" | ScUnsupported => bs "unsupported"
  | ScTooLarge => bs "too_large" | ScTimeout => bs "timeout"
  end.
Definition sc_ok (s : ScenarioStatus) : bool := match s with ScOk => true | _ => false end.

Section outcomes.
Context {V : Type} `{Json V, JsonArrays V}.
Context (jbool : bool → V).                              (** [Value::Bool] *)
Context (neutralize : str → str → str → str).            (** replacement of a regular expression *)

(* @src opex-core/src/agent/file_scenario/outcome.rs 23-44 ScenarioOutcome *)
Record ScenarioOutcome := mkOutcome {
  o_status : ScenarioStatus;
  summary_text : str;
  artifact_urls : list str;
  reason : option str;
  video_accepted : bool;
  post_action : option V;
}.
(* @src opex-core/src/agent/file_scenario/outcome.rs 51-53 failed (ScenarioOutcome) *)
Definition outcome_failed (why : str) : ScenarioOutcome := mkOutcome ScFailed [] [] (Some why) false None.
(** The serialised outcome; an absent [post_action] is left out. *)
Definition outcome_json (o : ScenarioOutcome) : V :=
  let base :=
    jinsert (bs "status") (jstring (scenario_status_str (o_status o)))
      (jinsert (bs "summary_text") (jstring (summary_text o))
         (jinsert (bs "artifact_urls") (jarray (jstring <$> artifact_urls o))
            (jinsert (bs "reason") (from_option jstring jnull (reason o))
               (jinsert (bs "video_accepted") (jbool (video_accepted o)) jempty)))) in
  match post_action o with Some a => jinsert (bs "post_action") a base | None => base end.

(** ** Notes *)

Definition safe_char (c : ascii) : bool :=
  is_ascii_alphanumeric c || bool_decide (c ∈ bs " _.-").
(* @src opex-core/src/gateway/handlers/files.rs 59-64 is_safe_path_component *)
Definition is_safe_path_component (name : str) : bool :=
  negb (bool_decide (name ∈ [[]; bs "."; bs ".."])) &&
  (forallb safe_char name && (length name <=? 128)).

(** The text of a path. *)
Definition comp_text (c : Comp) : str :=
  match c with Normal n => n | ParentDir => bs ".." | CurDir => bs "." end.
Definition path_text (p : Path) : str :=
  (if p_abs p then bs "/" else []) ++ join (bs "/") (comp_text <$> components p).

(* @src opex-core/src/gateway/handlers/files.rs 905-928 resolve_note_dir *)
Definition resolve_note_dir (workspace_root : Path) (dir subfolder default_vault : str) : option Path :=
  let dir := trim dir in
  if negb (bool_decide (dir = [])) then
    let p := path_of dir in
    if existsb is_parent (components p) then None
    else Some (if p_abs p then p else join_path workspace_root p)
  else if negb (is_safe_path_component subfolder) then None
  else Some (join_path (join_path workspace_root (path_of default_vault)) (path_of subfolder)).

Definition str_field (o : V) (k : str) : option str := v ← jget o k; jas_str v.
(** Where the note goes and what it says; [None]: there is no note to write. *)
Definition note_of (workspace_root : Path) (shared_dirs : list str) (o : ScenarioOutcome) : option (Path * Path * str) :=
  action ← post_action o;
  if jis_null action then None else
  let kind := default [] (str_field action (bs "kind")) in
  if negb (bool_decide (kind ∈ [bs "write_file"; bs "obsidian_note"])) then None else
  let filename := default (bs "note.md") (str_field action (bs "filename")) in
  if negb (is_safe_path_component filename) then None else
  let content := default (summary_text o) (str_field action (bs "content")) in
  let dir := default [] (str_field action (bs "dir")) in
  let subfolder := default (bs "Summary")
    (v ← (match jget action (bs "subfolder") with Some v => Some v | None => jget action (bs "folder") end); jas_str v) in
  target_dir ← resolve_note_dir workspace_root dir subfolder (default (bs "storage") (head shared_dirs));
  Some (target_dir, join_path target_dir (path_of filename), content).
(** [canonicalize] of the workspace, or the name as it is. *)
Definition workspace_root_of (fs : Fs) (workspace_dir : str) : Path :=
  match canonicalize fs (path_of workspace_dir) with Some c => abs_path c | None => path_of workspace_dir end.
(* @src opex-core/src/gateway/handlers/files.rs 950-1024 run_post_action *)
Definition run_post_action (workspace_dir : str) (shared_dirs : list str) (o : ScenarioOutcome) (fs : Fs)
    : Fs * option str :=
  let root := workspace_root_of fs workspace_dir in
  match note_of root shared_dirs o with
  | None => (fs, None)
  | Some (target_dir, path, content) =>
      let '(fs, created) := create_dir_all fs target_dir in
      if negb created then (fs, None) else
      match write fs path content with
      | None => (fs, None)
      | Some fs =>
          let display := match strip_path path root with Some rest => mkPath false rest | None => path end in
          (fs, Some (replace_char "\"%char (bs "/") (path_text display)))
      end
  end.

(** ** Effects *)

Inductive FormPart := TextField (text : str) | FileField (bytes : str) (file_name mime : option str).
(** [ChatMessage]: a row of [messages] with source ['file_handler'];
    [UiEvent]: a [file_job_progress] event; [RunnerPost]: a run handed to the
    toolgate.  Each names the job it is about. *)
Inductive Effect :=
| ChatMessage (job session agent content : str)
| UiEvent (job handler session ph : str) (pc : Z) (st : str)
| RunnerPost (job url : str) (form : list (str * FormPart)).

Definition u_done : str := bs "✅ Готово — ".
Definition u_saved : str := bs ". Сохранено: `".
Definition u_failed : str := bs "⚠️ Обработка не удалась (".
(* @src opex-core/src/gateway/handlers/files.rs 787-832 deliver_async_outcome *)
Definition deliver_async_outcome (workspace_dir : str) (shared_dirs : list str) (persisted : bool)
    (job : HandlerJob V) (o : ScenarioOutcome) (fs : Fs) : Fs * list Effect :=
  let '(fs, saved) := run_post_action workspace_dir shared_dirs o fs in
  let wrapped := wrap_file_output neutralize (handler_id job) (default [] (upload_id job)) (summary_text o) in
  let header := match saved with
                | Some path => u_done ++ handler_id job ++ u_saved ++ path ++ bs "`"
                | None => u_done ++ handler_id job ++ bs "."
                end in
  (fs, if persisted then [ChatMessage (j_id job) (session_id job) (agent_name job) (header ++ [LF; LF] ++ wrapped)] else []).
(* @src opex-core/src/gateway/handlers/files.rs 871-890 deliver_async_failure *)
Definition deliver_async_failure (persisted : bool) (job : HandlerJob V) (why : str) : list Effect :=
  let wrapped := wrap_file_output neutralize (handler_id job) (default [] (upload_id job)) (take_chars 600 why) in
  if persisted
  then [ChatMessage (j_id job) (session_id job) (agent_name job)
          (u_failed ++ handler_id job ++ bs ")." ++ [LF] ++ wrapped)]
  else [].
(* @src opex-core/src/gateway/handlers/files.rs 625-641 file_job_progress_event *)
Definition progress_event (job : HandlerJob V) (ph : str) (pc : Z) (st : str) : Effect :=
  UiEvent (j_id job) (handler_id job) (session_id job) ph pc st.
(** The failure path that the sweep of the worker takes; [db_ok]: the update
    reaches the database. *)
(* @src opex-core/src/gateway/handlers/files.rs 847-869 fail_stuck_job_and_notify *)
Definition fail_stuck_job_and_notify (db_ok persisted : bool) (job : HandlerJob V) (why : str) (now : Z)
    (db : list (HandlerJob V)) : list (HandlerJob V) * list Effect :=
  let '(db, transitioned) := if db_ok then mark_handler_job_failed (j_id job) why now db else (db, false) in
  if negb transitioned then (db, [])
  else (db, deliver_async_failure persisted job why ++ [progress_event job (bs "done") 100 (bs "failed")]).
End outcomes.
Arguments ScenarioOutcome : clear implicits.

(** ** Dispatch and callbacks *)

Section world.
Context {V : Type} `{Json V, JsonArrays V}.
Context (jbool : bool → V) (neutralize : str → str → str → str) (mime_valid : str → bool).
Context (hmac : str → str → str) (b64 hex_encode : str → str) (hex_decode : str → option str) (url_encode : str → str).
Context (key toolgate_url gateway_listen signed_url_base workspace_dir : str) (shared_dirs : list str).

(* @src opex-core/src/agent/url_tools.rs 13-35 uploads_local_url *)
Definition uploads_local_url (att_url listen : str) : str :=
  let port := default 18789%Z (p ← last (split_on ":" listen); parse_dec 16 p) in
  let path := match find_sub (bs "/api/uploads/") att_url with
              | Some i => drop i att_url
              | None => match find_sub (bs "/uploads/") att_url with Some i => drop i att_url | None => att_url end
              end in
  bs "http://localhost:" ++ decZ port ++ path.
(* @src opex-core/src/uploads.rs 84-84 JOB_CALLBACK_TTL_SECS *)
Definition JOB_CALLBACK_TTL_SECS : Z := 24 * 3600.
(** [trim_end_matches] of a slash. *)
Definition trim_slashes (s : str) : str := reverse (skip_while (λ c, bool_decide (c = "/"%char)) (reverse s)).

(** What the dispatch of a job meets: the row of its upload (media type and
    name), the settings of the handler, the answer of the server to its own
    download (status and body, [None] where the transfer fails), and the
    status the toolgate answers. *)
Record Outside := mkOutside {
  upload_row : option (str * option str);
  handler_config : option V;
  loopback : str → option (Z * option str);
  toolgate : str → list (str * FormPart) → option Z;
}.
Definition success (code : Z) : bool := (200 <=? code)%Z && (code <? 300)%Z.

Definition mime_and_name (out : Outside) (job : HandlerJob V) : str * str :=
  match upload_id job with
  | Some uid => (from_option fst [] (upload_row out), default uid (r ← upload_row out; r.2))
  | None => ([], default [] (s ← source_ref job; l ← last (split_on "/" s); head (split_on "?" l)))
  end.
(** The file of an upload, fetched from the server itself. *)
Definition file_part (out : Outside) (now : Z) (mime uid : str) : result str FormPart :=
  let public := mint_uploads_url hmac b64 url_encode signed_url_base uid key JOB_CALLBACK_TTL_SECS now in
  let local := uploads_local_url public gateway_listen in
  match loopback out local with
  | None => Err (bs "loopback GET " ++ local ++ bs " failed")
  | Some (code, body) =>
      if negb (success code) then Err (bs "loopback upload fetch HTTP " ++ decZ code) else
      match body with
      | None => Err (bs "read upload bytes")
      | Some bytes => Ok (if mime_valid mime then FileField bytes (Some uid) (Some mime) else FileField bytes None None)
      end
  end.
(* @src opex-core/src/agent/file_handler_worker.rs 27-145 dispatch_async_job *)
Definition dispatch_async_job (out : Outside) (now : Z) (job : HandlerJob V) : list Effect * result str () :=
  let url := trim_slashes toolgate_url ++ bs "/handlers/" ++ handler_id job ++ bs "/run" in
  let language := default (bs "ru") (str_field (params job) (bs "language")) in
  let callback_token := mint_job_callback_token hmac hex_encode key (j_id job) JOB_CALLBACK_TTL_SECS now in
  let '(mime, filename) := mime_and_name out job in
  let form := [(bs "mime", TextField (if bool_decide (mime = []) then bs "application/octet-stream" else mime));
               (bs "filename", TextField filename);
               (bs "params", TextField (jprint (params job)));
               (bs "config", TextField (from_option jprint (bs "{}") (handler_config out)));
               (bs "language", TextField language);
               (bs "job_id", TextField (j_id job));
               (bs "callback_token", TextField callback_token)] in
  let source := match upload_id job, source_ref job with
                | Some uid, _ => part ← file_part out now mime uid; Ok [(bs "file", part)]
                | None, Some s => Ok [(bs "source_url", TextField s)]
                | None, None => Ok []
                end in
  match source with
  | Err e => ([], Err e)
  | Ok extra =>
      ([RunnerPost (j_id job) url (form ++ extra)],
       match toolgate out url (form ++ extra) with
       | None => Err (bs "POST " ++ url ++ bs " failed")
       | Some code => if success code then Ok ()
                      else Err (bs "toolgate /handlers/" ++ handler_id job ++ bs "/run HTTP " ++ decZ code)
       end)
  end.

(** The callbacks answer with a status code.  The flags say which statements
    reach the database. *)
(* @src opex-core/src/gateway/handlers/files.rs 651-685 job_progress *)
Definition job_progress (id token ph : str) (pc now : Z) (update_ok get_ok : bool) (db : list (HandlerJob V))
    : list (HandlerJob V) * list Effect * Z :=
  if negb (verify_job_callback_token hmac hex_decode key id token now) then (db, [], 401%Z) else
  if negb update_ok then (db, [], 500%Z) else
  let db := update_handler_job_progress id ph pc now db in
  (db, match get_handler_job id db with
       | Some job => if get_ok then [progress_event job ph pc (bs "processing")] else []
       | None => []
       end, 204%Z).
(* @src opex-core/src/gateway/handlers/files.rs 695-778 job_complete *)
Definition job_complete (id token : str) (o : ScenarioOutcome V) (now : Z) (load_ok mark_ok persisted : bool)
    (fs : Fs) (db : list (HandlerJob V)) : Fs * list (HandlerJob V) * list Effect * Z :=
  if negb (verify_job_callback_token hmac hex_decode key id token now) then (fs, db, [], 401%Z) else
  if negb load_ok then (fs, db, [], 500%Z) else
  match get_handler_job id db with
  | None => (fs, db, [], 404%Z)
  | Some job =>
      if sc_ok (o_status o) then
        let '(db, transitioned) := if mark_ok then mark_handler_job_done id (outcome_json jbool o) now db else (db, false) in
        if negb transitioned then (fs, db, [], 204%Z) else
        let '(fs, ev) := deliver_async_outcome neutralize workspace_dir shared_dirs persisted job o fs in
        (fs, db, ev ++ [progress_event job (bs "done") 100 (bs "done")], 204%Z)
      else
        let why := default (bs "handler failed") (reason o) in
        let '(db, transitioned) := if mark_ok then mark_handler_job_failed id why now db else (db, false) in
        if negb transitioned then (fs, db, [], 204%Z) else
        (fs, db, deliver_async_failure neutralize persisted job why ++ [progress_event job (bs "done") 100 (bs "failed")], 204%Z)
  end.

(** ** The worker and the world *)

(* @src opex-core/src/agent/file_handler_worker.rs 152-152 STALE_PROCESSING_DEADLINE_SECS *)
Definition STALE_PROCESSING_DEADLINE_SECS : Z := 4 * 3600.
(* @src opex-core/src/agent/file_handler_worker.rs 154-154 SWEEP_INTERVAL *)
Definition SWEEP_INTERVAL : Z := 60.
(* @src opex-core/src/agent/file_handler_worker.rs 158-158 MAX_CONCURRENT_RUNNERS *)
Definition MAX_CONCURRENT_RUNNERS : nat := 3.
Definition u_timed_out : str := bs "handler timed out — the background job stopped responding".

(** Where the worker stands: waiting for the tick of its interval, or before
    the statement or request the name says. *)
Inductive Worker :=
| Idle
| Reaping (stale : list (HandlerJob V))
| Counting
| Claiming
| Marking (job : HandlerJob V)
| Dispatching (job : HandlerJob V)
| FailingDispatch (job : HandlerJob V) (e : str).
Record World := mkWorld {
  jobs : list (HandlerJob V);
  files : Fs;
  worker : Worker;
  last_sweep : option Z;
}.
Definition set_jobs db w := mkWorld db (files w) (worker w) (last_sweep w).
Definition set_worker x w := mkWorld (jobs w) (files w) x (last_sweep w).

(** One step of the worker after its tick. *)
(* @src opex-core/src/agent/file_handler_worker.rs 219-297 spawn_file_handler_worker (steps) *)
Definition work (now : Z) (db_ok persisted : bool) (out : Outside) (w : World) : World * list Effect :=
  match worker w with
  | Idle => (w, [])
  | Reaping [] => (set_worker Counting w, [])
  | Reaping (j :: l) =>
      let '(db, ev) := fail_stuck_job_and_notify neutralize db_ok persisted j u_timed_out now (jobs w) in
      (set_worker (Reaping l) (set_jobs db w), ev)
  | Counting =>
      if db_ok && (count_processing_handler_jobs (jobs w) <? MAX_CONCURRENT_RUNNERS)
      then (set_worker Claiming w, []) else (set_worker Idle w, [])
  | Claiming =>
      if negb db_ok then (set_worker Idle w, []) else
      match claim_next_handler_job now (jobs w) with
      | (_, None) => (set_worker Idle w, [])
      | (db, Some j) => (set_worker (Marking j) (set_jobs db w), [])
      end
  | Marking j =>
      (set_worker (Dispatching j)
         (if db_ok then set_jobs (mark_handler_job_processing (j_id j) now (jobs w)) w else w), [])
  | Dispatching j =>
      let '(ev, r) := dispatch_async_job out now j in
      (set_worker (match r with Ok _ => Idle | Err e => FailingDispatch j e end) w, ev)
  | FailingDispatch j e =>
      (set_worker Idle (if db_ok then set_jobs (mark_handler_job_failed (j_id j) e now (jobs w)).1 w else w), [])
  end.
(** The tick of the interval: a sweep that is due lists the stale jobs. *)
(* @src opex-core/src/agent/file_handler_worker.rs 208-243 spawn_file_handler_worker (sweep) *)
Definition tick (now : Z) (db_ok : bool) (w : World) : World :=
  match worker w with
  | Idle =>
      if match last_sweep w with None => true | Some t => (SWEEP_INTERVAL <=? now - t)%Z end then
        mkWorld (jobs w) (files w)
          (if db_ok then Reaping (list_stale_processing_jobs STALE_PROCESSING_DEADLINE_SECS now (jobs w)) else Counting)
          (Some now)
      else set_worker Counting w
  | _ => w
  end.
(** A start of the process: the jobs a crash left behind are recovered. *)
(* @src opex-core/src/agent/file_handler_worker.rs 194-202 spawn_file_handler_worker (recovery) *)
Definition start (now : Z) (db_ok : bool) (w : World) : World :=
  mkWorld (if db_ok then recover_stale_handler_jobs STALE_PROCESSING_DEADLINE_SECS now (jobs w) else jobs w)
    (files w) Idle None.

(** Everything that touches the queue. *)
Inductive Action :=
| AInsert (id : str) (upload source : option str) (handler agent session : str) (ps : V) (now : Z)
| AProgress (id token ph : str) (pc now : Z) (update_ok get_ok : bool)
| AComplete (id token : str) (o : ScenarioOutcome V) (now : Z) (load_ok mark_ok persisted : bool)
| AStart (now : Z) (db_ok : bool)
| ATick (now : Z) (db_ok : bool)
| AWork (now : Z) (db_ok persisted : bool) (out : Outside).
(** The id of an inserted row is the primary key: a second row with it is refused. *)
Definition step (a : Action) (w : World) : World * list Effect :=
  match a with
  | AInsert id up src h ag se ps now =>
      (if existsb (with_id id) (jobs w) then w
       else set_jobs (insert_handler_job id up src h ag se ps now (jobs w)) w, [])
  | AProgress id token ph pc now uo go =>
      let '(db, ev, _) := job_progress id token ph pc now uo go (jobs w) in (set_jobs db w, ev)
  | AComplete id token o now lo mo po =>
      let '(fs, db, ev, _) := job_complete id token o now lo mo po (files w) (jobs w) in
      (mkWorld db fs (worker w) (last_sweep w), ev)
  | AStart now ok => (start now ok w, [])
  | ATick now ok => (tick now ok w, [])
  | AWork now ok po out => work now ok po out w
  end.
Fixpoint run (acts : list Action) (w : World) : World * list Effect :=
  match acts with
  | [] => (w, [])
  | a :: acts => let '(w1, ev) := step a w in let '(w2, ev') := run acts w1 in (w2, ev ++ ev')
  end.
Definition empty_world (fs : Fs) : World := mkWorld [] fs Idle None.
End world.

(** ** Lemmas on the table *)

Section table.
Context {V : Type} `{Json V}.
Implicit Types (db : list (HandlerJob V)) (j : HandlerJob V).

Lemma set_row_id st ph pc res att upd j : j_id (set_row st ph pc res att upd j) = j_id j.
Proof. done. Qed.
Lemma ids_update p f db : (∀ j, j_id (f j) = j_id j) → j_id <$> (update p f db).1 = j_id <$> db.
Proof.
  intros Hf. unfold update. cbn [fst]. rewrite <-list_fmap_compose. apply list_fmap_ext. intros i j _. cbn.
  destruct (p j); [apply Hf|done].
Qed.
Lemma elem_update p f db j : j ∈ (update p f db).1 ↔ ∃ k, k ∈ db ∧ j = if p k then f k else k.
Proof. unfold update. cbn [fst]. rewrite list_elem_of_fmap. naive_solver. Qed.

(** One id counts once. *)
Lemma count_one (p : HandlerJob V → bool) id db :
  NoDup (j_id <$> db) →
  length (List.filter (λ j, p j || with_id id j) db) ≤ S (length (List.filter p db)).
Proof.
  induction db as [|j db IH]; intros Hnd; [cbn; lia|]. cbn in Hnd. apply NoDup_cons in Hnd as [Hj Hnd].
  cbn [List.filter]. specialize (IH Hnd). destruct (decide (j_id j = id)) as [Hid|Hid].
  - assert (length (List.filter (λ j, p j || with_id id j) db) ≤ length (List.filter p db)).
    { apply count_mono. intros k Hk. unfold with_id. case_bool_decide as Hk'; [|by rewrite orb_false_r].
      destruct Hj. rewrite Hid, <-Hk'. by apply list_elem_of_fmap_2. }
    destruct (p j || with_id id j), (p j); cbn [length]; lia.
  - unfold with_id at 1. rewrite bool_decide_eq_false_2, orb_false_r by done.
    destruct (p j); cbn [length]; lia.
Qed.
Lemma find_id id db j : get_handler_job id db = Some j → j ∈ db ∧ j_id j = id.
Proof. intros Hf. apply find_Some_elem in Hf as [Hin Hid]. unfold with_id in Hid. by bool_hyps. Qed.
Lemma find_unique id db j : NoDup (j_id <$> db) → j ∈ db → j_id j = id → get_handler_job id db = Some j.
Proof.
  unfold get_handler_job. induction db as [|k db IH]; intros Hnd Hin Hid; [set_solver|].
  cbn in Hnd. apply NoDup_cons in Hnd as [Hk Hnd]. cbn [List.find]. unfold with_id at 1.
  apply elem_of_cons in Hin as [->|Hin]; [by rewrite bool_decide_eq_true_2|].
  rewrite bool_decide_eq_false_2; [by apply IH|]. intros Hki. destruct Hk. rewrite Hki, <-Hid.
  by apply list_elem_of_fmap_2.
Qed.
Lemma find_update id p f db :
  (∀ j, j_id (f j) = j_id j) →
  get_handler_job id (update p f db).1 = (λ j, if p j then f j else j) <$> get_handler_job id db.
Proof.
  intros Hf. unfold get_handler_job, update. cbn [fst]. induction db as [|j db IH]; [done|].
  cbn [fmap list_fmap List.find]. assert (with_id id (if p j then f j else j) = with_id id j) as ->.
  { unfold with_id. destruct (p j); [by rewrite Hf|done]. }
  destruct (with_id id j); [done|exact IH].
Qed.

(** The oldest queued row. *)
Lemma oldest_queued_Some db j :
  oldest_queued db = Some j →
  j ∈ db ∧ status j = Queued ∧ ∀ k, k ∈ db → status k = Queued → (created_at j <= created_at k)%Z.
Proof.
  revert j. induction db as [|x db IH]; intros j Hj; [done|]. cbn [oldest_queued] in Hj. unfold in_status in Hj.
  case_bool_decide as Hx.
  - destruct (oldest_queued db) as [k|] eqn:Hk.
    + destruct (IH k eq_refl) as (Hin & Hq & Hmin). destruct (Z.ltb_spec (created_at k) (created_at x)); simplify_eq.
      * split_and!; [set_solver|done|]. intros k' [->|Hk']%elem_of_cons Hq'; [lia|by apply Hmin].
      * split_and!; [set_solver|done|]. intros k' [->|Hk']%elem_of_cons Hq'; [lia|]. specialize (Hmin k' Hk' Hq'). lia.
    + simplify_eq. split_and!; [set_solver|done|]. intros k' [->|Hk']%elem_of_cons Hq'; [lia|]. exfalso.
      clear -Hk Hk' Hq'. induction db as [|y db IH]; [set_solver|]. cbn [oldest_queued] in Hk. unfold in_status in Hk.
      apply elem_of_cons in Hk' as [->|Hk']; [rewrite bool_decide_eq_true_2 in Hk by done; by repeat case_match|].
      case_bool_decide; [by repeat case_match|by apply IH].
  - destruct (IH j Hj) as (Hin & Hq & Hmin). split_and!; [set_solver|done|].
    intros k' [->|Hk']%elem_of_cons Hq'; [done|by apply Hmin].
Qed.
Lemma oldest_queued_None db : oldest_queued db = None ↔ ∀ k, k ∈ db → status k ≠ Queued.
Proof.
  induction db as [|x db IH]; [set_solver|]. cbn [oldest_queued]. unfold in_status. case_bool_decide as Hx.
  - split; [by repeat case_match|]. intros Hn. destruct (Hn x); [set_solver|done].
  - rewrite IH. set_solver.
Qed.
(** Ending a job: only a job in processing is ended. *)
Lemma finish_spec st id res now db :
  NoDup (j_id <$> db) →
  (finish st id res now db).2 = true ↔ ∃ j, get_handler_job id db = Some j ∧ status j = Processing.
Proof.
  intros Hnd. cbn. rewrite bool_decide_eq_true. split.
  - intros Hn. destruct (List.filter _ db) as [|j l] eqn:Hf; [done|].
    assert (j ∈ List.filter (λ j, with_id id j && in_status Processing j) db) as Hj by (rewrite Hf; set_solver).
    apply list_elem_of_In, filter_In in Hj as [Hj Hp]. apply list_elem_of_In in Hj.
    unfold with_id, in_status in Hp. bool_hyps. exists j. split; [by apply find_unique|done].
  - intros (j & Hg & Hp). apply find_id in Hg as [Hin Hid].
    assert (j ∈ List.filter (λ j, with_id id j && in_status Processing j) db) as Hj.
    { apply list_elem_of_In, filter_In. split; [by apply list_elem_of_In|]. unfold with_id, in_status.
      by rewrite !bool_decide_eq_true_2. }
    destruct (List.filter _ db); [set_solver|done].
Qed.
Lemma finish_fst st id res now db :
  (finish st id res now db).1 =
  (update (λ j, with_id id j && in_status Processing j) (λ j, set_row st (phase j) (pct j) (Some res) (attempts j) now j) db).1.
Proof. done. Qed.
End table.

(** ** The queue under all interleavings *)

Section theorems.
Context {V : Type} `{Json V, JsonArrays V}.
Context (jbool : bool → V) (neutralize : str → str → str → str) (mime_valid : str → bool).
Context (hmac : str → str → str) (b64 hex_encode : str → str) (hex_decode : str → option str) (url_encode : str → str).
Context (key toolgate_url gateway_listen signed_url_base workspace_dir : str) (shared_dirs : list str).
Abbreviation step := (step jbool neutralize mime_valid hmac b64 hex_encode hex_decode url_encode key toolgate_url
                    gateway_listen signed_url_base workspace_dir shared_dirs).
Abbreviation run := (run jbool neutralize mime_valid hmac b64 hex_encode hex_decode url_encode key toolgate_url
                   gateway_listen signed_url_base workspace_dir shared_dirs).
Abbreviation work := (work neutralize mime_valid hmac b64 hex_encode url_encode key toolgate_url gateway_listen signed_url_base).
Abbreviation job_complete := (job_complete jbool neutralize hmac hex_decode key workspace_dir shared_dirs).
Abbreviation job_progress := (job_progress hmac hex_decode key).
Implicit Types (w : World (V:=V)) (a : Action (V:=V)) (j : HandlerJob V) (db : list (HandlerJob V)).

(** The life of one job: its status and the number of its attempts.
    [pending]: the worker is about to mark it as processing. *)
Inductive job_step (pending : bool) : JobStatus * Z → JobStatus * Z → Prop :=
| js_stay x : job_step pending x x
| js_claim n : job_step pending (Queued, n) (Processing, (n + 1)%Z)
| js_finish n st : terminal st = true → job_step pending (Processing, n) (st, n)
| js_requeue n : (n < 3)%Z → job_step pending (Processing, n) (Queued, n)
| js_revive st n : pending = true → job_step pending (st, n) (Processing, n).
Hint Constructors job_step : core.
Definition life j : JobStatus * Z := (status j, attempts j).
Definition marking w j : bool :=
  match worker w with Marking k => with_id (j_id k) j | _ => false end.

(** One step of the world: rows keep their place, their id and their time of
    creation, and each takes a step of its life; a new row is queued at the
    end. *)
Definition rows_step w w' : Prop :=
  (∃ f, jobs w' = f <$> jobs w ∧
        ∀ j, j ∈ jobs w → j_id (f j) = j_id j ∧ created_at (f j) = created_at j ∧
                          job_step (marking w j) (life j) (life (f j))) ∨
  (∃ j, jobs w' = jobs w ++ [j] ∧ j_id j ∉ j_id <$> jobs w ∧ life j = (Queued, 0%Z)).

Lemma rows_same w w' : jobs w' = jobs w → rows_step w w'.
Proof. intros Hj. left. exists id. rewrite Hj. split; [by rewrite list_fmap_id|]. auto. Qed.
Lemma rows_update w w' p f :
  jobs w' = (update p f (jobs w)).1 →
  (∀ j, j ∈ jobs w → p j = true → j_id (f j) = j_id j ∧ created_at (f j) = created_at j ∧ job_step (marking w j) (life j) (life (f j))) →
  rows_step w w'.
Proof.
  intros Hj Hf. left. exists (λ j, if p j then f j else j). split; [done|]. intros j Hin.
  destruct (p j) eqn:Hp; [by apply Hf|auto].
Qed.
Lemma rows_finish w w' st id res now :
  terminal st = true → jobs w' = (finish st id res now (jobs w)).1 → rows_step w w'.
Proof.
  intros Hst Hw. eapply rows_update; [exact Hw|]. intros j _ Hp. cbn in Hp. unfold in_status in Hp. bool_hyps.
  split_and!; [done..|]. unfold life. cbn. by replace (status j) with Processing by done; auto.
Qed.
Hint Resolve rows_same rows_finish : core.

Lemma jobs_complete id token o now lo mo po fs db :
  ∃ st res, terminal st = true ∧
    ((job_complete id token o now lo mo po fs db).1.1.2 = db ∨
     (job_complete id token o now lo mo po fs db).1.1.2 = (finish st id res now db).1).
Proof.
  unfold Jobs.job_complete. destruct (sc_ok (o_status o)).
  - exists Done, (outcome_json jbool o). split; [done|]. unfold mark_handler_job_done.
    repeat (case_match; simplify_eq; cbn; auto).
  - exists Failed, (failure (default (bs "handler failed") (reason o))). split; [done|]. unfold mark_handler_job_failed.
    repeat (case_match; simplify_eq; cbn; auto).
Qed.

Lemma jobs_progress id token ph pc now uo go db :
  (job_progress id token ph pc now uo go db).1.1 = db ∨
  (job_progress id token ph pc now uo go db).1.1 = update_handler_job_progress id ph pc now db.
Proof. unfold Jobs.job_progress. destruct (negb _); [auto|]. destruct (negb uo); auto. Qed.

Lemma step_rows a w : NoDup (j_id <$> jobs w) → rows_step w (step a w).1.
Proof.
  intros Hnd. destruct a as [id up src h ag se ps now|id token ph pc now uo go|id token o now lo mo po|now ok|now ok|now ok po out]; cbn [Jobs.step].
  - cbn [fst]. destruct (existsb _ _) eqn:Hx; [by apply rows_same|]. right. eexists. split_and!; [done| |done].
    cbn. intros (k & Hk & Hin)%list_elem_of_fmap. apply not_true_iff_false in Hx. apply Hx, existsb_exists.
    exists k. split; [by apply list_elem_of_In|]. unfold with_id. by rewrite bool_decide_eq_true_2.
  - destruct (jobs_progress id token ph pc now uo go (jobs w)) as [Hj|Hj];
      destruct (job_progress _ _ _ _ _ _ _ _) as [[db ev] code]; cbn in Hj |- *; subst db; [by apply rows_same|].
    eapply rows_update; [cbn; reflexivity|]. auto.
  - destruct (jobs_complete id token o now lo mo po (files w) (jobs w)) as (st & res & Hst & Hj).
    destruct (job_complete _ _ _ _ _ _ _ _ _) as [[[fs db] ev] code]. cbn [fst snd] in *. cbn.
    destruct Hj as [->| ->]; eauto.
  - unfold start. destruct ok; [|auto]. eapply rows_update; [done|]. intros j _ Hp. unfold stale, in_status in Hp. bool_hyps.
    unfold life. replace (status j) with Processing by done. destruct (Z.leb_spec 3 (attempts j)); cbn; auto.
  - unfold tick. repeat case_match; auto.
  - unfold Jobs.work. destruct (worker w) as [|[|j l]| | |j|j|j e] eqn:Hw; auto.
    + unfold fail_stuck_job_and_notify. destruct ok; [|auto]. destruct (mark_handler_job_failed _ _ _ _) as [db t] eqn:Hm.
      assert (db = (mark_handler_job_failed (j_id j) u_timed_out now (jobs w)).1) as -> by by rewrite Hm.
      destruct t; eapply (rows_finish _ _ Failed); done.
    + case_match; auto.
    + destruct ok; [|auto]. cbn. unfold claim_next_handler_job. destruct (oldest_queued (jobs w)) as [j|] eqn:Ho; [|auto].
      apply oldest_queued_Some in Ho as (Hin & Hq & _). cbn. eapply rows_update; [done|]. intros k Hk Hp.
      unfold with_id in Hp. bool_hyps. assert (k = j) as ->.
      { eapply (inj Some). by rewrite <-(find_unique (j_id j) (jobs w) k), <-(find_unique (j_id j) (jobs w) j). }
      split_and!; [done..|]. unfold life. rewrite Hq. cbn. auto.
    + destruct ok; [|auto]. eapply rows_update; [done|]. intros k _ Hp. split_and!; [done..|].
      unfold life. cbn. apply js_revive. unfold marking. by rewrite Hw.
    + destruct (dispatch_async_job _ _ _ _ _ _ _ _ _ _) as [ev r]. auto.
    + destruct ok; [by eapply (rows_finish _ _ Failed)|auto].
Qed.

(** Rows that hold a runner: those in processing, and the one the worker is
    about to mark.  While the worker is about to claim, one slot is free. *)
Definition occupied w j : bool := in_status Processing j || marking w j.
Definition slots w : nat := length (List.filter (occupied w) (jobs w)).
Definition slot_limit w : nat := match worker w with Claiming => 2 | _ => MAX_CONCURRENT_RUNNERS end.
Record queue_ok w : Prop := {
  q_ids : NoDup (j_id <$> jobs w);
  q_attempts j : j ∈ jobs w → (0 <= attempts j <= 3)%Z ∧ (status j = Queued → (attempts j <= 2)%Z);
  q_slots : slots w ≤ slot_limit w;
  q_marking k : worker w = Marking k → j_id k ∈ j_id <$> jobs w;
}.

(** A statement that keeps the worker where it is and occupies no further row. *)
Lemma slots_update w db p f :
  db = (update p f (jobs w)).1 → (∀ j, j_id (f j) = j_id j) →
  (∀ j, p j = true → in_status Processing (f j) = true → in_status Processing j = true) →
  slots (set_jobs db w) ≤ slots w.
Proof.
  intros -> Hid Hp. unfold slots. cbn [jobs set_jobs update fst]. apply count_fmap. intros j _.
  unfold occupied, marking. cbn [worker set_jobs]. destruct (p j) eqn:Hpj; [|done]. intros [Ho|Ho]%orb_true_iff;
    apply orb_true_iff; [left; by apply Hp|right]. destruct (worker w); try done.
  unfold with_id in *. by rewrite <-(Hid j).
Qed.
Lemma slots_finish w st id res now :
  terminal st = true → slots (set_jobs (finish st id res now (jobs w)).1 w) ≤ slots w.
Proof.
  intros Hst. eapply slots_update; [reflexivity|done|]. intros j Hp. cbn in Hp. by bool_hyps.
Qed.
Lemma slots_idle w w' : jobs w' = jobs w → (∀ k, worker w' ≠ Marking k) → slots w' ≤ slots w.
Proof.
  intros Hj Hw. unfold slots. rewrite Hj. apply count_mono. intros j _. unfold occupied, marking.
  destruct (worker w') as [| | | |k| |]; rewrite ?orb_false_r; intros Ho; apply orb_true_iff; auto. by destruct (Hw k).
Qed.
Lemma slots_same w db : slot_limit (set_jobs db w) = slot_limit w.
Proof. done. Qed.

Lemma work_slots now ok po out w :
  queue_ok w → slots (work now ok po out w).1 ≤ slot_limit (work now ok po out w).1.
Proof.
  intros [Hnd _ Hs Hm]. unfold Jobs.work.
  destruct (worker w) as [|[|j l]| | |j|j|j e] eqn:Hw; unfold slot_limit in Hs; rewrite Hw in Hs; cbn [fst].
  - unfold slot_limit. by rewrite Hw.
  - etrans; [by apply (slots_idle w)|done].
  - unfold fail_stuck_job_and_notify.
    assert (∀ db, slots (set_jobs db w) ≤ 3 → slots (set_worker (Reaping l) (set_jobs db w)) ≤ 3) as Hr.
    { intros db Hdb. etrans; [by apply (slots_idle (set_jobs db w))|done]. }
    destruct ok; [|by apply Hr]. destruct (mark_handler_job_failed _ _ _ _) as [db t] eqn:Hf.
    pose proof (slots_finish w Failed (j_id j) (failure u_timed_out) now eq_refl) as Hle.
    replace (finish _ _ _ _ _) with (db, t) in Hle by done. destruct t; apply Hr; cbn [fst] in Hle; unfold MAX_CONCURRENT_RUNNERS in Hs; lia.
  - destruct (ok && _) eqn:Hc; cbn [fst]; [|etrans; [by apply (slots_idle w)|done]].
    apply andb_true_iff in Hc as [_ Hc%Nat.ltb_lt]. unfold slot_limit. cbn [worker set_worker].
    assert (slots (set_worker Claiming w) ≤ count_processing_handler_jobs (jobs w)); [|unfold MAX_CONCURRENT_RUNNERS in Hc; lia].
    apply count_mono. intros j _. unfold occupied, marking. cbn. by rewrite orb_false_r.
  - destruct ok; cbn [negb]; [|etrans; [by apply (slots_idle w)|cbn; unfold MAX_CONCURRENT_RUNNERS; lia]].
    unfold claim_next_handler_job. destruct (oldest_queued (jobs w)) as [j|] eqn:Ho; cbn [fst];
      [|etrans; [by apply (slots_idle w)|cbn; unfold MAX_CONCURRENT_RUNNERS; lia]].
    unfold slot_limit. cbn [worker set_worker].
    assert (length (List.filter (in_status Processing) (jobs w)) ≤ 2) as Hp.
    { etrans; [|exact Hs]. apply count_mono. intros k _ Hk. unfold occupied. by rewrite Hk. }
    etrans; [|exact (le_n_S _ _ Hp)]. etrans; [|exact (count_one (in_status Processing) (j_id j) (jobs w) Hnd)].
    unfold slots. cbn [jobs set_worker set_jobs update fst]. apply count_fmap. intros k _. unfold occupied, marking.
    cbn. destruct (with_id (j_id j) k) eqn:Hk; [by rewrite orb_true_r|]. by rewrite Hk.
  - destruct ok; [|etrans; [by apply (slots_idle w)|done]]. etrans; [|exact Hs]. unfold slots.
    cbn [jobs set_worker set_jobs mark_handler_job_processing update fst]. apply count_fmap. intros k _.
    unfold occupied, marking. rewrite Hw. cbn. destruct (with_id (j_id j) k); [by rewrite orb_true_r|done].
  - destruct (dispatch_async_job _ _ _ _ _ _ _ _ _ _) as [ev r]. cbn [fst]. 
    assert (slots (set_worker (match r with Ok _ => Idle | Err e => FailingDispatch j e end) w) ≤ 3).
    { etrans; [apply (slots_idle w); [done|by destruct r]|done]. }
    by destruct r.
  - destruct ok; cbn [fst]; [|etrans; [by apply (slots_idle w)|done]].
    etrans; [by apply (slots_idle (set_jobs (mark_handler_job_failed (j_id j) e now (jobs w)).1 w))|].
    etrans; [by apply (slots_finish w Failed)|done].
Qed.

Lemma slot_limit_le w : slot_limit w ≤ MAX_CONCURRENT_RUNNERS.
Proof. unfold slot_limit, MAX_CONCURRENT_RUNNERS. destruct (worker w); lia. Qed.
Lemma step_slots a w : queue_ok w → slots (step a w).1 ≤ slot_limit (step a w).1.
Proof.
  intros Hok. pose proof Hok as [Hnd _ Hs Hm]. pose proof (slot_limit_le w) as Hlim.
  destruct a as [id up src h ag se ps now|id token ph pc now uo go|id token o now lo mo po|now ok|now ok|now ok po out]; cbn [Jobs.step].
  - cbn [fst]. destruct (existsb _ _) eqn:Hx; [done|]. rewrite slots_same. etrans; [|exact Hs]. unfold slots.
    cbn [jobs set_jobs insert_handler_job]. unfold insert_handler_job. rewrite List.filter_app, length_app.
    cbn [List.filter]. replace (occupied _ _) with false; [cbn; rewrite Nat.add_0_r; by apply count_mono|].
    symmetry. unfold occupied, marking. cbn. destruct (worker w) as [| | | |k| |] eqn:Hw; try done.
    apply not_true_iff_false. unfold with_id, in_status. cbn. intros Hk%bool_decide_eq_true.
    apply not_true_iff_false in Hx. apply Hx, existsb_exists. pose proof (Hm _ eq_refl) as (j & Hj & Hin)%list_elem_of_fmap.
    exists j. split; [by apply list_elem_of_In|]. unfold with_id. apply bool_decide_eq_true_2. cbn in *. congruence.
  - destruct (jobs_progress id token ph pc now uo go (jobs w)) as [Hj|Hj];
      destruct (job_progress _ _ _ _ _ _ _ _) as [[db ev] code]; cbn [fst] in Hj |- *; subst db; rewrite slots_same;
      (etrans; [|exact Hs]); [done|].
    by eapply slots_update.
  - destruct (jobs_complete id token o now lo mo po (files w) (jobs w)) as (st & res & Hst & Hj).
    destruct (job_complete _ _ _ _ _ _ _ _ _) as [[[fs db] ev] code]. cbn [fst snd] in *.
    change (slots (set_jobs db w) ≤ slot_limit w). etrans; [|exact Hs].
    destruct Hj as [->| ->]; [done|]. by apply slots_finish.
  - cbn [fst]. unfold slot_limit. cbn [worker start].
    etrans; [|exact Hlim]. etrans; [|exact Hs]. unfold slots, start. cbn [jobs].
    destruct ok; [|apply count_mono; intros j _; unfold occupied, marking; cbn; rewrite orb_false_r; by intros ->].
    apply count_fmap. intros j _. unfold occupied, marking. cbn. rewrite orb_false_r.
    destruct (stale _ _ _); [destruct (3 <=? attempts j)%Z; done|]. by intros ->.
  - cbn [fst]. unfold tick. destruct (worker w) eqn:Hw; try (unfold slot_limit in *; rewrite Hw in *; exact Hs).
    repeat case_match; (etrans; [by apply (slots_idle w)|]); (etrans; [exact Hs|exact Hlim]).
  - by apply work_slots.
Qed.

Lemma ids_step w w' : rows_step w w' → NoDup (j_id <$> jobs w) →
  NoDup (j_id <$> jobs w') ∧ (j_id <$> jobs w) `sublist_of` (j_id <$> jobs w').
Proof.
  intros [(f & -> & Hf)|(j & -> & Hj & _)] Hnd.
  - replace (j_id <$> (f <$> jobs w)) with (j_id <$> jobs w); [done|].
    rewrite <-list_fmap_compose. apply list_fmap_ext. intros i j Hj%list_elem_of_lookup_2. cbn. by destruct (Hf j Hj) as [-> _].
  - rewrite fmap_app. split; [|by apply sublist_inserts_r].
    apply NoDup_app. split_and!; [done| |cbn; apply NoDup_singleton]. cbn. set_solver.
Qed.
Lemma marking_pending now ok po out w k :
  worker (work now ok po out w).1 = Marking k →
  j_id k ∈ j_id <$> jobs (work now ok po out w).1.
Proof.
  unfold Jobs.work. destruct (worker w) as [|[|j l]| | |j|j|j e] eqn:Hw; cbn [fst]; try congruence; try done.
  - destruct (fail_stuck_job_and_notify _ _ _ _ _ _ _). done.
  - by destruct (ok && _).
  - destruct ok; [|done]. unfold claim_next_handler_job. destruct (oldest_queued (jobs w)) as [j|] eqn:Ho; [|done].
    cbn [negb fst worker set_worker jobs set_jobs]. intros [= <-]. apply oldest_queued_Some in Ho as (Hin & _).
    rewrite (ids_update (with_id (j_id j)) (claimed now)) by done.
    exact (list_elem_of_fmap_2 j_id _ j Hin).
  - destruct (dispatch_async_job _ _ _ _ _ _ _ _ _ _) as [ev [?|?]]; done.
Qed.
Lemma step_marking a w k :
  worker (step a w).1 = Marking k →
  worker w = Marking k ∨ j_id k ∈ j_id <$> jobs (step a w).1.
Proof.
  destruct a; cbn [Jobs.step]; [| | |cbn; done|cbn|intros Hk; right; by apply marking_pending].
  - destruct (existsb _ _); auto.
  - destruct (job_progress _ _ _ _ _ _ _ _) as [[db ev] code]. auto.
  - destruct (job_complete _ _ _ _ _ _ _ _ _) as [[[fs db] ev] code]. auto.
  - unfold tick. destruct (worker w) eqn:Hw; repeat case_match; cbn; intros; left; congruence.
Qed.

Lemma queue_ok_step a w : queue_ok w → queue_ok (step a w).1.
Proof.
  intros Hok. pose proof (step_slots a w Hok) as Hs. destruct Hok as [Hnd Ha _ Hm].
  pose proof (step_rows a w Hnd) as Hr. destruct (ids_step _ _ Hr Hnd) as [Hnd' Hsub]. split; [done| |done|].
  - destruct Hr as [(f & -> & Hf)|(j' & -> & _ & Hl)]; intros j.
    + intros (k & -> & Hk)%list_elem_of_fmap. destruct (Hf k Hk) as (_ & _ & Hst). destruct (Ha k Hk) as [H1 H2].
      unfold life in Hst. inversion Hst as [x| n |n st Ht| n Hn|st n]; subst.
      * by replace (attempts (f k)) with (attempts k) by congruence; replace (status (f k)) with (status k) by congruence.
      * specialize (H2 ltac:(done)). split; [lia|congruence].
      * split; [lia|]. by destruct (status (f k)).
      * split; lia.
      * split; [lia|congruence].
    + intros [Hj|Hj]%elem_of_app; [by apply Ha|]. apply list_elem_of_singleton in Hj as ->.
      unfold life in Hl. split; [|intros _]; injection Hl as ? ?; lia.
  - intros k Hk. destruct (step_marking a w k Hk) as [Hw|]; [|done].
    eapply elem_of_sublist; [exact (Hm k Hw)|exact Hsub].
Qed.
Lemma run_app_inv (P : World (V:=V) → Prop) acts w :
  (∀ a w, P w → P (step a w).1) → P w → P (run acts w).1.
Proof.
  intros Hstep. revert w. induction acts as [|a acts IH]; intros w Hw; [done|]. cbn [Jobs.run].
  specialize (Hstep a w Hw) as Hw1. destruct (step a w) as [w1 ev]. specialize (IH w1 Hw1).
  by destruct (run acts w1) as [w2 ev'].
Qed.
Lemma queue_ok_empty fs : queue_ok (empty_world fs).
Proof. split; [constructor|set_solver|unfold slots; cbn; unfold MAX_CONCURRENT_RUNNERS; lia|done]. Qed.

(** Whatever runners, users, restarts and the worker do in whatever
    order, at most three jobs are in processing, no job is attempted more than
    three times, and a job that waits in the queue has an attempt left. *)
Theorem runners_bounded acts fs :
  let db := jobs (run acts (empty_world fs)).1 in
  count_processing_handler_jobs db ≤ MAX_CONCURRENT_RUNNERS ∧
  ∀ j, j ∈ db → (attempts j <= 3)%Z ∧ (status j = Queued → (attempts j < 3)%Z).
Proof.
  assert (queue_ok (run acts (empty_world fs)).1) as [_ Ha Hs _].
  { apply run_app_inv; [apply queue_ok_step|apply queue_ok_empty]. }
  split.
  - etrans; [|exact (slot_limit_le (run acts (empty_world fs)).1)]. etrans; [|exact Hs]. apply count_mono. intros j _ Hj. unfold occupied. by rewrite Hj.
  - intros j Hj. destruct (Ha j Hj) as [? H2]. split; [lia|]. intros Hq. specialize (H2 Hq). lia.
Qed.

(** ** What the chat is told *)

Definition about (id : str) (e : Effect) : bool :=
  match e with ChatMessage job _ _ _ => bool_decide (job = id) | _ => false end.
Definition messages (id : str) (ev : list Effect) : nat := length (List.filter (about id) ev).
(** 0 when the job has ended, 1 when it can still end. *)
Definition can_end (id : str) db : nat :=
  match get_handler_job id db with Some j => if terminal (status j) then 0 else 1 | None => 1 end.
(** The worker marks a job that ended since it was claimed. *)
Definition revives (id : str) a w : nat :=
  match a, worker w with
  | AWork _ true _ _, Marking k =>
      if bool_decide (j_id k = id) && bool_decide (can_end id (jobs w) = 0) then 1 else 0
  | _, _ => 0
  end.
Fixpoint revivals (id : str) (acts : list Action) w : nat :=
  match acts with [] => 0 | a :: acts => revives id a w + revivals id acts (step a w).1 end.

Lemma messages_app id e f : messages id (e ++ f) = messages id e + messages id f.
Proof. unfold messages. by rewrite List.filter_app, length_app. Qed.
Lemma can_end_update id p f db :
  (∀ j, j_id (f j) = j_id j) →
  (∀ j, j ∈ db → p j = true → terminal (status j) = true → terminal (status (f j)) = true) →
  can_end id (update p f db).1 ≤ can_end id db.
Proof.
  intros Hid Hf. unfold can_end. rewrite find_update by done.
  destruct (get_handler_job id db) as [j|] eqn:Hg; cbn; [|done]. apply find_id in Hg as [Hin _].
  destruct (p j) eqn:Hp; [|done]. specialize (Hf j Hin Hp). destruct (terminal (status j)); [by rewrite Hf|].
  destruct (terminal _); lia.
Qed.
Lemma can_end_finish id st id' res now db :
  NoDup (j_id <$> db) → terminal st = true →
  can_end id (finish st id' res now db).1 + (if (finish st id' res now db).2 && bool_decide (id' = id) then 1 else 0)
    ≤ can_end id db.
Proof.
  intros Hnd Hst. pose proof (finish_spec st id' res now db Hnd) as Ht.
  assert (can_end id (finish st id' res now db).1 ≤ can_end id db) as Hle.
  { apply can_end_update; [done|]. intros j _ _ _. done. }
  destruct (_ && _) eqn:Hb; [|lia]. apply andb_prop in Hb as [Hb Hid]. apply bool_decide_eq_true in Hid as ->.
  apply Ht in Hb as (j & Hg & Hp). unfold can_end. rewrite finish_fst.
  rewrite find_update by done. rewrite Hg. cbn. apply find_id in Hg as [_ Hid].
  replace (with_id id j && in_status Processing j) with true; [cbn; by rewrite Hst, Hp|].
  unfold with_id, in_status. by rewrite !bool_decide_eq_true_2.
Qed.
Lemma messages_failure id po j why now :
  messages id (deliver_async_failure neutralize po j why ++ [progress_event j (bs "done") now (bs "failed")]) ≤
  if bool_decide (j_id j = id) then 1 else 0.
Proof.
  unfold deliver_async_failure. destruct po; [|cbn; lia]. unfold messages. cbn. destruct (bool_decide _); cbn; lia.
Qed.

Lemma complete_messages id id' token o now lo mo po fs db :
  NoDup (j_id <$> db) →
  can_end id (job_complete id' token o now lo mo po fs db).1.1.2 +
    messages id (job_complete id' token o now lo mo po fs db).1.2 ≤ can_end id db.
Proof.
  intros Hnd. unfold Jobs.job_complete. destruct (negb _); [cbn; lia|]. destruct (negb lo); [cbn; lia|].
  destruct (get_handler_job id' db) as [j|] eqn:Hg; [|cbn; lia]. apply find_id in Hg as [_ Hj].
  destruct (sc_ok _).
  - destruct mo; [|cbn; lia]. unfold mark_handler_job_done.
    pose proof (can_end_finish id Done id' (outcome_json jbool o) now db Hnd eq_refl) as Hc.
    destruct (finish _ _ _ _ _) as [db' t]. cbn [fst snd] in Hc. destruct t; cbn [negb]; [|cbn; lia].
    unfold deliver_async_outcome. destruct (run_post_action _ _ _ _) as [fs' saved]. cbn [fst snd].
    rewrite messages_app. etrans; [|exact Hc]. unfold messages. destruct po; cbn; rewrite ?Hj; destruct (bool_decide _); cbn; lia.
  - destruct mo; [|cbn; lia]. unfold mark_handler_job_failed.
    pose proof (can_end_finish id Failed id' (failure (default (bs "handler failed") (reason o))) now db Hnd eq_refl) as Hc.
    destruct (finish _ _ _ _ _) as [db' t]. cbn [fst snd] in Hc. destruct t; cbn [negb]; [|cbn; lia]. cbn [fst snd].
    etrans; [|exact Hc]. apply Nat.add_le_mono_l. etrans; [apply messages_failure|]. by rewrite Hj.
Qed.
Lemma can_end_le id db : can_end id db ≤ 1.
Proof. unfold can_end. repeat case_match; lia. Qed.
Lemma can_end_app id db j : status j = Queued → can_end id (db ++ [j]) ≤ can_end id db.
Proof.
  intros Hq. unfold can_end, get_handler_job. induction db as [|k db IH]; cbn.
  - destruct (with_id id j); [|lia]. rewrite Hq. cbn. lia.
  - destruct (with_id id k); [lia|exact IH].
Qed.
Lemma dispatch_says id out now j :
  messages id (dispatch_async_job mime_valid hmac b64 hex_encode url_encode key toolgate_url gateway_listen signed_url_base out now j).1 = 0.
Proof. unfold dispatch_async_job. repeat case_match; done. Qed.

Lemma work_messages id now ok po out w :
  NoDup (j_id <$> jobs w) →
  can_end id (jobs (work now ok po out w).1) + messages id (work now ok po out w).2 ≤
  can_end id (jobs w) + revives id (AWork now ok po out) w.
Proof.
  intros Hnd. unfold Jobs.work, revives. destruct (worker w) as [|[|j l]| | |j|j|j e]; try (cbn; lia).
  - unfold fail_stuck_job_and_notify. destruct ok; [|cbn; lia]. unfold mark_handler_job_failed.
    pose proof (can_end_finish id Failed (j_id j) (failure u_timed_out) now (jobs w) Hnd eq_refl) as Hc.
    destruct (finish _ _ _ _ _) as [db' t]. cbn [fst snd] in Hc. destruct t; cbn [negb]; [|cbn in *; lia].
    cbn [fst snd jobs set_worker set_jobs]. rewrite Nat.add_0_r. etrans; [|exact Hc]. apply Nat.add_le_mono_l, messages_failure.
  - destruct (ok && _); cbn; lia.
  - destruct ok; cbn [negb]; [|cbn; lia]. unfold claim_next_handler_job.
    destruct (oldest_queued (jobs w)) as [j|] eqn:Ho; [|cbn; lia]. apply oldest_queued_Some in Ho as (Hin & Hq & _).
    cbn [fst snd jobs set_worker set_jobs]. rewrite !Nat.add_0_r. apply can_end_update; [done|]. intros k Hk Hp Ht. exfalso.
    unfold with_id in Hp. bool_hyps. assert (k = j) as ->; [|by rewrite Hq in Ht].
    eapply (inj Some). by rewrite <-(find_unique (j_id j) (jobs w) k), <-(find_unique (j_id j) (jobs w) j).
  - destruct ok; cbn [fst snd jobs set_worker set_jobs]; [|cbn; lia].
    unfold messages. cbn [List.filter length]. rewrite Nat.add_0_r. destruct (_ && _) eqn:Hb.
    + etrans; [apply can_end_le|lia].
    + rewrite Nat.add_0_r. apply andb_false_iff in Hb. destruct (decide (can_end id (jobs w) = 0)) as [Hz|Hz].
      * destruct Hb as [Hb|Hb]; apply bool_decide_eq_false in Hb; [|done]. unfold can_end, mark_handler_job_processing.
        rewrite find_update by done. destruct (get_handler_job id (jobs w)) as [k|] eqn:Hg; cbn; [|done].
        apply find_id in Hg as [_ Hid]. unfold with_id. rewrite bool_decide_eq_false_2 by congruence. lia.
      * pose proof (can_end_le id (jobs w)). etrans; [apply can_end_le|lia].
  - pose proof (dispatch_says id out now j) as Hd. destruct (dispatch_async_job _ _ _ _ _ _ _ _ _ _ _ _) as [ev r].
    cbn [fst snd jobs set_worker] in *. rewrite Hd. lia.
  - destruct ok; cbn [fst snd jobs set_worker set_jobs]; [|cbn; lia]. cbn [messages List.filter length]. unfold messages.
    cbn [List.filter length]. rewrite !Nat.add_0_r. apply can_end_update; done.
Qed.
Lemma step_messages id a w :
  NoDup (j_id <$> jobs w) →
  can_end id (jobs (step a w).1) + messages id (step a w).2 ≤ can_end id (jobs w) + revives id a w.
Proof.
  intros Hnd. destruct a as [i up src h ag se ps now|i token ph pc now uo go|i token o now lo mo po|now ok|now ok|now ok po out];
    cbn [Jobs.step revives]; [| | | | |by apply work_messages].
  - destruct (existsb _ _); cbn; [lia|]. pose proof (can_end_app id (jobs w)
      (mkJob i up src h ag se ps Queued None None None 0 now now) eq_refl). unfold insert_handler_job, messages. cbn. lia.
  - destruct (jobs_progress i token ph pc now uo go (jobs w)) as [Hj|Hj];
      destruct (job_progress _ _ _ _ _ _ _ _) as [[db ev] code] eqn:Hp; cbn [fst snd jobs set_jobs] in *; subst db.
    + assert (messages id ev = 0); [|lia]. unfold Jobs.job_progress in Hp. repeat case_match; by simplify_eq.
    + assert (messages id ev = 0) as ->. { unfold Jobs.job_progress in Hp. repeat case_match; by simplify_eq. }
      rewrite !Nat.add_0_r. apply can_end_update; done.
  - pose proof (complete_messages id i token o now lo mo po (files w) (jobs w) Hnd) as Hc.
    destruct (job_complete _ _ _ _ _ _ _ _ _) as [[[fs db] ev] code]. cbn in *. lia.
  - cbn [fst snd start jobs]. unfold messages. cbn [List.filter length]. rewrite !Nat.add_0_r. destruct ok; [|done].
    apply can_end_update; [intros j; by case_match|]. intros j _ Hp Ht. unfold stale, in_status in Hp. bool_hyps.
    by replace (status j) with Processing in Ht.
  - cbn [fst snd]. unfold tick, messages. cbn [List.filter length]. repeat case_match; cbn [jobs set_worker]; lia.
Qed.

Lemma run_messages id acts w :
  NoDup (j_id <$> jobs w) →
  can_end id (jobs (run acts w).1) + messages id (run acts w).2 ≤ can_end id (jobs w) + revivals id acts w.
Proof.
  revert w. induction acts as [|a acts IH]; intros w Hnd; [cbn; lia|]. cbn [Jobs.run revivals].
  pose proof (step_messages id a w Hnd) as Hs. destruct (ids_step _ _ (step_rows a w Hnd) Hnd) as [Hnd' _].
  destruct (step a w) as [w1 ev]. cbn [fst snd] in *. specialize (IH w1 Hnd').
  destruct (run acts w1) as [w2 ev']. cbn [fst snd] in *. rewrite messages_app. lia.
Qed.

(** C7: The chat hears of the end of a job at most once, however often its
    runners report, time out or are restarted: each further message needs the
    worker to mark as processing a job that ended between its claim and the
    mark. *)
(* @prop safety defs=work,job_complete,fail_stuck_job_and_notify,mark_handler_job_done,mark_handler_job_failed,deliver_async_outcome,deliver_async_failure *)
Theorem told_once id acts fs :
  messages id (run acts (empty_world fs)).2 ≤ 1 + revivals id acts (empty_world fs).
Proof.
  pose proof (run_messages id acts (empty_world fs) ltac:(constructor)) as Hr.
  pose proof (can_end_le id (jobs (empty_world (V:=V) fs))). lia.
Qed.

(** ** The callbacks and the worker, one by one *)

(** A callback without a valid token for its job changes nothing: it is
    answered 401, and a completion that is not the first one for its job is
    answered 204 and leaves table, files and chat as they are. *)
Theorem callbacks_guarded id token now db fs o lo mo po ph pc uo go :
  NoDup (j_id <$> db) →
  (verify_job_callback_token hmac hex_decode key id token now = false →
   job_progress id token ph pc now uo go db = (db, [], 401%Z) ∧
   job_complete id token o now lo mo po fs db = (fs, db, [], 401%Z)) ∧
  (∀ j, get_handler_job id db = Some j → status j ≠ Processing →
   job_complete id token o now lo mo po fs db =
     (fs, db, [], if verify_job_callback_token hmac hex_decode key id token now then if lo then 204%Z else 500%Z else 401%Z)).
Proof.
  intros Hnd. split.
  - intros Hv. unfold Jobs.job_progress, Jobs.job_complete. by rewrite Hv.
  - intros j Hg Hp. unfold Jobs.job_complete. destruct (verify_job_callback_token _ _ _ _ _ _); [|done].
    destruct lo; [|done]. cbn [negb]. rewrite Hg.
    assert (∀ st res, finish st id res now db = (db, false)) as Hf.
    { intros st res. pose proof (finish_spec st id res now db Hnd) as Ht.
      pose proof (finish_fst st id res now db) as H1. destruct (finish st id res now db) as [db' t]. cbn [fst snd] in *.
      assert (t = false) as ->. { apply not_true_iff_false. intros (k & Hk & ?)%Ht. congruence. }
      f_equal. rewrite H1. unfold update. cbn [fst]. rewrite <-(list_fmap_id db) at 2. apply list_fmap_ext. intros i k Hk%list_elem_of_lookup_2.
      destruct (with_id id k && in_status Processing k) eqn:Hw; [|done]. exfalso. unfold with_id, in_status in Hw. bool_hyps.
      rewrite (find_unique id db k) in Hg by done. congruence. }
    destruct (sc_ok _), mo; unfold mark_handler_job_done, mark_handler_job_failed; rewrite ?Hf; done.
Qed.

(** The worker takes the jobs in the order of their creation: a claim
    returns a queued job older than every other queued one, puts it in
    processing with one attempt more, and touches no other row; it returns
    nothing only when nothing is queued. *)
Theorem claim_oldest now db :
  NoDup (j_id <$> db) →
  match claim_next_handler_job now db with
  | (db', Some j') =>
      ∃ i j, db !! i = Some j ∧ status j = Queued ∧ j' = claimed now j ∧ db' = <[i := claimed now j]> db ∧
             (∀ k, k ∈ db → status k = Queued → (created_at j <= created_at k)%Z)
  | (db', None) => db' = db ∧ ∀ k, k ∈ db → status k ≠ Queued
  end.
Proof.
  intros Hnd. unfold claim_next_handler_job. destruct (oldest_queued db) as [j|] eqn:Ho.
  - apply oldest_queued_Some in Ho as (Hin & Hq & Hmin). apply list_elem_of_lookup in Hin as [i Hi].
    exists i, j. split_and!; [done..| |done]. apply list_eq. intros n. unfold update. cbn [fst].
    rewrite list_lookup_fmap. destruct (decide (n = i)) as [->|Hne].
    + rewrite list_lookup_insert_eq by (by eapply lookup_lt_Some). rewrite Hi. cbn. unfold with_id. by rewrite bool_decide_eq_true_2.
    + rewrite list_lookup_insert_ne by done. destruct (db !! n) as [k|] eqn:Hk; [|done]. cbn. unfold with_id.
      rewrite bool_decide_eq_false_2; [done|]. intros Hid. apply Hne.
      eapply NoDup_lookup; [exact Hnd| |]; rewrite list_lookup_fmap; [by rewrite Hk|rewrite Hi; cbn; by rewrite Hid].
  - split; [done|by apply oldest_queued_None].
Qed.

(** The sweep. *)
Definition reaped now j : HandlerJob V :=
  set_row Failed (phase j) (pct j) (Some (failure u_timed_out)) (attempts j) now j.
Definition reap_notice po j : list Effect :=
  deliver_async_failure neutralize po j u_timed_out ++ [progress_event j (bs "done") 100 (bs "failed")].
Lemma reap_list now po out l fs s db :
  NoDup (j_id <$> db) → NoDup (j_id <$> l) → (∀ k, k ∈ l → k ∈ db ∧ status k = Processing) →
  run (replicate (length l) (AWork now true po out)) (mkWorld db fs (Reaping l) s) =
    (mkWorld (update (λ j, bool_decide (j_id j ∈ j_id <$> l)) (reaped now) db).1 fs (Reaping []) s,
     concat (reap_notice po <$> l)).
Proof.
  revert db. induction l as [|j l IH]; intros db Hnd Hl Hk.
  - cbn. f_equal. f_equal. symmetry. rewrite <-(list_fmap_id db) at 2. apply list_fmap_ext. intros i k _.
    rewrite bool_decide_eq_false_2; [done|set_solver].
  - cbn [length replicate Jobs.run Jobs.step Jobs.work worker]. unfold fail_stuck_job_and_notify, mark_handler_job_failed.
    cbn in Hl. apply NoDup_cons in Hl as [Hj Hl]. destruct (Hk j ltac:(set_solver)) as [Hin Hp].
    pose proof (finish_spec Failed (j_id j) (failure u_timed_out) now db Hnd) as Ht.
    pose proof (finish_fst Failed (j_id j) (failure u_timed_out) now db) as H1.
    cbn [jobs] in *. destruct (finish _ _ _ _ _) as [db' t]. cbn [fst snd] in *.
    assert (t = true) as ->. { apply Ht. exists j. split; [by apply find_unique|done]. }
    cbn [negb]. change (set_worker _ _) with (mkWorld db' fs (Reaping l) s). rewrite IH; [|subst db'; by rewrite ids_update|done|].
    + f_equal. f_equal. subst db'. unfold update. cbn [fst]. rewrite <-list_fmap_compose. apply list_fmap_ext.
      intros i k Hk'%list_elem_of_lookup_2. unfold compose, with_id. destruct (decide (j_id k = j_id j)) as [Hid|Hid].
      * assert (k = j) as ->. { eapply (inj Some). by rewrite <-(find_unique (j_id j) db k), <-(find_unique (j_id j) db j). }
        unfold in_status. rewrite !(bool_decide_eq_true_2 (_ = _)) by done. cbn [andb j_id set_row].
        rewrite (bool_decide_eq_false_2 (j_id j ∈ j_id <$> l)) by done. rewrite bool_decide_eq_true_2 by set_solver. done.
      * rewrite (bool_decide_eq_false_2 (j_id k = j_id j)) by done. cbn [andb].
        rewrite (bool_decide_ext (j_id k ∈ j_id <$> j :: l) (j_id k ∈ j_id <$> l)); [done|]. set_solver.
    + intros k Hkl. destruct (Hk k ltac:(set_solver)) as [Hkin Hkp]. split; [|done]. subst db'. apply elem_update.
      exists k. split; [done|]. unfold with_id. rewrite bool_decide_eq_false_2; [done|]. intros Hid. apply Hj. rewrite <-Hid.
      by apply list_elem_of_fmap_2.
Qed.
(** A sweep leaves no stuck job: when it is due and the database answers,
    as many steps of the worker as there are stale jobs fail each of them,
    tell chat and UI about each, and change no other row. *)
Theorem sweep_reaps w now po out :
  NoDup (j_id <$> jobs w) → worker w = Idle → (∀ t, last_sweep w = Some t → (SWEEP_INTERVAL <= now - t)%Z) →
  let is_stale := stale now STALE_PROCESSING_DEADLINE_SECS in
  let l := List.filter is_stale (jobs w) in
  run (replicate (length l) (AWork now true po out)) (tick now true w) =
    (mkWorld ((λ j, if is_stale j then reaped now j else j) <$> jobs w) (files w) (Reaping []) (Some now),
     concat (reap_notice po <$> l)).
Proof.
  intros Hnd Hw Hdue is_stale l. unfold tick. rewrite Hw.
  assert (match last_sweep w with Some t => (SWEEP_INTERVAL <=? now - t)%Z | None => true end = true) as ->.
  { destruct (last_sweep w); [|done]. apply Z.leb_le. by apply Hdue. }
  unfold list_stale_processing_jobs. fold is_stale l.
  assert (∀ k, k ∈ l ↔ k ∈ jobs w ∧ is_stale k = true) as Hl.
  { intros k. unfold l. rewrite !list_elem_of_In. apply filter_In. }
  rewrite reap_list; [|done| |].
  - f_equal. f_equal. apply list_fmap_ext. intros i k Hk%list_elem_of_lookup_2.
    destruct (is_stale k) eqn:Hs; [rewrite bool_decide_eq_true_2; [done|]; apply list_elem_of_fmap_2; by apply Hl|].
    rewrite bool_decide_eq_false_2; [done|]. intros (k' & Hid & [Hk' Hs']%Hl)%list_elem_of_fmap.
    assert (k' = k) as ->; [|congruence].
    eapply (inj Some). by rewrite <-(find_unique (j_id k) (jobs w) k'), <-(find_unique (j_id k) (jobs w) k).
  - unfold l. clear -Hnd. induction (jobs w) as [|k db IH]; [constructor|]. cbn in Hnd |- *. apply NoDup_cons in Hnd as [Hk Hnd].
    destruct (is_stale k); [|by apply IH]. cbn. apply NoDup_cons. split; [|by apply IH].
    intros (j & Hid & [Hin _]%list_elem_of_In%filter_In)%list_elem_of_fmap. apply list_elem_of_In in Hin. apply Hk. rewrite Hid.
    by apply list_elem_of_fmap_2.
  - intros k [Hk Hs]%Hl. split; [done|]. unfold is_stale, stale, in_status in Hs. by bool_hyps.
Qed.

(** The token a runner is handed opens the callbacks of its job, until a
    day after the dispatch and not longer. *)
Theorem runner_can_answer out now j id url form :
  (∀ x, hex_decode (hex_encode x) = Some x) → (0 <= now)%Z → (now + JOB_CALLBACK_TTL_SECS <= umax 64)%Z →
  RunnerPost id url form ∈ (dispatch_async_job mime_valid hmac b64 hex_encode url_encode key toolgate_url gateway_listen
                              signed_url_base out now j).1 →
  id = j_id j ∧ ∃ token, (bs "callback_token", TextField token) ∈ form ∧
    ∀ later, verify_job_callback_token hmac hex_decode key id token later = (later <=? now + JOB_CALLBACK_TTL_SECS)%Z.
Proof.
  intros Hhex Hn Hu Hin.
  assert (id = j_id j ∧ (bs "callback_token",
    TextField (mint_job_callback_token hmac hex_encode key (j_id j) JOB_CALLBACK_TTL_SECS now)) ∈ form) as [-> Hf].
  { unfold dispatch_async_job in Hin. destruct (mime_and_name out j) as [mime filename].
    destruct (match upload_id j with Some _ => _ | None => _ end) as [extra|]; cbn [fst] in Hin; [|set_solver].
    apply list_elem_of_singleton in Hin. 
    apply (f_equal (λ e, match e with RunnerPost a _ c => (a, c) | _ => (id, form) end)) in Hin.
    cbn beta iota in Hin. apply pair_equal_spec in Hin as [-> ->]. split; [done|].
    apply elem_of_app. left. do 6 apply list_elem_of_further. apply list_elem_of_here. }
  split; [done|]. eexists. split; [exact Hf|]. intros later.
  destruct (minted_verifies hmac id Some hex_encode hex_decode id key JOB_CALLBACK_TTL_SECS now later)
    as (_ & Ht & _); [done|done|done|done|done|]. apply Ht.
Qed.
End theorems.

(** ** Where notes go *)

Lemma safe_component name :
  is_safe_path_component name = true → path_of name = mkPath false [Normal name].
Proof.
  unfold is_safe_path_component. intros Hs. bool_hyps.
  assert ("/"%char ∉ name) as Hslash.
  { intros Hin. assert (safe_char "/"%char = true) as Hc by (by apply (proj1 (forallb_elem safe_char name))).
    vm_compute in Hc. done. }
  unfold path_of. rewrite bool_decide_eq_false_2 by set_solver. rewrite split_on_nosep by done.
  destruct (starts_with (bs "/") name) eqn:Hw.
  { apply starts_with_spec in Hw as [r ->]. set_solver. }
  cbn [parts_of]. destruct name as [|c name]; [set_solver|]. cbn [app].
  rewrite !bool_decide_eq_false_2 by set_solver. done.
Qed.

Lemma parents_components p : existsb is_parent (components p) = existsb is_parent (normals (p_parts p)).
Proof. unfold components. destruct (p_parts p) as [|[n| |] cs]; try done. destruct (p_abs p); done. Qed.
(** [q] lies under [p]. *)
Definition under (p q : Path) (rest : list Comp) : Prop :=
  p_abs q = true ∧ components q = components p ++ rest.
Lemma under_join p q rest r :
  under p q rest → p_abs r = false → under p (join_path q r) (rest ++ normals (p_parts r)).
Proof.
  intros [Ha Hc] Hr. destruct (components_join q r Hr (or_intror Ha)) as [H1 H2].
  split; [by rewrite H2|]. by rewrite H1, Hc, (assoc_L (++)).
Qed.
Lemma under_starts p q rest : p_abs p = true → under p q rest → path_starts_with q p = true.
Proof.
  intros Hp [Hq Hc]. unfold path_starts_with, strip_path. rewrite bool_decide_eq_true_2 by congruence.
  by rewrite Hc, (proj2 (strip_comps_app _ _ _) eq_refl).
Qed.

Section notes.
Context {V : Type} `{Json V}.
(** A note a runner asks for is one file with a harmless name, right
    under the directory chosen for it; no step of its path climbs up unless
    the operator's own paths do, and it stays inside the workspace unless the
    directory it was given is absolute. *)
Theorem note_lands root shared (o : ScenarioOutcome V) d p content :
  p_abs root = true → p_abs (path_of (default (bs "storage") (head shared))) = false →
  note_of root shared o = Some (d, p, content) →
  (∃ name, is_safe_path_component name = true ∧ components p = components d ++ [Normal name]) ∧
  (existsb is_parent (components root ++ normals (p_parts (path_of (default (bs "storage") (head shared))))) = false →
   existsb is_parent (components p) = false) ∧
  (path_starts_with p root = true ∨
   ∃ action dir, post_action o = Some action ∧ str_field action (bs "dir") = Some dir ∧ d = path_of (trim dir) ∧ p_abs d = true).
Proof.
  set (vault := path_of _). intros Hroot Hvault. unfold note_of. destruct (post_action o) as [action|] eqn:Ha; [|done].
  cbn [mbind option_bind]. destruct (jis_null action); [done|]. destruct (negb (bool_decide (_ ∈ [bs "write_file"; _]))); [done|].
  destruct (negb (is_safe_path_component _)) eqn:Hname; [done|]. apply negb_false_iff in Hname.
  set (filename := default (bs "note.md") _) in *. set (subfolder := default (bs "Summary") _).
  destruct (resolve_note_dir _ _ _ _) as [d'|] eqn:Hd; [|done]. cbn [mbind option_bind]. intros Hn.
  injection Hn as -> <- <-. rewrite (safe_component filename Hname).
  assert (under root root []) as Hr0 by (split; [done|by rewrite app_nil_r]).
  assert (p_abs d = true ∧
    (existsb is_parent (components root ++ normals (p_parts vault)) = false → existsb is_parent (components d) = false) ∧
    ((∃ rest, under root d rest) ∨ ∃ dir, str_field action (bs "dir") = Some dir ∧ d = path_of (trim dir))) as (Hda & Hdp & Hdu).
  { unfold resolve_note_dir in Hd. destruct (negb _) eqn:Hdir.
    - set (p := path_of _) in Hd. destruct (existsb is_parent (components p)) eqn:Hpar; [done|].
      destruct (p_abs p) eqn:Hpa; injection Hd as <-.
      + split_and!; [done|done|]. right. destruct (str_field action (bs "dir")) as [dir|]; [by exists dir|done].
      + destruct (under_join root root [] p Hr0 Hpa) as [Hja Hjc]. split_and!; [done| |left; by eexists].
        rewrite existsb_app. intros [Hpr _]%orb_false_elim. rewrite parents_components in Hpar.
        rewrite Hjc, existsb_app, Hpr. exact Hpar.
    - destruct (negb (is_safe_path_component subfolder)) eqn:Hsub; [done|]. apply negb_false_iff in Hsub.
      apply (inj Some) in Hd as <-. rewrite (safe_component subfolder Hsub). fold vault.
      pose proof (under_join root _ _ (mkPath false [Normal subfolder]) (under_join root root [] vault Hr0 Hvault) eq_refl) as Hju.
      destruct Hju as [Hja Hjc] eqn:E. split_and!; [done| |left; by eexists].
      intros Hp. rewrite Hjc. cbn [app normals]. rewrite (assoc_L (++)), existsb_app, Hp. done. }
  destruct (components_join d (mkPath false [Normal filename]) eq_refl (or_intror Hda)) as [Hpc Hpa].
  split_and!.
  - by exists filename.
  - intros Hp. rewrite Hpc, existsb_app, Hdp by done. done.
  - destruct Hdu as [[rest Hu]|(dir & Hdir & Hd')]; [left|right; by exists action, dir].
    eapply (under_starts root _ _ Hroot). by apply under_join.
Qed.
End notes.

(** ** Witnesses and examples *)

Module JobsWitness.
Definition neutral : str → str → str → str := λ _ _ s, s.
Definition mac : str → str → str := λ _ m, m.
Definition no_fs : Fs := mkFs [] ∅.
Definition out (code : option Z) : Outside (V:=Jv.t) := mkOutside None None (λ _, None) (λ _ _, code).
Abbreviation go := (run Jv.Bool neutral (λ _, true) mac id id Some id (bs "k") (bs "http://tg") (bs "0.0.0.0:1") [] (bs "workspace") []).
Abbreviation finish_job := (Jobs.job_complete Jv.Bool neutral mac Some (bs "k") (bs "workspace") []).
Definition token (id : str) : str := mint_job_callback_token mac (λ x, x) (bs "k") id 1000 0.
Definition insert (id : str) (now : Z) : Action :=
  AInsert id None (Some (bs "https://v/x")) (bs "sum") (bs "A") (bs "S") (Jv.Obj []) now.
Definition ok_outcome : ScenarioOutcome Jv.t := mkOutcome ScOk (bs "text") [] None false None.
Definition tick_and_work (now : Z) (code : option Z) (n : nat) : list Action :=
  ATick now true :: replicate n (AWork now true true (out code)).
Definition row (id : str) (st : JobStatus) (att created updated : Z) : HandlerJob Jv.t :=
  mkJob id None None (bs "sum") (bs "A") (bs "S") (Jv.Obj []) st None None None att created updated.
Definition status_in (id : str) (w : World (V:=Jv.t)) : option JobStatus := status <$> get_handler_job id (jobs w).

(** A job whose hand-over fails is failed without a word to the chat. *)
Example dispatch_failure_is_silent :
  let '(w, ev) := go (insert (bs "a") 0 :: tick_and_work 5 (Some 500%Z) 6) (empty_world no_fs) in
  status_in (bs "a") w = Some Failed ∧ messages (bs "a") ev = 0 ∧
  List.filter (λ e, match e with UiEvent _ _ _ _ _ _ => true | _ => false end) ev = [].
Proof. by vm_compute. Qed.

(** A completion whose update fails is answered as if it had been recorded. *)
Example outcome_lost :
  finish_job (bs "a") (token (bs "a")) ok_outcome 10 true false true no_fs [row (bs "a") Processing 1 0 5] =
  (no_fs, [row (bs "a") Processing 1 0 5], [], 204%Z).
Proof. by vm_compute. Qed.

(** A job requeued after a crash, whose old runner reports between the claim
    and the mark of the worker: it runs again and the chat hears of it twice. *)
Example finished_job_revived :
  let acts := [AStart 20000 true; ATick 20000 true; AWork 20000 true true (out (Some 202%Z));
               AWork 20000 true true (out (Some 202%Z)); AWork 20000 true true (out (Some 202%Z));
               AComplete (bs "a") (bs "30000." ++ job_payload (bs "a") 30000) ok_outcome 20000 true true true;
               AWork 20000 true true (out (Some 202%Z)); AWork 20000 true true (out (Some 202%Z));
               AComplete (bs "a") (bs "30000." ++ job_payload (bs "a") 30000) ok_outcome 20001 true true true] in
  messages (bs "a") (go acts (mkWorld [row (bs "a") Processing 1 0 5] no_fs Idle None)).2 = 2.
Proof. by vm_compute. Qed.

(** Progress posted after the end is announced as work in progress. *)
Example late_progress :
  (job_progress mac Some (bs "k") (bs "a") (token (bs "a")) (bs "stt") 50 10 true true [row (bs "a") Failed 1 0 5]).1.2 =
  [UiEvent (bs "a") (bs "sum") (bs "S") (bs "stt") 50 (bs "processing")].
Proof. by vm_compute. Qed.

(** A job given up at the start of the process is failed without a word. *)
Example given_up_silently :
  let '(w, ev) := go [AStart 20000 true] (mkWorld [row (bs "a") Processing 3 0 5] no_fs Idle None) in
  status_in (bs "a") w = Some Failed ∧ ev = [].
Proof. by vm_compute. Qed.

Lemma nodup_one (j : HandlerJob Jv.t) : NoDup (j_id <$> [j]).
Proof. apply NoDup_singleton. Qed.

Lemma callbacks_guarded_witness :
  job_progress mac Some (bs "k") (bs "a") (bs "x") (bs "stt") 50 10 true true [row (bs "a") Done 1 0 5] =
    ([row (bs "a") Done 1 0 5], [], 401%Z) ∧
  finish_job (bs "a") (token (bs "a")) ok_outcome 10 true true true no_fs [row (bs "a") Done 1 0 5] =
    (no_fs, [row (bs "a") Done 1 0 5], [], 204%Z).
Proof.
  split.
  - destruct (callbacks_guarded Jv.Bool neutral mac Some (bs "k") (bs "workspace") [] (bs "a") (bs "x") 10
      [row (bs "a") Done 1 0 5] no_fs ok_outcome true true true (bs "stt") 50 true true (nodup_one _)) as [H _].
    exact (proj1 (H eq_refl)).
  - destruct (callbacks_guarded Jv.Bool neutral mac Some (bs "k") (bs "workspace") [] (bs "a") (token (bs "a")) 10
      [row (bs "a") Done 1 0 5] no_fs ok_outcome true true true (bs "stt") 50 true true (nodup_one _)) as [_ H].
    exact (H (row (bs "a") Done 1 0 5) eq_refl (ltac:(discriminate))).
Defined.

Lemma claim_oldest_witness :
  ∃ db', claim_next_handler_job 7 [row (bs "a") Queued 0 3 3; row (bs "b") Queued 1 2 2] = (db', Some (row (bs "b") Processing 2 2 7)) ∧
  db' = [row (bs "a") Queued 0 3 3; row (bs "b") Processing 2 2 7].
Proof.
  assert (NoDup (j_id <$> [row (bs "a") Queued 0 3 3; row (bs "b") Queued 1 2 2])) as Hnd by by vm_compute; apply (bool_decide_unpack _).
  pose proof (claim_oldest 7 _ Hnd) as H. cbv -[row] in H. eexists. split; [reflexivity|]. reflexivity.
Defined.

Lemma sweep_reaps_witness :
  NoDup (j_id <$> [row (bs "a") Processing 1 0 5]) ∧
  ∃ ev, go (replicate 1 (AWork 20000 true true (out None)))
         (tick 20000 true (mkWorld [row (bs "a") Processing 1 0 5] no_fs Idle None)) =
       (mkWorld [reaped 20000 (row (bs "a") Processing 1 0 5)] no_fs (Reaping []) (Some 20000%Z), ev).
Proof.
  split; [apply nodup_one|]. eexists.
  exact (sweep_reaps Jv.Bool neutral (λ _, true) mac id id Some id (bs "k") (bs "http://tg") (bs "0.0.0.0:1") [] (bs "workspace") []
    (mkWorld [row (bs "a") Processing 1 0 5] no_fs Idle None) 20000 true (out None) (nodup_one _) eq_refl
    (λ t H, ltac:(discriminate H))).
Defined.

Definition url_job : HandlerJob Jv.t :=
  mkJob (bs "a") None (Some (bs "https://v/x")) (bs "sum") (bs "A") (bs "S") (Jv.Obj []) Processing None None None 1 0 5.
Lemma runner_can_answer_witness :
  ∃ token, verify_job_callback_token mac Some (bs "k") (bs "a") token 86400 = true.
Proof.
  destruct (dispatch_async_job (λ _, true) mac id id id (bs "k") (bs "http://tg") (bs "0.0.0.0:1") [] (out None) 0 url_job) as [ev r] eqn:Hd.
  assert (∃ url form, ev = [RunnerPost (bs "a") url form]) as (url & form & Hev).
  { apply (f_equal fst) in Hd. cbn [fst] in Hd. rewrite <-Hd. eexists _, _. reflexivity. }
  destruct (runner_can_answer (λ _, true) mac id id Some id (bs "k") (bs "http://tg") (bs "0.0.0.0:1") [] (out None) 0 url_job
    (bs "a") url form (λ x, eq_refl) ltac:(lia) ltac:(vm_compute; discriminate)) as [_ (token & _ & Ht)].
  { rewrite Hd, Hev. apply list_elem_of_here. }
  exists token. rewrite Ht. reflexivity.
Defined.

Definition note_outcome : ScenarioOutcome Jv.t :=
  mkOutcome ScOk (bs "text") [] None false
    (Some (Jv.Obj [(bs "kind", Jv.Str (bs "write_file")); (bs "filename", Jv.Str (bs "n.md"))])).
Lemma note_lands_witness :
  ∃ d p c name, note_of (path_of (bs "/w")) [] note_outcome = Some (d, p, c) ∧ components p = components d ++ [Normal name].
Proof.
  destruct (note_of (path_of (bs "/w")) [] note_outcome) as [[[d p] c]|] eqn:Hn; [|vm_compute in Hn; discriminate].
  destruct (note_lands (path_of (bs "/w")) [] note_outcome d p c eq_refl eq_refl Hn) as [(name & _ & Hc) _].
  by exists d, p, c, name.
Defined.
End JobsWitness.
