(* ===== verification/FileHandlers.v ===== *)
(** * File handlers

    The handlers the toolgate service offers ([agent/handler_registry.rs]),
    the operator's allowlist ([agent/fse]), and the ways to start one: the
    buttons of a menu, on the web and on a channel, and the [file_handler]
    tool of the model ([gateway/handlers/files.rs],
    [agent/tool_handlers/file_handler.rs]).  A started handler is a job of
    [Jobs] or runs at once.

    Hash maps are association lists.  Times are seconds. *)
From Stdlib Require Import Sorted.
From S2P Require Import Prelude Text Json Files Ssrf Budget Uploads Jobs.

(** ** The allowlist *)

(* @src opex-core/src/agent/fse/allowlist.rs 17-17 FSE_DEFAULT_ALLOWLIST *)
Definition FSE_DEFAULT_ALLOWLIST : list str :=
  [bs "transcribe"; bs "describe"; bs "extract_document"; bs "save"; bs "summarize_video"].
(* @src opex-core/src/agent/fse/allowlist.rs 45-47 is_constant_member *)
Definition is_constant_member (name : str) : bool := bool_decide (name ∈ FSE_DEFAULT_ALLOWLIST).
(* @src opex-core/src/agent/fse/allowlist.rs 58-60 is_allowed_for_autorun *)
Definition is_allowed_for_autorun (action_ref : str) (enabled : list str) : bool :=
  is_constant_member action_ref && bool_decide (action_ref ∈ enabled).
(* @src opex-core/src/agent/fse/allowlist.rs 69-76 validate_allowlist_toggle *)
Fixpoint validate_allowlist_toggle (members : list str) : result str () :=
  match members with
  | [] => Ok ()
  | m :: members => if negb (is_constant_member m) then Err m else validate_allowlist_toggle members
  end.
(** The members a stored list enables; without one, all of them. *)
(* @src opex-core/src/agent/fse/allowlist_store.rs 47-56 get_enabled_allowlist (stored list) *)
Definition enabled_of (stored : option (list str)) : list str :=
  match stored with
  | Some l => List.filter is_constant_member l
  | None => FSE_DEFAULT_ALLOWLIST
  end.
(* @src opex-core/src/agent/fse/allowlist_store.rs 20-20 ALLOWLIST_CACHE_TTL *)
Definition ALLOWLIST_CACHE_TTL : Z := 30.
(** The cache: when it was filled and with what.  The stored list is read on a
    miss only. *)
Definition AllowCache : Type := option (Z * list str).
(* @src opex-core/src/agent/fse/allowlist_store.rs 35-65 get_enabled_allowlist *)
Definition get_enabled_allowlist (now : Z) (stored : option (list str)) (cache : AllowCache) : list str * AllowCache :=
  match cache with
  | Some (at_, l) =>
      if (now - at_ <? ALLOWLIST_CACHE_TTL)%Z then (l, cache)
      else let l := enabled_of stored in (l, Some (now, l))
  | None => let l := enabled_of stored in (l, Some (now, l))
  end.
(** The checked writer: the stored list after it, and the cache. *)
(* @src opex-core/src/agent/fse/allowlist_store.rs 122-131 set_enabled_allowlist_checked *)
Definition set_enabled_allowlist_checked (members : list str) (db_ok : bool) (stored : option (list str)) (cache : AllowCache)
    : result str () * option (list str) * AllowCache :=
  match validate_allowlist_toggle members with
  | Err m => (Err m, stored, cache)
  | Ok _ => if db_ok then (Ok (), Some members, None) else (Err (bs "database"), stored, cache)
  end.

(** ** Manifests *)

Section handlers.
Context {V : Type} `{Json V, JsonArrays V}.
Context (to_lowercase : str → str) (parse_url : str → option Url).

(* @src opex-core/src/agent/handler_registry.rs 18-25 HandlerMatch *)
Record HandlerMatch := mkMatch { m_mime : list str; m_domains : list str; max_size_mb : option Z }.
(* @src opex-core/src/agent/handler_registry.rs 71-75 CommandOverride *)
Record CommandOverride := mkOverride { c_name : str; c_aliases : list str }.
(** Fields no code reads ([capability], [provider], [output], [source]) are left out. *)
(* @src opex-core/src/agent/handler_registry.rs 31-65 HandlerManifest *)
Record HandlerManifest := mkManifest {
  m_id : str;
  labels : list (str * str);
  descriptions : list (str * str);
  icon : str;
  match_ : HandlerMatch;
  execution : str;
  m_params : V;
  m_config : V;
  m_order : Z;
  tier : str;
  command : option CommandOverride;
}.
(* @src opex-core/src/agent/handler_registry.rs 79-84 HandlerButton *)
Record HandlerButton := mkButton { b_id : str; b_label : str; b_icon : str; b_params : V }.

Definition get_text (k : str) (l : list (str * str)) : option str := snd <$> List.find (λ kv, bool_decide (kv.1 = k)) l.
Definition strip_suffix (p s : str) : option str := if ends_with p s then Some (take (length s - length p) s) else None.
(* @src opex-core/src/agent/handler_registry.rs 93-101 mime_glob_matches *)
Definition mime_glob_matches (pattern mime : str) : bool :=
  if bool_decide (pattern = bs "*") || bool_decide (pattern = bs "*/*") then true
  else match strip_suffix (bs "/*") pattern with
       | Some prefix => bool_decide (head (split_on "/" mime) = Some prefix)
       | None => eq_ignore_case pattern mime
       end.
(* @src opex-core/src/agent/handler_registry.rs 104-110 localize *)
Definition localize (m : HandlerManifest) (lang : str) : str :=
  match get_text lang (labels m) with
  | Some l => l
  | None => default (m_id m) (get_text (bs "en") (labels m))
  end.
Definition is_async (m : HandlerManifest) : bool := bool_decide (execution m = bs "async").
(** Built-in handlers need the allowlist; the authors of the others are trusted. *)
Definition trusted (enabled : list str) (m : HandlerManifest) : bool :=
  if bool_decide (tier m = bs "builtin") then is_allowed_for_autorun (m_id m) enabled else true.
Definition fits (mime : str) (size : Z) (m : HandlerManifest) : bool :=
  existsb (λ p, mime_glob_matches p mime) (m_mime (match_ m)) &&
  match max_size_mb (match_ m) with Some cap => (size <=? sat_mul 64 cap (1024 * 1024))%Z | None => true end.
(** By [order], then by id. *)
Definition before (a b : HandlerManifest) : bool :=
  (m_order a <? m_order b)%Z || ((m_order a =? m_order b)%Z && negb (str_leb (m_id b) (m_id a))).
Definition button_of (lang : str) (m : HandlerManifest) : HandlerButton :=
  mkButton (m_id m) (localize m lang) (icon m) (m_params m).
(* @src opex-core/src/agent/handler_registry.rs 116-152 match_buttons *)
Definition match_buttons (manifests : list HandlerManifest) (mime : str) (size : Z) (enabled : list str) (lang : str)
    : list HandlerButton :=
  button_of lang <$> sort_by before (List.filter (λ m, fits mime size m && trusted enabled m) manifests).
(* @src opex-core/src/agent/handler_registry.rs 165-171 retain_async_handlers *)
Definition retain_async_handlers (manifests : list HandlerManifest) (buttons : list HandlerButton) : list HandlerButton :=
  List.filter (λ b, existsb (λ m, bool_decide (m_id m = b_id b) && is_async m) manifests) buttons.
(* @src opex-core/src/agent/handler_registry.rs 180-194 domain_matches *)
Definition domain_matches (pattern host : str) : bool :=
  if bool_decide (pattern = bs "*") then true else
  let p := to_lowercase pattern in
  let h := to_lowercase host in
  if bool_decide (p = h) then true else ends_with (bs "." ++ p) h.
Definition fits_host (host : str) (m : HandlerManifest) : bool :=
  negb (bool_decide (m_domains (match_ m) = [])) &&
  (is_async m && existsb (λ d, domain_matches d host) (m_domains (match_ m))).
(* @src opex-core/src/agent/handler_registry.rs 199-242 match_url_handlers *)
Definition match_url_handlers (manifests : list HandlerManifest) (url : str) (enabled : list str) (lang : str)
    : list HandlerButton :=
  match (u ← parse_url url; host_str u) with
  | None => []
  | Some host =>
      button_of lang <$> sort_by before (List.filter (λ m, fits_host host m && trusted enabled m) manifests)
  end.

(** ** The registry *)

(* @src opex-core/src/agent/handler_registry.rs 248-251 HandlerCache *)
Record HandlerCache := mkHandlers { manifests : list HandlerManifest; etag : option str }.
(** The answer of the toolgate: nothing, or a status with the [ETag] header
    and the body if it can be read (manifests and etag). *)
Definition HandlersAnswer : Type := option (Z * option str * option (list HandlerManifest * option str)).
(* @src opex-core/src/agent/handler_registry.rs 282-318 refresh *)
Definition refresh (toolgate : option str → HandlersAnswer) (c : HandlerCache) : HandlerCache :=
  match toolgate (etag c) with
  | None => c
  | Some (code, header_etag, body) =>
      if (code =? 304)%Z then c else
      if negb (success code) then c else
      match body with
      | Some (ms, tag) => mkHandlers ms (match header_etag with Some t => Some t | None => tag end)
      | None => c
      end
  end.
End handlers.
Arguments HandlerManifest : clear implicits.
Arguments HandlerButton : clear implicits.
Arguments HandlerCache : clear implicits.

(** ** A handler run at once *)

Section sync.
Context {V : Type} `{Json V, JsonArrays V}.
Context (hmac : str → str → str) (b64 url_encode : str → str) (mime_valid : str → bool).
Context (key toolgate_url gateway_listen signed_url_base : str) (signed_url_ttl_secs : Z).

(** The upload, its media type, size and name, and what the handler is told. *)
(* @src opex-core/src/agent/file_handler_sync.rs 57-68 SyncRunRequest *)
Record SyncRunRequest := mkSync {
  q_upload : str; q_handler : str; q_mime : str; q_size : Z; q_language : str; q_params : V; q_filename : str }.
(** Answers over HTTP: an error, or a status with what reading the body gives. *)
Definition Http (A : Type) : Type := result str (Z * result str A).
(* @src opex-core/src/agent/file_handler_sync.rs 87-190 run_sync_handler_inline *)
Definition run_sync_handler_inline (loopback : str → Http str) (config : option V)
    (post : str → list (str * FormPart) → Http (ScenarioOutcome V)) (now : Z) (q : SyncRunRequest) : ScenarioOutcome V :=
  let web_url := mint_uploads_url hmac b64 url_encode signed_url_base (q_upload q) key signed_url_ttl_secs now in
  match loopback (uploads_local_url web_url gateway_listen) with
  | Err e => outcome_failed (bs "upload fetch error: " ++ e)
  | Ok (code, body) =>
      if negb (success code) then outcome_failed (bs "upload fetch failed: HTTP " ++ decZ code) else
      match body with
      | Err e => outcome_failed (bs "upload read error: " ++ e)
      | Ok bytes =>
          let url := trim_slashes toolgate_url ++ bs "/handlers/" ++ q_handler q ++ bs "/run" in
          let file := if mime_valid (q_mime q) then FileField bytes (Some (q_filename q)) (Some (q_mime q))
                      else FileField bytes None None in
          let form := [(bs "file", file);
                       (bs "mime", TextField (q_mime q)); (bs "filename", TextField (q_filename q));
                       (bs "size", TextField (decZ (q_size q))); (bs "params", TextField (jprint (q_params q)));
                       (bs "config", TextField (from_option jprint (bs "{}") config));
                       (bs "language", TextField (q_language q))] in
          match post url form with
          | Err e => outcome_failed (bs "toolgate request error: " ++ e)
          | Ok (code, answer) =>
              if negb (success code) then outcome_failed (bs "toolgate HTTP " ++ decZ code) else
              match answer with Ok o => o | Err e => outcome_failed (bs "toolgate bad JSON: " ++ e) end
          end
      end
  end.
End sync.

(** ** Starting a handler *)

Section menus.
Context {V : Type} `{Json V, JsonArrays V, JsonEntries V}.
Context (to_lowercase : str → str) (parse_url : str → option Url) (parse_uuid : str → option str).
Context (neutralize : str → str → str → str).

(** A row of [uploads]. *)
Record UploadRow := mkUpload {
  u_owner_type : str;
  u_expires : option Z;
  u_mime : str;
  u_size : Z;
  u_filename : option str;
}.
(** What the code reads: who owns a session, the uploads, the manifests and
    the allowlist at this moment; and the outcome of a handler run at once on
    an upload, which is [run_sync_handler_inline]'s. *)
Record Site := mkSite {
  session_owner : str → option str;
  uploads : gmap str UploadRow;
  offered : list (HandlerManifest V);
  allowed : list str;
  inline_run : str → str → V → ScenarioOutcome V;
}.
Definition alive (now : Z) (u : UploadRow) : bool :=
  match u_expires u with None => true | Some t => (now <? t)%Z end.
(* @src opex-core/src/db/uploads.rs 119-140 get_by_id *)
Definition get_by_id (s : Site) (now : Z) (id : str) : option UploadRow :=
  u ← uploads s !! id; if alive now u then Some u else None.

(** A refusal, a job, or the outcome of a handler run at once. *)
Inductive Response :=
| Refused (code : Z) (error : str)
| Started (job_id : str)
| Ran (o : ScenarioOutcome V).

(* @src opex-core/src/gateway/handlers/files.rs 543-547 UploadMeta *)
Record UploadMeta := mkMeta { mime : str; size : Z; filename : option str }.
(* @src opex-core/src/gateway/handlers/files.rs 553-610 assert_upload_accessible *)
Definition assert_upload_accessible (s : Site) (now : Z) (id : str) : result (Z * str) UploadMeta :=
  match get_by_id s now id with
  | None => Err (404%Z, bs "upload not found")
  | Some u =>
      if bool_decide (u_owner_type u ∈ [bs "client_upload"; bs "tool_output"])
      then Ok (mkMeta (u_mime u) (Z.max (u_size u) 0) (u_filename u))
      else Err (403%Z, bs "upload not accessible")
  end.
(* @src opex-core/src/gateway/handlers/files.rs 96-104 merge_job_params *)
Definition merge_job_params (lang : str) (extra : V) : V :=
  let base := jinsert (bs "language") (jstring lang) jempty in
  if jis_object extra then jmerge base extra else base.

(** What a start leaves behind: a job in the queue, and a chat message of an
    outcome that came at once. *)
Record Desk := mkDesk { d_jobs : list (HandlerJob V); d_chat : list (str * str * str) }.
Definition add_job (fresh : str) (upload source : option str) (handler agent session : str) (ps : V) (now : Z) (d : Desk) : Desk :=
  mkDesk (insert_handler_job fresh upload source handler agent session ps now (d_jobs d)) (d_chat d).
Definition non_empty (s : option str) : option str := t ← s; if bool_decide (t = []) then None else Some t.
Definition manifest_async (s : Site) (id : str) : bool :=
  from_option is_async true (List.find (λ m, bool_decide (m_id m = id)) (offered s)).

(** The buttons of a source: an URL or an upload. *)
Definition menu_buttons (s : Site) (now : Z) (source : option str) (upload : option str) (lang : str)
    : result (Z * str) (list (HandlerButton V) * option str) :=
  match source, upload with
  | Some url, _ => Ok (match_url_handlers to_lowercase parse_url (offered s) url (allowed s) lang, None)
  | None, Some uid =>
      meta ← assert_upload_accessible s now uid;
      Ok (match_buttons (offered s) (mime meta) (size meta) (allowed s) lang, Some uid)
  | None, None => Err (400%Z, bs "provide source_url or upload_id")
  end.
Definition offers (id : str) (buttons : list (HandlerButton V)) : bool :=
  existsb (λ b, bool_decide (b_id b = id)) buttons.
Definition timed_out_outcome (handler : str) : ScenarioOutcome V :=
  let secs := if bool_decide (handler ∈ [bs "transcribe"; bs "summarize_video"]) then 180 else 60 in
  outcome_failed (bs "sync file handler timed out (" ++ dec secs ++ bs "s)").
(** [fresh] is the id the database generates for a job. *)
(* @src opex-core/src/gateway/handlers/files.rs 114-316 menu_run_core *)
Definition menu_run_core (s : Site) (now : Z) (fresh : str) (db_ok persisted in_time : bool) (source_url upload_req : option str)
    (session agent handler : str) (extra : V) (d : Desk) : Desk * Response :=
  if negb (bool_decide (session_owner s session = Some agent))
  then (d, Refused 403 (bs "session does not belong to this agent")) else
  let source := non_empty source_url in
  match menu_buttons s now source upload_req (bs "ru") with
  | Err (code, e) => (d, Refused code e)
  | Ok (buttons, upload) =>
      if negb (offers handler buttons) then (d, Refused 403 (bs "handler not available for this source")) else
      let ps := merge_job_params (bs "ru") extra in
      if manifest_async s handler then
        if db_ok then (add_job fresh upload source handler agent session ps now d, Started fresh)
        else (d, Refused 500 (bs "database"))
      else
        match upload with
        | None => (d, Refused 400 (bs "sync handler requires an upload_id"))
        | Some uid =>
            match assert_upload_accessible s now uid with
            | Err (code, e) => (d, Refused code e)
            | Ok meta =>
                let o := if in_time then inline_run s uid handler ps else timed_out_outcome handler in
                let d := if sc_ok (o_status o) && persisted
                         then mkDesk (d_jobs d) (d_chat d ++ [(session, agent, wrap_file_output neutralize handler uid (summary_text o))])
                         else d in
                (d, Ran o)
            end
        end
  end.

(** ** Menus on a channel *)

(** Tokens of the menus that were sent, with what the menu is about. *)
Definition MenuCtx : Type := gmap str (V * Z).
(* @src opex-core/src/gateway/handlers/files.rs 356-366 store_menu_ctx *)
Definition store_menu_ctx (token : str) (ps : V) (now : Z) (m : MenuCtx) : MenuCtx :=
  <[token := (ps, now)]> (filter (λ kv, (now - kv.2.2 < 1800)%Z) m).
Definition uuid_field (o : V) (k : str) : option str := s ← str_field o k; parse_uuid s.
(** The chat a menu was bound to must be the one the callback comes from. *)
Definition bound_elsewhere (ps : V) (chat_id : option V) (eqb : V → V → bool) : bool :=
  match jget ps (bs "_chat_id") with
  | None => false
  | Some stored => negb (from_option (eqb stored) false chat_id)
  end.
(* @src opex-core/src/gateway/handlers/files.rs 379-438 run_menu_token_handler *)
Definition run_menu_token_handler (s : Site) (now : Z) (fresh : str) (db_ok persisted in_time : bool) (eqb : V → V → bool)
    (m : MenuCtx) (token handler : str) (chat_id : option V) (d : Desk) : Desk * Response :=
  match fst <$> m !! token with
  | None => (d, Refused 404 (bs "menu expired or unknown"))
  | Some ps =>
      if bound_elsewhere ps chat_id eqb then (d, Refused 403 (bs "callback chat does not match the menu")) else
      match uuid_field ps (bs "session_id") with
      | None => (d, Refused 400 (bs "stored menu missing session"))
      | Some session =>
          menu_run_core s now fresh db_ok persisted in_time (str_field ps (bs "source_url")) (uuid_field ps (bs "upload_id"))
            session (default [] (str_field ps (bs "agent"))) handler jempty d
      end
  end.
(* @src opex-core/src/gateway/handlers/files.rs 459-537 command_menu_run *)
Definition command_menu_run (s : Site) (now : Z) (fresh : str) (db_ok persisted in_time : bool) (eqb : V → V → bool)
    (m : MenuCtx) (token value : str) (chat_id : option V) (d : Desk) : Desk * Response :=
  match fst <$> m !! token with
  | None => (d, Refused 400 (bs "expired or unknown token"))
  | Some ps =>
      if bound_elsewhere ps chat_id eqb then (d, Refused 403 (bs "callback chat does not match the menu")) else
      let choices := omap jas_str (default [] (c ← jget ps (bs "choices"); jas_array c)) in
      if negb (bool_decide (value ∈ choices)) then (d, Refused 400 (bs "invalid choice")) else
      match uuid_field ps (bs "session_id") with
      | None => (d, Refused 400 (bs "stored menu missing session"))
      | Some session =>
          menu_run_core s now fresh db_ok persisted in_time (str_field ps (bs "source_url")) (uuid_field ps (bs "upload_id"))
            session (default [] (str_field ps (bs "agent"))) (default [] (str_field ps (bs "handler_id")))
            (jinsert (default [] (str_field ps (bs "valve"))) (jstring value) jempty) d
      end
  end.

(** ** The tool of the model *)

(** What the tool says: an error, the menu of the source, or that a handler
    was started or ran. *)
Inductive ToolAnswer :=
| TErr (text : str)
| TMenu (buttons : list (HandlerButton V))
| TStarted (job_id : str)
| TRan (o : ScenarioOutcome V).
Definition tool_buttons (s : Site) (now : Z) (args : V) (lang : str)
    : result str (list (HandlerButton V) * option str * option str) :=
  match non_empty (str_field args (bs "source_url")), non_empty (str_field args (bs "upload_id")) with
  | Some url, _ => Ok (match_url_handlers to_lowercase parse_url (offered s) url (allowed s) lang, None, Some url)
  | None, Some uid =>
      uuid ← ok_or (bs "Error: upload_id is not a valid UUID") (parse_uuid uid);
      u ← ok_or (bs "Error: upload " ++ uid ++ bs " not found") (get_by_id s now uuid);
      Ok (match_buttons (offered s) (u_mime u) (Z.max (u_size u) 0) (allowed s) lang, Some uuid, None)
  | None, None => Err (bs "Error: provide either source_url or upload_id")
  end.
Definition u_ran (handler : str) (o : ScenarioOutcome V) : str :=
  if sc_ok (o_status o) then u_done ++ handler ++ bs "."
  else u_failed ++ handler ++ bs ")." ++ [LF] ++ default (bs "handler failed") (reason o).
(* @src opex-core/src/agent/tool_handlers/file_handler.rs 38-281 handle_file_handler *)
Definition handle_file_handler (s : Site) (now : Z) (fresh : str) (db_ok persisted : bool) (agent lang : str)
    (session : option str) (args : V) (d : Desk) : Desk * ToolAnswer :=
  match tool_buttons s now args lang with
  | Err e => (d, TErr e)
  | Ok (buttons, upload, source) =>
      let action := default [] (str_field args (bs "action")) in
      if bool_decide (action = bs "list") then
        (d, if bool_decide (buttons = []) then TErr (bs "No handlers are available for this source.") else TMenu buttons)
      else if bool_decide (action = bs "run") then
        let handler := default [] (str_field args (bs "handler_id")) in
        if bool_decide (handler = []) then (d, TErr (bs "Error: handler_id is required for action=run")) else
        if negb (offers handler buttons)
        then (d, TErr (bs "Error: handler '" ++ handler ++ bs "' is not available for this source (choose one from action=list)")) else
        match session with
        | None => (d, TErr (bs "Error: no session to attach the job to"))
        | Some session =>
            let base := jinsert (bs "language") (jstring lang) jempty in
            let ps := match jget args (bs "args") with
                      | Some extra => if jis_object extra then jmerge base extra else base
                      | None => base
                      end in
            if manifest_async s handler then
              if db_ok then (add_job fresh upload source handler agent session ps now d, TStarted fresh)
              else (d, TErr (bs "Error: failed to enqueue handler job: database"))
            else
              match upload with
              | None => (d, TErr (bs "Error: sync handler requires an upload_id (URL sources must use an async handler)"))
              | Some uid =>
                  match get_by_id s now uid with
                  | None => (d, TErr (bs "Error: upload " ++ uid ++ bs " not found"))
                  | Some _ =>
                      let o := inline_run s uid handler ps in
                      let content := u_ran handler o ++ [LF; LF] ++ wrap_file_output neutralize handler uid (summary_text o) in
                      (if persisted then mkDesk (d_jobs d) (d_chat d ++ [(session, agent, content)]) else d, TRan o)
                  end
              end
        end
      else (d, TErr (bs "Error: action must be " ++ quoted "list" ++ bs " or " ++ quoted "run"))
  end.
End menus.

(** ** What is offered *)

Section offers.
Context {V : Type} `{Json V, JsonArrays V, JsonEntries V}.
Context (to_lowercase : str → str) (parse_url : str → option Url) (parse_uuid : str → option str).
Context (neutralize : str → str → str → str).
Implicit Types (m : HandlerManifest V) (s : Site (V:=V)) (d : Desk (V:=V)).

Lemma before_spec a b :
  before (V:=V) a b = true ↔ (m_order a < m_order b)%Z ∨ m_order a = m_order b ∧ str_leb (m_id b) (m_id a) = false.
Proof.
  unfold before. rewrite orb_true_iff, andb_true_iff, Z.ltb_lt, Z.eqb_eq, negb_true_iff. done.
Qed.
Lemma before_false a b :
  before (V:=V) a b = false ↔ (m_order b < m_order a)%Z ∨ m_order a = m_order b ∧ str_leb (m_id b) (m_id a) = true.
Proof.
  rewrite <-not_true_iff_false, before_spec, <-not_true_iff_false.
  destruct (str_leb (m_id b) (m_id a)) eqn:E; [|split; [intros Hn|]; lia || naive_solver lia].
  split; [intros Hn|intros [|[? _]] [|[_ Hn]]; lia || done].
  destruct (Z.lt_trichotomy (m_order a) (m_order b)) as [?|[?|?]]; [destruct Hn; by left|by right|by left].
Qed.
Lemma ranked (l : list (HandlerManifest V)) :
  StronglySorted (λ a b, (m_order a < m_order b)%Z ∨ m_order a = m_order b ∧ str_leb (m_id a) (m_id b) = true) (sort_by before l).
Proof.
  assert (StronglySorted (λ x y, before (V:=V) y x = false) (sort_by before l)) as Hs.
  { apply sort_by_sorted.
    - intros x y [Hxy|[Ho Hxy]]%before_spec; apply before_false; [by left|]. right. split; [done|].
      destruct (str_leb_total (m_id x) (m_id y)) as [|Ht]; [done|congruence].
    - intros x y z Hxy Hyz. apply before_false in Hxy, Hyz. apply before_false.
      destruct Hxy as [|[? Hxy]], Hyz as [|[? Hyz]]; try (left; lia). right. split; [lia|]. by eapply str_leb_trans. }
  induction Hs as [|x l' Hs IH Hx]; constructor; [done|]. eapply List.Forall_impl; [|exact Hx].
  intros y Hy. apply before_false in Hy as [|[? ?]]; [by left|by right].
Qed.

(** The menu of a source offers exactly the handlers that fit it and are
    trusted, each under its own id, by rank and then by id. *)
Theorem menu_spec (ms : list (HandlerManifest V)) mime size url enabled lang :
  let ranked l := StronglySorted (λ a b, (m_order a < m_order b)%Z ∨ m_order a = m_order b ∧ str_leb (m_id a) (m_id b) = true) l in
  (∃ l, match_buttons ms mime size enabled lang = button_of lang <$> l ∧ ranked l ∧
        l ≡ₚ List.filter (λ m, fits mime size m && trusted enabled m) ms) ∧
  (∀ u host, parse_url url = Some u → host_str u = Some host →
     ∃ l, match_url_handlers to_lowercase parse_url ms url enabled lang = button_of lang <$> l ∧ ranked l ∧
          l ≡ₚ List.filter (λ m, fits_host to_lowercase host m && trusted enabled m) ms).
Proof.
  split.
  - eexists. split_and!; [done|apply ranked|apply sort_by_perm].
  - intros u host Hu Hh. unfold match_url_handlers. rewrite Hu. cbn [mbind option_bind]. rewrite Hh.
    eexists. split_and!; [done|apply ranked|apply sort_by_perm].
Qed.

Lemma offers_matched id lang (p : HandlerManifest V → bool) ms :
  offers id (button_of lang <$> sort_by before (List.filter p ms)) = true → ∃ m, m ∈ ms ∧ m_id m = id ∧ p m = true.
Proof.
  unfold offers. intros (b & (m & -> & Hm)%list_elem_of_fmap & Hb)%existsb_elem. rewrite sort_by_perm in Hm.
  apply list_elem_of_In, filter_In in Hm as [Hin Hp]. exists m. split_and!; [by apply list_elem_of_In| |done].
  cbn in Hb. by apply bool_decide_eq_true in Hb.
Qed.

(** A job that may be started: its handler was offered for its source. *)
Definition legitimate s (now : Z) (j : HandlerJob V) : Prop :=
  ∃ m, m ∈ offered s ∧ m_id m = handler_id j ∧ trusted (allowed s) m = true ∧
    match source_ref j with
    | Some url => upload_id j = None ∧ ∃ u host, parse_url url = Some u ∧ host_str u = Some host ∧ fits_host to_lowercase host m = true
    | None => ∃ uid u, upload_id j = Some uid ∧ get_by_id s now uid = Some u ∧ fits (u_mime u) (Z.max (u_size u) 0) m = true
    end.
Definition queued_only s now (ok : HandlerJob V → Prop) d d' : Prop :=
  d_jobs d' = d_jobs d ∨ ∃ j, d_jobs d' = d_jobs d ++ [j] ∧ status j = Queued ∧ legitimate s now j ∧ ok j.

Lemma url_offer s now url handler lang (j : HandlerJob V) :
  offers handler (match_url_handlers to_lowercase parse_url (offered s) url (allowed s) lang) = true →
  handler_id j = handler → source_ref j = Some url → upload_id j = None → legitimate s now j.
Proof.
  unfold match_url_handlers. destruct (parse_url url) as [u|] eqn:Hu; [|done]. cbn [mbind option_bind].
  destruct (host_str u) as [host|] eqn:Hh; [|done].
  intros (m & Hin & Hid & Hp)%offers_matched Hj Hs Hup. apply andb_prop in Hp as [Hf Ht].
  exists m. rewrite Hs, Hj. split_and!; [done..|]. by exists u, host.
Qed.
Lemma upload_offer s now uid u handler lang (j : HandlerJob V) :
  get_by_id s now uid = Some u →
  offers handler (match_buttons (offered s) (u_mime u) (Z.max (u_size u) 0) (allowed s) lang) = true →
  handler_id j = handler → source_ref j = None → upload_id j = Some uid → legitimate s now j.
Proof.
  intros Hu (m & Hin & Hid & Hp)%offers_matched Hj Hs Hup. apply andb_prop in Hp as [Hf Ht].
  exists m. rewrite Hs, Hj. split_and!; [done..|]. by exists uid, u.
Qed.
Lemma accessible s now uid meta :
  assert_upload_accessible s now uid = Ok meta →
  ∃ u, get_by_id s now uid = Some u ∧ mime meta = u_mime u ∧ size meta = Z.max (u_size u) 0 ∧
       u_owner_type u ∈ [bs "client_upload"; bs "tool_output"].
Proof.
  unfold assert_upload_accessible. destruct (get_by_id s now uid) as [u|]; [|done].
  case_bool_decide as Ho; [|done]. intros [= <-]. by exists u.
Qed.
(** What the buttons of a menu say about a handler among them. *)
Lemma menu_offer s now source upload buttons up handler (j : HandlerJob V) :
  menu_buttons to_lowercase parse_url s now source upload (bs "ru") = Ok (buttons, up) →
  offers handler buttons = true →
  handler_id j = handler → source_ref j = source → upload_id j = up →
  legitimate s now j ∧
  (∀ uid, upload_id j = Some uid → ∃ u, get_by_id s now uid = Some u ∧ u_owner_type u ∈ [bs "client_upload"; bs "tool_output"]).
Proof.
  unfold menu_buttons. destruct source as [url|]; [|destruct upload as [uid|]; [|done]].
  - intros [= <- <-] Ho Hj Hs Hup. split; [by eapply url_offer|]. rewrite Hup. done.
  - destruct (assert_upload_accessible s now uid) as [meta|[code e]] eqn:Ha; [|done]. cbn [mbind result_bind].
    intros Hb. injection Hb as <- <-. apply accessible in Ha as (u & Hu & Hm & Hsz & Hown). rewrite Hm, Hsz.
    intros Ho Hj Hs Hup. split; [by eapply upload_offer|]. intros uid'. rewrite Hup. intros [= <-]. by exists u.
Qed.

Lemma core_queues s now fresh db_ok po it source upload session agent handler extra d :
  queued_only s now (λ j, session_owner s (session_id j) = Some (agent_name j) ∧
      ∀ uid, upload_id j = Some uid → ∃ u, get_by_id s now uid = Some u ∧ u_owner_type u ∈ [bs "client_upload"; bs "tool_output"])
    d (menu_run_core to_lowercase parse_url neutralize s now fresh db_ok po it source upload session agent handler extra d).1.
Proof.
  unfold menu_run_core, queued_only. destruct (negb _) eqn:Hown; [by left|]. apply negb_false_iff, bool_decide_eq_true in Hown.
  destruct (menu_buttons _ _ _ _ _ _ _) as [[buttons up]|[code e]] eqn:Hb; [|by left].
  destruct (offers handler buttons) eqn:Ho; [|by left]. cbn [negb]. destruct (manifest_async s handler).
  - destruct db_ok; [|by left]. right. eexists. split_and!; [done|done| |done|].
    + by eapply menu_offer.
    + by eapply menu_offer.
  - destruct up as [uid|]; [|by left]. destruct (assert_upload_accessible s now uid) as [meta|[code e]]; [|by left].
    cbn [fst]. left. by destruct (_ && po).
Qed.
Lemma tool_queues s now fresh db_ok po agent lang session args d :
  queued_only s now (λ j, Some (session_id j) = session ∧ agent_name j = agent) d
    (handle_file_handler to_lowercase parse_url parse_uuid neutralize s now fresh db_ok po agent lang session args d).1.
Proof.
  unfold handle_file_handler, queued_only. destruct (tool_buttons _ _ _ _ _ _ _) as [[[buttons up] src]|e] eqn:Hb; [|by left].
  case_bool_decide; [by left|]. case_bool_decide; [|by left]. case_bool_decide; [by left|].
  destruct (offers _ buttons) eqn:Ho; [|by left]. cbn [negb]. destruct session as [session|]; [|by left].
  destruct (manifest_async s _).
  - destruct db_ok; [|by left]. right. eexists. split_and!; [done|done| |done|done].
    unfold tool_buttons in Hb. destruct (non_empty (str_field args (bs "source_url"))) as [url|].
    + injection Hb as <- <- <-. by eapply url_offer.
    + destruct (non_empty _) as [uid|]; [|done]. destruct (parse_uuid uid) as [uuid|]; [|done]. cbn [ok_or mbind result_bind] in Hb.
      destruct (get_by_id s now uuid) as [u|] eqn:Hu; [|done]. cbn [ok_or mbind result_bind] in Hb. injection Hb as <- <- <-.
      by eapply upload_offer.
  - destruct up as [uid|]; [|by left]. destruct (get_by_id s now uid); [|by left]. left. by destruct po.
Qed.

(** C8: No handler is queued that was not offered: a click on a menu, on the
    web or on a channel, a choice completed, and the tool of the model each
    queue at most one job, for a handler that fits its source and is trusted
    (a built-in one is in the operator's allowlist and in the constant); the
    clicks only for a session of the agent and an upload of a user or a tool. *)
(* @prop safety defs=menu_run_core,run_menu_token_handler,command_menu_run,handle_file_handler,match_buttons,match_url_handlers *)
Theorem only_offered_run s now fresh db_ok po it d :
  let owned := λ j, session_owner s (session_id j) = Some (agent_name j) ∧
      ∀ uid, upload_id j = Some uid → ∃ u, get_by_id s now uid = Some u ∧ u_owner_type u ∈ [bs "client_upload"; bs "tool_output"] in
  (∀ source upload session agent handler extra,
     queued_only s now owned d
       (menu_run_core to_lowercase parse_url neutralize s now fresh db_ok po it source upload session agent handler extra d).1) ∧
  (∀ eqb (m : MenuCtx) token handler chat,
     queued_only s now owned d
       (run_menu_token_handler to_lowercase parse_url parse_uuid neutralize s now fresh db_ok po it eqb m token handler chat d).1) ∧
  (∀ eqb (m : MenuCtx) token value chat,
     queued_only s now owned d
       (command_menu_run to_lowercase parse_url parse_uuid neutralize s now fresh db_ok po it eqb m token value chat d).1) ∧
  (∀ agent lang session args,
     queued_only s now (λ j, Some (session_id j) = session ∧ agent_name j = agent) d
       (handle_file_handler to_lowercase parse_url parse_uuid neutralize s now fresh db_ok po agent lang session args d).1).
Proof.
  split_and!; [intros; apply core_queues| | |intros; apply tool_queues].
  - intros eqb m token handler chat. unfold run_menu_token_handler. destruct (fst <$> m !! token) as [ps|]; [|by left].
    destruct (bound_elsewhere _ _ _); [by left|]. destruct (uuid_field _ _ _); [apply core_queues|by left].
  - intros eqb m token value chat. unfold command_menu_run. destruct (fst <$> m !! token) as [ps|]; [|by left].
    destruct (bound_elsewhere _ _ _); [by left|]. destruct (negb _); [by left|].
    destruct (uuid_field _ _ _); [apply core_queues|by left].
Qed.

(** A menu sent to a chat works for that chat only: a callback for an
    unknown token, from another chat, or with a value that was not among the
    choices starts nothing. *)
Theorem menu_bound s now fresh db_ok po it eqb (m : MenuCtx) token handler value chat d d1 r1 d2 r2 :
  run_menu_token_handler to_lowercase parse_url parse_uuid neutralize s now fresh db_ok po it eqb m token handler chat d = (d1, r1) →
  command_menu_run to_lowercase parse_url parse_uuid neutralize s now fresh db_ok po it eqb m token value chat d = (d2, r2) →
  d1 ≠ d ∨ d2 ≠ d →
  ∃ ps sent, m !! token = Some (ps, sent) ∧
    (∀ stored, jget ps (bs "_chat_id") = Some stored → ∃ c, chat = Some c ∧ eqb stored c = true) ∧
    (d2 ≠ d → ∃ c l v, jget ps (bs "choices") = Some c ∧ jas_array c = Some l ∧ v ∈ l ∧ jas_str v = Some value).
Proof.
  unfold run_menu_token_handler, command_menu_run. destruct (m !! token) as [[ps sent]|]; cbn [fmap option_fmap option_map fst];
    [|intros [= <- <-] [= <- <-] [?|?]; done].
  unfold bound_elsewhere. intros Hr1 Hr2 Hd. exists ps, sent. split; [done|].
  assert (∀ stored, jget ps (bs "_chat_id") = Some stored → ∃ c, chat = Some c ∧ eqb stored c = true) as Hc.
  { intros stored Hs. rewrite Hs in Hr1, Hr2. destruct chat as [c|]; cbn in Hr1, Hr2.
    - destruct (eqb stored c) eqn:He; [by exists c|]. cbn in Hr1, Hr2. simplify_eq. by destruct Hd.
    - simplify_eq. by destruct Hd. }
  split; [exact Hc|]. intros Hd2.
  destruct (match jget ps (bs "_chat_id") with Some _ => _ | None => _ end); [by simplify_eq|].
  destruct (negb (bool_decide (value ∈ _))) eqn:Hv; [by simplify_eq|]. apply negb_false_iff, bool_decide_eq_true in Hv.
  apply list_elem_of_omap in Hv as (v & Hv & Hs). destruct (jget ps (bs "choices")) as [c|]; [|set_solver].
  cbn [mbind option_bind] in Hv. destruct (jas_array c) as [l|] eqn:Hl; [|set_solver]. by exists c, l, v.
Qed.
End offers.

(** ** The allowlist never grows *)

(** Reads and writes of the list, by operators and by menus. *)
Inductive AllowOp := ARead (now : Z) | AWrite (members : list str) (db_ok : bool).
Fixpoint allow_run (ops : list AllowOp) (stored : option (list str)) (cache : AllowCache) : list (list str) :=
  match ops with
  | [] => []
  | ARead now :: ops => let '(l, cache) := get_enabled_allowlist now stored cache in l :: allow_run ops stored cache
  | AWrite members ok :: ops => let '(_, stored, cache) := set_enabled_allowlist_checked members ok stored cache in allow_run ops stored cache
  end.
(** Whatever is written or lies in the database, a handler outside the
    constant is never enabled; and a list that was written is what the next
    read returns. *)
Theorem toggle_never_admits ops stored :
  Forall (λ l, ∀ x, x ∈ l → x ∈ FSE_DEFAULT_ALLOWLIST) (allow_run ops stored None) ∧
  ∀ members ok stored' cache' cache,
    set_enabled_allowlist_checked members ok stored cache = (Ok (), stored', cache') →
    ∀ now, (get_enabled_allowlist now stored' cache').1 = members.
Proof.
  assert (∀ st x, x ∈ enabled_of st → x ∈ FSE_DEFAULT_ALLOWLIST) as He.
  { intros [l|] x; [|done]. cbn. intros [_ Hx]%list_elem_of_In%filter_In. unfold is_constant_member in Hx. by bool_hyps. }
  split.
  - assert (∀ cache, (∀ t l, cache = Some (t, l) → ∀ x, x ∈ l → x ∈ FSE_DEFAULT_ALLOWLIST) →
      Forall (λ l, ∀ x, x ∈ l → x ∈ FSE_DEFAULT_ALLOWLIST) (allow_run ops stored cache)) as Hr; [|by apply Hr].
    revert stored. induction ops as [|[now|members ok] ops IH]; intros stored cache Hc; [constructor| |]; cbn.
    + unfold get_enabled_allowlist. destruct cache as [[t l]|]; [destruct (_ <? _)%Z|]; constructor; eauto; apply IH; naive_solver.
    + unfold set_enabled_allowlist_checked. destruct (validate_allowlist_toggle members); [|by apply IH].
      destruct ok; [|by apply IH]. by apply IH.
  - intros members ok stored' cache' cache. unfold set_enabled_allowlist_checked.
    destruct (validate_allowlist_toggle members) as [[]|] eqn:Hv; [|done]. destruct ok; [|done]. intros [= <- <-] now. cbn.
    induction members as [|x l IH]; [done|]. cbn in Hv |- *. destruct (is_constant_member x); [|done]. f_equal. by apply IH.
Qed.

(** ** Witnesses and examples *)

Module FileHandlersWitness.
Definition manifest (id tr ex : str) (mimes domains : list str) : HandlerManifest Jv.t :=
  mkManifest id [] [] [] (mkMatch mimes domains None) ex Jv.Null Jv.Null 0 tr None.
Definition site (owner_type : str) : Site (V:=Jv.t) :=
  mkSite (λ se, if bool_decide (se = bs "S") then Some (bs "A") else None)
    {[ bs "u1" := mkUpload owner_type None (bs "audio/ogg") 10 None ]}
    [manifest (bs "transcribe") (bs "builtin") (bs "async") [bs "audio/*"] []] [bs "transcribe"]
    (λ _ _ _, outcome_failed []).
Definition menu : Jv.t :=
  Jv.Obj [(bs "upload_id", Jv.Str (bs "u1")); (bs "session_id", Jv.Str (bs "S")); (bs "agent", Jv.Str (bs "A"));
          (bs "_chat_id", Jv.Str (bs "c1"))].
Definition same (a b : Jv.t) : bool := bool_decide (jas_str a = jas_str b).
Definition desk : Desk (V:=Jv.t) := mkDesk [] [].
Abbreviation click := (run_menu_token_handler (λ s, s) (λ _, None) Some (λ _ _ s, s)).
Abbreviation choose := (command_menu_run (λ s, s) (λ _, None) Some (λ _ _ s, s)).
Definition shelf : MenuCtx (V:=Jv.t) := store_menu_ctx (bs "t") menu 0 ∅.
Definition by_click (now : Z) (chat : option Jv.t) :=
  click (site (bs "client_upload")) now (bs "j") true true true same shelf (bs "t") (bs "transcribe") chat desk.

(** A menu is dropped only when the next one is stored: a day later its
    token still starts a job. *)
Example stale_menu_accepted : (by_click 86400 (Some (Jv.Str (bs "c1")))).2 = Started (bs "j").
Proof. by vm_compute. Qed.
Example foreign_chat_refused : (by_click 1 (Some (Jv.Str (bs "c2")))).2 = Refused 403 (bs "callback chat does not match the menu").
Proof. by vm_compute. Qed.

(** The tool of the model starts a handler on an upload the menus refuse. *)
Example tool_skips_owner_gate :
  (menu_run_core (λ s, s) (λ _, None) (λ _ _ s, s) (site (bs "agent_icon")) 1 (bs "j") true true true None (Some (bs "u1"))
     (bs "S") (bs "A") (bs "transcribe") jempty desk).2 = Refused 403 (bs "upload not accessible") ∧
  (handle_file_handler (λ s, s) (λ _, None) Some (λ _ _ s, s) (site (bs "agent_icon")) 1 (bs "j") true true (bs "A") (bs "en")
     (Some (bs "S")) (Jv.Obj [(bs "action", Jv.Str (bs "run")); (bs "upload_id", Jv.Str (bs "u1"));
                              (bs "handler_id", Jv.Str (bs "transcribe"))]) desk).2 = TStarted (bs "j").
Proof. by vm_compute. Qed.

(** The short domain matches its subdomains too. *)
Example short_domain_matches_subdomain : domain_matches (λ s, s) (bs "youtu.be") (bs "evil.youtu.be") = true.
Proof. by vm_compute. Qed.
(** A whole media type is compared without case, a family with it. *)
Example mime_family_case :
  mime_glob_matches (bs "audio/ogg") (bs "Audio/Ogg") = true ∧ mime_glob_matches (bs "audio/*") (bs "Audio/Ogg") = false.
Proof. by vm_compute. Qed.

Lemma menu_bound_witness : ∃ c, Some (Jv.Str (bs "c1")) = Some c ∧ same (Jv.Str (bs "c1")) c = true.
Proof.
  assert ((by_click 1 (Some (Jv.Str (bs "c1")))).1 ≠ desk) as Hd by (vm_compute; discriminate).
  destruct (by_click 1 (Some (Jv.Str (bs "c1")))) as [d1 r1] eqn:H1.
  destruct (choose (site (bs "client_upload")) 1 (bs "j") true true true same shelf (bs "t") (bs "x") (Some (Jv.Str (bs "c1"))) desk)
    as [d2 r2] eqn:H2.
  destruct (menu_bound (λ s, s) (λ _, None) Some (λ _ _ s, s) (site (bs "client_upload")) 1 (bs "j") true true true same shelf
    (bs "t") (bs "transcribe") (bs "x") (Some (Jv.Str (bs "c1"))) desk d1 r1 d2 r2 H1 H2 (or_introl Hd))
    as (ps & sent & Hm & Hc & _).
  apply (Hc (Jv.Str (bs "c1"))). vm_compute in Hm. injection Hm as <- _. reflexivity.
Defined.
End FileHandlersWitness.
