(* ===== verification/Commands.v ===== *)
(** * Commands of the chat

    The registry of slash commands ([agent/commands]): the fourteen built-in
    ones, those derived from the handlers of [FileHandlers], their merge, and
    the dispatch of a typed command to a handler.  The built-in commands
    themselves are carried out elsewhere. *)
From S2P Require Import Prelude Text Json Files Ssrf Budget Uploads Jobs FileHandlers.

(** ** Specifications *)

(* @src opex-core/src/agent/commands/spec.rs 5-11 CommandScope *)
Inductive CommandScope := ScopeText | ScopeNative | ScopeBoth.
(* @src opex-core/src/agent/commands/spec.rs 15-24 CommandCategory *)
Inductive CommandCategory := CatSession | CatOptions | CatStatus | CatManagement | CatMedia | CatTools.
(* @src opex-core/src/agent/commands/spec.rs 28-35 ArgType *)
Inductive ArgType := ArgString | ArgNumber | ArgBoolean.
(** A choice is its value; the code gives it the same text as label. *)
(* @src opex-core/src/agent/commands/spec.rs 42-42 Choices *)
Inductive Choices := Static (values : list str) | Dynamic (provider : str).
(* @src opex-core/src/agent/commands/spec.rs 46-51 Visibility *)
Inductive Visibility := VisAll | VisBaseOnly.
(* @src opex-core/src/agent/commands/spec.rs 55-60 CommandSourceKind *)
Inductive CommandSourceKind := Builtin | Handler (id : str).
(* @src opex-core/src/agent/commands/spec.rs 63-72 CommandArg *)
Record CommandArg := mkArg {
  a_name : str; a_description : str; arg_type : ArgType; a_required : bool;
  choices : option Choices; capture_remaining : bool; a_menu : bool }.
(* @src opex-core/src/agent/commands/spec.rs 75-84 CommandSpec *)
Record CommandSpec := mkSpec {
  s_name : str; aliases : list str; s_description : str; category : CommandCategory;
  scope : CommandScope; s_args : list CommandArg; visibility : Visibility; s_source : CommandSourceKind }.
#[export] Instance scope_eq_dec : EqDecision CommandScope.
Proof. solve_decision. Defined.
#[export] Instance visibility_eq_dec : EqDecision Visibility.
Proof. solve_decision. Defined.

Section commands.
Context {V : Type} `{Json V, JsonArrays V, JsonEntries V}.
Context (to_lowercase : str → str).

(** Every name once; then every alias, against names and aliases. *)
Fixpoint claim_names (l : list str) (taken : list str) : result str (list str) :=
  match l with
  | [] => Ok taken
  | n :: l => let k := to_lowercase n in if bool_decide (k ∈ taken) then Err n else claim_names l (k :: taken)
  end.
Fixpoint claim_aliases (specs : list CommandSpec) (taken : list str) : result str () :=
  match specs with
  | [] => Ok ()
  | sp :: specs =>
      match claim_names (aliases sp) taken with
      | Err a => Err (bs "alias collides with an existing name or alias: " ++ a)
      | Ok taken =>
          if bool_decide (scope sp = ScopeNative) && negb (bool_decide (aliases sp = []))
          then Err (bs "native-only command has text aliases: " ++ s_name sp) else claim_aliases specs taken
      end
  end.
(* @src opex-core/src/agent/commands/spec.rs 113-131 validate_registry *)
Definition validate_registry (specs : list CommandSpec) : result str () :=
  match claim_names (s_name <$> specs) [] with
  | Err n => Err (bs "duplicate command name: " ++ n)
  | Ok taken => claim_aliases specs taken
  end.

(** ** Built-in commands *)

Definition english : list (str * str) := [
  (bs "status", bs "Show current status"); (bs "new", bs "Start a new session");
  (bs "reset", bs "Reset the session and unpinned memory"); (bs "compact", bs "Compact the session context");
  (bs "rollback", bs "Restore a checkpoint"); (bs "model", bs "Show or set the model");
  (bs "think", bs "Set thinking level"); (bs "voice", bs "Toggle voice replies for this chat");
  (bs "usage", bs "Show token usage"); (bs "export", bs "Export the current session transcript");
  (bs "help", bs "Show available commands"); (bs "memory", bs "Search or list agent memory");
  (bs "goal", bs "Set/inspect the autonomous goal"); (bs "subgoal", bs "Manage subgoals")].
Definition russian : list (str * str) := [
  (bs "status", bs "Показать текущий статус"); (bs "new", bs "Начать новую сессию");
  (bs "reset", bs "Сбросить сессию и незакреплённую память"); (bs "compact", bs "Сжать контекст сессии");
  (bs "rollback", bs "Восстановить чекпойнт"); (bs "model", bs "Показать или сменить модель");
  (bs "think", bs "Задать уровень размышления"); (bs "voice", bs "Голосовые ответы для этого чата");
  (bs "usage", bs "Показать расход токенов"); (bs "export", bs "Экспорт транскрипта сессии");
  (bs "help", bs "Показать доступные команды"); (bs "memory", bs "Поиск и список памяти агента");
  (bs "goal", bs "Задать или посмотреть автономную цель"); (bs "subgoal", bs "Управление подцелями")].
(* @src opex-core/src/agent/commands/builtin.rs 55-94 builtin_description *)
Definition builtin_description (name lang : str) : option str :=
  en ← get_text name english;
  if bool_decide (lang = bs "ru") then get_text name russian else Some en.
(* @src opex-core/src/agent/commands/builtin.rs 24-31 simple *)
Definition simple (name : string) (cat : CommandCategory) (args : list CommandArg) : CommandSpec :=
  mkSpec (bs name) [] (default [] (builtin_description (bs name) (bs "en"))) cat ScopeBoth args VisAll Builtin.
(* @src opex-core/src/agent/commands/builtin.rs 35-41 arg_choices *)
Definition arg_choices (name desc : string) (values : list str) (menu : bool) : CommandArg :=
  mkArg (bs name) (bs desc) ArgString false (Some (Static values)) false menu.
(* @src opex-core/src/agent/commands/builtin.rs 43-48 arg_free *)
Definition arg_free (name desc : string) : CommandArg :=
  mkArg (bs name) (bs desc) ArgString false None true false.
(* @src opex-core/src/agent/commands/builtin.rs 99-161 specs *)
Definition builtin_specs : list CommandSpec :=
  let think := simple "think" CatOptions
    [arg_choices "level" "off..max" [bs "off"; bs "minimal"; bs "low"; bs "medium"; bs "high"; bs "max"] true] in
  let think := mkSpec (s_name think) [bs "t"] (s_description think) CatOptions ScopeBoth (s_args think) VisAll Builtin in
  [simple "status" CatStatus [];
   simple "new" CatSession [];
   simple "reset" CatSession [];
   simple "compact" CatSession [arg_free "instructions" "extra compaction instructions"];
   simple "rollback" CatManagement [arg_free "action" "list | N | diff N | N file <path>"];
   simple "model" CatOptions
     [mkArg (bs "model") (bs "provider/model | reset | status") ArgString false (Some (Dynamic (bs "models"))) false false];
   think;
   simple "voice" CatMedia [arg_choices "mode" "on|off|status" [bs "on"; bs "off"; bs "status"] true];
   simple "usage" CatStatus [];
   simple "export" CatStatus [];
   simple "help" CatStatus [];
   simple "memory" CatStatus [arg_free "query" "search query (empty = recent)"];
   simple "goal" CatManagement [arg_free "text" "goal | status | pause | resume | clear"];
   simple "subgoal" CatManagement [arg_free "action" "add <t> | list | remove <n>"]].

(** ** Commands of handlers *)

(* @src opex-core/src/agent/commands/handler_source.rs 11-17 desc_for *)
Definition desc_for (m : HandlerManifest V) (lang : str) : str :=
  match get_text lang (descriptions m) with
  | Some d => d
  | None => default (m_id m) (get_text (bs "en") (descriptions m))
  end.
Definition token_char (c : ascii) : bool := is_ascii_alphanumeric c || bool_decide (c ∈ bs "_-").
(* @src opex-core/src/agent/commands/handler_source.rs 26-28 is_valid_command_token *)
Definition is_valid_command_token (s : str) : bool := negb (bool_decide (s = [])) && forallb token_char s.
(* @src opex-core/src/agent/commands/handler_source.rs 31-65 valve_args *)
Definition valve_args (config : V) : list CommandArg :=
  omap (λ f,
    name ← str_field f (bs "name");
    let listed := match jget f (bs "choices") with Some c => Some c | None => jget f (bs "enum") end in
    let values := c ← listed; l ← jas_array c; Some (Static (omap jas_str l)) in
    Some (mkArg name (default [] (str_field f (bs "label"))) ArgString false values false true))
  (default [] (jas_array config)).
(** The aliases of an override: valid, not the name itself, each once. *)
Fixpoint live_aliases (name_lc : str) (seen l : list str) : list str :=
  match l with
  | [] => []
  | a :: l =>
      let lc := to_lowercase a in
      if is_valid_command_token a && negb (bool_decide (lc = name_lc)) && negb (bool_decide (lc ∈ seen))
      then a :: live_aliases name_lc (lc :: seen) l else live_aliases name_lc seen l
  end.
Definition command_names (m : HandlerManifest V) : str * list str :=
  match command m with
  | Some ov => if is_valid_command_token (c_name ov) then (c_name ov, live_aliases (to_lowercase (c_name ov)) [] (c_aliases ov))
               else (m_id m, [])
  | None => (m_id m, [])
  end.
Definition is_builtin_tier (m : HandlerManifest V) : bool := bool_decide (tier m = bs "builtin").
Definition advertised (enabled : list str) (m : HandlerManifest V) : bool :=
  is_async m && (negb (is_builtin_tier m) || bool_decide (m_id m ∈ enabled)).
Definition handler_spec (lang : str) (m : HandlerManifest V) : CommandSpec :=
  let '(name, al) := command_names m in
  mkSpec name al (desc_for m lang) CatMedia ScopeBoth
    (mkArg (bs "source") (bs "url or file") ArgString false None true false :: valve_args (m_config m)) VisAll (Handler (m_id m)).
(* @src opex-core/src/agent/commands/handler_source.rs 67-121 derive_handler_commands *)
Definition derive_handler_commands (manifests : list (HandlerManifest V)) (enabled : list str) (lang : str) : list CommandSpec :=
  handler_spec lang <$> List.filter (advertised enabled) manifests.

(** ** The merged registry *)

Definition keys (sp : CommandSpec) : list str := to_lowercase <$> s_name sp :: aliases sp.
Fixpoint keep_free (specs : list CommandSpec) (taken : list str) : list CommandSpec :=
  match specs with
  | [] => []
  | h :: specs =>
      if existsb (λ k, bool_decide (k ∈ taken)) (keys h) then keep_free specs taken
      else h :: keep_free specs (keys h ++ taken)
  end.
Definition described (lang : str) (sp : CommandSpec) : CommandSpec :=
  mkSpec (s_name sp) (aliases sp) (default (s_description sp) (builtin_description (s_name sp) lang))
    (category sp) (scope sp) (s_args sp) (visibility sp) (s_source sp).
(** [None]: the panic of a registry that does not validate. *)
(* @src opex-core/src/agent/commands/merge.rs 12-38 build_registry *)
Definition build_registry (manifests : list (HandlerManifest V)) (enabled : list str) (lang : str) : option (list CommandSpec) :=
  let builtins := described lang <$> builtin_specs in
  let handlers := keep_free (derive_handler_commands manifests enabled lang) (mjoin (keys <$> builtins)) in
  match validate_registry (builtins ++ handlers) with Ok _ => Some (builtins ++ handlers) | Err _ => None end.
(* @src opex-core/src/agent/commands/registry.rs 29-34 resolve *)
Definition resolve_spec (specs : list CommandSpec) (name : str) : option CommandSpec :=
  let n := to_lowercase (strip_all [bs "/"] (length name) (trim name)) in
  List.find (λ c, bool_decide (n ∈ keys c)) specs.
(* @src opex-core/src/agent/commands/registry.rs 36-41 visible_for *)
Definition visible_for (is_base : bool) (specs : list CommandSpec) : list CommandSpec :=
  List.filter (λ c, is_base || bool_decide (visibility c = VisAll)) specs.

(** ** Typed commands *)

(** [split_once(char::is_whitespace)] *)
Fixpoint split_ws (s : str) : str * str :=
  match s with
  | [] => ([], [])
  | c :: s' =>
      match List.find (λ w, starts_with w s) ws_chars with
      | Some w => ([], drop (length w) s)
      | None => let '(a, b) := split_ws s' in (c :: a, b)
      end
  end.
(* @src opex-core/src/agent/commands/dispatch.rs 49-58 parse_command_line *)
Definition parse_command_line (text : str) : option (str * str) :=
  rest ← strip_prefix (bs "/") (trim text);
  let '(name, args) := split_ws rest in
  let name := default name (head (split_on "@" name)) in
  if bool_decide (name = []) then None else Some (to_lowercase name, trim args).
(* @src opex-core/src/agent/commands/dispatch.rs 74-96 resolve_command_to_handler_id *)
Definition answers_to (name : str) (m : HandlerManifest V) : bool :=
  eq_ignore_case (m_id m) name ||
  match command m with
  | Some ov => is_valid_command_token (c_name ov) &&
      (eq_ignore_case (c_name ov) name ||
       existsb (λ a, eq_ignore_case a name) (List.filter is_valid_command_token (c_aliases ov)))
  | None => false
  end.
Definition resolve_command_to_handler_id (manifests : list (HandlerManifest V)) (name : str) : option str :=
  m_id <$> List.find (answers_to name) (List.filter is_async manifests).
(* @src opex-core/src/agent/commands/dispatch.rs 101-112 first_choice_valve *)
Definition first_choice_valve (m : HandlerManifest V) : option (str * list str) :=
  fields ← jas_array (m_config m);
  head (omap (λ f,
    name ← str_field f (bs "name");
    c ← jget f (bs "choices"); l ← jas_array c;
    let values := omap jas_str l in
    if bool_decide (values = []) then None else Some (name, values)) fields).

(* @src opex-core/src/agent/commands/spec.rs 88-93 CommandOutcome *)
Inductive CommandOutcome :=
| Text (t : str)
| Menu (card : V).
Definition u_send (name : str) : str := bs "Пришлите ссылку или файл для /" ++ name ++ bs ".".
Definition u_unavailable (id : str) : str := bs "Обработчик `" ++ id ++ bs "` недоступен для этого источника.".
Definition u_choose (valve name : str) : str := bs "Выберите значение «" ++ valve ++ bs "» для /" ++ name ++ bs ":".
Definition u_started (name : str) : str := bs "✅ Запустил `/" ++ name ++ bs "`. Результат придёт в чат по готовности.".
Definition u_queue_error (e : str) : str := bs "Ошибка постановки задачи: " ++ e.
Fixpoint jobject (l : list (str * V)) : V :=
  match l with [] => jempty | (k, v) :: l => jinsert k v (jobject l) end.
(** What the choice of a value has to know. *)
Definition stash (handler : str) (source upload : option str) (session agent valve : str) (values : list str) (lang : str)
    (chat : option V) : V :=
  let base := jobject [
    (bs "kind", jstring (bs "command_choice")); (bs "handler_id", jstring handler);
    (bs "source_url", from_option jstring jnull source); (bs "upload_id", from_option jstring jnull upload);
    (bs "session_id", jstring session); (bs "agent", jstring agent); (bs "valve", jstring valve);
    (bs "choices", jarray (jstring <$> values)); (bs "language", jstring lang)] in
  match chat with
  | Some c => if jis_null c then base else jinsert (bs "_chat_id") c base
  | None => base
  end.
Context (parse_url : str → option Url).
(** The source of a command: its argument, or the last upload of the session. *)
Definition command_source (s : Site (V:=V)) (now : Z) (lang handler args : str) (recent : option str)
    : option (option str * option str * bool) :=
  if negb (bool_decide (args = [])) then
    Some (None, Some args, offers handler (match_url_handlers to_lowercase parse_url (offered s) args (allowed s) lang))
  else
    uid ← recent;
    match get_by_id s now uid with
    | Some u =>
        let buttons := match_buttons (offered s) (u_mime u) (Z.max (u_size u) 0) (allowed s) lang in
        Some (Some uid, None, offers handler (retain_async_handlers (offered s) buttons))
    | None => Some (None, None, false)
    end.
(** [session]: the active session of the chat; [recent]: its last upload;
    [chat]: the chat the message came from; [token], [fresh]: the generated
    token of a menu and id of a job. *)
(* @src opex-core/src/agent/commands/dispatch.rs 125-280 try_handler_command *)
Definition try_handler_command (s : Site (V:=V)) (now : Z) (token fresh : str) (db_ok : bool) (agent lang text : str)
    (session recent : option str) (chat : option V) (m : MenuCtx (V:=V)) (d : Desk (V:=V))
    : MenuCtx (V:=V) * Desk (V:=V) * option CommandOutcome :=
  match parse_command_line text with
  | None => (m, d, None)
  | Some (name, args) =>
  match resolve_command_to_handler_id (offered s) name, session with
  | None, _ | _, None => (m, d, None)
  | Some handler, Some session =>
      let manifest := List.find (λ h, bool_decide (m_id h = handler)) (offered s) in
      if from_option (λ h, is_builtin_tier h && negb (bool_decide (handler ∈ allowed s))) false manifest then (m, d, None) else
      match command_source s now lang handler args recent with
      | None =>
          (m, d, Some (Menu (jobject [(bs "card_type", jstring (bs "command_args_menu")); (bs "command", jstring name);
                                      (bs "text", jstring (u_send name))])))
      | Some (upload, source, gated_ok) =>
          if negb gated_ok then (m, d, Some (Text (u_unavailable handler))) else
          match (h ← manifest; first_choice_valve h) with
          | Some (valve, values) =>
              (store_menu_ctx token (stash handler source upload session agent valve values lang chat) now m, d,
               Some (Menu (jobject [
                 (bs "card_type", jstring (bs "command_args_menu")); (bs "command", jstring name);
                 (bs "text", jstring (u_choose valve name));
                 (bs "options", jarray ((λ c, jobject [(bs "value", jstring c); (bs "label", jstring c)]) <$> values));
                 (bs "token", jstring token)])))
          | None =>
              if db_ok
              then (m, add_job fresh upload source handler agent session (jinsert (bs "language") (jstring lang) jempty) now d,
                    Some (Text (u_started name)))
              else (m, d, Some (Text (u_queue_error (bs "database"))))
          end
      end
  end
  end.
End commands.
Arguments CommandOutcome : clear implicits.

(** ** The registry always validates *)

Section registry.
Context {V : Type} `{Json V, JsonArrays V, JsonEntries V}.
Context (to_lowercase : str → str).
Implicit Types (sp : CommandSpec) (ms : list (HandlerManifest V)).
Abbreviation keys := (keys to_lowercase).

Lemma claim_names_ok l taken :
  NoDup (to_lowercase <$> l) → (∀ k, k ∈ to_lowercase <$> l → k ∉ taken) →
  ∃ taken', claim_names to_lowercase l taken = Ok taken' ∧ ∀ k, k ∈ taken' ↔ k ∈ taken ∨ k ∈ to_lowercase <$> l.
Proof.
  revert taken. induction l as [|n l IH]; intros taken Hnd Hd; [exists taken; split; [done|]; set_solver|].
  cbn [fmap list_fmap] in Hnd, Hd. apply NoDup_cons in Hnd as [Hn Hnd]. cbn [claim_names].
  rewrite bool_decide_eq_false_2 by (apply Hd; left).
  destruct (IH (to_lowercase n :: taken) Hnd) as (taken' & -> & Ht).
  { intros k Hk. specialize (Hd k ltac:(by right)). intros [->|?]%elem_of_cons; done. }
  exists taken'. split; [done|]. intros k. rewrite Ht. cbn [fmap list_fmap]. rewrite !elem_of_cons. tauto.
Qed.
Lemma claim_aliases_ok specs taken :
  NoDup (mjoin ((λ sp, to_lowercase <$> aliases sp) <$> specs)) →
  (∀ k, k ∈ mjoin ((λ sp, to_lowercase <$> aliases sp) <$> specs) → k ∉ taken) →
  (∀ sp, sp ∈ specs → scope sp = ScopeBoth) → claim_aliases to_lowercase specs taken = Ok ().
Proof.
  revert taken. induction specs as [|sp specs IH]; intros taken Hnd Hd Hs; [done|].
  cbn [fmap list_fmap mjoin list_join] in Hnd, Hd. apply NoDup_app in Hnd as (Hn & Hdis & Hnd). cbn [claim_aliases].
  destruct (claim_names_ok (aliases sp) taken Hn) as (taken' & -> & Ht); [set_solver|].
  rewrite (bool_decide_eq_false_2 (scope sp = ScopeNative)) by (rewrite Hs by set_solver; done). cbn [andb].
  apply IH; [done| |set_solver]. intros k Hk. rewrite Ht. specialize (Hd k ltac:(set_solver)). set_solver.
Qed.
Lemma keys_perm specs :
  mjoin (keys <$> specs) ≡ₚ (to_lowercase <$> (s_name <$> specs)) ++ mjoin ((λ sp, to_lowercase <$> aliases sp) <$> specs).
Proof.
  induction specs as [|sp specs IH]; [done|]. cbn [fmap list_fmap mjoin list_join]. rewrite IH. cbn.
  constructor. rewrite !(assoc_L (++)). apply Permutation_app_tail, Permutation_app_comm.
Qed.
Lemma validate_ok specs :
  NoDup (mjoin (keys <$> specs)) → (∀ sp, sp ∈ specs → scope sp = ScopeBoth) → validate_registry to_lowercase specs = Ok ().
Proof.
  intros Hnd Hs. rewrite keys_perm in Hnd. apply NoDup_app in Hnd as (Hn & Hd & Ha).
  unfold validate_registry. destruct (claim_names_ok (s_name <$> specs) [] Hn) as (taken & -> & Ht); [set_solver|].
  apply claim_aliases_ok; [done| |done]. intros k Hk. rewrite Ht. intros [?|Hk']; [set_solver|]. by apply (Hd k).
Qed.

Lemma live_aliases_spec name seen l :
  NoDup (to_lowercase <$> live_aliases to_lowercase name seen l) ∧
  (∀ a, a ∈ live_aliases to_lowercase name seen l →
     a ∈ l ∧ is_valid_command_token a = true ∧ to_lowercase a ≠ name ∧ to_lowercase a ∉ seen).
Proof.
  revert seen. induction l as [|a l IH]; intros seen; [split; [constructor|set_solver]|]. cbn [live_aliases].
  destruct (_ && _) eqn:Hb.
  - bool_hyps. destruct (IH (to_lowercase a :: seen)) as [Hn Ha]. split.
    + cbn. apply NoDup_cons. split; [|done]. intros (b & Hb & Hin)%list_elem_of_fmap. destruct (Ha b Hin) as (_ & _ & _ & Hs). set_solver.
    + intros b [->|Hin]%elem_of_cons; [set_solver|]. destruct (Ha b Hin) as (? & ? & ? & ?). set_solver.
  - destruct (IH seen) as [Hn Ha]. split; [done|]. intros b Hin. destruct (Ha b Hin) as (? & ? & ? & ?). set_solver.
Qed.
Lemma handler_keys lang (m : HandlerManifest V) : NoDup (keys (handler_spec to_lowercase lang m)).
Proof.
  unfold handler_spec, command_names. destruct (command m) as [ov|]; [|cbn; apply NoDup_singleton].
  destruct (is_valid_command_token (c_name ov)); [|cbn; apply NoDup_singleton].
  destruct (live_aliases_spec (to_lowercase (c_name ov)) [] (c_aliases ov)) as [Hn Ha].
  unfold Commands.keys. cbn. apply NoDup_cons. split; [|done].
  intros (a & Heq & Hin)%list_elem_of_fmap. by destruct (Ha a Hin) as (_ & _ & ? & _).
Qed.
Lemma keep_free_spec specs taken :
  (∀ sp, sp ∈ specs → NoDup (keys sp)) →
  NoDup (mjoin (keys <$> keep_free to_lowercase specs taken)) ∧
  (∀ k, k ∈ mjoin (keys <$> keep_free to_lowercase specs taken) → k ∉ taken) ∧
  keep_free to_lowercase specs taken `sublist_of` specs ∧
  (∀ sp, sp ∈ specs → sp ∈ keep_free to_lowercase specs taken ∨
     ∃ k, k ∈ keys sp ∧ (k ∈ taken ∨ k ∈ mjoin (keys <$> keep_free to_lowercase specs taken))).
Proof.
  revert taken. induction specs as [|h specs IH]; intros taken Hk; [split_and!; [constructor|set_solver|done|set_solver]|].
  cbn [keep_free]. destruct (existsb _ _) eqn:Hx.
  - apply existsb_elem in Hx as (k & Hin & Ht). apply bool_decide_eq_true in Ht.
    destruct (IH taken) as (Hn & Hd & Hs & Hall); [set_solver|]. split_and!; [done|done|by constructor|].
    intros sp [->|Hsp]%elem_of_cons; [right; by exists k; auto|by apply Hall].
  - assert (∀ k, k ∈ keys h → k ∉ taken) as Hh.
    { intros k Hin Ht. apply not_true_iff_false in Hx. apply Hx, existsb_elem. exists k. by rewrite bool_decide_eq_true_2. }
    destruct (IH (keys h ++ taken)) as (Hn & Hd & Hs & Hall); [set_solver|]. cbn [fmap list_fmap mjoin list_join]. split_and!.
    + apply NoDup_app. split_and!; [apply Hk; left| |done]. intros k Hin Hin'. specialize (Hd k Hin'). set_solver.
    + intros k [Hin|Hin]%elem_of_app; [by apply Hh|]. specialize (Hd k Hin). set_solver.
    + by constructor.
    + intros sp [->|Hsp]%elem_of_cons; [left; left|]. destruct (Hall sp Hsp) as [?|(k & Hin & Hk')]; [left; by right|].
      right. exists k. split; [done|]. rewrite elem_of_app in Hk'. rewrite elem_of_app. tauto.
Qed.

(** The registry of commands never panics: whatever manifests the toolgate
    serves, the merged registry validates; no name or alias means two
    commands, all built-in ones are in it, and a handler's command is left out
    only when one of its names was taken. *)
Theorem registry_valid ms enabled lang :
  (∀ n, n ∈ mjoin ((λ sp, s_name sp :: aliases sp) <$> builtin_specs) → to_lowercase n = n) →
  ∃ handlers,
    build_registry to_lowercase ms enabled lang = Some ((described lang <$> builtin_specs) ++ handlers) ∧
    NoDup (mjoin (keys <$> ((described lang <$> builtin_specs) ++ handlers))) ∧
    handlers `sublist_of` derive_handler_commands to_lowercase ms enabled lang ∧
    (∀ sp, sp ∈ derive_handler_commands to_lowercase ms enabled lang → sp ∈ handlers ∨
       ∃ k, k ∈ keys sp ∧ k ∈ mjoin (keys <$> ((described lang <$> builtin_specs) ++ handlers))).
Proof.
  intros Hlc. unfold build_registry. set (handlers := keep_free _ _ _). exists handlers.
  destruct (keep_free_spec (derive_handler_commands to_lowercase ms enabled lang)
    (mjoin (keys <$> (described lang <$> builtin_specs)))) as (Hn & Hd & Hs & Hall).
  { intros sp (m & -> & _)%list_elem_of_fmap. apply handler_keys. }
  fold handlers in Hn, Hd, Hs, Hall.
  assert (mjoin (keys <$> (described lang <$> builtin_specs)) = mjoin ((λ sp, s_name sp :: aliases sp) <$> builtin_specs)) as Hb.
  { rewrite <-list_fmap_compose. f_equal. apply list_fmap_ext. intros i sp Hsp%list_elem_of_lookup_2.
    unfold compose, Commands.keys. cbn [described s_name aliases]. transitivity (id <$> s_name sp :: aliases sp); [|apply list_fmap_id].
    apply list_fmap_ext. intros j n Hin%list_elem_of_lookup_2. apply Hlc. apply list_elem_of_join. eexists. split; [exact Hin|].
    by apply (list_elem_of_fmap_2 (λ sp, s_name sp :: aliases sp)). }
  assert (NoDup (mjoin (keys <$> ((described lang <$> builtin_specs) ++ handlers)))) as Hnd.
  { rewrite fmap_app, join_app. apply NoDup_app. split_and!; [|intros k Hk Hk'; by apply (Hd k)|done].
    rewrite Hb. apply (bool_decide_unpack _). by vm_compute. }
  rewrite validate_ok; [|done|].
  - split_and!; [done|done|done|]. intros sp Hsp. destruct (Hall sp Hsp) as [?|(k & Hin & Hk)]; [by left|right].
    exists k. split; [done|]. rewrite fmap_app, join_app, elem_of_app. exact Hk.
  - intros sp [Hin|Hin]%elem_of_app.
    + apply list_elem_of_fmap in Hin as (b & -> & Hin). cbn. revert b Hin. apply (proj1 (Forall_forall _ _)). unfold builtin_specs, simple. repeat constructor.
    + pose proof (elem_of_sublist _ _ _ Hin Hs) as (m & -> & _)%list_elem_of_fmap. unfold handler_spec.
      by destruct (command_names _ _).
Qed.
End registry.

(** ** What is advertised can be typed *)

Lemma token_no_ws c : token_char c = true →
  forallb (λ w, match w with d :: _ => negb (bool_decide (d = c)) | [] => false end) (ws_chars ++ (reverse <$> ws_chars)) = true ∧
  c ≠ "@"%char.
Proof. destruct c as [[] [] [] [] [] [] [] []]; intros Hc; (vm_compute in Hc; discriminate) || (split; [vm_compute; reflexivity|discriminate]). Qed.
Lemma no_ws_here pats c s :
  forallb (λ w, match w with d :: _ => negb (bool_decide (d = c)) | [] => false end) pats = true →
  List.find (λ w, starts_with w (c :: s)) pats = None.
Proof.
  intros Hp. destruct (List.find _ pats) as [w|] eqn:Hf; [|done]. apply find_Some_elem in Hf as [Hin Hw].
  pose proof (proj1 (forallb_elem _ pats) Hp w Hin) as Hd. cbn beta in Hd. destruct w as [|d w]; [done|].
  apply starts_with_spec in Hw as [k Hk]. injection Hk as -> _. by rewrite bool_decide_eq_true_2 in Hd.
Qed.
Lemma token_ws c s : token_char c = true →
  List.find (λ w, starts_with w (c :: s)) ws_chars = None ∧ List.find (λ w, starts_with w (c :: s)) (reverse <$> ws_chars) = None.
Proof.
  intros Hc. destruct (token_no_ws c Hc) as [Hw _]. rewrite forallb_app in Hw. apply andb_prop in Hw as [? ?].
  split; by apply no_ws_here.
Qed.
Lemma split_ws_token n : forallb token_char n = true → split_ws n = (n, []).
Proof.
  induction n as [|c n IH]; [done|]. cbn [forallb]. intros [Hc Hn]%andb_prop. cbn [split_ws].
  destruct (token_ws c n Hc) as [-> _]. by rewrite IH.
Qed.
Lemma trim_token n : is_valid_command_token n = true → trim ("/"%char :: n) = "/"%char :: n.
Proof.
  unfold is_valid_command_token. intros Hn. bool_hyps. unfold trim, trim_start, trim_end.
  rewrite (strip_all_id ws_chars) by (by apply no_ws_here; vm_compute).
  destruct n as [|c n _] using rev_ind; [done|]. rewrite app_comm_cons, reverse_snoc.
  rewrite strip_all_id; [by rewrite reverse_cons, reverse_involutive|].
  apply token_ws. by apply (proj1 (forallb_elem token_char (n ++ [c]))); [|set_solver].
Qed.
Lemma parse_token (to_lowercase : str → str) n :
  is_valid_command_token n = true → parse_command_line to_lowercase ("/"%char :: n) = Some (to_lowercase n, []).
Proof.
  intros Hn. unfold parse_command_line. rewrite (trim_token n Hn). unfold is_valid_command_token in Hn. bool_hyps.
  change (strip_prefix (bs "/") ("/"%char :: n)) with (Some (drop 1 ("/"%char :: n))). cbn [mbind option_bind drop].
  rewrite split_ws_token by done.
  assert ("@"%char ∉ n) as Hat.
  { intros Hin. assert (token_char "@"%char = true) as Hc by (by apply (proj1 (forallb_elem token_char n))). vm_compute in Hc. done. }
  rewrite split_on_nosep by done. cbn [head default]. by rewrite bool_decide_eq_false_2.
Qed.
Lemma lower_lower c : token_char c = true → lower (lower c) = lower c.
Proof. destruct c as [[] [] [] [] [] [] [] []]; intros Hc; vm_compute in Hc |- *; done. Qed.
Lemma ci_token n : forallb token_char n = true → eq_ignore_case n (to_ascii_lowercase n) = true.
Proof.
  intros Hn. unfold eq_ignore_case. apply bool_decide_eq_true. unfold to_ascii_lowercase. rewrite <-list_fmap_compose.
  apply list_fmap_ext. intros i c Hc%list_elem_of_lookup_2. symmetry. apply lower_lower.
  by apply (proj1 (forallb_elem token_char n)).
Qed.

Section dispatch.
Context {V : Type} `{Json V, JsonArrays V, JsonEntries V}.
Context (to_lowercase : str → str) (parse_url : str → option Url).
Implicit Types (ms : list (HandlerManifest V)).

(** What is advertised can be typed: every valid name or alias of a
    handler's command, typed after a slash, is parsed as that command without
    arguments and leads to a live asynchronous handler. *)
Theorem advertised_typed ms enabled lang sp n :
  (∀ t, is_valid_command_token t = true → to_lowercase t = to_ascii_lowercase t) →
  sp ∈ derive_handler_commands to_lowercase ms enabled lang → n ∈ s_name sp :: aliases sp → is_valid_command_token n = true →
  parse_command_line to_lowercase ("/"%char :: n) = Some (to_lowercase n, []) ∧
  ∃ m, m ∈ ms ∧ is_async m = true ∧ answers_to (to_lowercase n) m = true ∧
       resolve_command_to_handler_id ms (to_lowercase n) = Some (m_id m).
Proof.
  intros Hlc Hsp Hn Hv. split; [by apply parse_token|].
  apply list_elem_of_fmap in Hsp as (m & -> & [Hm Ha]%list_elem_of_In%filter_In). unfold advertised in Ha.
  apply andb_prop in Ha as [Hasync _]. apply list_elem_of_In in Hm.
  assert (answers_to (to_lowercase n) m = true) as Hans.
  { rewrite Hlc by done. pose proof Hv as Hv'. unfold is_valid_command_token in Hv'. bool_hyps.
    unfold handler_spec, command_names in Hn. unfold answers_to. destruct (command m) as [ov|].
    - destruct (is_valid_command_token (c_name ov)) eqn:Hov; cbn [s_name aliases] in Hn; apply elem_of_cons in Hn as [->|Hn].
      + by rewrite (ci_token (c_name ov)), orb_true_r.
      + destruct (live_aliases_spec to_lowercase (to_lowercase (c_name ov)) [] (c_aliases ov)) as [_ Hl].
        destruct (Hl n Hn) as (Hin & Hva & _). replace (existsb _ _) with true; [by rewrite !orb_true_r|]. symmetry.
        apply existsb_elem. exists n. split; [|by apply ci_token]. apply list_elem_of_In, filter_In. split; [by apply list_elem_of_In|done].
      + by rewrite (ci_token (m_id m)).
      + set_solver.
    - cbn [s_name aliases] in Hn. apply elem_of_cons in Hn as [->|Hn]; [|set_solver]. by rewrite (ci_token (m_id m)). }
  unfold resolve_command_to_handler_id.
  destruct (List.find (answers_to (to_lowercase n)) (List.filter is_async ms)) as [k|] eqn:Hf.
  - apply find_Some_elem in Hf as [[Hk Hka]%list_elem_of_In%filter_In Hans']. exists k.
    split_and!; [by apply list_elem_of_In|done..].
  - exfalso. eapply List.find_none in Hf; [|apply filter_In; split; [by apply list_elem_of_In|exact Hasync]]. congruence.
Qed.

Lemma retained ms id buttons : offers id (retain_async_handlers ms buttons) = true → offers (V:=V) id buttons = true.
Proof.
  unfold offers, retain_async_handlers. intros (b & [Hb _]%list_elem_of_In%filter_In & Hid)%existsb_elem.
  apply existsb_elem. exists b. split; [by apply list_elem_of_In|done].
Qed.
(** A typed command starts only what a click may start: it queues at most
    one job, for a handler offered for its source, in the active session and
    for the agent it was typed to. *)
Theorem command_queues (s : Site (V:=V)) now token fresh db_ok agent lang text session recent chat m d :
  queued_only to_lowercase parse_url s now (λ j, Some (session_id j) = session ∧ agent_name j = agent) d
    (try_handler_command to_lowercase parse_url s now token fresh db_ok agent lang text session recent chat m d).1.2.
Proof.
  unfold try_handler_command, queued_only. destruct (parse_command_line _ _) as [[name args]|]; [|by left].
  destruct (resolve_command_to_handler_id _ _) as [handler|]; [|by left]. destruct session as [session|]; [|by left].
  destruct (from_option _ _ _); [by left|].
  destruct (command_source _ _ _ _ _ _ _ _) as [[[upload source] ok]|] eqn:Hs; [|by left].
  destruct ok; cbn [negb]; [|by left]. destruct (mbind (M:=option) _ _) as [[valve values]|]; [by left|].
  destruct db_ok; [|by left]. right. eexists. split_and!; [done|done| |done|done].
  unfold command_source in Hs. destruct (negb _).
  - injection Hs as <- <- Ho. by eapply url_offer.
  - destruct recent as [uid|]; [|done]. cbn [mbind option_bind] in Hs.
    destruct (get_by_id s now uid) as [u|] eqn:Hu; [|done]. injection Hs as <- <- Ho.
    eapply upload_offer; [exact Hu|by eapply retained|done..].
Qed.
End dispatch.

(** ** Witnesses and examples *)

Module CommandsWitness.
Import FileHandlersWitness.
Definition named (id name : str) (config : Jv.t) : HandlerManifest Jv.t :=
  mkManifest id [] [] [] (mkMatch [] [bs "*"] None) (bs "async") Jv.Null config 0 (bs "workspace") (Some (mkOverride name [])).
Definition low (s : str) : str := to_ascii_lowercase s.

Lemma registry_valid_witness :
  ∃ specs, build_registry low [named (bs "h") (bs "status") Jv.Null] [] (bs "en") = Some specs ∧ length specs = 14.
Proof.
  destruct (registry_valid low [named (bs "h") (bs "status") Jv.Null] [] (bs "en")) as (hs & Hb & _ & _ & _).
  { intros n Hn. repeat (apply elem_of_cons in Hn as [->|Hn]; [reflexivity|]). by apply not_elem_of_nil in Hn. }
  eexists. split; [exact Hb|]. apply (f_equal (from_option length 0)) in Hb. cbn [from_option] in Hb. rewrite <-Hb. reflexivity.
Defined.

(** The name one handler overrides away from, taken by another: the command
    advertised for the second runs the first. *)
Definition crossed : list (HandlerManifest Jv.t) := [named (bs "x") (bs "y") Jv.Null; named (bs "z") (bs "x") Jv.Null].
Example advertised_command_runs_other :
  (λ sp, (s_name sp, s_source sp)) <$> derive_handler_commands low crossed [] (bs "en") =
    [(bs "y", Handler (bs "x")); (bs "x", Handler (bs "z"))] ∧
  resolve_command_to_handler_id crossed (bs "x") = Some (bs "x").
Proof. by vm_compute. Qed.

Lemma advertised_typed_witness :
  parse_command_line low (bs "/y") = Some (bs "y", []) ∧ ∃ m, resolve_command_to_handler_id crossed (bs "y") = Some (m_id (V:=Jv.t) m).
Proof.
  destruct (advertised_typed low crossed [] (bs "en") (handler_spec low (bs "en") (named (bs "x") (bs "y") Jv.Null)) (bs "y"))
    as [Hp (m & _ & _ & _ & Hr)]; [done|left|left|done|]. split; [exact Hp|]. exists m. exact Hr.
Defined.

(** Choosing a value: the job that comes of it is told Russian, whatever the
    language of the agent the menu was made for. *)
Definition choosy : Site (V:=Jv.t) :=
  mkSite (λ _, Some (bs "A")) ∅
    [named (bs "h") (bs "cmd") (Jv.Arr [Jv.Obj [(bs "name", Jv.Str (bs "len")); (bs "choices", Jv.Arr [Jv.Str (bs "short")])]])]
    [] (λ _ _ _, outcome_failed []).
Definition url_of (s : str) : option Url := Some (mkUrl (bs "https") None (Some (bs "v")) (Some 443%Z)).
Example choice_forgets_language :
  let '(m, d, _) := try_handler_command low url_of choosy 0 (bs "t") (bs "j") true (bs "A") (bs "en") (bs "/cmd https://v")
                      (Some (bs "S")) None None ∅ desk in
  let '(d, r) := command_menu_run low url_of Some (λ _ _ s, s) choosy 1 (bs "j") true true true same m (bs "t") (bs "short") None d in
  r = Started (bs "j") ∧
  (λ j, (handler_id j, str_field (params j) (bs "len"), str_field (params j) (bs "language"))) <$> d_jobs d =
    [(bs "h", Some (bs "short"), Some (bs "ru"))].
Proof. by vm_compute. Qed.
End CommandsWitness.
