(* ===== verification/Access.v ===== *)
(** * Who may talk to an agent

    The access guard of [channels/access.rs] with its pairing codes and its
    protection against guessing, over the tables of [db/access.rs]
    ([channel_allowed_users], [pairing_codes]), and the handlers of
    [gateway/handlers/access.rs] and [gateway/handlers/channel_ws/inline.rs]
    that use it.

    Approving a code is three steps with awaits between them: the lockout is
    looked at, the code is taken, the outcome is recorded.  [approve_pairing]
    runs them in a row; the machine [step] lets the steps of any number of
    approvals, from any connection, fall between each other.  There are two
    clocks: [Instant] for the counters, the wall clock of rows for the age of
    codes; both in milliseconds. *)
From S2P Require Import Prelude.

(* @src opex-core/src/channels/access.rs 22-22 MAX_PAIRING_FAILURES *)
Definition MAX_PAIRING_FAILURES : Z := 10.
(* @src opex-core/src/channels/access.rs 23-23 PAIRING_FAILURE_WINDOW *)
Definition PAIRING_FAILURE_WINDOW : Z := 5 * 60 * 1000.
(* @src opex-core/src/channels/access.rs 24-24 PAIRING_LOCKOUT_DURATION *)
Definition PAIRING_LOCKOUT_DURATION : Z := 15 * 60 * 1000.

(** ** The count of failures *)

(* @src opex-core/src/channels/access.rs 27-31 PairingAttempt *)
Record PairingAttempt := mkAttempt {
  fail_count : Z;
  first_failure : Z;
  locked_until : option Z;
}.
Abbreviation Attempts := (gmap str PairingAttempt).

(* @src opex-core/src/channels/access.rs 38-47 pairing_lockout_remaining *)
Definition pairing_lockout_remaining (agent : str) (now : Z) (m : Attempts) : option Z :=
  entry ← m !! agent;
  until ← locked_until entry;
  if (now <? until)%Z then Some ((until - now) / 1000)%Z else None.
Definition locked (now : Z) (e : PairingAttempt) : bool :=
  match locked_until e with Some t => now <? t | None => false end%Z.
(* @src opex-core/src/channels/access.rs 107-115 sweep_stale_pairing_entries *)
Definition sweep_stale_pairing_entries (now : Z) (m : Attempts) : Attempts :=
  filter (λ kv, locked now kv.2 || (Z.max 0 (now - first_failure kv.2) <=? PAIRING_FAILURE_WINDOW)%Z = true) m.
(* @src opex-core/src/channels/access.rs 49-76 record_pairing_failure *)
Definition record_pairing_failure (agent : str) (now : Z) (m : Attempts) : Attempts :=
  let m := sweep_stale_pairing_entries now m in
  let entry := default (mkAttempt 0 now None) (m !! agent) in
  let entry := if (PAIRING_FAILURE_WINDOW <? Z.max 0 (now - first_failure entry))%Z then mkAttempt 0 now None else entry in
  let count := wrap 32 (fail_count entry + 1) in
  <[agent := mkAttempt count (first_failure entry)
               (if (MAX_PAIRING_FAILURES <=? count)%Z then Some (now + PAIRING_LOCKOUT_DURATION)%Z else locked_until entry)]> m.
(* @src opex-core/src/channels/access.rs 95-101 clear_pairing_failures *)
Definition clear_pairing_failures (agent : str) (now : Z) (m : Attempts) : Attempts :=
  alter (λ _, mkAttempt 0 now None) agent m.

(** ** The tables *)

(* @src opex-core/src/db/access.rs 82-86 AllowedUser *)
Record AllowedUser := mkAllowed {
  au_agent : str;
  au_user : str;
  au_name : option str;
  approved_by : str;
  approved_at : Z;
}.
(* @src opex-core/src/db/access.rs 158-163 PairingCode *)
Record PairingCode := mkCode {
  pc_agent : str;
  pc_code : str;
  pc_user : str;
  pc_name : option str;
  pc_created : Z;
}.
Record Tables := mkTables {
  pairing_codes : list PairingCode;
  allowed_users : list AllowedUser;
}.
Definition set_codes (l : list PairingCode) (t : Tables) : Tables := mkTables l (allowed_users t).
Definition set_allowed (l : list AllowedUser) (t : Tables) : Tables := mkTables (pairing_codes t) l.
Definition is_row (agent user : str) (r : AllowedUser) : bool := bool_decide (au_agent r = agent ∧ au_user r = user).
Definition of_user (agent user : str) (c : PairingCode) : bool := bool_decide (pc_agent c = agent ∧ pc_user c = user).
(** The primary key of [pairing_codes]. *)
Definition is_code (agent code : str) (c : PairingCode) : bool := bool_decide (pc_agent c = agent ∧ pc_code c = code).
Definition without {A} (p : A → bool) (l : list A) : list A := List.filter (λ x, negb (p x)) l.

(** A statement fails when the database does not answer ([ok = false]). *)
(* @src opex-core/src/db/access.rs 6-22 is_user_allowed *)
Definition is_user_allowed (ok : bool) (agent user : str) (t : Tables) : option bool :=
  if ok then Some (existsb (is_row agent user) (allowed_users t)) else None.
(* @src opex-core/src/db/access.rs 25-45 add_allowed_user *)
Definition add_allowed_user (ok : bool) (agent user : str) (name : option str) (by_ : str) (wall : Z) (t : Tables) : Tables * bool :=
  if ok then
    (if existsb (is_row agent user) (allowed_users t) then t
     else set_allowed (allowed_users t ++ [mkAllowed agent user name by_ wall]) t, true)
  else (t, false).
(* @src opex-core/src/db/access.rs 48-62 remove_allowed_user *)
Definition remove_allowed_user (ok : bool) (agent user : str) (t : Tables) : Tables * option bool :=
  if ok then (set_allowed (without (is_row agent user) (allowed_users t)) t,
              Some (existsb (is_row agent user) (allowed_users t)))
  else (t, None).
(* @src opex-core/src/db/access.rs 65-79 list_allowed_users *)
Definition list_allowed_users (ok : bool) (agent : str) (t : Tables) : option (list AllowedUser) :=
  if ok then Some (sort_by (λ a b, (approved_at a <? approved_at b)%Z)
                     (List.filter (λ r, bool_decide (au_agent r = agent)) (allowed_users t)))
  else None.
(** The two statements are one transaction: a conflict on the key undoes the deletion. *)
(* @src opex-core/src/db/access.rs 91-110 store_pairing_code *)
Definition store_pairing_code (ok : bool) (agent code user : str) (name : option str) (wall : Z) (t : Tables) : Tables * bool :=
  let rest := without (of_user agent user) (pairing_codes t) in
  if ok && negb (existsb (is_code agent code) rest)
  then (set_codes (rest ++ [mkCode agent code user name wall]) t, true)
  else (t, false).
(* @src opex-core/src/db/access.rs 113-131 take_pairing_code *)
Definition take_pairing_code (ok : bool) (agent code : str) (wall : Z) (t : Tables)
    : Tables * option (option (str * option str * bool)) :=
  if ok then
    (set_codes (without (is_code agent code) (pairing_codes t)) t,
     Some (match List.find (is_code agent code) (pairing_codes t) with
           | Some c => Some (pc_user c, pc_name c, (300 <? Z.quot (wall - pc_created c) 1000)%Z)
           | None => None
           end))
  else (t, None).
(* @src opex-core/src/db/access.rs 134-138 remove_pairing_code *)
Definition remove_pairing_code (ok : bool) (agent code : str) (t : Tables) : Tables * option bool :=
  if ok then (set_codes (without (is_code agent code) (pairing_codes t)) t,
              Some (existsb (is_code agent code) (pairing_codes t)))
  else (t, None).
Definition overdue (wall : Z) (c : PairingCode) : bool := (pc_created c <=? wall - 300000)%Z.
(* @src opex-core/src/db/access.rs 141-155 list_pairing_codes *)
Definition list_pairing_codes (ok clean_ok : bool) (agent : str) (wall : Z) (t : Tables) : Tables * option (list PairingCode) :=
  if ok then
    (if clean_ok then set_codes (without (overdue wall) (pairing_codes t)) t else t,
     Some (sort_by (λ a b, (pc_created a <? pc_created b)%Z)
             (List.filter (λ c, bool_decide (pc_agent c = agent) && negb (overdue wall c)) (pairing_codes t))))
  else (t, None).

(** ** The guard *)

(* @src opex-core/src/channels/access.rs 119-124 AccessGuard *)
Record AccessGuard := mkGuard {
  agent_id : str;
  owner_id : option str;
  restricted : bool;
}.
(* @src opex-core/src/channels/access.rs 150-152 is_owner *)
Definition is_owner (g : AccessGuard) (user : str) : bool := bool_decide (owner_id g = Some user).
(* @src opex-core/src/channels/access.rs 137-147 is_allowed *)
Definition is_allowed (g : AccessGuard) (ok : bool) (user : str) (t : Tables) : bool :=
  if negb (restricted g) then true else
  if is_owner g user then true else
  default false (is_user_allowed ok (agent_id g) user t).

(** [format!("{:06}", n)] *)
Definition six_digits (n : Z) : str := replicate (6 - length (decZ n)) "0"%char ++ decZ n.
(** The number [n] comes from the random generator. *)
(* @src opex-core/src/channels/access.rs 155-167 create_pairing_code *)
Definition create_pairing_code (g : AccessGuard) (ok : bool) (n : Z) (user : str) (name : option str) (wall : Z) (t : Tables) : Tables * str :=
  let code := six_digits n in
  ((store_pairing_code ok (agent_id g) code user name wall t).1, code).

(** What became of taking a code. *)
Inductive Taken :=
| TakenUser (user : str) (name : option str)
| TakenExpired
| TakenNone
| TakenError.
Definition take_for (g : AccessGuard) (ok : bool) (code : str) (wall : Z) (t : Tables) : Tables * Taken :=
  let '(t, r) := take_pairing_code ok (agent_id g) code wall t in
  (t, match r with
      | Some (Some (user, name, false)) => TakenUser user name
      | Some (Some (_, _, true)) => TakenExpired
      | Some None => TakenNone
      | None => TakenError
      end).
(** The user is admitted, unless the statement fails. *)
Definition admit_taken (g : AccessGuard) (ok : bool) (approver : str) (r : Taken) (wall : Z) (t : Tables) : Tables * (bool * str) :=
  match r with
  | TakenUser user name =>
      let '(t, added) := add_allowed_user ok (agent_id g) user name approver wall t in
      (t, (added, default user name))
  | TakenExpired => (t, (false, bs "expired"))
  | TakenNone => (t, (false, bs "not_found"))
  | TakenError => (t, (false, bs "db_error"))
  end.
Definition note_outcome (g : AccessGuard) (success : bool) (now : Z) (m : Attempts) : Attempts :=
  if success then clear_pairing_failures (agent_id g) now m else record_pairing_failure (agent_id g) now m.
(* @src opex-core/src/channels/access.rs 175-211 approve_pairing *)
Definition approve_pairing (g : AccessGuard) (code approver : str) (before after wall : Z) (take_ok add_ok : bool)
    (m : Attempts) (t : Tables) : Attempts * Tables * (bool * str) :=
  match pairing_lockout_remaining (agent_id g) before m with
  | Some remaining => (m, t, (false, bs "locked_out:" ++ decZ remaining))
  | None =>
      let '(t, r) := take_for g take_ok code wall t in
      let '(t, result) := admit_taken g add_ok approver r wall t in
      (note_outcome g result.1 after m, t, result)
  end.
(* @src opex-core/src/channels/access.rs 214-218 reject_pairing *)
Definition reject_pairing (g : AccessGuard) (ok : bool) (code : str) (t : Tables) : Tables * bool :=
  let '(t, r) := remove_pairing_code ok (agent_id g) code t in (t, default false r).
(* @src opex-core/src/channels/access.rs 221-236 pending_pairings_list *)
Definition pending_pairings_list (g : AccessGuard) (ok clean_ok : bool) (wall : Z) (t : Tables) : Tables * list PairingCode :=
  let '(t, r) := list_pairing_codes ok clean_ok (agent_id g) wall t in (t, default [] r).

(** ** The handlers *)

(** [access_guards]: the guard of each live agent. *)
Definition Guards : Type := gmap str AccessGuard.
(** [(allowed, is_owner)] of the [AccessResult] frame. *)
(* @src opex-core/src/gateway/handlers/channel_ws/inline.rs 37-70 handle_access_check *)
Definition handle_access_check (gs : Guards) (agent user : str) (ok : bool) (t : Tables) : bool * bool :=
  match gs !! agent with
  | Some g => (is_allowed g ok user t, is_owner g user)
  | None => (false, false)
  end.
(* @src opex-core/src/gateway/handlers/channel_ws/inline.rs 74-113 handle_pairing_create *)
Definition handle_pairing_create (gs : Guards) (agent user : str) (name : option str) (ok : bool) (n wall : Z) (t : Tables) : Tables * str :=
  match gs !! agent with
  | Some g => create_pairing_code g ok n user name wall t
  | None => (t, bs "000000")
  end.
(** [(success, error)] of the [PairingResult] frame. *)
(* @src opex-core/src/gateway/handlers/channel_ws/inline.rs 118-139 handle_pairing_approve *)
Definition handle_pairing_approve (gs : Guards) (agent code : str) (before after wall : Z) (take_ok add_ok : bool)
    (m : Attempts) (t : Tables) : Attempts * Tables * (bool * option str) :=
  match gs !! agent with
  | Some g =>
      let '(m, t, (success, info)) := approve_pairing g code (bs "owner") before after wall take_ok add_ok m t in
      (m, t, (success, Some info))
  | None => (m, t, (false, Some (bs "no access guard")))
  end.
(* @src opex-core/src/gateway/handlers/channel_ws/inline.rs 142-160 handle_pairing_reject *)
Definition handle_pairing_reject (gs : Guards) (agent code : str) (ok : bool) (t : Tables) : Tables * (bool * option str) :=
  (match gs !! agent with Some g => (reject_pairing g ok code t).1 | None => t end, (true, None)).

(** Answers of the REST handlers: the status and what the body says. *)
Inductive Answer :=
| Pending (l : list PairingCode)
| Users (l : list AllowedUser)
| Approved (user : str)
| Removed (ok : bool)
| Failure (status : Z) (error : str).
Definition not_configured : Answer := Failure 404 (bs "access control not configured for this agent").
(* @src opex-core/src/gateway/handlers/access.rs 22-31 api_access_pending *)
Definition api_access_pending (gs : Guards) (agent : str) (ok clean_ok : bool) (wall : Z) (t : Tables) : Tables * Answer :=
  match gs !! agent with
  | None => (t, not_configured)
  | Some g => let '(t, l) := pending_pairings_list g ok clean_ok wall t in (t, Pending l)
  end.
(* @src opex-core/src/gateway/handlers/access.rs 33-49 api_access_approve *)
Definition api_access_approve (gs : Guards) (agent code : str) (before after wall : Z) (take_ok add_ok : bool)
    (m : Attempts) (t : Tables) : Attempts * Tables * Answer :=
  match gs !! agent with
  | None => (m, t, not_configured)
  | Some g =>
      let '(m, t, (success, info)) :=
        approve_pairing g code (default (bs "ui") (owner_id g)) before after wall take_ok add_ok m t in
      (m, t, if success then Approved info else Failure 400 info)
  end.
(* @src opex-core/src/gateway/handlers/access.rs 51-64 api_access_reject *)
Definition api_access_reject (gs : Guards) (agent code : str) (ok : bool) (t : Tables) : Tables * Answer :=
  match gs !! agent with
  | None => (t, not_configured)
  | Some g => let '(t, removed) := reject_pairing g ok code t in (t, Removed removed)
  end.
(* @src opex-core/src/gateway/handlers/access.rs 66-84 api_access_list_users *)
Definition api_access_list_users (gs : Guards) (agent : str) (ok : bool) (t : Tables) : Answer :=
  match gs !! agent with
  | None => not_configured
  | Some _ => match list_allowed_users ok agent t with
              | Some l => Users l
              | None => Failure 500 (bs "database")
              end
  end.
(* @src opex-core/src/gateway/handlers/access.rs 86-97 api_access_remove_user *)
Definition api_access_remove_user (gs : Guards) (agent user : str) (ok : bool) (t : Tables) : Tables * Answer :=
  match gs !! agent with
  | None => (t, not_configured)
  | Some _ => match remove_allowed_user ok agent user t with
              | (t, Some deleted) => (t, Removed deleted)
              | (t, None) => (t, Failure 500 (bs "database"))
              end
  end.

(** ** Any interleaving *)

(** An approval between two of its steps. *)
Inductive Stage :=
| Guessing (g : AccessGuard) (code approver : str)
| Settling (g : AccessGuard) (approver : str) (r : Taken)
| Over.
(** What happened, the oldest first. *)
Inductive Event :=
| Stored (agent code user : str) (at_ : Z)
| TookCode (k : nat) (agent code user : str) (at_ : Z)
| Granted (k : nat) (agent user : str)
| RemovedUser (agent user : str).
Record World := mkWorld {
  guards : Guards;
  tables : Tables;
  counters : Attempts;
  stages : list Stage;
  trace : list Event;
}.
Definition with_tables (t : Tables) (ev : list Event) (w : World) : World :=
  mkWorld (guards w) t (counters w) (stages w) (trace w ++ ev).

Inductive Action :=
| ACreate (agent user : str) (name : option str) (n wall : Z) (ok : bool)
| AStart (agent code approver : str) (now : Z)
| ATake (k : nat) (wall : Z) (ok : bool)
| ASettle (k : nat) (now wall : Z) (ok : bool)
| AReject (agent code : str) (ok : bool)
| APending (agent : str) (wall : Z) (ok clean_ok : bool)
| ARemove (agent user : str) (ok : bool)
| AGuards (gs : Guards)
| ARestart.

(** What an action adds to the trace. *)
Definition stored_event (g : AccessGuard) (ok : bool) (n : Z) (user : str) (name : option str) (wall : Z) (t : Tables) : list Event :=
  if (store_pairing_code ok (agent_id g) (six_digits n) user name wall t).2
  then [Stored (agent_id g) (six_digits n) user wall] else [].
Definition took_event (k : nat) (g : AccessGuard) (code : str) (wall : Z) (r : Taken) : list Event :=
  match r with TakenUser user _ => [TookCode k (agent_id g) code user wall] | _ => [] end.
Definition granted_event (k : nat) (g : AccessGuard) (r : Taken) (success : bool) : list Event :=
  match r with TakenUser user _ => if success then [Granted k (agent_id g) user] else [] | _ => [] end.

Definition step (a : Action) (w : World) : World :=
  match a with
  | ACreate agent user name n wall ok =>
      with_tables (handle_pairing_create (guards w) agent user name ok n wall (tables w)).1
        (match guards w !! agent with Some g => stored_event g ok n user name wall (tables w) | None => [] end) w
  | AStart agent code approver now =>
      match guards w !! agent with
      | None => w
      | Some g =>
          match pairing_lockout_remaining (agent_id g) now (counters w) with
          | Some _ => w
          | None => mkWorld (guards w) (tables w) (counters w) (stages w ++ [Guessing g code approver]) (trace w)
          end
      end
  | ATake k wall ok =>
      match stages w !! k with
      | Some (Guessing g code approver) =>
          let '(t, r) := take_for g ok code wall (tables w) in
          mkWorld (guards w) t (counters w) (<[k := Settling g approver r]> (stages w)) (trace w ++ took_event k g code wall r)
      | _ => w
      end
  | ASettle k now wall ok =>
      match stages w !! k with
      | Some (Settling g approver r) =>
          let '(t, (success, _)) := admit_taken g ok approver r wall (tables w) in
          mkWorld (guards w) t (note_outcome g success now (counters w)) (<[k := Over]> (stages w))
            (trace w ++ granted_event k g r success)
      | _ => w
      end
  | AReject agent code ok => with_tables (api_access_reject (guards w) agent code ok (tables w)).1 [] w
  | APending agent wall ok clean_ok => with_tables (api_access_pending (guards w) agent ok clean_ok wall (tables w)).1 [] w
  | ARemove agent user ok =>
      with_tables (api_access_remove_user (guards w) agent user ok (tables w)).1
        (if ok && bool_decide (is_Some (guards w !! agent)) then [RemovedUser agent user] else []) w
  | AGuards gs => mkWorld gs (tables w) (counters w) (stages w) (trace w)
  | ARestart => mkWorld (guards w) (tables w) ∅ ((λ _, Over) <$> stages w) (trace w)
  end.
Definition run (acts : list Action) (w : World) : World := foldl (λ w a, step a w) w acts.
Definition fresh (gs : Guards) : World := mkWorld gs (mkTables [] []) ∅ [] [].

(** ** What the trace says *)

(** The code [c] of user [u] was stored and has not been used or replaced since. *)
Definition ends_code (a c u : str) (e : Event) : Prop :=
  match e with
  | TookCode _ a' c' _ _ => a' = a ∧ c' = c
  | Stored a' _ u' _ => a' = a ∧ u' = u
  | _ => False
  end.
Definition standing (a c u : str) (t : Z) (tr : list Event) : Prop :=
  ∃ h1 h2, tr = h1 ++ Stored a c u t :: h2 ∧ (∀ e, e ∈ h2 → ¬ ends_code a c u e).
(** Attempt [k] used a code that stood, at most five minutes (and a fraction of a second) old. *)
Definition used (k : nat) (a u : str) (tr : list Event) : Prop :=
  ∃ h1 h2 c t1 t2, tr = h1 ++ TookCode k a c u t2 :: h2 ∧ standing a c u t1 h1 ∧ (t2 - t1 < 301000)%Z.
(** ... and was granted, and the user was not removed since. *)
Definition paired (a u : str) (tr : list Event) : Prop :=
  ∃ k h1 h2, tr = h1 ++ Granted k a u :: h2 ∧ used k a u h1 ∧ RemovedUser a u ∉ h2.
Definition grant_key (e : Event) : option nat := match e with Granted k _ _ => Some k | _ => None end.

Lemma standing_app a c u t tr ev :
  standing a c u t tr → (∀ e, e ∈ ev → ¬ ends_code a c u e) → standing a c u t (tr ++ ev).
Proof.
  intros (h1 & h2 & -> & Hh) He. exists h1, (h2 ++ ev). split; [by rewrite <- (assoc_L (++))|].
  intros e [He'|He']%elem_of_app; auto.
Qed.
Lemma used_app k a u tr ev : used k a u tr → used k a u (tr ++ ev).
Proof.
  intros (h1 & h2 & c & t1 & t2 & -> & Hs & Ht). exists h1, (h2 ++ ev), c, t1, t2.
  split; [by rewrite <- (assoc_L (++))|done].
Qed.
Lemma paired_app a u tr ev : paired a u tr → RemovedUser a u ∉ ev → paired a u (tr ++ ev).
Proof.
  intros (k & h1 & h2 & -> & Hu & Hr) He. exists k, h1, (h2 ++ ev). split_and!; [by rewrite <- (assoc_L (++))|done|].
  intros [?|?]%elem_of_app; auto.
Qed.

Lemma without_elem {A} (p : A → bool) l x : x ∈ without p l ↔ x ∈ l ∧ p x = false.
Proof. unfold without. rewrite !list_elem_of_In, filter_In, negb_true_iff. done. Qed.

Record inv (w : World) : Prop := mkInv {
  inv_codes : ∀ c, c ∈ pairing_codes (tables w) → standing (pc_agent c) (pc_code c) (pc_user c) (pc_created c) (trace w);
  inv_stages : ∀ k g by_ u n, stages w !! k = Some (Settling g by_ (TakenUser u n)) → used k (agent_id g) u (trace w);
  inv_allowed : ∀ r, r ∈ allowed_users (tables w) → paired (au_agent r) (au_user r) (trace w);
  inv_granted : ∀ k a u, Granted k a u ∈ trace w → stages w !! k = Some Over;
  inv_once : NoDup (omap grant_key (trace w));
}.

(** A step of the tables that adds [ev] to the trace. *)
Lemma inv_tables w t ev :
  inv w → (∀ e, e ∈ ev → grant_key e = None) →
  (∀ c, c ∈ pairing_codes t → standing (pc_agent c) (pc_code c) (pc_user c) (pc_created c) (trace w ++ ev)) →
  (∀ r, r ∈ allowed_users t → r ∈ allowed_users (tables w) ∧ RemovedUser (au_agent r) (au_user r) ∉ ev) →
  inv (with_tables t ev w).
Proof.
  intros [H1 H2 H3 H4 H5] Hev Hc Ha. constructor; cbn; [done| | | |].
  - intros k g by_ u n Hk. eapply used_app, H2, Hk.
  - intros r [Hr Hn]%Ha. by apply paired_app; [apply H3|].
  - intros k a u [Hk|Hk]%elem_of_app; [by eapply H4|]. by apply Hev in Hk.
  - rewrite omap_app. replace (omap grant_key ev) with (@nil nat); [by rewrite app_nil_r|].
    clear -Hev. induction ev as [|e ev IH]; [done|]. cbn. rewrite Hev by set_solver. apply IH. set_solver.
Qed.
(** ... that only deletes rows and adds nothing to it. *)
Lemma inv_delete w t :
  inv w → pairing_codes t ⊆ pairing_codes (tables w) → allowed_users t ⊆ allowed_users (tables w) → inv (with_tables t [] w).
Proof.
  intros Hw Hc Ha. apply inv_tables; [done|set_solver| |].
  - intros c Hin%Hc. rewrite app_nil_r. by apply inv_codes.
  - intros r Hin. split; [by apply Ha|set_solver].
Qed.
Lemma without_sub {A} (p : A → bool) l : without p l ⊆ l.
Proof. intros x Hx. by apply without_elem in Hx as [? _]. Qed.

Lemma inv_create w agent user name n wall ok : inv w → inv (step (ACreate agent user name n wall ok) w).
Proof.
  intros Hw. cbn [step]. unfold handle_pairing_create. destruct (guards w !! agent) as [g|]; [|by apply inv_delete].
  unfold create_pairing_code, stored_event, store_pairing_code. cbn [fst].
  destruct (ok && _) eqn:Hok; cbn [fst snd]; [|by apply inv_delete].
  apply inv_tables; [done|by intros e ->%list_elem_of_singleton| |].
  - cbn. intros c [Hc| ->%list_elem_of_singleton]%elem_of_app.
    + apply without_elem in Hc as [Hc Hu]. apply standing_app; [by apply inv_codes|].
      intros e ->%list_elem_of_singleton. unfold of_user in Hu. bool_hyps. cbn. intros [Ha Hn]. by apply Hu.
    + cbn. exists (trace w), []. split; [done|]. intros e He. by apply not_elem_of_nil in He.
  - cbn. intros r Hr. split; [done|]. by intros ?%list_elem_of_singleton.
Qed.

(** An approval moves to its next stage: the others are as they were. *)
Lemma inv_stage w t m k st st' ev :
  inv w → stages w !! k = Some st → st ≠ Over →
  (∀ e, e ∈ ev → ∃ a c u at_, e = TookCode k a c u at_ ∨ e = Granted k a u ∧ st' = Over) →
  length (omap grant_key ev) ≤ 1 →
  (∀ g by_ u n, st' = Settling g by_ (TakenUser u n) → used k (agent_id g) u (trace w ++ ev)) →
  (∀ c, c ∈ pairing_codes t → standing (pc_agent c) (pc_code c) (pc_user c) (pc_created c) (trace w ++ ev)) →
  (∀ r, r ∈ allowed_users t → r ∈ allowed_users (tables w) ∨ paired (au_agent r) (au_user r) (trace w ++ ev)) →
  inv (mkWorld (guards w) t m (<[k := st']> (stages w)) (trace w ++ ev)).
Proof.
  intros [H1 H2 H3 H4 H5] Hk Hst Hev Hl Hu Hc Ha.
  assert (∀ j a u, Granted j a u ∈ ev → j = k ∧ st' = Over) as Hg.
  { intros j a u (a' & c & u' & x & [?|[? ?]])%Hev; by simplify_eq. }
  assert (∀ a u, Granted k a u ∉ trace w) as Hno.
  { intros a u Hin%H4. congruence. }
  constructor; cbn; [done| | | |].
  - intros j g by_ u n. destruct (decide (j = k)) as [->|Hne].
    + rewrite list_lookup_insert_eq by (by eapply lookup_lt_Some). intros [= ->]. by eapply Hu.
    + rewrite list_lookup_insert_ne by done. intros Hj. eapply used_app, H2, Hj.
  - intros r [Hr|Hr]%Ha; [|done]. apply paired_app; [by apply H3|].
    intros (a' & c & u' & x & [?|[? ?]])%Hev; by simplify_eq.
  - intros j a u [Hj|Hj]%elem_of_app.
    + assert (j ≠ k) by (intros ->; by apply Hno in Hj). rewrite list_lookup_insert_ne by done. by eapply H4.
    + apply Hg in Hj as [-> ->]. apply list_lookup_insert_eq. by eapply lookup_lt_Some.
  - rewrite omap_app. apply NoDup_app. split_and!; [done| |].
    + intros j (e & He & Hj)%list_elem_of_omap (e' & He' & Hj')%list_elem_of_omap.
      destruct e, e'; simplify_eq/=. apply Hg in He' as [-> _]. by apply Hno in He.
    + destruct (omap grant_key ev) as [|? [|]]; [apply NoDup_nil_2|apply NoDup_singleton|cbn in Hl; lia].
Qed.

(** ... without an event: the tables only lose codes. *)
Lemma inv_stage_quiet w t m k st st' :
  inv w → stages w !! k = Some st → st ≠ Over →
  (∀ g by_ u n, st' ≠ Settling g by_ (TakenUser u n)) →
  pairing_codes t ⊆ pairing_codes (tables w) → allowed_users t ⊆ allowed_users (tables w) →
  inv (mkWorld (guards w) t m (<[k := st']> (stages w)) (trace w ++ [])).
Proof.
  intros Hw Hk Hst Hu Hc Ha.
  eapply inv_stage; [done..|set_solver|cbn; lia|by intros ???? ?%Hu| |by left; apply Ha].
  rewrite app_nil_r. intros c Hin%Hc. by apply inv_codes.
Qed.

Lemma find_code a c l x : List.find (is_code a c) l = Some x → x ∈ l ∧ pc_agent x = a ∧ pc_code x = c.
Proof. intros [Hx Hp]%find_some. unfold is_code in Hp. bool_hyps. split; [by apply list_elem_of_In|done]. Qed.

Lemma inv_take w k wall ok : inv w → inv (step (ATake k wall ok) w).
Proof.
  intros Hw. cbn [step]. destruct (stages w !! k) as [[g code by_|?|]|] eqn:Hk; try done.
  unfold take_for, take_pairing_code. destruct ok; [|by eapply inv_stage_quiet].
  destruct (List.find _ _) as [x|] eqn:Hf; [|eapply inv_stage_quiet; try done; apply without_sub].
  apply find_code in Hf as (Hx & Hag & <-). destruct (300 <? _)%Z eqn:Hage; cbn [took_event].
  { eapply inv_stage_quiet; try done; apply without_sub. }
  apply inv_stage with (st := Guessing g (pc_code x) by_); try done; [|cbn; lia| | |by left].
  - intros e ->%list_elem_of_singleton. do 4 eexists. by left.
  - intros g' by' u n [= <- <- <- <-]. exists (trace w), [], (pc_code x), (pc_created x), wall. split; [done|].
    rewrite <- Hag. split; [by apply inv_codes|]. bool_hyps.
    destruct (Z.le_gt_cases 301000 (wall - pc_created x)); [|lia].
    pose proof (Z.quot_le_lower_bound (wall - pc_created x) 1000 301). lia.
  - cbn. intros c [Hc Hn]%without_elem. apply standing_app; [by apply inv_codes|].
    intros e ->%list_elem_of_singleton. cbn. intros [He1 He2]. unfold is_code in Hn. bool_hyps. by apply Hn.
Qed.

Lemma inv_settle w k now wall ok : inv w → inv (step (ASettle k now wall ok) w).
Proof.
  intros Hw. cbn [step]. destruct (stages w !! k) as [[?|g by_ r|]|] eqn:Hk; try done.
  destruct r as [u n| | |]; cbn [admit_taken]; try (eapply inv_stage_quiet; done).
  unfold add_allowed_user. destruct ok; [|by eapply inv_stage_quiet].
  cbn [granted_event]. pose proof (inv_stages _ Hw _ _ _ _ _ Hk) as Hu.
  assert (paired (agent_id g) u (trace w ++ [Granted k (agent_id g) u])) as Hp.
  { exists k, (trace w), []. split_and!; [done..|set_solver]. }
  eapply inv_stage; [done|exact Hk|done| |cbn; lia|done| |].
  - intros e ->%list_elem_of_singleton. exists (agent_id g), [], u, 0%Z. by right.
  - intros c Hc. apply standing_app; [apply inv_codes; [done|by case_match]|].
    intros e ->%list_elem_of_singleton. by intros [].
  - intros r Hr. case_match; [by left|]. cbn in Hr. apply elem_of_app in Hr as [Hr| ->%list_elem_of_singleton]; [by left|by right].
Qed.

Lemma inv_step a w : inv w → inv (step a w).
Proof.
  intros Hw. destruct a as [|agent code by_ now|?|?|agent code ok|agent wall ok clean|agent user ok|gs|].
  - by apply inv_create.
  - cbn [step]. destruct (guards w !! agent) as [g|]; [|done]. destruct (pairing_lockout_remaining _ _ _); [done|].
    destruct Hw as [H1 H2 H3 H4 H5]. constructor; cbn; [done| |done| |done].
    + intros k g' by' u n [Hk|[_ Hk]]%lookup_app_Some; [by eapply H2|].
      apply list_lookup_singleton_Some in Hk as [_ ?]; done.
    + intros k a u Hk%H4. by apply lookup_app_l_Some.
  - by apply inv_take.
  - by apply inv_settle.
  - cbn [step]. unfold api_access_reject, reject_pairing, remove_pairing_code.
    destruct (guards w !! agent), ok; apply inv_delete; try done; apply without_sub.
  - cbn [step]. unfold api_access_pending, pending_pairings_list, list_pairing_codes.
    destruct (guards w !! agent), ok, clean; apply inv_delete; try done; apply without_sub.
  - cbn [step]. unfold api_access_remove_user, remove_allowed_user.
    destruct (guards w !! agent), ok; try (by apply inv_delete). cbn.
    apply inv_tables; [done|by intros e ->%list_elem_of_singleton| |].
    + cbn. intros c Hc. apply standing_app; [by apply inv_codes|]. intros e ->%list_elem_of_singleton. by intros [].
    + cbn. intros r [Hr Hn]%without_elem. split; [done|]. intros ?%list_elem_of_singleton. simplify_eq.
      unfold is_row in Hn. by rewrite bool_decide_eq_true_2 in Hn.
  - by destruct Hw.
  - destruct Hw as [H1 H2 H3 H4 H5]. constructor; cbn; [done| |done| |done].
    + intros k g by_ u n. rewrite list_lookup_fmap. by destruct (stages w !! k).
    + intros k a u Hk%H4. by rewrite list_lookup_fmap, Hk.
Qed.
Lemma inv_run acts w : inv w → inv (run acts w).
Proof. revert w. induction acts as [|a acts IH]; intros w Hw; [done|]. by apply IH, inv_step. Qed.
Lemma inv_fresh gs : inv (fresh gs).
Proof. constructor; cbn; [by intros c ?%not_elem_of_nil|done|by intros r ?%not_elem_of_nil|by intros k a u ?%not_elem_of_nil|constructor]. Qed.

(** C35: Who passes the access check of an agent was let in: there is no
    restriction, or it is the owner, or the user was paired and not removed
    since: an approval went through, which used a code that had been made for
    this user and agent at most five minutes before, and that no other
    approval had used and no newer code of the user had replaced.  An
    approval lets in at most one user.  This holds however the steps of
    approvals, requests for codes, restarts and removals fall between each
    other. *)
(* @prop safety defs=handle_access_check,is_allowed,handle_pairing_create,store_pairing_code,take_pairing_code,add_allowed_user,api_access_reject,api_access_remove_user witness=AccessWitness.paired_only_witness *)
Theorem paired_only acts gs agent user ok owner :
  let w := run acts (fresh gs) in
  handle_access_check (guards w) agent user ok (tables w) = (true, owner) →
  NoDup (omap grant_key (trace w)) ∧
  ∃ g, guards w !! agent = Some g ∧
       (restricted g = false ∨ owner_id g = Some user ∨ paired (agent_id g) user (trace w)).
Proof.
  intros w Hc. pose proof (inv_run acts _ (inv_fresh gs)) as Hw. fold w in Hw. split; [apply Hw|].
  unfold handle_access_check in Hc. destruct (guards w !! agent) as [g|]; [|done]. exists g. split; [done|].
  apply (f_equal fst) in Hc. cbn in Hc. unfold is_allowed, is_owner, is_user_allowed in Hc.
  destruct (restricted g); [|by left]. right. cbn in Hc. case_bool_decide; [by left|]. right.
  destruct ok; [|done]. cbn in Hc. apply existsb_elem in Hc as (r & Hr & Hp).
  unfold is_row in Hp. bool_hyps. destruct Hp as [<- <-]. by apply inv_allowed.
Qed.

(** ** How often codes can be guessed *)

(** One after the other: approvals, and anything else that happens to the
    tables between them. *)
Inductive Op :=
| OApprove (g : AccessGuard) (code approver : str) (before after wall : Z) (take_ok add_ok : bool)
| OTables (t : Tables).
Definition do_op (o : Op) (m : Attempts) (t : Tables) : Attempts * Tables * (bool * str) :=
  match o with
  | OApprove g code by_ before after wall take_ok add_ok => approve_pairing g code by_ before after wall take_ok add_ok m t
  | OTables t' => (m, t', (true, []))
  end.
(** For the agent [a], the operation was a wrong guess, or an approval that went through. *)
Definition tries (a : str) (o : Op) (m : Attempts) : bool :=
  match o with
  | OApprove g _ _ before _ _ _ _ =>
      bool_decide (agent_id g = a) && bool_decide (pairing_lockout_remaining a before m = None)
  | OTables _ => false
  end.
(** The wrong guesses and the successes of a sequence, and the counters after it. *)
Fixpoint tally (a : str) (ops : list Op) (m : Attempts) (t : Tables) : Z * Z * Attempts :=
  match ops with
  | [] => (0, 0, m)%Z
  | o :: ops =>
      let '(m', t', (ok, _)) := do_op o m t in
      let '(k, n, m'') := tally a ops m' t' in
      if tries a o m then (if ok then (k, n + 1, m'') else (k + 1, n, m''))%Z else (k, n, m'')
  end.
(** Clocks go forward. *)
Fixpoint ordered (t0 : Z) (ops : list Op) : Prop :=
  match ops with
  | [] => True
  | OApprove _ _ _ before after _ _ _ :: ops => (t0 <= before <= after)%Z ∧ ordered after ops
  | OTables _ :: ops => ordered t0 ops
  end.
Fixpoint finished_by (t1 : Z) (ops : list Op) : Prop :=
  match ops with
  | [] => True
  | OApprove _ _ _ _ after _ _ _ :: ops => (after <= t1)%Z ∧ finished_by t1 ops
  | OTables _ :: ops => finished_by t1 ops
  end.

Definition kept (now : Z) (e : PairingAttempt) : bool :=
  locked now e || (Z.max 0 (now - first_failure e) <=? PAIRING_FAILURE_WINDOW)%Z.
Definition swept (now : Z) (o : option PairingAttempt) : option PairingAttempt :=
  e ← o; if kept now e then Some e else None.
Definition failed (now : Z) (o : option PairingAttempt) : PairingAttempt :=
  let e := default (mkAttempt 0 now None) (swept now o) in
  let e := if (PAIRING_FAILURE_WINDOW <? Z.max 0 (now - first_failure e))%Z then mkAttempt 0 now None else e in
  let count := wrap 32 (fail_count e + 1) in
  mkAttempt count (first_failure e) (if (MAX_PAIRING_FAILURES <=? count)%Z then Some (now + PAIRING_LOCKOUT_DURATION)%Z else locked_until e).
Lemma sweep_lookup now m a : sweep_stale_pairing_entries now m !! a = swept now (m !! a).
Proof.
  unfold sweep_stale_pairing_entries, swept. rewrite map_lookup_filter. destruct (m !! a) as [e|]; [|done]. cbn.
  unfold kept. destruct (locked now e || _) eqn:Hk; [by rewrite option_guard_True|by rewrite option_guard_False].
Qed.
Lemma record_lookup now m a b :
  record_pairing_failure b now m !! a = if bool_decide (b = a) then Some (failed now (m !! a)) else swept now (m !! a).
Proof.
  unfold record_pairing_failure. case_bool_decide as Hb.
  - subst b. rewrite lookup_insert_eq. by rewrite sweep_lookup.
  - rewrite lookup_insert_ne by done. apply sweep_lookup.
Qed.
Lemma clear_lookup now m a b :
  clear_pairing_failures b now m !! a = if bool_decide (b = a) then (λ _, mkAttempt 0 now None) <$> m !! a else m !! a.
Proof. unfold clear_pairing_failures. case_bool_decide; [subst; apply lookup_alter_eq|by apply lookup_alter_ne]. Qed.

(** An entry at time [now]. *)
Definition entry_ok (now : Z) (e : PairingAttempt) : Prop :=
  (0 <= fail_count e <= 10 ∧ first_failure e <= now ∧
   match locked_until e with
   | None => fail_count e <= 9
   | Some l => fail_count e = 10 ∧ first_failure e + 900000 <= l
   end)%Z.
Definition free (now : Z) (o : option PairingAttempt) : Prop :=
  ∀ e l, o = Some e → locked_until e = Some l → (l <= now)%Z.
Lemma lockout_free a now m : pairing_lockout_remaining a now m = None ↔ free now (m !! a).
Proof.
  unfold pairing_lockout_remaining, free. destruct (m !! a) as [e|]; cbn; [|by split].
  destruct (locked_until e) as [l|] eqn:Hl; cbn.
  - destruct (Z.ltb_spec now l) as [Hlt|Hge]; split; intros H; [done| |intros ?? [= <-]; congruence|done].
    specialize (H e l eq_refl Hl). lia.
  - split; [|done]. intros _ ? l [= <-]. by rewrite Hl.
Qed.
Definition slot_ok (now : Z) (o : option PairingAttempt) : Prop := ∀ e, o = Some e → entry_ok now e.

Ltac attempt_cases :=
  unfold failed, swept, kept, locked, free, slot_ok, entry_ok, wrap,
    PAIRING_FAILURE_WINDOW, PAIRING_LOCKOUT_DURATION, MAX_PAIRING_FAILURES in *;
  change (5 * 60 * 1000)%Z with 300000%Z in *; change (15 * 60 * 1000)%Z with 900000%Z in *.

(** A failure of an agent that is not locked out: a window goes on, or a new one begins. *)
Lemma failed_cases before now o :
  (before <= now)%Z → slot_ok before o → free before o →
  (failed now o = mkAttempt 1 now None ∧
   ∀ e, o = Some e → locked_until e = None → 300000 < now - first_failure e)%Z ∨
  ∃ e, o = Some e ∧ locked_until e = None ∧ (now - first_failure e <= 300000)%Z ∧
    failed now o = mkAttempt (fail_count e + 1) (first_failure e)
                     (if (9 <=? fail_count e)%Z then Some (now + 900000)%Z else None).
Proof.
  intros Ht Hok Hf. attempt_cases. destruct o as [e|]; cbn.
  2: { left. split; [|done]. destruct (Z.ltb_spec 300000 (Z.max 0 (now - now))); [lia|]. done. }
  specialize (Hok e eq_refl) as (Hc & Hfi & Hl). destruct (locked_until e) as [l|] eqn:Hlo; cbn.
  - specialize (Hf e l eq_refl Hlo). left. split; [|intros ? [= <-]; congruence]. destruct (Z.ltb_spec now l); [lia|].
    destruct (Z.leb_spec (Z.max 0 (now - first_failure e)) 300000); [lia|].
    cbn. destruct (Z.ltb_spec 300000 (Z.max 0 (now - now))); [lia|]. done.
  - destruct (Z.leb_spec (Z.max 0 (now - first_failure e)) 300000); cbn.
    + right. exists e. destruct (Z.ltb_spec 300000 (Z.max 0 (now - first_failure e))); [lia|].
      split_and!; [done|done|lia|]. change (2 ^ 32)%Z with 4294967296%Z. rewrite Z.mod_small by lia.
      f_equal. rewrite Hlo. replace (10 <=? fail_count e + 1)%Z with (9 <=? fail_count e)%Z by lia.
      by destruct (9 <=? fail_count e)%Z.
    + left. split; [|intros ? [= <-] _; lia]. destruct (Z.ltb_spec 300000 (Z.max 0 (now - now))); [lia|]. done.
Qed.

Lemma slot_ok_later t0 t1 o : (t0 <= t1)%Z → slot_ok t0 o → slot_ok t1 o.
Proof. intros Ht Ho e He. destruct (Ho e He) as (? & ? & ?). split_and!; [lia|lia|lia|done]. Qed.
Lemma slot_ok_swept now o : slot_ok now o → slot_ok now (swept now o).
Proof. intros Ho e. unfold swept. destruct o as [e'|]; [|done]. cbn. case_match; [|done]. intros [= ->]. by apply Ho. Qed.
Lemma slot_ok_failed before now o :
  (before <= now)%Z → slot_ok before o → free before o → slot_ok now (Some (failed now o)).
Proof.
  intros Ht Ho Hf ? [= <-]. destruct (failed_cases before now o Ht Ho Hf) as [[-> _]|(e & -> & Hl & Hw & ->)].
  - unfold entry_ok; cbn; lia.
  - specialize (Ho e eq_refl) as (Hc & Hfi & Hn). rewrite Hl in Hn. unfold entry_ok; cbn.
    destruct (Z.leb_spec 9 (fail_count e)); cbn; lia.
Qed.

(** Of the guesses since [s], [k] were wrong and [n] right: those of the
    window that was open at [s] are in its count, and so are those of the
    present one. *)
Definition guess_budget (s k n : Z) (o : option PairingAttempt) : Prop :=
  (0 <= k ∧ 0 <= n ∧
   match o with
   | None => k <= 9 + 9 * n
   | Some e => ((s <= first_failure e ∧ k <= 9 + 9 * n + fail_count e) ∨ (first_failure e < s ∧ n = 0 ∧ k <= fail_count e)) ∧
               ∀ l, locked_until e = Some l → k = 0 ∨ s + 300000 < l
   end)%Z.
Lemma budget_start s now o : slot_ok now o → guess_budget s 0 0 o.
Proof.
  intros Ho. unfold guess_budget. split_and!; [lia|lia|]. destruct o as [e|]; [|lia].
  destruct (Ho e eq_refl) as (Hc & _). split; [|by left]. destruct (Z.le_gt_cases s (first_failure e)); lia.
Qed.
Lemma budget_end s now k n o : slot_ok now o → guess_budget s k n o → (k <= 19 + 9 * n)%Z.
Proof.
  intros Ho (Hk & Hn & Hb). destruct o as [e|]; [|lia]. destruct (Ho e eq_refl) as (Hc & _). lia.
Qed.
Lemma budget_failed s k n before now o :
  (s <= before <= now)%Z → (now <= s + 300000)%Z → slot_ok before o → free before o →
  guess_budget s k n o → guess_budget s (k + 1) n (Some (failed now o)).
Proof.
  intros [Hs Ht] Hw Ho Hf (Hk & Hn & Hb).
  destruct (failed_cases before now o Ht Ho Hf) as [[-> Hnew]|(e & -> & Hl & Hwin & ->)].
  - split_and!; [lia|lia| |done]. left. cbn. split; [lia|]. destruct o as [e|]; [|lia].
    destruct (Ho e eq_refl) as (Hc & _ & Hlo). destruct Hb as [Hb Hlk].
    destruct (locked_until e) as [l|] eqn:Hl; [|specialize (Hnew e eq_refl Hl); lia].
    specialize (Hf e l eq_refl Hl). destruct (Hlk l eq_refl); lia.
  - destruct Hb as [Hb _]. split_and!; [lia|lia| |].
    + cbn. destruct Hb as [?|?]; [left|right]; lia.
    + cbn. intros l Hlk. case_match; [|done]. injection Hlk as <-. right. lia.
Qed.
Lemma budget_swept s k n now o :
  (s <= now <= s + 300000)%Z → slot_ok now o → guess_budget s k n o → guess_budget s k n (swept now o).
Proof.
  intros Ht Ho (Hk & Hn & Hb). split_and!; [lia|lia|]. unfold swept. destruct o as [e|]; [|done]. cbn.
  destruct (kept now e) eqn:Hkept; [done|]. destruct (Ho e eq_refl) as (Hc & Hfi & Hlo). destruct Hb as [Hb Hlk].
  attempt_cases. destruct (locked_until e) as [l|]; bool_hyps; [destruct (Hlk l eq_refl)|]; lia.
Qed.
Lemma budget_cleared s k n before now o :
  (s <= before <= now)%Z → (now <= s + 300000)%Z → slot_ok before o → free before o →
  guess_budget s k n o → guess_budget s k (n + 1) ((λ _, mkAttempt 0 now None) <$> o).
Proof.
  intros [Hs Ht] Hw Ho Hf (Hk & Hn & Hb). split_and!; [lia|lia|]. destruct o as [e|]; cbn; [|lia].
  destruct (Ho e eq_refl) as (Hc & _ & Hlo). destruct Hb as [Hb Hlk]. split; [|done]. left. split; [lia|].
  destruct (locked_until e) as [l|] eqn:Hl; [|lia]. specialize (Hf e l eq_refl Hl). destruct (Hlk l eq_refl); lia.
Qed.

(** What one operation does to the entry of an agent. *)
Lemma do_op_entry a g code by_ before after wall tk ad m t m' t' ok info :
  do_op (OApprove g code by_ before after wall tk ad) m t = (m', t', (ok, info)) →
  m' !! a = m !! a ∧ tries a (OApprove g code by_ before after wall tk ad) m = false ∨
  tries a (OApprove g code by_ before after wall tk ad) m = false ∧ m' !! a = swept after (m !! a) ∨
  tries a (OApprove g code by_ before after wall tk ad) m = true ∧ free before (m !! a) ∧
    m' !! a = if ok then (λ _, mkAttempt 0 after None) <$> m !! a else Some (failed after (m !! a)).
Proof.
  cbn [do_op tries]. unfold approve_pairing. intros Hd.
  destruct (pairing_lockout_remaining (agent_id g) before m) as [r|] eqn:Hlock.
  { simplify_eq. left. split; [done|]. case_bool_decide as Ha; [subst a|done]. by rewrite Hlock. }
  destruct (take_for g tk code wall t) as [t1 r]. destruct (admit_taken g ad by_ r wall t1) as [t2 [res inf]].
  simplify_eq. unfold note_outcome. cbn [fst]. case_bool_decide as Ha.
  - subst a. rewrite Hlock. right; right. split_and!; [done|by apply lockout_free|].
    destruct ok; rewrite ?clear_lookup, ?record_lookup, bool_decide_eq_true_2; done.
  - destruct ok; rewrite ?clear_lookup, ?record_lookup, bool_decide_eq_false_2 by done; auto.
Qed.

Lemma slot_op a o m t m' t' r t0 :
  do_op o m t = (m', t', r) → ordered t0 [o] → slot_ok t0 (m !! a) →
  slot_ok (match o with OApprove _ _ _ _ after _ _ _ => after | OTables _ => t0 end) (m' !! a).
Proof.
  destruct o as [g code by_ before after wall tk ad|t1]; intros Hd Ho Hs; [|by simplify_eq/=].
  destruct Ho as [[Ht1 Ht2] _]. destruct r as [ok info].
  destruct (do_op_entry a _ _ _ _ _ _ _ _ _ _ _ _ _ _ Hd) as [[-> _]|[(_ & ->)|(_ & Hf & ->)]].
  - eapply slot_ok_later; [|done]. lia.
  - apply slot_ok_swept. eapply slot_ok_later; [|done]. lia.
  - assert (slot_ok before (m !! a)) as Hb by (eapply slot_ok_later; [|done]; lia).
    destruct ok; [|by eapply slot_ok_failed]. intros e. destruct (m !! a); [|done]. cbn. intros [= <-].
    unfold entry_ok; cbn; lia.
Qed.

Definition ends_at (t0 : Z) (o : Op) : Z := match o with OApprove _ _ _ _ after _ _ _ => after | OTables _ => t0 end.
Lemma ordered_cons t0 o ops : ordered t0 (o :: ops) → ordered t0 [o] ∧ (t0 <= ends_at t0 o)%Z ∧ ordered (ends_at t0 o) ops.
Proof. destruct o; cbn; [|done]. intros [? ?]. split; [by split|split; [lia|done]]. Qed.

(** Before the span the entry is some entry. *)
Lemma tally_slot a ops m t t0 k n m' :
  tally a ops m t = (k, n, m') → ordered t0 ops → slot_ok t0 (m !! a) → ∀ t1, (t0 <= t1)%Z → finished_by t1 ops → slot_ok t1 (m' !! a).
Proof.
  revert m t t0 k n m'. induction ops as [|o ops IH]; intros m t t0 k n m' Hty Ho Hs t1 Ht Hfin.
  - simplify_eq/=. by eapply slot_ok_later.
  - cbn in Hty. destruct (do_op o m t) as [[m1 t'] [ok inf]] eqn:Hd. destruct (tally a ops m1 t') as [[k1 n1] m2] eqn:Hty'.
    assert (m2 = m') as -> by (repeat case_match; by simplify_eq).
    apply ordered_cons in Ho as (Ho1 & _ & Ho2).
    eapply IH; [exact Hty'|exact Ho2| | |by destruct o; [apply Hfin|]].
    + destruct o; by eapply (slot_op _ _ _ _ _ _ _ _ Hd).
    + destruct o; [apply Hfin|done].
Qed.

(** The counters after one operation and the guesses it adds. *)
Lemma budget_op a o m t m' t' ok inf s t0 k n :
  do_op o m t = (m', t', (ok, inf)) → ordered t0 [o] → (s <= t0)%Z → (ends_at t0 o <= s + 300000)%Z →
  slot_ok t0 (m !! a) → guess_budget s k n (m !! a) →
  guess_budget s (if tries a o m then if ok then k else k + 1 else k)%Z
    (if tries a o m then if ok then n + 1 else n else n)%Z (m' !! a).
Proof.
  destruct o as [g code by_ before after wall tk ad|t1]; intros Hd Ho Hs Hw Hsl Hb; [|by simplify_eq/=].
  destruct Ho as [[Ht1 Ht2] _]. cbn [ends_at] in Hw.
  assert (∀ x, (t0 <= x)%Z → slot_ok x (m !! a)) as Hl by (intros x Hx; eapply slot_ok_later; [exact Hx|done]).
  destruct (do_op_entry a _ _ _ _ _ _ _ _ _ _ _ _ _ _ Hd) as [[-> ->]|[(-> & ->)|(-> & Hf & ->)]]; [done| |].
  - apply budget_swept; [lia|apply Hl; lia|done].
  - destruct ok; [eapply (budget_cleared s k n before)|eapply (budget_failed s k n before)]; (done || lia || (apply Hl; lia)).
Qed.

Lemma tally_budget a ops m t s t0 k0 n0 k n m' :
  tally a ops m t = (k, n, m') → ordered t0 ops → finished_by (s + 300000) ops → (s <= t0 <= s + 300000)%Z →
  slot_ok t0 (m !! a) → guess_budget s k0 n0 (m !! a) → guess_budget s (k0 + k) (n0 + n) (m' !! a).
Proof.
  revert m t t0 k0 n0 k n m'. induction ops as [|o ops IH]; intros m t t0 k0 n0 k n m' Hty Ho Hfin Ht Hs Hb.
  - simplify_eq/=. by rewrite !Z.add_0_r.
  - cbn in Hty. destruct (do_op o m t) as [[m1 t'] [ok inf]] eqn:Hd. destruct (tally a ops m1 t') as [[k1 n1] m2] eqn:Hty'.
    assert (ends_at t0 o <= s + 300000 ∧ finished_by (s + 300000) ops)%Z as [He Hfin'].
    { destruct o; [exact Hfin|]. cbn in *. split; [lia|done]. }
    apply ordered_cons in Ho as (Ho1 & Hle & Ho2).
    pose proof (budget_op a o m t m1 t' ok inf s t0 k0 n0 Hd Ho1 ltac:(lia) He Hs Hb) as Hb'.
    pose proof (slot_op a o m t m1 t' _ t0 Hd Ho1 Hs) as Hs'.
    specialize (IH _ _ (ends_at t0 o) _ _ _ _ _ Hty' Ho2 Hfin' ltac:(lia) Hs' Hb').
    destruct (tries a o m); [destruct ok|]; simplify_eq; [|by replace (k0 + (k1 + 1))%Z with (k0 + 1 + k1)%Z by lia|done].
    by replace (n0 + (n1 + 1))%Z with (n0 + 1 + n1)%Z by lia.
Qed.

(** Guessing codes is slow: when approvals come one after the other, then
    in any five minutes, whatever went on before and whatever happens to the
    tables and to other agents, at most nineteen wrong codes are looked up for
    an agent, and nine more for each approval that goes through. *)
Theorem guess_bound a pre ops t0 s t t' k0 n0 m k n m' :
  tally a pre ∅ t = (k0, n0, m) → ordered t0 pre → finished_by s pre → (t0 <= s)%Z →
  tally a ops m t' = (k, n, m') → ordered s ops → finished_by (s + PAIRING_FAILURE_WINDOW) ops →
  (k <= 19 + 9 * n)%Z.
Proof.
  intros Hpre Ho0 Hf0 Ht Hty Ho Hf. change PAIRING_FAILURE_WINDOW with 300000%Z in Hf.
  assert (slot_ok s (m !! a)) as Hs. { eapply (tally_slot a pre); [done|done| |done|done]. intros e. by rewrite lookup_empty. }
  pose proof (tally_budget a ops m t' s s 0 0 k n m' Hty Ho Hf ltac:(lia) Hs (budget_start _ _ _ Hs)) as Hb.
  eapply budget_end; [|exact Hb]. eapply (tally_slot a ops); [exact Hty|done|done| |exact Hf]. lia.
Qed.

(** After ten failures in five minutes nothing is looked up for a quarter of
    an hour: the tables stay as they are, a right code is refused as well. *)
Theorem lockout_holds g code by_ before after wall tk ad m t e l :
  m !! agent_id g = Some e → locked_until e = Some l → (before < l)%Z →
  ∃ secs, approve_pairing g code by_ before after wall tk ad m t = (m, t, (false, bs "locked_out:" ++ decZ secs)) ∧
          (0 <= secs)%Z ∧ (secs * 1000 <= l - before)%Z.
Proof.
  intros He Hl Hb. exists ((l - before) / 1000)%Z. unfold approve_pairing, pairing_lockout_remaining.
  rewrite He. cbn. rewrite Hl. cbn. destruct (Z.ltb_spec before l); [|lia]. split; [done|].
  pose proof (Z.div_pos (l - before) 1000 ltac:(lia) ltac:(lia)). pose proof (Z.mul_div_le (l - before) 1000 ltac:(lia)). lia.
Qed.

(** ** Examples *)

Module AccessWitness.
Definition bot : AccessGuard := mkGuard (bs "bot") (Some (bs "boss")) true.
Definition gs : Guards := {[bs "bot" := bot]}.
Definition ann : Action := ACreate (bs "bot") (bs "ann") (Some (bs "Ann")) 4711 1000 true.
Definition approved : list Action :=
  [ann; AStart (bs "bot") (bs "004711") (bs "owner") 0; ATake 0 300999 true; ASettle 0 10 301000 true].
Lemma paired_only_witness :
  ∃ owner, handle_access_check (guards (run approved (fresh gs))) (bs "bot") (bs "ann") true (tables (run approved (fresh gs))) = (true, owner) ∧
  paired (bs "bot") (bs "ann") (trace (run approved (fresh gs))).
Proof.
  exists false. split; [by vm_compute|].
  destruct (paired_only approved gs (bs "bot") (bs "ann") true false) as (_ & g & Hg & H); [by vm_compute|].
  assert (guards (run approved (fresh gs)) !! bs "bot" = Some bot) as He by (vm_compute; reflexivity).
  rewrite He in Hg. apply (inj Some) in Hg as <-. destruct H as [H|[H|H]]; [done..|exact H].
Defined.
(** A second later the code is too old. *)
Example code_expires :
  allowed_users (tables (run [ann; AStart (bs "bot") (bs "004711") (bs "owner") 0; ATake 0 302000 true; ASettle 0 10 302000 true]
                           (fresh gs))) = [].
Proof. by vm_compute. Qed.

Definition wrong (now : Z) : Op := OApprove bot (bs "999999") (bs "owner") now now 0 true true.
Definition no_tables : Tables := mkTables [] [].
(** Nine wrong guesses at the end of a window and ten in the next. *)
Definition nine_then_ten : list Op := (wrong <$> [299990; 299991; 299992; 299993; 299994; 299995; 299996; 299997]
  ++ [300001; 300002; 300003; 300004; 300005; 300006; 300007; 300008; 300009; 300010; 300011])%Z.
Lemma guess_bound_witness :
  (tally (bs "bot") nine_then_ten (tally (bs "bot") [wrong 0] ∅ no_tables).2 no_tables).1.1 = 18%Z ∧ (18 <= 19 + 9 * 0)%Z.
Proof.
  split; [by vm_compute|].
  eapply (guess_bound (bs "bot") [wrong 0] nine_then_ten 0 299990 no_tables no_tables);
    [vm_compute; reflexivity|vm_compute; intuition congruence|vm_compute; intuition congruence|vm_compute; congruence
    |vm_compute; reflexivity|vm_compute; intuition congruence|vm_compute; intuition congruence].
Defined.

(** Nine failures and a success, again and again, never lead to a lockout:
    the count starts over with each success. *)
Definition with_code : Tables := mkTables [mkCode (bs "bot") (bs "004711") (bs "ann") None 0] [].
Definition cycle (now : Z) : list Op :=
  (wrong <$> [now; now; now; now; now; now; now; now; now]%Z) ++
  [OTables with_code; OApprove bot (bs "004711") (bs "owner") now now 0 true true].
Example cycle_never_locks :
  (tally (bs "bot") (cycle 1 ++ cycle 2 ++ cycle 3) ∅ no_tables).1 = (27, 3)%Z.
Proof. by vm_compute. Qed.

(** Approvals in parallel all pass the look at the lockout before any of them
    has failed: twenty guesses at once, of which the tenth locks. *)
Definition burst : list Action :=
  replicate 20 (AStart (bs "bot") (bs "999999") (bs "owner") 0) ++
  ((λ k, ATake k 0 true) <$> seq 0 20) ++ ((λ k, ASettle k 0 0 true) <$> seq 0 20).
Example parallel_guesses :
  fail_count <$> counters (run burst (fresh gs)) !! bs "bot" = Some 20%Z.
Proof. by vm_compute. Qed.

(** A code that could not be stored is shown all the same; if it is another
    user's, approving it lets that user in. *)
Example collision_admits_other :
  let acts := [ann; ACreate (bs "bot") (bs "bob") None 4711 2000 true;
               AStart (bs "bot") (bs "004711") (bs "owner") 0; ATake 0 3000 true; ASettle 0 0 3000 true] in
  (handle_pairing_create gs (bs "bot") (bs "bob") None true 4711 2000 (tables (run [ann] (fresh gs)))).2 = bs "004711" ∧
  au_user <$> allowed_users (tables (run acts (fresh gs))) = [bs "ann"].
Proof. split; by vm_compute. Qed.

(** A code whose user cannot be stored is gone, and counts as a failure. *)
Example code_lost :
  let w := run [ann; AStart (bs "bot") (bs "004711") (bs "owner") 0; ATake 0 2000 true; ASettle 0 0 2000 false] (fresh gs) in
  tables w = no_tables ∧ fail_count <$> counters w !! bs "bot" = Some 1%Z.
Proof. split; by vm_compute. Qed.
End AccessWitness.
