(* ===== verification/ChannelTurns.v ===== *)
(** * Messages of a channel adapter

    The connection of a channel adapter
    ([gateway/handlers/channel_ws/]): how a message is classified
    ([reader.rs], [inline.rs]), the key of its session ([types.rs]), the queue
    of each session and its consumer ([session_queue.rs]), cancellation and
    the end of the connection ([mod.rs]).

    The reader, the consumers and the turns run concurrently.  An action of
    [step] is what one of them does under one lock or between two awaits, and
    a run is any list of actions.  Every accepted message gets a serial
    number, which also stands for its cancellation token. *)
From S2P Require Import Prelude Json Sessions.

(** ** Classification *)

Section routing.
Context {V : Type} `{Json V, JsonNumbers V}.

(* @src opex-types/src/channels.rs 54-69 IncomingMessageDto *)
Record IncomingMessageDto := mkDto {
  user_id : str;
  display_name : option str;
  text : option str;
  context : V;
}.
(* @src opex-types/src/lib.rs 122-128 json_scalar_to_string *)
Definition json_scalar_to_string (v : V) : option str :=
  match jas_str v with
  | Some s => if bool_decide (s = []) then None else Some s
  | None => if jis_number v then Some (jprint v) else None
  end.
(* @src opex-types/src/lib.rs 156-175 context_chat_scope *)
Definition context_chat_scope (ctx : V) : option str :=
  match jget ctx (bs "chat_id") with
  | Some v => json_scalar_to_string v
  | None =>
      match jget ctx (bs "guild_id") ≫= json_scalar_to_string, jget ctx (bs "channel_id") ≫= json_scalar_to_string with
      | Some g, Some c => Some (g ++ bs ":" ++ c)
      | Some g, None => Some g
      | None, Some c => Some c
      | None, None =>
          match jget ctx (bs "room_id") with
          | Some v => json_scalar_to_string v
          | None => v ← jget ctx (bs "channel"); json_scalar_to_string v
          end
      end
  end.
(* @src opex-types/src/channels.rs 77-79 chat_scope *)
Definition chat_scope (msg : IncomingMessageDto) : option str := context_chat_scope (context msg).

(* @src opex-core/src/gateway/handlers/channel_ws/inline.rs 529-534 is_callback *)
Definition is_callback (msg : IncomingMessageDto) : bool :=
  default false (v ← jget (context msg) (bs "is_callback"); jas_bool v).
Definition text_of (msg : IncomingMessageDto) : str := default [] (text msg).
Definition begins (s : string) (msg : IncomingMessageDto) : bool := starts_with (bs s) (text_of msg).
(* @src opex-core/src/gateway/handlers/channel_ws/inline.rs 537-541 approval_matches *)
Definition approval_matches (msg : IncomingMessageDto) : bool :=
  is_callback msg && (begins "approve:" msg || begins "reject:" msg).
(* @src opex-core/src/gateway/handlers/channel_ws/inline.rs 544-549 initiative_matches *)
Definition initiative_matches (msg : IncomingMessageDto) : bool :=
  is_callback msg && (begins "iappr:" msg || begins "idismiss:" msg || begins "icancel:" msg
                      || begins "dpm:approve:" msg || begins "dpm:dismiss:" msg).
(* @src opex-core/src/gateway/handlers/channel_ws/inline.rs 552-556 infra_matches *)
Definition infra_matches (msg : IncomingMessageDto) : bool :=
  is_callback msg && (begins "infra:ok:" msg || begins "infra:no:" msg).
(** [str::split_once] *)
Definition split_once (c : ascii) (s : str) : option (str * str) :=
  i ← find_char c s; Some (take i s, drop (S i) s).
Context (parse_uuid : str → option str).
(* @src opex-core/src/gateway/handlers/channel_ws/inline.rs 518-526 parse_clarify_callback *)
Definition parse_clarify_callback (t : str) : option (str * str) :=
  rest ← strip_prefix (bs "clarify:") t;
  '(id_str, slot) ← split_once ":"%char rest;
  id ← parse_uuid id_str;
  if bool_decide (slot = []) then None else Some (id, slot).
(* @src opex-core/src/gateway/handlers/channel_ws/inline.rs 559-562 clarify_cb_matches *)
Definition clarify_cb_matches (msg : IncomingMessageDto) : bool :=
  is_callback msg && bool_decide (is_Some (parse_clarify_callback (text_of msg))).

(** Where the reader sends a message. *)
Inductive Route := RNotReady | RApproval | RInitiative | RInfra | RClarifyButton | RClarifyText | RTurn.
(* @src opex-core/src/gateway/handlers/channel_ws/reader.rs 104-197 run (ChannelInbound::Message) *)
Definition route (channel_type : str) (has_any_pending : bool) (msg : IncomingMessageDto) : Route :=
  if bool_decide (channel_type = bs "unknown") then RNotReady
  else if approval_matches msg then RApproval
  else if initiative_matches msg then RInitiative
  else if infra_matches msg then RInfra
  else if clarify_cb_matches msg then RClarifyButton
  else if negb (is_callback msg) && has_any_pending then RClarifyText
  else RTurn.
End routing.

(** ** The key of a session *)

(* @src opex-core/src/gateway/handlers/channel_ws/types.rs 45-50 SessionKey *)
Record SessionKey := mkKey {
  agent_name : str;
  eff_user : str;
  eff_channel : str;
  eff_chat_scope : option str;
}.
#[export] Instance session_key_eq_dec : EqDecision SessionKey.
Proof. solve_decision. Defined.
#[export] Instance session_key_countable : Countable SessionKey.
Proof.
  refine (inj_countable' (λ k, (agent_name k, eff_user k, eff_channel k, eff_chat_scope k))
            (λ '(a, u, c, s), mkKey a u c s) _). by intros [].
Defined.
(* @src opex-core/src/gateway/handlers/channel_ws/types.rs 53-68 from_inbound *)
Definition from_inbound (agent user channel dm_scope : str) (chat : option str) : SessionKey :=
  let '(u, c, s) := dm_scope_keys user channel dm_scope chat in mkKey agent u c s.

(** ** Queues *)

(* @src opex-core/src/gateway/handlers/channel_ws/session_queue.rs 30-41 QueuedTurn *)
Record QueuedTurn := mkTurn {
  serial : nat;
  request_id : str;
}.
(* @src opex-core/src/gateway/handlers/channel_ws/types.rs 87-95 InflightMessage *)
Record InflightMessage := mkInflight {
  im_cancel : nat;
  im_abort : bool;
}.
(** The frames that answer a request; a reply that finds no connection any more
    is stored for the next one. *)
Inductive Frame :=
| Done (rid text : str)
| Error (rid message : str)
| StoredReply (rid text : str).
Definition frame_rid (f : Frame) : str := match f with Done r _ | Error r _ | StoredReply r _ => r end.
(** What happened, the oldest first. *)
Inductive Event :=
| Received (k : SessionKey) (n : nat) (rid : str)
| Began (k : SessionKey) (n : nat)
| Skipped (k : SessionKey) (n : nat)
| Ended (k : SessionKey) (n : nat)
| Cancelled (n : nat).

(** [queues]: what each consumer has still to take; [running]: the turn it waits for. *)
Record World := mkWorld {
  next : nat;
  inflight : gmap str InflightMessage;
  cancelled : gset nat;
  queues : gmap SessionKey (list QueuedTurn);
  running : gmap SessionKey QueuedTurn;
  frames : list Frame;
  hist : list Event;
  closed : bool;
}.
Definition queue (w : World) (k : SessionKey) : list QueuedTurn := default [] (queues w !! k).

(** How the task of a turn ends: with what the engine answered, or by a
    panic or an abort. *)
Inductive TurnEnd :=
| Answered (live : bool) (r : result str str)
| Died.
(** [in_time]: what the engine answered before the timeout; [in_grace]: what it
    answered in the twenty seconds after it was told to stop.  Whether the
    timeout cancelled the turn is returned as well. *)
(* @src opex-core/src/gateway/handlers/channel_ws/session_queue.rs 192-213 run_turn_body (timeout) *)
Definition turn_result (timeout_secs : Z) (in_time : option (result str str)) (in_grace : option (result str str)) : option (result str str) * bool :=
  if (0 <? timeout_secs)%Z then
    match in_time with
    | Some r => (Some r, false)
    | None =>
        (Some (match in_grace with
               | Some r => r
               | None => Err (bs "Request timed out after " ++ decZ timeout_secs ++
                              bs "s. The task was too complex or an external service was slow.")
               end), true)
    end
  else (in_time, false).
(** [live]: the writer takes the frame. *)
(* @src opex-core/src/gateway/handlers/channel_ws/session_queue.rs 218-258 run_turn_body (final frame) *)
Definition final_frame (live : bool) (rid : str) (r : result str str) : list Frame :=
  let '(msg, reply) := match r with Ok t => (Done rid t, t) | Err e => (Error rid e, e) end in
  if live then [msg] else if bool_decide (reply = []) then [] else [StoredReply rid reply].

(** The reader registers the turn, then puts it in the queue of its session. *)
(* @src opex-core/src/gateway/handlers/channel_ws/reader.rs 281-325 enqueue_turn *)
Definition enqueue_turn (rid : str) (k : SessionKey) (w : World) : World :=
  let n := next w in
  mkWorld (S n) (<[rid := mkInflight n false]> (inflight w)) (cancelled w)
    (<[k := queue w k ++ [mkTurn n rid]]> (queues w)) (running w) (frames w) (hist w ++ [Received k n rid]) (closed w).
(** The consumer takes the next turn, and skips it or starts it. *)
(* @src opex-core/src/gateway/handlers/channel_ws/session_queue.rs 110-145 consumer *)
Definition consumer_take (k : SessionKey) (w : World) : World :=
  match running w !! k, queue w k with
  | None, t :: rest =>
      let qs := <[k := rest]> (queues w) in
      let rid := request_id t in
      match inflight w !! rid with
      | None => mkWorld (next w) (inflight w) (cancelled w) qs (running w) (frames w) (hist w ++ [Skipped k (serial t)]) (closed w)
      | Some im =>
          if bool_decide (im_cancel im ∈ cancelled w)
          then mkWorld (next w) (delete rid (inflight w)) (cancelled w) qs (running w) (frames w) (hist w ++ [Skipped k (serial t)]) (closed w)
          else mkWorld (next w) (<[rid := mkInflight (im_cancel im) true]> (inflight w)) (cancelled w) qs (<[k := t]> (running w))
                 (frames w) (hist w ++ [Began k (serial t)]) (closed w)
      end
  | _, _ => w
  end.
(** The turn the consumer waits for ends; it sends its final frame itself. *)
(* @src opex-core/src/gateway/handlers/channel_ws/session_queue.rs 142-143 consumer (end of a turn) *)
Definition consumer_end (k : SessionKey) (e : TurnEnd) (w : World) : World :=
  match running w !! k with
  | Some t =>
      mkWorld (next w) (delete (request_id t) (inflight w)) (cancelled w) (queues w) (delete k (running w))
        (frames w ++ match e with Answered live r => final_frame live (request_id t) r | Died => [] end)
        (hist w ++ [Ended k (serial t)]) (closed w)
  | None => w
  end.
(* @src opex-core/src/gateway/handlers/channel_ws/session_queue.rs 268-282 cancel *)
Definition cancel (rid : str) (w : World) : World * bool :=
  match inflight w !! rid with
  | Some im => (mkWorld (next w) (delete rid (inflight w)) ({[im_cancel im]} ∪ cancelled w) (queues w) (running w) (frames w)
                  (hist w ++ [Cancelled (im_cancel im)]) (closed w), true)
  | None => (w, false)
  end.
(* @src opex-core/src/gateway/handlers/channel_ws/reader.rs 207-222 run (ChannelInbound::Cancel) *)
Definition handle_cancel (rid : str) (w : World) : World :=
  let '(w, found) := cancel rid w in
  if found then mkWorld (next w) (inflight w) (cancelled w) (queues w) (running w) (frames w ++ [Error rid (bs "Cancelled")]) (hist w) (closed w)
  else w.
(** The reader is gone: what is in flight is told to stop. *)
(* @src opex-core/src/gateway/handlers/channel_ws/mod.rs 345-358 channel_ws_loop (tear down of turns) *)
Definition teardown (w : World) : World :=
  mkWorld (next w) ∅ (list_to_set (im_cancel <$> (map_to_list (inflight w)).*2) ∪ cancelled w) (queues w) (running w) (frames w) (hist w) true.

Inductive Action :=
| AMessage (rid : str) (k : SessionKey)
| ATake (k : SessionKey)
| AEnd (k : SessionKey) (e : TurnEnd)
| ACancel (rid : str)
| ATeardown.
Definition step (a : Action) (w : World) : World :=
  match a with
  | AMessage rid k => if closed w then w else enqueue_turn rid k w
  | ATake k => consumer_take k w
  | AEnd k e => consumer_end k e w
  | ACancel rid => if closed w then w else handle_cancel rid w
  | ATeardown => teardown w
  end.
Definition run (acts : list Action) (w : World) : World := foldl (λ w a, step a w) w acts.
Definition connected : World := mkWorld 0 ∅ ∅ ∅ ∅ [] [] false.

(** ** What the trace says of a session *)

Definition at_key {A} (k k' : SessionKey) (x : A) : option A := if bool_decide (k' = k) then Some x else None.
Definition received (k : SessionKey) (h : list Event) : list nat :=
  omap (λ e, match e with Received k' n _ => at_key k k' n | _ => None end) h.
Definition handled (k : SessionKey) (h : list Event) : list nat :=
  omap (λ e, match e with Skipped k' n | Ended k' n => at_key k k' n | _ => None end) h.
(** One turn at a time: [None] when a turn begins while another one runs, or
    one ends that does not run; else the turn that runs at the end. *)
Definition turn_by_turn (k : SessionKey) (cur : option (option nat)) (e : Event) : option (option nat) :=
  c ← cur;
  match e with
  | Began k' n => if bool_decide (k' = k) then (if c is None then Some (Some n) else None) else Some c
  | Ended k' n => if bool_decide (k' = k) then (if decide (c = Some n) then Some None else None) else Some c
  | _ => Some c
  end.
Definition replayed (k : SessionKey) (h : list Event) : option (option nat) := foldl (turn_by_turn k) (Some None) h.

Lemma received_app k h1 h2 : received k (h1 ++ h2) = received k h1 ++ received k h2.
Proof. apply omap_app. Qed.
Lemma handled_app k h1 h2 : handled k (h1 ++ h2) = handled k h1 ++ handled k h2.
Proof. apply omap_app. Qed.
Lemma replayed_app k h e : replayed k (h ++ [e]) = turn_by_turn k (replayed k h) e.
Proof. unfold replayed. by rewrite foldl_app. Qed.
Lemma queue_insert w k k' q qs nx fl ca ru fr hi cl :
  qs = <[k := q]> (queues w) → queue (mkWorld nx fl ca qs ru fr hi cl) k' = if bool_decide (k = k') then q else queue w k'.
Proof.
  intros ->. unfold queue; cbn. case_bool_decide; [subst; by rewrite lookup_insert_eq|by rewrite lookup_insert_ne].
Qed.

Definition in_order (w : World) : Prop := ∀ k,
  received k (hist w) = handled k (hist w) ++ option_list (serial <$> running w !! k) ++ (serial <$> queue w k) ∧
  replayed k (hist w) = Some (serial <$> running w !! k).

Lemma in_order_step a w : in_order w → in_order (step a w).
Proof.
  intros Hw. destruct a as [rid k0|k0|k0 e|rid|]; cbn [step].
  - destruct (closed w); [done|]. intros k. destruct (Hw k) as [H1 H2]. unfold enqueue_turn. cbn [hist running].
    rewrite received_app, handled_app, replayed_app, H1, H2. cbn. unfold at_key.
    erewrite queue_insert by done. case_bool_decide; [|by rewrite !app_nil_r].
    subst k0. split; [|done]. rewrite fmap_app. cbn. rewrite !app_nil_r. by rewrite <- !(assoc_L (++)).
  - unfold consumer_take. destruct (running w !! k0) as [?|] eqn:Hr; [done|]. destruct (queue w k0) as [|t rest] eqn:Hq; [done|].
    cbv zeta. intros k. destruct (Hw k) as [H1 H2].
    destruct (inflight w !! request_id t) as [im|]; [case_bool_decide|]; cbn [hist running];
      rewrite received_app, handled_app, replayed_app, H1, H2; cbn; unfold at_key; erewrite queue_insert by done;
      (destruct (bool_decide_reflect (k0 = k)) as [->|Hk]; [rewrite Hr, Hq|]; cbn; rewrite ?lookup_insert_eq, ?lookup_insert_ne by done);
      rewrite ?app_nil_r; cbn; (split; [|done]); by rewrite <- ?(assoc_L (++)).
  - unfold consumer_end. destruct (running w !! k0) as [t|] eqn:Hr; [|done]. intros k. destruct (Hw k) as [H1 H2].
    cbn [hist running]. rewrite received_app, handled_app, replayed_app, H1, H2. unfold queue; cbn. unfold at_key.
    destruct (bool_decide_reflect (k0 = k)) as [->|Hk]; cbn.
    + rewrite lookup_delete_eq, Hr. cbn. rewrite decide_True by done. rewrite app_nil_r. split; [|done]. by rewrite <- (assoc_L (++)).
    + rewrite lookup_delete_ne by done. by rewrite !app_nil_r.
  - destruct (closed w); [done|]. unfold handle_cancel, cancel. destruct (inflight w !! rid) as [im|]; [|done].
    intros k. destruct (Hw k) as [H1 H2]. unfold queue in *; cbn -[received handled replayed]. rewrite received_app, handled_app, replayed_app, H1, H2.
    cbn. by rewrite !app_nil_r.
  - exact Hw.
Qed.
Lemma in_order_run acts w : in_order w → in_order (run acts w).
Proof. revert w. induction acts as [|a acts IH]; intros w Hw; [done|]. by apply IH, in_order_step. Qed.
Lemma in_order_connected : in_order connected.
Proof. done. Qed.

(** C14: On one connection, the messages of a session are handled one at a time
    and in the order in which they were put into its queue (each is queued by a
    task of its own, so two that arrive together may be queued in either
    order): what was queued is what was finished or skipped, then the turn
    that runs, then the queue; nothing is lost, doubled or overtaken, and no
    turn begins while another one of its session runs. *)
(* @prop invariant defs=enqueue_turn,consumer_take,consumer_end,cancel,teardown *)
Theorem turns_in_order acts k :
  let w := run acts connected in
  received k (hist w) = handled k (hist w) ++ option_list (serial <$> running w !! k) ++ (serial <$> queue w k) ∧
  replayed k (hist w) = Some (serial <$> running w !! k).
Proof. exact (in_order_run acts _ in_order_connected k). Qed.

(** ** Request ids used once *)

(** The messages accepted, by request id and serial number. *)
Definition messages (h : list Event) : list (str * nat) :=
  omap (λ e, match e with Received _ n rid => Some (rid, n) | _ => None end) h.
Definition rids (acts : list Action) : list str :=
  omap (λ a, match a with AMessage rid _ => Some rid | _ => None end) acts.
Definition held (w : World) (k : SessionKey) (t : QueuedTurn) : Prop := t ∈ queue w k ∨ running w !! k = Some t.

Lemma accepted_app h1 h2 : messages (h1 ++ h2) = messages h1 ++ messages h2.
Proof. apply omap_app. Qed.
Lemma messages_elem h rid n : (rid, n) ∈ messages h ↔ ∃ k, Received k n rid ∈ h.
Proof.
  unfold messages. rewrite list_elem_of_omap. split.
  - intros (e & He & Hs). destruct e; simplify_eq. eauto.
  - intros (k & Hk). eauto.
Qed.

Record tracked (past : list str) (w : World) : Prop := mkTracked {
  tr_serials : (messages (hist w)).*2 = seq 0 (next w);
  tr_rids : (messages (hist w)).*1 `sublist_of` past;
  tr_once : NoDup past;
  tr_held : ∀ k t, held w k t → Received k (serial t) (request_id t) ∈ hist w;
  tr_inflight : ∀ rid im, inflight w !! rid = Some im → (rid, im_cancel im) ∈ messages (hist w);
  tr_cancelled : ∀ n, Cancelled n ∈ hist w → n ∈ cancelled w;
  tr_began : ∀ h1 h2 k n, hist w = h1 ++ Began k n :: h2 → Cancelled n ∉ h1;
}.

Section tracked.
Context (past : list str) (w : World) (Hw : tracked past w).
Lemma rid_serial rid n n' : (rid, n) ∈ messages (hist w) → (rid, n') ∈ messages (hist w) → n = n'.
Proof.
  intros H1 H2. pose proof (sublist_NoDup _ _ (tr_once _ _ Hw) (tr_rids _ _ Hw)) as Hnd.
  apply list_elem_of_lookup in H1 as [i Hi], H2 as [j Hj].
  assert (i = j) as ->; [|congruence].
  apply (NoDup_lookup _ i j rid Hnd); rewrite list_lookup_fmap; [by rewrite Hi|by rewrite Hj].
Qed.
Lemma serial_rid rid rid' n : (rid, n) ∈ messages (hist w) → (rid', n) ∈ messages (hist w) → rid = rid'.
Proof.
  intros H1 H2. assert (NoDup (messages (hist w)).*2) as Hnd by (rewrite (tr_serials _ _ Hw); apply NoDup_seq).
  apply list_elem_of_lookup in H1 as [i Hi], H2 as [j Hj].
  assert (i = j) as ->; [|congruence].
  apply (NoDup_lookup _ i j n Hnd); rewrite list_lookup_fmap; [by rewrite Hi|by rewrite Hj].
Qed.
Lemma held_token k t im : held w k t → inflight w !! request_id t = Some im → im_cancel im = serial t.
Proof.
  intros Ht%(tr_held _ _ Hw) Hi%(tr_inflight _ _ Hw). eapply rid_serial; [exact Hi|].
  apply messages_elem. eauto.
Qed.
End tracked.

(** Events that are neither receptions nor cancellations. *)
Lemma split_snoc {A} (l h1 h2 : list A) x y :
  l ++ [x] = h1 ++ y :: h2 → (∃ h2', l = h1 ++ y :: h2') ∨ (l = h1 ∧ x = y).
Proof.
  destruct (decide (h2 = [])) as [->|Hn].
  - intros Hs. apply app_inj_2 in Hs as [-> Hs]; [|done]. right. by simplify_eq.
  - destruct (exists_last Hn) as (h2' & z & ->). intros Hs. left. exists h2'.
    rewrite app_comm_cons, (assoc_L (++)) in Hs. apply app_inj_2 in Hs as [-> _]; done.
Qed.
Lemma tracked_quiet past w fl ca qs ru fr e cl :
  let w' := mkWorld (next w) fl ca qs ru fr (hist w ++ [e]) cl in
  tracked past w → messages [e] = [] → (∀ n, e ≠ Cancelled n) → cancelled w ⊆ ca →
  (∀ k t, held w' k t → held w k t) →
  (∀ rid im, fl !! rid = Some im → ∃ im', inflight w !! rid = Some im' ∧ im_cancel im' = im_cancel im) →
  (∀ k n, e = Began k n → Cancelled n ∉ hist w) → tracked past w'.
Proof.
  intros w' [H1 H2 H3 H4 H5 H6 H7] He Hc Hca Hh Hf Hb. subst w'. constructor; cbn [hist next cancelled inflight].
  - by rewrite accepted_app, He, app_nil_r.
  - by rewrite accepted_app, He, app_nil_r.
  - done.
  - intros k t Ht%Hh%H4. apply elem_of_app. by left.
  - intros rid im (im' & Hi & <-)%Hf. rewrite accepted_app, He, app_nil_r. by apply H5.
  - intros n [Hn|Hn]%elem_of_app; [by apply Hca, H6|]. apply list_elem_of_singleton in Hn. by destruct (Hc n).
  - intros h1 h2 k n Hs. apply split_snoc in Hs as [[h2' Hs]|[<- ->]]; [by eapply H7|by eapply Hb].
Qed.

Lemma tracked_step a past w :
  NoDup (past ++ rids [a]) → tracked past w → tracked (past ++ rids [a]) (step a w).
Proof.
  intros Hnd Hw. destruct a as [rid k0|k0|k0 e|rid|]; cbn [rids omap list_omap] in *; rewrite ?app_nil_r in *; cbn [step].
  - destruct Hw as [H1 H2 H3 H4 H5 H6 H7].
    assert ((messages (hist w)).*1 `sublist_of` past ++ [rid]) as Hsub by (by apply sublist_inserts_r).
    destruct (closed w); [by constructor|]. constructor; cbn [enqueue_turn hist next cancelled inflight].
    + rewrite accepted_app, fmap_app, H1, seq_S. done.
    + rewrite accepted_app, fmap_app. by apply sublist_app.
    + done.
    + intros k t Ht. apply elem_of_app. destruct Ht as [Ht|Ht]; [|left; by apply H4; right].
      unfold enqueue_turn in Ht. erewrite queue_insert in Ht by done. case_bool_decide; [|left; by apply H4; left]. subst.
      apply elem_of_app in Ht as [Ht| ->%list_elem_of_singleton]; [left; by apply H4; left|right; apply list_elem_of_here].
    + intros r im. rewrite accepted_app. intros [[<- <-]|[Hne Hl]]%lookup_insert_Some; apply elem_of_app; [right; apply list_elem_of_here|left; by apply H5].
    + intros n [Hn|Hn]%elem_of_app; [by apply H6|]. by apply list_elem_of_singleton in Hn.
    + intros h1 h2 k n Hs. apply split_snoc in Hs as [[h2' Hs]|[_ ?]]; [by eapply H7|done].
  - unfold consumer_take. destruct (running w !! k0) as [?|] eqn:Hr; [done|]. destruct (queue w k0) as [|t rest] eqn:Hq; [done|].
    assert (held w k0 t) as Ht by (left; rewrite Hq; apply list_elem_of_here).
    assert (∀ k t', t' ∈ (if bool_decide (k0 = k) then rest else queue w k) → held w k t') as Hrest.
    { intros k t' Hin. left. case_bool_decide; [subst; rewrite Hq; by apply list_elem_of_further|done]. }
    cbv zeta. destruct (inflight w !! request_id t) as [im|] eqn:Hi; [case_bool_decide as Hc|].
    + apply tracked_quiet; try done.
      * intros k t' [Hin|Hin]; [|by right]. erewrite queue_insert in Hin by done. by apply Hrest.
      * intros r im' [_ Hl]%lookup_delete_Some. eauto.
    + apply tracked_quiet; try done.
      * intros k t' [Hin|Hin]; [erewrite queue_insert in Hin by done; by apply Hrest|].
        cbn in Hin. apply lookup_insert_Some in Hin as [[<- <-]|[_ Hin]]; [done|by right].
      * intros r im' [[<- <-]|[_ Hl]]%lookup_insert_Some; [by exists im|eauto].
      * intros k n [= <- <-] Hin%(tr_cancelled _ _ Hw). apply Hc. by rewrite (held_token _ _ Hw _ _ _ Ht Hi).
    + apply tracked_quiet; try done; [|eauto].
      intros k t' [Hin|Hin]; [|by right]. erewrite queue_insert in Hin by done. by apply Hrest.
  - unfold consumer_end. destruct (running w !! k0) as [t|] eqn:Hr; [|done]. apply tracked_quiet; try done.
    + intros k t' [Hin|Hin]; [by left|]. cbn in Hin. apply lookup_delete_Some in Hin as [_ Hin]. by right.
    + intros r im' [_ Hl]%lookup_delete_Some. eauto.
  - destruct (closed w); [done|]. unfold handle_cancel, cancel. destruct (inflight w !! rid) as [im|] eqn:Hi; [|done].
    destruct Hw as [H1 H2 H3 H4 H5 H6 H7]. constructor; cbn [hist next cancelled inflight queues].
    + by rewrite accepted_app, app_nil_r.
    + by rewrite accepted_app, app_nil_r.
    + done.
    + intros k t Ht. apply elem_of_app. left. by apply H4.
    + intros r im' [_ Hl]%lookup_delete_Some. rewrite accepted_app, app_nil_r. by apply H5.
    + intros n [Hn|Hn]%elem_of_app; [apply H6 in Hn; set_solver|]. apply list_elem_of_singleton in Hn. set_solver.
    + intros h1 h2 k n Hs. apply split_snoc in Hs as [[h2' Hs]|[_ ?]]; [by eapply H7|done].
  - destruct Hw as [H1 H2 H3 H4 H5 H6 H7]. constructor; cbn [teardown hist next cancelled inflight]; try done.
    intros n Hn%H6. set_solver.
Qed.
Lemma rids_app a b : rids (a ++ b) = rids a ++ rids b.
Proof. apply omap_app. Qed.
Lemma tracked_run acts past w :
  NoDup (past ++ rids acts) → tracked past w → tracked (past ++ rids acts) (run acts w).
Proof.
  revert past w. induction acts as [|a acts IH]; intros past w Hnd Hw; [by rewrite app_nil_r|].
  assert (rids (a :: acts) = rids [a] ++ rids acts) as Hr by (by destruct a).
  rewrite Hr, (assoc_L (++)) in *. apply IH; [done|]. apply tracked_step; [by apply NoDup_app in Hnd as [? _]|done].
Qed.
Lemma tracked_connected : tracked [] connected.
Proof.
  constructor; cbn; try done; try constructor.
  - intros k t [Ht|Ht]; [by apply not_elem_of_nil in Ht|cbn [connected running] in Ht; by rewrite lookup_empty in Ht].
  - intros n Hn. by apply not_elem_of_nil in Hn.
  - by intros [|? ?] h2 k n.
Qed.

(** A message that was cancelled while it waited never starts, when
    request ids are not used twice. *)
Theorem cancelled_never_begins acts h1 h2 k n :
  NoDup (rids acts) → hist (run acts connected) = h1 ++ Began k n :: h2 → Cancelled n ∉ h1.
Proof. intros Hnd. apply (tr_began _ _ (tracked_run acts [] connected Hnd tracked_connected)). Qed.

(** ** Answers *)

(** While the connection lasts and no turn dies. *)
Definition peaceful (a : Action) : Prop :=
  match a with AEnd _ (Answered live _) => live = true | AEnd _ Died | ATeardown => False | _ => True end.
Definition answered (w : World) (rid : str) : Prop := ∃ f, f ∈ frames w ∧ frame_rid f = rid.
Record answering (w : World) : Prop := mkAnswering {
  an_open : closed w = false;
  an_past : ∀ n, n ∈ cancelled w → n < next w;
  an_tokens : ∀ rid im, inflight w !! rid = Some im → im_cancel im ∉ cancelled w;
  an_held : ∀ k t, held w k t → inflight w !! request_id t = None → answered w (request_id t);
  an_handled : ∀ k n rid, n ∈ handled k (hist w) → (rid, n) ∈ messages (hist w) → answered w rid;
}.

Lemma handled_one k h e n : n ∈ handled k (h ++ [e]) → n ∈ handled k h ∨ e = Skipped k n ∨ e = Ended k n.
Proof.
  rewrite handled_app. intros [?|Hn]%elem_of_app; [by left|]. right.
  destruct e as [| |k' m|k' m|]; cbn in Hn; try (by apply not_elem_of_nil in Hn);
    unfold at_key in Hn; (case_bool_decide; [|by apply not_elem_of_nil in Hn]);
    apply list_elem_of_singleton in Hn as ->; subst; auto.
Qed.
Lemma received_messages k h n : n ∈ received k h ↔ ∃ rid, Received k n rid ∈ h.
Proof.
  unfold received. rewrite list_elem_of_omap. split.
  - intros (e & He & Hs). destruct e; try done. unfold at_key in Hs. case_bool_decide; simplify_eq. eauto.
  - intros (rid & Hk). exists (Received k n rid). unfold at_key. by rewrite bool_decide_eq_true_2.
Qed.
Lemma received_NoDup k h : NoDup (messages h).*2 → NoDup (received k h).
Proof.
  intros Hnd. eapply sublist_NoDup; [exact Hnd|]. clear. induction h as [|e h IH]; [constructor|].
  destruct e as [k' n rid| | | |]; cbn; try exact IH. unfold at_key. case_bool_decide; by constructor.
Qed.

Lemma same_rid past w k k' t t' :
  tracked past w → held w k t → held w k' t' → request_id t' = request_id t → k' = k ∧ serial t' = serial t.
Proof.
  intros Hw H1%(tr_held _ _ Hw) H2%(tr_held _ _ Hw) Hr. rewrite Hr in H2.
  assert (serial t' = serial t) as Hs by (eapply (rid_serial past w Hw); apply messages_elem; eauto).
  split; [|done]. rewrite Hs in H2. clear Hr Hs.
  assert (NoDup (messages (hist w)).*2) as Hnd by (rewrite (tr_serials _ _ Hw); apply NoDup_seq).
  assert (∀ h k0, Received k0 (serial t) (request_id t) ∈ h → serial t ∈ (messages h).*2) as Hin.
  { intros h k0 Hk. apply list_elem_of_fmap. exists (request_id t, serial t). split; [done|]. apply messages_elem. eauto. }
  apply list_elem_of_split in H1 as (a & b & Hab). rewrite Hab in H2, Hnd. rewrite accepted_app, fmap_app in Hnd.
  cbn in Hnd. apply NoDup_app in Hnd as (_ & Hd & Hnd). apply NoDup_cons in Hnd as [Hnb _].
  apply elem_of_app in H2 as [H2|H2]; [|apply elem_of_cons in H2 as [H2|H2]].
  - exfalso. apply (Hd (serial t)); [by eapply Hin|apply list_elem_of_here].
  - congruence.
  - exfalso. apply Hnb. by eapply Hin.
Qed.
Lemma no_twice past w k :
  tracked past w → in_order w → NoDup (option_list (serial <$> running w !! k) ++ (serial <$> queue w k)).
Proof.
  intros Hw Ho. destruct (Ho k) as [Hc _].
  assert (NoDup (received k (hist w))) as Hnd by (apply received_NoDup; rewrite (tr_serials _ _ Hw); apply NoDup_seq).
  rewrite Hc in Hnd. by apply NoDup_app in Hnd as (_ & _ & Hnd).
Qed.

Lemma answered_more w w' rid : frames w `prefix_of` frames w' → answered w rid → answered w' rid.
Proof. intros [l Hl] (f & Hf & Hr). exists f. split; [rewrite Hl; apply elem_of_app; by left|done]. Qed.

Lemma message_past past w rid n : tracked past w → (rid, n) ∈ messages (hist w) → n < next w.
Proof.
  intros Hw Hin. assert (n ∈ (messages (hist w)).*2) as Hn by (apply list_elem_of_fmap; by exists (rid, n)).
  rewrite (tr_serials _ _ Hw) in Hn. apply elem_of_seq in Hn. lia.
Qed.

Lemma handled_past past w k n : tracked past w → in_order w → n ∈ handled k (hist w) → n < next w.
Proof.
  intros Hw Ho Hn. destruct (Ho k) as [Hc _]. assert (n ∈ received k (hist w)) as Hr by (rewrite Hc; apply elem_of_app; by left).
  apply received_messages in Hr as (rid & Hr). eapply message_past; [done|]. apply messages_elem. eauto.
Qed.

(** A message comes in. *)
Lemma answering_enqueue past w rid k0 :
  NoDup (past ++ [rid]) → tracked past w → in_order w → answering w → answering (enqueue_turn rid k0 w).
Proof.
  intros Hnd Hw Ho [H1 H2 H3 H4 H5].
  constructor; cbn [enqueue_turn closed inflight cancelled next hist]; [done| | | |].
  - intros n Hn%H2. lia.
  - intros r im [[<- <-]|[_ Hl]]%lookup_insert_Some; [|by eapply H3]. cbn. intros Hin%H2. lia.
  - intros k t Ht. rewrite lookup_insert_None. intros [Hi Hne]. apply (H4 k); [|done].
    destruct Ht as [Ht|Ht]; [|by right]. unfold enqueue_turn in Ht. erewrite queue_insert in Ht by done.
    case_bool_decide; [|by left]. subst. apply elem_of_app in Ht as [Ht|Ht]; [by left|].
    apply list_elem_of_singleton in Ht as ->. by destruct Hne.
  - intros k n r Hh. rewrite accepted_app. intros Hm. apply handled_one in Hh as [Hh|[?|?]]; [|done..].
    apply elem_of_app in Hm as [Hm|Hm]; [by eapply H5|]. apply list_elem_of_singleton in Hm as [= -> ->].
    apply (handled_past _ _ _ _ Hw Ho) in Hh. lia.
Qed.

(** The consumer starts or skips a turn. *)
Lemma answering_take past w k0 : tracked past w → in_order w → answering w → answering (consumer_take k0 w).
Proof.
  intros Hw Ho Ha. pose proof Ha as [H1 H2 H3 H4 H5]. unfold consumer_take.
  destruct (running w !! k0) as [?|] eqn:Hr; [done|]. destruct (queue w k0) as [|t rest] eqn:Hq; [done|].
  assert (held w k0 t) as Ht by (left; rewrite Hq; apply list_elem_of_here).
  assert (∀ k t', t' ∈ (if bool_decide (k0 = k) then rest else queue w k) → held w k t') as Hrest.
  { intros k t' Hin. left. case_bool_decide; [subst; rewrite Hq; by apply list_elem_of_further|done]. }
  cbv zeta. destruct (inflight w !! request_id t) as [im|] eqn:Hi; [case_bool_decide as Hc|].
  - exfalso. by apply (H3 _ _ Hi).
  - constructor; cbn [closed inflight cancelled next hist]; [done|done| | |].
    + intros r im' [[<- <-]|[_ Hl]]%lookup_insert_Some; [done|by eapply H3].
    + intros k t' Ht'. rewrite lookup_insert_None. intros [Hi' _]. apply (H4 k); [|done].
      destruct Ht' as [Hin|Hin]; [erewrite queue_insert in Hin by done; by apply Hrest|].
      cbn in Hin. apply lookup_insert_Some in Hin as [[<- <-]|[_ Hin]]; [done|by right].
    + intros k n r Hh. rewrite accepted_app, app_nil_r. apply handled_one in Hh as [Hh|[?|?]]; [by eapply H5|done..].
  - constructor; cbn [closed inflight cancelled next hist]; [done|done|done| |].
    + intros k t' Ht'. apply (H4 k). destruct Ht' as [Hin|Hin]; [erewrite queue_insert in Hin by done; by apply Hrest|by right].
    + intros k n r Hh. rewrite accepted_app, app_nil_r. apply handled_one in Hh as [Hh|[[= <- <-]|?]]; [by eapply H5| |done].
      intros Hm. assert (r = request_id t) as ->; [|by eapply H4].
      eapply (serial_rid past w Hw); [exact Hm|]. apply messages_elem. exists k0. by apply (tr_held _ _ Hw).
Qed.

(** A turn ends with an answer. *)
Lemma answering_end past w k0 r : tracked past w → in_order w → answering w → answering (consumer_end k0 (Answered true r) w).
Proof.
  intros Hw Ho Ha. pose proof Ha as [H1 H2 H3 H4 H5]. unfold consumer_end. destruct (running w !! k0) as [t|] eqn:Hr; [|done].
  set (w' := mkWorld _ _ _ _ _ _ _ _).
  assert (answered w' (request_id t)) as Hans.
  { destruct r as [x|e]; [exists (Done (request_id t) x)|exists (Error (request_id t) e)]; (split; [|done]); cbn;
      apply elem_of_app; right; apply list_elem_of_here. }
  assert (∀ rid, answered w rid → answered w' rid) as Hmore by (intros rid; apply answered_more; cbn; by eexists).
  constructor; cbn [w' closed inflight cancelled next hist]; [done|done| | |].
  - intros rid im' [_ Hl]%lookup_delete_Some. by eapply H3.
  - intros k t' Ht' [Hrid|Hi]%lookup_delete_None; [|].
    + by rewrite <- Hrid.
    + apply Hmore, (H4 k); [|done]. destruct Ht' as [Hin|Hin]; [by left|]. cbn in Hin.
      apply lookup_delete_Some in Hin as [_ Hin]. by right.
  - intros k n rid Hh. rewrite accepted_app, app_nil_r. intros Hm.
    apply handled_one in Hh as [Hh|[?|[= <- <-]]]; [by eapply Hmore, H5|done|].
    assert (rid = request_id t) as ->; [|done]. eapply (serial_rid past w Hw); [exact Hm|]. apply messages_elem.
    exists k0. apply (tr_held _ _ Hw). by right.
Qed.

(** A message is cancelled. *)
Lemma answering_cancel past w rid : tracked past w → answering w → answering (handle_cancel rid w).
Proof.
  intros Hw Ha. pose proof Ha as [H1 H2 H3 H4 H5]. unfold handle_cancel, cancel. destruct (inflight w !! rid) as [im|] eqn:Hi; [|done].
  set (w' := mkWorld _ _ _ _ _ _ _ _).
  assert (answered w' rid) as Hans.
  { exists (Error rid (bs "Cancelled")). split; [|done]. cbn -[bs]. apply elem_of_app. right. apply list_elem_of_here. }
  assert (∀ r, answered w r → answered w' r) as Hmore by (intros r; apply answered_more; cbn -[bs]; by eexists).
  constructor; cbn [w' closed inflight cancelled next hist]; [done| | | |].
  - intros n [->%elem_of_singleton|Hn]%elem_of_union; [|by apply H2]. eapply message_past; [done|]. by apply (tr_inflight _ _ Hw).
  - intros r im' [Hne Hl]%lookup_delete_Some [Hs%elem_of_singleton|Hn]%elem_of_union; [|by eapply H3]. apply Hne.
    eapply (serial_rid past w Hw); [by apply (tr_inflight _ _ Hw)|]. rewrite <- Hs. by apply (tr_inflight _ _ Hw).
  - intros k t' Ht' [->|Hl]%lookup_delete_None; [done|]. by apply Hmore, (H4 k).
  - intros k n r Hh. rewrite accepted_app, app_nil_r. intros Hm. apply handled_one in Hh as [Hh|[?|?]]; [by eapply Hmore, H5|done..].
Qed.

Lemma answering_run acts past w :
  Forall peaceful acts → NoDup (past ++ rids acts) → tracked past w → in_order w → answering w → answering (run acts w).
Proof.
  revert past w. induction acts as [|a acts IH]; intros past w Hp Hnd Hw Ho Ha; [done|].
  apply Forall_cons in Hp as [Hp1 Hp2].
  assert (rids (a :: acts) = rids [a] ++ rids acts) as Hr by (by destruct a).
  rewrite Hr, (assoc_L (++)) in Hnd. apply (IH (past ++ rids [a])); [done|done| |by apply in_order_step|].
  { apply tracked_step; [by apply NoDup_app in Hnd as [? _]|done]. }
  pose proof (an_open _ Ha) as Hop. destruct a as [rid k|k|k [live r|]|rid|]; cbn [step peaceful] in *; rewrite ?Hop; try done.
  - apply (answering_enqueue past); try done. by apply NoDup_app in Hnd as [? _].
  - by apply (answering_take past).
  - subst live. by apply (answering_end past).
  - by apply (answering_cancel past).
Qed.
Lemma answering_connected : answering connected.
Proof.
  constructor; cbn; try done.
  - intros k t [Ht|Ht]; [by apply not_elem_of_nil in Ht|cbn [connected running] in Ht; by rewrite lookup_empty in Ht].
  - intros k n rid Hn. by apply not_elem_of_nil in Hn.
Qed.

(** The consumer of a session goes on: take a turn, let it answer, [m] times. *)
Definition drain (m : nat) (k : SessionKey) (r : result str str) : list Action :=
  concat (replicate m [ATake k; AEnd k (Answered true r)]).
Definition todo (w : World) (k : SessionKey) : nat := length (queue w k) + length (option_list (running w !! k)).

Lemma hist_grows a w : hist w `prefix_of` hist (step a w).
Proof.
  destruct a as [rid k|k|k e|rid|]; cbn [step].
  - destruct (closed w); [done|]. by eexists.
  - unfold consumer_take. destruct (running w !! k), (queue w k) as [|t rest]; try done. cbv zeta.
    destruct (inflight w !! request_id t); [case_bool_decide|]; by eexists.
  - unfold consumer_end. destruct (running w !! k); [by eexists|done].
  - destruct (closed w); [done|]. unfold handle_cancel, cancel. destruct (inflight w !! rid); [by eexists|done].
  - done.
Qed.
Lemma hist_grows_run acts w : hist w `prefix_of` hist (run acts w).
Proof. revert w. induction acts as [|a acts IH]; intros w; [done|]. etrans; [apply (hist_grows a)|apply IH]. Qed.

Lemma round_works w k r : todo (run [ATake k; AEnd k (Answered true r)] w) k ≤ pred (todo w k).
Proof.
  unfold run. cbn [foldl step]. unfold consumer_take, todo. destruct (running w !! k) as [t|] eqn:Hr.
  { unfold consumer_end. rewrite Hr. unfold queue; cbn. rewrite lookup_delete_eq. cbn. lia. }
  destruct (queue w k) as [|t rest] eqn:Hq.
  { unfold consumer_end. rewrite !Hr, !Hq. cbn. lia. }
  cbv zeta. destruct (inflight w !! request_id t); [case_bool_decide|]; unfold consumer_end, queue; cbn;
    rewrite ?lookup_insert_eq, ?Hr; cbn; rewrite ?lookup_delete_eq, ?lookup_insert_eq, ?Hr; cbn; lia.
Qed.
Lemma drain_works m w k r : todo w k ≤ m → todo (run (drain m k r) w) k = 0.
Proof.
  revert w. induction m as [|m IH]; intros w Hm; [cbn; lia|].
  change (drain (S m) k r) with ([ATake k; AEnd k (Answered true r)] ++ drain m k r).
  unfold run. rewrite foldl_app. apply IH. pose proof (round_works w k r). unfold run in *. lia.
Qed.

(** C13: Every message is answered: while the connection lasts, request ids are
    used once and no turn panics, the consumer of a session comes to the end of
    its queue in as many rounds as turns are left, and then every message
    received for the session has been sent a frame that ends its request. *)
(* @prop liveness defs=enqueue_turn,consumer_take,consumer_end,cancel,handle_cancel,final_frame witness=TurnsWitness.messages_answered_witness *)
Theorem messages_answered acts k r n rid :
  NoDup (rids acts) → Forall peaceful acts → Received k n rid ∈ hist (run acts connected) →
  let w := run (drain (S (length (queue (run acts connected) k))) k r) (run acts connected) in
  queue w k = [] ∧ running w !! k = None ∧ ∃ f, f ∈ frames w ∧ frame_rid f = rid.
Proof.
  intros Hnd Hp Hrec w. set (d := drain _ k r) in w.
  assert (todo w k = 0) as H0. { apply drain_works. unfold todo. destruct (running _ !! k); cbn; lia. }
  assert (∀ m, rids (drain m k r) = []) as Hrd by (intros m; induction m; done).
  assert (∀ m, Forall peaceful (drain m k r)) as Hpd by (intros m; induction m; repeat constructor; done).
  assert (w = run (acts ++ d) connected) as Hw by (unfold w, run; by rewrite foldl_app).
  assert (NoDup ([] ++ rids (acts ++ d))) as Hnd' by (unfold d; by rewrite rids_app, Hrd, app_nil_r).
  pose proof (in_order_run (acts ++ d) _ in_order_connected) as Ho.
  pose proof (answering_run (acts ++ d) [] connected ltac:(apply Forall_app; split; [done|apply Hpd]) Hnd' tracked_connected in_order_connected answering_connected) as Ha.
  rewrite <- Hw in Ho, Ha. destruct (Ho k) as [Hc _].
  assert (Received k n rid ∈ hist w) as Hrec'.
  { destruct (hist_grows_run d (run acts connected)) as [l Hl]. fold w in Hl. rewrite Hl. apply elem_of_app. by left. }
  clear Hw. clearbody w. unfold todo in H0. assert (queue w k = []) as Hq by (destruct (queue w k); [done|cbn in H0; lia]).
  assert (running w !! k = None) as Hr by (destruct (running w !! k); [cbn in H0; lia|done]).
  split; [done|]. split; [done|]. rewrite Hq, Hr in Hc. cbn in Hc. rewrite app_nil_r in Hc.
  apply (an_handled _ Ha k n).
  - rewrite <- Hc. apply received_messages. by exists rid.
  - apply messages_elem. by exists k.
Qed.

(** ** Examples *)

Module TurnsWitness.
Definition ann : SessionKey := from_inbound (bs "bot") (bs "ann") (bs "telegram") (bs "per-channel-peer") (Some (bs "1")).
Definition two : list Action := [AMessage (bs "r1") ann; AMessage (bs "r2") ann; ATake ann; ACancel (bs "r2")].
Definition ok : result str str := Ok (bs "hello").
Lemma cancelled_witness :
  NoDup (rids two) ∧ ∃ h1 h2, hist (run (two ++ [AEnd ann (Answered true ok); ATake ann]) connected) = h1 ++ Began ann 0 :: h2 ∧ Cancelled 0 ∉ h1.
Proof.
  assert (NoDup (rids two)) as Hnd by (vm_compute; apply NoDup_cons; split; [set_solver|apply NoDup_singleton]).
  split; [done|]. exists [Received ann 0 (bs "r1"); Received ann 1 (bs "r2")], [Cancelled 1; Ended ann 0; Skipped ann 1].
  assert (hist (run (two ++ [AEnd ann (Answered true ok); ATake ann]) connected) =
    [Received ann 0 (bs "r1"); Received ann 1 (bs "r2")] ++ Began ann 0 :: [Cancelled 1; Ended ann 0; Skipped ann 1]) as Hh
    by (vm_compute; reflexivity).
  split; [exact Hh|]. eapply (cancelled_never_begins (two ++ [AEnd ann (Answered true ok); ATake ann])); [|exact Hh].
  exact Hnd.
Defined.
Lemma messages_answered_witness :
  ∃ f, f ∈ frames (run (drain 1 ann ok) (run two connected)) ∧ frame_rid f = bs "r2".
Proof.
  destruct (messages_answered (two ++ []) ann ok 1 (bs "r2")) as (_ & _ & f & Hf & Hr).
  - vm_compute. apply NoDup_cons; split; [set_solver|apply NoDup_singleton].
  - repeat constructor.
  - apply list_elem_of_further, list_elem_of_here.
  - exists f. split; [|exact Hr].
    replace (frames (run (drain 1 ann ok) (run two connected)))
      with (frames (run (drain (S (length (queue (run (two ++ []) connected) ann))) ann ok) (run (two ++ []) connected)))
      by (vm_compute; reflexivity). exact Hf.
Defined.

(** Frames of the run. *)
Definition sent (acts : list Action) : list Frame := frames (run acts connected).
(** A request id used again while its first message runs: the end of the first
    turn removes the entry of the second, which is dropped without a word. *)
Example reused_id_lost :
  let acts := [AMessage (bs "r") ann; ATake ann; AMessage (bs "r") ann; AEnd ann (Answered true ok); ATake ann] in
  handled ann (hist (run acts connected)) = [0; 1] ∧ sent acts = [Done (bs "r") (bs "hello")].
Proof. split; by vm_compute. Qed.
(** A cancelled message whose id is used again runs all the same. *)
Example reused_id_revives :
  let acts := [AMessage (bs "r") ann; ACancel (bs "r"); AMessage (bs "r") ann; ATake ann] in
  serial <$> running (run acts connected) !! ann = Some 0.
Proof. by vm_compute. Qed.
(** A turn that panics answers nothing. *)
Example panic_is_silent : sent [AMessage (bs "r") ann; ATake ann; AEnd ann Died] = [].
Proof. by vm_compute. Qed.
(** A running turn that is cancelled is answered twice. *)
Example cancelled_answers_twice :
  sent [AMessage (bs "r") ann; ATake ann; ACancel (bs "r"); AEnd ann (Answered true ok)] =
  [Error (bs "r") (bs "Cancelled"); Done (bs "r") (bs "hello")].
Proof. by vm_compute. Qed.
(** When the connection ends, the messages that wait are dropped: no frame and
    no stored reply. *)
Example waiting_dropped :
  let acts := [AMessage (bs "r1") ann; AMessage (bs "r2") ann; ATake ann; ATeardown; AEnd ann (Answered false ok); ATake ann] in
  handled ann (hist (run acts connected)) = [0; 1] ∧ sent acts = [StoredReply (bs "r1") (bs "hello")].
Proof. split; by vm_compute. Qed.
(** A text that looks like a button is a message, and a button of an unknown
    kind is given to the model. *)
Definition dto (t : string) (cb : bool) : IncomingMessageDto :=
  mkDto (V := Jv.t) (bs "ann") None (Some (bs t)) (Jv.Obj [(bs "is_callback", Jv.Bool cb); (bs "chat_id", Jv.Num 42)]).
Example routes :
  route (λ s, Some s) (bs "telegram") false (dto "approve:1" true) = RApproval ∧
  route (λ s, Some s) (bs "telegram") false (dto "approve:1" false) = RTurn ∧
  route (λ s, Some s) (bs "telegram") true (dto "yes" false) = RClarifyText ∧
  route (λ s, Some s) (bs "telegram") true (dto "infra:maybe:1" true) = RTurn ∧
  route (λ s, Some s) (bs "unknown") false (dto "hi" false) = RNotReady ∧
  chat_scope (dto "hi" false) = Some (bs "42").
Proof. split_and!; by vm_compute. Qed.
End TurnsWitness.
