(* ===== verification/Clarify.v ===== *)
(** * Questions to the user

    A turn may stop and ask: the [clarify] tool ([agent/tool_handlers/clarify.rs])
    registers a question with the manager of its agent
    ([agent/clarify_manager.rs]) and waits.  The answer comes from the web
    ([gateway/handlers/clarify.rs]), from a button of a channel, or from the
    next text of the owner ([gateway/handlers/channel_ws/inline.rs]).

    The manager's maps are one record; a question also has the stage of the
    task that waits for it and the contents of its one-shot channel.  What the
    task does between two awaits is an action, and so is every call of the
    manager.  Times are milliseconds. *)
From S2P Require Import Prelude Json Messages Sessions Access ChannelTurns.

(** ** The manager *)

(* @src opex-core/src/agent/clarify_manager.rs 41-44 NoResponseReason *)
Inductive NoResponseReason := TimedOut | WasCancelled.
(* @src opex-core/src/agent/clarify_manager.rs 47-51 ClarifyOutcome *)
Inductive ClarifyOutcome := Answered (a : str) | NoResponse (r : NoResponseReason).

(** The one-shot channel of a question. *)
Inductive Slot := Empty | Filled (a : str) | Dropped.
(** Where the task is in [wait_rx]: at the head of the loop, in the timed wait
    until the time given, in the heartbeat, or out of it. *)
Inductive Stage := Registered | AtHead | Polling (until : Z) | Touching | Finished (o : ClarifyOutcome) | Aborted.
Record Ask := mkAsk {
  ask_session : Uuid;
  deadline : Z;
  stage : Stage;
  slot : Slot;
}.
Definition set_stage (st : Stage) (a : Ask) : Ask := mkAsk (ask_session a) (deadline a) st (slot a).
Definition set_slot (s : Slot) (a : Ask) : Ask := mkAsk (ask_session a) (deadline a) (stage a) s.
Definition receiving (a : Ask) : bool := match stage a with Finished _ | Aborted => false | _ => true end.

(* @src opex-core/src/agent/clarify_manager.rs 60-65 ClarifyManager *)
Record ClarifyManager := mkManager {
  waiters : gset str;
  by_session : gmap Uuid (list (str * bool));
  agent_index : gmap str str;
  asks : gmap str Ask;
}.

Section manager.
(** The name of the agent whose manager this is. *)
Context (agent : str).

(* @src opex-core/src/agent/clarify_manager.rs 30-32 agent_for_clarify *)
Definition agent_for_clarify (id : str) (m : ClarifyManager) : option str := agent_index m !! id.
(* @src opex-core/src/agent/clarify_manager.rs 97-111 register *)
Definition register (id : str) (session : Uuid) (awaiting_text : bool) (m : ClarifyManager) : ClarifyManager :=
  mkManager ({[id]} ∪ waiters m)
    (<[session := default [] (by_session m !! session) ++ [(id, awaiting_text)]]> (by_session m))
    (<[id := agent]> (agent_index m))
    (<[id := mkAsk session 0 Registered Empty]> (asks m)).
(** The sender is used up: with an answer, or dropped. *)
Definition put (s : Slot) (id : str) (m : ClarifyManager) : ClarifyManager :=
  mkManager (waiters m ∖ {[id]}) (by_session m) (delete id (agent_index m)) (alter (set_slot s) id (asks m)).
(* @src opex-core/src/agent/clarify_manager.rs 149-156 resolve *)
Definition resolve (id response : str) (m : ClarifyManager) : ClarifyManager * bool :=
  if bool_decide (id ∈ waiters m) then
    match asks m !! id with
    | Some a => if receiving a then (put (Filled response) id m, true) else (put Dropped id m, false)
    | None => (put Dropped id m, false)
    end
  else (m, false).
Definition drop_waiter (m : ClarifyManager) (id : str) : ClarifyManager :=
  if bool_decide (id ∈ waiters m) then put Dropped id m else m.
(* @src opex-core/src/agent/clarify_manager.rs 161-176 clear_session *)
Definition clear_session (session : Uuid) (m : ClarifyManager) : ClarifyManager :=
  let ids := (default [] (by_session m !! session)).*1 in
  let m := foldl drop_waiter m ids in
  mkManager (waiters m) (delete session (by_session m)) (agent_index m) (asks m).
(* @src opex-core/src/agent/clarify_manager.rs 180-182 has_any_pending *)
Definition has_any_pending (m : ClarifyManager) : bool := negb (bool_decide (waiters m = ∅)).
(* @src opex-core/src/agent/clarify_manager.rs 186-192 has_pending_text *)
Definition has_pending_text (session : Uuid) (m : ClarifyManager) : option str :=
  v ← by_session m !! session;
  fst <$> List.find (λ e : str * bool, e.2 && bool_decide (e.1 ∈ waiters m)) v.
(** An id is listed once, so marking every entry marks the first. *)
Definition mark (id : str) (e : str * bool) : str * bool := if bool_decide (e.1 = id) then (e.1, true) else e.
(* @src opex-core/src/agent/clarify_manager.rs 200-209 mark_awaiting_text *)
Definition mark_awaiting_text (id : str) (m : ClarifyManager) : ClarifyManager :=
  mkManager (waiters m) (fmap (M:=gmap Uuid) (List.map (mark id)) (by_session m)) (agent_index m) (asks m).
(* @src opex-core/src/agent/clarify_manager.rs 212-224 forget *)
Definition forget (session : Uuid) (m : ClarifyManager) : ClarifyManager :=
  match by_session m !! session with
  | None => m
  | Some v =>
      let gone := List.filter (λ e : str * bool, negb (bool_decide (e.1 ∈ waiters m))) v in
      mkManager (waiters m) (<[session := List.filter (λ e : str * bool, bool_decide (e.1 ∈ waiters m)) v]> (by_session m))
        (foldr (λ e ix, delete e.1 ix) (agent_index m) gone) (asks m)
  end.

(** ** Waiting *)

Definition move (st : Stage) (id : str) (m : ClarifyManager) : ClarifyManager :=
  mkManager (waiters m) (by_session m) (agent_index m) (alter (set_stage st) id (asks m)).
Definition finish (o : ClarifyOutcome) (id : str) (session : Uuid) (m : ClarifyManager) : ClarifyManager :=
  forget session (move (Finished o) id m).
(** The parts of [wait_rx] between its awaits. *)
(* @src opex-core/src/agent/clarify_manager.rs 124-124 wait_rx (deadline) *)
Definition wait_begin (id : str) (now timeout : Z) (m : ClarifyManager) : ClarifyManager :=
  match asks m !! id with
  | Some (mkAsk s _ Registered c) =>
      mkManager (waiters m) (by_session m) (agent_index m) (<[id := mkAsk s (now + timeout) AtHead c]> (asks m))
  | _ => m
  end.
(* @src opex-core/src/agent/clarify_manager.rs 125-130 wait_rx (head of the loop) *)
Definition wait_check (id : str) (now : Z) (m : ClarifyManager) : ClarifyManager :=
  match asks m !! id with
  | Some (mkAsk s d AtHead _) =>
      if (d - now <=? 0)%Z then finish (NoResponse TimedOut) id s m
      else move (Polling (now + Z.min (d - now) 1000)) id m
  | _ => m
  end.
(* @src opex-core/src/agent/clarify_manager.rs 130-132 wait_rx (timed wait) *)
Definition wait_poll (id : str) (now : Z) (m : ClarifyManager) : ClarifyManager :=
  match asks m !! id with
  | Some (mkAsk s _ (Polling until) c) =>
      match c with
      | Filled a => finish (Answered a) id s m
      | Dropped => finish (NoResponse WasCancelled) id s m
      | Empty => if (until <=? now)%Z then move Touching id m else m
      end
  | _ => m
  end.
(* @src opex-core/src/agent/clarify_manager.rs 133-139 wait_rx (heartbeat) *)
Definition wait_touched (id : str) (m : ClarifyManager) : ClarifyManager :=
  match asks m !! id with
  | Some (mkAsk _ _ Touching _) => move AtHead id m
  | _ => m
  end.
End manager.

Definition empty_manager : ClarifyManager := mkManager ∅ ∅ ∅ ∅.
Inductive Action :=
| ARegister (id : str) (session : Uuid) (awaiting_text : bool)
| ABegin (id : str) (now timeout : Z)
| ACheck (id : str) (now : Z)
| APoll (id : str) (now : Z)
| ATouched (id : str)
| AResolve (id response : str)
| AClear (session : Uuid)
| AMark (id : str)
| AAbort (id : str).
Definition step (agent : str) (a : Action) (m : ClarifyManager) : ClarifyManager :=
  match a with
  | ARegister id s t => if bool_decide (is_Some (asks m !! id)) then m else register agent id s t m
  | ABegin id now t => wait_begin id now t m
  | ACheck id now => wait_check id now m
  | APoll id now => wait_poll id now m
  | ATouched id => wait_touched id m
  | AResolve id r => (resolve id r m).1
  | AClear s => clear_session s m
  | AMark id => mark_awaiting_text id m
  | AAbort id => match asks m !! id with
                 | Some a => if receiving a then move Aborted id m else m
                 | None => m
                 end
  end.
Definition run (agent : str) (acts : list Action) (m : ClarifyManager) : ClarifyManager := foldl (λ m a, step agent a m) m acts.

(** ** The tool *)

Section tool.
Context {V : Type} `{Json V, JsonArrays V}.

Definition str_field (o : V) (k : string) : option str := v ← jget o (bs k); jas_str v.
(* @src opex-core/src/agent/tool_handlers/clarify.rs 15-24 channel_available *)
Definition channel_available (ctx : V) : bool :=
  match str_field ctx "chat_id" with
  | Some c => if negb (bool_decide (c = [])) && negb (bool_decide (c = bs "null")) then true
              else bool_decide (str_field ctx "_channel" = Some (bs "ui"))
  | None => bool_decide (str_field ctx "_channel" = Some (bs "ui"))
  end.
(** [Iterator::find_map] *)
Fixpoint first_some {A B} (f : A → option B) (l : list A) : option B :=
  match l with
  | [] => None
  | x :: l => match f x with Some y => Some y | None => first_some f l end
  end.
(** The first key with a string decides, even when the string is blank. *)
Definition flatten_choice (c : V) : option str :=
  match jas_str c with
  | Some s => if bool_decide (trim s = []) then None else Some (trim s)
  | None =>
      if jis_object c then
        s ← first_some (str_field c) ["label"; "description"; "text"; "title"]%string;
        if bool_decide (trim s = []) then None else Some (trim s)
      else None
  end.
(* @src opex-core/src/agent/tool_handlers/clarify.rs 28-50 normalize_choices *)
Definition normalize_choices (raw : option V) : list str :=
  match raw ≫= jas_array with
  | Some arr => take 4 (omap flatten_choice arr)
  | None => []
  end.

(** What the tool does before it waits: an error, or a question. *)
Record Question := mkQuestion {
  question : str;
  choices : list str;
  session : Uuid;
}.
Definition error_value (e : string) : V := jinsert (bs "error") (jstring (bs e)) jempty.
(* @src opex-core/src/agent/tool_handlers/clarify.rs 59-82 handle (validation) *)
Definition check_question (args : V) (session_id : option Uuid) : result V Question :=
  match trim <$> str_field args "question" with
  | Some q =>
      if bool_decide (q = []) then Err (error_value "clarify: 'question' is required and must be non-empty") else
      let ctx := default jempty (jget args (bs "_context")) in
      if negb (channel_available ctx) then Err (error_value "clarify not available in this execution context") else
      match session_id with
      | Some s => Ok (mkQuestion q (normalize_choices (jget args (bs "choices"))) s)
      | None => Err (error_value "clarify not available: no active session")
      end
  | None => Err (error_value "clarify: 'question' is required and must be non-empty")
  end.
(* @src opex-core/src/agent/tool_handlers/clarify.rs 84-88 handle (registration) *)
Definition register_question (agent id : str) (q : Question) (m : ClarifyManager) : ClarifyManager :=
  register agent id (session q) (bool_decide (choices q = [])) m.
(** The buttons of a question: its choices, and one for another answer. *)
(* @src opex-core/src/agent/tool_handlers/clarify.rs 126-145 handle (buttons) *)
Definition question_buttons (id : str) (cs : list str) : list (str * str) :=
  if bool_decide (cs = []) then [] else
  imap (λ i c, (c, bs "clarify:" ++ id ++ bs ":" ++ dec i)) cs ++ [(bs "Other", bs "clarify:" ++ id ++ bs ":other")].
(* @src opex-core/src/agent/tool_handlers/clarify.rs 187-201 handle (result) *)
Definition question_result (q : Question) (o : ClarifyOutcome) : V :=
  match o with
  | Answered a =>
      jinsert (bs "user_response") (jstring a)
        (jinsert (bs "choices_offered") (jarray (jstring <$> choices q))
          (jinsert (bs "question") (jstring (question q)) jempty))
  | NoResponse _ =>
      jinsert (bs "note") (jstring (bs "user did not respond; proceed with a reasonable default"))
        (jinsert (bs "user_response") (jstring [])
          (jinsert (bs "question") (jstring (question q)) jempty))
  end.
End tool.

(** ** Answers *)

(** From the web: the status, after the body was read and the agent found. *)
(* @src opex-core/src/gateway/handlers/clarify.rs 37-83 api_resolve_clarify *)
Definition api_resolve_clarify (engines : gset str) (id : str) (response : option str) (m : ClarifyManager) : ClarifyManager * Z :=
  match response with
  | None => (m, 400%Z)
  | Some r =>
      match agent_for_clarify id m with
      | None => (m, 404%Z)
      | Some a =>
          if bool_decide (a ∈ engines)
          then let '(m, ok) := resolve id r m in (m, if ok then 200%Z else 404%Z)
          else (m, 404%Z)
      end
  end.

Section channel.
Context {V : Type} `{Json V, JsonNumbers V}.
Context (parse_uuid : str → option str).
Definition owner_of (gs : Guards) (agent user : str) : bool :=
  match gs !! agent with Some g => is_owner g user | None => false end.

(** [None]: the message is none of a clarify button. *)
(* @src opex-core/src/gateway/handlers/channel_ws/inline.rs 571-656 handle_clarify_callback *)
Definition handle_clarify_callback (gs : Guards) (agent rid : str) (msg : IncomingMessageDto (V:=V)) (m : ClarifyManager)
    : option (ClarifyManager * Frame) :=
  if negb (clarify_cb_matches parse_uuid msg) then None else
  '(id, slot) ← parse_clarify_callback parse_uuid (text_of msg);
  Some (
    if negb (owner_of gs agent (user_id msg)) then (m, Error rid (bs "Only the owner can answer clarification questions."))
    else if bool_decide (slot = bs "other") then (mark_awaiting_text id m, Done rid (bs "Please type your answer."))
    else
      let choice :=
        match parse_dec 64 slot with
        | Some idx => default (bs "option " ++ decZ idx) (str_field (context msg) "button_text")
        | None => slot
        end in
      let '(m, ok) := resolve id choice m in
      (m, if ok then Done rid (bs "✅ " ++ choice) else Error rid (bs "Clarify already resolved or timed out."))).
(** [found]: the active session of the sender, looked up in the table of
    sessions; [approvals]: how many approvals of the agent wait.  The frame is
    sent when the message was an answer. *)
(* @src opex-core/src/gateway/handlers/channel_ws/inline.rs 667-774 handle_clarify_text *)
Definition handle_clarify_text (gs : Guards) (agent channel_type dm_scope rid : str) (now : Z) (db : Db (V:=V)) (approvals : nat)
    (msg : IncomingMessageDto (V:=V)) (m : ClarifyManager) : ClarifyManager * option Frame :=
  if is_callback msg then (m, None) else
  if negb (has_any_pending m) then (m, None) else
  if negb (owner_of gs agent (user_id msg)) then (m, None) else
  let t := trim (text_of msg) in
  if bool_decide (t = []) then (m, None) else
  match resolve_active_dm_session agent (user_id msg) channel_type dm_scope (chat_scope msg) now db with
  | None => (m, None)
  | Some (sid, _) =>
      match has_pending_text sid m with
      | None => (m, None)
      | Some id =>
          if bool_decide (approvals ≠ 0) then (m, None) else
          let '(m, ok) := resolve id t m in
          (m, if ok then Some (Done rid (bs "✅ Got it: " ++ t)) else None)
      end
  end.
End channel.

(** ** The maps of the manager agree *)

Definition slot_at (m : ClarifyManager) (id : str) : option Slot := slot <$> asks m !! id.
Definition session_at (m : ClarifyManager) (id : str) : option Uuid := ask_session <$> asks m !! id.
Definition listed (m : ClarifyManager) (s : Uuid) : list str := (default [] (by_session m !! s)).*1.
(** A waiter is a question whose channel is empty; it is in the index of the
    process and in the list of its session. *)
Record wf (agent : str) (m : ClarifyManager) : Prop := mkWf {
  wf_waiter : ∀ id, id ∈ waiters m ↔ slot_at m id = Some Empty;
  wf_index : ∀ id, agent_index m !! id = if bool_decide (id ∈ waiters m) then Some agent else None;
  wf_listed : ∀ id s, id ∈ waiters m → session_at m id = Some s → id ∈ listed m s;
}.

Lemma asks_stage (st : Stage) (id : str) (q : gmap str Ask) (i : str) : slot <$> alter (set_stage st) id q !! i = slot <$> q !! i.
Proof.
  destruct (decide (id = i)) as [->|Hn]; [rewrite lookup_alter_eq; by destruct (q !! i)|by rewrite lookup_alter_ne].
Qed.
Lemma asks_session (f : Ask → Ask) (id : str) (q : gmap str Ask) (i : str) :
  (∀ a, ask_session (f a) = ask_session a) → ask_session <$> alter f id q !! i = ask_session <$> q !! i.
Proof.
  intros Hf. destruct (decide (id = i)) as [->|Hn]; [|by rewrite lookup_alter_ne].
  rewrite lookup_alter_eq. destruct (q !! i); [cbn; by rewrite Hf|done].
Qed.
(** Two states with the same waiters, channels, sessions, lists and index. *)
Lemma wf_same agent m m' :
  waiters m' = waiters m → (∀ id, agent_index m' !! id = agent_index m !! id) →
  (∀ id, slot_at m' id = slot_at m id) → (∀ id, session_at m' id = session_at m id) →
  (∀ s id, id ∈ waiters m → id ∈ listed m s → id ∈ listed m' s) → wf agent m → wf agent m'.
Proof.
  intros Hw Hi Hs Hse Hl [H1 H2 H3]. constructor; intros id; rewrite Hw.
  - by rewrite Hs.
  - by rewrite Hi.
  - intros s Hin. rewrite Hse. intros Hsa. apply Hl; [done|]. by apply H3.
Qed.
Lemma wf_move agent st id m : wf agent m → wf agent (move st id m).
Proof.
  apply wf_same; try done.
  - intros i. unfold slot_at; cbn. apply asks_stage.
  - intros i. unfold session_at; cbn. by apply asks_session.
Qed.
Lemma deletes_lookup (l : list (str * bool)) (ix : gmap str str) id :
  foldr (λ e ix, delete e.1 ix) ix l !! id = if bool_decide (id ∈ l.*1) then None else ix !! id.
Proof.
  induction l as [|e l IH]; [done|]. cbn. destruct (decide (e.1 = id)) as [<-|Hn].
  - rewrite lookup_delete_eq. rewrite bool_decide_eq_true_2; [done|]. apply list_elem_of_here.
  - rewrite lookup_delete_ne, IH by done.
    repeat case_bool_decide; try done; rewrite elem_of_cons in *; naive_solver.
Qed.
Lemma wf_forget agent s m : wf agent m → wf agent (forget s m).
Proof.
  intros Hw. unfold forget. destruct (by_session m !! s) as [v|] eqn:Hv; [|done].
  pose proof Hw as [_ Hix _]. revert Hw. apply wf_same; try done.
  - intros id. cbn. rewrite deletes_lookup. case_bool_decide as Hin; [|done]. rewrite Hix.
    rewrite bool_decide_eq_false_2; [done|]. intros Hw. apply list_elem_of_fmap in Hin as (e & -> & He).
    apply list_elem_of_In, filter_In in He as [_ He]. by rewrite bool_decide_eq_true_2 in He.
  - intros s' id Hin. unfold listed. cbn. destruct (decide (s = s')) as [->|Hn]; [|by rewrite lookup_insert_ne].
    rewrite lookup_insert_eq, Hv. cbn. intros (e & -> & He)%list_elem_of_fmap. apply list_elem_of_fmap. exists e.
    split; [done|]. apply list_elem_of_In, filter_In. split; [by apply list_elem_of_In|]. by apply bool_decide_eq_true.
Qed.
Lemma wf_put agent s id m : s ≠ Empty → id ∈ waiters m → wf agent m → wf agent (put s id m).
Proof.
  intros Hs Hin [H1 H2 H3]. constructor.
  - intros i. unfold slot_at; cbn. rewrite elem_of_difference, elem_of_singleton, H1. unfold slot_at.
    destruct (decide (id = i)) as [->|Hn]; [|rewrite lookup_alter_ne by done; naive_solver].
    rewrite lookup_alter_eq. apply H1 in Hin. unfold slot_at in Hin. destruct (asks m !! i); [|done]. cbn.
    split; [naive_solver|]. intros [= ?]. congruence.
  - intros i. cbn. destruct (decide (id = i)) as [->|Hn].
    + rewrite lookup_delete_eq, bool_decide_eq_false_2; [done|set_solver].
    + rewrite lookup_delete_ne, H2 by done. repeat case_bool_decide; set_solver.
  - intros i s' Hi. unfold session_at; cbn. rewrite asks_session by done. apply H3. cbn in Hi. set_solver.
Qed.
Lemma wf_register agent id s t m : asks m !! id = None → wf agent m → wf agent (register agent id s t m).
Proof.
  intros Hnew [H1 H2 H3]. assert (id ∉ waiters m) as Hid. { rewrite H1. unfold slot_at. by rewrite Hnew. }
  constructor.
  - intros i. unfold slot_at; cbn. rewrite elem_of_union, elem_of_singleton, H1. unfold slot_at.
    destruct (decide (id = i)) as [->|Hn]; [rewrite lookup_insert_eq; naive_solver|rewrite lookup_insert_ne by done; naive_solver].
  - intros i. cbn. destruct (decide (id = i)) as [->|Hn].
    + rewrite lookup_insert_eq, bool_decide_eq_true_2; [done|set_solver].
    + rewrite lookup_insert_ne, H2 by done. repeat case_bool_decide; set_solver.
  - intros i s'. unfold session_at, listed; cbn. rewrite elem_of_union, elem_of_singleton.
    destruct (decide (id = i)) as [->|Hn].
    + rewrite lookup_insert_eq. intros _ [= <-]. rewrite lookup_insert_eq. cbn. rewrite fmap_app. apply elem_of_app. right.
      apply list_elem_of_here.
    + rewrite (lookup_insert_ne (asks m)) by done. intros [?|Hi] Hs'; [congruence|]. specialize (H3 i s' Hi Hs').
      destruct (decide (s = s')) as [->|Hns]; [|by rewrite lookup_insert_ne].
      rewrite lookup_insert_eq. cbn. rewrite fmap_app. apply elem_of_app. by left.
Qed.
Lemma wf_drop agent id m : wf agent m → wf agent (drop_waiter m id).
Proof. intros Hw. unfold drop_waiter. case_bool_decide; [by apply wf_put|done]. Qed.
Lemma drops agent ids m :
  wf agent m → wf agent (foldl drop_waiter m ids) ∧
  (∀ i, i ∈ waiters (foldl drop_waiter m ids) ↔ i ∈ waiters m ∧ i ∉ ids) ∧
  by_session (foldl drop_waiter m ids) = by_session m ∧ (∀ i, session_at (foldl drop_waiter m ids) i = session_at m i).
Proof.
  revert m. induction ids as [|id ids IH]; intros m Hw; [set_solver|]. cbn [foldl].
  destruct (IH (drop_waiter m id)) as (H1 & H2 & H3 & H4); [by apply wf_drop|]. split; [done|].
  assert (by_session (drop_waiter m id) = by_session m) as Hb by (unfold drop_waiter; by case_bool_decide).
  assert (∀ i, session_at (drop_waiter m id) i = session_at m i) as Hs.
  { intros i. unfold drop_waiter. case_bool_decide; [|done]. unfold session_at; cbn. by apply asks_session. }
  split_and!; [|by rewrite H3|intros i; by rewrite H4].
  intros i. rewrite H2. unfold drop_waiter. case_bool_decide as Hin; cbn; set_solver.
Qed.
Lemma wf_clear agent s m : wf agent m → wf agent (clear_session s m).
Proof.
  intros Hw. destruct (drops agent (listed m s) m Hw) as ([H1 H2 H3] & Hin & Hb & Hs). constructor; unfold clear_session; cbn.
  - exact H1.
  - exact H2.
  - intros i s' Hi Hse. fold (listed m s) in *. apply Hin in Hi as [Hi Hni].
    change (session_at (foldl drop_waiter m (listed m s)) i = Some s') in Hse. rewrite Hs in Hse.
    pose proof (wf_listed _ _ Hw i s' Hi Hse) as Hl. unfold listed in *. cbn. rewrite Hb.
    destruct (decide (s = s')) as [->|Hn]; [done|]. by rewrite lookup_delete_ne.
Qed.
Lemma wf_mark agent id m : wf agent m → wf agent (mark_awaiting_text id m).
Proof.
  apply wf_same; try done. intros s i _. unfold listed; cbn. rewrite lookup_fmap. destruct (by_session m !! s) as [v|]; [|done].
  cbn. intros (e & -> & He)%list_elem_of_fmap. apply list_elem_of_fmap. exists (mark id e).
  split; [unfold mark; by case_bool_decide|]. by apply list_elem_of_In, in_map, list_elem_of_In.
Qed.
Lemma wf_step agent a m : wf agent m → wf agent (step agent a m).
Proof.
  intros Hw. destruct a as [id s t|id now timeout|id now|id now|id|id r|s|id|id]; cbn [step].
  - case_bool_decide as Hn; [done|]. apply wf_register; [by apply eq_None_not_Some|done].
  - unfold wait_begin. destruct (asks m !! id) as [[s d [] c]|] eqn:Ha; try done. revert Hw. apply wf_same; try done.
    + intros i. unfold slot_at; cbn. destruct (decide (id = i)) as [<-|Hn]; [by rewrite lookup_insert_eq, Ha|by rewrite lookup_insert_ne].
    + intros i. unfold session_at; cbn. destruct (decide (id = i)) as [<-|Hn]; [by rewrite lookup_insert_eq, Ha|by rewrite lookup_insert_ne].
  - unfold wait_check, finish. destruct (asks m !! id) as [[s d [] c]|]; try done.
    case_match; [by apply wf_forget, wf_move|by apply wf_move].
  - unfold wait_poll, finish. destruct (asks m !! id) as [[s d [] [| |]]|]; try done;
      [case_match; [by apply wf_move|done]|by apply wf_forget, wf_move..].
  - unfold wait_touched. destruct (asks m !! id) as [[s d [] c]|]; try done. by apply wf_move.
  - unfold resolve. case_bool_decide as Hin; [|done]. destruct (asks m !! id); [case_match|]; cbn; by apply wf_put.
  - by apply wf_clear.
  - by apply wf_mark.
  - destruct (asks m !! id); [|done]. case_match; [by apply wf_move|done].
Qed.
Lemma wf_run agent acts m : wf agent m → wf agent (run agent acts m).
Proof. revert m. induction acts as [|a acts IH]; intros m Hw; [done|]. by apply IH, wf_step. Qed.
Lemma wf_empty agent : wf agent empty_manager.
Proof.
  constructor.
  - intros id. unfold slot_at; cbn. rewrite lookup_empty. set_solver.
  - intros id. cbn. rewrite lookup_empty. by rewrite bool_decide_eq_false_2 by set_solver.
  - intros id s Hin. cbn in Hin. set_solver.
Qed.

(** ** What is heard *)

Definition outcome (m : ClarifyManager) (id : str) : option ClarifyOutcome :=
  match asks m !! id with Some (mkAsk _ _ (Finished o) _) => Some o | _ => None end.
(** The answers that were taken in the course of a run. *)
Fixpoint accepted (agent : str) (acts : list Action) (m : ClarifyManager) : list (str * str) :=
  match acts with
  | [] => []
  | a :: acts =>
      match a with
      | AResolve id r => if (resolve id r m).2 then [(id, r)] else []
      | _ => []
      end ++ accepted agent acts (step agent a m)
  end.

Record heard (tr : list (str * str)) (m : ClarifyManager) : Prop := mkHeard {
  he_slot : ∀ id r, slot_at m id = Some (Filled r) ↔ (id, r) ∈ tr;
  he_finished : ∀ id r, outcome m id = Some (Answered r) → slot_at m id = Some (Filled r);
  he_once : NoDup tr.*1;
}.
Lemma heard_same tr m m' :
  (∀ id, slot_at m' id = slot_at m id) →
  (∀ id r, outcome m' id = Some (Answered r) → outcome m id = Some (Answered r) ∨ slot_at m id = Some (Filled r)) →
  heard tr m → heard tr m'.
Proof.
  intros Hs Ho [H1 H2 H3]. constructor; [| |done].
  - intros id r. by rewrite Hs.
  - intros id r [Hr|Hr]%Ho; rewrite Hs; [by apply H2|done].
Qed.
Lemma outcome_move st id m i r :
  outcome (move st id m) i = Some (Answered r) → outcome m i = Some (Answered r) ∨ (i = id ∧ st = Finished (Answered r)).
Proof.
  unfold outcome, move; cbn. destruct (decide (id = i)) as [->|Hn]; [|rewrite lookup_alter_ne by done; auto].
  rewrite lookup_alter_eq. destruct (asks m !! i) as [[s d st' c]|]; [|done]. cbn. destruct st; try done. intros [= ->]. auto.
Qed.
Lemma heard_move tr st id m :
  (∀ r, st = Finished (Answered r) → slot_at m id = Some (Filled r)) → heard tr m → heard tr (move st id m).
Proof.
  intros Hst. apply heard_same.
  - intros i. unfold slot_at; cbn. apply asks_stage.
  - intros i r [?|[-> ?]]%outcome_move; auto.
Qed.
Lemma heard_asks tr m m' : asks m' = asks m → heard tr m → heard tr m'.
Proof. intros He. apply heard_same; intros id; unfold slot_at, outcome; rewrite He; auto. Qed.
Lemma asks_forget s m : asks (forget s m) = asks m.
Proof. unfold forget. by destruct (by_session m !! s). Qed.
Lemma outcome_put s id m i : outcome (put s id m) i = outcome m i.
Proof.
  unfold outcome, put; cbn. destruct (decide (id = i)) as [->|Hn]; [|by rewrite lookup_alter_ne].
  rewrite lookup_alter_eq. by destruct (asks m !! i) as [[]|].
Qed.
Lemma slot_put s id m i : slot_at (put s id m) i = if bool_decide (id = i) then (λ _, s) <$> slot_at m i else slot_at m i.
Proof.
  unfold slot_at, put; cbn. case_bool_decide as Hn; [subst|by rewrite lookup_alter_ne].
  rewrite lookup_alter_eq. by destruct (asks m !! i).
Qed.
(** A channel that is used up was empty before. *)
Lemma heard_put agent tr s id m :
  wf agent m → id ∈ waiters m → s ≠ Empty → heard tr m →
  heard (tr ++ match s with Filled r => [(id, r)] | _ => [] end) (put s id m).
Proof.
  intros Hw Hin%(wf_waiter _ _ Hw) Hs [H1 H2 H3]. constructor.
  - intros i r. rewrite slot_put, elem_of_app, <- H1. case_bool_decide as Hi; [subst i|].
    + rewrite Hin. destruct s as [|r'|]; cbn; [done| |set_solver]. rewrite list_elem_of_singleton. naive_solver.
    + destruct s as [|r'|]; [done| |set_solver]. rewrite list_elem_of_singleton. naive_solver.
  - intros i r. rewrite outcome_put, slot_put. intros Hr%H2. case_bool_decide; [subst|done]. rewrite Hin in Hr. done.
  - rewrite fmap_app. apply NoDup_app. split_and!; [done| |destruct s; [constructor|apply NoDup_singleton|constructor]].
    intros i (e & -> & He)%list_elem_of_fmap. destruct s as [|r|]; [set_solver| |set_solver]. cbn. rewrite list_elem_of_singleton.
    intros Hi. destruct e as [i r']. cbn in Hi. subst i. apply H1 in He. congruence.
Qed.
Lemma heard_drop agent tr id m : wf agent m → heard tr m → heard tr (drop_waiter m id).
Proof.
  intros Hw Hh. unfold drop_waiter. case_bool_decide as Hin; [|done].
  pose proof (heard_put agent tr Dropped id m Hw Hin ltac:(done) Hh) as Hp. by rewrite app_nil_r in Hp.
Qed.
Lemma heard_drops agent tr ids m : wf agent m → heard tr m → heard tr (foldl drop_waiter m ids).
Proof.
  revert m. induction ids as [|id ids IH]; intros m Hw Hh; [done|]. apply IH; [by apply wf_drop|by eapply heard_drop].
Qed.

Lemma heard_step agent tr a m :
  wf agent m → heard tr m →
  heard (tr ++ match a with AResolve id r => if (resolve id r m).2 then [(id, r)] else [] | _ => [] end) (step agent a m).
Proof.
  intros Hw Hh. destruct a as [id s t|id now timeout|id now|id now|id|id r|s|id|id]; cbn [step]; rewrite ?app_nil_r.
  - case_bool_decide as Hn; [done|]. apply eq_None_not_Some in Hn. destruct Hh as [H1 H2 H3]. constructor; [| |done].
    + intros i r. rewrite <- H1. unfold slot_at; cbn. destruct (decide (id = i)) as [<-|Hne]; [|by rewrite lookup_insert_ne].
      rewrite lookup_insert_eq, Hn. done.
    + intros i r. unfold outcome, slot_at; cbn. destruct (decide (id = i)) as [<-|Hne]; [by rewrite lookup_insert_eq|].
      rewrite lookup_insert_ne by done. apply H2.
  - unfold wait_begin. destruct (asks m !! id) as [[s d [] c]|] eqn:Ha; try done. revert Hh. apply heard_same.
    + intros i. unfold slot_at; cbn. destruct (decide (id = i)) as [<-|Hn]; [by rewrite lookup_insert_eq, Ha|by rewrite lookup_insert_ne].
    + intros i r. unfold outcome; cbn. destruct (decide (id = i)) as [<-|Hn]; [by rewrite lookup_insert_eq|].
      rewrite lookup_insert_ne by done. auto.
  - unfold wait_check, finish. destruct (asks m !! id) as [[s d [] c]|]; try done.
    case_match; [apply (heard_asks _ (move (Finished (NoResponse TimedOut)) id m)); [apply asks_forget|]|]; by apply heard_move.
  - unfold wait_poll, finish. destruct (asks m !! id) as [[s d [] [|r|]]|] eqn:Ha; try done.
    + case_match; [by apply heard_move|done].
    + apply (heard_asks _ (move (Finished (Answered r)) id m)); [apply asks_forget|]. apply heard_move; [|done].
      intros r' [= ->]. unfold slot_at. by rewrite Ha.
    + apply (heard_asks _ (move (Finished (NoResponse WasCancelled)) id m)); [apply asks_forget|]. by apply heard_move.
  - unfold wait_touched. destruct (asks m !! id) as [[s d [] c]|]; try done. by apply heard_move.
  - unfold resolve. case_bool_decide as Hin; [|by rewrite app_nil_r].
    destruct (asks m !! id) as [a|]; [destruct (receiving a)|]; cbn [fst snd].
    + by eapply (heard_put agent tr (Filled r)).
    + by eapply (heard_put agent tr Dropped).
    + by eapply (heard_put agent tr Dropped).
  - unfold clear_session. apply (heard_asks _ (foldl drop_waiter m (listed m s))); [done|]. by eapply heard_drops.
  - by apply (heard_asks _ m).
  - destruct (asks m !! id) as [a|]; [|done]. case_match; [by apply heard_move|done].
Qed.
Lemma heard_run agent acts tr m :
  wf agent m → heard tr m → heard (tr ++ accepted agent acts m) (run agent acts m).
Proof.
  revert tr m. induction acts as [|a acts IH]; intros tr m Hw Hh; [by rewrite app_nil_r|].
  cbn [accepted]. rewrite (assoc_L (++)). apply IH; [by apply wf_step|by apply heard_step].
Qed.
Lemma heard_empty : heard [] empty_manager.
Proof.
  constructor; [| |constructor]; intros id r; unfold slot_at, outcome; cbn; rewrite lookup_empty; [set_solver|done].
Qed.

(** C15: What the model is told the user said is what was taken as the answer to
    this very question; a question takes at most one answer; and the maps of
    the manager agree: waiters, index and lists name the questions whose
    channel is still empty. *)
(* @prop invariant defs=register,resolve,clear_session,forget,mark_awaiting_text,wait_begin,wait_check,wait_poll,wait_touched *)
Theorem answers_are_heard agent acts :
  let m := run agent acts empty_manager in
  (∀ id r, outcome m id = Some (Answered r) → (id, r) ∈ accepted agent acts empty_manager) ∧
  NoDup (accepted agent acts empty_manager).*1 ∧
  (∀ id, id ∈ waiters m ↔ slot_at m id = Some Empty) ∧
  (∀ id, agent_for_clarify id m = if bool_decide (id ∈ waiters m) then Some agent else None) ∧
  (∀ id s, id ∈ waiters m → session_at m id = Some s → id ∈ listed m s).
Proof.
  intros m. destruct (wf_run agent acts _ (wf_empty agent)) as [Hw1 Hw2 Hw3].
  destruct (heard_run agent acts [] _ (wf_empty agent) heard_empty) as [H1 H2 H3].
  split_and!; try done. intros id r Hr%H2. by apply H1.
Qed.

(** ** Waiting ends *)

(** The timed wait never goes past the deadline. *)
Definition timely (m : ClarifyManager) : Prop :=
  ∀ id a until, asks m !! id = Some a → stage a = Polling until → (until <= deadline a)%Z.
Lemma timely_alter (f : Ask → Ask) (id : str) m m' :
  asks m' = alter f id (asks m) →
  (∀ a until, asks m !! id = Some a → stage (f a) = Polling until → (until <= deadline (f a))%Z) → timely m → timely m'.
Proof.
  intros He Hf Ht i a until. rewrite He. destruct (decide (id = i)) as [->|Hn]; [|rewrite lookup_alter_ne by done; apply Ht].
  rewrite lookup_alter_eq. destruct (asks m !! i) as [b|] eqn:Hb; [|done]. cbn. intros [= <-]. by apply Hf.
Qed.
Lemma timely_slot (s : Slot) (id : str) m m' : asks m' = alter (set_slot s) id (asks m) → timely m → timely m'.
Proof. intros He Ht. eapply timely_alter; [exact He| |done]. intros a until Ha Hs. by apply (Ht id a). Qed.
Lemma timely_same m m' : asks m' = asks m → timely m → timely m'.
Proof. intros He Ht. unfold timely. by rewrite He. Qed.
Lemma timely_step agent a m : timely m → timely (step agent a m).
Proof.
  intros Ht. destruct a as [id s t|id now timeout|id now|id now|id|id r|s|id|id]; cbn [step].
  - case_bool_decide; [done|]. intros i a until. cbn. intros [[<- <-]|[_ Hl]]%lookup_insert_Some; [done|by eapply Ht].
  - unfold wait_begin. destruct (asks m !! id) as [[s d [] c]|] eqn:Ha; try done.
    intros i a until. cbn. intros [[<- <-]|[_ Hl]]%lookup_insert_Some; [done|by eapply Ht].
  - unfold wait_check, finish. destruct (asks m !! id) as [[s d [] c]|] eqn:Ha; try done. case_match.
    + eapply timely_alter; [by rewrite asks_forget| |exact Ht]. done.
    + eapply timely_alter; [reflexivity| |exact Ht]. intros a until Ha'. rewrite Ha in Ha'. injection Ha' as <-. cbn.
      intros [= <-]. lia.
  - unfold wait_poll, finish. destruct (asks m !! id) as [[s d [] [| |]]|]; try done;
      [case_match; [|done]; eapply timely_alter; [reflexivity|done|exact Ht]|by (eapply timely_alter; [by rewrite asks_forget| |exact Ht])..].
  - unfold wait_touched. destruct (asks m !! id) as [[s d [] c]|]; try done. eapply timely_alter; [reflexivity|done|exact Ht].
  - unfold resolve. case_bool_decide; [|done]. destruct (asks m !! id); [case_match|]; cbn; by eapply timely_slot.
  - unfold clear_session. apply (timely_same (foldl drop_waiter m (listed m s))); [done|]. generalize (listed m s).
    intros ids. revert m Ht. induction ids as [|i ids IH]; intros m Ht; [done|]. apply IH. unfold drop_waiter.
    case_bool_decide; [by eapply timely_slot|done].
  - by apply (timely_same m).
  - destruct (asks m !! id) as [a|]; [|done]. case_match; [eapply timely_alter; [reflexivity|done|exact Ht]|done].
Qed.
Lemma timely_run agent acts m : timely m → timely (run agent acts m).
Proof. revert m. induction acts as [|a acts IH]; intros m Ht; [done|]. by apply IH, timely_step. Qed.

Definition waiting (a : Ask) : bool := match stage a with AtHead | Polling _ | Touching => true | _ => false end.
Lemma outcome_forget s m id : outcome (forget s m) id = outcome m id.
Proof. unfold outcome. by rewrite asks_forget. Qed.
Lemma outcome_moved o id m a : asks m !! id = Some a → outcome (move (Finished o) id m) id = Some o.
Proof. intros Ha. unfold outcome, move; cbn. rewrite lookup_alter_eq, Ha. by destruct a. Qed.
Lemma moved st id m a : asks m !! id = Some a → asks (move st id m) !! id = Some (set_stage st a).
Proof. intros Ha. cbn. by rewrite lookup_alter_eq, Ha. Qed.

(** No turn waits for an answer for ever: once the deadline of a question
    has passed, one more round of its loop ends it, with the answer if one
    came in time.  An answer that comes during the timed wait is heard at once. *)
Theorem question_ends agent acts id a now :
  let m := run agent acts empty_manager in
  asks m !! id = Some a → waiting a = true → (deadline a <= now)%Z →
  is_Some (outcome (run agent [APoll id now; ATouched id; ACheck id now] m) id) ∧
  (∀ until r, stage a = Polling until → slot a = Filled r → ∀ t, outcome (step agent (APoll id t) m) id = Some (Answered r)).
Proof.
  intros m Ha Hwt Hd. pose proof (timely_run agent acts empty_manager ltac:(intros ?? ?; cbn; by rewrite lookup_empty)) as Ht.
  fold m in Ht. split.
  - destruct a as [s d st c]. unfold waiting in Hwt. cbn [stage deadline] in *.
    assert (∀ m' c', asks m' !! id = Some (mkAsk s d AtHead c') → is_Some (outcome (step agent (ACheck id now) m') id)) as Hhead.
    { intros m' c' Hm. cbn. unfold wait_check. rewrite Hm. rewrite (proj2 (Z.leb_le (d - now) 0)) by lia. unfold finish.
      rewrite outcome_forget, (outcome_moved _ _ _ _ Hm). eauto. }
    assert (∀ m' c', asks m' !! id = Some (mkAsk s d Touching c') →
      is_Some (outcome (run agent [ATouched id; ACheck id now] m') id)) as Htouch.
    { intros m' c' Hm. unfold run. cbn [foldl]. eapply Hhead. cbn. unfold wait_touched. rewrite Hm. by apply (moved AtHead _ _ _ Hm). }
    assert (∀ o, outcome m id = Some o → False) as Hno.
    { intros o. unfold outcome. rewrite Ha. by destruct st. }
    destruct st as [| |until| |?|]; try done.
    + unfold run. cbn [foldl step]. unfold wait_poll. rewrite Ha. unfold wait_touched. rewrite Ha. by eapply Hhead.
    + pose proof (Ht id _ until Ha eq_refl) as Hu. cbn in Hu.
      assert (∀ o m', asks m' !! id = Some (mkAsk s d (Finished o) c) →
                is_Some (outcome (run agent [ATouched id; ACheck id now] m') id)) as Hfin.
      { intros o m' Hm. unfold run. cbn [foldl step]. unfold wait_touched. rewrite Hm. unfold wait_check. rewrite Hm.
        unfold outcome. rewrite Hm. eauto. }
      change (run agent [APoll id now; ATouched id; ACheck id now] m) with
        (run agent [ATouched id; ACheck id now] (wait_poll id now m)).
      unfold wait_poll, finish. rewrite Ha. destruct c.
      * rewrite (proj2 (Z.leb_le until now)) by lia. apply (Htouch _ Empty). by rewrite (moved _ _ _ _ Ha).
      * eapply (Hfin (Answered a)). rewrite asks_forget. by rewrite (moved _ _ _ _ Ha).
      * eapply (Hfin (NoResponse WasCancelled)). rewrite asks_forget. by rewrite (moved _ _ _ _ Ha).
    + change (run agent [APoll id now; ATouched id; ACheck id now] m) with
        (run agent [ATouched id; ACheck id now] (wait_poll id now m)).
      unfold wait_poll. rewrite Ha. by eapply Htouch.
  - intros u r Hst Hsl t. cbn. unfold wait_poll. rewrite Ha. destruct a as [s d st c]. cbn in Hst, Hsl. subst.
    unfold finish. rewrite outcome_forget. by eapply outcome_moved.
Qed.

(** ** Who answers *)

(** What is listed for a session was asked in it. *)
Definition owned (m : ClarifyManager) : Prop := ∀ s id, id ∈ listed m s → session_at m id = Some s.
Lemma owned_same m m' :
  (∀ id, session_at m' id = session_at m id) → (∀ s id, id ∈ listed m' s → id ∈ listed m s) → owned m → owned m'.
Proof. intros Hs Hl Ho s id Hin. rewrite Hs. by apply Ho, Hl. Qed.
Lemma session_move st id m i : session_at (move st id m) i = session_at m i.
Proof. unfold session_at; cbn. by apply asks_session. Qed.
Lemma session_asks m m' i : asks m' = asks m → session_at m' i = session_at m i.
Proof. intros He. unfold session_at. by rewrite He. Qed.
Lemma owned_forget s m : owned m → owned (forget s m).
Proof.
  apply owned_same; [intros i; by apply session_asks, asks_forget|]. intros s' id. unfold listed, forget.
  destruct (by_session m !! s) as [v|] eqn:Hv; [|done]. cbn. destruct (decide (s = s')) as [->|Hn]; [|by rewrite lookup_insert_ne].
  rewrite lookup_insert_eq, Hv. cbn. intros (e & -> & He)%list_elem_of_fmap. apply list_elem_of_fmap. exists e. split; [done|].
  apply list_elem_of_In, filter_In in He as [He _]. by apply list_elem_of_In.
Qed.
Lemma owned_move st id m : owned m → owned (move st id m).
Proof. apply owned_same; [apply session_move|done]. Qed.
Lemma owned_put s id m : owned m → owned (put s id m).
Proof. apply owned_same; [|done]. intros i. unfold session_at; cbn. by apply asks_session. Qed.
Lemma owned_step agent a m : owned m → owned (step agent a m).
Proof.
  intros Ho. destruct a as [id s t|id now timeout|id now|id now|id|id r|s|id|id]; cbn [step].
  - case_bool_decide as Hn; [done|]. apply eq_None_not_Some in Hn. intros s' i. unfold listed, session_at; cbn.
    assert (i ∈ listed m s' → id ≠ i ∧ session_at m i = Some s') as Hold.
    { intros Hi%Ho. split; [|done]. intros ->. unfold session_at in Hi. by rewrite Hn in Hi. }
    destruct (decide (s = s')) as [->|Hne].
    + rewrite lookup_insert_eq. cbn. rewrite fmap_app. intros [Hi|Hi]%elem_of_app.
      * destruct (Hold Hi) as [? ?]. by rewrite lookup_insert_ne.
      * apply list_elem_of_singleton in Hi as ->. cbn. by rewrite lookup_insert_eq.
    + rewrite (lookup_insert_ne (by_session m)) by done. intros Hi. destruct (Hold Hi) as [? ?]. by rewrite lookup_insert_ne.
  - unfold wait_begin. destruct (asks m !! id) as [[s d [] c]|] eqn:Ha; try done. revert Ho. apply owned_same; [|done].
    intros i. unfold session_at; cbn. destruct (decide (id = i)) as [<-|Hn]; [by rewrite lookup_insert_eq, Ha|by rewrite lookup_insert_ne].
  - unfold wait_check, finish. destruct (asks m !! id) as [[s d [] c]|]; try done.
    case_match; [by apply owned_forget, owned_move|by apply owned_move].
  - unfold wait_poll, finish. destruct (asks m !! id) as [[s d [] [| |]]|]; try done;
      [case_match; [by apply owned_move|done]|by apply owned_forget, owned_move..].
  - unfold wait_touched. destruct (asks m !! id) as [[s d [] c]|]; try done. by apply owned_move.
  - unfold resolve. case_bool_decide; [|done]. destruct (asks m !! id); [case_match|]; cbn; by apply owned_put.
  - assert (∀ ids m, owned m → owned (foldl drop_waiter m ids) ∧ by_session (foldl drop_waiter m ids) = by_session m) as Hd.
    { clear. induction ids as [|i ids IH]; intros m Ho; [done|]. cbn [foldl]. destruct (IH (drop_waiter m i)) as [H1 H2].
      - unfold drop_waiter. case_bool_decide; [by apply owned_put|done].
      - split; [done|]. rewrite H2. unfold drop_waiter. by case_bool_decide. }
    destruct (Hd (listed m s) m Ho) as [H1 H2]. unfold clear_session. fold (listed m s). revert H1. apply owned_same; [done|].
    intros s' i. unfold listed; cbn. destruct (decide (s = s')) as [->|Hn]; [rewrite lookup_delete_eq; cbn; set_solver|by rewrite lookup_delete_ne].
  - revert Ho. apply owned_same; [done|]. intros s i. unfold listed; cbn. rewrite lookup_fmap. destruct (by_session m !! s) as [v|]; [|done].
    cbn. intros (e & -> & He)%list_elem_of_fmap. apply list_elem_of_In, in_map_iff in He as (e' & <- & He).
    apply list_elem_of_fmap. exists e'. split; [unfold mark; by case_bool_decide|]. by apply list_elem_of_In.
  - destruct (asks m !! id) as [a|]; [|done]. case_match; [by apply owned_move|done].
Qed.
Lemma owned_run agent acts m : owned m → owned (run agent acts m).
Proof. revert m. induction acts as [|a acts IH]; intros m Ho; [done|]. by apply IH, owned_step. Qed.
Lemma owned_empty : owned empty_manager.
Proof. intros s id. unfold listed; cbn. rewrite lookup_empty. cbn. set_solver. Qed.

Lemma resolve_others id r m m' ok i : resolve id r m = (m', ok) → i ≠ id → slot_at m' i = slot_at m i.
Proof.
  intros Hr Hn. unfold resolve in Hr. case_bool_decide; [|by simplify_eq].
  destruct (asks m !! id) as [a|]; [destruct (receiving a)|]; simplify_eq; rewrite slot_put, bool_decide_eq_false_2; done.
Qed.
Lemma resolve_true agent id r m m' : wf agent m → resolve id r m = (m', true) → slot_at m id = Some Empty ∧ slot_at m' id = Some (Filled r).
Proof.
  intros Hw Hr. unfold resolve in Hr. case_bool_decide as Hin; [|done]. apply (wf_waiter _ _ Hw) in Hin.
  destruct (asks m !! id) as [a|]; [destruct (receiving a)|]; simplify_eq. split; [done|].
  by rewrite slot_put, bool_decide_eq_true_2, Hin.
Qed.

Section owner.
Context {V : Type} `{Json V, JsonNumbers V} (parse_uuid : str → option str).

(** On a channel only the owner answers.  A text is taken as an answer only
    when it is no button, comes from the owner and no approval waits; it then
    answers one question that was open, asks for text and was asked in the
    session of the sender, and touches no other question.  A button changes
    something only when the owner pressed it, and then only the question it
    names. *)
Theorem owner_answers agent acts gs ct scope rid now db approvals (msg : IncomingMessageDto (V:=V)) :
  let m := run agent acts empty_manager in
  (∀ m' f, handle_clarify_text gs agent ct scope rid now db approvals msg m = (m', Some f) →
     owner_of gs agent (user_id msg) = true ∧ is_callback msg = false ∧ approvals = 0 ∧
     ∃ s st id, resolve_active_dm_session agent (user_id msg) ct scope (chat_scope msg) now db = Some (s, st) ∧
       session_at m id = Some s ∧ slot_at m id = Some Empty ∧ slot_at m' id = Some (Filled (trim (text_of msg))) ∧
       ∀ i, i ≠ id → slot_at m' i = slot_at m i) ∧
  (∀ m' f, handle_clarify_callback parse_uuid gs agent rid msg m = Some (m', f) →
     m' = m ∨
     owner_of gs agent (user_id msg) = true ∧ is_callback msg = true ∧
     ∃ id slot, parse_clarify_callback parse_uuid (text_of msg) = Some (id, slot) ∧ ∀ i, i ≠ id → slot_at m' i = slot_at m i).
Proof.
  intros m. pose proof (wf_run agent acts _ (wf_empty agent)) as Hw. pose proof (owned_run agent acts _ owned_empty) as Ho.
  fold m in Hw, Ho. split; intros m' f.
  - unfold handle_clarify_text. destruct (is_callback msg); [done|]. destruct (negb (has_any_pending m)); [done|].
    destruct (owner_of gs agent (user_id msg)) eqn:Hown; [cbn [negb]|done]. case_bool_decide; [done|].
    destruct (resolve_active_dm_session _ _ _ _ _ _ _) as [[s st]|]; [|done].
    destruct (has_pending_text s m) as [id|] eqn:Hp; [|done]. case_bool_decide as Ha; [done|].
    destruct (resolve id (trim (text_of msg)) m) as [m1 ok] eqn:Hr. destruct ok; [|done]. intros [= -> <-].
    split_and!; [done|done|done|]. exists s, st, id. destruct (resolve_true agent _ _ _ _ Hw Hr) as [Hr1 Hr2].
    split_and!; try done; [|intros i Hi; by eapply resolve_others].
    apply Ho. unfold has_pending_text in Hp. unfold listed. destruct (by_session m !! s) as [v|]; [|done]. cbn in Hp |- *.
    destruct (List.find _ v) as [e|] eqn:Hf; [|done]. cbn in Hp. injection Hp as <-. apply find_some in Hf as [Hf _].
    apply list_elem_of_fmap. exists e. split; [done|]. by apply list_elem_of_In.
  - unfold handle_clarify_callback. destruct (clarify_cb_matches parse_uuid msg) eqn:Hcb; [cbn [negb]|done].
    destruct (parse_clarify_callback parse_uuid (text_of msg)) as [[id sl]|]; [cbn [mbind option_bind]|done].
    intros Hm. apply (inj Some) in Hm. unfold clarify_cb_matches in Hcb. apply andb_true_iff in Hcb as [Hcb _].
    destruct (owner_of gs agent (user_id msg)) eqn:Hown; [cbn [negb] in Hm|left; by apply (f_equal fst) in Hm].
    right. split_and!; [done|done|]. exists id, sl. split; [done|]. case_bool_decide.
    + apply (f_equal fst) in Hm. cbn [fst] in Hm. by subst m'.
    + destruct (resolve id _ m) as [m1 ok] eqn:Hr. apply (f_equal fst) in Hm. cbn [fst] in Hm. subst m1.
      intros i Hi. by eapply resolve_others.
Qed.
End owner.

(** ** Examples *)

Module ClarifyWitness.
Definition ask (id : string) (start : Z) : list Action := [ARegister (bs id) 7 true; ABegin (bs id) start 2000].
Definition bot : str := bs "bot".
Definition after (acts : list Action) : ClarifyManager := run bot acts empty_manager.

Lemma question_ends_witness :
  outcome (after (ask "q" 0 ++ [ACheck (bs "q") 0] ++ [APoll (bs "q") 2000; ATouched (bs "q"); ACheck (bs "q") 2000])) (bs "q")
    = Some (NoResponse TimedOut) ∧
  is_Some (outcome (run bot [APoll (bs "q") 2000; ATouched (bs "q"); ACheck (bs "q") 2000]
                      (after (ask "q" 0 ++ [ACheck (bs "q") 0]))) (bs "q")).
Proof.
  split; [by vm_compute|].
  apply (question_ends bot (ask "q" 0 ++ [ACheck (bs "q") 0]) (bs "q") (mkAsk 7 2000 (Polling 1000) Empty) 2000);
    [vm_compute; reflexivity|reflexivity|vm_compute; congruence].
Defined.

Example answered_in_time :
  outcome (after (ask "q" 0 ++ [ACheck (bs "q") 0; AResolve (bs "q") (bs "blue"); APoll (bs "q") 10])) (bs "q") = Some (Answered (bs "blue")).
Proof. by vm_compute. Qed.
(** An answer that is taken while the heartbeat writes to the database is lost
    when the deadline passes meanwhile: the user is told that it was heard, the
    model that nobody answered. *)
Example answer_lost :
  let acts := ask "q" 0 ++ [ACheck (bs "q") 0; APoll (bs "q") 1000; ATouched (bs "q"); ACheck (bs "q") 1500;
                            APoll (bs "q") 2000; AResolve (bs "q") (bs "blue"); ATouched (bs "q"); ACheck (bs "q") 2001] in
  accepted bot acts empty_manager = [(bs "q", bs "blue")] ∧ outcome (after acts) (bs "q") = Some (NoResponse TimedOut).
Proof. split; by vm_compute. Qed.

(** A question that timed out stays a waiter until the turn ends. *)
Definition stale : list Action := ask "q" 0 ++ [ACheck (bs "q") 3000].
Example timed_out_waiter_stays :
  outcome (after stale) (bs "q") = Some (NoResponse TimedOut) ∧ has_any_pending (after stale) = true ∧
  agent_for_clarify (bs "q") (after stale) = Some bot ∧ has_pending_text 7 (after stale) = Some (bs "q").
Proof. split_and!; by vm_compute. Qed.
(** It then takes the text that answers the next question of the same turn: the
    text is not heard, and becomes a message that waits behind the turn. *)
Definition two_questions : list Action := stale ++ ask "p" 3000 ++ [ACheck (bs "p") 3000].
Example stale_question_takes_answer :
  has_pending_text 7 (after two_questions) = Some (bs "q") ∧
  (resolve (bs "q") (bs "blue") (after two_questions)).2 = false ∧
  slot_at (resolve (bs "q") (bs "blue") (after two_questions)).1 (bs "p") = Some Empty.
Proof. split_and!; by vm_compute. Qed.

(** Choices: the first key with a text decides, four at most. *)
Example choices_of :
  let obj k v := Jv.Obj [(bs k, Jv.Str (bs v))] in
  normalize_choices (Some (Jv.Arr [Jv.Str (bs " a "); obj "label" "b"; obj "description" "c"; Jv.Str []; Jv.Str (bs "d"); Jv.Str (bs "e")])) =
  [bs "a"; bs "b"; bs "c"; bs "d"] ∧
  normalize_choices (Some (Jv.Arr [Jv.Obj [(bs "label", Jv.Str (bs " ")); (bs "text", Jv.Str (bs "x"))]])) = [] ∧
  question_buttons (bs "q") [bs "a"; bs "b"] =
  [(bs "a", bs "clarify:q:0"); (bs "b", bs "clarify:q:1"); (bs "Other", bs "clarify:q:other")].
Proof. split_and!; by vm_compute. Qed.
Example channels :
  channel_available (Jv.Obj [(bs "chat_id", Jv.Str (bs "5"))]) = true ∧
  channel_available (Jv.Obj [(bs "chat_id", Jv.Num 5)]) = false ∧
  channel_available (Jv.Obj [(bs "_channel", Jv.Str (bs "ui"))]) = true.
Proof. split_and!; by vm_compute. Qed.
End ClarifyWitness.
