(* ===== verification/Outbound.v ===== *)
(** * Actions for channel adapters

    What the server asks an adapter to do (send a message, a file, buttons) is
    put into a durable queue before it goes over the wire: the table of
    [db/outbound.rs], the router of [agent/channel_actions.rs], the forwarding
    task of a connection ([gateway/handlers/channel_ws/mod.rs]), the replay
    after a reconnect ([handshake.rs]) and the answers of the adapter
    ([reader.rs]).

    Forwarding, marking a row as sent, recording an answer and replaying are
    tasks of their own; an action of [step] is what one of them does at a time.
    Times are seconds. *)
From Stdlib Require Import Sorted.
From S2P Require Import Prelude Json.

(** ** The table *)

Section table.
Context {V : Type} `{EqDecision V}.

(** The values the column [status] gets. *)
Inductive Status := Pending | Sent | Acked | Failed.
#[export] Instance status_eq_dec : EqDecision Status.
Proof. solve_decision. Defined.
Record Row := mkRow {
  q_id : nat;
  q_agent : str;
  q_channel : str;
  q_action : str;
  q_payload : V;
  q_status : Status;
  attempts : Z;
  created_at : Z;
  sent_at : option Z;
  acked_at : option Z;
}.
Definition set_status (s : Status) (att : Z) (sent acked : option Z) (r : Row) : Row :=
  mkRow (q_id r) (q_agent r) (q_channel r) (q_action r) (q_payload r) s att (created_at r) sent acked.
Definition on_id (id : nat) (f : Row → Row) (rows : list Row) : list Row :=
  (λ r, if bool_decide (q_id r = id) then f r else r) <$> rows.

(** The same action, enqueued in the last thirty seconds. *)
Definition duplicate (agent channel name : str) (payload : V) (now : Z) (r : Row) : bool :=
  bool_decide (q_agent r = agent) && bool_decide (q_channel r = channel) && bool_decide (q_action r = name) &&
  bool_decide (q_payload r = payload) && (now - 30 <? created_at r)%Z.
Definition older (a b : Row) : bool := (created_at a <? created_at b)%Z.
(** [fresh]: the id the database makes; [others]: what other connections do
    to the table between the first two statements. *)
(* @src opex-core/src/db/outbound.rs 13-77 enqueue_action *)
Definition enqueue_action (fresh : nat) (agent channel name : str) (payload : V) (now : Z) (others : list Row → list Row)
    (rows : list Row) : list Row * option nat :=
  match List.find (duplicate agent channel name payload now) rows with
  | Some r => (rows, Some (q_id r))
  | None =>
      let rows := others rows in
      if existsb (duplicate agent channel name payload now) rows
      then (rows, q_id <$> head (sort_by older (List.filter (duplicate agent channel name payload now) rows)))
      else (rows ++ [mkRow fresh agent channel name payload Pending 0 now None None], Some fresh)
  end.
(* @src opex-core/src/db/outbound.rs 80-88 mark_sent *)
Definition mark_sent (id : nat) (now : Z) : list Row → list Row :=
  on_id id (λ r, set_status Sent (attempts r + 1) (Some now) (acked_at r) r).
(* @src opex-core/src/db/outbound.rs 91-97 mark_acked *)
Definition mark_acked (id : nat) (now : Z) : list Row → list Row :=
  on_id id (λ r, set_status Acked (attempts r) (sent_at r) (Some now) r).
(* @src opex-core/src/db/outbound.rs 100-106 mark_failed *)
Definition mark_failed (id : nat) : list Row → list Row :=
  on_id id (λ r, set_status Failed (attempts r) (sent_at r) (acked_at r) r).
Definition due (channel : str) (now : Z) (r : Row) : bool :=
  bool_decide (q_channel r = channel) && (attempts r <? 3)%Z &&
  match q_status r with
  | Pending => true
  | Sent => match sent_at r with Some t => t <? now - 3600 | None => false end
  | _ => false
  end%Z.
(* @src opex-core/src/db/outbound.rs 111-129 get_pending *)
Definition get_pending (channel : str) (limit : nat) (now : Z) (rows : list Row) : list Row :=
  take limit (sort_by older (List.filter (due channel now) rows)).
(* @src opex-core/src/db/outbound.rs 132-140 cleanup_old *)
Definition cleanup_old (days now : Z) (rows : list Row) : list Row :=
  List.filter (λ r, negb (bool_decide (q_status r = Acked) &&
                          match acked_at r with Some t => (t <? now - days * 86400)%Z | None => false end)) rows.
End table.
Arguments Row : clear implicits.

(** ** The router *)

(* @src opex-core/src/agent/channel_actions.rs 8-20 ChannelAction *)
Record ChannelAction (V : Type) := mkAction {
  a_no : nat;
  a_name : str;
  a_params : V;
  a_context : V;
  target_channel : option str;
}.
Arguments mkAction {V}. Arguments a_no {V}. Arguments a_name {V}. Arguments a_params {V}. Arguments a_context {V}.
Arguments target_channel {V}.
(* @src opex-core/src/agent/channel_actions.rs 27-27 CHANNEL_ACTION_CAPACITY *)
Definition CHANNEL_ACTION_CAPACITY : nat := 64.

Section router.
Context {V : Type}.
(** The connections in the order in which the map lists them: the key, the
    buffer, and whether its receiver is still there. *)
Record Chan := mkChan { conn_id : str; buffer : list (ChannelAction V); open : bool }.
(* @src opex-core/src/agent/channel_actions.rs 32-34 ChannelActionRouter *)
Definition ChannelActionRouter : Type := list Chan.
(* @src opex-core/src/agent/channel_actions.rs 45-50 subscribe *)
Definition subscribe (channel_type uuid : str) (r : ChannelActionRouter) : ChannelActionRouter * str :=
  let id := channel_type ++ bs ":" ++ uuid in
  (List.filter (λ c, negb (bool_decide (conn_id c = id))) r ++ [mkChan id [] true], id).
(* @src opex-core/src/agent/channel_actions.rs 53-55 unsubscribe *)
Definition unsubscribe (id : str) (r : ChannelActionRouter) : ChannelActionRouter :=
  List.filter (λ c, negb (bool_decide (conn_id c = id))) r.
(* @src opex-core/src/agent/channel_actions.rs 84-93 try_send_action *)
Definition try_send_action (c : Chan) (a : ChannelAction V) (label : str) : result str Chan :=
  if negb (open c) then Err (bs "channel '" ++ label ++ bs "' disconnected")
  else if (length (buffer c) <? CHANNEL_ACTION_CAPACITY)%nat then Ok (mkChan (conn_id c) (buffer c ++ [a]) true)
  else Err (bs "channel '" ++ label ++ bs "' queue full (" ++ dec CHANNEL_ACTION_CAPACITY ++ bs ")").
(** The first connection that satisfies [p] is tried. *)
Fixpoint send_first (p : Chan → bool) (a : ChannelAction V) (label missing : str) (r : ChannelActionRouter) : ChannelActionRouter * result str unit :=
  match r with
  | [] => ([], Err missing)
  | c :: r =>
      if p c then
        match try_send_action c a label with
        | Ok c => (c :: r, Ok ())
        | Err e => (c :: r, Err e)
        end
      else let '(r, res) := send_first p a label missing r in (c :: r, res)
  end.
(* @src opex-core/src/agent/channel_actions.rs 60-79 send *)
Definition send (a : ChannelAction V) (r : ChannelActionRouter) : ChannelActionRouter * result str unit :=
  match target_channel a with
  | Some t => send_first (λ c, starts_with (t ++ bs ":") (conn_id c)) a t (bs "channel '" ++ t ++ bs "' not connected") r
  | None => send_first (λ _, true) a (bs "default") (bs "no channels connected") r
  end.
End router.
Arguments Chan : clear implicits.
Arguments ChannelActionRouter : clear implicits.

(** ** A connection *)

Section world.
Context {V : Type} `{EqDecision V, Json V}.

(** [outbound_ids] leads from the id of a frame to its row; [pending_actions]
    to the caller who waits for the result.  [live]: the writer takes frames. *)
Record Conn := mkConn {
  c_agent : str;
  c_channel : str;
  c_chan : Chan V;
  outbound_ids : gmap nat nat;
  pending_actions : gmap nat nat;
  live : bool;
  draining : bool;
}.
Inductive Task := MarkSent (q : nat) | Ack (q : nat) (ok : bool).
(** What happened, the oldest first. *)
Inductive Event :=
| Enqueued (q : nat)
| Wire (c : nat) (aid : nat) (q : option nat) (name : str) (params ctx : V)
| Answer (c : nat) (aid : nat) (ok : bool)    (** what the adapter says of a frame *)
| Reply (a : nat) (r : result str unit).
Record World := mkWorld {
  rows : list (Row V);
  conns : gmap nat Conn;
  tasks : list Task;
  log : list Event;
  next_q : nat;
  next_a : nat;
}.
Definition with_conn (c : nat) (k : Conn) (w : World) : World :=
  mkWorld (rows w) (<[c := k]> (conns w)) (tasks w) (log w) (next_q w) (next_a w).
Definition say (ev : list Event) (w : World) : World :=
  mkWorld (rows w) (conns w) (tasks w) (log w ++ ev) (next_q w) (next_a w).
Definition spawn (ts : list Task) (w : World) : World :=
  mkWorld (rows w) (conns w) (tasks w ++ ts) (log w) (next_q w) (next_a w).

(** A quarter of the map goes when it holds more than a thousand ids. *)
(* @src opex-core/src/gateway/handlers/channel_ws/mod.rs 201-210 channel_ws_loop (eviction) *)
Definition evict (m : gmap nat nat) : gmap nat nat :=
  if (1000 <? size m)%nat then foldr delete m (take (size m / 4) (map_to_list m).*1) else m.
Definition MAX_PENDING_ACTIONS : nat := 100.
(** The payload of a forwarded action, and of a reply that found no connection. *)
Definition action_payload (a : ChannelAction V) : V :=
  jinsert (bs "context") (a_context a) (jinsert (bs "params") (a_params a) (jinsert (bs "action") (jstring (a_name a)) jempty)).
Definition reply_payload (text : str) (ctx : V) : V :=
  jinsert (bs "context") ctx (jinsert (bs "params") (jinsert (bs "text") (jstring text) jempty) jempty).
(** [enqueue_action] for an agent and a channel, when no other connection interferes. *)
Definition enqueue (agent channel name : str) (payload : V) (now : Z) (ok : bool) (w : World) : World * option nat :=
  if ok then
    let '(rs, q) := enqueue_action (next_q w) agent channel name payload now (λ r, r) (rows w) in
    (mkWorld rs (conns w) (tasks w)
       (log w ++ if bool_decide (q = Some (next_q w)) then [Enqueued (next_q w)] else []) (S (next_q w)) (next_a w), q)
  else (w, None).
(** The frame's id is recorded with the row it carries. *)
(* @src opex-core/src/gateway/handlers/channel_ws/mod.rs 199-213 channel_ws_loop (recording an id) *)
Definition track (aid : nat) (q : option nat) (m : gmap nat nat) : gmap nat nat :=
  match q with Some q => <[aid := q]> (evict m) | None => m end.

(** The forwarding task takes the next action of its buffer. *)
(* @src opex-core/src/gateway/handlers/channel_ws/mod.rs 158-318 channel_ws_loop (action forwarder) *)
Definition forward (c : nat) (now : Z) (db_ok : bool) (w : World) : World :=
  match conns w !! c with
  | None => w
  | Some k =>
      match buffer (c_chan k) with
      | [] => w
      | a :: rest =>
          let chan := mkChan (conn_id (c_chan k)) rest (open (c_chan k)) in
          let aid := next_a w in
          let '(w, q) := enqueue (c_agent k) (c_channel k) (a_name a) (action_payload a) now db_ok w in
          let w := mkWorld (rows w) (conns w) (tasks w) (log w) (next_q w) (S aid) in
          let oids := track aid q (outbound_ids k) in
          if draining k then
            with_conn c (mkConn (c_agent k) (c_channel k) chan oids (pending_actions k) (live k) true) w
          else
            let full := (MAX_PENDING_ACTIONS <=? size (pending_actions k))%nat in
            let pend := if full then pending_actions k else <[aid := a_no a]> (pending_actions k) in
            let w := say (if full then [Reply (a_no a) (Ok ())] else []) w in
            let w := with_conn c (mkConn (c_agent k) (c_channel k) chan oids pend (live k) (negb (live k))) w in
            if live k then
              spawn (match q with Some q => [MarkSent q] | None => [] end)
                (say [Wire c aid q (a_name a) (a_params a) (a_context a)] w)
            else w
      end
  end.
(** The adapter answers a frame.  (The row is looked up here and not when the
    task runs: the two differ only for a frame that is answered twice.) *)
(* @src opex-core/src/gateway/handlers/channel_ws/reader.rs 223-248 run (ChannelInbound::ActionResult) *)
Definition action_result (c aid : nat) (r : result str unit) (w : World) : World :=
  match conns w !! c with
  | None => w
  | Some k =>
      let w := say [Answer c aid (is_ok r)] w in
      let w := match outbound_ids k !! aid with Some q => spawn [Ack q (is_ok r)] w | None => w end in
      let w := match pending_actions k !! aid with Some n => say [Reply n r] w | None => w end in
      with_conn c (mkConn (c_agent k) (c_channel k) (c_chan k) (delete aid (outbound_ids k)) (delete aid (pending_actions k))
                     (live k) (draining k)) w
  end.
Definition do_task (t : Task) (now : Z) : list (Row V) → list (Row V) :=
  match t with
  | MarkSent q => mark_sent q now
  | Ack q true => mark_acked q now
  | Ack q false => mark_failed q
  end.
(** One row is replayed under a new id; a dead writer ends the loop. *)
(* @src opex-core/src/gateway/handlers/channel_ws/handshake.rs 198-229 replay_outbound_queue (a row) *)
Definition replay_one (c : nat) (r : Row V) (w : World) : World :=
  match conns w !! c with
  | None => w
  | Some k =>
      let aid := next_a w in
      let k' := mkConn (c_agent k) (c_channel k) (c_chan k) (<[aid := q_id r]> (evict (outbound_ids k))) (pending_actions k) (live k) (draining k) in
      let w := with_conn c k' (mkWorld (rows w) (conns w) (tasks w) (log w) (next_q w) (S aid)) in
      if live k then
        say [Wire c aid (Some (q_id r)) (q_action r) (default jnull (jget (q_payload r) (bs "params")))
               (default jnull (jget (q_payload r) (bs "context")))] w
      else w
  end.
Fixpoint replay_rows (c : nat) (rs : list (Row V)) (w : World) : World :=
  match rs with
  | [] => w
  | r :: rs =>
      let w' := replay_one c r w in
      if default false (live <$> conns w !! c) then replay_rows c rs w' else w'
  end.
(* @src opex-core/src/gateway/handlers/channel_ws/handshake.rs 178-235 replay_outbound_queue *)
Definition replay_outbound_queue (c : nat) (now : Z) (db_ok : bool) (w : World) : World :=
  match conns w !! c with
  | Some k => if db_ok then replay_rows c (get_pending (c_channel k) 50 now (rows w)) w else w
  | None => w
  end.
(** The reader is gone: who waits is told so, the forwarding task is aborted
    with what its buffer still holds, and the connection leaves the router. *)
(* @src opex-core/src/gateway/handlers/channel_ws/reader.rs 266-271 run (drain of pending actions) *)
Definition disconnect (c : nat) (w : World) : World :=
  match conns w !! c with
  | None => w
  | Some k =>
      let w := say ((λ n, Reply n (Err (bs "channel adapter disconnected"))) <$> (map_to_list (pending_actions k)).*2) w in
      mkWorld (rows w) (delete c (conns w)) (tasks w) (log w) (next_q w) (next_a w)
  end.

Inductive Action :=
| AConnect (c : nat) (agent channel uuid : str)
| ASend (c : nat) (a : ChannelAction V)
| AForward (c : nat) (now : Z) (db_ok : bool)
| AResult (c aid : nat) (r : result str unit)
| ATask (i : nat) (now : Z) (ok : bool)
| AReplay (c : nat) (now : Z) (db_ok : bool)
| AStored (agent channel text : str) (ctx : V) (now : Z) (db_ok : bool)
| AWriterDies (c : nat)
| ADisconnect (c : nat)
| AClean (days now : Z).
Definition step (a : Action) (w : World) : World :=
  match a with
  | AConnect c agent channel uuid =>
      match conns w !! c with
      | Some _ => w
      | None => with_conn c (mkConn agent channel (mkChan (channel ++ bs ":" ++ uuid) [] true) ∅ ∅ true false) w
      end
  | ASend c a =>
      match conns w !! c with
      | Some k =>
          match try_send_action (c_chan k) a (c_channel k) with
          | Ok ch => with_conn c (mkConn (c_agent k) (c_channel k) ch (outbound_ids k) (pending_actions k) (live k) (draining k)) w
          | Err e => say [Reply (a_no a) (Err e)] w
          end
      | None => w
      end
  | AForward c now ok => forward c now ok w
  | AResult c aid r => action_result c aid r w
  | ATask i now ok =>
      match tasks w !! i with
      | Some t => mkWorld (if ok then do_task t now (rows w) else rows w) (conns w) (delete i (tasks w)) (log w) (next_q w) (next_a w)
      | None => w
      end
  | AReplay c now ok => replay_outbound_queue c now ok w
  | AStored agent channel text ctx now ok =>
      (enqueue agent channel (bs "send_message") (reply_payload text ctx) now ok w).1
  | AWriterDies c =>
      match conns w !! c with
      | Some k => with_conn c (mkConn (c_agent k) (c_channel k) (c_chan k) (outbound_ids k) (pending_actions k) false (draining k)) w
      | None => w
      end
  | ADisconnect c => disconnect c w
  | AClean days now => mkWorld (cleanup_old days now (rows w)) (conns w) (tasks w) (log w) (next_q w) (next_a w)
  end.
Definition run (acts : list Action) (w : World) : World := foldl (λ w a, step a w) w acts.
Definition start : World := mkWorld [] ∅ [] [] 0 0.

(** ** Nothing is lost *)

Definition wired (q : nat) (l : list Event) : Prop := ∃ c aid n p x, Wire c aid (Some q) n p x ∈ l.
(** The id [aid] stands for the row [q] on the connection [c]: it was drawn,
    and no frame with it went elsewhere or carried another row. *)
Definition owns (l : list Event) (na c aid q : nat) : Prop :=
  aid < na ∧ ∀ c' q' n p x, Wire c' aid q' n p x ∈ l → c' = c ∧ q' = Some q.
Definition answered (l : list Event) (na q : nat) (ok : bool) : Prop :=
  ∃ c aid, Answer c aid ok ∈ l ∧ owns l na c aid q.
(** What the status of a row says of the past. *)
Definition row_ok (l : list Event) (na : nat) (r : Row V) : Prop :=
  match q_status r with
  | Pending => True
  | Sent => wired (q_id r) l
  | Acked => answered l na (q_id r) true
  | Failed => answered l na (q_id r) false
  end.
Definition task_ok (l : list Event) (na : nat) (t : Task) : Prop :=
  match t with MarkSent q => wired q l | Ack q ok => answered l na q ok end.
Definition tracked (cs : gmap nat Conn) (c aid q : nat) : Prop :=
  ∃ k, cs !! c = Some k ∧ outbound_ids k !! aid = Some q.
Record durable (w : World) : Prop := mkDurable {
  du_rows : ∀ r, r ∈ rows w → row_ok (log w) (next_a w) r;
  du_tasks : ∀ t, t ∈ tasks w → task_ok (log w) (next_a w) t;
  du_kept : ∀ q, Enqueued q ∈ log w → q ∈ q_id <$> rows w ∨ answered (log w) (next_a w) q true;
  du_tracked : ∀ c aid q, tracked (conns w) c aid q → owns (log w) (next_a w) c aid q;
  du_wires : ∀ c aid q n p x, Wire c aid q n p x ∈ log w → aid < next_a w;
}.

(** The log grows by [ev], whose frames have ids drawn since. *)
Section growth.
Context (l ev : list Event) (na na' : nat) (Hna : na ≤ na').
Context (Hev : ∀ c aid q n p x, Wire c aid q n p x ∈ ev → na ≤ aid).
Lemma wired_more q : wired q l → wired q (l ++ ev).
Proof. intros (c & aid & n & p & x & Hin). exists c, aid, n, p, x. apply elem_of_app. by left. Qed.
Lemma owns_more c aid q : owns l na c aid q → owns (l ++ ev) na' c aid q.
Proof.
  intros [Ha Ho]. split; [lia|]. intros c' q' n p x [Hin|Hin]%elem_of_app; [by eapply Ho|]. apply Hev in Hin. lia.
Qed.
Lemma said_more q ok : answered l na q ok → answered (l ++ ev) na' q ok.
Proof. intros (c & aid & Hin & Ho). exists c, aid. split; [apply elem_of_app; by left|by apply owns_more]. Qed.
Lemma row_ok_more r : row_ok l na r → row_ok (l ++ ev) na' r.
Proof. unfold row_ok. destruct (q_status r); auto using wired_more, said_more. Qed.
Lemma task_ok_more t : task_ok l na t → task_ok (l ++ ev) na' t.
Proof. destruct t; cbn; auto using wired_more, said_more. Qed.
End growth.

(** The log grows by [ev], everything else changes: what is new is accounted for. *)
Lemma durable_step w rs cs ts ev nq na :
  durable w → next_a w ≤ na → (∀ c aid q n p x, Wire c aid q n p x ∈ ev → next_a w ≤ aid < na) →
  (∀ q, Enqueued q ∈ ev → q ∈ q_id <$> rs) →
  (∀ r, r ∈ rs → row_ok (log w ++ ev) na r) → (∀ t, t ∈ ts → t ∈ tasks w ∨ task_ok (log w ++ ev) na t) →
  (∀ q, q ∈ q_id <$> rows w → q ∈ q_id <$> rs ∨ answered (log w) (next_a w) q true) →
  (∀ c aid q, tracked cs c aid q → tracked (conns w) c aid q ∨ owns (log w ++ ev) na c aid q) →
  durable (mkWorld rs cs ts (log w ++ ev) nq na).
Proof.
  intros [H1 H2 H3 H4 H5] Hna Hw He Hr Ht Hq Hc.
  assert (∀ c aid q n p x, Wire c aid q n p x ∈ ev → next_a w ≤ aid) as Hge by (intros * Hin; by apply Hw in Hin as []).
  constructor; cbn.
  - exact Hr.
  - intros t [Hin|Hok]%Ht; [|done]. eapply task_ok_more; [exact Hna|exact Hge|by apply H2].
  - intros q [Hin|Hin]%elem_of_app; [|left; by apply He].
    assert (answered (log w) (next_a w) q true → answered (log w ++ ev) na q true) as Hmore by (by apply said_more).
    destruct (H3 q Hin) as [Hin'|Ha]; [destruct (Hq q Hin') as [?|?]; auto|auto].
  - intros c aid q [Hin|Ho]%Hc; [|done]. eapply owns_more; [exact Hna|exact Hge|by apply H4].
  - intros c aid q n p x [Hin%H5|Hin%Hw]%elem_of_app; lia.
Qed.
(** ... or only the log grows and the connections change, without a row. *)
Lemma durable_say w cs ts ev na :
  durable w → next_a w ≤ na → (∀ c aid q n p x, Wire c aid q n p x ∈ ev → next_a w ≤ aid < na) →
  (∀ q, Enqueued q ∉ ev) → (∀ t, t ∈ ts → t ∈ tasks w ∨ task_ok (log w ++ ev) na t) →
  (∀ c aid q, tracked cs c aid q → tracked (conns w) c aid q ∨ owns (log w ++ ev) na c aid q) →
  durable (mkWorld (rows w) cs ts (log w ++ ev) (next_q w) na).
Proof.
  intros Hd Hna Hw He Ht Hc. apply durable_step; try done; [intros q Hq; by apply He in Hq| |by left].
  intros r Hr. eapply row_ok_more; [exact Hna| |by apply (du_rows _ Hd)]. intros * Hin. by apply Hw in Hin as [].
Qed.
Lemma durable_conn w cs na : durable w → next_a w ≤ na →
  (∀ c aid q, tracked cs c aid q → tracked (conns w) c aid q ∨ owns (log w) na c aid q) →
  durable (mkWorld (rows w) cs (tasks w) (log w) (next_q w) na).
Proof.
  intros Hd Hna Hc. rewrite <- (app_nil_r (log w)). apply durable_say; try done; [|set_solver|by left|].
  - intros * Hin. by apply not_elem_of_nil in Hin.
  - by rewrite app_nil_r.
Qed.
(** A connection changes without a new id. *)
Lemma tracked_insert (cs : gmap nat Conn) c k k' c0 aid q :
  cs !! c = Some k → (∀ a r, outbound_ids k' !! a = Some r → outbound_ids k !! a = Some r) →
  tracked (<[c:=k']> cs) c0 aid q → tracked cs c0 aid q.
Proof.
  intros Hk Hs (k0 & Hl & Hq). destruct (decide (c0 = c)) as [->|Hne].
  - rewrite lookup_insert_eq in Hl. injection Hl as <-. exists k. auto.
  - rewrite lookup_insert_ne in Hl by done. by exists k0.
Qed.
Lemma tracked_new (cs : gmap nat Conn) c k c0 aid q :
  cs !! c = None → outbound_ids k = ∅ → tracked (<[c:=k]> cs) c0 aid q → tracked cs c0 aid q.
Proof.
  intros Hk Hs (k0 & Hl & Hq). destruct (decide (c0 = c)) as [->|Hne].
  - rewrite lookup_insert_eq in Hl. injection Hl as <-. by rewrite Hs, lookup_empty in Hq.
  - rewrite lookup_insert_ne in Hl by done. by exists k0.
Qed.
Lemma tracked_delete (cs : gmap nat Conn) c c0 aid q : tracked (delete c cs) c0 aid q → tracked cs c0 aid q.
Proof. intros (k & [_ Hk]%lookup_delete_Some & Hq). by exists k. Qed.
Lemma evict_sub (m : gmap nat nat) a r : evict m !! a = Some r → m !! a = Some r.
Proof.
  unfold evict. case_match; [|done]. generalize ((take (size m / 4) (map_to_list m).*1)%nat). intros l.
  induction l as [|x l IH]; [done|]. cbn [foldr]. intros [_ ?]%lookup_delete_Some. by apply IH.
Qed.
(** A connection changes, and the next id stands for a row. *)
Lemma tracked_track (cs : gmap nat Conn) c k k' aid q c0 aid0 q0 :
  cs !! c = Some k → outbound_ids k' = track aid q (outbound_ids k) → tracked (<[c:=k']> cs) c0 aid0 q0 →
  tracked cs c0 aid0 q0 ∨ c0 = c ∧ aid0 = aid ∧ q = Some q0.
Proof.
  intros Hk Ho (k0 & Hl & Hq). destruct (decide (c0 = c)) as [->|Hne].
  - rewrite lookup_insert_eq in Hl. injection Hl as <-. rewrite Ho in Hq. destruct q as [q|]; cbn in Hq; [|left; by exists k].
    apply lookup_insert_Some in Hq as [[<- <-]|[_ Hq%evict_sub]]; [by right|left; by exists k].
  - rewrite lookup_insert_ne in Hl by done. left. by exists k0.
Qed.
Lemma owns_new w ev c q : durable w →
  (∀ c' q' n p x, Wire c' (next_a w) q' n p x ∈ ev → c' = c ∧ q' = Some q) →
  owns (log w ++ ev) (S (next_a w)) c (next_a w) q.
Proof.
  intros Hw He. split; [lia|]. intros c' q' n p x [Hin|Hin]%elem_of_app; [|by eapply He].
  apply (du_wires _ Hw) in Hin. lia.
Qed.

Lemma on_id_elem id f (rs : list (Row V)) r :
  r ∈ on_id id f rs → ∃ r', r' ∈ rs ∧ (r = r' ∧ q_id r' ≠ id ∨ r = f r' ∧ q_id r' = id).
Proof. intros (r' & -> & Hr)%list_elem_of_fmap. exists r'. split; [done|]. case_bool_decide; auto. Qed.
Lemma on_id_ids id f (rs : list (Row V)) : (∀ r, q_id (f r) = q_id r) → q_id <$> on_id id f rs = q_id <$> rs.
Proof.
  intros Hf. unfold on_id. rewrite <- list_fmap_compose. apply list_fmap_ext. intros i r _. cbn. by case_bool_decide.
Qed.
Lemma do_task_ok l na t now rs :
  task_ok l na t → (∀ r, r ∈ rs → row_ok l na r) → ∀ r, r ∈ do_task t now rs → row_ok l na r.
Proof.
  intros Ht Hr r Hin. destruct t as [q|q []]; cbn in Hin; unfold mark_sent, mark_acked, mark_failed in Hin;
    apply on_id_elem in Hin as (r' & Hr' & [[-> _]|[-> Hq]]); auto; unfold row_ok; cbn; by rewrite Hq.
Qed.
Lemma do_task_ids t now (rs : list (Row V)) : q_id <$> do_task t now rs = q_id <$> rs.
Proof. destruct t as [q|q []]; by apply on_id_ids. Qed.

(** The queue entry of an action: an equal one of the last half minute, or a new row. *)
Lemma enqueue_action_cases fresh agent channel name payload now (rs rs' : list (Row V)) q :
  enqueue_action fresh agent channel name payload now (λ r, r) rs = (rs', q) →
  (rs' = rs ∧ ∃ r, r ∈ rs ∧ q = Some (q_id r) ∧ duplicate agent channel name payload now r = true) ∨
  (rs' = rs ++ [mkRow fresh agent channel name payload Pending 0 now None None] ∧ q = Some fresh ∧
   ∀ r, r ∈ rs → duplicate agent channel name payload now r = false).
Proof.
  unfold enqueue_action. destruct (List.find _ rs) as [r|] eqn:Hf.
  - intros [= <- <-]. apply find_some in Hf as [Hin Hd]. left. split; [done|]. exists r. by rewrite list_elem_of_In.
  - assert (∀ r, r ∈ rs → duplicate agent channel name payload now r = false) as Hno.
    { intros r Hr%list_elem_of_In. by eapply find_none. }
    destruct (existsb _ rs) eqn:Hx.
    + apply existsb_elem in Hx as (r & Hr & Hd). by rewrite Hno in Hd.
    + intros [= <- <-]. by right.
Qed.
Lemma durable_enqueue agent channel name payload now ok w w' q :
  enqueue agent channel name payload now ok w = (w', q) → durable w →
  durable w' ∧ conns w' = conns w ∧ next_a w' = next_a w.
Proof.
  unfold enqueue. destruct ok; [|by intros [= <- <-]].
  destruct (enqueue_action _ _ _ _ _ _ _ _) as [rs q'] eqn:He. intros [= <- ->] Hw. split; [|done].
  assert (∀ ev, (∀ e, e ∈ ev → ∃ n, e = Enqueued n) → ∀ r, r ∈ rows w → row_ok (log w ++ ev) (next_a w) r) as Hold.
  { intros ev Hev r Hr. eapply row_ok_more; [done| |by apply (du_rows _ Hw)]. intros * [? [=]]%Hev. }
  apply enqueue_action_cases in He as [(-> & r & Hr & -> & _)|(-> & -> & _)].
  - apply durable_step; try done; [| | |by left|by left|by left].
    + intros *. case_bool_decide; set_solver.
    + intros q. case_bool_decide as Hq; [|set_solver]. intros [= ->]%list_elem_of_singleton. injection Hq as <-.
      apply list_elem_of_fmap. by exists r.
    + apply Hold. intros e. case_bool_decide; set_solver.
  - rewrite bool_decide_eq_true_2 by done. apply durable_step; try done; [| | |by left| |by left].
    + intros *. set_solver.
    + intros q [= ->]%list_elem_of_singleton. rewrite fmap_app. apply elem_of_app. right. apply list_elem_of_here.
    + intros r [Hr|Hr]%elem_of_app; [apply Hold; [set_solver|done]|]. by apply list_elem_of_singleton in Hr as ->.
    + intros q Hq. left. rewrite fmap_app. apply elem_of_app. by left.
Qed.

Lemma durable_replay_one c r w : durable w → durable (replay_one c r w).
Proof.
  intros Hw. unfold replay_one. destruct (conns w !! c) as [k|] eqn:Hk; [|done]. cbv zeta.
  set (k' := mkConn _ _ _ _ _ _ _).
  assert (∀ c0 aid q, tracked (<[c:=k']> (conns w)) c0 aid q →
    tracked (conns w) c0 aid q ∨ c0 = c ∧ aid = next_a w ∧ Some (q_id r) = Some q) as Ht
    by (intros *; by apply (tracked_track _ _ _ _ _ (Some (q_id r)) _ _ _ Hk)).
  unfold with_conn, say; cbn [rows conns tasks log next_q next_a]. destruct (live k).
  - apply durable_say; [done|lia| | |by left|].
    + intros * Hin%list_elem_of_singleton. simplify_eq. lia.
    + intros q. by intros ?%list_elem_of_singleton.
    + intros * [?|(-> & -> & [= <-])]%Ht; [by left|right]. apply owns_new; [done|].
      intros * Hin%list_elem_of_singleton. by simplify_eq.
  - apply durable_conn; [done|lia|]. intros * [?|(-> & -> & [= <-])]%Ht; [by left|right].
    rewrite <- (app_nil_r (log w)). apply owns_new; [done|]. intros * Hin. by apply not_elem_of_nil in Hin.
Qed.
Lemma durable_replay_rows c rs w : durable w → durable (replay_rows c rs w).
Proof.
  revert w. induction rs as [|r rs IH]; intros w Hw; [done|]. cbn.
  destruct (default false _); [by apply IH, durable_replay_one|by apply durable_replay_one].
Qed.
Lemma durable_forward c now ok w : durable w → durable (forward c now ok w).
Proof.
  intros Hw. unfold forward. destruct (conns w !! c) as [k|] eqn:Hk; [|done]. destruct (buffer (c_chan k)) as [|a rest]; [done|]. cbv zeta.
  destruct (enqueue _ _ _ _ _ _ _) as [w1 q] eqn:He. destruct (durable_enqueue _ _ _ _ _ _ _ _ _ He Hw) as (Hw1 & Hc & Hn).
  rewrite <- Hc in Hk. rewrite <- Hn. clear Hw Hc Hn He.
  assert (∀ k' c0 aid q0, outbound_ids k' = track (next_a w1) q (outbound_ids k) → tracked (<[c:=k']> (conns w1)) c0 aid q0 →
    tracked (conns w1) c0 aid q0 ∨ c0 = c ∧ aid = next_a w1 ∧ q = Some q0) as Ht
    by (intros *; by apply (tracked_track _ _ _ _ _ _ _ _ _ Hk)).
  unfold spawn, say, with_conn; cbn [rows conns tasks log next_q next_a].
  destruct (draining k).
  { apply durable_conn; [done|lia|]. intros * [?|(-> & -> & ->)]%Ht; [by left|right|done].
    rewrite <- (app_nil_r (log w1)). apply owns_new; [done|]. intros * Hin. by apply not_elem_of_nil in Hin. }
  set (told := if (_ <=? _)%nat then [_] else _).
  assert (∀ e, e ∈ told → ∃ n r, e = Reply n r) as Htold by (intros e; unfold told; case_match; set_solver).
  destruct (live k).
  - rewrite <- (assoc_L (++)). apply durable_say; [done|lia| | | |].
    + intros * [(? & ? & [=])%Htold|Hin%list_elem_of_singleton]%elem_of_app. simplify_eq. lia.
    + intros q' [(? & ? & [=])%Htold|Hin%list_elem_of_singleton]%elem_of_app. done.
    + intros t [?|Hin]%elem_of_app; [by left|right]. destruct q as [q|]; [|by apply not_elem_of_nil in Hin].
      apply list_elem_of_singleton in Hin as ->. cbn. do 5 eexists. apply elem_of_app. right. apply elem_of_app. right.
      apply list_elem_of_here.
    + intros * [?|(-> & -> & ->)]%Ht; [by left|right|done]. apply owns_new; [done|].
      intros * [(? & ? & [=])%Htold|Hin%list_elem_of_singleton]%elem_of_app. by simplify_eq.
  - apply durable_say; [done|lia| | |by left|].
    + by intros * (? & ? & [=])%Htold.
    + by intros * (? & ? & [=])%Htold.
    + intros * [?|(-> & -> & ->)]%Ht; [by left|right|done]. apply owns_new; [done|]. by intros * (? & ? & [=])%Htold.
Qed.
Lemma durable_result c aid r w : durable w → durable (action_result c aid r w).
Proof.
  intros Hw. unfold action_result. destruct (conns w !! c) as [k|] eqn:Hk; [|done]. cbv zeta.
  set (said := [Answer c aid (is_ok r)] ++ match pending_actions k !! aid with Some n => [Reply n r] | None => [] end).
  assert (∀ e, e ∈ said → e = Answer c aid (is_ok r) ∨ ∃ n, e = Reply n r) as Hsaid
    by (intros e [Hin|Hin]%elem_of_app; [set_solver|case_match; set_solver]).
  assert (∀ cs ts, (∀ t, t ∈ ts → t ∈ tasks w ∨ ∃ q, outbound_ids k !! aid = Some q ∧ t = Ack q (is_ok r)) →
    (∀ c0 a q, tracked cs c0 a q → tracked (conns w) c0 a q) →
    durable (mkWorld (rows w) cs ts (log w ++ said) (next_q w) (next_a w))) as Hend.
  { intros cs ts Hts Hcs. apply durable_say; [done|done| | | |by auto].
    - by intros * [[=]|(? & [=])]%Hsaid.
    - by intros * [[=]|(? & [=])]%Hsaid.
    - intros t [?|(q & Hq & ->)]%Hts; [by left|right]. exists c, aid. split; [set_solver|].
      apply owns_more with (next_a w); [done|by intros * [[=]|(? & [=])]%Hsaid|]. apply (du_tracked _ Hw). by exists k. }
  assert (∀ k' c0 a q, outbound_ids k' = delete aid (outbound_ids k) → tracked (<[c:=k']> (conns w)) c0 a q → tracked (conns w) c0 a q) as Ht.
  { intros k' c0 a q Ho. apply (tracked_insert _ _ _ _ _ _ _ Hk). rewrite Ho. by intros ?? [_ ?]%lookup_delete_Some. }
  unfold with_conn, spawn, say. destruct (outbound_ids k !! aid) as [q|] eqn:Hq; destruct (pending_actions k !! aid) as [n|];
    cbn [rows conns tasks log next_q next_a]; rewrite <- ?(assoc_L (++)); apply Hend; try (intros *; by apply Ht).
  1, 2: intros t [?|Hin%list_elem_of_singleton]%elem_of_app; [by left|right; eauto].
  all: by left.
Qed.
Lemma durable_action a w : durable w → durable (step a w).
Proof.
  intros Hw. destruct a as [c agent channel uuid|c a|c now ok|c aid r|i now ok|c now ok|agent channel text ctx now ok|c|c|days now]; cbn [step].
  - destruct (conns w !! c) eqn:Hk; [done|]. apply durable_conn; [done|done|]. intros c1 a1 q1 Ht. left. eapply tracked_new; [exact Hk|..|exact Ht]. done.
  - destruct (conns w !! c) as [k|] eqn:Hk; [|done]. destruct (try_send_action _ _ _) as [ch|e].
    + apply durable_conn; [done|done|]. intros c1 a1 q1 Ht. left. eapply tracked_insert; [exact Hk|..|exact Ht]. done.
    + apply durable_say; [done|done|set_solver|set_solver|by left|by left].
  - by apply durable_forward.
  - by apply durable_result.
  - destruct (tasks w !! i) as [t|] eqn:Ht; [|done].
    assert (∀ t', t' ∈ delete i (tasks w) → t' ∈ tasks w) as Hd.
    { intros t' Hin. eapply elem_of_submseteq; [exact Hin|]. apply sublist_submseteq, sublist_delete. }
    destruct Hw as [H1 H2 H3 H4 H5]. assert (task_ok (log w) (next_a w) t) as Hok by (eapply H2, list_elem_of_lookup_2, Ht).
    constructor; cbn; [| | |done|done].
    + destruct ok; [by apply do_task_ok|done].
    + intros t' Hin. by apply H2, Hd.
    + destruct ok; [by rewrite do_task_ids|done].
  - unfold replay_outbound_queue. destruct (conns w !! c); [|done]. destruct ok; [by apply durable_replay_rows|done].
  - destruct (enqueue _ _ _ _ _ _ _) as [w1 q] eqn:He. by destruct (durable_enqueue _ _ _ _ _ _ _ _ _ He Hw) as [Hw1 _].
  - destruct (conns w !! c) eqn:Hk; [|done]. apply durable_conn; [done|done|]. intros c1 a1 q1 Ht. left. eapply tracked_insert; [exact Hk|..|exact Ht]. done.
  - unfold disconnect. destruct (conns w !! c) as [k|]; [|done]. cbn. apply durable_say; [done|done| | |by left|].
    + by intros * (n & ? & _)%list_elem_of_fmap.
    + intros q. by intros (n & ? & _)%list_elem_of_fmap.
    + intros * ?%tracked_delete. by left.
  - destruct Hw as [H1 H2 H3 H4 H5]. constructor; cbn; [| | |done|done].
    + intros r Hr. apply list_elem_of_In, filter_In in Hr as [Hr _]. by apply H1, list_elem_of_In.
    + done.
    + intros q [Hin|Ha]%H3; [|by right]. apply list_elem_of_fmap in Hin as (r & -> & Hr).
      destruct (bool_decide (q_status r = Acked)) eqn:Hs.
      * right. bool_hyps. specialize (H1 r Hr). unfold row_ok in H1. by rewrite Hs in H1.
      * left. apply list_elem_of_fmap. exists r. split; [done|]. apply list_elem_of_In, filter_In.
        split; [by apply list_elem_of_In|]. by rewrite Hs.
Qed.
Lemma durable_run acts w : durable w → durable (run acts w).
Proof. revert w. induction acts as [|a acts IH]; intros w Hw; [done|]. by apply IH, durable_action. Qed.
Lemma durable_start : durable start.
Proof.
  constructor; cbn; try (intros * Hin; by apply not_elem_of_nil in Hin). intros c aid q (k & Hk & _). by rewrite lookup_empty in Hk.
Qed.

(** The adapter said [ok] of the row [q]: it answered the id of a frame, and
    the frame with that id carried the row.  (Or it named an id that no frame
    bears: one was drawn for the row, but the writer was dead when the frame
    was to be written, so the adapter was never told it.) *)
Definition said_of (l : list Event) (q : nat) (ok : bool) : Prop :=
  ∃ c aid, Answer c aid ok ∈ l ∧
    ((∃ n p x, Wire c aid (Some q) n p x ∈ l) ∨ ∀ c' q' n p x, Wire c' aid q' n p x ∉ l).
Lemma answered_said l na q ok : answered l na q ok → said_of l q ok.
Proof.
  intros (c & aid & Ha & _ & Ho). exists c, aid. split; [done|]. clear Ha.
  destruct (existsb (λ e, match e with Wire _ a _ _ _ _ => bool_decide (a = aid) | _ => false end) l) eqn:Hx.
  - apply existsb_elem in Hx as ([|c' a q' n p x| |] & Hin & Hb); try done. bool_hyps. subst.
    destruct (Ho _ _ _ _ _ Hin) as [-> ->]. left. by exists n, p, x.
  - right. intros c' q' n p x Hin. apply not_true_iff_false in Hx. apply Hx, existsb_exists. exists (Wire c' aid q' n p x).
    split; [by apply list_elem_of_In|]. by apply bool_decide_eq_true.
Qed.

(** C12: No queued action is lost: whatever adapters, connections and the
    database do, a row that was made is still there unless the adapter answered
    that it was done; a row counts as done or failed only when the adapter
    said so of the id of a frame, and that frame carried this row; and it
    counts as sent only when such a frame was given to the writer.  (An
    adapter that answers an id that it was never sent can be believed for a
    row whose frame the dead writer did not take.) *)
(* @prop safety defs=enqueue_action,forward,track,evict,replay_one,action_result,mark_sent,mark_acked,mark_failed,cleanup_old,replay_outbound_queue witness=OutboundWitness.nothing_lost_witness *)
Theorem nothing_lost acts q :
  let w := run acts start in
  Enqueued q ∈ log w →
  said_of (log w) q true ∨
  ∃ r, r ∈ rows w ∧ q_id r = q ∧
    match q_status r with
    | Pending => True
    | Sent => wired q (log w)
    | Acked => said_of (log w) q true
    | Failed => said_of (log w) q false
    end.
Proof.
  intros w Hq. pose proof (durable_run acts _ durable_start) as [H1 H2 H3 _ _]. fold w in H1, H3.
  destruct (H3 q Hq) as [Hin|Ha]; [right|left; by eapply answered_said]. apply list_elem_of_fmap in Hin as (r & -> & Hr). exists r.
  split; [done|]. split; [done|]. specialize (H1 r Hr). unfold row_ok in H1. destruct (q_status r); eauto using answered_said.
Qed.

(** ** What a reconnect delivers *)

(** The frame that carries a row again. *)
Definition carries (c aid : nat) (r : Row V) : Event :=
  Wire c aid (Some (q_id r)) (q_action r) (default jnull (jget (q_payload r) (bs "params")))
    (default jnull (jget (q_payload r) (bs "context"))).
Definition alive (c : nat) (w : World) : Prop := ∃ k, conns w !! c = Some k ∧ live k = true.

Lemma replay_one_alive c r w :
  alive c w → alive c (replay_one c r w) ∧ log (replay_one c r w) = log w ++ [carries c (next_a w) r] ∧
  next_a (replay_one c r w) = S (next_a w) ∧ rows (replay_one c r w) = rows w.
Proof.
  intros (k & Hk & Hl). unfold replay_one. rewrite Hk. cbv zeta. rewrite Hl. split; [|done].
  eexists. split; [cbn; apply lookup_insert_eq|done].
Qed.
Lemma replay_rows_alive c rs w :
  alive c w → log (replay_rows c rs w) = log w ++ imap (λ i r, carries c (next_a w + i) r) rs ∧ rows (replay_rows c rs w) = rows w.
Proof.
  revert w. induction rs as [|r rs IH]; intros w Hw; cbn; [by rewrite app_nil_r|].
  destruct (replay_one_alive c r w Hw) as (Hw' & Hl & Hn & Hr). destruct Hw as (k & Hk & Hlive). rewrite Hk. cbn. rewrite Hlive.
  destruct (IH _ Hw') as [-> ->]. rewrite Hl, Hr, Hn, <- (assoc_L (++)), Nat.add_0_r. split; [|done]. cbn. do 2 f_equal.
  apply imap_ext. intros i x _. cbn. by rewrite Nat.add_succ_r.
Qed.

Lemma sort_by_older (l : list (Row V)) : StronglySorted (λ r r', (created_at r ≤ created_at r')%Z) (sort_by older l).
Proof.
  assert (StronglySorted (λ r r' : Row V, older r' r = false) (sort_by older l)) as Hs
    by (apply sort_by_sorted; unfold older; intros; lia).
  induction Hs as [|r rs Hs IH Hr]; constructor; [done|]. eapply Forall_impl; [exact Hr|]. unfold older. intros; lia.
Qed.

(** A reconnect delivers what was left: over a writer that lives, the replay
    sends the due rows of the channel and nothing else, the oldest fifty in the
    order of their age, each once, as the frame its payload describes under an
    id of its own; with at most fifty rows due, none is left for later. *)
Theorem replay_delivers c k now w :
  conns w !! c = Some k → live k = true →
  let sent := get_pending (c_channel k) 50 now (rows w) in
  log (step (AReplay c now true) w) = log w ++ imap (λ i r, carries c (next_a w + i) r) sent ∧
  rows (step (AReplay c now true) w) = rows w ∧
  ∃ later, sent ++ later ≡ₚ List.filter (due (c_channel k) now) (rows w) ∧
    StronglySorted (λ r r', (created_at r ≤ created_at r')%Z) (sent ++ later) ∧
    (later = [] ∨ length sent = 50).
Proof.
  intros Hk Hl sent. cbn [step]. unfold replay_outbound_queue. rewrite Hk.
  destruct (replay_rows_alive c sent w) as [Hlog Hrows]; [by exists k|]. fold sent. rewrite Hlog, Hrows.
  split; [done|]. split; [done|]. unfold sent, get_pending. set (l := sort_by older _).
  exists (drop 50 l). rewrite take_drop. split; [apply sort_by_perm|]. split.
  - apply sort_by_older.
  - rewrite length_take. destruct (decide (length l ≤ 50)); [left; apply drop_ge; lia|right; lia].
Qed.
End world.

(** ** Examples *)

Module OutboundWitness.
#[export] Instance jv_eq_dec : EqDecision Jv.t.
Proof.
  refine (fix go x y : Decision (x = y) := let _ : EqDecision Jv.t := @go in
    match x, y with
    | Jv.Null, Jv.Null => left eq_refl
    | Jv.Bool a, Jv.Bool b => cast_if (decide (a = b))
    | Jv.Str a, Jv.Str b => cast_if (decide (a = b))
    | Jv.Num a, Jv.Num b => cast_if (decide (a = b))
    | Jv.Arr a, Jv.Arr b => cast_if (decide (a = b))
    | Jv.Obj a, Jv.Obj b => cast_if (decide (a = b))
    | _, _ => right _
    end); congruence.
Defined.
Definition text (t : str) : Jv.t := jinsert (bs "text") (jstring t) jempty.
Definition act (n : nat) (t : str) : ChannelAction Jv.t := mkAction n (bs "send_message") (text t) jempty None.
Definition one : list (Action (V:=Jv.t)) := [AConnect 0 (bs "bot") (bs "telegram") (bs "u1"); ASend 0 (act 0 (bs "hi")); AForward 0 100 true].
Abbreviation w0 acts := (run acts (start (V:=Jv.t))).
Lemma nothing_lost_witness :
  ∃ r, r ∈ rows (w0 (one ++ [ATask 0 101 true; ADisconnect 0])) ∧ q_id r = 0.
Proof.
  destruct (nothing_lost (V:=Jv.t) (one ++ [ATask 0 101 true; ADisconnect 0]) 0) as [Ha|(r & Hr & Hq & _)].
  - vm_compute. apply list_elem_of_here.
  - exfalso. destruct Ha as (c & aid & Ha & _). vm_compute in Ha.
    repeat (apply elem_of_cons in Ha as [Ha|Ha]; [discriminate Ha|]). by apply not_elem_of_nil in Ha.
  - by exists r.
Defined.
(** The action was enqueued, the connection went before the frame was written,
    and another connection of the channel sends it. *)
Definition again : list (Action (V:=Jv.t)) := [AWriterDies 0; AForward 0 100 true; ADisconnect 0; AConnect 1 (bs "bot") (bs "telegram") (bs "u2")].
Definition begun : list (Action (V:=Jv.t)) := [AConnect 0 (bs "bot") (bs "telegram") (bs "u1"); ASend 0 (act 0 (bs "hi"))].
Lemma resend_witness :
  log (step (AReplay 1 200 true) (w0 (begun ++ again))) =
  log (w0 (begun ++ again)) ++ [Wire 1 1 (Some 0) (bs "send_message") (text (bs "hi")) jempty].
Proof.
  destruct (replay_delivers (V:=Jv.t) 1 (mkConn (bs "bot") (bs "telegram") (mkChan (bs "telegram:u2") [] true) ∅ ∅ true false) 200
    (w0 (begun ++ again))) as [Hl _]; [reflexivity|reflexivity|]. rewrite Hl. apply (f_equal (app _)). vm_compute. reflexivity.
Defined.
(** The status of the rows, and what the adapters of a connection were sent. *)
Definition statuses (acts : list (Action (V:=Jv.t))) : list (Status * Z) := (λ r, (q_status r, attempts r)) <$> rows (w0 acts).
Definition wires (c : nat) (acts : list (Action (V:=Jv.t))) : list nat :=
  omap (λ e, match e with Wire c' _ (Some q) _ _ _ => if bool_decide (c' = c) then Some q else None | _ => None end) (log (w0 acts)).
(** The task that marks the row as sent is not ordered with the answer. *)
Example acked_row_sent_again :
  let acts := one ++ [AResult 0 0 (Ok ()); ATask 1 101 true; ATask 0 102 true] in
  statuses acts = [(Sent, 1%Z)] ∧ wires 0 (acts ++ [AReplay 0 4000 true]) = [0; 0].
Proof. split; by vm_compute. Qed.
(** The answer stored for a user whose adapter is away equals one that was
    delivered in the last half minute: it is taken for a duplicate. *)
Example equal_reply_swallowed :
  let acts := [AConnect 0 (bs "bot") (bs "telegram") (bs "u1"); AStored (bs "bot") (bs "telegram") (bs "done") jempty 100 true;
               AReplay 0 101 true; AResult 0 0 (Ok ()); ATask 0 102 true; ADisconnect 0;
               AStored (bs "bot") (bs "telegram") (bs "done") jempty 110 true;
               AConnect 1 (bs "bot") (bs "telegram") (bs "u2"); AReplay 1 120 true] in
  statuses acts = [(Acked, 0%Z)] ∧ wires 1 acts = [].
Proof. split; by vm_compute. Qed.
(** The replay does not ask whose the row is. *)
Example replayed_by_another_agent :
  wires 1 (begun ++ [AWriterDies 0; AForward 0 100 true; ADisconnect 0; AConnect 1 (bs "other") (bs "telegram") (bs "u2"); AReplay 1 200 true]) = [0].
Proof. by vm_compute. Qed.
(** Nor does it count its attempts. *)
Example replayed_without_end :
  let acts := begun ++ again ++ replicate 5 (AReplay 1 200 true) in
  wires 1 acts = [0; 0; 0; 0; 0] ∧ statuses acts = [(Pending, 0%Z)].
Proof. split; by vm_compute. Qed.
(** What the buffer still holds when the reader ends is gone. *)
Example buffered_action_lost :
  let acts := begun ++ [AWriterDies 0; ADisconnect 0] in statuses acts = [] ∧ log (w0 acts) = [].
Proof. split; by vm_compute. Qed.
End OutboundWitness.
