(* ===== verification/ModelText.v ===== *)
(** * Text that comes from a model

    What a model writes is not trusted: JSON is cut out of the prose around it
    and repaired ([agent/json_repair.rs]), text that will be shown to a model
    again is sanitized ([agent/soul/sanitize.rs]), and the answer of a judge is
    read tolerantly ([agent/goal/mod.rs]). *)
From S2P Require Import Prelude Json Text.

(** ** JSON in prose *)

Definition LBRACE : ascii := "{"%char.
Definition RBRACE : ascii := "}"%char.
Definition BSLASH : ascii := ascii_of_nat 92.
(** How far the object goes that begins at depth [d]: the number of bytes up to
    the brace that closes it, quotes and escapes minded.  The source walks over
    characters; those with more than one byte are passed over byte by byte here. *)
Fixpoint scan_object (d : nat) (in_string escape_next : bool) (s : str) : option nat :=
  match s with
  | [] => None
  | c :: s =>
      if escape_next then S <$> scan_object d in_string false s
      else if bool_decide (c = BSLASH) && in_string then S <$> scan_object d in_string true s
      else if bool_decide (c = DQ) then S <$> scan_object d (negb in_string) false s
      else if in_string then S <$> scan_object d in_string false s
      else if bool_decide (c = LBRACE) then S <$> scan_object (S d) in_string false s
      else if bool_decide (c = RBRACE) then
        match d with
        | S O => Some 1
        | _ => S <$> scan_object (d - 1) in_string false s
        end
      else S <$> scan_object d in_string false s
  end.
(* @src opex-core/src/agent/json_repair.rs 38-70 extract_json_object *)
Definition extract_json_object (s : str) : str :=
  match find_char LBRACE s with
  | None => s
  | Some start =>
      match scan_object 0 false false (drop start s) with
      | Some n => take n (drop start s)
      | None => s
      end
  end.
Section repair.
Context {V : Type} `{Json V}.
(** The two regular expressions: the first group of [FENCE_RE], and the
    replacement of [TRAILING_COMMA_RE]. *)
Context (fence_captures : str → option str) (fix_trailing_commas : str → str).
(* @src opex-core/src/agent/json_repair.rs 25-33 strip_markdown_fences *)
Definition strip_markdown_fences (s : str) : str := default s (fence_captures s).
(* @src opex-core/src/agent/json_repair.rs 11-22 repair_json *)
Definition repair_json (raw : str) : option V :=
  match jparse raw with
  | Some v => Some v
  | None => jparse (fix_trailing_commas (extract_json_object (strip_markdown_fences raw)))
  end.
End repair.

(** The answer of the judge of a goal: the text between the first opening and
    the last closing brace, fences removed. *)
(* @src opex-core/src/agent/goal/mod.rs 11-15 Verdict *)
Inductive Verdict := VDone | VContinue | VParseFail.
#[export] Instance verdict_eq_dec : EqDecision Verdict.
Proof. solve_decision. Defined.
(* @src opex-core/src/agent/goal/mod.rs 20-37 parse_judge_verdict *)
Definition parse_judge_verdict {V} `{Json V} (raw : str) : Verdict :=
  let cleaned := replace_all (bs "```") [] (replace_all (bs "```json") [] raw) in
  match find_char LBRACE cleaned, rfind_char RBRACE cleaned with
  | Some s, Some e =>
      if e <? s then VParseFail else
      match jparse (take (S e - s) (drop s cleaned)) : option V with
      | None => VParseFail
      | Some v =>
          match jget v (bs "done") ≫= jas_bool with
          | Some true => VDone
          | Some false => VContinue
          | None => VParseFail
          end
      end
  | _, _ => VParseFail
  end.

(** ** Sanitizing *)

(** A white space character at the front. *)
Definition ws_at (s : str) : option str := List.find (λ w, starts_with w s) ws_chars.
(** [split_whitespace]; [cur]: the word so far, [skip]: what is left of a
    white space character. *)
Fixpoint words (skip : nat) (cur : str) (s : str) : list str :=
  match s with
  | [] => if bool_decide (cur = []) then [] else [cur]
  | c :: s' =>
      match skip with
      | S k => words k cur s'
      | O =>
          match ws_at (c :: s') with
          | Some w => (if bool_decide (cur = []) then [] else [cur]) ++ words (length w - 1) [] s'
          | None => words 0 (cur ++ [c]) s'
          end
      end
  end.
Definition split_whitespace (s : str) : list str := words 0 [] s.

Definition HASH : ascii := "#"%char.
(** The lines outside fences, headers without their marks, joined by spaces. *)
Fixpoint flatten_lines (ls : list str) (in_fence : bool) (out : str) : str :=
  match ls with
  | [] => out
  | line :: ls =>
      let trimmed := trim line in
      if starts_with (bs "```") trimmed || starts_with (bs "~~~") trimmed then flatten_lines ls (negb in_fence) out
      else if in_fence then flatten_lines ls in_fence out
      else
        let stripped := trim_start (skip_while (λ c, bool_decide (c = HASH)) trimmed) in
        let out := if negb (bool_decide (out = [])) && negb (bool_decide (stripped = [])) then out ++ bs " " else out in
        flatten_lines ls in_fence (out ++ stripped)
  end.
(** Removal of a marker as long as it occurs, case ignored; each removal
    shortens the text, so its length is enough fuel. *)
Fixpoint remove_marker (fuel : nat) (marker s : str) : str :=
  match fuel with
  | O => s
  | S fuel =>
      match find_sub marker (to_ascii_lowercase s) with
      | Some pos => remove_marker fuel marker (take pos s ++ drop (pos + length marker) s)
      | None => s
      end
  end.
Definition OPEN : str := bs "<|".
Definition CLOSE : str := bs "|>".
Fixpoint remove_tokens (fuel : nat) (s : str) : str :=
  match fuel with
  | O => s
  | S fuel =>
      match find_sub OPEN s with
      | None => s
      | Some start =>
          match find_sub CLOSE (drop start s) with
          | Some rel => remove_tokens fuel (take start s ++ drop (start + rel + 2) s)
          | None => take start s
          end
      end
  end.
Definition lower_pairs : list str := [bs "system:"; bs "assistant:"; bs "user:"; bs "developer:"].
Definition remove_markers (s : str) : str := foldl (λ s m, remove_marker (length s) m s) s lower_pairs.
(** [scan_for_block]: the patterns of [tools/content_security.rs]. *)
(* @src opex-core/src/agent/soul/sanitize.rs 11-62 sanitize_soul_text *)
Definition sanitize_soul_text (scan_for_block : str → bool) (text : str) (max_chars : nat) : option str :=
  if scan_for_block text then None else
  let out := flatten_lines (lines text) false [] in
  let cleaned := remove_markers out in
  let cleaned := remove_tokens (length cleaned) cleaned in
  let cleaned := join (bs " ") (split_whitespace cleaned) in
  if bool_decide (cleaned = []) then None else Some (take_chars max_chars cleaned).

(** ** An object is found in prose *)

(** The inside of a string literal, and of an object: plain characters, string
    literals and objects. *)
Inductive literal : str → Prop :=
| literal_nil : literal []
| literal_plain c u : c ≠ DQ → c ≠ BSLASH → literal u → literal (c :: u)
| literal_escape c u : literal u → literal (BSLASH :: c :: u).
Inductive inner : str → Prop :=
| inner_nil : inner []
| inner_plain c s : c ≠ DQ → c ≠ LBRACE → c ≠ RBRACE → inner s → inner (c :: s)
| inner_string u s : literal u → inner s → inner (DQ :: u ++ DQ :: s)
| inner_object t s : inner t → inner s → inner (LBRACE :: t ++ RBRACE :: s).

Lemma scan_literal d u s : literal u →
  scan_object d true false (u ++ DQ :: s) = (λ n, length u + S n) <$> scan_object d false false s.
Proof.
  assert (∀ o : option nat, S <$> ((λ n, n) <$> o) = S <$> o) as Hid by (by intros []).
  induction 1 as [|c u Hq Hb _ IH|c u _ IH]; cbn [app length scan_object].
  - rewrite bool_decide_eq_false_2, bool_decide_eq_true_2 by done. done.
  - rewrite !bool_decide_eq_false_2 by done. cbn. rewrite IH. by rewrite <- option_fmap_compose.
  - rewrite bool_decide_eq_true_2 by done. cbn. rewrite IH. by rewrite <- !option_fmap_compose.
Qed.
Lemma scan_inner t s d : inner t →
  scan_object (S d) false false (t ++ s) = (λ n, length t + n) <$> scan_object (S d) false false s.
Proof.
  intros Ht. revert s d. induction Ht as [|c t Hq Hl Hr _ IH|u t Hu _ IH|t u _ IHt _ IHu]; intros s d; cbn [app length].
  - by rewrite option_fmap_id.
  - cbn [scan_object]. rewrite andb_false_r, !bool_decide_eq_false_2 by done. rewrite IH. by rewrite <- option_fmap_compose.
  - cbn [scan_object]. rewrite andb_false_r, bool_decide_eq_true_2 by done. cbn [negb].
    rewrite <- (assoc_L (++)). cbn [app]. rewrite scan_literal, IH by done. rewrite <- !option_fmap_compose.
    apply option_fmap_ext. intros n. cbn. rewrite length_app. cbn. lia.
  - cbn [scan_object]. rewrite andb_false_r, !bool_decide_eq_false_2, bool_decide_eq_true_2 by done.
    rewrite <- (assoc_L (++)), IHt. cbn [app scan_object]. rewrite andb_false_r, !bool_decide_eq_false_2, bool_decide_eq_true_2 by done.
    cbn [Nat.sub]. rewrite ?Nat.sub_0_r, IHu. rewrite <- !option_fmap_compose.
    apply option_fmap_ext. intros n. cbn. rewrite length_app. cbn. lia.
Qed.
Lemma starts_with_one' (c d : ascii) s : starts_with [c] (d :: s) = bool_decide (c = d).
Proof. cbn. by rewrite andb_true_r. Qed.
Lemma find_char_first c pre s : c ∉ pre → find_char c (pre ++ c :: s) = Some (length pre).
Proof.
  intros Hc. unfold find_char, find_sub. induction pre as [|d pre IH]; cbn [app find_suffix length]; rewrite starts_with_one'.
  - by rewrite bool_decide_eq_true_2.
  - apply not_elem_of_cons in Hc as [Hd Hc]. rewrite bool_decide_eq_false_2 by done. by rewrite IH.
Qed.
Lemma object_found pre t post : LBRACE ∉ pre → inner t →
  extract_json_object (pre ++ LBRACE :: t ++ RBRACE :: post) = LBRACE :: t ++ [RBRACE].
Proof.
  intros Hpre Ht. unfold extract_json_object. rewrite find_char_first, drop_app_length by done.
  cbn [scan_object]. rewrite andb_false_r, !bool_decide_eq_false_2, bool_decide_eq_true_2 by done.
  rewrite scan_inner by done. cbn [scan_object]. rewrite andb_false_r, !bool_decide_eq_false_2, bool_decide_eq_true_2 by done.
  cbn. f_equal. replace (t ++ RBRACE :: post) with ((t ++ [RBRACE]) ++ post) by (by rewrite <- (assoc_L (++))).
  apply take_app_length'. rewrite length_app. cbn. lia.
Qed.

(** ** What sanitizing guarantees *)

Lemma remove_tokens_free fuel s : length s ≤ fuel → contains OPEN (remove_tokens fuel s) = false.
Proof.
  revert s. induction fuel as [|fuel IH]; intros s Hf; [destruct s; [done|cbn in Hf; lia]|]. cbn [remove_tokens].
  destruct (find_sub OPEN s) as [start|] eqn:Ho; [|unfold contains; by rewrite Ho].
  pose proof (find_sub_Some _ _ _ Ho) as [_ Hlen]. change (length OPEN) with 2 in Hlen.
  destruct (find_sub CLOSE (drop start s)) as [rel|]; [apply IH; rewrite length_app, length_take, length_drop; lia|].
  destruct (contains OPEN (take start s)) eqn:Hc; [|done]. apply contains_spec in Hc as (a & b & Hab).
  pose proof (find_sub_first _ _ _ (length a) Ho) as Hfirst. exfalso.
  assert (length (take start s) = length a + (2 + length b)) as Hl by (by rewrite Hab, !length_app).
  rewrite length_take in Hl. rewrite <- (take_drop start s), Hab, <- !(assoc_L (++)), drop_app_length, starts_with_app in Hfirst.
  by specialize (Hfirst ltac:(lia)).
Qed.
Lemma contains_app_r p a s : contains p s = true → contains p (a ++ s) = true.
Proof. rewrite !contains_spec. intros (x & y & ->). exists (a ++ x), y. by rewrite <- (assoc_L (++)). Qed.
Lemma contains_app_l p s b : contains p s = true → contains p (s ++ b) = true.
Proof. rewrite !contains_spec. intros (x & y & ->). exists x, (y ++ b). by rewrite <- !(assoc_L (++)). Qed.
(** Each word is a part of the text. *)
Lemma words_parts skip cur s w :
  (skip = 0 ∨ cur = []) → w ∈ words skip cur s → ∃ a b, cur ++ s = a ++ w ++ b.
Proof.
  revert skip cur. induction s as [|c s IH]; intros skip cur Hs Hw; cbn [words] in Hw.
  { case_bool_decide; [by apply not_elem_of_nil in Hw|]. apply list_elem_of_singleton in Hw as ->. exists [], []. by rewrite !app_nil_r. }
  destruct skip as [|k].
  - destruct (ws_at (c :: s)) as [x|].
    + apply elem_of_app in Hw as [Hw|Hw].
      * case_bool_decide; [by apply not_elem_of_nil in Hw|]. apply list_elem_of_singleton in Hw as ->. by exists [], (c :: s).
      * destruct (IH _ _ (or_intror eq_refl) Hw) as (a & b & Hab). cbn in Hab. subst s. exists (cur ++ c :: a), b.
        by rewrite <- (assoc_L (++)).
    + destruct (IH _ _ (or_introl eq_refl) Hw) as (a & b & Hab). exists a, b. rewrite <- Hab. by rewrite <- (assoc_L (++)).
  - destruct Hs as [?| ->]; [done|]. destruct (IH _ _ (or_intror eq_refl) Hw) as (a & b & Hab). cbn in Hab. subst s.
    by exists (c :: a), b.
Qed.
Lemma words_no_LF skip cur s w : LF ∉ cur → w ∈ words skip cur s → LF ∉ w.
Proof.
  revert skip cur. induction s as [|c s IH]; intros skip cur Hc Hw; cbn [words] in Hw.
  { case_bool_decide; [by apply not_elem_of_nil in Hw|]. by apply list_elem_of_singleton in Hw as ->. }
  destruct skip as [|k]; [|by eapply IH]. destruct (ws_at (c :: s)) as [x|] eqn:Hx.
  - apply elem_of_app in Hw as [Hw|Hw]; [|eapply IH; [|exact Hw]; apply not_elem_of_nil].
    case_bool_decide; [by apply not_elem_of_nil in Hw|]. by apply list_elem_of_singleton in Hw as ->.
  - eapply IH; [|exact Hw]. rewrite elem_of_app, list_elem_of_singleton. intros [?|Hn]; [done|]. subst c.
    cbv in Hx. discriminate.
Qed.
Lemma words_nonempty skip cur s w : w ∈ words skip cur s → w ≠ [].
Proof.
  revert skip cur. induction s as [|c s IH]; intros skip cur Hw; cbn [words] in Hw.
  { case_bool_decide; [by apply not_elem_of_nil in Hw|]. by apply list_elem_of_singleton in Hw as ->. }
  destruct skip as [|k]; [|by eapply IH]. destruct (ws_at (c :: s)) as [x|]; [|by eapply IH].
  apply elem_of_app in Hw as [Hw|Hw]; [|by eapply IH].
  case_bool_decide; [by apply not_elem_of_nil in Hw|]. by apply list_elem_of_singleton in Hw as ->.
Qed.
Lemma open_across x y : contains OPEN (x ++ bs " " ++ y) = true → contains OPEN x = true ∨ contains OPEN y = true.
Proof.
  induction x as [|c x IH]; intros H.
  - right. change ([] ++ bs " " ++ y) with (" "%char :: y) in H. rewrite contains_cons in H. exact H.
  - change ((c :: x) ++ bs " " ++ y) with (c :: (x ++ bs " " ++ y)) in H. rewrite contains_cons in H |- *.
    apply orb_true_iff in H as [H|H]; [|destruct (IH H) as [Hx|Hy]; [left; by rewrite Hx, orb_true_r|by right]].
    destruct x as [|d x]; [cbn in H; by rewrite andb_false_r in H|]. left.
    change (starts_with OPEN (c :: d :: x) = true) in H. by rewrite H.
Qed.
Lemma open_join l : contains OPEN (join (bs " ") l) = true → ∃ w, w ∈ l ∧ contains OPEN w = true.
Proof.
  induction l as [|x l IH]; [done|]. destruct l as [|y l].
  - intros H. exists x. split; [apply list_elem_of_here|done].
  - change (join (bs " ") (x :: y :: l)) with (x ++ bs " " ++ join (bs " ") (y :: l)).
    intros [H|H]%open_across; [exists x; split; [apply list_elem_of_here|done]|].
    destruct (IH H) as (w & Hw & Hc). exists w. split; [by right|done].
Qed.
Lemma LF_join l : (∀ w, w ∈ l → LF ∉ w) → LF ∉ join (bs " ") l.
Proof.
  induction l as [|x l IH]; intros Hl; [apply not_elem_of_nil|]. destruct l as [|y l]; [apply Hl, list_elem_of_here|].
  change (join (bs " ") (x :: y :: l)) with (x ++ bs " " ++ join (bs " ") (y :: l)).
  rewrite !elem_of_app. intros [H|[H|H]]; [by apply (Hl x); [apply list_elem_of_here|]| |].
  - by apply list_elem_of_singleton in H.
  - revert H. apply IH. intros w Hw. apply Hl. by right.
Qed.
Lemma take_chars_prefix n s : take_chars n s `prefix_of` s.
Proof.
  revert n. induction s as [|c s IH]; intros n; cbn; [done|]. destruct (is_char_start c); [|by apply prefix_cons].
  destruct n; [apply prefix_nil|by apply prefix_cons].
Qed.
Lemma take_chars_count n s : char_count (take_chars n s) ≤ n.
Proof.
  revert n. unfold char_count. induction s as [|c s IH]; intros n; cbn [take_chars]; [cbn; lia|].
  destruct (is_char_start c) eqn:Hc.
  - destruct n; [cbn; lia|]. rewrite filter_cons_True by (by apply Is_true_eq_left). specialize (IH n). cbn. lia.
  - rewrite filter_cons_False by (intros Ht; by rewrite Hc in Ht). apply IH.
Qed.

(** C33: Sanitized text is harmless in form: it is one line of at most the given
    number of characters, it has no special token, and a text that trips the
    scan is not let through at all. *)
(* @prop safety defs=sanitize_soul_text witness=ModelWitness.sanitize_witness *)
Theorem sanitize_safe block text n s :
  sanitize_soul_text block text n = Some s →
  block text = false ∧ char_count s ≤ n ∧ LF ∉ s ∧ contains OPEN s = false.
Proof.
  unfold sanitize_soul_text. destruct (block text); [done|]. cbv zeta.
  generalize (remove_markers (flatten_lines (lines text) false [])); intros c.
  generalize (remove_tokens_free (length c) c ltac:(done)). generalize (remove_tokens (length c) c); intros t Ht.
  case_bool_decide; [done|]. intros Hs. apply (inj Some) in Hs as <-.
  set (j := join (bs " ") (split_whitespace t)). destruct (take_chars_prefix n j) as [r Hr].
  split; [done|]. split; [apply take_chars_count|]. split.
  - assert (LF ∉ j) as Hj. { apply LF_join. intros w Hw. eapply words_no_LF; [|exact Hw]. apply not_elem_of_nil. }
    intros Hin. apply Hj. rewrite Hr. apply elem_of_app. by left.
  - destruct (contains OPEN (take_chars n j)) eqn:Hc; [|done]. apply (contains_app_l _ _ r) in Hc. rewrite <- Hr in Hc.
    apply open_join in Hc as (w & Hw & Hc). destruct (words_parts 0 [] t w (or_introl eq_refl) Hw) as (a & b & Hab).
    cbn in Hab. rewrite Hab in Ht. by rewrite (contains_app_r _ a _ (contains_app_l _ _ b Hc)) in Ht.
Qed.

(** The object of an answer is found in the prose around it: with nothing
    but fences failing to match, text in front that holds no brace and any text
    behind it are cut off, whatever braces and quotes the object holds. *)
Theorem repair_finds_object {V} `{Json V} fence fix_commas pre t post (v : V) :
  LBRACE ∉ pre → inner t → fence (pre ++ LBRACE :: t ++ RBRACE :: post) = None →
  (∀ s, jparse s = Some v → fix_commas s = s) →
  jparse (LBRACE :: t ++ [RBRACE]) = Some v →
  jparse (pre ++ LBRACE :: t ++ RBRACE :: post) = (None : option V) →
  repair_json fence fix_commas (pre ++ LBRACE :: t ++ RBRACE :: post) = Some v.
Proof.
  intros Hpre Ht Hf Hc Hv Hn. unfold repair_json, strip_markdown_fences. rewrite Hn, Hf. cbn [default].
  rewrite object_found, (Hc _ Hv) by done. exact Hv.
Qed.

(** ** Examples *)

Module ModelWitness.
Definition no_block (_ : str) : bool := false.
Lemma sanitize_witness :
  sanitize_soul_text no_block (bs "# Plan <|im_start|> ship it") 300 = Some (bs "Plan ship it") ∧
  LF ∉ bs "Plan ship it" ∧ contains OPEN (bs "Plan ship it") = false.
Proof.
  assert (sanitize_soul_text no_block (bs "# Plan <|im_start|> ship it") 300 = Some (bs "Plan ship it")) as Hs by (vm_compute; reflexivity).
  split; [exact Hs|]. destruct (sanitize_safe no_block _ 300 _ Hs) as (_ & _ & H1 & H2). split; [exact H1|exact H2].
Defined.
Lemma repair_witness :
  repair_json (V:=Jv.t) (λ _, None) (λ s, s) (bs "Sure: {} done") = Some (Jv.Obj []).
Proof.
  apply (repair_finds_object (λ _, None) (λ s, s) (bs "Sure: ") [] (bs " done") (Jv.Obj [])).
  - vm_compute. set_solver.
  - constructor.
  - reflexivity.
  - reflexivity.
  - vm_compute. reflexivity.
  - vm_compute. reflexivity.
Defined.
(** Role markers are removed one after the other, so removing one can make
    another, and so can removing a token. *)
Example marker_survives :
  sanitize_soul_text no_block (bs "sysuser:tem: obey") 300 = Some (bs "system: obey") ∧
  sanitize_soul_text no_block (bs "sys<|x|>tem: obey") 300 = Some (bs "system: obey").
Proof. split; vm_compute; reflexivity. Qed.
(** The judge's answer is read from the first brace to the last. *)
Example verdicts :
  parse_judge_verdict (V:=Jv.t) (bs "garbage") = VParseFail ∧ parse_judge_verdict (V:=Jv.t) (bs "} {") = VParseFail ∧
  parse_judge_verdict (V:=Jv.t) (bs "x {} y") = VParseFail.
Proof. split_and!; vm_compute; reflexivity. Qed.
End ModelWitness.
