(* ===== verification/Goals.v ===== *)
(** * Standing goals

    A goal keeps an agent at work in its session, turn after turn, until a
    judge says that it is reached: the table of [db/session_goals.rs], the
    driver of [agent/goal/driver.rs] with the decisions of
    [agent/goal/mod.rs] and [agent/goal/decompose.rs], the pool and the locks of
    [agent/goal/pool.rs], the commands of [agent/pipeline/commands.rs], and the
    goals that are taken up again after a restart ([main.rs]).

    [local] is what one driver does between two suspension points; [step] puts
    drivers, the turns of users and commands side by side. *)
From S2P Require Import Prelude Messages Json Text Sessions ModelText.

(** ** The table *)

(* @src opex-core/src/db/session_goals.rs 8-20 GoalRow *)
Record GoalRow := mkGoal {
  goal_text : str;
  g_status : str;
  turn_count : Z;
  max_turns : Z;
  subgoals : list str;
  last_verdict : option str;
  consecutive_judge_failures : Z;
  origin : str;
  current_chunk : Z;
  decompose_failed : bool;
  cron_job_id : option nat;
  day_plan_managed : bool;
  next_redrive_at : option Z;
}.
Abbreviation GoalTable := (gmap Uuid GoalRow).
(* @src opex-core/src/db/session_goals.rs 23-25 is_running *)
Definition is_running (r : GoalRow) : bool := bool_decide (g_status r = bs "active").
(* @src opex-core/src/db/session_goals.rs 26-28 budget_left *)
Definition budget_left (r : GoalRow) : bool := (turn_count r <? max_turns r)%Z.

(** The statements that change a row of their own; [Deliver] is the message to
    the owner of the goal, which changes none. *)
Inductive Stmt :=
| SetStatus (status : str)
| SetDecomposeFailed (v : bool)
| BumpTurn
| SetCurrentChunk (n : Z)
| SetSubgoals (l : list str)
| RecordVerdict (verdict : str) (judge_failed : bool)
| SetNextRedriveAt (t : Z)
| Deliver (text : str).
(* @src opex-core/src/db/session_goals.rs 146-153 set_status *)
Definition set_status (s : str) (r : GoalRow) : GoalRow :=
  mkGoal (goal_text r) s (turn_count r) (max_turns r) (subgoals r) (last_verdict r) (consecutive_judge_failures r)
    (origin r) (current_chunk r) (decompose_failed r) (cron_job_id r) (day_plan_managed r) (next_redrive_at r).
(* @src opex-core/src/db/session_goals.rs 155-159 set_decompose_failed *)
Definition set_decompose_failed (v : bool) (r : GoalRow) : GoalRow :=
  mkGoal (goal_text r) (g_status r) (turn_count r) (max_turns r) (subgoals r) (last_verdict r) (consecutive_judge_failures r)
    (origin r) (current_chunk r) v (cron_job_id r) (day_plan_managed r) (next_redrive_at r).
(* @src opex-core/src/db/session_goals.rs 168-174 bump_turn *)
Definition bump_turn (r : GoalRow) : GoalRow :=
  mkGoal (goal_text r) (g_status r) (turn_count r + 1) (max_turns r) (subgoals r) (last_verdict r) (consecutive_judge_failures r)
    (origin r) (current_chunk r) (decompose_failed r) (cron_job_id r) (day_plan_managed r) (next_redrive_at r).
(* @src opex-core/src/db/session_goals.rs 177-184 set_current_chunk *)
Definition set_current_chunk (n : Z) (r : GoalRow) : GoalRow :=
  mkGoal (goal_text r) (g_status r) (turn_count r) (max_turns r) (subgoals r) (last_verdict r) (consecutive_judge_failures r)
    (origin r) n (decompose_failed r) (cron_job_id r) (day_plan_managed r) (next_redrive_at r).
(* @src opex-core/src/db/session_goals.rs 186-193 set_subgoals *)
Definition set_subgoals (l : list str) (r : GoalRow) : GoalRow :=
  mkGoal (goal_text r) (g_status r) (turn_count r) (max_turns r) l (last_verdict r) (consecutive_judge_failures r)
    (origin r) (current_chunk r) (decompose_failed r) (cron_job_id r) (day_plan_managed r) (next_redrive_at r).
(* @src opex-core/src/db/session_goals.rs 196-208 record_verdict *)
Definition record_verdict (v : str) (judge_failed : bool) (r : GoalRow) : GoalRow :=
  mkGoal (goal_text r) (g_status r) (turn_count r) (max_turns r) (subgoals r) (Some v)
    (if judge_failed then consecutive_judge_failures r + 1 else 0)
    (origin r) (current_chunk r) (decompose_failed r) (cron_job_id r) (day_plan_managed r) (next_redrive_at r).
(* @src opex-core/src/db/session_goals.rs 363-373 set_next_redrive_at *)
Definition set_next_redrive_at (t : Z) (r : GoalRow) : GoalRow :=
  mkGoal (goal_text r) (g_status r) (turn_count r) (max_turns r) (subgoals r) (last_verdict r) (consecutive_judge_failures r)
    (origin r) (current_chunk r) (decompose_failed r) (cron_job_id r) (day_plan_managed r) (Some t).
Definition exec (s : Stmt) (r : GoalRow) : GoalRow :=
  match s with
  | SetStatus x => set_status x r
  | SetDecomposeFailed v => set_decompose_failed v r
  | BumpTurn => bump_turn r
  | SetCurrentChunk n => set_current_chunk n r
  | SetSubgoals l => set_subgoals l r
  | RecordVerdict v f => record_verdict v f r
  | SetNextRedriveAt t => set_next_redrive_at t r
  | Deliver _ => r
  end.
(** What [ON CONFLICT DO UPDATE] resets: a row that is there keeps its subgoals
    and its place among them. *)
Definition renew (text : str) (max : Z) (orig : str) (job : option nat) (r : GoalRow) : GoalRow :=
  mkGoal text (bs "active") 0 max (subgoals r) None 0 orig (current_chunk r) false job (day_plan_managed r) (next_redrive_at r).
Definition new_goal (text : str) (max : Z) (orig : str) (job : option nat) : GoalRow :=
  mkGoal text (bs "active") 0 max [] None 0 orig 0 false job false None.
(* @src opex-core/src/db/session_goals.rs 61-75 upsert *)
Definition upsert (sid : Uuid) (text : str) (max : Z) (db : GoalTable) : GoalTable :=
  <[sid := match db !! sid with
           | Some r => renew text max (origin r) (cron_job_id r) r
           | None => new_goal text max (bs "goal") None
           end]> db.
(* @src opex-core/src/db/session_goals.rs 80-114 upsert_cron_goal *)
Definition upsert_cron_goal (sid : Uuid) (job : nat) (text : str) (max : Z) (db : GoalTable) : GoalTable :=
  let supersede k r :=
    if bool_decide (cron_job_id r = Some job) && bool_decide (g_status r = bs "active") && negb (bool_decide (k = sid))
    then set_status (bs "cleared") r else r in
  let db := map_imap (λ k r, Some (supersede k r)) db in
  <[sid := match db !! sid with
           | Some r => renew text max (bs "cron") (Some job) r
           | None => new_goal text max (bs "cron") (Some job)
           end]> db.
(* @src opex-core/src/db/session_goals.rs 124-144 upsert_initiative_goal_tx *)
Definition upsert_initiative_goal_tx (sid : Uuid) (text : str) (max : Z) (db : GoalTable) : GoalTable :=
  <[sid := match db !! sid with
           | Some r => renew text max (bs "initiative") (cron_job_id r) r
           | None => new_goal text max (bs "initiative") None
           end]> db.
(* @src opex-core/src/db/session_goals.rs 162-166 set_day_plan_managed_tx *)
Definition set_day_plan_managed_tx (v : bool) (r : GoalRow) : GoalRow :=
  mkGoal (goal_text r) (g_status r) (turn_count r) (max_turns r) (subgoals r) (last_verdict r) (consecutive_judge_failures r)
    (origin r) (current_chunk r) (decompose_failed r) (cron_job_id r) v (next_redrive_at r).
(** [agent_of]: the agent of a session. *)
(* @src opex-core/src/db/session_goals.rs 216-228 try_cancel_goal *)
Definition try_cancel_goal (agent_of : Uuid → option str) (sid : Uuid) (agent : str) (db : GoalTable) : GoalTable * bool :=
  match db !! sid with
  | Some r =>
      if bool_decide (agent_of sid = Some agent) && is_running r
      then (<[sid := set_status (bs "cancelled") r]> db, true) else (db, false)
  | None => (db, false)
  end.
(* @src opex-core/src/db/session_goals.rs 230-236 clear *)
Definition clear (sid : Uuid) (db : GoalTable) : GoalTable := delete sid db.

(** ** Decisions *)

(* @src opex-core/src/agent/goal/mod.rs 90-94 DriverAction *)
Inductive DriverAction := DContinue | DDone | DPause (reason : str).
(* @src opex-core/src/agent/goal/mod.rs 100-113 next_action *)
Definition next_action (r : GoalRow) (v : Verdict) : DriverAction :=
  match v with
  | VDone => DDone
  | _ =>
      if negb (budget_left r) then DPause (bs "budget") else
      match v with
      | VParseFail => if (3 <=? consecutive_judge_failures r + 1)%Z then DPause (bs "judge") else DContinue
      | _ => DContinue
      end
  end.
(* @src opex-core/src/agent/goal/decompose.rs 49-49 ChunkVerdict *)
Record ChunkVerdict := mkVerdict { chunk_done : bool; replan : bool; parse_ok : bool }.
(* @src opex-core/src/agent/goal/decompose.rs 63-63 DecomposeAction *)
Inductive DecomposeAction := XContinue | XAdvance | XAdvanceAndReplan | XDone | XPause (reason : str).
Definition chunk_no (r : GoalRow) : nat := Z.to_nat (Z.max 0 (current_chunk r)).
(* @src opex-core/src/agent/goal/decompose.rs 66-84 advance_decision *)
Definition advance_decision (r : GoalRow) (v : ChunkVerdict) (chunks_len : nat) : DecomposeAction :=
  if chunk_done v && (chunks_len <=? chunk_no r + 1) then XDone
  else if negb (budget_left r) then XPause (bs "budget")
  else if chunk_done v && replan v then XAdvanceAndReplan
  else if chunk_done v then XAdvance
  else if negb (parse_ok v) && (3 <=? consecutive_judge_failures r + 1)%Z then XPause (bs "judge")
  else XContinue.

(** *** Commands *)

(* @src opex-core/src/agent/goal/mod.rs 52-58 GoalCmd *)
Inductive GoalCmd := GSet (text : str) | GStatus | GPause | GResume | GClear.
(** [to_lowercase]: only ASCII letters have the lower-case letters of these words. *)
(* @src opex-core/src/agent/goal/mod.rs 60-69 parse_goal_command *)
Definition parse_goal_command (arg : str) : GoalCmd :=
  let a := trim arg in
  let l := to_ascii_lowercase a in
  if bool_decide (l = []) || bool_decide (l = bs "status") then GStatus
  else if bool_decide (l = bs "pause") then GPause
  else if bool_decide (l = bs "resume") then GResume
  else if bool_decide (l = bs "clear") then GClear
  else GSet a.
(* @src opex-core/src/agent/goal/mod.rs 71-75 SubgoalCmd *)
Inductive SubgoalCmd := SAdd (text : str) | SList | SRemove (n : Z).
(* @src opex-core/src/agent/goal/mod.rs 77-88 parse_subgoal_command *)
Definition parse_subgoal_command (arg : str) : SubgoalCmd :=
  let a := trim arg in
  if eq_ignore_case a (bs "list") then SList else
  match strip_prefix (bs "remove ") a, strip_prefix (bs "remove" ++ [ascii_of_nat 9]) a with
  | Some rest, _ | None, Some rest =>
      match parse_dec 64 (trim rest) with Some n => SRemove n | None => SAdd a end
  | None, None => SAdd a
  end.
(** What [/subgoal] does to the list, and whether it stores it. *)
(* @src opex-core/src/agent/pipeline/commands.rs 685-717 handle_command (/subgoal) *)
Definition subgoal_command (c : SubgoalCmd) (l : list str) : option (list str) :=
  match c with
  | SAdd t => Some (l ++ [t])
  | SList => None
  | SRemove n => if (1 <=? n)%Z && (n <=? Z.of_nat (length l))%Z then Some (delete (Z.to_nat (n - 1)) l) else None
  end.

(** *** Prompts *)

Fixpoint numbered (i : nat) (l : list str) : list str :=
  match l with [] => [] | s :: l => (dec i ++ bs ". " ++ s) :: numbered (S i) l end.
(* @src opex-core/src/agent/goal/mod.rs 40-50 continuation_prompt *)
Definition continuation_prompt (goal : str) (subgoals : list str) : str :=
  bs "[autonomous continuation] Keep working toward this goal:" ++ [LF] ++ goal ++ [LF] ++
  (if bool_decide (subgoals = []) then []
   else [LF] ++ bs "Ranked criteria:" ++ [LF] ++ concat ((λ s, s ++ [LF]) <$> numbered 1 subgoals)) ++
  [LF] ++ bs "When the goal is fully achieved, state that explicitly. Otherwise take the next concrete step.".
(* @src opex-core/src/agent/goal/decompose.rs 16-27 chunk_continuation_prompt *)
Definition chunk_continuation_prompt (goal : str) (chunks : list str) (current : nat) : str :=
  let done := numbered 1 (take current chunks) in
  let done_block := if bool_decide (done = []) then [] else [LF] ++ bs "Сделано ранее:" ++ [LF] ++ join [LF] done in
  bs "Цель: " ++ goal ++ bs "." ++ [LF] ++ bs "Текущий шаг " ++ dec (current + 1) ++ bs "/" ++ dec (length chunks) ++ bs ": " ++
  default [] (chunks !! current) ++ bs "." ++ done_block ++ [LF] ++
  bs "Работай над ТЕКУЩИМ шагом; когда шаг выполнен — заяви явно.".

(** ** The driver *)

Inductive Ruling := RFlat (v : Verdict) | RChunk (v : ChunkVerdict).
(** After a list of statements. *)
Inductive Kont := KTop | KExit | KJudge (row : GoalRow) (text : str) | KReplan (fresh : GoalRow) (current : nat) (text : str).
(** Where a driver stands: at the head of its loop, before the row is read,
    while the plan is made, before its failure is stored, before it has the lock,
    in a turn, before the judge's answer, before the row is read again, while
    the plan is made anew, before a statement, at the end. *)
Inductive Pc :=
| Top
| Load
| Plan (row : GoalRow)
| Flat
| Want (row : GoalRow)
| Turn (row : GoalRow)
| Judge (row : GoalRow) (text : str)
| Fresh (row : GoalRow) (text : str) (r : Ruling)
| Replan (fresh : GoalRow) (current : nat) (text : str)
| Do (stmts : list Stmt) (k : Kont)
| Exit
| Gone.
(** What a step gets from outside: whether the database does its part, and what
    the model, the turn or the judge answers ([None]: an error). *)
Record Input := mkInput { i_ok : bool; i_text : option str }.
Inductive DEvent :=
| Began (prompt : str)
| Ended
| Ruled (r : Ruling)
| Executed (s : Stmt)
| Removed.

Section driver.
Context {V : Type} `{Json V, JsonArrays V}.
Context (fence_captures : str → option str) (fix_trailing_commas : str → str) (scan_for_block : str → bool).
(** [initiative.decompose || initiative.daily_plan] of the agent. *)
Context (decompose_on : bool).

Definition MAX_CHUNKS : nat := 8.
Definition CHUNK_MAX_CHARS : nat := 300.
(* @src opex-core/src/agent/goal/driver.rs 263-270 clean_chunks *)
Definition clean_chunks (raw : list str) : list str :=
  take MAX_CHUNKS (List.filter (λ c, negb (bool_decide (c = [])))
    (trim <$> omap (λ c, sanitize_soul_text scan_for_block c CHUNK_MAX_CHARS) raw)).
(* @src opex-core/src/agent/goal/driver.rs 274-286 llm_json_list *)
Definition llm_json_list (raw : option str) (key : str) : list str :=
  match raw ≫= repair_json (V:=V) fence_captures fix_trailing_commas with
  | Some v => match jget v key ≫= jas_array with Some a => omap jas_str a | None => [] end
  | None => []
  end.
(* @src opex-core/src/agent/goal/decompose.rs 51-60 parse_chunk_verdict *)
Definition parse_chunk_verdict (raw : str) : ChunkVerdict :=
  match repair_json (V:=V) fence_captures fix_trailing_commas raw with
  | Some v => mkVerdict (default false (jget v (bs "chunk_done") ≫= jas_bool)) (default false (jget v (bs "replan") ≫= jas_bool)) true
  | None => mkVerdict false false false
  end.
(* @src opex-core/src/agent/goal/driver.rs 290-298 chunk_judge *)
Definition chunk_judge (answer : option str) : ChunkVerdict :=
  match answer with Some raw => parse_chunk_verdict raw | None => mkVerdict false false false end.
(* @src opex-core/src/agent/goal/driver.rs 302-334 judge *)
Definition judge (answer : option str) : Verdict :=
  match answer with Some raw => parse_judge_verdict (V:=V) raw | None => VContinue end.

Definition is_decompose (r : GoalRow) : bool :=
  bool_decide (origin r = bs "initiative") && decompose_on && negb (decompose_failed r).
(** The prompt of a turn. *)
Definition turn_prompt (r : GoalRow) : str :=
  if is_decompose r then chunk_continuation_prompt (goal_text r) (subgoals r) (chunk_no r)
  else continuation_prompt (goal_text r)
         (if bool_decide (origin r = bs "initiative") && (0 <? current_chunk r)%Z then drop (chunk_no r) (subgoals r) else subgoals r).
Definition COMPLETE : str := bs "✅ Goal complete.".
Definition PAUSED_JUDGE : str := bs "⏸ Goal paused (judge unreliable). /goal resume to retry.".
Definition PAUSED_BUDGET : str := bs "⏸ Goal paused (turn budget). /goal resume to continue.".
Definition hit_budget (r : GoalRow) : str :=
  bs "⏸ Goal hit the turn budget (" ++ decZ (max_turns r) ++ bs "). /goal resume to continue.".
Definition finish : list Stmt := [SetStatus (bs "done"); Deliver COMPLETE].
Definition pause (reason : str) : list Stmt :=
  [SetStatus (bs "paused"); Deliver (if bool_decide (reason = bs "judge") then PAUSED_JUDGE else PAUSED_BUDGET)].
(** What follows from the row read after the judge has spoken; [current]: the
    chunk of the turn. *)
(* @src opex-core/src/agent/goal/driver.rs 147-191 advance_one_chunk (decompose verdict) *)
Definition rule_chunk (fresh : GoalRow) (current : nat) (text : str) (v : ChunkVerdict) : list Stmt * Kont :=
  let record := RecordVerdict (if chunk_done v then bs "chunk_done" else bs "continue") (negb (parse_ok v)) in
  match advance_decision fresh v (length (subgoals fresh)) with
  | XContinue => ([record], KTop)
  | XAdvance => ([record; SetCurrentChunk (current_chunk fresh + 1)], KTop)
  | XAdvanceAndReplan => ([record], KReplan fresh current text)
  | XDone => (record :: finish, KExit)
  | XPause reason => (record :: pause reason, KExit)
  end.
(* @src opex-core/src/agent/goal/driver.rs 231-258 advance_one_chunk (flat verdict) *)
Definition rule_flat (fresh : GoalRow) (v : Verdict) : list Stmt * Kont :=
  let record := RecordVerdict (if decide (v = VDone) then bs "done" else bs "continue") (bool_decide (v = VParseFail)) in
  match next_action fresh v with
  | DDone => (record :: finish, KExit)
  | DPause reason => (record :: pause reason, KExit)
  | DContinue => ([record], KTop)
  end.
Definition after (k : Kont) : Pc :=
  match k with KTop => Top | KExit => Exit | KJudge row text => Judge row text | KReplan f c t => Replan f c t end.
Definition do_ (p : list Stmt * Kont) : Pc := Do p.1 p.2.

(** One step of the loop: the row as it is, where the driver stands, whether the
    lock is free and whether the driver was told to stop. *)
(* @src opex-core/src/agent/goal/driver.rs 50-259 run_goal_driver, advance_one_chunk *)
Definition local (i : Input) (granted cancelled : bool) (g : option GoalRow) (pc : Pc) : option GoalRow * Pc * list DEvent :=
  match pc with
  | Top => (g, if cancelled then Exit else Load, [])
  | Load =>
      match (if i_ok i then g else None) with
      | None => (g, Exit, [])
      | Some row =>
          if negb (is_running row) then (g, Exit, [])
          else if negb (budget_left row) then (g, Do [SetStatus (bs "paused"); Deliver (hit_budget row)] KExit, [])
          else if is_decompose row && bool_decide (subgoals row = []) then (g, Plan row, [])
          else (g, Want row, [])
      end
  | Plan row =>
      let chunks := clean_chunks (llm_json_list (i_text i) (bs "chunks")) in
      (g, if bool_decide (chunks = []) then Flat else Do [SetSubgoals chunks; SetCurrentChunk 0] KTop, [])
  | Flat => if i_ok i then (set_decompose_failed true <$> g, Top, [Executed (SetDecomposeFailed true)]) else (g, Do [BumpTurn] KTop, [])
  | Want row =>
      if negb granted then (g, Want row, [])
      else if cancelled then (g, Exit, [])
      else (g, Turn row, [Began (turn_prompt row)])
  | Turn row =>
      let text := default [] (i_text i) in
      if cancelled then (g, Exit, [Ended])
      else (g, Do (BumpTurn :: if bool_decide (trim text = []) then [] else [Deliver text]) (KJudge row text), [Ended])
  | Judge row text =>
      let r := if is_decompose row then RChunk (chunk_judge (i_text i)) else RFlat (judge (i_text i)) in
      (g, Fresh row text r, [Ruled r])
  | Fresh row text r =>
      let fresh := default row (if i_ok i then g else None) in
      (g, do_ (match r with RFlat v => rule_flat fresh v | RChunk v => rule_chunk fresh (chunk_no row) text v end), [])
  | Replan fresh current text =>
      let done := take (current + 1) (subgoals fresh) in
      let new_remaining := clean_chunks (llm_json_list (i_text i) (bs "remaining")) in
      (g, Do ((if bool_decide (new_remaining = []) then [] else [SetSubgoals (done ++ new_remaining)]) ++
              [SetCurrentChunk (current_chunk fresh + 1)]) KTop, [])
  | Do [] k => (g, after k, [])
  | Do (s :: l) k => (if i_ok i then exec s <$> g else g, Do l k, [Executed s])
  | Exit => (g, Gone, [Removed])
  | Gone => (g, Gone, [])
  end.

(** *** A driver that is left alone *)

(** What the driver was told of its turns so far: the row it began with and the
    judge's ruling.  [ora]: the answers, which may depend on all that. *)
Definition Trace : Type := list (GoalRow * Ruling).
Definition solo_step (ora : Trace → Pc → option str) (s : option GoalRow * Pc * Trace) : option GoalRow * Pc * Trace :=
  let '(g, pc, tr) := s in
  let '(g, pc', ev) := local (mkInput true (ora tr pc)) true false g pc in
  (g, pc', tr ++ match pc with
                 | Judge row _ => omap (λ e, match e with Ruled r => Some (row, r) | _ => None end) ev
                 | _ => []
                 end).
Definition solo (ora : Trace → Pc → option str) : option GoalRow * Pc * Trace → option GoalRow * Pc * Trace → Prop :=
  rtc (λ x y, y = solo_step ora x).

Lemma solo_trans ora x y z : solo ora x y → solo ora y z → solo ora x z.
Proof. unfold solo. intros. by etrans. Qed.
Lemma solo_one ora x : solo ora x (solo_step ora x).
Proof. by apply rtc_once. Qed.
Lemma solo_do ora l k g tr : solo ora (g, Do l k, tr) (foldl (λ g s, exec s <$> g) g l, after k, tr).
Proof.
  revert g. induction l as [|s l IH]; intros g.
  - apply rtc_once. cbn. by rewrite app_nil_r.
  - eapply rtc_l; [reflexivity|]. cbn. rewrite app_nil_r. apply IH.
Qed.
Lemma solo_exit ora g tr : solo ora (g, Exit, tr) (g, Gone, tr).
Proof. apply rtc_once. cbn. by rewrite app_nil_r. Qed.
(** The beginning of a round. *)
Lemma solo_load ora row tr : is_running row = true → budget_left row = true →
  is_decompose row && bool_decide (subgoals row = []) = false →
  solo ora (Some row, Top, tr) (Some row, Turn row, tr).
Proof.
  intros Hr Hb Hd. eapply rtc_l; [reflexivity|]. cbn. rewrite app_nil_r. eapply rtc_l; [reflexivity|]. cbn.
  rewrite Hr, Hb, Hd, app_nil_r. cbn. apply rtc_once. cbn. by rewrite app_nil_r.
Qed.
(** A turn up to the judge's ruling: it costs one turn of the budget. *)
Definition ruling (ora : Trace → Pc → option str) (tr : Trace) (row : GoalRow) : Ruling :=
  let text := default [] (ora tr (Turn row)) in
  if is_decompose row then RChunk (chunk_judge (ora tr (Judge row text))) else RFlat (judge (ora tr (Judge row text))).
Lemma solo_turn ora row tr :
  let text := default [] (ora tr (Turn row)) in let r := ruling ora tr row in
  solo ora (Some row, Turn row, tr)
    (Some (bump_turn row),
     do_ (match r with RFlat v => rule_flat (bump_turn row) v | RChunk v => rule_chunk (bump_turn row) (chunk_no row) text v end),
     tr ++ [(row, r)]).
Proof.
  intros text r. eapply rtc_l; [reflexivity|]. cbn [solo_step local]. cbv zeta. cbn [i_text]. fold text. rewrite app_nil_r.
  eapply solo_trans; [apply solo_do|]. replace (foldl _ _ _) with (Some (bump_turn row)) by (by case_bool_decide).
  cbn [after]. eapply rtc_l; [reflexivity|]. cbn. eapply rtc_l; [reflexivity|]. cbn. unfold r, ruling. fold text.
  rewrite app_nil_r. destruct (is_decompose row); apply rtc_refl.
Qed.

(** *** A goal without a plan *)

(** How many unreadable verdicts there are at the end, [c] before the first. *)
Definition streak (c : Z) (vs : list Verdict) : Z := foldl (λ n v, if decide (v = VParseFail) then n + 1 else 0)%Z c vs.
(** After these verdicts the goal ends: it is reached, its turns are used up, or
    three verdicts in a row could not be read. *)
Definition over (row : GoalRow) (vs : list Verdict) : Prop :=
  last vs = Some VDone ∨ (max_turns row ≤ turn_count row + Z.of_nat (length vs))%Z ∨ (3 ≤ streak (consecutive_judge_failures row) vs)%Z.

Definition judged (v : Verdict) (row : GoalRow) : GoalRow :=
  record_verdict (if decide (v = VDone) then bs "done" else bs "continue") (bool_decide (v = VParseFail)) (bump_turn row).
Lemma flat_round ora row tr : is_running row = true → budget_left row = true → is_decompose row = false →
  ∃ v, let tr' := tr ++ [(row, RFlat v)] in
  match next_action (bump_turn row) v with
  | DContinue => solo ora (Some row, Top, tr) (Some (judged v row), Top, tr')
  | DDone => solo ora (Some row, Top, tr) (Some (set_status (bs "done") (judged v row)), Gone, tr')
  | DPause _ => solo ora (Some row, Top, tr) (Some (set_status (bs "paused") (judged v row)), Gone, tr')
  end.
Proof.
  intros Hr Hb Hd. exists (judge (ora tr (Judge row (default [] (ora tr (Turn row)))))). intros tr'.
  assert (solo ora (Some row, Top, tr) (Some row, Turn row, tr)) as H1 by (apply solo_load; [done|done|by rewrite Hd]).
  pose proof (solo_turn ora row tr) as H2. cbv zeta in H2. unfold ruling in H2. rewrite Hd in H2. pose proof (solo_trans _ _ _ _ H1 H2) as H12.
  clear H1 H2. fold tr' in H12. set (v := judge _) in *. unfold rule_flat in H12.
  destruct (next_action (bump_turn row) v); (eapply solo_trans; [exact H12|]); clear H12; unfold do_; cbn [fst snd];
    (eapply solo_trans; [apply solo_do|]); cbn [foldl fmap option_fmap option_map exec after]; try apply rtc_refl; apply solo_exit.
Qed.
Lemma next_over row v :
  match next_action (bump_turn row) v with
  | DContinue => ¬ over row [v] ∧ budget_left (judged v row) = true
  | DDone => v = VDone
  | DPause _ => v ≠ VDone ∧ over row [v]
  end.
Proof.
  unfold next_action, over, streak, budget_left, judged; cbn [last foldl turn_count max_turns bump_turn record_verdict consecutive_judge_failures length].
  destruct v; cbn; [done| |]; destruct (Z.ltb_spec (turn_count row + 1) (max_turns row)); cbn;
    try (split; [done|]; right; left; lia).
  - split; [|done]. intros [?|[?|?]]; [done|lia|]. case_decide; [done|lia].
  - destruct (Z.leb_spec 3 (consecutive_judge_failures row + 1)).
    + split; [done|]. right. right. rewrite decide_True by done. lia.
    + split; [|done]. intros [?|[?|?]]; [done|lia|]. case_decide; [lia|done].
Qed.
Lemma last_cons_ne {A} (x : A) l : l ≠ [] → last (x :: l) = last l.
Proof. by destruct l. Qed.
Lemma over_cons row v l : l ≠ [] → over (judged v row) l ↔ over row (v :: l).
Proof.
  intros Hl. unfold over. rewrite last_cons_ne by done. unfold judged, streak; cbn [turn_count max_turns bump_turn record_verdict consecutive_judge_failures length foldl].
  replace (if bool_decide (v = VParseFail) then (consecutive_judge_failures row + 1)%Z else 0%Z)
    with (if decide (v = VParseFail) then (consecutive_judge_failures row + 1)%Z else 0%Z) by (by destruct v).
  rewrite Nat2Z.inj_succ. split; (intros [?|[?|?]]; [by left|right; left; lia|by right; right]).
Qed.
(** The verdicts that end a goal, none before. *)
Definition ends_with_verdicts (row : GoalRow) (vs : list Verdict) : Prop :=
  over row vs ∧ ∀ l, l `prefix_of` vs → l ≠ [] → l ≠ vs → ¬ over row l.

(** A goal without a plan ends, and at the right turn: left alone, its driver
    stops after the first verdict that says done, that leaves no turn in the
    budget or that is the third unreadable one in a row, and after no other;
    the goal is then done if that verdict said so, and paused otherwise, also
    on the last turn of the budget. *)
Theorem flat_goal_runs ora row :
  is_running row = true → budget_left row = true → is_decompose row = false →
  ∃ row' tr vs, solo ora (Some row, Top, []) (Some row', Gone, tr) ∧ tr.*2 = RFlat <$> vs ∧
    vs ≠ [] ∧ ends_with_verdicts row vs ∧ turn_count row' = (turn_count row + Z.of_nat (length vs))%Z ∧
    g_status row' = if decide (last vs = Some VDone) then bs "done" else bs "paused".
Proof.
  intros Hr Hb Hd. cut (∀ tr0, ∃ row' tr vs, solo ora (Some row, Top, tr0) (Some row', Gone, tr0 ++ tr) ∧ tr.*2 = RFlat <$> vs ∧
    vs ≠ [] ∧ ends_with_verdicts row vs ∧ turn_count row' = (turn_count row + Z.of_nat (length vs))%Z ∧
    g_status row' = if decide (last vs = Some VDone) then bs "done" else bs "paused"); [by intros Hc; apply (Hc [])|].
  remember (Z.to_nat (max_turns row - turn_count row)) as n eqn:Hn. revert row Hr Hb Hd Hn.
  induction n as [n IH] using (well_founded_induction lt_wf). intros row Hr Hb Hd Hn tr0.
  destruct (flat_round ora row tr0 Hr Hb Hd) as [v Hv]. pose proof (next_over row v) as Ho. cbv zeta in Hv.
  assert (∀ vs, over row [v] → vs = [v] → ends_with_verdicts row vs) as H1.
  { intros vs Hov ->. split; [done|]. intros [|x l] Hp Hne Hnev; [done|]. apply prefix_cons_inv_1 in Hp as Hx. subst x.
    apply prefix_cons_inv_2, prefix_nil_inv in Hp. by subst l. }
  destruct (next_action (bump_turn row) v) as [| |reason].
  - destruct Ho as [Hno Hb']. unfold budget_left in Hb, Hb'. cbn in Hb'.
    destruct (IH (Z.to_nat (max_turns row - (turn_count row + 1))) ltac:(lia) (judged v row) Hr Hb' Hd eq_refl (tr0 ++ [(row, RFlat v)]))
      as (row' & tr & vs & Hs & Htr & Hne & [He He'] & Ht & Hst).
    exists row', ((row, RFlat v) :: tr), (v :: vs). split; [|split; [|split; [done|split; [|split]]]].
    + eapply solo_trans; [exact Hv|]. by rewrite <- (assoc_L (++)) in Hs.
    + cbn. by rewrite Htr.
    + split; [by apply over_cons|]. intros [|x l] Hp Hln Hlv; [done|]. apply prefix_cons_inv_1 in Hp as Hx. subst x.
      apply prefix_cons_inv_2 in Hp. destruct (decide (l = [])) as [->|Hl]; [done|].
      rewrite <- over_cons by done. apply He'; [done|done|congruence].
    + rewrite Ht. cbn [turn_count judged record_verdict bump_turn length]. lia.
    + by rewrite last_cons_ne.
  - subst v. eexists _, [(row, RFlat VDone)], [VDone]. split; [exact Hv|]. split; [done|]. split; [done|].
    split; [apply H1; [by left|done]|]. split; [cbn; lia|done].
  - destruct Ho as [Hvd Hov]. eexists _, [(row, RFlat v)], [v]. split; [exact Hv|]. split; [done|]. split; [done|].
    split; [by apply H1|]. split; [cbn; lia|]. cbn [last]. rewrite decide_False by congruence. done.
Qed.

(** *** A goal with a plan *)

Definition chunk_judged (v : ChunkVerdict) (row : GoalRow) : GoalRow :=
  record_verdict (if chunk_done v then bs "chunk_done" else bs "continue") (negb (parse_ok v)) (bump_turn row).
Definition moved (l : list str) (row : GoalRow) : GoalRow :=
  set_current_chunk (current_chunk row + 1) (if bool_decide (l = []) then row else set_subgoals (take (chunk_no row + 1) (subgoals row) ++ l) row).
Lemma chunk_round ora row tr : is_running row = true → budget_left row = true → is_decompose row = true → subgoals row ≠ [] →
  ∃ v, let tr' := tr ++ [(row, RChunk v)] in
  match advance_decision (bump_turn row) v (length (subgoals row)) with
  | XContinue => solo ora (Some row, Top, tr) (Some (chunk_judged v row), Top, tr')
  | XAdvance => solo ora (Some row, Top, tr) (Some (moved [] (chunk_judged v row)), Top, tr')
  | XAdvanceAndReplan => ∃ l, solo ora (Some row, Top, tr) (Some (moved l (chunk_judged v row)), Top, tr')
  | XDone => solo ora (Some row, Top, tr) (Some (set_status (bs "done") (chunk_judged v row)), Gone, tr')
  | XPause _ => solo ora (Some row, Top, tr) (Some (set_status (bs "paused") (chunk_judged v row)), Gone, tr')
  end.
Proof.
  intros Hr Hb Hd Hs. exists (chunk_judge (ora tr (Judge row (default [] (ora tr (Turn row)))))). intros tr'.
  assert (solo ora (Some row, Top, tr) (Some row, Turn row, tr)) as H1.
  { apply solo_load; [done|done|]. by rewrite Hd, bool_decide_eq_false_2. }
  pose proof (solo_turn ora row tr) as H2. cbv zeta in H2. unfold ruling in H2. rewrite Hd in H2.
  pose proof (solo_trans _ _ _ _ H1 H2) as H12. clear H1 H2. fold tr' in H12. set (v := chunk_judge _) in *.
  set (text := default [] _) in *. clearbody v text. unfold rule_chunk in H12. cbn [bump_turn subgoals] in H12 |- *.
  fold (bump_turn row) in *.
  destruct (advance_decision (bump_turn row) v (length (subgoals row))).
  3: { exists (clean_chunks (llm_json_list (ora tr' (Replan (bump_turn row) (chunk_no row) text)) (bs "remaining"))).
       eapply solo_trans; [exact H12|]. unfold do_; cbn [fst snd]. eapply solo_trans; [apply solo_do|].
       cbn [foldl fmap option_fmap option_map exec after]. eapply rtc_l; [reflexivity|]. cbn [solo_step local]. cbv zeta. cbn [i_text i_ok].
       rewrite app_nil_r. eapply solo_trans; [apply solo_do|]. cbn [after]. rewrite foldl_app.
       cbn [foldl fmap option_fmap option_map exec].
       set (l := clean_chunks _).
       replace (foldl _ _ (if bool_decide (l = []) then [] else _)) with
         (Some (if bool_decide (l = []) then chunk_judged v row else set_subgoals (take (chunk_no row + 1) (subgoals row) ++ l) (chunk_judged v row)))
         by (by case_bool_decide).
       cbn [fmap option_fmap option_map]. unfold moved. by case_bool_decide. }
  all: (eapply solo_trans; [exact H12|]); clear H12; unfold do_; cbn [fst snd];
    (eapply solo_trans; [apply solo_do|]); cbn [foldl fmap option_fmap option_map exec after]; try apply rtc_refl; apply solo_exit.
Qed.
Lemma plan_round ora row tr : is_running row = true → budget_left row = true → is_decompose row = true → subgoals row = [] →
  (∃ l, l ≠ [] ∧ solo ora (Some row, Top, tr) (Some (set_current_chunk 0 (set_subgoals l row)), Top, tr)) ∨
  solo ora (Some row, Top, tr) (Some (set_decompose_failed true row), Top, tr).
Proof.
  intros Hr Hb Hd Hs. set (l := clean_chunks (llm_json_list (ora tr (Plan row)) (bs "chunks"))).
  assert (solo ora (Some row, Top, tr) (Some row, if bool_decide (l = []) then Flat else Do [SetSubgoals l; SetCurrentChunk 0] KTop, tr)) as H1.
  { eapply rtc_l; [reflexivity|]. cbn. rewrite app_nil_r. eapply rtc_l; [reflexivity|]. cbn.
    rewrite Hr, Hb, Hd, app_nil_r, bool_decide_eq_true_2 by done. cbn. apply rtc_once. cbn. by rewrite app_nil_r. }
  case_bool_decide as Hl.
  - right. eapply solo_trans; [exact H1|]. apply rtc_once. cbn. by rewrite app_nil_r.
  - left. exists l. split; [done|]. eapply solo_trans; [exact H1|]. eapply solo_trans; [apply solo_do|]. apply rtc_refl.
Qed.
(** A round that is none: the goal is gone, not active or out of turns. *)
Lemma no_round ora g tr :
  match g with Some row => negb (is_running row && budget_left row) | None => true end = true →
  ∃ g', solo ora (g, Top, tr) (g', Gone, tr) ∧ (∀ row, g = Some row → is_running row = true → g' = Some (set_status (bs "paused") row)) ∧
    (∀ row, g = Some row → is_running row = false → g' = g).
Proof.
  intros Hg.
  assert (solo ora (g, Top, tr) (g, Load, tr)) as Hl by (apply rtc_once; cbn; by rewrite app_nil_r).
  destruct g as [row|]; [destruct (is_running row) eqn:Hr; [destruct (budget_left row) eqn:Hb; [done|]|]|].
  - exists (Some (set_status (bs "paused") row)). split; [|split; intros r [= <-]; [done|by rewrite Hr]]. eapply solo_trans; [exact Hl|].
    eapply rtc_l; [reflexivity|]. cbn. rewrite Hr, Hb. cbn. rewrite app_nil_r. eapply solo_trans; [apply solo_do|].
    cbn [foldl fmap option_fmap option_map exec after]. apply solo_exit.
  - exists (Some row). split; [|split; intros r [= <-]; [by rewrite Hr|done]]. eapply solo_trans; [exact Hl|].
    eapply rtc_l; [reflexivity|]. cbn. rewrite Hr. cbn. rewrite app_nil_r. apply solo_exit.
  - exists None. split; [|done]. eapply solo_trans; [exact Hl|]. eapply rtc_l; [reflexivity|]. cbn. rewrite app_nil_r. apply solo_exit.
Qed.

(** *** Every driver ends *)

Definition turns_left (g : option GoalRow) : nat :=
  match g with
  | Some row => if is_running row then Z.to_nat (max_turns row - turn_count row) else 0
  | None => 0
  end.
Definition unplanned (row : GoalRow) : bool := is_decompose row && bool_decide (subgoals row = []).
Definition potential (g : option GoalRow) : nat :=
  2 * turns_left g + match g with Some row => if unplanned row then 1 else 0 | None => 0 end.
Lemma chunk_no_next row : (0 ≤ current_chunk row)%Z → Z.to_nat (Z.max 0 (current_chunk row + 1)) = S (chunk_no row).
Proof. unfold chunk_no. lia. Qed.
Lemma moved_fields l row :
  is_running (moved l row) = is_running row ∧ turn_count (moved l row) = turn_count row ∧ max_turns (moved l row) = max_turns row ∧
  is_decompose (moved l row) = is_decompose row ∧ current_chunk (moved l row) = (current_chunk row + 1)%Z ∧
  subgoals (moved l row) = (if bool_decide (l = []) then subgoals row else take (chunk_no row + 1) (subgoals row) ++ l).
Proof. unfold moved. by case_bool_decide. Qed.
Lemma moved_planned l row : subgoals row ≠ [] → subgoals (moved l row) ≠ [].
Proof.
  intros Hs. destruct (moved_fields l row) as (_ & _ & _ & _ & _ & ->). case_bool_decide; [done|].
  intros [_ ?]%app_eq_nil. done.
Qed.

Definition ends (ora : Trace → Pc → option str) (tr0 : Trace) (g : option GoalRow) : Prop :=
  ∃ g' tr, solo ora (g, Top, tr0) (g', Gone, tr0 ++ tr) ∧ length tr ≤ turns_left g.
Lemma ends_now ora tr0 row g' e : is_running row = true → budget_left row = true →
  solo ora (Some row, Top, tr0) (g', Gone, tr0 ++ [e]) → ends ora tr0 (Some row).
Proof.
  unfold budget_left. intros Hr Hb%Z.ltb_lt Hs. exists g', [e]. split; [done|]. cbn [turns_left length]. rewrite Hr. lia.
Qed.
(** A round with a turn, and one that only plans. *)
Lemma ends_turn ora tr0 row row1 e : is_running row = true → budget_left row = true →
  is_running row1 = true → turn_count row1 = (turn_count row + 1)%Z → max_turns row1 = max_turns row →
  solo ora (Some row, Top, tr0) (Some row1, Top, tr0 ++ [e]) → ends ora (tr0 ++ [e]) (Some row1) → ends ora tr0 (Some row).
Proof.
  unfold budget_left. intros Hr Hb%Z.ltb_lt Hr1 Ht1 Hm1 Hs (g' & tr & Hs' & Hl). exists g', (e :: tr).
  split; [eapply solo_trans; [exact Hs|]; by rewrite <- (assoc_L (++)) in Hs'|].
  revert Hl. cbn [turns_left length]. rewrite Hr, Hr1, Ht1, Hm1. lia.
Qed.
Lemma ends_plan ora tr0 row row1 : turns_left (Some row1) = turns_left (Some row) →
  solo ora (Some row, Top, tr0) (Some row1, Top, tr0) → ends ora tr0 (Some row1) → ends ora tr0 (Some row).
Proof. intros Ht Hs (g' & tr & Hs' & Hl). exists g', tr. split; [by eapply solo_trans|lia]. Qed.
Lemma potential_turn row row1 : is_running row = true → budget_left row = true →
  turn_count row1 = (turn_count row + 1)%Z → max_turns row1 = max_turns row → unplanned row1 = false →
  potential (Some row1) < potential (Some row).
Proof.
  unfold budget_left, potential; cbn [turns_left]. intros -> Hb%Z.ltb_lt -> -> ->. destruct (is_running row1); lia.
Qed.
Lemma unplanned_ne row : subgoals row ≠ [] → unplanned row = false.
Proof. intros Hs. unfold unplanned. by rewrite bool_decide_eq_false_2, andb_false_r. Qed.

(** Every driver ends: left alone, whatever the model and the judge answer,
    it comes to its end after no more turns than the budget of the goal had
    left. *)
Theorem driver_ends ora g : ∃ g' tr, solo ora (g, Top, []) (g', Gone, tr) ∧ length tr ≤ turns_left g.
Proof.
  cut (∀ tr0, ends ora tr0 g); [intros Hc; apply (Hc [])|].
  remember (potential g) as n eqn:Hn. revert g Hn. induction n as [n IH] using (well_founded_induction lt_wf). intros g -> tr0.
  destruct (match g with Some row => negb (is_running row && budget_left row) | None => true end) eqn:Hg.
  { destruct (no_round ora g tr0 Hg) as (g' & Hs & _). exists g', []. rewrite app_nil_r. split; [done|cbn; lia]. }
  destruct g as [row|]; [|done]. apply negb_false_iff, andb_true_iff in Hg as [Hr Hb].
  assert (∀ row1 e, is_running row1 = true → turn_count row1 = (turn_count row + 1)%Z → max_turns row1 = max_turns row →
    unplanned row1 = false → solo ora (Some row, Top, tr0) (Some row1, Top, tr0 ++ [e]) → ends ora tr0 (Some row)) as Hturn.
  { intros row1 e Hr1 Ht Hm Hu Hs. eapply ends_turn; [done..|exact Hs|]. eapply IH; [by apply potential_turn|done]. }
  destruct (is_decompose row) eqn:Hd; [destruct (decide (subgoals row = [])) as [Hs|Hs]|].
  - assert (unplanned row = true) as Hu by (unfold unplanned; by rewrite Hd, bool_decide_eq_true_2).
    assert (∀ row1, unplanned row1 = false → turns_left (Some row1) = turns_left (Some row) →
      solo ora (Some row, Top, tr0) (Some row1, Top, tr0) → ends ora tr0 (Some row)) as Hplan.
    { intros row1 Hu1 Ht Hso. eapply ends_plan; [exact Ht|exact Hso|]. eapply IH; [|done]. unfold potential. rewrite Ht, Hu, Hu1. lia. }
    destruct (plan_round ora row tr0 Hr Hb Hd Hs) as [(l & Hl & Hso)|Hso]; eapply Hplan in Hso; try done.
    + by apply unplanned_ne.
    + unfold unplanned, is_decompose. cbn. by rewrite andb_false_r.
  - destruct (chunk_round ora row tr0 Hr Hb Hd Hs) as [v Hv]. cbv zeta in Hv. destruct (advance_decision _ _ _);
      [..|by eapply ends_now in Hv|by eapply ends_now in Hv].
    + eapply Hturn in Hv; [done..|by apply unplanned_ne].
    + eapply Hturn in Hv; [done..|by apply unplanned_ne].
    + destruct Hv as [l Hv]. destruct (moved_fields l (chunk_judged v row)) as (H1 & H2 & H3 & _).
      eapply Hturn in Hv; [done|by rewrite H1|by rewrite H2|by rewrite H3|by apply unplanned_ne, moved_planned].
  - destruct (flat_round ora row tr0 Hr Hb Hd) as [v Hv]. cbv zeta in Hv.
    destruct (next_action _ _); [|by eapply ends_now in Hv|by eapply ends_now in Hv].
    eapply Hturn in Hv; try done. unfold unplanned. change (is_decompose (judged v row)) with (is_decompose row). by rewrite Hd.
Qed.

(** *** The plan is worked through in order *)

(** The chunks that were ruled done, in the order of the rulings, and the ones
    the row counts as finished. *)
Definition done_chunks (tr : Trace) : list str :=
  omap (λ e : GoalRow * Ruling, match e.2 with
            | RChunk v => if chunk_done v then subgoals e.1 !! chunk_no e.1 else None
            | RFlat _ => None
            end) tr.
Definition finished (row : GoalRow) : list str := take (chunk_no row) (subgoals row).
Record planned (row : GoalRow) : Prop := mkPlanned {
  pl_decompose : is_decompose row = true;
  pl_running : is_running row = true;
  pl_chunk : (0 ≤ current_chunk row)%Z;
  pl_range : chunk_no row < length (subgoals row);
}.
Lemma chunk_done_one row v : done_chunks [(row, RChunk v)] = if chunk_done v then option_list (subgoals row !! chunk_no row) else [].
Proof. unfold done_chunks. cbn. destruct (chunk_done v); [|done]. by destruct (subgoals row !! chunk_no row). Qed.
Lemma done_chunks_cons e tr : done_chunks (e :: tr) = done_chunks [e] ++ done_chunks tr.
Proof. unfold done_chunks. by rewrite <- omap_app. Qed.
Lemma finished_next row : chunk_no row < length (subgoals row) →
  finished row ++ option_list (subgoals row !! chunk_no row) = take (S (chunk_no row)) (subgoals row).
Proof.
  intros Hl. destruct (lookup_lt_is_Some_2 _ _ Hl) as [x Hx]. unfold finished. rewrite Hx. cbn. by rewrite (take_S_r _ _ x).
Qed.
Lemma finished_moved l row : (0 ≤ current_chunk row)%Z → chunk_no row < length (subgoals row) →
  finished (moved l row) = take (S (chunk_no row)) (subgoals row).
Proof.
  intros Hc Hl. destruct (moved_fields l row) as (_ & _ & _ & _ & Hcc & Hs). unfold finished. rewrite Hs.
  unfold chunk_no at 1. rewrite Hcc, chunk_no_next by done. case_bool_decide; [done|].
  rewrite Nat.add_1_r, take_app_le by (rewrite length_take; lia). by rewrite take_take, Nat.min_id.
Qed.

(** How a goal ended that began with [row]. *)
Definition plan_outcome (row : GoalRow) (tr : Trace) (row' : GoalRow) : Prop :=
  (g_status row' = bs "done" ∧ finished row ++ done_chunks tr = subgoals row') ∨
  (g_status row' = bs "paused" ∧
   (finished row ++ done_chunks tr = finished row' ∨
    (max_turns row' ≤ turn_count row')%Z ∧
    finished row ++ done_chunks tr = finished row' ++ option_list (subgoals row' !! chunk_no row'))).
Lemma outcome_cons row e row1 tr row' :
  finished row ++ done_chunks [e] = finished row1 → plan_outcome row1 tr row' → plan_outcome row (e :: tr) row'.
Proof. intros Hf. unfold plan_outcome. by rewrite done_chunks_cons, (assoc_L (++)), Hf. Qed.
Lemma planned_moved l v row : planned row → chunk_no row + 1 < length (subgoals row) → planned (moved l (chunk_judged v row)).
Proof.
  intros [Hd Hr Hc Hl] Hlt. destruct (moved_fields l (chunk_judged v row)) as (H1 & _ & _ & H4 & H5 & H6).
  constructor; [by rewrite H4|by rewrite H1|rewrite H5; cbn; lia|]. unfold chunk_no. rewrite H5, H6.
  cbn [current_chunk chunk_judged record_verdict bump_turn subgoals]. change (chunk_no (chunk_judged v row)) with (chunk_no row).
  rewrite chunk_no_next by done. case_bool_decide as Hll; [lia|]. rewrite length_app, length_take. destruct l; [done|cbn; lia].
Qed.
(** One round: the goal ends, or the driver goes on with a goal that has a plan. *)
Lemma plan_step ora row tr : planned row → budget_left row = true →
  ∃ v row', let e := (row, RChunk v) in
  (solo ora (Some row, Top, tr) (Some row', Gone, tr ++ [e]) ∧ plan_outcome row [e] row') ∨
  (solo ora (Some row, Top, tr) (Some row', Top, tr ++ [e]) ∧ planned row' ∧ finished row ++ done_chunks [e] = finished row' ∧
   turn_count row' = (turn_count row + 1)%Z ∧ max_turns row' = max_turns row).
Proof.
  intros Hp Hb. destruct (Hp) as [Hd Hr Hc Hl]. pose proof (finished_next row Hl) as Hfn.
  assert (subgoals row ≠ []) as Hs by (intros Hs; rewrite Hs in Hl; cbn in Hl; lia).
  destruct (chunk_round ora row tr Hr Hb Hd Hs) as [v Hv]. cbv zeta in Hv. exists v.
  unfold advance_decision in Hv. change (chunk_no (bump_turn row)) with (chunk_no row) in Hv.
  unfold plan_outcome. cbv zeta. rewrite chunk_done_one.
  destruct (chunk_done v) eqn:Hcd; cbn [andb negb] in Hv; [destruct (Nat.leb_spec (length (subgoals row)) (chunk_no row + 1)) as [Hle|Hle]|].
  - eexists. left. split; [exact Hv|]. left. split; [done|]. rewrite Hfn. cbn [subgoals set_status chunk_judged record_verdict bump_turn].
    apply take_ge. lia.
  - destruct (budget_left (bump_turn row)) eqn:Hb'; cbn [negb] in Hv.
    + assert (∃ l, solo ora (Some row, Top, tr) (Some (moved l (chunk_judged v row)), Top, tr ++ [(row, RChunk v)])) as [l Hso]
        by (destruct (replan v); [exact Hv|by exists []]).
      eexists. right. split; [exact Hso|]. split; [by apply planned_moved|]. destruct (moved_fields l (chunk_judged v row)) as (_ & -> & -> & _).
      split; [by rewrite finished_moved|done].
    + eexists. left. split; [exact Hv|]. right. split; [done|]. right. split; [|done]. unfold budget_left in Hb'. cbn in Hb' |- *. lia.
  - destruct (budget_left (bump_turn row)); cbn [negb] in Hv; [|eexists; left; split; [exact Hv|]; right; split; [done|]; left; by rewrite app_nil_r].
    destruct (negb (parse_ok v) && _).
    + eexists. left. split; [exact Hv|]. right. split; [done|]. left. by rewrite app_nil_r.
    + eexists. right. split; [exact Hv|]. split; [by constructor|]. by rewrite app_nil_r.
Qed.

(** C17: A plan is worked through in order, by a driver that is left alone: every
    statement on the goal's row is carried out, and nobody else edits, stops or
    replaces the goal.  Whatever the turns and the judge answer, such a run
    ends.  If the goal is then done, its chunks are, one after the
    other and each once, the ones finished before and then the ones the judge
    ruled done, new planning on the way included; if it is paused, the chunks
    it counts as finished are these, but for one ruled done on the last turn of
    the budget, which is not counted. *)
(* @prop refinement defs=local,advance_decision,rule_chunk,clean_chunks,set_subgoals,set_current_chunk witness=GoalsWitness.plan_witness *)
Theorem plan_in_order ora row : planned row →
  ∃ row' tr, solo ora (Some row, Top, []) (Some row', Gone, tr) ∧
  ((g_status row' = bs "done" ∧ finished row ++ done_chunks tr = subgoals row') ∨
   (g_status row' = bs "paused" ∧
    (finished row ++ done_chunks tr = finished row' ∨
     (max_turns row' ≤ turn_count row')%Z ∧
     finished row ++ done_chunks tr = finished row' ++ option_list (subgoals row' !! chunk_no row')))).
Proof.
  cut (∀ tr0, planned row → ∃ row' tr, solo ora (Some row, Top, tr0) (Some row', Gone, tr0 ++ tr) ∧ plan_outcome row tr row');
    [intros Hc; apply (Hc [])|].
  remember (Z.to_nat (max_turns row - turn_count row)) as n eqn:Hn. revert row Hn.
  induction n as [n IH] using (well_founded_induction lt_wf). intros row Hn tr0 Hp. destruct (budget_left row) eqn:Hb.
  2: { destruct (no_round ora (Some row) tr0) as (g' & Hs & Hg & _); [by rewrite (pl_running _ Hp), Hb|].
       rewrite (Hg row eq_refl (pl_running _ Hp)) in Hs. eexists _, []. rewrite app_nil_r. split; [exact Hs|]. right. split; [done|].
       left. by rewrite app_nil_r. }
  destruct (plan_step ora row tr0 Hp Hb) as (v & row1 & [[Hs Ho]|(Hs & Hp1 & Hf & Ht & Hm)]); [by eexists _, [_]|].
  unfold budget_left in Hb. destruct (IH (Z.to_nat (max_turns row1 - turn_count row1)) ltac:(lia) row1 eq_refl (tr0 ++ [(row, RChunk v)]) Hp1)
    as (row' & tr & Hs' & Ho). exists row', ((row, RChunk v) :: tr). split; [|by eapply outcome_cons].
  eapply solo_trans; [exact Hs|]. by rewrite <- (assoc_L (++)) in Hs'.
Qed.
End driver.

(** ** Drivers, users and commands side by side *)

Section world.
Context {V : Type} `{Json V, JsonArrays V}.
Context (fence_captures : str → option str) (fix_trailing_commas : str → str) (scan_for_block : str → bool) (decompose_on : bool).
#[local] Abbreviation drive := (local (V:=V) fence_captures fix_trailing_commas scan_for_block decompose_on).

(** [d_lock]: the clone of the session's lock, from the call of [goal_lock] to
    the end of the round.  A driver in [Turn] holds the lock, and so does a user
    in a turn. *)
(* @src opex-core/src/agent/goal/pool.rs 13-16 GoalDriverHandle *)
Record Driver := mkDriver { d_sid : Uuid; d_cancel : bool; d_pc : Pc; d_lock : option nat }.
Record User := mkUser { u_sid : Uuid; u_lock : nat; u_turn : bool }.
Inductive Party := PDriver (id : nat) | PUser (id : nat).
Record World := mkWorld {
  table : GoalTable;
  pool : gmap Uuid nat;
  drivers : gmap nat Driver;
  users : gmap nat User;
  locks : gmap Uuid nat;
  next : nat;
  log : list (Uuid * DEvent);
}.
Definition in_turn (pc : Pc) : bool := match pc with Turn _ => true | _ => false end.
Definition on_table f w := mkWorld (f (table w)) (pool w) (drivers w) (users w) (locks w) (next w) (log w).
Definition on_drivers f w := mkWorld (table w) (pool w) (f (drivers w)) (users w) (locks w) (next w) (log w).
Definition on_users f w := mkWorld (table w) (pool w) (drivers w) (f (users w)) (locks w) (next w) (log w).
Definition on_pool f w := mkWorld (table w) (f (pool w)) (drivers w) (users w) (locks w) (next w) (log w).
(** Nobody is in a turn under this lock. *)
Definition free (l : nat) (w : World) : bool :=
  bool_decide (map_Forall (λ _ d, d_lock d = Some l → in_turn (d_pc d) = false) (drivers w)) &&
  bool_decide (map_Forall (λ _ u, u_lock u = l → u_turn u = false) (users w)).
(** Whether somebody has a clone of this lock ([strong_count > 1]). *)
Definition unused (l : nat) (w : World) : bool :=
  bool_decide (map_Forall (λ _ d, d_lock d ≠ Some l) (drivers w)) && bool_decide (map_Forall (λ _ u, u_lock u ≠ l) (users w)).
Definition GOAL_LOCKS_SWEEP_THRESHOLD : nat := 256.
(** The lock of a session; unused locks are dropped when there are many (the
    caller's own is in use).  Entries go one at a time, each while its shard is
    locked, so clones made meanwhile keep theirs. *)
(* @src opex-core/src/agent/goal/pool.rs 69-83 goal_lock *)
Definition goal_lock (sid : Uuid) (w : World) : World * nat :=
  let '(l, ls) := match locks w !! sid with Some l => (l, locks w) | None => (next w, <[sid := next w]> (locks w)) end in
  let ls := if GOAL_LOCKS_SWEEP_THRESHOLD <? size ls
            then filter (λ e, e.2 = l ∨ unused e.2 w = false) ls else ls in
  (mkWorld (table w) (pool w) (drivers w) (users w) ls (S (next w)) (log w), l).
(* @src opex-core/src/agent/goal/pool.rs 29-31 is_running *)
Definition driver_running (sid : Uuid) (w : World) : bool :=
  match pool w !! sid ≫= λ id, drivers w !! id with
  | Some d => match d_pc d with Gone => false | _ => true end
  | None => false
  end.
(** The handle is taken out of the pool and its driver told to stop. *)
(* @src opex-core/src/agent/goal/pool.rs 49-63 stop *)
Definition stop (sid : Uuid) (w : World) : World :=
  match pool w !! sid with
  | None => w
  | Some id => on_pool (delete sid) (on_drivers (alter (λ d, mkDriver (d_sid d) true (d_pc d) (d_lock d)) id) w)
  end.
(** The driver is spawned, then its handle is put into the pool. *)
(* @src opex-core/src/agent/goal/driver.rs 44-48 spawn_goal_driver *)
Definition spawn_goal_driver (sid : Uuid) (w : World) : World :=
  mkWorld (table w) (<[sid := next w]> (pool w)) (<[next w := mkDriver sid false Top None]> (drivers w)) (users w) (locks w) (S (next w)) (log w).
(* @src opex-core/src/agent/pipeline/commands.rs 104-119 start_goal_driver *)
Definition start_goal_driver (sid : Uuid) (w : World) : World := spawn_goal_driver sid (stop sid w).
Definition wants (pc : Pc) : bool := match pc with Want _ => true | _ => false end.
Definition idle (pc : Pc) : bool := match pc with Top | Exit | Gone => true | _ => false end.
(** One step of a driver. *)
Definition driver_step (id : nat) (i : Input) (w : World) : World :=
  match drivers w !! id with
  | None => w
  | Some d =>
      let granted := match d_lock d with Some l => free l w | None => false end in
      let '(g, pc, ev) := drive i granted (d_cancel d) (table w !! d_sid d) (d_pc d) in
      let w := mkWorld (partial_alter (λ _, g) (d_sid d) (table w))
                 (match d_pc d with Exit => delete (d_sid d) (pool w) | _ => pool w end)
                 (drivers w) (users w) (locks w) (next w) (log w ++ (pair (d_sid d) <$> ev)) in
      let '(w, l) := if wants pc && negb (wants (d_pc d))
                     then let '(w, l) := goal_lock (d_sid d) w in (w, Some l)
                     else (w, if idle pc then None else d_lock d) in
      on_drivers <[id := mkDriver (d_sid d) (d_cancel d) pc l]> w
  end.

Inductive Action :=
| ADriver (id : nat) (i : Input)
| AUserAsks (u : nat) (sid : Uuid)
| AUserGoes (u : nat)
| AUserLeaves (u : nat)            (** the turn ended, or the wait was given up *)
| AUpsert (sid : Uuid) (text : str) (max : Z)
| ACron (sid : Uuid) (job : nat) (text : str) (max : Z)
| AInitiative (sid : Uuid) (text : str) (max : Z)
| AStatus (sid : Uuid) (active : bool)
| AFlag (sid : Uuid)
| ASubgoals (sid : Uuid) (l : list str)
| AClear (sid : Uuid)
| ACancelRow (sid : Uuid)
| AStart (sid : Uuid)
| ASpawn (sid : Uuid)
| AStop (sid : Uuid)
| AAbort (id : nat).               (** the grace of a stopped driver is over *)
(** Waiting for the lock and leaving it are those of the mutex: whoever waits may
    be next, and who stops waiting, cancelled or timed out, is gone. *)
(* @src opex-core/src/agent/goal/pool.rs 109-126 user_turn_goal_guard_cancelable *)
Definition user_turn_goal_guard (u : nat) (sid : Uuid) (w : World) : World :=
  match users w !! u with
  | Some _ => w
  | None => let '(w, l) := goal_lock sid w in on_users <[u := mkUser sid l false]> w
  end.
Definition step (a : Action) (w : World) : World :=
  match a with
  | ADriver id i => driver_step id i w
  | AUserAsks u sid => user_turn_goal_guard u sid w
  | AUserGoes u =>
      match users w !! u with
      | Some x => if free (u_lock x) w then on_users <[u := mkUser (u_sid x) (u_lock x) true]> w else w
      | None => w
      end
  | AUserLeaves u => on_users (delete u) w
  | AUpsert sid text max => on_table (upsert sid text max) w
  | ACron sid job text max => on_table (upsert_cron_goal sid job text max) w
  | AInitiative sid text max => on_table (upsert_initiative_goal_tx sid text max) w
  | AStatus sid active => on_table (alter (set_status (if active then bs "active" else bs "paused")) sid) w
  | AFlag sid => on_table (alter (set_decompose_failed false) sid) w
  | ASubgoals sid l => on_table (alter (set_subgoals l) sid) w
  | AClear sid => on_table (clear sid) w
  | ACancelRow sid => on_table (λ t, (try_cancel_goal (λ _, Some []) sid [] t).1) w
  | AStart sid => start_goal_driver sid w
  | ASpawn sid => spawn_goal_driver sid w
  | AStop sid => stop sid w
  | AAbort id =>
      match drivers w !! id with
      | Some d => if d_cancel d then on_drivers (delete id) w else w
      | None => w
      end
  end.
Definition run (acts : list Action) (w : World) : World := foldl (λ w a, step a w) w acts.
Definition empty_world : World := mkWorld ∅ ∅ ∅ ∅ ∅ 0 [].

(** What the commands do, and in which order; [ok]: the row was written. *)
(* @src opex-core/src/agent/pipeline/commands.rs 611-674 handle_command (/goal) *)
Definition goal_command (sid : Uuid) (c : GoalCmd) (ok : bool) : list Action :=
  match c with
  | GSet text => if ok then [AUpsert sid text 20; AStart sid] else []
  | GStatus => []
  | GPause => [AStatus sid false; AStop sid]
  | GResume => [AStatus sid true; AFlag sid; AStart sid]
  | GClear => [AStop sid; AClear sid]
  end.

(** *** One turn at a time *)

(** Party [p] has a clone of the lock [l] of a session, and is in a turn or not. *)
Definition has (w : World) (p : Party) (sid : Uuid) (l : nat) (t : bool) : Prop :=
  match p with
  | PDriver i => ∃ d, drivers w !! i = Some d ∧ d_sid d = sid ∧ d_lock d = Some l ∧ in_turn (d_pc d) = t
  | PUser u => ∃ x, users w !! u = Some x ∧ u_sid x = sid ∧ u_lock x = l ∧ u_turn x = t
  end.
Record locked (w : World) : Prop := mkLocked {
  lo_entry : ∀ p sid l t, has w p sid l t → locks w !! sid = Some l;
  lo_one : ∀ p q s s' l, has w p s l true → has w q s' l true → p = q;
  lo_turn : ∀ i d, drivers w !! i = Some d → in_turn (d_pc d) = true → is_Some (d_lock d);
}.

Lemma free_spec l w p sid : free l w = true → has w p sid l true → False.
Proof.
  unfold free. intros [Hd%bool_decide_eq_true Hu%bool_decide_eq_true]%andb_true_iff. destruct p as [i|u].
  - intros (d & Hi & _ & Hl & Ht). by rewrite (Hd i d Hi Hl) in Ht.
  - intros (x & Hx & _ & Hl & Ht). by rewrite (Hu u x Hx Hl) in Ht.
Qed.
Lemma unused_spec l w p sid t : has w p sid l t → unused l w = false.
Proof.
  intros Hp. apply not_true_iff_false. unfold unused. intros [Hd%bool_decide_eq_true Hu%bool_decide_eq_true]%andb_true_iff.
  destruct p as [i|u]; [destruct Hp as (d & Hi & _ & Hl & _); by apply (Hd i d Hi)|destruct Hp as (x & Hx & _ & Hl & _); by apply (Hu u x Hx)].
Qed.
(** One party changes: what the others have stays. *)
Lemma locked_update w w' p : locked w →
  (∀ q s l t, q ≠ p → has w' q s l t → has w q s l t) →
  (∀ q s l t, q ≠ p → has w' q s l t → locks w' !! s = locks w !! s) →
  (∀ s l t, has w' p s l t → locks w' !! s = Some l ∧ (t = true → ∀ q s', q ≠ p → has w' q s' l true → False)) →
  (∀ i d, drivers w' !! i = Some d → in_turn (d_pc d) = true → is_Some (d_lock d)) →
  locked w'.
Proof.
  intros [H1 H2 H3] Hothers Hlocks Hp Hturn.
  assert (∀ q : Party, q = p ∨ q ≠ p) as Hdec.
  { intros q. destruct q as [i|i], p as [j|j]; try (right; discriminate); (destruct (decide (i = j)) as [->|Hij]; [by left|right; congruence]). }
  constructor; [| |done].
  - intros q s l t Hq. destruct (Hdec q) as [->|Hqp]; [by apply (Hp s l t)|]. rewrite (Hlocks q s l t) by done. by eapply H1, Hothers.
  - intros q q' s s' l Hq Hq'. destruct (Hdec q) as [->|Hqp], (Hdec q') as [->|Hqp']; [done| | |].
    + exfalso. by eapply (proj2 (Hp _ _ _ Hq) eq_refl).
    + exfalso. by eapply (proj2 (Hp _ _ _ Hq') eq_refl).
    + eapply H2; by eapply Hothers.
Qed.
Lemma goal_lock_spec sid w w' l : goal_lock sid w = (w', l) → locked w →
  locked w' ∧ locks w' !! sid = Some l ∧ drivers w' = drivers w ∧ users w' = users w ∧
  ∀ q s l' t, has w q s l' t → locks w' !! s = locks w !! s.
Proof.
  unfold goal_lock. match goal with |- context [let '(_, _) := ?x in _] => destruct x as [l0 ls] eqn:He end. intros [= <- <-] Hw.
  assert (ls !! sid = Some l0) as Hl0.
  { destruct (locks w !! sid) eqn:Hs; injection He as <- <-; [done|apply lookup_insert_eq]. }
  assert (∀ q s l' t, has w q s l' t → ls !! s = Some l') as Hls.
  { intros q s l' t Hq. pose proof (lo_entry _ Hw _ _ _ _ Hq) as Hs. destruct (locks w !! sid) eqn:Hsid; injection He as <- <-; [done|].
    rewrite lookup_insert_ne by congruence. done. }
  match goal with |- context [mkWorld _ _ _ _ ?x _ _] => set (ls' := x) end.
  assert (∀ s l', ls !! s = Some l' → l' = l0 ∨ unused l' w = false → ls' !! s = Some l') as Hkeep.
  { intros s l' Hs Hor. unfold ls'. destruct (_ <? _); [|done]. by apply map_lookup_filter_Some_2. }
  assert (∀ q s l' t, has w q s l' t → ls' !! s = Some l') as Hls'.
  { intros q s l' t Hq. apply Hkeep; [by eapply Hls|right; by eapply unused_spec]. }
  split; [|split; [by apply Hkeep; [|left]|]].
  - destruct Hw as [H1 H2 H3]. constructor; [|exact H2|exact H3]. intros q s l' t Hq. by eapply Hls'.
  - split; [done|]. split; [done|]. intros q s l' t Hq. cbn. rewrite (Hls' q s l' t Hq). by rewrite (lo_entry _ Hw _ _ _ _ Hq).
Qed.
Lemma locked_weaken w w' : locked w → locks w' = locks w → (∀ q s l t, has w' q s l t → has w q s l t) →
  (∀ i d, drivers w' !! i = Some d → in_turn (d_pc d) = true → is_Some (d_lock d)) → locked w'.
Proof.
  intros [H1 H2 H3] Hl Hh H3'. constructor; [| |done].
  - intros p s l t Hp. rewrite Hl. by eapply H1, Hh.
  - intros p q s s' l Hp Hq. by eapply H2; apply Hh.
Qed.
Lemma locked_same w w' : locked w → locks w' = locks w → drivers w' = drivers w → users w' = users w → locked w'.
Proof.
  intros Hw Hl Hd Hu. eapply locked_weaken; [done|done| |rewrite Hd; apply (lo_turn _ Hw)].
  intros [i|u] s l t; cbn; by rewrite ?Hd, ?Hu.
Qed.
Lemma locked_stop sid w : locked w → locked (stop sid w).
Proof.
  intros Hw. unfold stop. destruct (pool w !! sid) as [id|]; [|done]. eapply locked_weaken; [done|done| |]; cbn.
  - intros [i|u] s l t; cbn; [|done]. intros (d & Hd & Hs & Hl & Ht). apply lookup_alter_Some in Hd as [(<- & d' & Hd & ->)|[_ Hd]]; [by exists d'|by exists d].
  - intros i d Hd. apply lookup_alter_Some in Hd as [(_ & d' & Hd & ->)|[_ Hd]]; exact (lo_turn _ Hw _ _ Hd).
Qed.
Lemma locked_spawn sid w : locked w → locked (spawn_goal_driver sid w).
Proof.
  intros Hw. eapply locked_weaken; [done|done| |]; cbn.
  - intros [i|u] s l t; cbn; [|done]. intros (d & Hd & Hs & Hl & Ht). apply lookup_insert_Some in Hd as [[_ <-]|[_ Hd]]; [done|by exists d].
  - intros i d Hd. apply lookup_insert_Some in Hd as [[_ <-]|[_ Hd]]; [done|exact (lo_turn _ Hw _ _ Hd)].
Qed.
Lemma locked_delete id w : locked w → locked (on_drivers (delete id) w).
Proof.
  intros Hw. eapply locked_weaken; [done|done| |]; cbn.
  - intros [i|u] s l t; cbn; [|done]. intros (d & Hd & Hr). apply lookup_delete_Some in Hd as [_ Hd]. by exists d.
  - intros i d Hd. apply lookup_delete_Some in Hd as [_ Hd]. exact (lo_turn _ Hw _ _ Hd).
Qed.
Lemma locked_leave u w : locked w → locked (on_users (delete u) w).
Proof.
  intros Hw. eapply locked_weaken; [done|done| |apply (lo_turn _ Hw)].
  intros [i|v] s l t; cbn; [done|]. intros (x & Hx & Hr). apply lookup_delete_Some in Hx as [_ Hx]. by exists x.
Qed.
(** A user's entry is written: with a clone of the session's lock, in a turn
    only if the lock is free. *)
Lemma locked_user u x w : locked w → locks w !! u_sid x = Some (u_lock x) → (u_turn x = true → free (u_lock x) w = true) →
  locked (on_users <[u := x]> w).
Proof.
  intros Hw Hl Ht.
  assert (∀ q s l t, q ≠ PUser u → has (on_users <[u := x]> w) q s l t → has w q s l t) as Hothers.
  { intros [i|v] s l t Hq; cbn; [done|]. intros (y & Hy & Hr). apply lookup_insert_Some in Hy as [[<- _]|[_ Hy]]; [done|by exists y]. }
  apply (locked_update w _ (PUser u)); [done|exact Hothers|done| |apply (lo_turn _ Hw)].
  intros s l t (y & Hy & <- & <- & <-). cbn in Hy. rewrite lookup_insert_eq in Hy. injection Hy as <-. split; [done|].
  intros Hturn q s' Hq Hh. eapply free_spec; [by apply Ht|]. by eapply Hothers.
Qed.
(** The same for a driver. *)
Lemma locked_driver id d w : locked w → (∀ l, d_lock d = Some l → locks w !! d_sid d = Some l) →
  (in_turn (d_pc d) = true → ∃ l, d_lock d = Some l ∧ ∀ q s, q ≠ PDriver id → has w q s l true → False) →
  locked (on_drivers <[id := d]> w).
Proof.
  intros Hw Hl Ht.
  assert (∀ q s l t, q ≠ PDriver id → has (on_drivers <[id := d]> w) q s l t → has w q s l t) as Hothers.
  { intros [i|v] s l t Hq; cbn; [|done]. intros (y & Hy & Hr). apply lookup_insert_Some in Hy as [[<- _]|[_ Hy]]; [done|by exists y]. }
  apply (locked_update w _ (PDriver id)); [done|exact Hothers|done| |].
  - intros s l t (y & Hy & <- & Hyl & <-). cbn in Hy. rewrite lookup_insert_eq in Hy. injection Hy as <-. split; [by apply Hl|].
    intros Hturn q s' Hq Hh. destruct (Ht Hturn) as (l' & Hl' & Hno). rewrite Hyl in Hl'. injection Hl' as <-.
    eapply Hno; [exact Hq|by eapply Hothers].
  - intros i e He Hturn. cbn in He. apply lookup_insert_Some in He as [[_ <-]|[_ He]]; [|by apply (lo_turn _ Hw) in He].
    destruct (Ht Hturn) as (l & -> & _). done.
Qed.
Lemma drive_turn i granted cancelled g pc g' pc' ev :
  drive i granted cancelled g pc = (g', pc', ev) → in_turn pc' = true → granted = true ∧ in_turn pc = false.
Proof.
  destruct pc; cbn [local]; intros Hd Ht; repeat case_match; injection Hd as _ <- _; try done;
    try (match goal with H : in_turn (after ?k) = true |- _ => by destruct k end); by destruct granted.
Qed.
Lemma locked_driver_step id i w : locked w → locked (driver_step id i w).
Proof.
  intros Hw. unfold driver_step. destruct (drivers w !! id) as [d|] eqn:Hid; [|done]. cbv zeta.
  destruct (drive _ _ _ _ _) as [[g pc] ev] eqn:Hd. pose proof (drive_turn _ _ _ _ _ _ _ _ Hd) as Hturn.
  match goal with |- context [goal_lock _ ?x] => set (w1 := x) end. assert (locked w1) as Hw1 by (by eapply locked_same).
  destruct (wants pc && negb (wants (d_pc d))) eqn:Hwant.
  - destruct (goal_lock (d_sid d) w1) as [w2 l] eqn:Hgl. destruct (goal_lock_spec _ _ _ _ Hgl Hw1) as (Hw2 & Hl & _).
    apply locked_driver; cbn; [done|by intros l' [= <-]|]. by destruct pc.
  - apply locked_driver; cbn; [done| |].
    + intros l Hl. apply (lo_entry _ Hw (PDriver id) _ _ (in_turn (d_pc d))). exists d. by destruct (idle pc).
    + intros Ht. destruct (Hturn Ht) as [Hg _]. destruct (idle pc) eqn:Hi; [by destruct pc|].
      destruct (d_lock d) as [l|]; [|done]. exists l. split; [done|]. intros q s _ Hh. by eapply (free_spec l w).
Qed.
Lemma locked_step a w : locked w → locked (step a w).
Proof.
  intros Hw. destruct a; cbn [step].
  - by apply locked_driver_step.
  - unfold user_turn_goal_guard. destruct (users w !! u); [done|]. destruct (goal_lock sid w) as [w1 l] eqn:Hgl.
    destruct (goal_lock_spec _ _ _ _ Hgl Hw) as (Hw1 & Hl & _). by apply locked_user.
  - destruct (users w !! u) as [x|] eqn:Hu; [|done]. destruct (free (u_lock x) w) eqn:Hf; [|done]. apply locked_user; cbn; [done| |done].
    apply (lo_entry _ Hw (PUser u) _ _ (u_turn x)). by exists x.
  - by apply locked_leave.
  - by eapply locked_same.
  - by eapply locked_same.
  - by eapply locked_same.
  - by eapply locked_same.
  - by eapply locked_same.
  - by eapply locked_same.
  - by eapply locked_same.
  - by eapply locked_same.
  - by apply locked_spawn, locked_stop.
  - by apply locked_spawn.
  - by apply locked_stop.
  - destruct (drivers w !! id) as [d|]; [|done]. destruct (d_cancel d); [by apply locked_delete|done].
Qed.
Lemma locked_run acts w : locked w → locked (run acts w).
Proof. revert w. induction acts as [|a acts IH]; intros w Hw; [done|]. by apply IH, locked_step. Qed.
Lemma locked_empty : locked empty_world.
Proof. constructor; [intros [i|u] s l t (x & Hx & _)|intros [i|u] q s s' l (x & Hx & _)|intros i d Hx]; by destruct (lookup_empty_Some _ _ Hx). Qed.

(** Who is in a turn of a session. *)
Definition turning (sid : Uuid) (w : World) : list Party :=
  omap (λ e : nat * Driver, if bool_decide (d_sid e.2 = sid) && in_turn (d_pc e.2) then Some (PDriver e.1) else None) (map_to_list (drivers w)) ++
  omap (λ e : nat * User, if bool_decide (u_sid e.2 = sid) && u_turn e.2 then Some (PUser e.1) else None) (map_to_list (users w)).
Lemma turning_has sid w p : locked w → p ∈ turning sid w → ∃ l, has w p sid l true.
Proof.
  intros Hw [Hp|Hp]%elem_of_app; apply list_elem_of_omap in Hp as ([i d] & Hin%elem_of_map_to_list & Hc); cbn in Hc; case_match; [|done| |done];
    injection Hc as <-; bool_hyps; [|by exists (u_lock d), d].
  destruct (lo_turn _ Hw i d) as [l Hl]; [done|done|]. by exists l, d.
Qed.

(** C16: One turn at a time among the parties that take the goal lock of a
    session, which are the drivers of its goal and the users whose message goes
    through [user_turn_goal_guard]: whatever these, commands and stops do, at
    most one of them is in a turn of the session, even while the map of locks
    is swept and while a driver that was told to stop still winds down.  (The
    turns of [handle_streaming] take no lock and are not among them.) *)
(* @prop invariant defs=goal_lock,local,user_turn_goal_guard,stop,spawn_goal_driver *)
Theorem one_turn_at_a_time acts sid p q :
  ¬ (p ≠ q ∧ p ∈ turning sid (run acts empty_world) ∧ q ∈ turning sid (run acts empty_world)).
Proof.
  intros (Hne & Hp & Hq). pose proof (locked_run acts _ locked_empty) as Hw.
  destruct (turning_has _ _ _ Hw Hp) as [l Hl], (turning_has _ _ _ Hw Hq) as [l' Hl'].
  pose proof (lo_entry _ Hw _ _ _ _ Hl) as He. rewrite (lo_entry _ Hw _ _ _ _ Hl') in He. injection He as ->.
  by apply Hne, (lo_one _ Hw p q sid sid l).
Qed.

(** *** A goal is done when the judge says so *)

Definition says_done (r : Ruling) : bool := match r with RFlat v => bool_decide (v = VDone) | RChunk v => chunk_done v end.
Definition judged_done (sid : Uuid) (l : list (Uuid * DEvent)) : Prop := ∃ r, (sid, Ruled r) ∈ l ∧ says_done r = true.
Definition pc_honest (sid : Uuid) (l : list (Uuid * DEvent)) (pc : Pc) : Prop :=
  match pc with
  | Fresh _ _ r => (sid, Ruled r) ∈ l
  | Do stmts _ => SetStatus (bs "done") ∈ stmts → judged_done sid l
  | _ => True
  end.
Definition row_honest (sid : Uuid) (l : list (Uuid * DEvent)) (g : option GoalRow) : Prop :=
  ∀ r, g = Some r → g_status r = bs "done" → judged_done sid l.
Record honest (w : World) : Prop := mkHonest {
  ho_table : ∀ sid, row_honest sid (log w) (table w !! sid);
  ho_pc : ∀ id d, drivers w !! id = Some d → pc_honest (d_sid d) (log w) (d_pc d);
}.
Lemma judged_more sid l l' : l `prefix_of` l' → judged_done sid l → judged_done sid l'.
Proof. intros [m ->] (r & Hr & Hs). exists r. split; [apply elem_of_app; by left|done]. Qed.
Lemma pc_more sid l l' pc : l `prefix_of` l' → pc_honest sid l pc → pc_honest sid l' pc.
Proof.
  intros Hp. destruct pc; cbn; try done.
  - destruct Hp as [m ->]. intros ?. apply elem_of_app. by left.
  - intros H1 H2. eapply judged_more; [done|by apply H1].
Qed.
Lemma pause_not_done reason : SetStatus (bs "done") ∉ pause reason.
Proof. unfold pause. rewrite !elem_of_cons, elem_of_nil. by intros [?|[?|?]]. Qed.
Lemma finish_judged sid l fresh text cur r :
  (sid, Ruled r) ∈ l →
  pc_honest sid l (do_ (match r with RFlat v => rule_flat fresh v | RChunk v => rule_chunk fresh cur text v end)).
Proof.
  intros Hr. unfold do_, pc_honest. intros Hin. exists r. split; [done|]. apply not_false_iff_true. intros Hn. revert Hin.
  destruct r as [v|v]; cbn [says_done] in Hn.
  - apply bool_decide_eq_false in Hn. unfold rule_flat, next_action.
    destruct v; [done| |]; repeat case_match; simplify_eq; cbn [fst]; intros [?|Hin]%elem_of_cons; try done;
      try (by apply pause_not_done in Hin); by apply elem_of_nil in Hin.
  - unfold rule_chunk, advance_decision. rewrite Hn. cbn [andb].
    repeat case_match; simplify_eq; cbn [fst]; intros [?|Hin]%elem_of_cons; try done;
      try (by apply pause_not_done in Hin); by apply elem_of_nil in Hin.
Qed.
(** A step of a driver keeps its row and its place honest. *)
Lemma drive_honest sid l i granted cancelled g pc g' pc' ev :
  drive i granted cancelled g pc = (g', pc', ev) → row_honest sid l g → pc_honest sid l pc →
  row_honest sid (l ++ (pair sid <$> ev)) g' ∧ pc_honest sid (l ++ (pair sid <$> ev)) pc'.
Proof.
  intros Hd Hg Hpc. assert (l `prefix_of` l ++ (pair sid <$> ev)) as Hp by (by eexists).
  assert (row_honest sid (l ++ (pair sid <$> ev)) g) as Hg'.
  { intros r Hr Hs. eapply judged_more; [done|by apply (Hg r)]. }
  assert (∀ f : GoalRow → GoalRow, (∀ r, g_status (f r) = bs "done" → g_status r = bs "done" ∨ judged_done sid l) →
            row_honest sid (l ++ (pair sid <$> ev)) (f <$> g)) as Hf.
  { intros f Hfs r (r0 & Hr0 & ->)%fmap_Some Hs. eapply judged_more; [done|]. destruct (Hfs _ Hs) as [Hs'|?]; [by apply (Hg r0)|done]. }
  destruct pc as [| |row| |row|row|row text|row text r|fresh cur text|[|s stmts] k| |]; cbn [local] in Hd.
  all: try (repeat case_match; injection Hd as <- <- <-; (split; [exact Hg'|]); try done; cbn; rewrite ?elem_of_cons, elem_of_nil; by intros [?|[?|?]]).
  - destruct (i_ok i); injection Hd as <- <- <-; [split; [apply Hf; by left|done]|split; [exact Hg'|]]. cbn. by intros ?%list_elem_of_singleton.
  - destruct cancelled; injection Hd as <- <- <-; (split; [exact Hg'|]); [done|]. cbn.
    case_bool_decide; rewrite ?elem_of_cons, elem_of_nil; [by intros [?|?]|by intros [?|[?|?]]].
  - injection Hd as <- <- <-. split; [exact Hg'|]. cbn. apply elem_of_app. right. apply list_elem_of_here.
  - injection Hd as <- <- <-. split; [exact Hg'|]. apply finish_judged. apply elem_of_app. by left.
  - injection Hd as <- <- <-. split; [exact Hg'|]. cbn. case_bool_decide; cbn; rewrite ?elem_of_cons, elem_of_nil; [by intros [?|?]|by intros [?|[?|?]]].
  - injection Hd as <- <- <-. split; [exact Hg'|]. by destruct k.
  - injection Hd as <- <- <-. split.
    + destruct (i_ok i); [|exact Hg']. apply Hf. intros r. destruct s; cbn [exec]; try by left. cbn. intros ->. right. apply Hpc. by left.
    + cbn. intros Hin. eapply judged_more; [done|]. apply Hpc. by right.
Qed.
Lemma honest_more w w' : honest w → log w' = log w → drivers w' = drivers w →
  (∀ sid r, table w' !! sid = Some r → g_status r = bs "done" → ∃ r', table w !! sid = Some r' ∧ g_status r' = bs "done") → honest w'.
Proof.
  intros [H1 H2] Hl Hd Ht. constructor; [|rewrite Hl, Hd; exact H2]. intros sid r Hr Hs. rewrite Hl.
  destruct (Ht sid r Hr Hs) as (r' & Hr' & Hs'). by apply (H1 sid r').
Qed.
Lemma honest_same w w' : honest w → log w' = log w → table w' = table w →
  (∀ i d, drivers w' !! i = Some d → d_pc d = Top ∨ ∃ d', drivers w !! i = Some d' ∧ d_sid d = d_sid d' ∧ d_pc d = d_pc d') → honest w'.
Proof.
  intros [H1 H2] Hl Ht Hd. constructor; [by rewrite Hl, Ht|]. intros i d Hi. rewrite Hl.
  destruct (Hd i d Hi) as [->|(d' & Hi' & -> & ->)]; [done|by apply (H2 i)].
Qed.
Lemma honest_stop sid w : honest w → honest (stop sid w).
Proof.
  intros Hw. unfold stop. destruct (pool w !! sid) as [id|]; [|done]. apply honest_same with w; [done..|]. cbn. intros i d Hi. right.
  apply lookup_alter_Some in Hi as [(<- & d' & Hi & ->)|[_ Hi]]; [by exists d'|by exists d].
Qed.
Lemma honest_spawn sid w : honest w → honest (spawn_goal_driver sid w).
Proof.
  intros Hw. apply honest_same with w; [done..|]. cbn. intros i d Hi.
  apply lookup_insert_Some in Hi as [[_ <-]|[_ Hi]]; [by left|right; by exists d].
Qed.
Lemma honest_alter sid f w : honest w → (∀ r, g_status (f r) = bs "done" → g_status r = bs "done") → honest (on_table (alter f sid) w).
Proof.
  intros Hw Hf. apply honest_more with w; [done..|]. cbn. intros k r Hr Hs.
  apply lookup_alter_Some in Hr as [(<- & r' & Hr & ->)|[_ Hr]]; [exists r'; auto|by exists r].
Qed.
Lemma honest_insert sid r0 w : honest w → g_status r0 ≠ bs "done" → honest (on_table <[sid := r0]> w).
Proof.
  intros Hw Hn. apply honest_more with w; [done..|]. cbn. intros k r Hr Hs.
  apply lookup_insert_Some in Hr as [[_ <-]|[_ Hr]]; [done|by exists r].
Qed.
Lemma honest_lock sid w w' l : goal_lock sid w = (w', l) → honest w → honest w'.
Proof.
  unfold goal_lock. match goal with |- context [let '(_, _) := ?x in _] => destruct x end. intros [= <- _] Hw.
  apply honest_same with w; [done..|]. cbn. intros i d Hi. right. by exists d.
Qed.
Lemma honest_driver_step id i w : honest w → honest (driver_step id i w).
Proof.
  intros Hw. unfold driver_step. destruct (drivers w !! id) as [d|] eqn:Hid; [|done]. cbv zeta.
  destruct (drive _ _ _ _ _) as [[g pc] ev] eqn:Hd.
  destruct (drive_honest (d_sid d) (log w) _ _ _ _ _ _ _ _ Hd (ho_table _ Hw _) (ho_pc _ Hw _ _ Hid)) as [Hg Hpc].
  match goal with |- context [goal_lock _ ?x] => set (w1 := x) end. assert (honest w1) as Hw1.
  { constructor; cbn.
    - intros sid. destruct (decide (d_sid d = sid)) as [<-|Hne]; [rewrite lookup_partial_alter_eq; exact Hg|].
      rewrite lookup_partial_alter_ne by done. intros r Hr Hs. eapply judged_more; [by eexists|]. by apply (ho_table _ Hw sid r).
    - intros j e He. eapply pc_more; [by eexists|]. by apply (ho_pc _ Hw j). }
  assert (∀ w2 l, honest w2 → log w2 = log w1 → honest (on_drivers <[id := mkDriver (d_sid d) (d_cancel d) pc l]> w2)) as Hins.
  { intros w2 l [H1 H2] Hl. constructor; cbn; [done|]. intros j e He. apply lookup_insert_Some in He as [[_ <-]|[_ He]]; [|by apply (H2 j)].
    cbn. by rewrite Hl. }
  destruct (wants pc && negb (wants (d_pc d))); [|by apply Hins].
  destruct (goal_lock (d_sid d) w1) as [w2 l] eqn:Hgl. apply Hins; [by eapply honest_lock|].
  unfold goal_lock in Hgl. match goal with H : context [let '(_, _) := ?x in _] |- _ => destruct x end. by injection Hgl as <- _.
Qed.
Lemma honest_cron sid job text max w : honest w → honest (on_table (upsert_cron_goal sid job text max) w).
Proof.
  intros Hw. unfold upsert_cron_goal. apply honest_more with w; [done..|]. cbn. intros k r Hr Hs.
  apply lookup_insert_Some in Hr as [[_ <-]|[_ Hr]]; [exfalso; revert Hs; by case_match|].
  rewrite map_lookup_imap in Hr. destruct (table w !! k) as [r'|]; [|done]. cbn in Hr. exists r'. split; [done|].
  destruct (_ && _); by injection Hr as <-.
Qed.
Lemma honest_step a w : honest w → honest (step a w).
Proof.
  intros Hw. destruct a; cbn [step].
  - by apply honest_driver_step.
  - unfold user_turn_goal_guard. destruct (users w !! u); [done|]. destruct (goal_lock sid w) as [w1 l] eqn:Hgl.
    eapply honest_same; [by eapply honest_lock|done|done|]. intros i d Hi. right. by exists d.
  - destruct (users w !! u) as [x|]; [|done]. destruct (free _ _); [|done]. eapply honest_same; [done..|]. intros i d Hi. right. by exists d.
  - eapply honest_same; [done..|]. intros i d Hi. right. by exists d.
  - apply honest_insert; [done|]. by destruct (table w !! sid).
  - by apply honest_cron.
  - apply honest_insert; [done|]. by destruct (table w !! sid).
  - apply honest_alter; [done|]. intros r Hr. by destruct active.
  - by apply honest_alter.
  - by apply honest_alter.
  - apply honest_more with w; [done..|]. cbn. unfold clear. intros k r Hr Hs. apply lookup_delete_Some in Hr as [_ Hr]. by exists r.
  - apply honest_more with w; [done..|]. cbn. intros k r Hr Hs. unfold try_cancel_goal in Hr.
    destruct (table w !! sid) as [r0|]; [|by exists r]. destruct (_ && _); [|by exists r]. cbn in Hr.
    apply lookup_insert_Some in Hr as [[_ <-]|[_ Hr]]; [done|by exists r].
  - by apply honest_spawn, honest_stop.
  - by apply honest_spawn.
  - by apply honest_stop.
  - destruct (drivers w !! id) as [d|]; [|done]. destruct (d_cancel d); [|done]. apply honest_same with w; [done..|]. cbn. intros j e He. right.
    apply lookup_delete_Some in He as [_ He]. by exists e.
Qed.
Lemma honest_run acts w : honest w → honest (run acts w).
Proof. revert w. induction acts as [|a acts IH]; intros w Hw; [done|]. by apply IH, honest_step. Qed.
Lemma honest_empty : honest empty_world.
Proof. constructor; [intros sid r Hx|intros i d Hx]; by destruct (lookup_empty_Some _ _ Hx). Qed.

(** A goal is done only when the judge said so: whatever happens, a goal whose
    status is done has been ruled done, or its last chunk has, after a turn of
    its session. *)
Theorem done_was_judged acts sid r :
  table (run acts empty_world) !! sid = Some r → g_status r = bs "done" →
  ∃ ruling, (sid, Ruled ruling) ∈ log (run acts empty_world) ∧
    match ruling with RFlat v => v = VDone | RChunk v => chunk_done v = true end.
Proof.
  intros Hr Hs. destruct (ho_table _ (honest_run acts _ honest_empty) sid r Hr Hs) as (x & Hx & Hd). exists x. split; [done|].
  destruct x as [v|v]; [by apply bool_decide_eq_true in Hd|done].
Qed.
End world.

(** ** After a restart *)

Section restart.
Context {V : Type} `{Json V, JsonArrays V}.
Abbreviation SDb := (Sessions.Db (V:=V)).

(** Times are microseconds; [staleness_secs] and backoffs are seconds. *)
Definition redrivable (staleness_secs max_retries now : Z) (g : GoalRow) (s : SessionRow) : bool :=
  is_running g && (bool_decide (origin g = bs "cron") || bool_decide (origin g = bs "initiative")) &&
  status_among ["interrupted"; "done"] s && (s_retries s <? max_retries)%Z &&
  match next_redrive_at g with None => true | Some t => (t <=? now)%Z end &&
  (now - staleness_secs * 1000000 <? s_last s)%Z && negb (day_plan_managed g).
Definition JoinRow : Type := Uuid * GoalRow * SessionRow.
(** The goals with their sessions, the longest silent first. *)
Definition join_goals (p : GoalRow → SessionRow → bool) (t : GoalTable) (db : SDb) : list JoinRow :=
  sort_by (λ a b : JoinRow, (s_last a.2 <? s_last b.2)%Z)
    (omap (λ e : Uuid * GoalRow, match sessions db !! e.1 with
                                 | Some s => if p e.2 s then Some (e.1, e.2, s) else None
                                 | None => None
                                 end) (map_to_list t)).
(* @src opex-core/src/db/session_goals.rs 257-283 list_redrivable *)
Definition list_redrivable (staleness_secs max_retries now : Z) (t : GoalTable) (db : SDb) : list JoinRow :=
  join_goals (redrivable staleness_secs max_retries now) t db.
(* @src opex-core/src/db/session_goals.rs 395-422 list_interrupted_interactive_goals *)
Definition list_interrupted_interactive_goals (staleness_secs now : Z) (t : GoalTable) (db : SDb) : list JoinRow :=
  join_goals (λ g s, is_running g && bool_decide (origin g = bs "goal") && (now - staleness_secs * 1000000 <? s_last s)%Z) t db.

Record Boot := mkBoot { b_db : SDb; b_table : GoalTable; b_started : list Uuid }.
(** What the process finds: the agents it has, the drivers that already run, and
    the statements the database carries out. *)
Record Env := mkEnv { has_engine : str → bool; runs : Uuid → bool; claim_ok : Uuid → bool; gate_ok : Uuid → bool; flag_ok : Uuid → bool }.
Definition backoff_secs (retry : Z) : Z := 60 * 2 ^ (Z.max 0 (Z.min 8 retry)).
Definition resume_one (env : Env) (max_retries now : Z) (b : Boot) (rg : JoinRow) : Boot :=
  let '(sid, _, s) := rg in
  if negb (has_engine env (s_agent s)) then b
  else if runs env sid then b
  else if negb (claim_ok env sid) then b
  else match claim_redrive sid max_retries (b_db b) with
       | (_, None) => b
       | (db, Some retry) =>
           let t := if gate_ok env sid then alter (set_next_redrive_at (now + backoff_secs retry * 1000000)) sid (b_table b) else b_table b in
           let t := if flag_ok env sid then alter (set_decompose_failed false) sid t else t in
           mkBoot db t (b_started b ++ [sid])
       end.
Definition STALENESS_SECS : Z := 6 * 3600.
Definition MAX_RETRIES : Z := 3.
Definition MAX_PER_BOOT : nat := 5.
(** [disabled]: [OPEX_DISABLE_REDRIVE] is set. *)
(* @src opex-core/src/main.rs 1014-1097 resume_autonomous_goals *)
Definition resume_autonomous_goals (disabled : bool) (env : Env) (now : Z) (t : GoalTable) (db : SDb) : Boot :=
  if disabled then mkBoot db t [] else
  foldl (resume_one env MAX_RETRIES now) (mkBoot db t [])
    (take MAX_PER_BOOT (list_redrivable STALENESS_SECS MAX_RETRIES now t db)).
(** The owner is told and the goal paused; told again at the next start if that
    failed. *)
(* @src opex-core/src/main.rs 1106-1162 notify_interrupted_interactive_goals *)
Definition notify_interrupted_interactive_goals (notify_ok pause_ok : Uuid → bool) (now : Z) (t : GoalTable) (db : SDb) : GoalTable * list Uuid :=
  foldl (λ (acc : GoalTable * list Uuid) (e : JoinRow),
           let '(t, told) := acc in let sid := e.1.1 in
           if negb (notify_ok sid) then (t, told)
           else (if pause_ok sid then alter (set_status (bs "paused")) sid t else t, told ++ [sid]))
    (t, []) (list_interrupted_interactive_goals STALENESS_SECS now t db).

Lemma join_goals_elem p t (db : SDb) sid g s :
  (sid, g, s) ∈ join_goals p t db ↔ t !! sid = Some g ∧ sessions db !! sid = Some s ∧ p g s = true.
Proof.
  unfold join_goals. rewrite sort_by_perm, list_elem_of_omap. split.
  - intros ([k r] & Hk%elem_of_map_to_list & Hc). cbn in Hc. destruct (sessions db !! k) as [s'|] eqn:Hs; [|done].
    destruct (p r s') eqn:Hp; [|done]. by injection Hc as <- <- <-.
  - intros (Hg & Hs & Hp). exists (sid, g). split; [by apply elem_of_map_to_list|]. cbn. by rewrite Hs, Hp.
Qed.
Lemma join_goals_ids p t (db : SDb) : NoDup (join_goals p t db).*1.*1.
Proof.
  unfold join_goals. rewrite sort_by_perm. pose proof (NoDup_fst_map_to_list t) as Hnd. revert Hnd.
  induction (map_to_list t) as [|[k r] l IH]; cbn; [by constructor|]. intros [Hk Hnd]%NoDup_cons. specialize (IH Hnd).
  destruct (sessions db !! k) as [s|]; [|done]. destruct (p r s); [|done]. cbn. constructor; [|done]. intros Hin. apply Hk.
  apply list_elem_of_fmap in Hin as ([k' r'] & -> & Hin). apply list_elem_of_fmap in Hin as ([[k2 r2] s2] & [= -> ->] & Hin).
  apply list_elem_of_omap in Hin as ([k3 r3] & Hin & Hc). cbn in Hc. destruct (sessions db !! k3); [|done]. destruct (p r3 _); [|done].
  injection Hc as -> -> ->. apply list_elem_of_fmap. by exists (k2, r2).
Qed.

(** A claimed session, and the others. *)
Lemma claimed_row sid max (db db' : SDb) n : claim_redrive sid max db = (db', Some n) →
  (∀ k, k ≠ sid → sessions db' !! k = sessions db !! k) ∧
  ∃ s, sessions db !! sid = Some s ∧ sessions db' !! sid = Some (retry_row s) ∧ n = (s_retries s + 1)%Z.
Proof.
  unfold claim_redrive, update_session. destruct (sessions db !! sid) as [s|] eqn:Hs; [|by intros [=]].
  destruct (_ && _); [|by intros [=]]. intros [= <- Hn]. unfold on_sessions in *; cbn [sessions] in *.
  rewrite lookup_insert_eq in Hn. cbn in Hn. injection Hn as <-. split.
  - intros k Hk. by rewrite lookup_insert_ne.
  - exists s. split; [done|]. split; [apply lookup_insert_eq|done].
Qed.
(** What a started session looks like afterwards. *)
Definition redriven (env : Env) (now : Z) (t t' : GoalTable) (db db' : SDb) (sid : Uuid) : Prop :=
  ∃ s, sessions db !! sid = Some s ∧ sessions db' !! sid = Some (retry_row s) ∧
    ∀ g, t !! sid = Some g → ∃ g', t' !! sid = Some g' ∧ g_status g' = g_status g ∧
      (gate_ok env sid = true → next_redrive_at g' = Some (now + backoff_secs (s_retries s + 1) * 1000000)%Z).
Lemma resume_one_spec env max now b sid g s :
  let b' := resume_one env max now b (sid, g, s) in
  b' = b ∨
  (b_started b' = b_started b ++ [sid] ∧ has_engine env (s_agent s) = true ∧ runs env sid = false ∧
   (∀ k, k ≠ sid → b_table b' !! k = b_table b !! k ∧ sessions (b_db b') !! k = sessions (b_db b) !! k) ∧
   redriven env now (b_table b) (b_table b') (b_db b) (b_db b') sid).
Proof.
  cbn [resume_one]. destruct (has_engine env (s_agent s)); [|by left]. destruct (runs env sid); [by left|]. destruct (claim_ok env sid); [|by left].
  cbn [negb]. destruct (claim_redrive sid max (b_db b)) as [db [n|]] eqn:Hc; [|by left]. right. cbn [b_started b_table b_db].
  destruct (claimed_row _ _ _ _ _ Hc) as (Hk & s' & Hs & Hs' & ->). split; [done|]. split; [done|]. split; [done|]. split.
  - intros k Hne. rewrite Hk by done. split; [|done]. destruct (flag_ok env sid), (gate_ok env sid); by rewrite ?lookup_alter_ne.
  - exists s'. split; [done|]. split; [done|]. intros g0 Hg. destruct (flag_ok env sid), (gate_ok env sid);
      rewrite ?lookup_alter_eq, Hg; by eexists.
Qed.
Lemma resume_fold env max now l b :
  NoDup l.*1.*1 →
  let b' := foldl (resume_one env max now) b l in
  ∃ new, b_started b' = b_started b ++ new ∧ new `sublist_of` l.*1.*1 ∧
    (∀ sid, sid ∉ new → b_table b' !! sid = b_table b !! sid ∧ sessions (b_db b') !! sid = sessions (b_db b) !! sid) ∧
    ∀ sid, sid ∈ new → (∃ g s, (sid, g, s) ∈ l ∧ has_engine env (s_agent s) = true ∧ runs env sid = false) ∧
      redriven env now (b_table b) (b_table b') (b_db b) (b_db b') sid.
Proof.
  revert b. induction l as [|[[sid g] s] l IH]; intros b Hnd; cbn [foldl].
  { exists []. rewrite app_nil_r. split; [done|]. split; [done|]. split; [done|]. by intros sid ?%not_elem_of_nil. }
  cbn in Hnd. apply NoDup_cons in Hnd as [Hsid Hnd].
  destruct (IH (resume_one env max now b (sid, g, s)) Hnd) as (new & Hst & Hsub & Hout & Hin). cbv zeta in *.
  set (b1 := resume_one env max now b (sid, g, s)) in *. set (b2 := foldl (resume_one env max now) b1 l) in *.
  assert (∀ k, k ∈ new → k ≠ sid) as Hne by (intros k Hk ->; apply Hsid; by eapply elem_of_sublist).
  assert (∀ k, k ∈ new → ∃ g' s0, (k, g', s0) ∈ (sid, g, s) :: l ∧ has_engine env (s_agent s0) = true ∧ runs env k = false) as Hl.
  { intros k Hk. destruct (Hin k Hk) as [(g0 & s0 & Hl & Hr) _]. exists g0, s0. split; [by right|done]. }
  destruct (resume_one_spec env max now b sid g s) as [Heq|(Hs1 & He & Hr & Hk1 & Hd1)]; [fold b1 in Heq|fold b1 in Hs1, Hk1, Hd1].
  - exists new. rewrite Heq in *. split; [done|]. split; [by constructor|]. split; [done|]. intros k Hk. split; [by apply Hl|exact (proj2 (Hin k Hk))].
  - exists (sid :: new). split; [by rewrite Hst, Hs1, <- (assoc_L (++))|]. split; [by constructor|]. split.
    + intros k [Hks Hkn]%not_elem_of_cons. destruct (Hout k Hkn) as [-> ->]. by apply Hk1.
    + intros k [->|Hk]%elem_of_cons.
      * split; [exists g, s; split; [apply list_elem_of_here|done]|]. destruct Hd1 as (s' & H1 & H2 & H3).
        destruct (Hout sid) as [Ht Hss]; [intros Hk; by apply (Hne sid)|]. exists s'. rewrite Hss, Ht. done.
      * split; [by apply Hl|]. destruct (Hin k Hk) as [_ (s' & H1 & H2 & H3)]. destruct (Hk1 k (Hne k Hk)) as [Ht Hss].
        exists s'. rewrite <- Hss, <- Ht. done.
Qed.

(** A restart takes up only autonomous goals: at most five, each once, whose
    row was active, from a schedule or an approved proposal and not part of a day
    plan, whose session was interrupted or done with less than three retries,
    and which no driver runs; such a session is claimed and counts one retry
    more, and its goal waits before the next attempt twice as long each time.
    No other goal and no other session changes, so the chats of people stay as
    they are. *)
Theorem redrive_only_autonomous disabled env now t (db : SDb) :
  let b := resume_autonomous_goals disabled env now t db in
  length (b_started b) ≤ 5 ∧ NoDup (b_started b) ∧
  (∀ sid, sid ∉ b_started b → b_table b !! sid = t !! sid ∧ sessions (b_db b) !! sid = sessions db !! sid) ∧
  ∀ sid, sid ∈ b_started b →
    runs env sid = false ∧
    (∃ g s, t !! sid = Some g ∧ sessions db !! sid = Some s ∧ is_running g = true ∧
       (origin g = bs "cron" ∨ origin g = bs "initiative") ∧ day_plan_managed g = false ∧
       status_among ["interrupted"; "done"] s = true ∧ (s_retries s < 3)%Z) ∧
    redriven env now t (b_table b) db (b_db b) sid.
Proof.
  unfold resume_autonomous_goals. destruct disabled; cbv zeta.
  { cbn. split; [lia|]. split; [by constructor|]. split; [done|]. by intros sid ?%not_elem_of_nil. }
  set (l := list_redrivable _ _ _ _ _).
  assert (NoDup (take MAX_PER_BOOT l).*1.*1) as Hnd by (rewrite !fmap_take; eapply sublist_NoDup; [apply join_goals_ids|apply sublist_take]).
  destruct (resume_fold env MAX_RETRIES now _ (mkBoot db t []) Hnd) as (new & Hst & Hsub & Hout & Hin). cbv zeta in *. cbn [b_started b_table b_db app] in *.
  rewrite Hst. split; [|split; [by eapply sublist_NoDup|]].
  - pose proof (sublist_length _ _ Hsub) as Hlen. rewrite !length_fmap, length_take in Hlen. unfold MAX_PER_BOOT in Hlen. lia.
  - split; [done|]. intros sid Hs. destruct (Hin sid Hs) as [(g & s & Hl & _ & Hr) Hd]. split; [done|]. split; [|done].
    exists g, s. apply elem_of_take in Hl as (i & Hl & _). apply list_elem_of_lookup_2, join_goals_elem in Hl as (Hg & Hss & Hp).
    split; [done|]. split; [done|]. unfold redrivable, MAX_RETRIES in Hp. bool_hyps. split; [done|].
    split; [match goal with Ho : (_ || _) = true |- _ => apply orb_true_iff in Ho as [Ho|Ho]; bool_hyps; [by left|by right] end|]. split; [done|]. split; [done|lia].
Qed.
End restart.

(** ** Examples *)

Module GoalsWitness.
Definition no_fence (_ : str) : option str := None.
Definition no_fix (s : str) : str := s.
Definition no_block (_ : str) : bool := false.
#[local] Abbreviation solo_ plan := (solo (V:=Jv.t) no_fence no_fix no_block plan).
#[local] Abbreviation run_ plan := (run (V:=Jv.t) no_fence no_fix no_block plan).
Definition row3 : GoalRow := new_goal (bs "ship it") 3 (bs "goal") None.
(** Nobody answers: the judge's errors count as going on, until the turns are used up. *)
Lemma flat_witness :
  ∃ row' tr vs, solo_ false (λ _ _, None) (Some row3, Top, []) (Some row', Gone, tr) ∧ ends_with_verdicts row3 vs ∧
    turn_count row' = (0 + Z.of_nat (length vs))%Z.
Proof.
  destruct (flat_goal_runs (V:=Jv.t) no_fence no_fix no_block false (λ _ _, None) row3) as (row' & tr & vs & Hs & _ & _ & He & Ht & _);
    [reflexivity|reflexivity|reflexivity|]. exists row', tr, vs. split; [exact Hs|]. split; [exact He|exact Ht].
Defined.
Definition two_chunks : GoalRow := set_subgoals [bs "a"; bs "b"] (new_goal (bs "ship it") 3 (bs "initiative") None).
Lemma plan_witness :
  ∃ row' tr, solo_ true (λ _ _, None) (Some two_chunks, Top, []) (Some row', Gone, tr) ∧ plan_outcome two_chunks tr row'.
Proof.
  apply (plan_in_order (V:=Jv.t) no_fence no_fix no_block true (λ _ _, None) two_chunks).
  constructor; [reflexivity|reflexivity|cbn; lia|vm_compute; lia].
Defined.

(** Some answers a model gives. *)
Definition answers (s : str) : option Jv.t :=
  if bool_decide (s = bs "{done}") then Some (Jv.Obj [(bs "done", Jv.Bool true)])
  else if bool_decide (s = bs "{chunk}") then Some (Jv.Obj [(bs "chunk_done", Jv.Bool true)])
  else if bool_decide (s = bs "{plan}") then Some (Jv.Obj [(bs "chunks", Jv.Arr [Jv.Str (bs "a"); Jv.Str (bs "b")])])
  else None.
Definition answering : Json Jv.t := {|
  jget := jget; jas_str := jas_str; jas_bool := jas_bool; jis_object := jis_object; jinsert := jinsert; jremove := jremove;
  jstring := jstring; jempty := jempty; jnull := jnull; jis_null := jis_null; jparse := answers; jprint := jprint |}.
#[local] Abbreviation world plan acts := (run (V:=Jv.t) (H:=answering) no_fence no_fix no_block plan acts empty_world).
Definition go (n : nat) (id : nat) : list Action := replicate n (ADriver id (mkInput true None)).
Definition hear (id : nat) (t : string) : list Action := [ADriver id (mkInput true (Some (bs t)))].
Definition status_of (sid : Uuid) (w : World) : option (str * str * Z) :=
  (λ r, (goal_text r, g_status r, turn_count r)) <$> table w !! sid.
(** A goal is set, worked on for a turn and ruled done. *)
Definition reached : list Action := goal_command 1 (GSet (bs "old")) true ++ go 6 0 ++ hear 0 "{done}" ++ go 3 0.
Lemma done_witness : ∃ ruling, (1%Z, Ruled ruling) ∈ log (world false reached) ∧
  match ruling with RFlat v => v = VDone | RChunk v => chunk_done v = true end.
Proof.
  destruct (table (world false reached) !! 1%Z) as [r|] eqn:Hr; [|exfalso; vm_compute in Hr; discriminate Hr].
  refine (done_was_judged (V:=Jv.t) (H:=answering) no_fence no_fix no_block false reached 1 r Hr _).
  assert (g_status <$> table (world false reached) !! 1%Z = Some (bs "done")) as Hd by (vm_compute; reflexivity).
  rewrite Hr in Hd. cbn [fmap option_fmap option_map] in Hd. apply (inj Some) in Hd. exact Hd.
Defined.
(** The ruling on the old goal comes after a new one was set: the new goal is done
    without a turn. *)
Example old_ruling_ends_new_goal :
  status_of 1 (world false (goal_command 1 (GSet (bs "old")) true ++ go 6 0 ++ goal_command 1 (GSet (bs "new")) true ++
                            hear 0 "{done}" ++ go 3 0)) = Some (bs "new", bs "done", 0%Z).
Proof. vm_compute. reflexivity. Qed.
(** The driver that was stopped takes the handle of its successor out of the pool
    when it ends; nobody can stop that one any more, and a further command puts a
    second driver beside it. *)
Definition replaced : list Action :=
  goal_command 1 (GSet (bs "old")) true ++ go 3 0 ++ goal_command 1 (GSet (bs "new")) true ++ go 2 0.
Example successor_forgotten :
  let w := world false replaced in
  driver_running 1 w = false ∧ (d_pc <$> drivers w !! 2 = Some Top) ∧
  let w := world false (replaced ++ goal_command 1 GResume true) in
  (d_cancel <$> drivers w !! 2 = Some false) ∧ (d_cancel <$> drivers w !! 3 = Some false).
Proof. cbv zeta. split_and!; vm_compute; reflexivity. Qed.
(** Both pass the budget before either of them has had its turn. *)
Example budget_exceeded :
  status_of 1 (world false ([AUpsert 1 (bs "g") 1; ASpawn 1; ASpawn 1] ++ go 2 0 ++ go 2 1 ++ go 3 0 ++ go 3 1)) =
    Some (bs "g", bs "active", 2%Z).
Proof. vm_compute. reflexivity. Qed.
(** After the budget a goal cannot be resumed: its turns stay counted. *)
Example resume_stalls :
  let acts := [AUpsert 1 (bs "g") 1; ASpawn 1] ++ go 20 0 in
  status_of 1 (world false acts) = Some (bs "g", bs "paused", 1%Z) ∧
  status_of 1 (world false (acts ++ goal_command 1 GResume true ++ go 20 2)) = Some (bs "g", bs "paused", 1%Z).
Proof. split; vm_compute; reflexivity. Qed.
(** A new goal in a session keeps the criteria of the last. *)
Example criteria_kept :
  subgoals <$> table (world false [AUpsert 1 (bs "old") 20; ASubgoals 1 [bs "tests pass"]; AUpsert 1 (bs "new") 20]) !! 1%Z = Some [bs "tests pass"].
Proof. vm_compute. reflexivity. Qed.
(** The plan cannot be stored: it is made again and again, and no turn is counted. *)
Example plan_made_again :
  let round := go 2 0 ++ hear 0 "{plan}" ++ [ADriver 0 (mkInput false None); ADriver 0 (mkInput true None)] ++ go 1 0 in
  let w := world true ([AInitiative 1 (bs "g") 20; ASpawn 1] ++ round ++ round ++ round) in
  status_of 1 w = Some (bs "g", bs "active", 0%Z) ∧ (d_pc <$> drivers w !! 0 = Some Top).
Proof. cbv zeta. split; vm_compute; reflexivity. Qed.
(** The chunk ruled done on the last turn is not counted. *)
Example last_chunk_not_counted :
  let w := world true ([AInitiative 1 (bs "g") 1; ASubgoals 1 [bs "a"; bs "b"]; ASpawn 1] ++ go 6 0 ++ hear 0 "{chunk}" ++ go 6 0) in
  status_of 1 w = Some (bs "g", bs "paused", 1%Z) ∧ (current_chunk <$> table w !! 1%Z = Some 0%Z).
Proof. cbv zeta. split; vm_compute; reflexivity. Qed.

Definition crashed : SessionRow := mkSession (bs "bot") (bs "system") (bs "cron") None (Some (bs "interrupted")) 1000000 None 0.
Definition after_crash : Sessions.Db (V:=Jv.t) := mkDb {[ 7%Z := crashed ]} [] [] ∅ [].
Definition all_fine : Env := mkEnv (λ _, true) (λ _, false) (λ _, true) (λ _, true) (λ _, true).
Definition cron_goals : GoalTable := upsert_cron_goal 7 1 (bs "report") 20 ∅.
Lemma boot_witness :
  b_started (resume_autonomous_goals false all_fine 2000000 cron_goals after_crash) = [7%Z] ∧
  NoDup (b_started (resume_autonomous_goals false all_fine 2000000 cron_goals after_crash)).
Proof.
  destruct (redrive_only_autonomous false all_fine 2000000 cron_goals after_crash) as (_ & Hnd & _).
  split; [vm_compute; reflexivity|exact Hnd].
Defined.
(** Goals whose agent is gone take the places of a boot. *)
Example unknown_agents_block :
  let db : Sessions.Db (V:=Jv.t) := mkDb (list_to_map ((λ i : Z, (i, mkSession (if (i <=? 5)%Z then bs "gone" else bs "bot") (bs "system") (bs "cron") None
                 (Some (bs "interrupted")) (1000000 + i) None 0)) <$> [1; 2; 3; 4; 5; 6]%Z)) [] [] ∅ [] in
  let t := foldr (λ i, upsert_cron_goal i (Z.to_nat i) (bs "report") 20) ∅ [1; 2; 3; 4; 5; 6]%Z in
  b_started (resume_autonomous_goals false (mkEnv (λ a, bool_decide (a = bs "bot")) (λ _, false) (λ _, true) (λ _, true) (λ _, true)) 2000000 t db) = [].
Proof. vm_compute. reflexivity. Qed.
Example commands :
  parse_goal_command (bs "  PAUSE ") = GPause ∧ parse_goal_command [] = GStatus ∧ parse_goal_command (bs "Ship it") = GSet (bs "Ship it") ∧
  parse_subgoal_command (bs "remove 2") = SRemove 2 ∧ parse_subgoal_command (bs "remove two") = SAdd (bs "remove two").
Proof. split_and!; vm_compute; reflexivity. Qed.
End GoalsWitness.
