(* ===== verification/Plans.v ===== *)
(** * Initiative

    An agent may propose goals of its own, and a plan for the day; nothing of
    that runs before its owner, or the configuration, agrees.  The table of
    [db/agent_plans.rs], the ticks of [agent/initiative/tick.rs] and
    [agent/initiative/day_plan.rs], the decisions of
    [gateway/handlers/agents/initiative.rs] and the buttons of
    [gateway/handlers/channel_ws/inline.rs].

    The model has one agent.  A tick is suspended while the model writes, so the
    owner's clicks, other ticks and the drivers of [Goals] come in between;
    [step] is what one party does at a time.  Days are numbers. *)
From Stdlib Require Import Sorted.
From S2P Require Import Prelude Messages Json Text ModelText Goals.

(** ** The table *)

(* @src opex-core/src/db/agent_plans.rs 9-16 Proposal *)
Record Proposal := mkProposal { p_id : nat; p_text : str; p_status : str; p_created : Z; p_acted : option Z }.
(* @src opex-core/src/db/agent_plans.rs 21-26 DayIntent *)
Record DayIntent := mkIntent { it_session : option Uuid; it_intent : str; it_status : str }.
(* @src opex-core/src/db/agent_plans.rs 29-47 PlanRow *)
Record PlanRow := mkPlan {
  current_focus : option str;
  proposals : list Proposal;
  last_proposal_at : option Z;
  proposals_today : Z;
  proposal_day : option Z;
  day_plan : list DayIntent;
  day_plan_current : Z;
  day_plan_date : option Z;
  day_plan_status : option str;
}.
(* @src opex-core/src/db/agent_plans.rs 55-74 get_or_create *)
Definition get_or_create (p : option PlanRow) : PlanRow :=
  default (mkPlan None [] None 0 None [] 0 None None) p.
(* @src opex-core/src/db/agent_plans.rs 76-85 set_focus *)
Definition set_focus (f : str) (r : PlanRow) : PlanRow :=
  mkPlan (Some f) (proposals r) (last_proposal_at r) (proposals_today r) (proposal_day r) (day_plan r) (day_plan_current r) (day_plan_date r) (day_plan_status r).
(** Appended if the counter is another day's or under the cap. *)
(* @src opex-core/src/db/agent_plans.rs 89-116 try_add_proposal *)
Definition try_add_proposal (today cap now : Z) (p : Proposal) (r : PlanRow) : PlanRow * bool :=
  let same := bool_decide (proposal_day r = Some today) in
  if negb same || (proposals_today r <? cap)%Z then
    (mkPlan (current_focus r) (proposals r ++ [p]) (Some now) (if same then proposals_today r + 1 else 1) (Some today)
       (day_plan r) (day_plan_current r) (day_plan_date r) (day_plan_status r), true)
  else (r, false).
Definition pending (id : nat) (p : Proposal) : bool := bool_decide (p_id p = id) && bool_decide (p_status p = bs "pending").
Definition act_on (status : str) (now : Z) (p : Proposal) : Proposal := mkProposal (p_id p) (p_text p) status (p_created p) (Some now).
Definition with_proposals (l : list Proposal) (r : PlanRow) : PlanRow :=
  mkPlan (current_focus r) l (last_proposal_at r) (proposals_today r) (proposal_day r) (day_plan r) (day_plan_current r) (day_plan_date r) (day_plan_status r).
(* @src opex-core/src/db/agent_plans.rs 120-182 try_set_proposal_status, try_set_proposal_status_tx *)
Definition try_set_proposal_status (id : nat) (status : str) (now : Z) (r : PlanRow) : PlanRow * option Proposal :=
  match position (pending id) (proposals r) with
  | Some i => (with_proposals (alter (act_on status now) i (proposals r)) r, act_on status now <$> proposals r !! i)
  | None => (r, None)
  end.
Definition with_day_plan (l : list DayIntent) (cur : Z) (date : option Z) (status : option str) (r : PlanRow) : PlanRow :=
  mkPlan (current_focus r) (proposals r) (last_proposal_at r) (proposals_today r) (proposal_day r) l cur date status.
(* @src opex-core/src/db/agent_plans.rs 185-192 set_day_plan *)
Definition set_day_plan (l : list DayIntent) (date : Z) (status : option str) (r : PlanRow) : PlanRow :=
  with_day_plan l 0 (Some date) status r.
(* @src opex-core/src/db/agent_plans.rs 194-198 set_day_plan_status *)
Definition set_day_plan_status (status : option str) (r : PlanRow) : PlanRow :=
  with_day_plan (day_plan r) (day_plan_current r) (day_plan_date r) status r.
(* @src opex-core/src/db/agent_plans.rs 201-206 set_day_plan_pointer *)
Definition set_day_plan_pointer (cur : Z) (l : list DayIntent) (r : PlanRow) : PlanRow :=
  with_day_plan l cur (day_plan_date r) (day_plan_status r) r.
(* @src opex-core/src/db/agent_plans.rs 211-223 try_start_day_plan_approval_tx *)
Definition try_start_day_plan_approval_tx (date : Z) (r : PlanRow) : option (PlanRow * list DayIntent) :=
  if bool_decide (day_plan_status r = Some (bs "pending")) && bool_decide (day_plan_date r = Some date) && negb (bool_decide (day_plan r = []))
  then Some (set_day_plan_status (Some (bs "approved")) r, day_plan r) else None.
(* @src opex-core/src/db/agent_plans.rs 227-233 try_dismiss_day_plan *)
Definition try_dismiss_day_plan (date : Z) (r : PlanRow) : PlanRow * bool :=
  if bool_decide (day_plan_status r = Some (bs "pending")) && bool_decide (day_plan_date r = Some date)
  then (set_day_plan_status (Some (bs "dismissed")) r, true) else (r, false).
(* @src opex-core/src/db/agent_plans.rs 236-244 set_day_plan_intents_tx *)
Definition set_day_plan_intents_tx (l : list DayIntent) (r : PlanRow) : PlanRow :=
  with_day_plan l 0 (day_plan_date r) (day_plan_status r) r.

(** ** Gates and filters *)

(* @src opex-core/src/agent/initiative/mod.rs 11-16 effective_today_count *)
Definition effective_today_count (day : option Z) (stored today : Z) : Z :=
  if bool_decide (day = Some today) then Z.max 0 stored else 0.
(* @src opex-core/src/agent/initiative/mod.rs 20-32 should_propose *)
Definition should_propose (last latest_reflection : option Z) (count cap : Z) : bool :=
  match latest_reflection with
  | None => false
  | Some refl => match last with Some l => (l <? refl)%Z | None => true end && (count <? cap)%Z
  end.
Fixpoint dedup_go (limit : nat) (seen rows : list str) : list str :=
  match rows with
  | [] => seen
  | r :: rows =>
      if bool_decide (r ∈ seen) then dedup_go limit seen rows
      else if limit <=? length seen + 1 then seen ++ [r] else dedup_go limit (seen ++ [r]) rows
  end.
(* @src opex-core/src/agent/initiative/tick.rs 207-219 dedup_threads *)
Definition dedup_threads (rows : list str) (limit : nat) : list str := dedup_go limit [] rows.
(** [budget]: an unsigned number; a negative sum counts as spent. *)
(* @src opex-core/src/agent/initiative/day_plan.rs 23-26 within_token_budget *)
Definition within_token_budget (spend_today budget : Z) : bool :=
  let spent := if (spend_today <? 0)%Z then umax 64 else spend_today in (0 <? budget)%Z && (spent <? budget)%Z.
(* @src opex-core/src/agent/initiative/day_plan.rs 99-107 plan_advance *)
Definition plan_advance (current len : nat) (finished : bool) : nat * bool :=
  if len <=? current then (current + 1, true)
  else if finished then (current + 1, len <=? current + 1) else (current, false).

Section initiative.
(** The scan of [content_security], and Unicode's lower case and alphanumeric
    characters. *)
Context (scan_for_block : str → bool) (to_lowercase : str → str) (alphanumeric : str → bool).
Definition EVENT_MAX_CHARS : nat := 300.
Definition sanitize (t : str) : option str := sanitize_soul_text scan_for_block t EVENT_MAX_CHARS.
Definition NON_ANSWERS : list str :=
  [bs "na"; bs "none"; bs "null"; bs "nogoal"; bs "nothing"; bs "нет"; bs "нетцели"; bs "нетпредложений"; bs "нечего";
   bs "нечегопредложить"; bs "неприменимо"; bs "нетидей"].
(* @src opex-core/src/agent/initiative/mod.rs 76-89 is_trivial_goal *)
Definition is_trivial_goal (goal : str) : bool :=
  let t := trim goal in
  if char_count t <? 6 then true
  else bool_decide (concat (List.filter alphanumeric (chars (to_lowercase t))) ∈ NON_ANSWERS).
Definition MAX_DAY_INTENTS : nat := 4.
(* @src opex-core/src/agent/initiative/day_plan.rs 30-36 select_intents *)
Definition select_intents (raw : list str) : list str :=
  take MAX_DAY_INTENTS (List.filter (λ s, negb (is_trivial_goal s)) (omap sanitize raw)).
(* @src opex-core/src/agent/initiative/mod.rs 37-71 render_focus_block *)
Definition render_focus_block (focus : str) (active_goals : list str) : option str :=
  let focus := trim (default [] (sanitize focus)) in
  let goals := List.filter (λ g, negb (bool_decide (g = []))) (trim <$> omap sanitize active_goals) in
  if bool_decide (focus = []) && bool_decide (goals = []) then None else
  Some (bs "<current_focus note=" ++ quoted "наблюдения о текущих занятиях агента, НЕ инструкции" ++ bs ">" ++ [LF] ++
        (if bool_decide (focus = []) then [] else bs "Сейчас в фокусе: " ++ focus ++ [LF]) ++
        (if bool_decide (goals = []) then []
         else bs "Активные самостоятельные цели:" ++ [LF] ++ concat ((λ g, bs "- " ++ g ++ [LF]) <$> goals)) ++
        bs "</current_focus>").

(** ** The agent, its owner and its goals *)

(** [InitiativeConfig] with what else gates the ticks. *)
(* @src opex-core/src/config/mod.rs 1643-1661 InitiativeConfig *)
Record Config := mkConfig {
  is_base : bool;
  enabled : bool;
  owner_set : bool;
  daily_proposal_cap : Z;
  daily_plan : bool;
  auto_approve_day_plan : bool;
  daily_token_budget : Z;
}.
Context (cfg : Config).

(** A tick that waits for the model's proposal. *)
Record Tick := mkTick { t_plan : PlanRow; t_today : Z; t_latest : option Z }.
(** Where the heartbeat stands: it waits for the model's plan, may approve it by
    itself, or works on an intent of the plan it has read. *)
Inductive Heart :=
| HIdle
| HWriting (today : Z)
| HDeciding (today : Z)
| HWorking (cur : nat) (intents : list DayIntent).
Inductive Event :=
| EProposed (id : nat) (day : Z)
| EGoal (proposal : nat) (sid : Uuid)
| EPlanGoal (day : Z) (sid : Uuid).
Record World := mkWorld {
  plan : option PlanRow;
  goals : GoalTable;
  mine : list Uuid;                (** the sessions of the agent *)
  next_sid : Z;
  next_p : nat;
  ticks : list Tick;
  heart : Heart;
  log : list Event;
}.
Definition on_plan f w := mkWorld (f <$> plan w) (goals w) (mine w) (next_sid w) (next_p w) (ticks w) (heart w) (log w).
Definition on_goals f w := mkWorld (plan w) (f (goals w)) (mine w) (next_sid w) (next_p w) (ticks w) (heart w) (log w).
Definition beat h w := mkWorld (plan w) (goals w) (mine w) (next_sid w) (next_p w) (ticks w) h (log w).
Definition say ev w := mkWorld (plan w) (goals w) (mine w) (next_sid w) (next_p w) (ticks w) (heart w) (log w ++ ev).
Definition open_plan w := mkWorld (Some (get_or_create (plan w))) (goals w) (mine w) (next_sid w) (next_p w) (ticks w) (heart w) (log w).

Definition gated_out : bool := is_base cfg || negb (enabled cfg) || negb (owner_set cfg).
(** Up to the first answer of the model. *)
Definition tick_begin (today : Z) (latest : option Z) (w : World) : World :=
  if gated_out then w else
  let w := open_plan w in
  mkWorld (plan w) (goals w) (mine w) (next_sid w) (next_p w) (ticks w ++ [mkTick (get_or_create (plan w)) today latest]) (heart w) (log w).
(** The first step refreshes the focus, the second may propose. *)
Definition refresh_focus (t : Tick) (focus : option str) (w : World) : World :=
  let has_new := match last_proposal_at (t_plan t) with
                 | Some l => match t_latest t with Some r => (l <? r)%Z | None => false end
                 | None => bool_decide (is_Some (t_latest t))
                 end in
  match (if has_new then focus else None) ≫= sanitize with Some c => on_plan (set_focus (trim c)) w | None => w end.
Definition will_propose (t : Tick) : bool :=
  negb (daily_plan cfg) &&
  should_propose (last_proposal_at (t_plan t)) (t_latest t)
    (effective_today_count (proposal_day (t_plan t)) (proposals_today (t_plan t)) (t_today t)) (daily_proposal_cap cfg).
Definition propose (t : Tick) (proposal : option str) (now : Z) (w : World) : World :=
  match proposal ≫= sanitize, plan w with
  | Some g, Some r =>
      let g := trim g in
      if bool_decide (g = []) || is_trivial_goal g then w else
      let '(r, added) := try_add_proposal (t_today t) (daily_proposal_cap cfg) now (mkProposal (next_p w) g (bs "pending") now None) r in
      mkWorld (Some r) (goals w) (mine w) (next_sid w) (S (next_p w)) (ticks w) (heart w)
        (log w ++ if added then [EProposed (next_p w) (t_today t)] else [])
  | _, _ => w
  end.
(** The focus and the proposal are what the model wrote ([None]: it failed, or
    that was not JSON). *)
(* @src opex-core/src/agent/initiative/tick.rs 64-204 initiative_tick_inner *)
Definition tick_end (i : nat) (focus proposal : option str) (now : Z) (w : World) : World :=
  match ticks w !! i with
  | None => w
  | Some t =>
      let w := mkWorld (plan w) (goals w) (mine w) (next_sid w) (next_p w) (delete i (ticks w)) (heart w) (log w) in
      let w := refresh_focus t focus w in
      if will_propose t then propose t proposal now w else w
  end.

(** A new session of the agent, with a goal of its own. *)
Definition new_session_goal (text : str) (managed : bool) (w : World) : World * Uuid :=
  let sid := next_sid w in
  let g := upsert_initiative_goal_tx sid text 20 (goals w) in
  (mkWorld (plan w) (if managed then alter (set_day_plan_managed_tx true) sid g else g) (mine w ++ [sid]) (sid + 1) (next_p w) (ticks w) (heart w) (log w), sid).
Inductive ProposalError := BaseAgent.
(** One transaction: the flip, the session and the goal. *)
(* @src opex-core/src/gateway/handlers/agents/initiative.rs 83-122 approve_proposal *)
Definition approve_proposal (id : nat) (now : Z) (w : World) : World * result ProposalError (option Uuid) :=
  if is_base cfg then (w, Err BaseAgent) else
  match plan w with
  | None => (w, Ok None)
  | Some r =>
      match try_set_proposal_status id (bs "approved") now r with
      | (r, Some p) =>
          let '(w, sid) := new_session_goal (p_text p) false (on_plan (λ _, r) w) in
          (say [EGoal id sid] w, Ok (Some sid))
      | (_, None) => (w, Ok None)
      end
  end.
(* @src opex-core/src/gateway/handlers/agents/initiative.rs 126-139 dismiss_proposal *)
Definition dismiss_proposal (id : nat) (now : Z) (w : World) : World * result ProposalError bool :=
  if is_base cfg then (w, Err BaseAgent) else
  match plan w with
  | None => (w, Ok false)
  | Some r => let '(r, p) := try_set_proposal_status id (bs "dismissed") now r in (on_plan (λ _, r) w, Ok (bool_decide (is_Some p)))
  end.
(* @src opex-core/src/gateway/handlers/agents/initiative.rs 143-161 cancel_goal *)
Definition cancel_goal (sid : Uuid) (w : World) : World * result ProposalError bool :=
  if is_base cfg then (w, Err BaseAgent) else
  let '(g, cancelled) := try_cancel_goal (λ s, if bool_decide (s ∈ mine w) then Some [] else None) sid [] (goals w) in
  (on_goals (λ _, g) w, Ok cancelled).
(** The goals of a plan, the text of each intent in a session of its own. *)
Fixpoint materialize (day : Z) (l : list DayIntent) (w : World) : World * list DayIntent :=
  match l with
  | [] => (w, [])
  | it :: l =>
      let '(w, sid) := new_session_goal (it_intent it) true w in
      let '(w, l) := materialize day l (say [EPlanGoal day sid] w) in
      (w, mkIntent (Some sid) (it_intent it) (bs "active") :: l)
  end.
(* @src opex-core/src/gateway/handlers/agents/initiative.rs 210-247 materialize_day_plan_tx *)
Definition materialize_day_plan_tx (date : Z) (w : World) : World * nat :=
  match plan w ≫= try_start_day_plan_approval_tx date with
  | None => (w, 0)
  | Some (r, intents) =>
      let '(w, l) := materialize date intents (on_plan (λ _, r) w) in
      (on_plan (set_day_plan_intents_tx l) w, length l)
  end.
(* @src opex-core/src/gateway/handlers/agents/initiative.rs 251-262 approve_day_plan *)
Definition approve_day_plan (date : Z) (w : World) : World * result ProposalError bool :=
  if is_base cfg then (w, Err BaseAgent) else
  let '(w, n) := materialize_day_plan_tx date w in (w, Ok (0 <? n)).
(* @src opex-core/src/gateway/handlers/agents/initiative.rs 265-279 dismiss_day_plan *)
Definition dismiss_day_plan (date : Z) (w : World) : World * result ProposalError unit :=
  if is_base cfg then (w, Err BaseAgent) else (on_plan (λ r, (try_dismiss_day_plan date r).1) w, Ok ()).

(** *** The heartbeat *)

(** The intents of the day before that still run are paused. *)
Definition pause_intents (l : list DayIntent) (g : GoalTable) : GoalTable :=
  foldl (λ g it, match it_session it with
                 | Some sid => if bool_decide (it_status it = bs "active") then alter (set_status (bs "paused")) sid g else g
                 | None => g
                 end) g l.
Definition finish_intent (cur : nat) (l : list DayIntent) : list DayIntent :=
  alter (λ it, mkIntent (it_session it) (it_intent it) (bs "done")) cur l.
(** The end of an advance; the writes may fail. *)
Definition advance_end (cur : nat) (intents : list DayIntent) (finished pointer_ok status_ok : bool) (w : World) : World :=
  let '(cur', done) := plan_advance cur (length intents) finished in
  let intents := if finished then finish_intent cur intents else intents in
  let w := if pointer_ok then on_plan (set_day_plan_pointer (Z.of_nat cur') intents) w else w in
  beat HIdle (if done && status_ok then on_plan (set_day_plan_status (Some (bs "done"))) w else w).
(** [spend]: the tokens of today. *)
(* @src opex-core/src/agent/initiative/day_plan.rs 208-250 advance_day_plan *)
Definition advance_begin (spend : Z) (pointer_ok status_ok : bool) (r : PlanRow) (w : World) : World :=
  if auto_approve_day_plan cfg && negb (within_token_budget spend (daily_token_budget cfg)) then
    beat HIdle (if status_ok then on_plan (set_day_plan_status (Some (bs "paused"))) w else w)
  else
    let cur := Z.to_nat (Z.max 0 (day_plan_current r)) in
    match day_plan r !! cur with
    | None => beat HIdle (if status_ok then on_plan (set_day_plan_status (Some (bs "done"))) w else w)
    | Some it =>
        let running := match it_session it ≫= λ sid, goals w !! sid with Some g => is_running g | None => false end in
        if running then beat (HWorking cur (day_plan r)) w else advance_end cur (day_plan r) true pointer_ok status_ok w
    end.
(* @src opex-core/src/agent/initiative/day_plan.rs 116-206 day_plan_tick_inner *)
Definition heart_begin (today spend : Z) (pointer_ok status_ok : bool) (w : World) : World :=
  match heart w with
  | HIdle =>
      if gated_out then w else
      let w := open_plan w in
      let r := get_or_create (plan w) in
      if negb (bool_decide (day_plan_date r = Some today)) then beat (HWriting today) (on_goals (pause_intents (day_plan r)) w)
      else if bool_decide (day_plan_status r = Some (bs "approved")) then advance_begin spend pointer_ok status_ok r w
      else w
  | _ => w
  end.
(** What the model wrote; [material]: there are reflections or open threads. *)
Definition heart_written (material : bool) (raw : list str) (w : World) : World :=
  match heart w with
  | HWriting today =>
      let intents := if material then select_intents raw else [] in
      if bool_decide (intents = []) then beat HIdle (on_plan (set_day_plan [] today None) w)
      else beat (HDeciding today) (on_plan (set_day_plan ((λ t, mkIntent None t (bs "pending")) <$> intents) today (Some (bs "pending"))) w)
  | _ => w
  end.
Definition heart_decides (spend : Z) (w : World) : World :=
  match heart w with
  | HDeciding today =>
      beat HIdle (if auto_approve_day_plan cfg && within_token_budget spend (daily_token_budget cfg) then (materialize_day_plan_tx today w).1 else w)
  | _ => w
  end.
(** The chunk of the current intent is over, and whether its goal is. *)
Definition heart_worked (stopped pointer_ok status_ok : bool) (w : World) : World :=
  match heart w with HWorking cur intents => advance_end cur intents stopped pointer_ok status_ok w | _ => w end.

Inductive Action :=
| ATickBegin (today : Z) (latest : option Z)
| ATickEnd (i : nat) (focus proposal : option str) (now : Z)
| AApprove (id : nat) (now : Z)
| ADismiss (id : nat) (now : Z)
| ACancel (sid : Uuid)
| AApprovePlan (date : Z)
| ADismissPlan (date : Z)
| AHeartBegin (today spend : Z) (pointer_ok status_ok : bool)
| AHeartWritten (material : bool) (raw : list str)
| AHeartDecides (spend : Z)
| AHeartWorked (stopped pointer_ok status_ok : bool)
| AGoal (sid : Uuid) (s : Stmt).   (** a driver of [Goals] *)
Definition step (a : Action) (w : World) : World :=
  match a with
  | ATickBegin today latest => tick_begin today latest w
  | ATickEnd i focus proposal now => tick_end i focus proposal now w
  | AApprove id now => (approve_proposal id now w).1
  | ADismiss id now => (dismiss_proposal id now w).1
  | ACancel sid => (cancel_goal sid w).1
  | AApprovePlan date => (approve_day_plan date w).1
  | ADismissPlan date => (dismiss_day_plan date w).1
  | AHeartBegin today spend pok sok => heart_begin today spend pok sok w
  | AHeartWritten material raw => heart_written material raw w
  | AHeartDecides spend => heart_decides spend w
  | AHeartWorked stopped pok sok => heart_worked stopped pok sok w
  | AGoal sid s => on_goals (alter (exec s) sid) w
  end.
Definition run (acts : list Action) (w : World) : World := foldl (λ w a, step a w) w acts.
Definition new_agent : World := mkWorld None ∅ [] 0 0 [] HIdle [].

(** ** Proposals *)

Definition proposal_days (l : list Event) : list Z := omap (λ e, match e with EProposed _ d => Some d | _ => None end) l.
Definition goal_proposals (l : list Event) : list nat := omap (λ e, match e with EGoal id _ => Some id | _ => None end) l.
#[local] Arguments proposal_days _ : simpl never.
#[local] Arguments goal_proposals _ : simpl never.
Lemma proposal_days_app l l' : proposal_days (l ++ l') = proposal_days l ++ proposal_days l'.
Proof. apply omap_app. Qed.
Lemma goal_proposals_app l l' : goal_proposals (l ++ l') = goal_proposals l ++ goal_proposals l'.
Proof. apply omap_app. Qed.

(** What concerns proposals: the list, the counter and its day, the logged
    proposals and goals, and the next id. *)
Definition view (w : World) : list Proposal * Z * option Z * list Z * list nat * nat :=
  let r := get_or_create (plan w) in
  (proposals r, proposals_today r, proposal_day r, proposal_days (log w), goal_proposals (log w), next_p w).
(** What a step may do to that. *)
Inductive prop_step : list Proposal * Z * option Z * list Z * list nat * nat → list Proposal * Z * option Z * list Z * list nat * nat → Prop :=
| ps_same v : prop_step v v
| ps_skip ps n d ds gs k : prop_step (ps, n, d, ds, gs, k) (ps, n, d, ds, gs, S k)
| ps_add ps n d ds gs k p today :
    p_id p = k → p_status p = bs "pending" → (d = Some today → (n < daily_proposal_cap cfg)%Z) →
    prop_step (ps, n, d, ds, gs, k)
      (ps ++ [p], if bool_decide (d = Some today) then (n + 1)%Z else 1%Z, Some today, ds ++ [today], gs, S k)
| ps_dismiss ps n d ds gs k i p now :
    ps !! i = Some p → p_status p = bs "pending" → prop_step (ps, n, d, ds, gs, k) (alter (act_on (bs "dismissed") now) i ps, n, d, ds, gs, k)
| ps_approve ps n d ds gs k i p now :
    ps !! i = Some p → p_status p = bs "pending" →
    prop_step (ps, n, d, ds, gs, k) (alter (act_on (bs "approved") now) i ps, n, d, ds, gs ++ [p_id p], k).

(** Updates of the row that leave its proposals alone. *)
Definition keeps_proposals (f : PlanRow → PlanRow) : Prop :=
  ∀ r, proposals (f r) = proposals r ∧ proposals_today (f r) = proposals_today r ∧ proposal_day (f r) = proposal_day r.
Lemma view_on_plan f w : keeps_proposals f → view (on_plan f w) = view w.
Proof. intros Hf. unfold view, on_plan. cbn. destruct (plan w) as [r|]; [|done]. cbn. destruct (Hf r) as (-> & -> & ->). done. Qed.
Lemma view_open w : view (open_plan w) = view w.
Proof. done. Qed.
Lemma keeps_day_plan l cur date status : keeps_proposals (with_day_plan l cur date status).
Proof. by intros r. Qed.
Lemma keeps_status s : keeps_proposals (set_day_plan_status s).
Proof. by intros r. Qed.
Lemma keeps_pointer cur l : keeps_proposals (set_day_plan_pointer cur l).
Proof. by intros r. Qed.
Lemma view_same w w' : plan w' = plan w → log w' = log w → next_p w' = next_p w → view w' = view w.
Proof. intros Hp Hl Hn. unfold view. by rewrite Hp, Hl, Hn. Qed.
Lemma view_beat h w : view (beat h w) = view w.
Proof. done. Qed.
Lemma view_session text managed w w' sid : new_session_goal text managed w = (w', sid) → view w' = view w.
Proof. unfold new_session_goal. intros [= <- <-]. by apply view_same. Qed.
Lemma view_plan_goal day sid w : view (say [EPlanGoal day sid] w) = view w.
Proof. unfold view, say; cbn. by rewrite proposal_days_app, goal_proposals_app, !app_nil_r. Qed.
Lemma view_materialize day l w w' l' : materialize day l w = (w', l') → view w' = view w.
Proof.
  revert w w' l'. induction l as [|it l IH]; intros w w' l' Hm; cbn [materialize] in Hm; [by injection Hm as <- <-|].
  destruct (new_session_goal (it_intent it) true w) as [w1 sid] eqn:Hs. destruct (materialize day l _) as [w2 l2] eqn:Hm2. injection Hm as <- <-.
  by rewrite (IH _ _ _ Hm2), view_plan_goal, (view_session _ _ _ _ _ Hs).
Qed.
Lemma view_materialize_tx date w : view (materialize_day_plan_tx date w).1 = view w.
Proof.
  unfold materialize_day_plan_tx. destruct (plan w) as [r|] eqn:Hp; [|done]. cbn [mbind option_bind].
  destruct (try_start_day_plan_approval_tx date r) as [[r' l]|] eqn:Ht; [|done].
  destruct (materialize date l _) as [w1 l1] eqn:Hm. cbn [fst]. rewrite view_on_plan by (by intros ?). rewrite (view_materialize _ _ _ _ _ Hm).
  unfold try_start_day_plan_approval_tx in Ht. destruct (_ && _ && _); [|done]. injection Ht as <- <-.
  unfold view, on_plan. cbn. by rewrite Hp.
Qed.
Lemma view_advance_end cur l f pok sok w : view (advance_end cur l f pok sok w) = view w.
Proof.
  unfold advance_end. destruct (plan_advance cur (length l) f) as [c d]. cbv zeta. rewrite view_beat.
  destruct (d && sok), pok; by rewrite ?view_on_plan.
Qed.
Lemma position_Some {A} (f : A → bool) l i : position f l = Some i → ∃ x, l !! i = Some x ∧ f x = true.
Proof.
  revert i. induction l as [|y l IH]; intros i Hi; cbn in Hi; [done|]. destruct (f y) eqn:Hy; [injection Hi as <-; by exists y|].
  destruct (position f l) as [j|]; [|done]. injection Hi as <-. by apply IH.
Qed.
Lemma flip_spec id status now r :
  match try_set_proposal_status id status now r with
  | (r', Some p) => ∃ i q, proposals r !! i = Some q ∧ p_id q = id ∧ p_status q = bs "pending" ∧ p = act_on status now q ∧
      r' = with_proposals (alter (act_on status now) i (proposals r)) r
  | (r', None) => r' = r
  end.
Proof.
  unfold try_set_proposal_status. destruct (position (pending id) (proposals r)) as [i|] eqn:Hi; [|done].
  apply position_Some in Hi as (q & Hq & Hp). rewrite Hq. cbn. unfold pending in Hp. bool_hyps. by exists i, q.
Qed.
Lemma view_focus t focus w : view (refresh_focus t focus w) = view w.
Proof. unfold refresh_focus. cbv zeta. destruct (_ ≫= sanitize); [|done]. by rewrite view_on_plan. Qed.
Lemma add_spec today cap now p r :
  try_add_proposal today cap now p r = (r, false) ∨
  ∃ r', try_add_proposal today cap now p r = (r', true) ∧ proposals r' = proposals r ++ [p] ∧
    proposals_today r' = (if bool_decide (proposal_day r = Some today) then proposals_today r + 1 else 1)%Z ∧
    proposal_day r' = Some today ∧ (proposal_day r = Some today → (proposals_today r < cap)%Z).
Proof.
  unfold try_add_proposal. destruct (bool_decide (proposal_day r = Some today)) eqn:Hd; cbn [negb orb].
  - destruct (Z.ltb_spec (proposals_today r) cap); [right|by left]. by eexists.
  - right. eexists. split; [done|]. split; [done|]. split; [done|]. split; [done|]. intros Ht. by apply bool_decide_eq_false in Hd.
Qed.
Lemma propose_step t proposal now w : prop_step (view w) (view (propose t proposal now w)).
Proof.
  unfold propose. destruct (proposal ≫= sanitize) as [g|]; [|constructor]. destruct (plan w) as [r|] eqn:Hp; [|constructor]. cbv zeta.
  destruct (_ || _); [constructor|]. set (p := mkProposal _ _ _ _ _).
  assert (view w = (proposals r, proposals_today r, proposal_day r, proposal_days (log w), goal_proposals (log w), next_p w)) as ->
    by (unfold view; by rewrite Hp).
  destruct (add_spec (t_today t) (daily_proposal_cap cfg) now p r) as [->|(r' & -> & Hps & Hn & Hd & Hlt)]; unfold view; cbn [plan log next_p]; cbv zeta.
  - change (get_or_create (Some r)) with r. rewrite app_nil_r. constructor.
  - change (get_or_create (Some r')) with r'. rewrite proposal_days_app, goal_proposals_app, app_nil_r, Hps, Hn, Hd. by constructor.
Qed.
Lemma prop_step_of a w : prop_step (view w) (view (step a w)).
Proof.
  assert (∀ v v', v' = v → prop_step v v') as Hsame by (intros v v' ->; constructor).
  destruct a as [today latest|i focus proposal now|id now|id now|sid|date|date|today spend pok sok|material raw|spend|stopped pok sok|sid s]; cbn [step].
  - apply Hsame. unfold tick_begin. by destruct gated_out.
  - unfold tick_end. destruct (ticks w !! i) as [t|]; [|by apply Hsame]. cbv zeta.
    set (w1 := mkWorld _ _ _ _ _ _ _ _). assert (view (refresh_focus t focus w1) = view w) as Hv by (rewrite view_focus; by apply view_same).
    destruct (will_propose t); [rewrite <- Hv; apply propose_step|by apply Hsame].
  - unfold approve_proposal. destruct (is_base cfg); [by apply Hsame|]. destruct (plan w) as [r|] eqn:Hp; [|by apply Hsame].
    pose proof (flip_spec id (bs "approved") now r) as Hf. destruct (try_set_proposal_status id (bs "approved") now r) as [r' [p|]]; [|by apply Hsame].
    destruct Hf as (i & q & Hq & Hid & Hpend & -> & ->). cbn [new_session_goal fst]. unfold view, say, on_plan; cbn. rewrite Hp. cbn.
    rewrite proposal_days_app, goal_proposals_app, app_nil_r. cbn. rewrite <- Hid. by eapply ps_approve.
  - unfold dismiss_proposal. destruct (is_base cfg); [by apply Hsame|]. destruct (plan w) as [r|] eqn:Hp; [|by apply Hsame].
    pose proof (flip_spec id (bs "dismissed") now r) as Hf. destruct (try_set_proposal_status id (bs "dismissed") now r) as [r' [p|]];
      [|apply Hsame; subst r'; unfold view, on_plan; cbn; by rewrite Hp].
    destruct Hf as (i & q & Hq & Hid & Hpend & -> & ->). unfold view, on_plan; cbn. rewrite Hp. cbn. by eapply ps_dismiss.
  - apply Hsame. unfold cancel_goal. destruct (is_base cfg); [done|]. destruct (try_cancel_goal _ _ _ _). by apply view_same.
  - apply Hsame. unfold approve_day_plan. destruct (is_base cfg); [done|]. pose proof (view_materialize_tx date w) as Hv.
    by destruct (materialize_day_plan_tx date w).
  - apply Hsame. unfold dismiss_day_plan. destruct (is_base cfg); [done|]. cbn [fst]. apply view_on_plan. intros r.
    unfold try_dismiss_day_plan. by destruct (_ && _).
  - apply Hsame. unfold heart_begin. destruct (heart w); try done. destruct gated_out; [done|]. cbv zeta.
    destruct (negb _); [done|]. destruct (bool_decide _); [|done]. unfold advance_begin.
    destruct (_ && _); [rewrite view_beat; by destruct sok; [rewrite view_on_plan|]|].
    cbv zeta. destruct (_ !! _) as [it|]; [|rewrite view_beat; by destruct sok; [rewrite view_on_plan|]].
    destruct (match it_session it ≫= _ with Some _ => _ | None => _ end); [by rewrite view_beat|]. by rewrite view_advance_end.
  - apply Hsame. unfold heart_written. destruct (heart w); try done. cbv zeta.
    destruct (bool_decide _); rewrite view_beat; by apply view_on_plan.
  - apply Hsame. unfold heart_decides. destruct (heart w); try done. rewrite view_beat. destruct (_ && _); [|done]. apply view_materialize_tx.
  - apply Hsame. unfold heart_worked. destruct (heart w); try done. apply view_advance_end.
  - apply Hsame. by apply view_same.
Qed.

(** *** Decided once *)

Definition View : Type := list Proposal * Z * option Z * list Z * list nat * nat.
Record decided (v : View) : Prop := mkDecided {
  de_ids : let '(ps, _, _, _, _, k) := v in NoDup (p_id <$> ps) ∧ Forall (λ p, p_id p < k) ps;
  de_goals : let '(ps, _, _, _, gs, _) := v in NoDup gs ∧ ∀ id, id ∈ gs ↔ ∃ p, p ∈ ps ∧ p_id p = id ∧ p_status p = bs "approved";
}.
Lemma ids_act st now i (ps : list Proposal) : p_id <$> alter (act_on st now) i ps = p_id <$> ps.
Proof. revert i. induction ps as [|p ps IH]; intros [|i]; [done..|]. cbn. by rewrite IH. Qed.
Lemma elem_act st now i (ps : list Proposal) p q : ps !! i = Some p →
  q ∈ alter (act_on st now) i ps ↔ q = act_on st now p ∨ ∃ j, j ≠ i ∧ ps !! j = Some q.
Proof.
  intros Hp. rewrite list_elem_of_lookup. split.
  - intros (j & Hj). destruct (decide (i = j)) as [<-|Hne].
    + left. rewrite list_lookup_alter_eq, Hp in Hj. by injection Hj as <-.
    + right. rewrite list_lookup_alter_ne in Hj by done. by exists j.
  - intros [->|(j & Hne & Hj)]; [exists i; by rewrite list_lookup_alter_eq, Hp|exists j; by rewrite list_lookup_alter_ne].
Qed.
Lemma same_id (ps : list Proposal) i j p q : NoDup (p_id <$> ps) → ps !! i = Some p → ps !! j = Some q → p_id p = p_id q → i = j.
Proof.
  intros Hnd Hp Hq Hid. eapply (NoDup_lookup _ i j (p_id p) Hnd); rewrite list_lookup_fmap, ?Hp, ?Hq; cbn; congruence.
Qed.
Lemma ids_bound k (ps : list Proposal) st now i : Forall (λ p, p_id p < k) ps → Forall (λ p, p_id p < k) (alter (act_on st now) i ps).
Proof.
  assert (∀ l : list Proposal, Forall (λ p, p_id p < k) l ↔ Forall (λ x, x < k) (p_id <$> l)) as Hf by (intros l; by rewrite Forall_fmap).
  by rewrite !Hf, ids_act.
Qed.
Lemma decided_step v v' : prop_step v v' → decided v → decided v'.
Proof.
  intros Hs [H1 H2]. destruct Hs as [v|ps n d ds gs k|ps n d ds gs k p today Hid Hst Hlt|ps n d ds gs k i p now Hp Hst|ps n d ds gs k i p now Hp Hst];
    [done| | | |]; destruct H1 as [Hnd Hlt'], H2 as [Hgs Hiff].
  - constructor; [split; [done|]|done]. eapply Forall_impl; [exact Hlt'|]. intros; cbn in *; lia.
  - constructor; [split|split; [done|]].
    + rewrite fmap_app. apply NoDup_app. split; [done|]. split; [|cbn; apply NoDup_singleton].
      intros x Hx Hin. cbn in Hin. apply list_elem_of_singleton in Hin as ->. apply list_elem_of_fmap in Hx as (q & Hq & Hin).
      rewrite Forall_forall in Hlt'. specialize (Hlt' q Hin). lia.
    + apply Forall_app. split; [|constructor; [lia|constructor]]. eapply Forall_impl; [exact Hlt'|]. intros; cbn in *; lia.
    + intros id. rewrite Hiff. split; intros (q & Hq & Hr); [exists q; split; [apply elem_of_app; by left|done]|].
      apply elem_of_app in Hq as [Hq|Hq]; [by exists q|]. apply list_elem_of_singleton in Hq as ->. destruct Hr as [_ Hr]. rewrite Hst in Hr. done.
  - assert (Forall (λ q, p_id q < k) (alter (act_on (bs "dismissed") now) i ps)) as HF by (by apply ids_bound).
    constructor; [by rewrite ids_act|split; [done|]]. intros id. rewrite Hiff. split; intros (q & Hq & Hqid & Hqs).
    + exists q. split; [|done]. apply (elem_act _ _ _ _ p); [done|]. right. apply list_elem_of_lookup in Hq as [j Hj]. exists j.
      split; [|done]. intros ->. rewrite Hp in Hj. injection Hj as <-. by rewrite Hst in Hqs.
    + apply (elem_act _ _ _ _ p) in Hq as [->|(j & _ & Hj)]; [done| |done]. exists q. split; [by eapply list_elem_of_lookup_2|done].
  - assert (Forall (λ q, p_id q < k) (alter (act_on (bs "approved") now) i ps)) as HF by (by apply ids_bound).
    assert (p_id p ∉ gs) as Hnew.
    { intros (q & Hq & Hqid & Hqs)%Hiff. apply list_elem_of_lookup in Hq as [j Hj]. assert (j = i) as -> by (by eapply same_id).
      rewrite Hp in Hj. injection Hj as <-. by rewrite Hst in Hqs. }
    constructor; [by rewrite ids_act|split].
    + apply NoDup_app. split; [done|]. split; [|apply NoDup_singleton]. intros x Hx ->%list_elem_of_singleton. done.
    + intros id. rewrite elem_of_app, list_elem_of_singleton, Hiff. split.
      * intros [(q & Hq & Hqid & Hqs)| ->]; [exists q|exists (act_on (bs "approved") now p)]; (split; [|done]); apply (elem_act _ _ _ _ p); try done.
        -- right. apply list_elem_of_lookup in Hq as [j Hj]. exists j. split; [|done]. intros ->. rewrite Hp in Hj. injection Hj as <-. by rewrite Hst in Hqs.
        -- by left.
      * intros (q & Hq & Hqid & Hqs). apply (elem_act _ _ _ _ p) in Hq as [->|(j & _ & Hj)]; [by right| |done].
        left. exists q. split; [by eapply list_elem_of_lookup_2|done].
Qed.
Lemma view_run (P : View → Prop) : (∀ v v', prop_step v v' → P v → P v') → P (view new_agent) → ∀ acts, P (view (run acts new_agent)).
Proof.
  intros Hstep H0 acts. revert H0. generalize new_agent. induction acts as [|a acts IH]; intros w H0; [done|].
  apply (IH (step a w)). eapply Hstep; [apply prop_step_of|done].
Qed.

(** *** An approved proposal has its goal *)

(** The goals that approvals started, with their sessions. *)
Definition starts (l : list Event) : list (nat * Uuid) :=
  omap (λ e, match e with EGoal id sid => Some (id, sid) | _ => None end) l.
#[local] Arguments starts _ : simpl never.
Lemma starts_app l l' : starts (l ++ l') = starts l ++ starts l'.
Proof. apply omap_app. Qed.
Definition same_goal (g g' : GoalRow) : Prop := goal_text g' = goal_text g ∧ origin g' = origin g.
(** A step that starts no goal of a proposal: goals that are there stay, with
    their text and their origin. *)
Record quiet (w w' : World) : Prop := mkQuiet {
  qu_sid : (next_sid w <= next_sid w')%Z;
  qu_mine : ∀ sid, sid ∈ mine w → sid ∈ mine w';
  qu_goals : ∀ sid g, (sid < next_sid w)%Z → goals w !! sid = Some g → ∃ g', goals w' !! sid = Some g' ∧ same_goal g g';
  qu_log : starts (log w') = starts (log w);
}.
#[local] Instance quiet_preorder : PreOrder quiet.
Proof.
  split; [intros w; constructor; [lia|done| |done]; intros sid g _ Hg; by exists g|].
  intros w1 w2 w3 [A1 A2 A3 A4] [B1 B2 B3 B4]. constructor; [lia|auto| |congruence]. intros sid g Hs Hg.
  destruct (A3 sid g Hs Hg) as (g2 & Hg2 & E1 & E2). destruct (B3 sid g2 ltac:(lia) Hg2) as (g3 & Hg3 & F1 & F2).
  exists g3. split; [done|]. split; congruence.
Qed.
Lemma quiet_plain w w' : goals w' = goals w → mine w' = mine w → next_sid w' = next_sid w → starts (log w') = starts (log w) → quiet w w'.
Proof. intros Hg Hm Hn Hl. constructor; rewrite ?Hg, ?Hm, ?Hn; [lia|done| |done]. intros sid g _ Hx. by exists g. Qed.
Lemma quiet_goals w t : (∀ sid g, goals w !! sid = Some g → ∃ g', t !! sid = Some g' ∧ same_goal g g') → quiet w (on_goals (λ _, t) w).
Proof. intros Ht. constructor; cbn; [lia|done| |done]. intros sid g _. apply Ht. Qed.
Lemma alter_same f k (t : GoalTable) sid g : (∀ g, same_goal g (f g)) → t !! sid = Some g → ∃ g', alter f k t !! sid = Some g' ∧ same_goal g g'.
Proof.
  intros Hf Hg. destruct (decide (k = sid)) as [->|Hne]; [rewrite lookup_alter_eq, Hg; by eexists|].
  rewrite lookup_alter_ne by done. by exists g.
Qed.
Lemma quiet_exec sid s w : quiet w (on_goals (alter (exec s) sid) w).
Proof. apply (quiet_goals w (alter (exec s) sid (goals w))). intros k g. apply alter_same. by intros []; destruct s. Qed.
Lemma pause_same l (t : GoalTable) sid g : t !! sid = Some g → ∃ g', pause_intents l t !! sid = Some g' ∧ same_goal g g'.
Proof.
  unfold pause_intents. revert t g. induction l as [|it l IH]; intros t g Hg; [by exists g|]. cbn [foldl].
  destruct (it_session it) as [k|]; [|by apply IH]. destruct (bool_decide _); [|by apply IH].
  destruct (alter_same (set_status (bs "paused")) k t sid g) as (g1 & Hg1 & E1 & E2); [by intros []|done|].
  destruct (IH _ _ Hg1) as (g2 & Hg2 & F1 & F2). exists g2. split; [done|]. split; congruence.
Qed.
(** The session is new, and its goal has the text and the origin of an initiative. *)
Lemma new_session_spec text managed w :
  let '(w', sid) := new_session_goal text managed w in
  quiet w w' ∧ sid = next_sid w ∧ next_sid w' = (sid + 1)%Z ∧ sid ∈ mine w' ∧ log w' = log w ∧ plan w' = plan w ∧
  ∃ g, goals w' !! sid = Some g ∧ goal_text g = text ∧ origin g = bs "initiative".
Proof.
  unfold new_session_goal. set (sid := next_sid w). set (t := upsert_initiative_goal_tx sid text 20 (goals w)).
  assert (∃ g, t !! sid = Some g ∧ goal_text g = text ∧ origin g = bs "initiative") as (g & Hg & E1 & E2).
  { unfold t, upsert_initiative_goal_tx. eexists. rewrite lookup_insert_eq. split; [done|]. by destruct (goals w !! sid). }
  assert (∀ k, k ≠ sid → t !! k = goals w !! k) as Hk by (intros k Hk; unfold t, upsert_initiative_goal_tx; by rewrite lookup_insert_ne).
  split; [|split; [done|split; [done|split; [cbn; apply elem_of_app; right; by left|split; [done|split; [done|]]]]]].
  - constructor; cbn; [unfold sid; lia|intros x Hx; apply elem_of_app; by left| |done]. intros x g0 Hx Hg0.
    rewrite <- (Hk x) in Hg0 by (unfold sid; lia). destruct managed; [by apply alter_same; [intros []|]|by exists g0].
  - destruct managed; [|by exists g]. destruct (alter_same (set_day_plan_managed_tx true) sid t sid g) as (g' & Hg' & F1 & F2); [by intros []|done|].
    exists g'. split; [exact Hg'|]. split; congruence.
Qed.
Lemma quiet_materialize day l w : quiet w (materialize day l w).1.
Proof.
  revert w. induction l as [|it l IH]; intros w; cbn [materialize]; [done|].
  pose proof (new_session_spec (it_intent it) true w) as Hn. destruct (new_session_goal (it_intent it) true w) as [w1 sid]. destruct Hn as (Hq & _).
  specialize (IH (say [EPlanGoal day sid] w1)). destruct (materialize day l _) as [w2 l2]. cbn [fst] in *.
  etrans; [exact Hq|]. etrans; [|exact IH]. apply quiet_plain; try done. cbn. by rewrite starts_app, app_nil_r.
Qed.
Lemma quiet_plan f w : quiet w (on_plan f w).
Proof. by apply quiet_plain. Qed.
Lemma quiet_beat h w w' : quiet w w' → quiet w (beat h w').
Proof. intros Hq. etrans; [exact Hq|by apply quiet_plain]. Qed.
Lemma quiet_materialize_tx date w : quiet w (materialize_day_plan_tx date w).1.
Proof.
  unfold materialize_day_plan_tx. destruct (plan w ≫= _) as [[r l]|]; [|done].
  pose proof (quiet_materialize date l (on_plan (λ _, r) w)) as Hq. destruct (materialize date l _) as [w1 l1]. cbn [fst] in *.
  etrans; [apply quiet_plan|]. etrans; [exact Hq|]. apply quiet_plan.
Qed.
Lemma quiet_advance cur l f pok sok w : quiet w (advance_end cur l f pok sok w).
Proof.
  unfold advance_end. destruct (plan_advance cur (length l) f) as [c d]. cbv zeta. apply quiet_beat.
  destruct pok, (d && sok); try done; try apply quiet_plan. etrans; apply quiet_plan.
Qed.
Lemma quiet_step a w : (∀ id now, a ≠ AApprove id now) → quiet w (step a w).
Proof.
  intros Ha. destruct a as [today latest|i focus proposal now|id now|id now|sid|date|date|today spend pok sok|material raw|spend|stopped pok sok|sid s]; cbn [step].
  - unfold tick_begin. destruct gated_out; [done|by apply quiet_plain].
  - unfold tick_end. destruct (ticks w !! i) as [t|]; [|done]. cbv zeta. set (w1 := mkWorld _ _ _ _ _ _ _ _).
    assert (quiet w (refresh_focus t focus w1)) as Hq.
    { etrans; [by apply (quiet_plain w w1)|]. unfold refresh_focus. cbv zeta. destruct (_ ≫= sanitize); [apply quiet_plan|done]. }
    destruct (will_propose t); [|exact Hq]. etrans; [exact Hq|]. unfold propose. destruct (_ ≫= sanitize); [|done].
    destruct (plan (refresh_focus t focus w1)); [|done]. cbv zeta. destruct (_ || _); [done|].
    destruct (try_add_proposal _ _ _ _ _) as [r' []]; apply quiet_plain; try done; cbn; by rewrite starts_app, app_nil_r.
  - by destruct (Ha id now).
  - unfold dismiss_proposal. destruct (is_base cfg); [done|]. destruct (plan w); [|done].
    destruct (try_set_proposal_status _ _ _ _). apply quiet_plan.
  - unfold cancel_goal, try_cancel_goal. destruct (is_base cfg); [done|]. destruct (goals w !! sid) as [g|] eqn:Hg.
    + destruct (_ && _); cbn [fst]; apply quiet_goals; intros k g0 Hg0; [|by exists g0].
      destruct (decide (sid = k)) as [<-|Hne]; [rewrite lookup_insert_eq; rewrite Hg in Hg0; injection Hg0 as <-; by eexists|].
      rewrite lookup_insert_ne by done. by exists g0.
    + cbn [fst]. apply quiet_goals. intros k g0 Hg0. by exists g0.
  - unfold approve_day_plan. destruct (is_base cfg); [done|]. pose proof (quiet_materialize_tx date w) as Hq.
    by destruct (materialize_day_plan_tx date w).
  - unfold dismiss_day_plan. destruct (is_base cfg); [done|]. apply quiet_plan.
  - unfold heart_begin. destruct (heart w); try done. destruct gated_out; [done|]. cbv zeta.
    assert (quiet w (open_plan w)) as Ho by (by apply quiet_plain).
    destruct (negb _).
    { apply quiet_beat. etrans; [exact Ho|]. apply (quiet_goals (open_plan w) (pause_intents _ (goals (open_plan w)))). intros k g. apply pause_same. }
    destruct (bool_decide _); [|exact Ho]. etrans; [exact Ho|]. unfold advance_begin.
    destruct (_ && _); [apply quiet_beat; destruct sok; [apply quiet_plan|done]|].
    cbv zeta. destruct (_ !! _) as [it|]; [|apply quiet_beat; destruct sok; [apply quiet_plan|done]].
    destruct (match it_session it ≫= _ with Some _ => _ | None => _ end); [by apply quiet_beat|apply quiet_advance].
  - unfold heart_written. destruct (heart w); try done. cbv zeta. destruct (bool_decide _); apply quiet_beat, quiet_plan.
  - unfold heart_decides. destruct (heart w); try done. apply quiet_beat. destruct (_ && _); [apply quiet_materialize_tx|done].
  - unfold heart_worked. destruct (heart w); try done. apply quiet_advance.
  - apply quiet_exec.
Qed.

(** A proposal stays, with its text. *)
Definition proposals_of (w : World) : list Proposal := proposals (get_or_create (plan w)).
Lemma step_texts a w p : p ∈ proposals_of w → ∃ p', p' ∈ proposals_of (step a w) ∧ p_id p' = p_id p ∧ p_text p' = p_text p.
Proof.
  assert (∀ v v', prop_step v v' → p ∈ v.1.1.1.1.1 → ∃ p', p' ∈ v'.1.1.1.1.1 ∧ p_id p' = p_id p ∧ p_text p' = p_text p) as Hs; [|apply (Hs _ _ (prop_step_of a w))].
  intros v v' Hs Hp. assert (∀ st now i (ps : list Proposal), p ∈ ps → ∃ p', p' ∈ alter (act_on st now) i ps ∧ p_id p' = p_id p ∧ p_text p' = p_text p) as Hact.
  { intros st now i ps [j Hj]%list_elem_of_lookup. destruct (decide (i = j)) as [->|Hne].
    - exists (act_on st now p). split; [|done]. apply list_elem_of_lookup. exists j. by rewrite list_lookup_alter_eq, Hj.
    - exists p. split; [|done]. apply list_elem_of_lookup. exists j. by rewrite list_lookup_alter_ne. }
  destruct Hs; cbn in *; try (by exists p); [|by apply Hact|by apply Hact]. exists p. split; [|done]. apply elem_of_app. by left.
Qed.
Record backed (w : World) : Prop := mkBacked {
  ba_once : NoDup (starts (log w)).*2;
  ba_goal : ∀ id sid, (id, sid) ∈ starts (log w) → (sid < next_sid w)%Z ∧ sid ∈ mine w ∧
    ∃ g p, goals w !! sid = Some g ∧ p ∈ proposals_of w ∧ p_id p = id ∧ goal_text g = p_text p ∧ origin g = bs "initiative";
}.
Lemma backed_quiet a w : quiet w (step a w) → backed w → backed (step a w).
Proof.
  intros [Q1 Q2 Q3 Q4] [B1 B2]. constructor; rewrite Q4; [done|]. intros id sid Hin.
  destruct (B2 id sid Hin) as (Hlt & Hm & g & p & Hg & Hp & Hid & Ht & Ho). split; [lia|]. split; [by apply Q2|].
  destruct (Q3 sid g Hlt Hg) as (g' & Hg' & E1 & E2). destruct (step_texts a w p Hp) as (p' & Hp' & F1 & F2).
  exists g', p'. split_and!; congruence.
Qed.
Lemma backed_step a w : backed w → backed (step a w).
Proof.
  intros Hb. destruct a as [| |id now| | | | | | | | |]; try (by apply backed_quiet; [apply quiet_step|]).
  pose proof (backed_quiet (AApprove id now) w) as Hq. pose proof (step_texts (AApprove id now) w) as Htx. revert Hq Htx. cbn [step]. unfold approve_proposal.
  destruct (is_base cfg); [by intros Hq _; apply Hq|]. destruct (plan w) as [r|] eqn:Hp; [|by intros Hq _; apply Hq].
  pose proof (flip_spec id (bs "approved") now r) as Hf. destruct (try_set_proposal_status id (bs "approved") now r) as [r' [p|]]; [|by intros Hq _; apply Hq].
  destruct Hf as (i & q & Hi & Hid & Hpend & -> & ->). intros _.
  pose proof (new_session_spec (p_text (act_on (bs "approved") now q)) false (on_plan (λ _, with_proposals (alter (act_on (bs "approved") now) i (proposals r)) r) w)) as Hn.
  destruct (new_session_goal _ _ _) as [w1 sid]. destruct Hn as ([Q1 Q2 Q3 Q4] & -> & Hnext & Hmine & Hlog & Hplan & g & Hg & Et & Eo).
  cbn [fst on_plan next_sid mine goals log] in *. intros Htx. destruct Hb as [B1 B2]. constructor; cbn [say log next_sid mine goals]; rewrite starts_app, Hlog.
  - rewrite fmap_app. apply NoDup_app. split; [done|]. split; [|cbn; apply NoDup_singleton].
    intros x ([k y] & -> & Hin)%list_elem_of_fmap Hx. apply B2 in Hin as [Hlt _].
    assert (y = next_sid w) as -> by (by apply list_elem_of_singleton in Hx). lia.
  - intros k sid [Hin|Hin]%elem_of_app.
    + destruct (B2 k sid Hin) as (Hlt & Hm & g0 & p0 & Hg0 & Hp0 & Hid0 & Ht0 & Ho0). split; [lia|]. split; [by apply Q2|].
      destruct (Q3 sid g0 Hlt Hg0) as (g' & Hg' & E1 & E2). destruct (Htx p0 Hp0) as (p' & Hp' & F1 & F2).
      exists g', p'. split_and!; congruence.
    + apply list_elem_of_singleton in Hin as [= -> ->]. split; [lia|]. split; [done|]. exists g, (act_on (bs "approved") now q).
      split_and!; try done. unfold proposals_of, say. cbn [plan]. rewrite Hplan. unfold on_plan. cbn [plan]. rewrite Hp.
      apply list_elem_of_lookup. exists i. change (alter (act_on (bs "approved") now) i (proposals r) !! i = Some (act_on (bs "approved") now q)).
      by rewrite list_lookup_alter_eq, Hi.
Qed.
Lemma backed_run acts : backed (run acts new_agent).
Proof.
  assert (backed new_agent) as H0 by (constructor; [constructor|]; cbn; intros id sid Hin; by apply not_elem_of_nil in Hin).
  revert H0. generalize new_agent. induction acts as [|a acts IH]; intros w Hw; [done|]. by apply (IH (step a w)), backed_step.
Qed.

(** C18: A proposal is decided once: however often its buttons are pressed and
    whatever ticks, cancellations and drivers do, the goals that approvals
    start are those of distinct proposals, and a proposal has one exactly when
    its status is approved, so a dismissed one never starts one.  The goal that
    an approval starts is there from then on (until somebody sets another goal
    in its session or deletes the session, which the model leaves out): the
    table has, for a session of the agent that no other approval was given, a
    goal with the text of the proposal. *)
(* @prop safety defs=try_set_proposal_status,approve_proposal,dismiss_proposal,try_add_proposal,Goals.upsert_initiative_goal_tx *)
Theorem proposals_decided_once acts :
  let w := run acts new_agent in
  NoDup (goal_proposals (log w)) ∧
  (∀ id, id ∈ goal_proposals (log w) ↔ ∃ p, p ∈ proposals (get_or_create (plan w)) ∧ p_id p = id ∧ p_status p = bs "approved") ∧
  NoDup (starts (log w)).*2 ∧
  ∀ id sid, EGoal id sid ∈ log w → sid ∈ mine w ∧
    ∃ g p, goals w !! sid = Some g ∧ p ∈ proposals (get_or_create (plan w)) ∧ p_id p = id ∧
      goal_text g = p_text p ∧ origin g = bs "initiative".
Proof.
  intros w. assert (decided (view w)) as [_ [H1 H2]].
  { apply view_run; [apply decided_step|]. constructor; cbn; (split; [constructor|]); [constructor|]. intros id. split; [by intros ?%not_elem_of_nil|].
    intros (p & Hp & _). by apply not_elem_of_nil in Hp. }
  destruct (backed_run acts) as [B1 B2]. fold w in B1, B2. split; [exact H1|]. split; [exact H2|]. split; [exact B1|].
  intros id sid Hin. apply (B2 id sid). apply list_elem_of_omap. by exists (EGoal id sid).
Qed.

(** *** The daily cap *)

Definition count (d : Z) (l : list Z) : nat := length (List.filter (Z.eqb d) l).
Lemma count_day_app d l l' : count d (l ++ l') = count d l + count d l'.
Proof. unfold count. by rewrite List.filter_app, length_app. Qed.
Lemma sorted_last (l : list Z) d : StronglySorted Z.le (l ++ [d]) → StronglySorted Z.le l ∧ ∀ x, x ∈ l → (x ≤ d)%Z.
Proof.
  induction l as [|y l IH]; cbn; [intros _; split; [constructor|by intros x ?%not_elem_of_nil]|].
  intros [Hs Hy]%StronglySorted_inv. destruct (IH Hs) as [Hl Hd]. apply Forall_app in Hy as [Hyl Hyd]. split; [by constructor|].
  intros x [->|Hx]%elem_of_cons; [by apply Forall_inv in Hyd|by apply Hd].
Qed.
Lemma count_zero d l : d ∉ l → count d l = 0.
Proof.
  unfold count. induction l as [|x l IH]; [done|]. intros [Hx Hl]%not_elem_of_cons. cbn. destruct (Z.eqb_spec d x); [done|by apply IH].
Qed.
(** The counter counts the proposals of its day, in a log in the order of days. *)
Definition counted (v : View) : Prop :=
  let '(_, n, d, ds, _, _) := v in
  d = last ds ∧ (StronglySorted Z.le ds → (∀ x, d = Some x → n = Z.of_nat (count x ds)) ∧ ∀ x, (Z.of_nat (count x ds) ≤ Z.max 1 (daily_proposal_cap cfg))%Z).
Lemma counted_step v v' : prop_step v v' → counted v → counted v'.
Proof.
  intros Hs Hv. destruct Hs as [v|ps n d ds gs k|ps n d ds gs k p today Hid Hst Hlt|ps n d ds gs k i p now Hp Hst|ps n d ds gs k i p now Hp Hst]; try done.
  destruct Hv as [Hlast Hc]. split; [by rewrite last_snoc|]. intros [Hso Hle]%sorted_last. destruct (Hc Hso) as [Hn Hcap].
  assert (∀ x, count x [today] = if bool_decide (x = today) then 1 else 0) as Hone.
  { intros x. unfold count. cbn. case_bool_decide; destruct (Z.eqb_spec x today); done. }
  assert (d ≠ Some today → count today ds = 0) as Hzero.
  { intros Hd. apply count_zero. intros Hin. destruct (last ds) as [l|] eqn:Hl; [|apply last_None in Hl as ->; by apply not_elem_of_nil in Hin].
    assert (l ≠ today) by congruence. apply last_Some in Hl as [ds' ->]. apply sorted_last in Hso as [_ Hle'].
    pose proof (Hle l ltac:(apply elem_of_app; right; apply list_elem_of_here)). apply elem_of_app in Hin as [Hin|Hin]; [specialize (Hle' _ Hin); lia|].
    apply list_elem_of_singleton in Hin. lia. }
  split.
  - intros x [= <-]. rewrite count_day_app, Hone, (bool_decide_eq_true_2 (today = today)) by done. case_bool_decide as Hd; [rewrite (Hn today Hd); lia|]. rewrite Hzero by done. lia.
  - intros x. rewrite count_day_app, Hone. case_bool_decide as Hx; [|rewrite Nat.add_0_r; apply Hcap]. subst x.
    destruct (bool_decide (d = Some today)) eqn:Hd; [apply bool_decide_eq_true in Hd; pose proof (Hn today Hd); specialize (Hlt Hd); lia|].
    apply bool_decide_eq_false in Hd. rewrite Hzero by done. lia.
Qed.

(** The daily cap holds: with a cap of one or more, as the configuration
    demands, no day has more proposals than the cap, however many ticks run at a
    time and whatever rows they read, as long as proposals are added in the
    order of their days. *)
Theorem daily_cap acts d :
  (1 ≤ daily_proposal_cap cfg)%Z → StronglySorted Z.le (proposal_days (log (run acts new_agent))) →
  (Z.of_nat (count d (proposal_days (log (run acts new_agent)))) ≤ daily_proposal_cap cfg)%Z.
Proof.
  intros Hcap Hso. assert (counted (view (run acts new_agent))) as Hv.
  { apply view_run; [apply counted_step|]. split; [done|]. intros _. split; [done|]. intros x. assert (count x (proposal_days (log new_agent)) = 0) as -> by reflexivity. lia. }
  destruct Hv as [_ Hc]. destruct (Hc Hso) as [_ Hle]. specialize (Hle d). lia.
Qed.

(** *** The plan of a day *)

Definition begun (r : PlanRow) : bool :=
  bool_decide (day_plan_status r = Some (bs "approved")) || bool_decide (day_plan_status r = Some (bs "paused")) ||
  bool_decide (day_plan_status r = Some (bs "done")).
Definition row (w : World) : PlanRow := get_or_create (plan w).
(** An approved plan: each intent has a session, the ones before the pointer are
    done and the others active; a plan that is not approved has no session. *)
Definition worked (cur : Z) (l : list DayIntent) : Prop :=
  (0 ≤ cur)%Z ∧ ∀ i it, l !! i = Some it → is_Some (it_session it) ∧ it_status it = if (Z.of_nat i <? cur)%Z then bs "done" else bs "active".
Definition plan_fine (r : PlanRow) : Prop :=
  if begun r then worked (day_plan_current r) (day_plan r) else ∀ it, it ∈ day_plan r → it_session it = None.
Definition sessions (r : PlanRow) : list Uuid := omap it_session (day_plan r).
Record day_ok (w : World) : Prop := mkDayOk {
  dk_fine : plan_fine (row w);
  dk_sessions : NoDup (sessions (row w)) ∧ ∀ sid, sid ∈ sessions (row w) → (sid < next_sid w)%Z;
  dk_heart : match heart w with
             | HWorking cur l => day_plan (row w) = l ∧ day_plan_current (row w) = Z.of_nat cur ∧ day_plan_status (row w) = Some (bs "approved") ∧ cur < length l
             | _ => True
             end;
}.
(** The plan and the heartbeat stay. *)
Lemma day_same w w' : day_ok w → day_plan (row w') = day_plan (row w) → day_plan_current (row w') = day_plan_current (row w) →
  day_plan_status (row w') = day_plan_status (row w) → (next_sid w ≤ next_sid w')%Z → (heart w' = heart w ∨ ∀ c l, heart w' ≠ HWorking c l) → day_ok w'.
Proof.
  intros [H1 [H2 H2'] H3] Hl Hc Hs Hn Hh. constructor.
  - unfold plan_fine, begun in *. by rewrite Hl, Hc, Hs.
  - unfold sessions in *. rewrite Hl. split; [done|]. intros sid Hin. specialize (H2' sid Hin). lia.
  - destruct Hh as [->|Hh]; [by rewrite Hl, Hc, Hs|]. destruct (heart w'); try done. by destruct (Hh cur intents).
Qed.
(** A plan in which nothing has a session. *)
Lemma day_fresh w l date st h : (∀ it, it ∈ l → it_session it = None) → begun (with_day_plan l 0 date st (row w)) = false →
  (∀ c l, h ≠ HWorking c l) → ∀ w', row w' = with_day_plan l 0 date st (row w) → heart w' = h → day_ok w'.
Proof.
  intros Hl Hb Hh w' Hr Hw. constructor.
  - rewrite Hr. unfold plan_fine. by rewrite Hb.
  - rewrite Hr. unfold sessions; cbn. assert (omap it_session l = []) as ->; [|split; [constructor|by intros sid ?%not_elem_of_nil]].
    clear -Hl. induction l as [|it l IH]; [done|]. cbn. rewrite (Hl it) by apply list_elem_of_here. apply IH. intros x Hx. apply Hl. by right.
  - rewrite Hw. destruct h; try done. by destruct (Hh cur intents).
Qed.
Lemma materialize_spec day l w w' l' : materialize day l w = (w', l') →
  length l' = length l ∧ (next_sid w ≤ next_sid w')%Z ∧ plan w' = plan w ∧ heart w' = heart w ∧
  NoDup (omap it_session l') ∧ (∀ sid, sid ∈ omap it_session l' → (next_sid w ≤ sid < next_sid w')%Z) ∧
  ∀ it, it ∈ l' → is_Some (it_session it) ∧ it_status it = bs "active".
Proof.
  revert w w' l'. induction l as [|it l IH]; intros w w' l' Hm; cbn [materialize] in Hm.
  { injection Hm as <- <-. cbn. split_and!; try done; [constructor|by intros sid ?%not_elem_of_nil|by intros x ?%not_elem_of_nil]. }
  cbn [new_session_goal] in Hm. destruct (materialize day l _) as [w2 l2] eqn:Hm2. injection Hm as <- <-.
  destruct (IH _ _ _ Hm2) as (Hlen & Hn & Hp & Hh & Hnd & Hr & Hit). cbn in Hn, Hp, Hh, Hr.
  split; [cbn; by rewrite Hlen|]. split; [lia|]. split; [done|]. split; [done|]. cbn. split; [|split].
  - constructor; [|done]. intros Hin%Hr. lia.
  - intros sid [->|Hin]%elem_of_cons; [lia|]. specialize (Hr sid Hin). lia.
  - intros x [->|Hin]%elem_of_cons; [done|by apply Hit].
Qed.
Lemma day_materialize date w : day_ok w → day_ok (materialize_day_plan_tx date w).1.
Proof.
  intros Hw. unfold materialize_day_plan_tx. destruct (plan w) as [r|] eqn:Hp; [|done]. cbn [mbind option_bind].
  unfold try_start_day_plan_approval_tx. destruct (_ && _ && _) eqn:Hpend; [|done]. bool_hyps.
  assert (∀ c l, heart w ≠ HWorking c l) as Hh.
  { intros c l Hh. pose proof (dk_heart _ Hw) as Hk. rewrite Hh in Hk. unfold row in Hk. rewrite Hp in Hk. cbn in Hk. destruct Hk as (_ & _ & Hk & _).
    repeat match goal with H : day_plan_status r = Some (bs "pending") |- _ => by rewrite H in Hk end. }
  destruct (materialize date (day_plan r) _) as [w1 l] eqn:Hm.
  destruct (materialize_spec _ _ _ _ _ Hm) as (_ & _ & Hp1 & Hh1 & Hnd & Hr & Hit). cbn in Hp1, Hh1. rewrite Hp in Hp1. cbn in Hp1. cbn [fst].
  assert (row (on_plan (set_day_plan_intents_tx l) w1) = with_day_plan l 0 (day_plan_date r) (Some (bs "approved")) r) as Hrow
    by (unfold row, on_plan; cbn; by rewrite Hp1).
  constructor; rewrite ?Hrow.
  - unfold plan_fine, begun. cbn [day_plan_status with_day_plan]. rewrite bool_decide_eq_true_2 by done. cbn. split; [done|].
    intros i it Hi%list_elem_of_lookup_2. destruct (Hit it Hi) as [Hs ->]. split; [done|]. destruct (Z.ltb_spec (Z.of_nat i) 0); [lia|done].
  - unfold sessions; cbn. split; [done|]. intros sid Hin. by apply Hr in Hin as [_ ?].
  - cbn. rewrite Hh1. destruct (heart w) as [| | |c l0]; try done. by destruct (Hh c l0).
Qed.
Lemma worked_advance cur l f : worked (Z.of_nat cur) l → cur < length l →
  worked (Z.of_nat (plan_advance cur (length l) f).1) (if f then finish_intent cur l else l).
Proof.
  intros Hwk Hlt. unfold plan_advance. destruct (Nat.leb_spec (length l) cur); [lia|]. destruct f; [|done]. destruct Hwk as [_ Hw]. cbn [fst]. split; [lia|].
  intros i it Hi. unfold finish_intent in Hi. destruct (decide (cur = i)) as [<-|Hne].
  - rewrite list_lookup_alter_eq in Hi. destruct (l !! cur) as [it0|] eqn:H0; [|done]. cbn in Hi. injection Hi as <-. cbn.
    split; [apply (Hw _ _ H0)|]. destruct (Z.ltb_spec (Z.of_nat cur) (Z.of_nat (cur + 1))); [done|lia].
  - rewrite list_lookup_alter_ne in Hi by done. destruct (Hw i it Hi) as [Hs ->]. split; [done|].
    destruct (Z.ltb_spec (Z.of_nat i) (Z.of_nat cur)), (Z.ltb_spec (Z.of_nat i) (Z.of_nat (cur + 1))); (done || lia).
Qed.
Lemma sessions_finish cur l : omap it_session (finish_intent cur l) = omap it_session l.
Proof.
  unfold finish_intent. revert cur. induction l as [|it l IH]; intros [|cur]; [done|done|done|]. cbn. by rewrite IH.
Qed.
(** The end of an advance over the plan that is in the row. *)
Lemma day_advance_end cur f pok sok w : day_ok w → day_plan_current (row w) = Z.of_nat cur → day_plan_status (row w) = Some (bs "approved") →
  cur < length (day_plan (row w)) → is_Some (plan w) → day_ok (advance_end cur (day_plan (row w)) f pok sok w).
Proof.
  intros [H1 [H2 H2'] _] Hc Hs Hlt [r Hr]. assert (row w = r) as Hrow by (unfold row; by rewrite Hr). rewrite Hrow in *.
  unfold advance_end. pose proof (worked_advance cur (day_plan r) f) as Hadv. destruct (plan_advance cur (length (day_plan r)) f) as [c d]. cbv zeta. cbn [fst] in Hadv.
  unfold plan_fine, begun in H1. rewrite Hs, bool_decide_eq_true_2 in H1 by done. cbn [orb] in H1. rewrite Hc in H1. specialize (Hadv H1 Hlt).
  set (l' := if f then finish_intent cur (day_plan r) else day_plan r) in *.
  assert (omap it_session l' = omap it_session (day_plan r)) as Hses by (unfold l'; destruct f; [apply sessions_finish|done]).
  set (r1 := if pok then set_day_plan_pointer (Z.of_nat c) l' r else r).
  assert (∀ st, begun (set_day_plan_status st r1) = true → plan_fine (set_day_plan_status st r1)) as Hfine.
  { intros st Hb. unfold plan_fine. rewrite Hb. unfold r1. destruct pok; cbn; [exact Hadv|by rewrite Hc]. }
  set (r2 := if d && sok then set_day_plan_status (Some (bs "done")) r1 else set_day_plan_status (Some (bs "approved")) r1).
  assert (row (beat HIdle (if d && sok then on_plan (set_day_plan_status (Some (bs "done"))) (if pok then on_plan (set_day_plan_pointer (Z.of_nat c) l') w else w)
                           else if pok then on_plan (set_day_plan_pointer (Z.of_nat c) l') w else w)) = r2) as Hr2.
  { unfold r2, r1, row, beat, on_plan; cbn. destruct (d && sok), pok; cbn; rewrite Hr; cbn; try done; destruct r; cbn in *; by rewrite <- Hs. }
  constructor; rewrite ?Hr2.
  - unfold r2. destruct (d && sok); by apply Hfine.
  - assert (sessions r2 = sessions r) as ->; [|split; [done|]; destruct (d && sok), pok; exact H2'].
    unfold r2, r1, sessions. destruct (d && sok), pok; cbn; (exact Hses || done).
  - done.
Qed.
Lemma begun_false l cur date st r : st = None ∨ st = Some (bs "pending") ∨ st = Some (bs "dismissed") → begun (with_day_plan l cur date st r) = false.
Proof. by intros [->|[->| ->]]. Qed.
Lemma worked_range r : worked (day_plan_current r) (day_plan r) → Z.of_nat (Z.to_nat (Z.max 0 (day_plan_current r))) = day_plan_current r.
Proof. intros [Hc _]. lia. Qed.
Lemma day_status st w : day_ok w → (∀ c l, heart w ≠ HWorking c l) → begun (set_day_plan_status st (row w)) = begun (row w) →
  day_ok (beat HIdle (on_plan (set_day_plan_status st) w)).
Proof.
  intros Hw Hh Hb. destruct (plan w) as [r|] eqn:Hp; [|eapply day_same; [exact Hw|..|by right]; try done; unfold row, beat, on_plan; cbn; by rewrite ?Hp].
  destruct Hw as [H1 H2 H3].
  assert (row w = r) as Hr by (unfold row; by rewrite Hp).
  assert (row (beat HIdle (on_plan (set_day_plan_status st) w)) = set_day_plan_status st r) as Hr' by (unfold row, beat, on_plan; cbn; by rewrite Hp).
  rewrite Hr in *. constructor; rewrite ?Hr'; [|exact H2|done]. unfold plan_fine in *. rewrite Hb. exact H1.
Qed.
Lemma day_heart_begin today spend pok sok w : day_ok w → day_ok (heart_begin today spend pok sok w).
Proof.
  intros Hw. unfold heart_begin. destruct (heart w) eqn:Hh; try done. destruct gated_out; [done|]. cbv zeta.
  assert (day_ok (open_plan w)) as Ho by (eapply day_same; [done..|by left]). set (w1 := open_plan w) in *.
  assert (heart w1 = HIdle) as Hh1 by done. assert (plan w1 = Some (row w1)) as Hp by done. clearbody w1.
  assert (∀ c l, heart w1 ≠ HWorking c l) as Hnw by (rewrite Hh1; done).
  change (get_or_create (plan w1)) with (row w1). destruct (negb _); [eapply day_same; [exact Ho|done..|by right]|].
  destruct (bool_decide (day_plan_status (row w1) = Some (bs "approved"))) eqn:Ha; [|done]. apply bool_decide_eq_true in Ha. unfold advance_begin.
  assert (∀ st, st = bs "paused" ∨ st = bs "done" → day_ok (beat HIdle (if sok then on_plan (set_day_plan_status (Some st)) w1 else w1))) as Hst.
  { intros st Hst. destruct sok; [apply day_status; [done|done|]|eapply day_same; [exact Ho|done..|by right]].
    unfold begun; cbn. rewrite Ha. by destruct Hst as [->| ->]. }
  destruct (_ && _); [apply Hst; by left|]. cbv zeta. set (cur := Z.to_nat _).
  destruct (day_plan (row w1) !! cur) as [it|] eqn:Hit; [|apply Hst; by right].
  assert (worked (day_plan_current (row w1)) (day_plan (row w1))) as Hwk.
  { pose proof (dk_fine _ Ho) as Hf. unfold plan_fine, begun in Hf. by rewrite Ha, bool_decide_eq_true_2 in Hf. }
  pose proof (worked_range _ Hwk) as Hcur. fold cur in Hcur. apply lookup_lt_Some in Hit.
  destruct (match it_session it ≫= _ with Some _ => _ | None => _ end); [|by apply day_advance_end].
  destruct Ho as [H1 H2 _]. constructor; [exact H1|exact H2|]. cbn. done.
Qed.
Lemma day_propose t proposal now w : day_ok w → day_ok (propose t proposal now w).
Proof.
  intros Hw. unfold propose. destruct (proposal ≫= sanitize) as [g|]; [|done]. destruct (plan w) as [r|] eqn:Hp; [|done]. cbv zeta.
  destruct (_ || _); [done|]. unfold try_add_proposal. destruct (_ || _); (eapply day_same; [exact Hw|..|by left]); try done; unfold row; by rewrite Hp.
Qed.
Lemma day_step a w : day_ok w → day_ok (step a w).
Proof.
  intros Hw. destruct a as [today latest|i focus proposal now|id now|id now|sid|date|date|today spend pok sok|material raw|spend|stopped pok sok|sid s]; cbn [step].
  - unfold tick_begin. destruct gated_out; [done|]. eapply day_same; [done..|by left].
  - unfold tick_end. destruct (ticks w !! i) as [t|]; [|done]. cbv zeta. set (w1 := mkWorld _ _ _ _ _ _ _ _).
    assert (day_ok w1) as Hw1 by (eapply day_same; [done..|by left]).
    assert (day_ok (refresh_focus t focus w1)) as Hw2.
    { unfold refresh_focus. cbv zeta. destruct (_ ≫= sanitize); [|done]. eapply day_same; [exact Hw1|..|by left]; try done; unfold row, on_plan; cbn; by destruct (plan w). }
    destruct (will_propose t); [by apply day_propose|done].
  - unfold approve_proposal. destruct (is_base cfg); [done|]. destruct (plan w) as [r|] eqn:Hp; [|done].
    pose proof (flip_spec id (bs "approved") now r) as Hf. destruct (try_set_proposal_status id (bs "approved") now r) as [r' [p|]]; [|done].
    destruct Hf as (i & q & _ & _ & _ & _ & ->). eapply day_same; [exact Hw|..|by left]; try done; [..|cbn; lia]; unfold row; cbn; by rewrite ?Hp.
  - unfold dismiss_proposal. destruct (is_base cfg); [done|]. destruct (plan w) as [r|] eqn:Hp; [|done].
    pose proof (flip_spec id (bs "dismissed") now r) as Hf. destruct (try_set_proposal_status id (bs "dismissed") now r) as [r' [p|]].
    + destruct Hf as (i & q & _ & _ & _ & _ & ->). eapply day_same; [exact Hw|..|by left]; try done; unfold row; cbn; by rewrite ?Hp.
    + subst r'. eapply day_same; [exact Hw|..|by left]; try done; unfold row; cbn; by rewrite ?Hp.
  - unfold cancel_goal. destruct (is_base cfg); [done|]. destruct (try_cancel_goal _ _ _ _). by eapply day_same; [exact Hw|..|by left].
  - unfold approve_day_plan. destruct (is_base cfg); [done|]. pose proof (day_materialize date w Hw). by destruct (materialize_day_plan_tx date w).
  - unfold dismiss_day_plan. destruct (is_base cfg); [done|]. cbn [fst]. destruct (plan w) as [r|] eqn:Hp; [|by eapply day_same; [exact Hw|..|by left]; try done; unfold row; cbn; rewrite Hp].
    assert (row w = r) as Hr by (unfold row; by rewrite Hp).
    assert (row (on_plan (λ r, (try_dismiss_day_plan date r).1) w) = (try_dismiss_day_plan date r).1) as Hr' by (unfold row, on_plan; cbn; by rewrite Hp).
    revert Hr'. unfold try_dismiss_day_plan. destruct (_ && _) eqn:Hpend; cbn [fst]; intros Hr'; [|eapply day_same; [exact Hw|..|by left]; try done; congruence].
    assert (day_plan_status r = Some (bs "pending")) as Hst by (by bool_hyps).
    destruct Hw as [H1 H2 H3]. rewrite Hr in *. constructor; rewrite ?Hr'.
    + unfold plan_fine in *. unfold begun in H1. rewrite Hst in H1. exact H1.
    + exact H2.
    + cbn. destruct (heart w); try done. destruct H3 as (_ & _ & H3 & _). by rewrite Hst in H3.
  - by apply day_heart_begin.
  - unfold heart_written. destruct (heart w) eqn:Hh; try done. cbv zeta. destruct (plan w) as [r|] eqn:Hp.
    2: { destruct (bool_decide _); (eapply day_same; [exact Hw|..|by right]); try done; unfold row; cbn; by rewrite ?Hp. }
    assert (row w = r) as Hr by (unfold row; by rewrite Hp).
    destruct (bool_decide _); (eapply day_fresh; [..|unfold row, beat, on_plan; cbn; rewrite Hp; cbn; rewrite <- Hr; done|done]); try done.
    + by intros it ?%not_elem_of_nil.
    + by intros it (t & -> & _)%list_elem_of_fmap.
  - unfold heart_decides. destruct (heart w) eqn:Hh; try done. destruct (_ && _); [|eapply day_same; [exact Hw|..|by right]; done].
    eapply day_same; [exact (day_materialize today w Hw)|..|by right]; done.
  - unfold heart_worked. destruct (heart w) as [| | |c l] eqn:Hh; try done. pose proof (dk_heart _ Hw) as Hk. rewrite Hh in Hk.
    destruct Hk as (Hl & Hc & Hs & Hlt). subst l. apply day_advance_end; [done..|]. destruct (plan w) eqn:Hp; [done|].
    unfold row in Hs. rewrite Hp in Hs. done.
  - eapply day_same; [exact Hw|..|by left]; done.
Qed.
Lemma day_run acts w : day_ok w → day_ok (run acts w).
Proof. revert w. induction acts as [|a acts IH]; intros w Hw; [done|]. by apply IH, day_step. Qed.
Lemma day_new : day_ok new_agent.
Proof.
  constructor; cbn; [unfold plan_fine; cbn; by intros it ?%not_elem_of_nil| |done]. split; [constructor|by intros sid ?%not_elem_of_nil].
Qed.

(** C25: A day plan waits for consent and is worked through in order: in whatever
    order the heartbeat, the model, the owner and the drivers act, and though
    writes may fail, a plan that is not approved has no session for any of its
    intents; an approved one has a session of its own for each, and exactly the
    intents before its pointer are done. *)
(* @prop invariant defs=materialize_day_plan_tx,try_start_day_plan_approval_tx,try_dismiss_day_plan,heart_begin,advance_begin,plan_advance *)
Theorem day_plan_in_order acts :
  let r := get_or_create (plan (run acts new_agent)) in
  NoDup (omap it_session (day_plan r)) ∧
  if begun r
  then ∀ i it, day_plan r !! i = Some it →
         is_Some (it_session it) ∧ it_status it = if (Z.of_nat i <? day_plan_current r)%Z then bs "done" else bs "active"
  else ∀ it, it ∈ day_plan r → it_session it = None.
Proof.
  intros r. destruct (day_run acts _ day_new) as [H1 [H2 _] _]. split; [exact H2|]. unfold plan_fine in H1. fold r in H1 |- *.
  change (row (run acts new_agent)) with r in H1. destruct (begun r); [exact (proj2 H1)|exact H1].
Qed.
End initiative.

Module PlansWitness.
Definition no_block (_ : str) : bool := false.
Definition lower (s : str) : str := s.
Definition any_char (_ : str) : bool := true.
Definition cfg1 : Config := mkConfig false true true 1 false false 1000.
Definition planned (auto : bool) : Config := mkConfig false true true 1 true auto 1000.
#[local] Abbreviation run_ c acts := (run no_block lower any_char c acts new_agent).
(** Three ticks at a time, with a cap of one; two write their proposal on the
    first day and one on the next. *)
Definition ticks_of (d : Z) : list Action := [ATickBegin d (Some 5%Z); ATickBegin d (Some 5%Z)].
Definition propose_now (i : nat) (now : Z) : Action := ATickEnd i None (Some (bs "write the changelog")) now.
Definition three : list Action := ticks_of 1 ++ [ATickBegin 2 (Some 6%Z); propose_now 0 10; propose_now 0 11; propose_now 0 20].
Lemma cap_witness :
  proposal_days (log (run_ cfg1 three)) = [1%Z; 2%Z] ∧
  (Z.of_nat (count 1 (proposal_days (log (run_ cfg1 three)))) ≤ 1)%Z.
Proof.
  assert (proposal_days (log (run_ cfg1 three)) = [1%Z; 2%Z]) as Hl by (vm_compute; reflexivity). split; [exact Hl|].
  apply (daily_cap no_block lower any_char cfg1 three 1); [reflexivity|]. rewrite Hl.
  constructor; [constructor; [constructor|constructor]|constructor; [lia|constructor]].
Defined.
(** Ticks that run over midnight: each one that writes for another day than the
    one before starts the count anew. *)
Example midnight_resets_cap :
  proposal_days (log (run_ cfg1 (ticks_of 1 ++ [ATickBegin 2 (Some 6%Z); ATickBegin 2 (Some 6%Z);
     propose_now 0 10; propose_now 1 11; propose_now 0 12; propose_now 0 13]))) = [1%Z; 2%Z; 1%Z; 2%Z].
Proof. vm_compute. reflexivity. Qed.
(** The owner presses both buttons, twice. *)
Example pressed_twice :
  let w := run_ cfg1 (ticks_of 1 ++ [propose_now 0 10; AApprove 0 11; ADismiss 0 12; AApprove 0 13; ADismiss 0 14]) in
  goal_proposals (log w) = [0] ∧ p_status <$> proposals (get_or_create (plan w)) = [bs "approved"].
Proof. vm_compute. split; reflexivity. Qed.

(** A plan of two intents for day 1. *)
Definition plan_of (d : Z) : list Action :=
  [AHeartBegin d 0 true true; AHeartWritten true [bs "write the changelog"; bs "n/a"; bs "answer the mail"]; AHeartDecides 0].
Definition plan_state (w : World) : option str * Z * list str :=
  let r := get_or_create (plan w) in (day_plan_status r, day_plan_current r, it_status <$> day_plan r).
Example plan_of_a_day :
  plan_state (run_ (planned false) (plan_of 1)) = (Some (bs "pending"), 0%Z, [bs "pending"; bs "pending"]) ∧
  plan_state (run_ (planned false) (plan_of 1 ++ [AApprovePlan 1; AHeartBegin 1 0 true true; AHeartWorked false true true;
      AHeartBegin 1 0 true true; AHeartWorked true true true])) = (Some (bs "approved"), 1%Z, [bs "done"; bs "active"]) ∧
  plan_state (run_ (planned true) (plan_of 1)) = (Some (bs "approved"), 0%Z, [bs "active"; bs "active"]).
Proof. vm_compute. split_and!; reflexivity. Qed.
(** Plans may approve themselves, but this one did not, for the tokens were spent;
    the owner agrees, and the next beat pauses the plan for the tokens. *)
Example consent_is_bounded :
  plan_state (run_ (planned true) [AHeartBegin 1 2000 true true; AHeartWritten true [bs "write the changelog"]; AHeartDecides 2000;
     AApprovePlan 1; AHeartBegin 1 2000 true true]) = (Some (bs "paused"), 0%Z, [bs "active"]).
Proof. vm_compute. reflexivity. Qed.
(** The goal of an intent that was cancelled becomes one that is paused when the
    day ends, for its intent is still active. *)
Example cancelled_goal_comes_back :
  let acts := plan_of 1 ++ [AApprovePlan 1; ACancel 0] in
  g_status <$> goals (run_ (planned false) acts) !! 0%Z = Some (bs "cancelled") ∧
  g_status <$> goals (run_ (planned false) (acts ++ [AHeartBegin 2 0 true true])) !! 0%Z = Some (bs "paused").
Proof. vm_compute. split; reflexivity. Qed.
(** Within the day the beat passes over it, and the intent counts as done. *)
Example cancelled_counts_as_done :
  plan_state (run_ (planned false) (plan_of 1 ++ [AApprovePlan 1; ACancel 0; AHeartBegin 1 0 true true])) =
  (Some (bs "approved"), 1%Z, [bs "done"; bs "active"]).
Proof. vm_compute. reflexivity. Qed.
(** The filter of answers that are none. *)
Example trivial_goals :
  map (λ s, is_trivial_goal lower any_char (bs s)) ["fix"; "nogoal"; "fix the build"]%string = [true; true; false] ∧
  dedup_threads [bs "a"; bs "b"; bs "a"; bs "c"; bs "d"] 3 = [bs "a"; bs "b"; bs "c"].
Proof. vm_compute. split; reflexivity. Qed.
End PlansWitness.
