(* ===== verification/Subagents.v ===== *)
(** * Agents that ask other agents

    The [agent] tool of [agent/pipeline/agent_tool.rs], the pools of live agents
    of [agent/session_agent_pool.rs], the loop of a subagent
    ([agent/pipeline/subagent_runner.rs]), its deny list and the calls a script
    makes ([gateway/handlers/sandbox.rs]).

    The pools are shared: [step] is what one party (an ask, a live agent, the
    cleanup, a REST handler) does while it holds a lock, and a run is any list of
    such steps.  Times are milliseconds. *)
From S2P Require Import Prelude Messages Json LlmErrors ToolLoop Dispatch Thinking LlmRetry Parallel.

(** ** Limits of a subagent *)

(* @src opex-core/src/agent/pipeline/subagent.rs 17-32 SUBAGENT_DENIED_TOOLS *)
Definition SUBAGENT_DENIED_TOOLS : list str :=
  [bs "workspace_delete"; bs "workspace_rename"; bs "cron"; bs "secret_set"; bs "process"; bs "code_exec";
   bs "generate_image"; bs "synthesize_speech"; bs "analyze_image"; bs "transcribe_audio"; bs "search_web"; bs "clarify"].
(* @src opex-core/src/config/mod.rs 1347-1365 DelegationConfig *)
Record DelegationConfig := mkDelegation {
  max_depth : Z;
  blocked_tools_extra : list str;
  subagent_dispatcher_enabled : option bool;
}.
(* @src opex-core/src/config/mod.rs 1371-1379 DelegationConfig::default *)
Definition default_delegation : DelegationConfig := mkDelegation 1 [] None.
Definition valid_tool_name (name : str) : bool :=
  negb (bool_decide (name = [])) &&
  forallb (λ c, is_ascii_alphanumeric c || bool_decide (c = "_"%char) || bool_decide (c = "-"%char)) name.
Inductive DelegationError := MaxDepthZero | InvalidToolName (name : str).
(** The errors stand for their messages. *)
(* @src opex-core/src/config/mod.rs 1382-1413 DelegationConfig::validate *)
Definition validate (d : DelegationConfig) : list DelegationError :=
  (if (max_depth d =? 0)%Z then [MaxDepthZero] else []) ++
  (InvalidToolName <$> List.filter (λ n, negb (valid_tool_name n)) (blocked_tools_extra d)).
(* @src opex-core/src/agent/pipeline/subagent.rs 40-48 runtime_subagent_denylist *)
Definition runtime_subagent_denylist (cfg : DelegationConfig) : list str :=
  foldl (λ denied extra, if bool_decide (extra ∈ denied) then denied else denied ++ [extra])
    SUBAGENT_DENIED_TOOLS (blocked_tools_extra cfg).
(** The list of a run: base agents may execute code. *)
(* @src opex-core/src/agent/pipeline/subagent_runner.rs 187-192 run_subagent_with_session (denied_for_subagent) *)
Definition denied_for_subagent (cfg : DelegationConfig) (is_base : bool) : list str :=
  let denied := runtime_subagent_denylist cfg in
  if is_base then List.filter (λ t, negb (bool_decide (t = bs "code_exec"))) denied else denied.
(** In seconds; a number of minutes wraps around. *)
(* @src opex-core/src/agent/pipeline/subagent.rs 52-63 parse_subagent_timeout *)
Definition parse_subagent_timeout (s : str) : Z :=
  let s := trim s in
  let suffix (c : ascii) := if ends_with [c] s then parse_dec 64 (take (length s - 1) s) else None in
  match suffix "m"%char with
  | Some n => wrap 64 (n * 60)
  | None => default 120%Z (suffix "s"%char)
  end.
(* @src opex-core/src/agent/engine/tool_executor.rs 169-178 dispatch_for_subagent_decision *)
Definition dispatch_for_subagent_decision (is_base dispatcher_enabled : bool) (override : option bool) : bool :=
  if is_base then false else default dispatcher_enabled override.
(* @src opex-core/src/agent/pipeline/tool_defs.rs 1220-1236 filter_for_subagent *)
Definition filter_for_subagent {V} (all_tools : list (ToolDefinition V)) (denied : list str) (allowed : option (list str))
    : list (ToolDefinition V) :=
  let safe := List.filter (λ t, negb (bool_decide (td_name t ∈ denied))) all_tools in
  match allowed with
  | Some whitelist => List.filter (λ t, bool_decide (td_name t ∈ whitelist)) safe
  | None => safe
  end.
(** The tools of other sources that are always offered. *)
(* @src opex-core/src/agent/pipeline/subagent_runner.rs 23-44 always_core_subagent_defs *)
Definition always_core_subagent_defs {V} (always_core : list str) (yaml mcp : list (ToolDefinition V)) (denied : list str)
    : list (ToolDefinition V) :=
  (foldl (λ (acc : list (ToolDefinition V) * list str) name,
     let '(out, seen) := acc in
     if bool_decide (name ∈ denied) || bool_decide (name ∈ seen) then acc else
     match List.find (λ t, bool_decide (td_name t = name)) yaml with
     | Some t => (out ++ [t], name :: seen)
     | None => match List.find (λ t, bool_decide (td_name t = name)) mcp with
               | Some t => (out ++ [t], name :: seen)
               | None => acc
               end
     end) ([], []) always_core).1.
(** What the model of a subagent is offered; the sources are lists of
    definitions, [core] is the static core of the dispatcher. *)
(* @src opex-core/src/agent/pipeline/subagent_runner.rs 147-227 run_subagent_with_session (available_tools) *)
Definition available_tools {V} `{Json V} (internal yaml mcp : list (ToolDefinition V)) (core always_core : list str)
    (cfg : DelegationConfig) (is_base dispatcher_enabled memory_available : bool) (policy : option AgentToolPolicy)
    (allowed : option (list str)) : list (ToolDefinition V) :=
  let dispatch := dispatch_for_subagent_decision is_base dispatcher_enabled (subagent_dispatcher_enabled cfg) in
  let denied := denied_for_subagent cfg is_base in
  let permitted := List.filter (λ t : ToolDefinition V, negb (bool_decide (td_name t ∈ denied))) in
  let internal := if dispatch then List.filter (λ t, bool_decide (td_name t ∈ core)) internal else internal in
  filter_tools_by_policy
    (filter_for_subagent internal denied allowed ++
     if dispatch then (if bool_decide (always_core = []) then [] else always_core_subagent_defs always_core yaml mcp denied)
     else permitted yaml ++ permitted mcp)
    policy memory_available.

(** ** The loop of a subagent *)

Inductive RunError := Llm (e : Error) | Bail (text : str).
(** What a run sees from outside: the provider and its retries ([LlmRetry.Env]),
    the batches of its executor, and at the head of each iteration whether the
    parent cancelled it and whether the deadline is over. *)
Record SubEnv (V W : Type) := mkSubEnv {
  se_llm : Env V W;
  se_batch : nat → Batch (V:=V);   (** by the length of the context *)
  se_cancelled : nat → bool;
  se_late : nat → bool;
}.
Arguments mkSubEnv {V W}.
Arguments se_llm {V W}.
Arguments se_batch {V W}.
Arguments se_cancelled {V W}.
Arguments se_late {V W}.

Section runner.
Context {V : Type} `{Json V} `{Regex} {W : Type}.
Context (hash_call : str → V → Z) (neutralize : str → str → str → str) (to_lowercase : str → str).
Context (is_internal_endpoint : str → bool) (uuid_str : Uuid → str).
Context (env : SubEnv V W) (loop_config : ToolLoopConfig) (tools : list (ToolDefinition V)).
Implicit Types (messages : list (Message V)) (w : W).

Definition context_len messages : nat := sum_list_with (λ m, length (content m)) messages.
Definition calling (r : LlmResponse V) : Message V :=
  mkMessage Assistant (r_content r) (Some (r_tool_calls r)) None (r_thinking_blocks r) None.
Definition tool_result (b : ToolBatchResult) : Message V :=
  mkMessage Tool (br_result b) None (Some (br_tool_call_id b)) [] None.
(** A call of the provider in the loop. *)
(* @src opex-core/src/agent/pipeline/subagent_runner.rs 260-271 run_subagent_with_session (call) *)
Definition ask_model w messages : W * list (Message V) * result Error (LlmResponse V) :=
  if compact_on_overflow loop_config then chat_stream_with_overflow_recovery (se_llm env) w messages tools default_options
  else let '(w, r) := chat_stream (se_llm env) w messages tools default_options in (w, messages, r).
(** The last answer, without tools. *)
(* @src opex-core/src/agent/pipeline/subagent_runner.rs 395-396 run_subagent_with_session (forced answer) *)
Definition forced w messages (streamed : bool) : W * list (Message V) * result RunError str :=
  let '(w, r) := (if streamed then chat_stream else chat) (se_llm env) w messages [] default_options in
  (w, messages, match r with Ok r => Ok (extract_result_text (r_content r) messages) | Err e => Err (Llm e) end).
(** The [rest] iterations that remain; [i] is the number of this one. *)
(* @src opex-core/src/agent/pipeline/subagent_runner.rs 229-401 run_subagent_with_session (loop) *)
Fixpoint subagent_loop (rest i : nat) w messages (detector : LoopDetector) (nudges : nat)
    : W * list (Message V) * result RunError str :=
  match rest with
  | 0 => (w, messages, Err (Bail (bs "subagent exceeded max iterations")))
  | S rest =>
      if se_cancelled env i then (w, messages, Err (Bail (bs "subagent cancelled at iteration " ++ dec i)))
      else if se_late env i then forced w messages true
      else
        let '(w, messages, r) := ask_model w messages in
        match r with
        | Err e => (w, messages, Err (Llm e))
        | Ok r =>
            if bool_decide (r_tool_calls r = []) then (w, messages, Ok (extract_result_text (r_content r) messages))
            else
              let messages := messages ++ [calling r] in
              let '(outcome, detector, _) :=
                execute_tool_calls_partitioned hash_call neutralize to_lowercase is_internal_endpoint uuid_str
                  (se_batch env (context_len messages)) (r_tool_calls r) detector in
              let messages := messages ++ (tool_result <$> bo_results outcome) in
              let '(messages, nudges, loop_broken) :=
                apply_loop_nudge messages (bo_loop_break outcome) nudges (max_loop_nudges loop_config) in
              if loop_broken || (rest =? 0) then forced w messages false
              else subagent_loop rest (S i) w messages detector nudges
        end
  end.
Definition opening (system_prompt task : str) : list (Message V) :=
  [text_message System (system_prompt ++ [LF; LF] ++ bs "You are a subagent. Complete the task and return the result concisely."); text_message User task].
(** [system_prompt] is built elsewhere. *)
(* @src opex-core/src/agent/pipeline/subagent_runner.rs 119-141 run_subagent_with_session (messages) *)
Definition run_subagent (system_prompt task : str) (max_iterations : nat) w : W * list (Message V) * result RunError str :=
  subagent_loop (Z.to_nat (Z.min (Z.of_nat max_iterations) (effective_max_iterations loop_config))) 0 w
    (opening system_prompt task) (ToolLoop.new loop_config) 0.
End runner.

Section runner_spec.
Context {V : Type} `{Json V} `{Regex} {W : Type}.
Context (hash_call : str → V → Z) (neutralize : str → str → str → str) (to_lowercase : str → str).
Context (is_internal_endpoint : str → bool) (uuid_str : Uuid → str).
Context (env : SubEnv V W) (loop_config : ToolLoopConfig) (tools : list (ToolDefinition V)).
Implicit Types (messages ms : list (Message V)) (w : W) (log : list (list (Message V))).

(** A turn with calls, one answer for each id in their order, and remarks of
    the system. *)
Definition round (l : list (Message V)) : Prop :=
  ∃ c calls answers extra, l = c :: answers ++ extra ∧ role c = Assistant ∧ tool_calls c = Some calls ∧
    Forall (λ m, role m = Tool) answers ∧ tool_call_id <$> answers = Some <$> nub [] (tc_id <$> calls) ∧
    Forall (λ m, role m = System ∧ tool_calls m = None) extra.
(** The conversation of a subagent: its opening, answered rounds, and what the
    compaction of a conversation that is too long for the model leaves of it. *)
Inductive conversation (start : list (Message V)) : list (Message V) → Prop :=
| conv_start : conversation start start
| conv_round ms l : conversation start ms → round l → conversation start (ms ++ l)
| conv_compact w ms : compact_on_overflow loop_config = true → conversation start ms →
    conversation start (compact_force (se_llm env) w ms).2.
(** The environment that records what is sent to the model. *)
Definition recorded : SubEnv V (W * list (list (Message V))) :=
  mkSubEnv (logged (se_llm env)) (se_batch env) (se_cancelled env) (se_late env).
Section conversation.
Context (start : list (Message V)).
#[local] Abbreviation conv := (conversation start).
Definition sends n log (o : (W * list (list (Message V))) * list (Message V) * result RunError str) : Prop :=
  ∃ new, o.1.1.2 = log ++ new ∧ length new ≤ n ∧ Forall conv new.
Lemma sends_trans n m k log new o : length new ≤ n → Forall conv new → n + m ≤ k → sends m (log ++ new) o → sends k log o.
Proof.
  intros Hn Hp Hk (new' & Ho & Hm & Hp'). exists (new ++ new'). rewrite app_assoc. split; [done|].
  rewrite length_app. split; [lia|by apply Forall_app].
Qed.
Lemma sends_stop n log w ms r : sends n log ((w, log), ms, r).
Proof. exists []. rewrite app_nil_r. split; [done|]. split; [cbn; lia|constructor]. Qed.
Lemma forced_sends log w ms b : conv ms → sends 1 log (forced recorded (w, log) ms b).
Proof.
  intros Hp. unfold forced. exists [ms].
  assert (Forall conv [ms]) as Hf by (by constructor). destruct b; cbn [se_llm recorded].
  - cbn. by destruct (chat_stream (se_llm env) w ms [] default_options).
  - cbn. by destruct (chat (se_llm env) w ms [] default_options).
Qed.
Lemma ask_sends log w ms : conv ms → let o := ask_model recorded loop_config tools (w, log) ms in
  conv o.1.2 ∧ ∃ new, o.1.1.2 = log ++ new ∧ length new ≤ 2 ∧ Forall conv new.
Proof.
  intros Hp. unfold ask_model. cbn [se_llm recorded]. destruct (compact_on_overflow loop_config) eqn:Hco.
  - unfold chat_stream_with_overflow_recovery. cbn. destruct (chat_stream (se_llm env) w ms tools default_options) as [w1 r1]. cbn.
    assert (Forall conv [ms]) as Hf by (by constructor).
    destruct r1 as [r|e]; cbn; [split; [done|]; exists [ms]; split; [done|]; split; [cbn; lia|done]|].
    destruct (is_recoverable_overflow e); cbn; [|split; [done|]; exists [ms]; split; [done|]; split; [cbn; lia|done]].
    pose proof (conv_compact start w1 ms Hco Hp) as Hc. destruct (compact_force (se_llm env) w1 ms) as [w2 ms2]. cbn in *.
    destruct (chat_stream (se_llm env) w2 ms2 tools default_options) as [w3 r3]. cbn. split; [done|].
    exists [ms; ms2]. split; [by rewrite <- app_assoc|]. split; [cbn; lia|by constructor; [|by constructor]].
  - cbn. destruct (chat_stream (se_llm env) w ms tools default_options) as [w1 r1]. cbn. split; [done|]. exists [ms].
    split; [done|]. split; [cbn; lia|by constructor].
Qed.
Lemma nudge_spec ms o nudges max : ∃ extra, (apply_loop_nudge ms o nudges max).1.1 = ms ++ extra ∧
  Forall (λ m, role m = System ∧ tool_calls m = None) extra.
Proof.
  unfold apply_loop_nudge. destruct o as [reason|]; [|exists []; rewrite app_nil_r; by split; [|constructor]].
  destruct (nudges <? max); [by eexists; split; [done|repeat constructor]|exists []; rewrite app_nil_r; by split; [|constructor]].
Qed.
Lemma results_answer b calls d :
  let l := tool_result <$> bo_results (execute_tool_calls_partitioned hash_call neutralize to_lowercase is_internal_endpoint uuid_str b calls d).1.1 in
  Forall (λ m : Message V, role m = Tool) l ∧ tool_call_id <$> l = Some <$> nub [] (tc_id <$> calls).
Proof.
  cbv zeta. split; [apply Forall_fmap, Forall_forall; done|]. rewrite <- (batch_ids hash_call neutralize to_lowercase is_internal_endpoint uuid_str b calls d).
  rewrite <- !list_fmap_compose. done.
Qed.
Lemma loop_sends rest i log w ms d nudges : conv ms →
  sends (2 * rest + 1) log
    (subagent_loop hash_call neutralize to_lowercase is_internal_endpoint uuid_str recorded loop_config tools rest i (w, log) ms d nudges).
Proof.
  revert i log w ms d nudges. induction rest as [|rest IH]; intros i log w ms d nudges Hp; cbn [subagent_loop]; [apply sends_stop|].
  cbn [se_cancelled se_late se_batch recorded]. destruct (se_cancelled env i); [apply sends_stop|].
  destruct (se_late env i).
  { destruct (forced_sends log w ms true Hp) as (new & Hn & Hl & Hf). exists new. split; [done|]. split; [lia|done]. }
  destruct (ask_sends log w ms Hp) as [Hp1 (new & Hn & Hl & Hf)].
  destruct (ask_model recorded loop_config tools (w, log) ms) as [[[w1 log1] ms1] r]. cbn in Hn, Hp1. subst log1.
  destruct r as [r|e]; [|by eapply (sends_trans 2 0); [exact Hl|exact Hf|lia|apply sends_stop]].
  destruct (bool_decide (r_tool_calls r = [])); [by eapply (sends_trans 2 0); [exact Hl|exact Hf|lia|apply sends_stop]|].
  set (b := se_batch env _). destruct (results_answer b (r_tool_calls r) d) as [Hr Hi].
  destruct (execute_tool_calls_partitioned _ _ _ _ _ b (r_tool_calls r) d) as [[outcome d'] effects]. cbn [fst] in Hr, Hi.
  set (ms2 := (ms1 ++ [calling r]) ++ _).
  destruct (nudge_spec ms2 (bo_loop_break outcome) nudges (max_loop_nudges loop_config)) as (extra & He & Hx).
  destruct (apply_loop_nudge ms2 _ _ _) as [[ms3 nudges'] broken]. cbn [fst] in He.
  assert (conv ms3) as Hp3.
  { subst ms3. unfold ms2. rewrite <- !app_assoc. cbn [app]. apply conv_round; [done|].
    exists (calling r), (r_tool_calls r), (tool_result <$> bo_results outcome), extra. by split_and!. }
  destruct (broken || (rest =? 0)).
  - eapply (sends_trans 2 1); [exact Hl|exact Hf|lia|]. by apply forced_sends.
  - eapply (sends_trans 2 (2 * rest + 1)); [exact Hl|exact Hf|lia|]. by apply IH.
Qed.

End conversation.

End runner_spec.

(** ** Calls of the tool *)

Section tool.
Context {V : Type} `{Json V} `{JsonNumbers V}.
(** [Value::as_u64], and the reading and printing of ids. *)
Context (as_u64 : V → option N) (parse_uuid : str → option Uuid) (uuid_str : Uuid → str) (to_lowercase : str → str).
Implicit Types args : V.

Definition nil_uuid : Uuid := 0%Z.
(* @src opex-core/src/agent/pipeline/agent_tool.rs 53-58 extract_session_id *)
Definition extract_session_id args : option Uuid :=
  ((jget args (bs "_context") ≫= λ ctx : V, jget ctx (bs "session_id")) ≫= jas_str) ≫= parse_uuid.
(* @src opex-core/src/agent/pipeline/agent_tool.rs 67-82 extract_subagent_depth *)
Definition extract_subagent_depth args : Z :=
  match jget args (bs "_context") ≫= λ ctx : V, jget ctx (bs "subagent_depth") with
  | None => 0
  | Some v => match as_u64 v with Some n => Z.min (Z.of_N n) (umax 8) | None => umax 8 end
  end.
(* @src opex-core/src/agent/pipeline/agent_tool.rs 88-100 check_depth_limit *)
Definition check_depth_limit (current_depth : Z) (cfg : DelegationConfig) : result str unit :=
  if (max_depth cfg <=? current_depth)%Z
  then Err (bs "agent tool depth limit reached (depth=" ++ decZ current_depth ++ bs ", max=" ++ decZ (max_depth cfg) ++
            bs "). Subagents cannot spawn further subagents by default. Set [agent.delegation] max_depth = " ++
            decZ (sat_add 8 (max_depth cfg) 1) ++ bs " to allow nested delegation.")
  else Ok tt.
(** The context of a subagent's calls, and of those of a script. *)
Definition subagent_context (depth : Z) : V := jinsert (bs "subagent_depth") (jnumber depth) jempty.
(* @src opex-core/src/gateway/handlers/sandbox.rs 206-216 tool_call (enriched) *)
Definition codemode_args (session_id : Uuid) (agent_name : str) args : V :=
  if jis_object args then
    jinsert (bs "_context")
      (jinsert (bs "_channel") (jstring (bs "codemode"))
         (jinsert (bs "agent_name") (jstring agent_name)
            (jinsert (bs "session_id") (jstring (uuid_str session_id)) jempty))) args
  else args.

Record Ask := mkAsk { q_session : Uuid; q_target : str; q_text : str; q_fresh : bool; q_depth : Z }.
(** A request as the tool reads it; [RBad]: the answer is this text. *)
Inductive Request :=
| RAsk (q : Ask)
| RStatus (session : Uuid) (target : option str)
| RKill (session : Uuid) (target : str)
| RBad (answer : str).
Definition non_empty (s : option str) : option str := match s with Some [] => None | _ => s end.
Definition session_of args : option Uuid :=
  match extract_session_id args with Some id => if (id =? nil_uuid)%Z then None else Some id | None => None end.
Definition str_arg (k : str) args : option str := jget args k ≫= jas_str.
(** The [agent] tool, up to the pools. *)
(* @src opex-core/src/agent/pipeline/agent_tool.rs 111-144 handle_agent_tool *)
Definition read_request args : Request :=
  let action := default [] (str_arg (bs "action") args) in
  let target := non_empty (str_arg (bs "target") args) in
  let missing p := RBad (bs "Error: '" ++ p ++ bs "' parameter is required") in
  let no_session := RBad (bs "Error: no active session — session_id missing from _context") in
  if bool_decide (action = bs "ask") then
    match target with
    | None => missing (bs "target")
    | Some target =>
        match non_empty (str_arg (bs "text") args) with
        | None => missing (bs "text")
        | Some text =>
            match session_of args with
            | None => RBad (bs "Error: no active session — agent tool requires session context via _context")
            | Some sid => RAsk (mkAsk sid target text (default false (jget args (bs "fresh") ≫= jas_bool)) (extract_subagent_depth args))
            end
        end
    end
  else if bool_decide (action = bs "status") then
    match session_of args with None => no_session | Some sid => RStatus sid (str_arg (bs "target") args) end
  else if bool_decide (action = bs "kill") then
    match target with
    | None => missing (bs "target")
    | Some target => match session_of args with None => no_session | Some sid => RKill sid target end
    end
  else RBad (bs "Error: unknown action '" ++ action ++ bs "'. Use 'ask', 'status', or 'kill'.").

Definition jobject (l : list (str * V)) : V := foldl (λ o e, jinsert e.1 e.2 o) jempty l.
(** How a question ended. *)
Inductive Answer :=
| Refused (text : str)
| Completed (text : str)
| Exited
| TimedOut
| Abandoned.   (** the asking call was dropped *)
(* @src opex-core/src/agent/pipeline/agent_tool.rs 431-471 await_message_result *)
Definition await_message_result (target : str) (timeout_secs : Z) (a : Answer) : str :=
  match a with
  | Refused text => text
  | Completed text => jprint (jobject [(bs "status", jstring (bs "completed")); (bs "agent", jstring target); (bs "result", jstring text)])
  | Exited => jprint (jobject [(bs "status", jstring (bs "error")); (bs "agent", jstring target);
                               (bs "result", jstring (bs "Agent '" ++ target ++ bs "' exited before completing"))])
  | TimedOut => jprint (jobject [(bs "status", jstring (bs "timeout")); (bs "agent", jstring target);
                                 (bs "message", jstring (bs "Agent '" ++ target ++ bs "' did not complete within " ++ decZ timeout_secs ++ bs " seconds"))])
  | Abandoned => []
  end.

(** ** The pools *)

Record AgentMessage := mkMsg { m_text : str; m_ask : nat }.
(** Where the loop of a live agent stands: it waits for a message, works on one,
    has sent the answer but is not idle yet, or has ended. *)
Inductive Work := WWait | WRun (m : AgentMessage) | WTold | WGone.
(* @src opex-core/src/agent/session_agent_pool.rs 36-50 LiveAgent *)
Record LiveAgent := mkLive {
  l_name : str;
  l_engine : str;                  (** the agent it runs *)
  l_session : Uuid;
  l_depth : Z;
  l_created : Z;
  l_processing : bool;             (** [status] *)
  l_last : option str;             (** [last_result] *)
  l_count : nat;                   (** [iteration_count] *)
  l_queue : list AgentMessage;     (** the channel *)
  l_dropped : bool;                (** the handle is gone: cancelled and aborted *)
  l_work : Work;
}.
(* @src opex-core/src/agent/session_agent_pool.rs 87-95 struct SessionAgentPool *)
Record SessionAgentPool := mkPool { p_agents : gmap str nat; p_last_activity : Z }.
(* @src opex-core/src/agent/session_agent_pool.rs 85-85 SESSION_AGENT_POOL_MAX *)
Definition SESSION_AGENT_POOL_MAX : nat := 1000.
(* @src opex-core/src/agent/session_agent_pool.rs 182-182 POOL_IDLE_TIMEOUT_SECS *)
Definition POOL_IDLE_TIMEOUT_SECS : Z := 600.
Definition CHANNEL : nat := 32.
(** Where a question stands: before [fresh] is obeyed, before the pool is looked
    at, before the checks of a spawn, before the spawn, waiting for the agent to be
    idle, before the message is sent, waiting for the answer, at its end. *)
Inductive Phase := PFresh | PLook | PCheck | PSpawn (engine : str) (depth : Z) | PIdle | PSend | PAwait | PDone (a : Answer).
(** The channel of the answer. *)
Inductive Reply := Unanswered | Answered (text : str) | Closed.
#[export] Instance reply_dec : EqDecision Reply.
Proof. solve_decision. Defined.
Record Asking := mkAsking { a_ask : Ask; a_from : str; a_phase : Phase; a_reply : Reply }.
(** [map]: the running agents, their delegation, in the order of the map. *)
Definition AgentMap : Type := list (str * DelegationConfig).
(** A finished run: the agent, the name and session it has, the question it read,
    whose it was, and the text it gave. *)
Record Ran := mkRan { n_live : nat; n_name : str; n_session : Uuid; n_question : AgentMessage; n_text : str }.
Record World := mkWorld {
  pools : gmap Uuid SessionAgentPool;
  lives : gmap nat LiveAgent;
  asks : gmap nat Asking;
  agents : AgentMap;
  stale : list Uuid;               (** what the cleanup found *)
  next : nat;
  runs : list Ran;
}.

Definition on_pools f w := mkWorld (f (pools w)) (lives w) (asks w) (agents w) (stale w) (next w) (runs w).
Definition on_lives f w := mkWorld (pools w) (f (lives w)) (asks w) (agents w) (stale w) (next w) (runs w).
Definition on_asks f w := mkWorld (pools w) (lives w) (f (asks w)) (agents w) (stale w) (next w) (runs w).
Definition set_phase u ph : World → World := on_asks (alter (λ a, mkAsking (a_ask a) (a_from a) ph (a_reply a)) u).
(** The first answer counts; without one the channel may be closed. *)
Definition reply r (a : Asking) : Asking :=
  mkAsking (a_ask a) (a_from a) (a_phase a) (match a_reply a with Unanswered => r | r' => r' end).
Definition with_queue q (l : LiveAgent) : LiveAgent :=
  mkLive (l_name l) (l_engine l) (l_session l) (l_depth l) (l_created l) (l_processing l) (l_last l) (l_count l) q (l_dropped l) (l_work l).
Definition with_work processing wk (l : LiveAgent) : LiveAgent :=
  mkLive (l_name l) (l_engine l) (l_session l) (l_depth l) (l_created l) processing (l_last l) (l_count l) (l_queue l) (l_dropped l) wk.
Definition dropped (l : LiveAgent) : LiveAgent :=
  mkLive (l_name l) (l_engine l) (l_session l) (l_depth l) (l_created l) (l_processing l) (l_last l) (l_count l) (l_queue l) true (l_work l).

(** *** The pools *)

Definition pool_ids (p : SessionAgentPool) : list nat := (map_to_list (p_agents p)).*2.
(* @src opex-core/src/agent/session_agent_pool.rs 74-79 LiveAgent::drop *)
Definition drop_ids (ids : list nat) (ls : gmap nat LiveAgent) : gmap nat LiveAgent :=
  map_imap (λ id l, Some (if bool_decide (id ∈ ids) then dropped l else l)) ls.
Definition live_in (w : World) sid (name : str) : option nat := pools w !! sid ≫= λ p, p_agents p !! name.
(* @src opex-core/src/agent/session_agent_pool.rs 128-130 remove *)
Definition remove_agent sid (name : str) (w : World) : World :=
  match live_in w sid name with
  | None => w
  | Some id => on_pools (alter (λ p, mkPool (delete name (p_agents p)) (p_last_activity p)) sid) (on_lives (drop_ids [id]) w)
  end.
(** A pool is taken out of the map and dropped. *)
(* @src opex-core/src/agent/session_agent_pool.rs 150-152 kill_all *)
Definition remove_pool sid (w : World) : World :=
  match pools w !! sid with
  | None => w
  | Some p => on_pools (delete sid) (on_lives (drop_ids (pool_ids p)) w)
  end.
Definition all_lives (w : World) (f : LiveAgent → bool) (p : SessionAgentPool) : bool :=
  forallb (λ id, match lives w !! id with Some l => f l | None => true end) (pool_ids p).
(* @src opex-core/src/agent/session_agent_pool.rs 165-167 is_all_idle *)
Definition is_all_idle w : SessionAgentPool → bool := all_lives w (λ l, negb (l_processing l)).
Definition finished (l : LiveAgent) : bool := match l_work l with WGone => true | _ => false end.
(* @src opex-core/src/agent/session_agent_pool.rs 170-172 is_all_finished *)
Definition is_all_finished w : SessionAgentPool → bool := all_lives w finished.
(* @src opex-core/src/agent/session_agent_pool.rs 175-178 all_idle_longer_than *)
Definition all_idle_longer_than w (now secs : Z) (p : SessionAgentPool) : bool :=
  negb (bool_decide (p_agents p = ∅)) && all_lives w (λ l, negb (l_processing l) && (secs * 1000 <? now - l_created l)%Z) p.
Definition stale_pool w now p : bool :=
  bool_decide (p_agents p = ∅) || is_all_finished w p || all_idle_longer_than w now POOL_IDLE_TIMEOUT_SECS p.
(** The two halves of the cleanup, with the read lock and with the write lock. *)
(* @src opex-core/src/agent/session_agent_pool.rs 185-217 cleanup_stale_pools *)
Definition cleanup_look now (w : World) : World :=
  mkWorld (pools w) (lives w) (asks w) (agents w)
    (fst <$> List.filter (λ e, stale_pool w now e.2) (map_to_list (pools w))) (next w) (runs w).
Definition cleanup_remove now (w : World) : World :=
  foldl (λ w sid, match pools w !! sid with
                  | Some p => if stale_pool w now p then remove_pool sid w else w
                  | None => w
                  end) w (stale w).
(** The pool used least recently; of equal ones the first of the map. *)
Definition oldest (l : list (Uuid * SessionAgentPool)) : option Uuid :=
  fst <$> foldl (λ acc e, match acc with
                          | Some b => if (p_last_activity e.2 <? p_last_activity b.2)%Z then Some e else Some b
                          | None => Some e
                          end) None l.
Definition evict_id (w : World) : option Uuid :=
  match oldest (List.filter (λ e, is_all_idle w e.2) (map_to_list (pools w))) with
  | Some id => Some id
  | None => oldest (map_to_list (pools w))
  end.

(** *** Asking *)

Definition find_agent (name : str) (m : AgentMap) : option (str * DelegationConfig) :=
  match List.find (λ e, bool_decide (e.1 = name)) m with
  | Some e => Some e
  | None => List.find (λ e, bool_decide (to_lowercase e.1 = to_lowercase name)) m
  end.
Definition no_pool sid : str := bs "Error: no agent pool for session " ++ uuid_str sid.
Definition not_found (target : str) : str := bs "Error: agent '" ++ target ++ bs "' not found in session pool".
Definition refuse u text : World → World := set_phase u (PDone (Refused text)).
Definition enqueue (m : AgentMessage) (l : LiveAgent) : LiveAgent := with_queue (l_queue l ++ [m]) l.
(** A live agent with its first message; its channel is new, so that is taken. *)
(* @src opex-core/src/agent/session_agent_pool.rs 287-342 spawn_live_agent *)
Definition spawn_live_agent now sid (name engine : str) depth (m : AgentMessage) : LiveAgent :=
  mkLive name engine sid depth now true None 0 [m] false WWait.
(** The spawn, with the write lock. *)
(* @src opex-core/src/agent/pipeline/agent_tool.rs 265-333 handle_agent_ask (spawn) *)
Definition spawn now u (a : Asking) (engine : str) depth (w : World) : World :=
  let q := a_ask a in let sid := q_session q in
  let w := match pools w !! sid with
           | None => if SESSION_AGENT_POOL_MAX <=? size (pools w)
                     then match evict_id w with Some id => remove_pool id w | None => w end else w
           | Some _ => w
           end in
  let p := default (mkPool ∅ now) (pools w !! sid) in
  let put ags := on_pools <[sid := mkPool ags now]> in
  match p_agents p !! q_target q with
  | Some _ => set_phase u PIdle (put (p_agents p) w)
  | None =>
      let id := next w in
      let w := put (<[q_target q := id]> (p_agents p)) w in
      set_phase u PAwait
        (mkWorld (pools w) (<[id := spawn_live_agent now sid (q_target q) engine depth (mkMsg (q_text q) u)]> (lives w))
           (asks w) (agents w) (stale w) (S id) (runs w))
  end.
(** One look of [wait_until_idle]; a waiter may be woken at any time. *)
(* @src opex-core/src/agent/pipeline/agent_tool.rs 481-522 wait_until_idle *)
Definition look_idle u (q : Ask) (w : World) : option (World → World) :=
  match pools w !! q_session q with
  | None => Some (refuse u (no_pool (q_session q)))
  | Some p =>
      match p_agents p !! q_target q ≫= λ id, lives w !! id with
      | None => Some (refuse u (not_found (q_target q)))
      | Some l =>
          if negb (l_processing l) then Some (set_phase u PSend)
          else if finished l then Some (refuse u (bs "Error: agent '" ++ q_target q ++ bs "' processing loop has exited"))
          else None
      end
  end.
(* @src opex-core/src/agent/pipeline/agent_tool.rs 335-423 ask_continue_existing *)
Definition send_message u (q : Ask) (w : World) : World :=
  match pools w !! q_session q with
  | None => refuse u (no_pool (q_session q)) w
  | Some p =>
      match p_agents p !! q_target q with
      | None => refuse u (not_found (q_target q)) w
      | Some id =>
          match lives w !! id with
          | None => refuse u (not_found (q_target q)) w
          | Some l =>
              if finished l then refuse u (bs "Error: agent '" ++ q_target q ++ bs "' processing loop has exited")
                                   (on_lives <[id := with_work true (l_work l) l]> w)
              else if CHANNEL <=? length (l_queue l)
              then refuse u (bs "Error: agent '" ++ q_target q ++ bs "' message queue is full — it may still be processing") w
              else set_phase u PAwait (on_lives <[id := with_work true (l_work l) (enqueue (mkMsg (q_text q) u) l)]> w)
          end
      end
  end.
(** One step of a question; nothing when it has to wait. *)
(* @src opex-core/src/agent/pipeline/agent_tool.rs 159-331 handle_agent_ask *)
Definition ask_step now u (w : World) : World :=
  match asks w !! u with
  | None => w
  | Some a =>
      let q := a_ask a in
      match a_phase a with
      | PFresh => set_phase u PLook (if q_fresh q then remove_agent (q_session q) (q_target q) w else w)
      | PLook => set_phase u (match live_in w (q_session q) (q_target q) with Some _ => PIdle | None => PCheck end) w
      | PCheck =>
          let cfg := default default_delegation (snd <$> find_agent (a_from a) (agents w)) in
          match check_depth_limit (q_depth q) cfg with
          | Err e => refuse u (bs "Error: " ++ e) w
          | Ok _ =>
              match find_agent (q_target q) (agents w) with
              | None => refuse u (bs "Error: agent '" ++ q_target q ++ bs "' not found") w
              | Some (engine, _) => set_phase u (PSpawn engine (sat_add 8 (q_depth q) 1)) w
              end
          end
      | PSpawn engine depth => spawn now u a engine depth w
      | PIdle => match look_idle u q w with Some f => f w | None => w end
      | PSend => send_message u q w
      | PAwait => match a_reply a with
                  | Answered t => set_phase u (PDone (Completed (if bool_decide (trim t = []) then bs "(no result)" else t))) w
                  | Closed => set_phase u (PDone Exited) w
                  | Unanswered => w
                  end
      | PDone _ => w
      end
  end.
(** A deadline is over: the last look counts. *)
Definition ask_timeout (idle_secs : Z) u (w : World) : World :=
  match asks w !! u with
  | None => w
  | Some a =>
      match a_phase a with
      | PIdle => match look_idle u (a_ask a) w with
                 | Some f => f w
                 | None => refuse u (bs "Error: agent '" ++ q_target (a_ask a) ++ bs "' did not become idle within " ++
                                     decZ idle_secs ++ bs " seconds — still processing previous message") w
                 end
      | PAwait => match a_reply a with Unanswered => set_phase u (PDone TimedOut) w | _ => w end
      | _ => w
      end
  end.

(** *** The loop of a live agent *)

Definition close_all (l : list AgentMessage) (m : gmap nat Asking) : gmap nat Asking :=
  foldl (λ m x, alter (reply Closed) (m_ask x) m) m l.
Definition in_hand (l : LiveAgent) : list AgentMessage := match l_work l with WRun m => m :: l_queue l | _ => l_queue l end.
(** The task ends: the messages it has are dropped with their channels. *)
Definition loop_gone id (l : LiveAgent) (w : World) : World :=
  on_asks (close_all (in_hand l)) (on_lives <[id := with_work (l_processing l) WGone (with_queue [] l)]> w).
Definition told text (l : LiveAgent) : LiveAgent :=
  mkLive (l_name l) (l_engine l) (l_session l) (l_depth l) (l_created l) (l_processing l) (Some text) (S (l_count l)) (l_queue l) (l_dropped l) WTold.
(** [text]: the answer of the run that ends, its error or its panic as a text. *)
(* @src opex-core/src/agent/session_agent_pool.rs 345-427 agent_processing_loop *)
Definition loop_step id (text : str) (w : World) : World :=
  match lives w !! id with
  | None => w
  | Some l =>
      match l_work l with
      | WWait =>
          match l_queue l with
          | [] => if l_dropped l then loop_gone id l w else w
          | m :: q => if l_dropped l then loop_gone id l w else on_lives <[id := with_work true (WRun m) (with_queue q l)]> w
          end
      | WRun m =>
          mkWorld (pools w)
            (<[id := told text l]> (lives w))
            (alter (reply (Answered text)) (m_ask m) (asks w)) (agents w) (stale w) (next w)
            (runs w ++ [mkRan id (l_name l) (l_session l) m text])
      | WTold => if l_dropped l then loop_gone id (with_work false (l_work l) l) w else on_lives <[id := with_work false WWait l]> w
      | WGone => w
      end
  end.
(** The abort of a task whose handle is gone, at one of its waits. *)
Definition loop_abort id (w : World) : World :=
  match lives w !! id with
  | Some l => if l_dropped l && negb (finished l) then loop_gone id l w else w
  | None => w
  end.

(** *** The other requests *)

(* @src opex-core/src/agent/session_agent_pool.rs 269-274 AgentPoolEntry *)
Record AgentPoolEntry := mkEntry { e_name : str; e_status : str; e_iterations : nat; e_elapsed_ms : Z }.
Definition entry (now : Z) (l : LiveAgent) : AgentPoolEntry :=
  mkEntry (l_name l) (if l_processing l then bs "processing" else bs "idle") (l_count l) (now - l_created l).
(* @src opex-core/src/agent/session_agent_pool.rs 133-147 list *)
Definition list_agents now (w : World) (p : SessionAgentPool) : list AgentPoolEntry :=
  omap (λ id, entry now <$> lives w !! id) (pool_ids p).
Inductive StatusAnswer := SAgents (l : list AgentPoolEntry) | SAgent (e : AgentPoolEntry) (last : option str) | SError (text : str).
(* @src opex-core/src/agent/pipeline/agent_tool.rs 525-577 handle_agent_status *)
Definition handle_agent_status now sid (target : option str) (w : World) : StatusAnswer :=
  match pools w !! sid with
  | None => SAgents []
  | Some p =>
      match target with
      | None => SAgents (list_agents now w p)
      | Some t => match p_agents p !! t ≫= λ id, lives w !! id with
                  | Some l => SAgent (entry now l) (l_last l)
                  | None => SError (not_found t)
                  end
      end
  end.
(* @src opex-core/src/agent/pipeline/agent_tool.rs 580-617 handle_agent_kill *)
Definition handle_agent_kill sid (target : str) (w : World) : World * str :=
  match pools w !! sid with
  | None => (w, no_pool sid)
  | Some _ =>
      match live_in w sid target with
      | Some _ => (remove_agent sid target w,
                   jprint (jobject [(bs "status", jstring (bs "ok")); (bs "agent", jstring target);
                                    (bs "message", jstring (bs "Agent '" ++ target ++ bs "' killed"))]))
      | None => (w, not_found target)
      end
  end.
(** Who calls the tool: a turn with its context, a live agent at work, or a
    script of an agent. *)
Inductive Caller :=
| Turn (from : str) (session : Uuid) (context : V) (channel : str)
| Live (id : nat)
| Script (from : str) (session : Uuid).
Definition INTER_AGENT : str := bs "inter_agent".
Definition arguments (c : Caller) args (w : World) : option (str * V) :=
  match c with
  | Turn from sid context channel => Some (from, enrich_tool_args uuid_str args context sid channel)
  | Live id =>
      match lives w !! id with
      | Some l => match l_work l with
                  | WRun _ => Some (l_engine l, enrich_tool_args uuid_str args (subagent_context (l_depth l)) (l_session l) INTER_AGENT)
                  | _ => None
                  end
      | None => None
      end
  | Script from sid => Some (from, codemode_args sid from args)
  end.
Definition request u (c : Caller) args (w : World) : World :=
  match arguments c args w with
  | None => w
  | Some (from, args) =>
      match read_request args with
      | RAsk q => match asks w !! u with Some _ => w | None => on_asks <[u := mkAsking q from PFresh Unanswered]> w end
      | RKill sid target => (handle_agent_kill sid target w).1
      | RStatus _ _ | RBad _ => w
      end
  end.
(** The deletion of an agent: its instances of that name go. *)
(* @src opex-core/src/gateway/handlers/agents/crud.rs 1424-1437 delete_agent (hot-stop) *)
Definition delete_agent (name : str) (w : World) : World :=
  let w := mkWorld (pools w) (lives w) (asks w) (List.filter (λ e, negb (bool_decide (e.1 = name))) (agents w)) (stale w) (next w) (runs w) in
  foldl (λ w sid, remove_agent sid name w) w (map_to_list (pools w)).*1.
(** The deletion of sessions. *)
(* @src opex-core/src/gateway/handlers/sessions.rs 415-421 delete_all_sessions (pools) *)
Definition delete_sessions (sids : list Uuid) (w : World) : World := foldl (λ w sid, remove_pool sid w) w sids.

Inductive Action :=
| ARequest (u : nat) (c : Caller) (args : V)
| AAsk (u : nat) (now : Z)
| ATimeout (u : nat) (idle_secs : Z)
| AAbandon (u : nat)
| ALoop (id : nat) (text : str)
| AAbort (id : nat)
| ALook (now : Z)
| ACleanup (now : Z)
| ADeleteSessions (sids : list Uuid)
| ADeleteAgent (name : str)
| AAgents (m : AgentMap).          (** agents are started or configured anew *)
Definition abandon u (w : World) : World :=
  match asks w !! u with
  | Some a => match a_phase a with PDone _ => w | _ => set_phase u (PDone Abandoned) w end
  | None => w
  end.
Definition step (a : Action) (w : World) : World :=
  match a with
  | ARequest u c args => request u c args w
  | AAsk u now => ask_step now u w
  | ATimeout u secs => ask_timeout secs u w
  | AAbandon u => abandon u w
  | ALoop id text => loop_step id text w
  | AAbort id => loop_abort id w
  | ALook now => cleanup_look now w
  | ACleanup now => cleanup_remove now w
  | ADeleteSessions sids => delete_sessions sids w
  | ADeleteAgent name => delete_agent name w
  | AAgents m => mkWorld (pools w) (lives w) (asks w) m (stale w) (next w) (runs w)
  end.
Definition run (acts : list Action) (w : World) : World := foldl (λ w a, step a w) w acts.
Definition no_agents : World := mkWorld ∅ ∅ ∅ [] [] 0 [].
Lemma run_ind (P : World → Prop) : (∀ a w, P w → P (step a w)) → P no_agents → ∀ acts, P (run acts no_agents).
Proof.
  intros Hs Hn acts. unfold run. revert Hn. generalize no_agents. induction acts as [|a acts IH]; intros w Hw; [done|]. by apply IH, Hs.
Qed.

(** ** Answers *)

Definition hand (l : LiveAgent) : Uuid * str * list AgentMessage := (l_session l, l_name l, in_hand l).
Definition hands (w : World) : gmap nat (Uuid * str * list AgentMessage) := hand <$> lives w.
(** What a step does to the messages: [ended] is what an ask may become. *)
Definition ended (a : Asking) (ph : Phase) : Prop :=
  match ph with
  | PAwait => False
  | PDone (Completed t) => ∃ t', a_reply a = Answered t' ∧ t = if bool_decide (trim t' = []) then bs "(no result)" else t'
  | _ => match a_phase a with PDone _ => ph = a_phase a | PAwait => match ph with PDone _ => True | _ => False end | _ => True end
  end.
Definition before_send (a : Asking) : Prop := match a_phase a with PAwait | PDone _ => False | _ => True end.
Definition msg_of u (a : Asking) : AgentMessage := mkMsg (q_text (a_ask a)) u.
Definition to_phase ph (a : Asking) : Asking := mkAsking (a_ask a) (a_from a) ph (a_reply a).
Inductive moved : gmap nat (Uuid * str * list AgentMessage) * gmap nat Asking * list Ran →
                  gmap nat (Uuid * str * list AgentMessage) * gmap nat Asking * list Ran → Prop :=
| mv_same v : moved v v
| mv_phase hs qs rs u a ph : qs !! u = Some a → ended a ph → moved (hs, qs, rs) (hs, <[u := to_phase ph a]> qs, rs)
| mv_new hs qs rs u q from : qs !! u = None → (0 ≤ q_depth q)%Z → moved (hs, qs, rs) (hs, <[u := mkAsking q from PFresh Unanswered]> qs, rs)
| mv_send hs qs rs u a id l : qs !! u = Some a → before_send a →
    (hs !! id = None ∧ l = [] ∨ hs !! id = Some (q_session (a_ask a), q_target (a_ask a), l)) →
    moved (hs, qs, rs) (<[id := (q_session (a_ask a), q_target (a_ask a), l ++ [msg_of u a])]> hs, <[u := to_phase PAwait a]> qs, rs)
| mv_told hs qs rs id sid name m l text : hs !! id = Some (sid, name, m :: l) →
    moved (hs, qs, rs) (<[id := (sid, name, l)]> hs, alter (reply (Answered text)) (m_ask m) qs, rs ++ [mkRan id name sid m text])
| mv_gone hs qs rs id sid name l : hs !! id = Some (sid, name, l) →
    moved (hs, qs, rs) (<[id := (sid, name, [])]> hs, close_all l qs, rs).

#[local] Abbreviation Hands := (gmap nat (Uuid * str * list AgentMessage)).
Definition holds (hs : Hands) (id : nat) sid (name : str) (m : AgentMessage) : Prop := ∃ l, hs !! id = Some (sid, name, l) ∧ m ∈ l.
(** The ask of a message that was sent. *)
Definition sent (qs : gmap nat Asking) sid (name : str) (m : AgentMessage) (r : Reply) : Prop :=
  ∃ a, qs !! m_ask m = Some a ∧ ¬ before_send a ∧ msg_of (m_ask m) a = m ∧ q_session (a_ask a) = sid ∧ q_target (a_ask a) = name ∧ a_reply a = r.
Record sound (v : Hands * gmap nat Asking * list Ran) : Prop := mkSound {
  s_msg : ∀ id sid name m, holds v.1.1 id sid name m → sent v.1.2 sid name m Unanswered;
  s_one : ∀ id id' sid sid' name name' m m', holds v.1.1 id sid name m → holds v.1.1 id' sid' name' m' → m_ask m = m_ask m' → id = id';
  s_nodup : ∀ id x, v.1.1 !! id = Some x → NoDup (m_ask <$> x.2);
  s_await : ∀ u a, v.1.2 !! u = Some a → a_phase a = PAwait → a_reply a = Unanswered → ∃ id sid name m, holds v.1.1 id sid name m ∧ m_ask m = u;
  s_fresh : ∀ u a, v.1.2 !! u = Some a → before_send a → a_reply a = Unanswered;
  s_runs : NoDup ((λ r, m_ask (n_question r)) <$> v.2) ∧
           ∀ r, r ∈ v.2 → sent v.1.2 (n_session r) (n_name r) (n_question r) (Answered (n_text r));
  s_reply : ∀ u a t, v.1.2 !! u = Some a → a_reply a = Answered t → ∃ r, r ∈ v.2 ∧ m_ask (n_question r) = u ∧ n_text r = t;
  s_done : ∀ u a t, v.1.2 !! u = Some a → a_phase a = PDone (Completed t) →
           ∃ t', a_reply a = Answered t' ∧ t = if bool_decide (trim t' = []) then bs "(no result)" else t';
}.
(** An ask changes its phase. *)
Lemma sent_phase qs sid name m r u a ph : qs !! u = Some a → (¬ before_send a → ¬ before_send (to_phase ph a)) →
  sent qs sid name m r → sent (<[u := to_phase ph a]> qs) sid name m r.
Proof.
  intros Ha Hb (b & Hq & Hbs & Hm & Hs & Hn & Hr). destruct (decide (m_ask m = u)) as [<-|Hne].
  - rewrite Ha in Hq. injection Hq as <-. exists (to_phase ph a). rewrite lookup_insert_eq. split; [done|]. split; [by apply Hb|]. done.
  - exists b. rewrite lookup_insert_ne by done. done.
Qed.
Lemma ended_sent a ph : ended a ph → ¬ before_send a → ¬ before_send (to_phase ph a).
Proof. unfold before_send. destruct a as [q f p r]; cbn. destruct p; try done; destruct ph; try done; cbn; intuition congruence. Qed.
Lemma sound_phase hs qs rs u a ph : qs !! u = Some a → ended a ph → sound (hs, qs, rs) → sound (hs, <[u := to_phase ph a]> qs, rs).
Proof.
  intros Ha He [H1 H2 H3 H4 H5 [H6 H6'] H7 H8]. cbn in *. pose proof (ended_sent a ph He) as Hb. constructor; cbn; try done.
  - intros id sid name m Hm. apply sent_phase; [done..|by eapply H1].
  - intros v b [(<- & <-)|(Hne & Hv)]%lookup_insert_Some Hp Hr; [|by eapply H4]. cbn in Hp. subst ph. by destruct He.
  - intros v b [(<- & <-)|(Hne & Hv)]%lookup_insert_Some Hbs; [|by eapply H5]. cbn. apply (H5 u a Ha).
    destruct a as [q f p r]; cbn in *. unfold before_send in *; cbn in *. destruct p; try done; tauto.
  - split; [done|]. intros r Hr. apply sent_phase; [done..|by apply H6'].
  - intros v b t [(<- & <-)|(Hne & Hv)]%lookup_insert_Some Hr; [|by eapply H7]. by eapply H7.
  - intros v b t [(<- & <-)|(Hne & Hv)]%lookup_insert_Some Hp; [|by eapply H8]. cbn in *. subst ph. cbn in He. done.
Qed.
Lemma holds_insert hs id id' sid sid' name name' l m : holds (<[id := (sid, name, l)]> hs) id' sid' name' m →
  (id' = id ∧ sid' = sid ∧ name' = name ∧ m ∈ l) ∨ (id' ≠ id ∧ holds hs id' sid' name' m).
Proof.
  intros (l' & [(<- & Heq)|(Hne & Hl)]%lookup_insert_Some & Hm); [injection Heq as <- <- <-; by left|]. right. split; [done|by exists l'].
Qed.
Lemma holds_eq (hs : Hands) id sid name l m : m ∈ l → holds (<[id := (sid, name, l)]> hs) id sid name m.
Proof. intros Hm. exists l. by rewrite lookup_insert_eq. Qed.
Lemma holds_ne (hs : Hands) id x i sid name m : i ≠ id → holds hs i sid name m → holds (<[id := x]> hs) i sid name m.
Proof. intros Hi (l & Hl & Hm). exists l. by rewrite lookup_insert_ne. Qed.
Lemma sound_send hs qs rs u a id l : qs !! u = Some a → before_send a →
  (hs !! id = None ∧ l = [] ∨ hs !! id = Some (q_session (a_ask a), q_target (a_ask a), l)) → sound (hs, qs, rs) →
  sound (<[id := (q_session (a_ask a), q_target (a_ask a), l ++ [msg_of u a])]> hs, <[u := to_phase PAwait a]> qs, rs).
Proof.
  intros Ha Hb Hl [H1 H2 H3 H4 H5 [H6 H6'] H7 H8]. cbn in *.
  set (sid := q_session (a_ask a)) in *. set (name := q_target (a_ask a)) in *.
  assert (∀ id sid name m, holds hs id sid name m → m_ask m ≠ u) as Hnew.
  { intros id' sid' name' m Hm Hu. destruct (H1 _ _ _ _ Hm) as (b & Hq & Hbs & _). rewrite Hu, Ha in Hq. by injection Hq as <-. }
  assert (∀ m, m ∈ l → holds hs id sid name m) as Hold.
  { intros m Hm. destruct Hl as [[_ ->]|Hl]; [by apply not_elem_of_nil in Hm|by exists l]. }
  assert (∀ b, ¬ before_send b → ¬ before_send (to_phase PAwait b)) as Hph by (intros b _ []).
  constructor; cbn.
  - intros id' sid' name' m [(-> & -> & -> & Hm)|(Hne & Hm)]%holds_insert; [|apply sent_phase; [done..|by eapply H1]].
    apply elem_of_app in Hm as [Hm|Hm]; [apply sent_phase; [done..|eapply H1, Hold, Hm]|]. apply list_elem_of_singleton in Hm as ->.
    exists (to_phase PAwait a). cbn. rewrite lookup_insert_eq. split; [done|]. split; [by intros []|]. split; [done|]. split; [done|]. split; [done|].
    by apply (H5 u a).
  - intros i i' s s' n n' m m' [(-> & -> & -> & Hm)|(Hne & Hm)]%holds_insert [(-> & -> & -> & Hm')|(Hne' & Hm')]%holds_insert Heq; try done.
    + apply elem_of_app in Hm as [Hm|Hm]; [by eapply H2; [apply Hold, Hm|done|done]|]. apply list_elem_of_singleton in Hm as ->. by destruct (Hnew _ _ _ _ Hm').
    + apply elem_of_app in Hm' as [Hm'|Hm']; [by eapply H2; [done|apply Hold, Hm'|done]|]. apply list_elem_of_singleton in Hm' as ->. by destruct (Hnew _ _ _ _ Hm).
    + by eapply H2.
  - intros i x [(<- & <-)|(Hne & Hx)]%lookup_insert_Some; [|by eapply H3]. cbn. rewrite fmap_app. apply NoDup_app. split; [|split].
    + destruct Hl as [[_ ->]|Hl]; [constructor|]. by apply (H3 id _ Hl).
    + intros x Hx ->%list_elem_of_singleton. apply list_elem_of_fmap in Hx as (m & Hmu & Hm). by apply (Hnew _ _ _ _ (Hold m Hm)).
    + apply NoDup_singleton.
  - intros v b [(<- & <-)|(Hne & Hv)]%lookup_insert_Some Hp Hr.
    + exists id, sid, name, (msg_of u a). split; [|done]. apply holds_eq, elem_of_app. right. by apply list_elem_of_singleton.
    + destruct (H4 v b Hv Hp Hr) as (i & s & n & m & (l' & Hi & Hm) & Hu). destruct (decide (i = id)) as [->|Hi'].
      * destruct Hl as [[Hl _]|Hl]; [by rewrite Hl in Hi|]. rewrite Hl in Hi. injection Hi as <- <- <-. exists id, sid, name, m. split; [|done]. apply holds_eq, elem_of_app. by left.
      * exists i, s, n, m. split; [|done]. apply holds_ne; [done|]. by exists l'.
  - intros v b [(<- & <-)|(Hne & Hv)]%lookup_insert_Some Hbs; [by destruct Hbs|by eapply H5].
  - split; [done|]. intros r Hr. apply sent_phase; [done..|by apply H6'].
  - intros v b t [(<- & <-)|(Hne & Hv)]%lookup_insert_Some Hr; by eapply H7.
  - intros v b t [(<- & <-)|(Hne & Hv)]%lookup_insert_Some Hp; [done|by eapply H8].
Qed.
(** An answer, or the end of its channel, at the ask of a message. *)
Lemma sent_reply qs sid name m r m' r' : m_ask m ≠ m_ask m' → sent qs sid name m r → sent (alter (reply r') (m_ask m') qs) sid name m r.
Proof. intros Hne (a & Ha & Hr). exists a. split; [by rewrite lookup_alter_ne|done]. Qed.
Lemma before_reply r a : before_send (reply r a) ↔ before_send a.
Proof. done. Qed.
Lemma alter_Some (f : Asking → Asking) u (qs : gmap nat Asking) v b : alter f u qs !! v = Some b →
  ∃ a, qs !! v = Some a ∧ b = if decide (u = v) then f a else a.
Proof.
  destruct (decide (u = v)) as [<-|Hne]; [rewrite lookup_alter_eq|rewrite lookup_alter_ne by done; by exists b].
  destruct (qs !! u) as [a|]; [|done]. intros [= <-]. by exists a.
Qed.
(** A message leaves the head of a hand with a reply. *)
Lemma sound_reply hs qs rs id sid name m l r new : hs !! id = Some (sid, name, m :: l) → sound (hs, qs, rs) →
  (r = Closed ∧ new = [] ∨ ∃ t, r = Answered t ∧ new = [mkRan id name sid m t]) →
  sound (<[id := (sid, name, l)]> hs, alter (reply r) (m_ask m) qs, rs ++ new).
Proof.
  intros Hid [H1 H2 H3 H4 H5 [H6 H6'] H7 H8] Hnew. cbn in *.
  assert (∀ i s n m', holds (<[id := (sid, name, l)]> hs) i s n m' → holds hs i s n m') as Hold.
  { intros i s n m' [(-> & -> & -> & Hm)|(Hne & Hm)]%holds_insert; [|done]. exists (m :: l). split; [done|by right]. }
  assert (∀ i s n m', holds (<[id := (sid, name, l)]> hs) i s n m' → m_ask m' ≠ m_ask m) as Hother.
  { intros i s n m' Hm Heq. assert (i = id) as -> by (eapply H2; [by apply Hold|exists (m :: l); split; [done|by left]|done]).
    apply holds_insert in Hm as [(_ & _ & _ & Hm)|[? _]]; [|done]. specialize (H3 id _ Hid). cbn in H3. apply NoDup_cons in H3 as [Hn _].
    apply Hn. rewrite <- Heq. by apply list_elem_of_fmap_2. }
  destruct (H1 id sid name m) as (am & Ham & Hbm & Hmm & Hsm & Hnm & Hrm); [exists (m :: l); split; [done|by left]|].
  assert (∀ x, x ∈ rs → m_ask (n_question x) ≠ m_ask m) as Hruns.
  { intros x Hx Heq. destruct (H6' x Hx) as (b & Hb & _ & _ & _ & _ & Hr). rewrite Heq, Ham in Hb. injection Hb as <-. by rewrite Hrm in Hr. }
  constructor; cbn.
  - intros i s n m' Hm. apply sent_reply; [by eapply Hother|]. by eapply H1, Hold.
  - intros i i' s s' n n' m1 m2 Hm1 Hm2. eapply H2; by apply Hold.
  - intros i x [(<- & <-)|(Hne & Hx)]%lookup_insert_Some; [|by eapply H3]. specialize (H3 id _ Hid). cbn in *. by apply NoDup_cons in H3 as [_ ?].
  - intros v b (a & Ha & ->)%alter_Some Hp Hr. destruct (decide (m_ask m = v)) as [<-|Hne].
    + rewrite Ham in Ha. injection Ha as <-. unfold reply in Hr. cbn in Hr. rewrite Hrm in Hr. by destruct Hnew as [[-> _]|(t & -> & _)].
    + destruct (H4 v a Ha Hp Hr) as (i & s & n & m' & (l' & Hi & Hm) & Hu). exists i, s, n, m'. split; [|done].
      destruct (decide (i = id)) as [->|Hi']; [|apply holds_ne; [done|by exists l']].
      rewrite Hid in Hi. injection Hi as <- <- <-. apply holds_eq. by apply elem_of_cons in Hm as [->|Hm].
  - intros v b (a & Ha & ->)%alter_Some Hb. destruct (decide (m_ask m = v)) as [<-|Hne]; [|by eapply H5].
    rewrite Ham in Ha. injection Ha as <-. by apply before_reply in Hb.
  - split.
    + rewrite fmap_app. apply NoDup_app. split; [done|]. destruct Hnew as [[_ ->]|(t & _ & ->)]; (split; [|apply NoDup_singleton || constructor]).
      * by intros x _ ?%not_elem_of_nil.
      * intros x Hx ->%list_elem_of_singleton. apply list_elem_of_fmap in Hx as (y & Hy & Hin). by apply (Hruns y Hin).
    + intros x [Hx|Hx]%elem_of_app; [apply sent_reply; [by apply Hruns|by apply H6']|].
      destruct Hnew as [[_ ->]|(t & -> & ->)]; [by apply not_elem_of_nil in Hx|]. apply list_elem_of_singleton in Hx as ->. cbn.
      exists (reply (Answered t) am). split; [by rewrite lookup_alter_eq, Ham|]. split; [done|]. split; [done|]. split; [done|]. split; [done|].
      unfold reply; cbn. by rewrite Hrm.
  - intros v b t (a & Ha & ->)%alter_Some Hr. destruct (decide (m_ask m = v)) as [<-|Hne].
    + rewrite Ham in Ha. injection Ha as <-. unfold reply in Hr. cbn in Hr. rewrite Hrm in Hr. destruct Hnew as [[-> _]|(t' & -> & ->)]; [done|].
      injection Hr as ->. eexists. split; [apply elem_of_app; right; by apply list_elem_of_singleton|done].
    + destruct (H7 v a t Ha Hr) as (x & Hx & Hr'). exists x. split; [apply elem_of_app; by left|done].
  - intros v b t (a & Ha & ->)%alter_Some Hp. destruct (decide (m_ask m = v)) as [<-|Hne]; [|by eapply H8].
    rewrite Ham in Ha. injection Ha as <-. destruct (H8 _ am t Ham Hp) as (t' & Hr & _). by rewrite Hrm in Hr.
Qed.
Lemma sound_gone hs qs rs id sid name l : hs !! id = Some (sid, name, l) → sound (hs, qs, rs) → sound (<[id := (sid, name, [])]> hs, close_all l qs, rs).
Proof.
  revert hs qs. induction l as [|m l IH]; intros hs qs Hid Hs; cbn [close_all foldl]; [by rewrite insert_id|].
  pose proof (sound_reply hs qs rs id sid name m l Closed [] Hid Hs (or_introl (conj eq_refl eq_refl))) as Hs'. rewrite app_nil_r in Hs'.
  specialize (IH (<[id := (sid, name, l)]> hs) _ ltac:(by rewrite lookup_insert_eq) Hs'). by rewrite insert_insert_eq in IH.
Qed.
Lemma sound_new hs qs rs u q from : qs !! u = None → sound (hs, qs, rs) → sound (hs, <[u := mkAsking q from PFresh Unanswered]> qs, rs).
Proof.
  intros Hu [H1 H2 H3 H4 H5 [H6 H6'] H7 H8]. cbn in *.
  assert (∀ sid name m r, sent qs sid name m r → sent (<[u := mkAsking q from PFresh Unanswered]> qs) sid name m r) as Hsent.
  { intros sid name m r (a & Ha & Hr). exists a. rewrite lookup_insert_ne by (intros ->; congruence). done. }
  constructor; cbn; try done.
  - intros id sid name m Hm. by eapply Hsent, H1.
  - intros v b [(<- & <-)|(Hne & Hv)]%lookup_insert_Some Hp Hr; [done|by eapply H4].
  - intros v b [(<- & <-)|(Hne & Hv)]%lookup_insert_Some Hb; [done|by eapply H5].
  - split; [done|]. intros r Hr. by apply Hsent, H6'.
  - intros v b t [(<- & <-)|(Hne & Hv)]%lookup_insert_Some Hr; [done|by eapply H7].
  - intros v b t [(<- & <-)|(Hne & Hv)]%lookup_insert_Some Hp; [done|by eapply H8].
Qed.
Lemma sound_moved v v' : moved v v' → sound v → sound v'.
Proof.
  intros [] Hs; [done|by apply sound_phase|by apply sound_new|by apply sound_send| |by apply sound_gone].
  eapply sound_reply; [done..|]. right. by eexists.
Qed.

(** ** Pools and live agents *)

Record well (w : World) : Prop := mkWell {
  w_pool : ∀ sid p name id, pools w !! sid = Some p → p_agents p !! name = Some id →
           ∃ l, lives w !! id = Some l ∧ l_session l = sid ∧ l_name l = name ∧ l_dropped l = false;
  w_live : ∀ id l, lives w !! id = Some l → l_dropped l = false → live_in w (l_session l) (l_name l) = Some id;
  w_gone : ∀ id l, lives w !! id = Some l → l_work l = WGone → l_dropped l = true ∧ l_queue l = [];
  w_cap : size (pools w) ≤ SESSION_AGENT_POOL_MAX;
  w_queue : ∀ id l, lives w !! id = Some l → length (l_queue l) ≤ CHANNEL;
  w_next : ∀ id l, lives w !! id = Some l → id < next w;
}.
Lemma well_same w w' : pools w' = pools w → lives w' = lives w → next w' = next w → well w → well w'.
Proof. intros Hp Hl Hn [H1 H2 H3 H4 H5 H6]. constructor; unfold live_in in *; rewrite ?Hp, ?Hl, ?Hn; done. Qed.
Lemma drop_lookup ids ls id : drop_ids ids ls !! id = (λ l, if bool_decide (id ∈ ids) then dropped l else l) <$> ls !! id.
Proof. unfold drop_ids. rewrite map_lookup_imap. by destruct (ls !! id). Qed.
Lemma pool_ids_elem p id : id ∈ pool_ids p ↔ ∃ name, p_agents p !! name = Some id.
Proof.
  unfold pool_ids. rewrite list_elem_of_fmap. split.
  - intros ([name i] & -> & Hin%elem_of_map_to_list). by exists name.
  - intros [name Hn]. exists (name, id). split; [done|by apply elem_of_map_to_list].
Qed.
Lemma live_in_Some w sid name id : live_in w sid name = Some id ↔ ∃ p, pools w !! sid = Some p ∧ p_agents p !! name = Some id.
Proof.
  unfold live_in. destruct (pools w !! sid) as [p|]; cbn; split; [intros Hn; by exists p|by intros (p' & [= <-] & Hn)|done|by intros (p' & Hp & _)].
Qed.
(** Handles are dropped and taken out of the pools together. *)
Lemma well_drop w ids ps : well w →
  (∀ sid p name id, ps !! sid = Some p → p_agents p !! name = Some id → live_in w sid name = Some id ∧ id ∉ ids) →
  (∀ sid name id, live_in w sid name = Some id → id ∉ ids → ∃ p, ps !! sid = Some p ∧ p_agents p !! name = Some id) →
  size ps ≤ size (pools w) → well (on_pools (λ _, ps) (on_lives (drop_ids ids) w)).
Proof.
  intros [H1 H2 H3 H4 H5 H6] Hin Hout Hsz. constructor; cbn.
  - intros sid p name id Hp Hn. destruct (Hin _ _ _ _ Hp Hn) as [(p' & Hp' & Hn')%live_in_Some Hid].
    destruct (H1 _ _ _ _ Hp' Hn') as (l & Hl & Hr). exists l. rewrite drop_lookup, Hl. cbn. by rewrite bool_decide_eq_false_2.
  - intros id l Hl Hd. rewrite drop_lookup in Hl. destruct (lives w !! id) as [l0|] eqn:Hl0; [|done]. cbn in Hl. injection Hl as <-.
    case_bool_decide as Hid; [done|]. apply live_in_Some. cbn. apply Hout; [by apply H2|done].
  - intros id l Hl Hg. rewrite drop_lookup in Hl. destruct (lives w !! id) as [l0|] eqn:Hl0; [|done]. cbn in Hl. injection Hl as <-.
    case_bool_decide; [split; [done|]|]; apply (H3 id l0 Hl0 Hg).
  - lia.
  - intros id l Hl. rewrite drop_lookup in Hl. destruct (lives w !! id) as [l0|] eqn:Hl0; [|done]. cbn in Hl. injection Hl as <-.
    case_bool_decide; apply (H5 id l0 Hl0).
  - intros id l Hl. rewrite drop_lookup in Hl. destruct (lives w !! id) as [l0|] eqn:Hl0; [|done]. by eapply H6.
Qed.
(** Where an agent is, is determined by its record. *)
Lemma live_in_inj w sid name sid' name' id : well w → live_in w sid name = Some id → live_in w sid' name' = Some id → sid = sid' ∧ name = name'.
Proof.
  intros Hw (p & Hp & Hn)%live_in_Some (p' & Hp' & Hn')%live_in_Some.
  destruct (w_pool _ Hw _ _ _ _ Hp Hn) as (l & Hl & <- & <- & _), (w_pool _ Hw _ _ _ _ Hp' Hn') as (l' & Hl' & <- & <- & _).
  rewrite Hl in Hl'. by injection Hl' as <-.
Qed.
Lemma well_remove_agent sid name w : well w → well (remove_agent sid name w).
Proof.
  intros Hw. unfold remove_agent. destruct (live_in w sid name) as [id|] eqn:Hid; [|done].
  pose proof Hid as (p & Hp & Hn)%live_in_Some.
  apply (well_same (on_pools (λ _, alter (λ p, mkPool (delete name (p_agents p)) (p_last_activity p)) sid (pools w)) (on_lives (drop_ids [id]) w))); [done..|].
  apply well_drop; [done|..].
  - intros sid' p' name' id' Hp' Hn'. destruct (decide (sid = sid')) as [<-|Hne].
    + rewrite lookup_alter_eq, Hp in Hp'. injection Hp' as <-. cbn in Hn'. apply lookup_delete_Some in Hn' as [Hne Hn'].
      assert (live_in w sid name' = Some id') as Hl by (apply live_in_Some; by exists p). split; [done|]. intros ->%list_elem_of_singleton.
      by destruct (live_in_inj w sid name sid name' id Hw Hid Hl).
    + rewrite lookup_alter_ne in Hp' by done. assert (live_in w sid' name' = Some id') as Hl by (apply live_in_Some; by exists p'). split; [done|].
      intros ->%list_elem_of_singleton. by destruct (live_in_inj w sid name sid' name' id Hw Hid Hl).
  - intros sid' name' id' (p' & Hp' & Hn')%live_in_Some Hne%not_elem_of_cons. destruct (decide (sid = sid')) as [<-|Hs].
    + rewrite Hp in Hp'. injection Hp' as <-. eexists. rewrite lookup_alter_eq, Hp. split; [done|]. cbn. rewrite lookup_delete_ne; [done|].
      intros <-. rewrite Hn in Hn'. injection Hn' as <-. by destruct Hne.
    + exists p'. by rewrite lookup_alter_ne.
  - rewrite <- !size_dom. by rewrite dom_alter_L.
Qed.
Lemma well_remove_pool sid w : well w → well (remove_pool sid w).
Proof.
  intros Hw. unfold remove_pool. destruct (pools w !! sid) as [p|] eqn:Hp; [|done].
  apply (well_same (on_pools (λ _, delete sid (pools w)) (on_lives (drop_ids (pool_ids p)) w))); [done..|]. apply well_drop; [done|..].
  - intros sid' p' name id [Hne Hp']%lookup_delete_Some Hn. assert (live_in w sid' name = Some id) as Hl by (apply live_in_Some; by exists p').
    split; [done|]. intros (name' & Hn')%pool_ids_elem. assert (live_in w sid name' = Some id) as Hl' by (apply live_in_Some; by exists p).
    by destruct (live_in_inj w _ _ _ _ _ Hw Hl Hl').
  - intros sid' name id (p' & Hp' & Hn)%live_in_Some Hout. exists p'. split; [|done]. rewrite lookup_delete_ne; [done|]. intros <-.
    rewrite Hp in Hp'. injection Hp' as <-. apply Hout, pool_ids_elem. by exists name.
  - rewrite map_size_delete_Some by (by exists p). lia.
Qed.
(** The record of a live agent changes. *)
Lemma well_update id l l' w : well w → lives w !! id = Some l → l_session l' = l_session l → l_name l' = l_name l → l_dropped l' = l_dropped l →
  (l_work l' = WGone → l_dropped l' = true ∧ l_queue l' = []) → length (l_queue l') ≤ CHANNEL → well (on_lives <[id := l']> w).
Proof.
  intros [H1 H2 H3 H4 H5 H6] Hl Hs Hn Hd Hg Hq. constructor; cbn; [| | |done| |].
  - intros sid p name i Hp Hi. destruct (H1 _ _ _ _ Hp Hi) as (l0 & Hl0 & Hr). destruct (decide (i = id)) as [->|Hne].
    + rewrite Hl in Hl0. injection Hl0 as <-. exists l'. by rewrite lookup_insert_eq, Hs, Hn, Hd.
    + exists l0. by rewrite lookup_insert_ne.
  - intros i x [(<- & <-)|(Hne & Hx)]%lookup_insert_Some Hdx; [|by apply H2]. rewrite Hs, Hn. apply (H2 id l Hl). congruence.
  - intros i x [(<- & <-)|(Hne & Hx)]%lookup_insert_Some; [done|exact (H3 i x Hx)].
  - intros i x [(<- & <-)|(Hne & Hx)]%lookup_insert_Some; [done|by eapply H5].
  - intros i x [(<- & <-)|(Hne & Hx)]%lookup_insert_Some; [by eapply H6|by eapply H6].
Qed.
Lemma oldest_elem (l : list (Uuid * SessionAgentPool)) : l ≠ [] → ∃ e, e ∈ l ∧ oldest l = Some e.1.
Proof.
  unfold oldest. set (f := λ acc e, _).
  assert (∀ l b, ∃ e, e ∈ b :: l ∧ foldl f (Some b) l = Some e) as Hf.
  { clear l. induction l as [|x l IH]; intros b; [exists b; split; [by left|done]|]. cbn [foldl].
    assert (f (Some b) x = Some x ∨ f (Some b) x = Some b) as [->| ->] by (unfold f; destruct (_ <? _)%Z; auto).
    - destruct (IH x) as (e & He & ->). exists e. split; [by right|done].
    - destruct (IH b) as (e & He & ->). exists e. split; [|done]. apply elem_of_cons in He as [->|He]; [by left|by right; right]. }
  destruct l as [|b l]; [done|]. intros _. cbn [foldl]. destruct (Hf l b) as (e & He & Heq). exists e. split; [done|].
  change (f None b) with (Some b). by rewrite Heq.
Qed.
Lemma evict_elem w : pools w ≠ ∅ → ∃ id, evict_id w = Some id ∧ is_Some (pools w !! id).
Proof.
  intros Hne. unfold evict_id. set (l := List.filter _ _).
  assert (∀ l, l ≠ [] → (∀ e, e ∈ l → e ∈ map_to_list (pools w)) → ∃ id, oldest l = Some id ∧ is_Some (pools w !! id)) as Ho.
  { intros k Hk Hin. destruct (oldest_elem k Hk) as ([id p] & He & Hid). exists id. split; [done|]. exists p. by apply elem_of_map_to_list, Hin. }
  destruct (oldest l) as [id|] eqn:Hl.
  - destruct (Ho l) as (id' & Hid & Hs); [intros Hnil; by rewrite Hnil in Hl| |].
    + intros e He. unfold l in He. apply list_elem_of_In, List.filter_In in He as [He _]. by apply list_elem_of_In.
    + rewrite Hl in Hid. injection Hid as ->. by exists id'.
  - apply Ho; [|done]. intros Hnil%map_to_list_empty_iff. done.
Qed.
Lemma well_put sid p w : well w → p_agents p = default ∅ (p_agents <$> pools w !! sid) →
  is_Some (pools w !! sid) ∨ size (pools w) < SESSION_AGENT_POOL_MAX → well (on_pools <[sid := p]> w).
Proof.
  intros [H1 H2 H3 H4 H5 H6] Hp Hsz.
  assert (∀ sid' name, live_in (on_pools <[sid := p]> w) sid' name = live_in w sid' name) as Hl.
  { intros sid' name. unfold live_in; cbn. destruct (decide (sid = sid')) as [<-|Hne]; [|by rewrite lookup_insert_ne].
    rewrite lookup_insert_eq. cbn. rewrite Hp. by destruct (pools w !! sid). }
  constructor; cbn; [| |done| |done|done].
  - intros sid' p' name id Hp' Hn. assert (live_in w sid' name = Some id) as Hi by (rewrite <- Hl; apply live_in_Some; by exists p').
    apply live_in_Some in Hi as (q & Hq & Hn'). by eapply H1.
  - intros id l Hi Hd. rewrite Hl. by apply H2.
  - destruct Hsz as [Hs|Hs]; [by rewrite map_size_insert_Some|]. rewrite map_size_insert. destruct (pools w !! sid); cbn in *; lia.
Qed.
Lemma well_new_agent sid p name l id w : well w → pools w !! sid = Some p → p_agents p !! name = None → next w = id →
  l_session l = sid → l_name l = name → l_dropped l = false → l_work l = WWait → length (l_queue l) ≤ CHANNEL → ∀ t,
  well (mkWorld (<[sid := mkPool (<[name := id]> (p_agents p)) t]> (pools w)) (<[id := l]> (lives w)) (asks w) (agents w) (stale w) (S id) (runs w)).
Proof.
  intros [H1 H2 H3 H4 H5 H6] Hp Hn <- Hs Hnm Hd Hw Hq t. set (id := next w).
  assert (∀ i x, lives w !! i = Some x → i ≠ id) as Hne by (intros i x Hx ->; specialize (H6 _ _ Hx); unfold id in H6; lia).
  constructor; cbn.
  - intros sid' p' name' i [(<- & <-)|(Hsn & Hp')]%lookup_insert_Some Hi.
    + cbn in Hi. apply lookup_insert_Some in Hi as [(<- & <-)|(Hnn & Hi)]; [exists l; by rewrite lookup_insert_eq|].
      destruct (H1 _ _ _ _ Hp Hi) as (x & Hx & Hr). exists x. rewrite lookup_insert_ne by (intros ->; by eapply Hne). done.
    + destruct (H1 _ _ _ _ Hp' Hi) as (x & Hx & Hr). exists x. rewrite lookup_insert_ne by (intros ->; by eapply Hne). done.
  - intros i x [(<- & <-)|(Hin & Hx)]%lookup_insert_Some Hdx; unfold live_in; cbn.
    + by rewrite Hs, Hnm, lookup_insert_eq; cbn; rewrite lookup_insert_eq.
    + specialize (H2 _ _ Hx Hdx). apply live_in_Some in H2 as (q & Hq' & Hnq). destruct (decide (sid = l_session x)) as [Heq|Hsn].
      * rewrite <- Heq in *. rewrite Hp in Hq'. injection Hq' as <-. rewrite lookup_insert_eq. cbn. rewrite lookup_insert_ne; [done|]. intros Heq'. by rewrite Heq', Hnq in Hn.
      * rewrite lookup_insert_ne by done. by rewrite Hq'.
  - intros i x [(<- & <-)|(Hin & Hx)]%lookup_insert_Some; [by rewrite Hw|exact (H3 i x Hx)].
  - rewrite map_size_insert_Some; [done|by exists p].
  - intros i x [(<- & <-)|(Hin & Hx)]%lookup_insert_Some; [done|exact (H5 i x Hx)].
  - intros i x [(<- & <-)|(Hin & Hx)]%lookup_insert_Some; [lia|]. specialize (H6 i x Hx). unfold id. lia.
Qed.
Lemma well_phase u ph w : well w → well (set_phase u ph w).
Proof. by apply well_same. Qed.
(** The world in which a spawn looks for the name. *)
Definition made_room sid w : World :=
  match pools w !! sid with
  | None => if SESSION_AGENT_POOL_MAX <=? size (pools w)
            then match evict_id w with Some id => remove_pool id w | None => w end else w
  | Some _ => w
  end.
Lemma room_spec sid w : well w → well (made_room sid w) ∧
  (is_Some (pools (made_room sid w) !! sid) ∨ size (pools (made_room sid w)) < SESSION_AGENT_POOL_MAX).
Proof.
  intros Hw. unfold made_room. destruct (pools w !! sid) as [p|] eqn:Hp; [split; [done|left; by exists p]|].
  destruct (Nat.leb_spec SESSION_AGENT_POOL_MAX (size (pools w))) as [Hle|Hlt]; [|split; [done|by right]].
  destruct (evict_elem w) as (id & -> & p & Hid).
  { intros He. rewrite He, map_size_empty in Hle. unfold SESSION_AGENT_POOL_MAX in Hle. lia. }
  split; [by apply well_remove_pool|]. right. unfold remove_pool. rewrite Hid. cbn. rewrite map_size_delete_Some by (by exists p).
  pose proof (w_cap _ Hw). assert (size (pools w) ≠ 0); [|lia]. rewrite map_size_non_empty_iff. intros He. by rewrite He in Hid.
Qed.
Lemma well_spawn now u a engine depth w : well w → well (spawn now u a engine depth w).
Proof.
  intros Hw. unfold spawn. cbv zeta. set (sid := q_session (a_ask a)). fold (made_room sid w).
  destruct (room_spec sid w Hw) as [Hw1 Hsz]. set (w1 := made_room sid w) in *. clearbody w1.
  set (p := default (mkPool ∅ now) (pools w1 !! sid)).
  assert (p_agents p = default ∅ (p_agents <$> pools w1 !! sid)) as Hp by (unfold p; by destruct (pools w1 !! sid)).
  destruct (p_agents p !! q_target (a_ask a)) as [id|] eqn:Hn; [apply well_phase; by apply well_put|].
  apply well_phase. pose proof (well_put sid (mkPool (p_agents p) now) w1 Hw1 Hp Hsz) as Hw2.
  eapply well_same; [| | |eapply (well_new_agent sid (mkPool (p_agents p) now) (q_target (a_ask a)) _ (next w1) _ Hw2)];
    [|done|done|by cbn; rewrite lookup_insert_eq|done|done|done|done|done|done|cbn; unfold CHANNEL; lia].
  cbn. by rewrite insert_insert_eq.
Qed.
Lemma foldl_keeps {A B} (P : B → Prop) (f : B → A → B) l b : (∀ b a, P b → P (f b a)) → P b → P (foldl f b l).
Proof. intros Hf. revert b. induction l as [|a l IH]; intros b Hb; [done|]. by apply IH, Hf. Qed.
Lemma well_loop_gone id l w : well w → lives w !! id = Some l → l_dropped l = true → well (loop_gone id l w).
Proof.
  intros Hw Hl Hd. unfold loop_gone. apply (well_same (on_lives <[id := with_work (l_processing l) WGone (with_queue [] l)]> w)); [done..|].
  eapply well_update; [done|exact Hl|done|done|done|by cbn|cbn; unfold CHANNEL; lia].
Qed.
Lemma well_loop_step id text w : well w → well (loop_step id text w).
Proof.
  intros Hw. unfold loop_step. destruct (lives w !! id) as [l|] eqn:Hl; [|done]. pose proof (w_queue _ Hw _ _ Hl) as Hq.
  destruct (l_work l) as [|m| |] eqn:Hwk; [| | |done].
  - destruct (l_queue l) as [|m q] eqn:Hql; (destruct (l_dropped l) eqn:Hd; [by apply well_loop_gone|]); [done|].
    eapply well_update; [done|exact Hl|done|done|done|done|cbn in *; lia].
  - apply (well_same (on_lives <[id := told text l]> w)); [done..|]. by eapply well_update; [done|exact Hl|..].
  - destruct (l_dropped l) eqn:Hd.
    + unfold loop_gone. apply (well_same (on_lives <[id := with_work false WGone (with_queue [] l)]> w)); [done..|].
      eapply well_update; [done|exact Hl|done|done|done|by cbn|cbn; unfold CHANNEL; lia].
    + eapply well_update; [done|exact Hl|done|done|done|done|done].
Qed.
Lemma well_send u q w : well w → well (send_message u q w).
Proof.
  intros Hw. unfold send_message. destruct (pools w !! q_session q) as [p|]; [|by apply well_phase].
  destruct (p_agents p !! q_target q) as [id|]; [|by apply well_phase]. destruct (lives w !! id) as [l|] eqn:Hl; [|by apply well_phase].
  destruct (finished l) eqn:Hf.
  - apply well_phase. eapply well_update; [done|exact Hl|done|done|done| |exact (w_queue _ Hw id l Hl)]. intros Hg. exact (w_gone _ Hw id l Hl Hg).
  - destruct (Nat.leb_spec CHANNEL (length (l_queue l))) as [Hle|Hlt]; [by apply well_phase|]. apply well_phase.
    eapply well_update; [done|exact Hl|done|done|done| |cbn; rewrite length_app; cbn; lia]. cbn. intros Hg. unfold finished in Hf. by rewrite Hg in Hf.
Qed.
Lemma look_cases u q w : look_idle u q w = None ∨ ∃ ph, look_idle u q w = Some (set_phase u ph) ∧ match ph with PSpawn _ _ => False | _ => True end.
Proof.
  unfold look_idle. destruct (pools w !! _) as [p|]; [|right; by eexists]. destruct (p_agents p !! _ ≫= _) as [l|]; [|right; by eexists].
  destruct (negb _); [right; by eexists|]. destruct (finished l); [right; by eexists|by left].
Qed.
Lemma well_look u q w f : well w → look_idle u q w = Some f → well (f w).
Proof. intros Hw Hf. destruct (look_cases u q w) as [Hn|(ph & Hs & _)]; rewrite Hf in *; [done|]. injection Hs as ->. by apply well_phase. Qed.
Lemma well_step a w : well w → well (step a w).
Proof.
  intros Hw. destruct a as [u c args|u now|u secs|u|id text|id|now|now|sids|name|m]; cbn [step].
  - unfold request. destruct (arguments c args w) as [[from x]|]; [|done]. destruct (read_request x) as [q| |sid target|]; [|done| |done].
    + destruct (asks w !! u); [done|]. by apply (well_same w).
    + unfold handle_agent_kill. destruct (pools w !! sid); [|done]. destruct (live_in w sid target); [|done]. by apply well_remove_agent.
  - unfold ask_step. destruct (asks w !! u) as [a|]; [|done]. cbv zeta. destruct (a_phase a) as [| | |e d| | | |x].
    + apply well_phase. destruct (q_fresh _); [by apply well_remove_agent|done].
    + by apply well_phase.
    + destruct (check_depth_limit _ _); [|by apply well_phase]. destruct (find_agent _ _) as [[e c]|]; by apply well_phase.
    + by apply well_spawn.
    + destruct (look_idle u (a_ask a) w) as [f|] eqn:Hf; [by eapply well_look|done].
    + by apply well_send.
    + destruct (a_reply a); [done|by apply well_phase|by apply well_phase].
    + done.
  - unfold ask_timeout. destruct (asks w !! u) as [a|]; [|done]. destruct (a_phase a); try done.
    + destruct (look_idle u (a_ask a) w) as [f|] eqn:Hf; [by eapply well_look|by apply well_phase].
    + destruct (a_reply a); [by apply well_phase|done|done].
  - unfold abandon. destruct (asks w !! u) as [a|]; [|done]. destruct (a_phase a); by try apply well_phase.
  - by apply well_loop_step.
  - unfold loop_abort. destruct (lives w !! id) as [l|] eqn:Hl; [|done]. destruct (l_dropped l) eqn:Hd; [|done].
    destruct (negb _); [|done]. by apply well_loop_gone.
  - by apply (well_same w).
  - unfold cleanup_remove. apply foldl_keeps; [|done]. intros b sid Hb. destruct (pools b !! sid); [|done]. destruct (stale_pool b now s); [by apply well_remove_pool|done].
  - unfold delete_sessions. apply foldl_keeps; [|done]. intros b sid Hb. by apply well_remove_pool.
  - unfold delete_agent. apply foldl_keeps; [|by apply (well_same w)]. intros b sid Hb. by apply well_remove_agent.
  - by apply (well_same w).
Qed.
Lemma well_none : well no_agents.
Proof. constructor; cbn; try done; unfold SESSION_AGENT_POOL_MAX; rewrite ?map_size_empty; lia. Qed.

(** The pools hold what runs: however the tool calls, the live agents, the
    cleanup and the deletions interleave, there are at most a thousand pools; an
    agent stands in a pool exactly when its handle was not dropped, under its own
    name and session, so there is one of a name in a session; such an agent has
    not ended; and at most 32 messages wait for one. *)
Theorem pools_hold_what_runs acts :
  let w := run acts no_agents in
  size (pools w) ≤ SESSION_AGENT_POOL_MAX ∧
  (∀ sid name id, live_in w sid name = Some id ↔
     ∃ l, lives w !! id = Some l ∧ l_dropped l = false ∧ l_session l = sid ∧ l_name l = name) ∧
  (∀ id l, lives w !! id = Some l → (l_dropped l = false → l_work l ≠ WGone) ∧ length (l_queue l) ≤ CHANNEL).
Proof.
  intros w. assert (well w) as Hw by (apply run_ind; [intros; by apply well_step|apply well_none]). split; [apply (w_cap _ Hw)|]. split.
  - intros sid name id. split.
    + intros (p & Hp & Hn)%live_in_Some. destruct (w_pool _ Hw _ _ _ _ Hp Hn) as (l & Hl & Hs & Hnm & Hd). by exists l.
    + intros (l & Hl & Hd & <- & <-). by apply (w_live _ Hw).
  - intros id l Hl. split; [|by apply (w_queue _ Hw id)]. intros Hd Hg. destruct (w_gone _ Hw id l Hl Hg) as [Hd' _]. by rewrite Hd' in Hd.
Qed.

(** ** Every answer is the asker's own *)

Definition view (w : World) : Hands * gmap nat Asking * list Ran := (hands w, asks w, runs w).
Lemma hands_drop ids ls : hand <$> drop_ids ids ls = hand <$> ls.
Proof. apply map_eq. intros i. rewrite !lookup_fmap, drop_lookup. destruct (ls !! i); [|done]. cbn. by destruct (bool_decide (i ∈ ids)). Qed.
Lemma hands_remove_agent sid name w : view (remove_agent sid name w) = view w.
Proof. unfold remove_agent. destruct (live_in w sid name); [|done]. unfold view, hands; cbn. by rewrite hands_drop. Qed.
Lemma hands_remove_pool sid w : view (remove_pool sid w) = view w.
Proof. unfold remove_pool. destruct (pools w !! sid); [|done]. unfold view, hands; cbn. by rewrite hands_drop. Qed.
Lemma hands_same id l l' w : lives w !! id = Some l → hand l' = hand l → hands (on_lives <[id := l']> w) = hands w.
Proof. intros Hl Hh. unfold hands; cbn. rewrite fmap_insert, Hh. apply insert_id. by rewrite lookup_fmap, Hl. Qed.
Lemma moved_eq v v' : v' = v → moved v v'.
Proof. intros ->. constructor. Qed.
Lemma alter_phase u ph (qs : gmap nat Asking) a : qs !! u = Some a → alter (λ a, mkAsking (a_ask a) (a_from a) ph (a_reply a)) u qs = <[u := to_phase ph a]> qs.
Proof.
  intros Ha. apply map_eq. intros v.
  destruct (decide (u = v)) as [<-|Hne]; [by rewrite lookup_alter_eq, lookup_insert_eq, Ha|by rewrite lookup_alter_ne, lookup_insert_ne].
Qed.
(** A phase changes, with whatever leaves the messages alone. *)
Lemma moved_phase u a ph w w' : asks w !! u = Some a → ended a ph → view w' = view w → moved (view w) (view (set_phase u ph w')).
Proof.
  intros Ha He [= Hh Hq Hr]. unfold view, hands in *; cbn in *. rewrite Hh, Hq, Hr, (alter_phase _ _ _ a) by done. by constructor.
Qed.
Definition early (a : Asking) : Prop := match a_phase a with PAwait | PDone _ => False | _ => True end.
Lemma moved_refuse u a text w w' : asks w !! u = Some a → early a → view w' = view w → moved (view w) (view (refuse u text w')).
Proof. intros Ha He. apply (moved_phase u a); [done|]. unfold ended, early in *. by destruct (a_phase a). Qed.
Lemma moved_gone id l w : lives w !! id = Some l → ∀ b, moved (view w) (view (loop_gone id (with_work b (l_work l) l) w)).
Proof.
  intros Hl b. unfold view, loop_gone, hands; cbn. rewrite fmap_insert. unfold hand at 2; cbn.
  change (in_hand (with_work b (l_work l) l)) with (in_hand l). apply mv_gone. by rewrite lookup_fmap, Hl.
Qed.
Lemma moved_loop id text w : moved (view w) (view (loop_step id text w)).
Proof.
  unfold loop_step. destruct (lives w !! id) as [l|] eqn:Hl; [|constructor].
  assert (∀ b, moved (view w) (view (loop_gone id (with_work b (l_work l) l) w))) as Hg by (by apply moved_gone).
  destruct (l_work l) as [|m| |] eqn:Hwk; [| | |constructor].
  - specialize (Hg (l_processing l)). assert (with_work (l_processing l) WWait l = l) as Hsame by (rewrite <- Hwk; by destruct l). rewrite Hsame in Hg.
    destruct (l_queue l) as [|m q] eqn:Hq; destruct (l_dropped l); try done; [constructor|].
    apply moved_eq. unfold view. rewrite (hands_same id l); [done|done|]. unfold hand, in_hand; cbn. by rewrite Hwk, Hq.
  - unfold view, hands; cbn. rewrite fmap_insert. unfold hand at 2; cbn. apply mv_told. rewrite lookup_fmap, Hl. unfold hand, in_hand; cbn. by rewrite Hwk.
  - destruct (l_dropped l); [by apply Hg|]. apply moved_eq. unfold view. rewrite (hands_same id l); [done|done|]. unfold hand, in_hand; cbn. by rewrite Hwk.
Qed.
Lemma moved_look u a w f : asks w !! u = Some a → a_phase a = PIdle → look_idle u (a_ask a) w = Some f → moved (view w) (view (f w)).
Proof.
  intros Ha Hp. assert (early a) as He by (unfold early; by rewrite Hp). unfold look_idle.
  destruct (pools w !! _) as [p|]; [|intros [= <-]; by eapply moved_refuse].
  destruct (p_agents p !! _ ≫= _) as [l|]; [|intros [= <-]; by eapply moved_refuse].
  destruct (negb _); [intros [= <-]; eapply moved_phase; [done|unfold ended; by rewrite Hp|done]|].
  destruct (finished l); [|done]. intros [= <-]. by eapply moved_refuse.
Qed.
Lemma moved_send u a w : well w → asks w !! u = Some a → a_phase a = PSend → moved (view w) (view (send_message u (a_ask a) w)).
Proof.
  intros Hw Ha Hp. assert (early a) as He by (unfold early; by rewrite Hp). unfold send_message.
  destruct (pools w !! _) as [p|] eqn:Hpool; [|by eapply moved_refuse]. destruct (p_agents p !! _) as [id|] eqn:Hid; [|by eapply moved_refuse].
  destruct (lives w !! id) as [l|] eqn:Hl; [|by eapply moved_refuse].
  destruct (finished l) eqn:Hf.
  - eapply moved_refuse; [done|done|]. unfold view. rewrite (hands_same id l); [done|done|]. done.
  - destruct (CHANNEL <=? length (l_queue l)); [by eapply moved_refuse|].
    destruct (w_pool _ Hw _ _ _ _ Hpool Hid) as (l' & Hl' & Hs & Hn & _). rewrite Hl in Hl'. injection Hl' as <-.
    assert (hand (with_work true (l_work l) (enqueue (mkMsg (q_text (a_ask a)) u) l)) =
            (q_session (a_ask a), q_target (a_ask a), in_hand l ++ [msg_of u a])) as Hhand.
    { unfold hand; cbn. rewrite Hs, Hn. unfold in_hand; cbn. unfold finished in Hf. by destruct (l_work l). }
    unfold view, hands; cbn. rewrite fmap_insert, Hhand.
    rewrite (alter_phase _ _ _ a) by done.
    apply mv_send; [done|unfold before_send; by rewrite Hp|]. right. rewrite lookup_fmap, Hl. cbn. unfold hand. by rewrite Hs, Hn.
Qed.
Lemma moved_spawn now u a engine depth w : well w → asks w !! u = Some a → a_phase a = PSpawn engine depth → moved (view w) (view (spawn now u a engine depth w)).
Proof.
  intros Hw Ha Hp. unfold spawn. cbv zeta. fold (made_room (q_session (a_ask a)) w).
  destruct (room_spec (q_session (a_ask a)) w Hw) as [Hw1 _].
  assert (view (made_room (q_session (a_ask a)) w) = view w) as Hv.
  { unfold made_room. destruct (pools w !! _); [done|]. destruct (_ <=? _); [|done]. destruct (evict_id w); [apply hands_remove_pool|done]. }
  set (w1 := made_room _ w) in *. clearbody w1. destruct (p_agents _ !! _) as [i|].
  - eapply moved_phase; [done|unfold ended; by rewrite Hp|done].
  - injection Hv as Hh Hq Hr. unfold view at 2. cbn. unfold hands; cbn. rewrite fmap_insert. fold (hands w1). rewrite Hh, Hq, Hr.
    unfold hand at 1, in_hand; cbn.
    rewrite (alter_phase _ _ _ a) by done.
    apply (mv_send _ _ _ u a _ []); [done|unfold before_send; by rewrite Hp|]. left. split; [|done]. rewrite <- Hh. unfold hands. rewrite lookup_fmap.
    destruct (lives w1 !! next w1) as [l|] eqn:Hl; [|done]. pose proof (w_next _ Hw1 _ _ Hl). lia.
Qed.
Lemma depth_nonneg args : (0 ≤ extract_subagent_depth args)%Z.
Proof.
  unfold extract_subagent_depth. destruct (_ ≫= _) as [v|]; [|done]. destruct (as_u64 v) as [n|]; [|done]. unfold umax. lia.
Qed.
Lemma read_depth args q : read_request args = RAsk q → q_depth q = extract_subagent_depth args.
Proof.
  unfold read_request. cbv zeta. destruct (bool_decide (_ = bs "ask")).
  - destruct (non_empty _); [|done]. destruct (non_empty _); [|done]. destruct (session_of args); [|done]. by intros [= <-].
  - destruct (bool_decide _); [by destruct (session_of args)|]. destruct (bool_decide _); [|done].
    destruct (non_empty _); [|done]. by destruct (session_of args).
Qed.
Lemma moved_step a w : well w → moved (view w) (view (step a w)).
Proof.
  intros Hw. destruct a as [u c args|u now|u secs|u|id text|id|now|now|sids|name|m]; cbn [step].
  - unfold request. destruct (arguments c args w) as [[from x]|]; [|constructor]. destruct (read_request x) as [q| |sid target|] eqn:Hq; [|constructor| |constructor].
    + destruct (asks w !! u) eqn:Hu; [constructor|]. apply (mv_new (hands w) (asks w) (runs w) u q from Hu). rewrite (read_depth _ _ Hq). apply depth_nonneg.
    + unfold handle_agent_kill. destruct (pools w !! sid); [|constructor]. destruct (live_in w sid target); [|constructor].
      apply moved_eq, hands_remove_agent.
  - unfold ask_step. destruct (asks w !! u) as [a|] eqn:Ha; [|constructor]. cbv zeta. destruct (a_phase a) as [| | |e d| | | |x] eqn:Hp.
    + eapply moved_phase; [done|unfold ended; by rewrite Hp|]. destruct (q_fresh _); [apply hands_remove_agent|done].
    + eapply moved_phase; [done|unfold ended; rewrite Hp; by destruct (live_in _ _ _)|done].
    + destruct (check_depth_limit _ _); [|eapply moved_refuse; [done|unfold early; by rewrite Hp|done]].
      destruct (find_agent (q_target _) _) as [[e c]|]; [eapply moved_phase; [done|unfold ended; by rewrite Hp|done]|].
      eapply moved_refuse; [done|unfold early; by rewrite Hp|done].
    + by eapply moved_spawn.
    + destruct (look_idle u (a_ask a) w) as [f|] eqn:Hf; [by eapply moved_look|constructor].
    + by eapply moved_send.
    + destruct (a_reply a) eqn:Hr; [constructor| |]; (eapply moved_phase; [done| |done]); cbn; [by eexists|by rewrite Hp].
    + constructor.
  - unfold ask_timeout. destruct (asks w !! u) as [a|] eqn:Ha; [|constructor]. destruct (a_phase a) eqn:Hp; try constructor.
    + destruct (look_idle u (a_ask a) w) as [f|] eqn:Hf; [by eapply moved_look|]. eapply moved_refuse; [done|unfold early; by rewrite Hp|done].
    + destruct (a_reply a); [|constructor|constructor]. eapply moved_phase; [done|cbn; by rewrite Hp|done].
  - unfold abandon. destruct (asks w !! u) as [a|] eqn:Ha; [|constructor].
    destruct (a_phase a) eqn:Hp; try constructor; (eapply moved_phase; [done|cbn; by rewrite Hp|done]).
  - apply moved_loop.
  - unfold loop_abort. destruct (lives w !! id) as [l|] eqn:Hl; [|constructor]. destruct (l_dropped l && _); [|constructor].
    pose proof (moved_gone id l w Hl (l_processing l)) as Hg. by destruct l.
  - by apply moved_eq.
  - apply moved_eq. unfold cleanup_remove. apply foldl_keeps; [|done]. intros b sid Hb. destruct (pools b !! sid); [|done].
    destruct (stale_pool b now s); [by rewrite hands_remove_pool|done].
  - apply moved_eq. unfold delete_sessions. apply foldl_keeps; [|done]. intros b sid Hb. by rewrite hands_remove_pool.
  - apply moved_eq. unfold delete_agent. apply foldl_keeps; [|done]. intros b sid Hb. by rewrite hands_remove_agent.
  - by apply moved_eq.
Qed.
Lemma reached acts : well (run acts no_agents) ∧ sound (view (run acts no_agents)).
Proof.
  apply (run_ind (λ w, well w ∧ sound (view w))).
  - intros a w [Hw Hs]. split; [by apply well_step|]. eapply sound_moved; [by apply moved_step|done].
  - split; [apply well_none|]. constructor; cbn; try (intros; done); [intros ????(l & Hl & _); done|intros ????????(l & Hl & _); done|].
    split; [constructor|]. by intros r ?%not_elem_of_nil.
Qed.

(** C19: Each caller gets the answer to its own question: whatever is asked of an
    agent at the same time, killed, evicted or timed out, a question is worked on
    at most once, by an agent of the name and in the session it was meant for and
    with the text it had, and an ask that completes returns what that run of its
    own question gave. *)
(* @prop safety defs=ask_step,send_message,loop_step,await_message_result,spawn_live_agent *)
Theorem answers_are_own acts :
  let w := run acts no_agents in
  NoDup ((λ r, m_ask (n_question r)) <$> runs w) ∧
  (∀ r, r ∈ runs w → ∃ a, asks w !! m_ask (n_question r) = Some a ∧ m_text (n_question r) = q_text (a_ask a) ∧
     n_name r = q_target (a_ask a) ∧ n_session r = q_session (a_ask a)) ∧
  ∀ u a text, asks w !! u = Some a → a_phase a = PDone (Completed text) →
    ∃ r, r ∈ runs w ∧ m_ask (n_question r) = u ∧ text = if bool_decide (trim (n_text r) = []) then bs "(no result)" else n_text r.
Proof.
  intros w. destruct (reached acts) as [_ [_ _ _ _ _ [H6 H6'] H7 H8]]. fold w in H6, H6', H7, H8. cbn in *. split; [done|]. split.
  - intros r Hr. destruct (H6' r Hr) as (a & Ha & _ & Hm & Hs & Hn & _). exists a. rewrite Hs, Hn. split; [done|]. by rewrite <- Hm.
  - intros u a text Ha Hp. destruct (H8 u a text Ha Hp) as (t & Hr & ->). destruct (H7 u a t Ha Hr) as (r & Hin & Hu & Ht). exists r. by rewrite Ht.
Qed.

(** *** A question that waits is answered *)

Definition settled u (w : World) : Prop := ∃ a, asks w !! u = Some a ∧ a_reply a ≠ Unanswered.
Lemma close_all_lookup l qs u a : qs !! u = Some a → ∃ a', close_all l qs !! u = Some a' ∧
  (a_reply a ≠ Unanswered → a_reply a' ≠ Unanswered) ∧ (u ∈ m_ask <$> l → a_reply a' ≠ Unanswered).
Proof.
  revert qs a. induction l as [|m l IH]; intros qs a Ha; cbn [close_all foldl fmap list_fmap].
  { exists a. split; [done|]. split; [done|]. by intros ?%not_elem_of_nil. }
  assert (∃ b, alter (reply Closed) (m_ask m) qs !! u = Some b ∧ (a_reply a ≠ Unanswered → a_reply b ≠ Unanswered) ∧ (u = m_ask m → a_reply b ≠ Unanswered)) as (b & Hb & H1 & H2).
  { destruct (decide (m_ask m = u)) as [<-|Hne]; [|exists a; by rewrite lookup_alter_ne].
    exists (reply Closed a). rewrite lookup_alter_eq, Ha. split; [done|]. unfold reply; cbn. by destruct (a_reply a). }
  destruct (IH _ b Hb) as (a' & Ha' & H3 & H4). exists a'. split; [done|]. split; [auto|]. intros [->|Hin]%elem_of_cons; auto.
Qed.
Definition ahead (l : LiveAgent) (k : nat) : nat := 3 * k + match l_work l with WTold => 2 | WWait => 1 | _ => 0 end.
Lemma loop_settles n text id : ∀ w l k m a, n = ahead l k → lives w !! id = Some l → in_hand l !! k = Some m → asks w !! m_ask m = Some a → l_work l ≠ WGone →
  settled (m_ask m) (run (replicate (S n) (ALoop id text)) w).
Proof.
  assert (∀ j u w, settled u w → settled u (run (replicate j (ALoop id text)) w)) as Hkeep.
  { induction j as [|j IH]; intros u w Hs; [done|]. apply IH. destruct Hs as (a & Ha & Hr). cbn [step]. unfold loop_step.
    destruct (lives w !! id) as [l|]; [|by exists a].
    assert (∀ b, settled u (loop_gone id (with_work b (l_work l) l) w)) as Hg.
    { intros b. destruct (close_all_lookup (in_hand l) (asks w) u a Ha) as (a' & Ha' & H1 & _). exists a'. split; [exact Ha'|auto]. }
    destruct (l_work l) eqn:Hwk; [| | |by exists a].
    - specialize (Hg (l_processing l)). assert (with_work (l_processing l) WWait l = l) as Hsame by (rewrite <- Hwk; by destruct l). rewrite Hsame in Hg.
      destruct (l_queue l); (destruct (l_dropped l); [done|]); by exists a.
    - unfold settled; cbn. destruct (decide (m_ask m = u)) as [<-|Hne]; [|exists a; by rewrite lookup_alter_ne].
      exists (reply (Answered text) a). rewrite lookup_alter_eq, Ha. split; [done|]. unfold reply; cbn. by destruct (a_reply a).
    - destruct (l_dropped l); [apply Hg|by exists a]. }
  assert (∀ w l k m a b, in_hand l !! k = Some m → asks w !! m_ask m = Some a → settled (m_ask m) (loop_gone id (with_work b (l_work l) l) w)) as Hgone.
  { intros w l k m a b Hk Ha. destruct (close_all_lookup (in_hand l) (asks w) (m_ask m) a Ha) as (a' & Ha' & _ & H2). exists a'. split; [exact Ha'|].
    apply H2, list_elem_of_fmap_2. by eapply list_elem_of_lookup_2. }
  induction n as [n IH] using lt_wf_ind. intros w l k m a -> Hl Hk Ha Hg.
  assert (∀ w' l', step (ALoop id text) w = w' → lives w' !! id = Some l' → (∃ a', asks w' !! m_ask m = Some a') → l_work l' ≠ WGone →
            ∀ k', in_hand l' !! k' = Some m → ahead l' k' < ahead l k → settled (m_ask m) (run (replicate (S (ahead l k)) (ALoop id text)) w)) as Hnext.
  { intros w' l' Hstep Hl' (a' & Ha') Hg' k' Hk' Hlt. cbn [replicate run foldl]. rewrite Hstep. change (foldl _ w' _) with (run (replicate (ahead l k) (ALoop id text)) w').
    replace (ahead l k) with (S (ahead l' k') + (ahead l k - S (ahead l' k'))) by lia. rewrite replicate_add. unfold run. rewrite foldl_app. apply Hkeep.
    by eapply (IH (ahead l' k') Hlt w' l' k' m a'). }
  cbn [step] in Hnext. unfold loop_step in Hnext. rewrite Hl in Hnext. destruct (l_work l) as [|m0| |] eqn:Hwk; [| | |done].
  - assert (in_hand l = l_queue l) as Hh by (unfold in_hand; by rewrite Hwk). rewrite Hh in Hk. destruct (l_queue l) as [|m0 q] eqn:Hq; [done|].
    destruct (l_dropped l) eqn:Hd.
    + cbn [replicate run foldl step]. unfold loop_step. rewrite Hl, Hwk, Hq, Hd. apply Hkeep. assert (with_work (l_processing l) (l_work l) l = l) as Hsame by (by destruct l).
      rewrite <- Hsame. eapply Hgone; [|done]. by rewrite Hh.
    + eapply (Hnext _ (with_work true (WRun m0) (with_queue q l))); [done|by cbn; rewrite lookup_insert_eq|by exists a|done|exact Hk|]. unfold ahead; cbn. rewrite Hwk. lia.
  - assert (in_hand l = m0 :: l_queue l) as Hh by (unfold in_hand; by rewrite Hwk). rewrite Hh in Hk. destruct k as [|k].
    + injection Hk as ->. cbn [replicate run foldl step]. unfold loop_step. rewrite Hl, Hwk. apply Hkeep. unfold settled; cbn.
      exists (reply (Answered text) a). rewrite lookup_alter_eq, Ha. split; [done|]. unfold reply; cbn. by destruct (a_reply a).
    + eapply (Hnext _ (told text l)); [done|by cbn; rewrite lookup_insert_eq| |done|exact Hk|].
      * cbn. destruct (decide (m_ask m0 = m_ask m)) as [->|Hne]; [rewrite lookup_alter_eq, Ha; by eexists|rewrite lookup_alter_ne by done; by exists a].
      * unfold ahead; cbn. rewrite Hwk. lia.
  - assert (in_hand l = l_queue l) as Hh by (unfold in_hand; by rewrite Hwk). destruct (l_dropped l) eqn:Hd.
    + cbn [replicate run foldl step]. unfold loop_step. rewrite Hl, Hwk, Hd. apply Hkeep. rewrite <- Hwk. by eapply Hgone.
    + eapply (Hnext _ (with_work false WWait l)); [done|by cbn; rewrite lookup_insert_eq|by exists a|done|by unfold in_hand; cbn; rewrite <- Hh|]. unfold ahead; cbn. rewrite Hwk. lia.
Qed.
(** C20: An ask that waits comes back: while its answer is outstanding its question
    is with an agent that has not ended, and once that agent has worked off what
    is before it the ask has an answer, or its channel is closed. *)
(* @prop liveness defs=loop_step,ask_step,send_message witness=SubagentsWitness.waiting_witness *)
Theorem waiting_ask_comes_back acts u a :
  asks (run acts no_agents) !! u = Some a → a_phase a = PAwait →
  ∃ id n, ∀ text, settled u (run (acts ++ replicate n (ALoop id text)) no_agents).
Proof.
  intros Ha Hp. destruct (reached acts) as [Hw Hs]. set (w := run acts no_agents) in *. destruct (decide (a_reply a = Unanswered)) as [Hr|Hr].
  2: { exists 0, 0. intros text. cbn. rewrite app_nil_r. by exists a. }
  destruct (s_await _ Hs u a Ha Hp Hr) as (id & sid & name & m & (x & Hx & Hm) & Hu). cbn in Hx. unfold hands in Hx. rewrite lookup_fmap in Hx.
  destruct (lives w !! id) as [l|] eqn:Hl; [|done]. cbn in Hx. injection Hx as <- <- <-. apply list_elem_of_lookup in Hm as [k Hk]. subst u.
  exists id, (S (ahead l k)). intros text. unfold run. rewrite foldl_app. change (foldl (λ w a, step a w) no_agents acts) with w.
  eapply loop_settles; [done|exact Hl|exact Hk|exact Ha|]. intros Hg. destruct (w_gone _ Hw id l Hl Hg) as [_ Hq]. unfold in_hand in Hk. by rewrite Hg, Hq in Hk.
Qed.

(** ** Delegation is bounded *)

Definition depths (w : World) : gmap nat Z := l_depth <$> lives w.
Lemma depths_drop ids ls : l_depth <$> drop_ids ids ls = l_depth <$> ls.
Proof. apply map_eq. intros i. rewrite !lookup_fmap, drop_lookup. destruct (ls !! i); [|done]. cbn. by destruct (bool_decide (i ∈ ids)). Qed.
Lemma depths_remove_agent sid name w : depths (remove_agent sid name w) = depths w.
Proof. unfold remove_agent. destruct (live_in w sid name); [|done]. unfold depths; cbn. by rewrite depths_drop. Qed.
Lemma depths_remove_pool sid w : depths (remove_pool sid w) = depths w.
Proof. unfold remove_pool. destruct (pools w !! sid); [|done]. unfold depths; cbn. by rewrite depths_drop. Qed.
Lemma depths_same id l l' (ls : gmap nat LiveAgent) : ls !! id = Some l → l_depth l' = l_depth l → l_depth <$> <[id := l']> ls = l_depth <$> ls.
Proof. intros Hl Hh. rewrite fmap_insert, Hh. apply insert_id. by rewrite lookup_fmap, Hl. Qed.
Lemma depths_spawn now u a engine depth w : well w → depths (spawn now u a engine depth w) = depths w ∨ ∃ id, depths (spawn now u a engine depth w) = <[id := depth]> (depths w).
Proof.
  intros Hw. unfold spawn. cbv zeta. fold (made_room (q_session (a_ask a)) w).
  assert (depths (made_room (q_session (a_ask a)) w) = depths w) as Hd.
  { unfold made_room. destruct (pools w !! _); [done|]. destruct (_ <=? _); [|done]. destruct (evict_id w); [apply depths_remove_pool|done]. }
  set (w1 := made_room _ w) in *. clearbody w1. destruct (p_agents _ !! _) as [i|]; [by left|]. right. exists (next w1).
  unfold depths in *; cbn. by rewrite fmap_insert, Hd.
Qed.
Lemma depths_loop id text w : depths (loop_step id text w) = depths w.
Proof.
  unfold loop_step. destruct (lives w !! id) as [l|] eqn:Hl; [|done].
  destruct (l_work l); [destruct (l_queue l); destruct (l_dropped l); try done| |destruct (l_dropped l)|done]; unfold depths; cbn; by rewrite (depths_same id l).
Qed.
Lemma depths_send u q w : depths (send_message u q w) = depths w.
Proof.
  unfold send_message. destruct (pools w !! _) as [p|]; [|done]. destruct (p_agents p !! _) as [id|]; [|done]. destruct (lives w !! id) as [l|] eqn:Hl; [|done].
  destruct (finished l); [|destruct (_ <=? _); [done|]]; unfold depths; cbn; by rewrite (depths_same id l).
Qed.
(** Only a spawn adds a depth, that of its phase. *)
Lemma depths_step a w : well w → depths (step a w) = depths w ∨
  ∃ u x engine depth id, asks w !! u = Some x ∧ a_phase x = PSpawn engine depth ∧ depths (step a w) = <[id := depth]> (depths w).
Proof.
  intros Hw. destruct a as [u c args|u now|u secs|u|id text|id|now|now|sids|name|m]; cbn [step].
  - left. unfold request. destruct (arguments c args w) as [[from x]|]; [|done]. destruct (read_request x) as [q| |sid target|]; [|done| |done].
    + by destruct (asks w !! u).
    + unfold handle_agent_kill. destruct (pools w !! sid); [|done]. destruct (live_in w sid target); [|done]. apply depths_remove_agent.
  - unfold ask_step. destruct (asks w !! u) as [a|] eqn:Ha; [|by left]. cbv zeta. destruct (a_phase a) as [| | |e d| | | |x] eqn:Hp; [left..| |left|left|left|left].
    + unfold set_phase, depths; cbn. destruct (q_fresh _); [apply depths_remove_agent|done].
    + done.
    + destruct (check_depth_limit _ _); [|done]. by destruct (find_agent (q_target _) _) as [[e c]|].
    + destruct (depths_spawn now u a e d w Hw) as [Hd|[id Hd]]; [by left|]. right. by exists u, a, e, d, id.
    + by destruct (look_cases u (a_ask a) w) as [->|(ph & -> & _)].
    + apply depths_send.
    + by destruct (a_reply a).
    + done.
  - left. unfold ask_timeout. destruct (asks w !! u) as [a|]; [|done]. destruct (a_phase a); try done.
    + by destruct (look_cases u (a_ask a) w) as [->|(ph & -> & _)].
    + by destruct (a_reply a).
  - left. unfold abandon. destruct (asks w !! u) as [a|]; [|done]. by destruct (a_phase a).
  - left. apply depths_loop.
  - left. unfold loop_abort. destruct (lives w !! id) as [l|] eqn:Hl; [|done]. destruct (l_dropped l && _); [|done].
    unfold depths; cbn. by rewrite (depths_same id l).
  - by left.
  - left. unfold cleanup_remove. apply foldl_keeps; [|done]. intros b sid Hb. destruct (pools b !! sid); [|done].
    destruct (stale_pool b now s); [by rewrite depths_remove_pool|done].
  - left. unfold delete_sessions. apply foldl_keeps; [|done]. intros b sid Hb. by rewrite depths_remove_pool.
  - left. unfold delete_agent. apply foldl_keeps; [|done]. intros b sid Hb. by rewrite depths_remove_agent.
  - by left.
Qed.
(** The asks that are about to spawn. *)
Definition spawning (w : World) u q engine depth : Prop := ∃ a, asks w !! u = Some a ∧ a_ask a = q ∧ a_phase a = PSpawn engine depth.
Definition no_spawn (ph : Phase) : Prop := match ph with PSpawn _ _ => False | _ => True end.
Lemma spawning_phase v ph w u q e d : no_spawn ph → spawning (set_phase v ph w) u q e d → spawning w u q e d.
Proof.
  intros Hph (a & Ha & Hq & Hp). cbn in Ha. apply alter_Some in Ha as (b & Hb & ->). exists b. split; [done|].
  case_decide; [cbn in *; by subst ph|done].
Qed.
#[local] Ltac phase_only := intros Hs%spawning_phase; [by left|done].
Lemma spawning_reply r v qs u q e d w w' : asks w = qs → asks w' = alter (reply r) v qs → spawning w' u q e d → spawning w u q e d.
Proof.
  intros Hw Hw' (a & Ha & Hq & Hp). rewrite Hw' in Ha. apply alter_Some in Ha as (b & Hb & ->). exists b. rewrite Hw. split; [done|]. by case_decide.
Qed.
Lemma spawning_closed l qs u q e d w w' : asks w = qs → asks w' = close_all l qs → spawning w' u q e d → spawning w u q e d.
Proof.
  revert qs w. induction l as [|m l IH]; intros qs w Hw Hw' Hs; [destruct Hs as (a & Ha & Hr); exists a; rewrite Hw; by rewrite Hw' in Ha|].
  apply (spawning_reply Closed (m_ask m) qs u q e d w (on_asks (alter (reply Closed) (m_ask m)) w) Hw); [by cbn; rewrite Hw|].
  by eapply IH; [cbn; rewrite Hw|exact Hw'|].
Qed.
Lemma spawning_asks w w' u q e d : asks w' = asks w → spawning w' u q e d → spawning w u q e d.
Proof. unfold spawning. by intros ->. Qed.
Lemma asks_remove_agent sid name w : asks (remove_agent sid name w) = asks w.
Proof. unfold remove_agent. by destruct (live_in w sid name). Qed.
Lemma asks_remove_pool sid w : asks (remove_pool sid w) = asks w.
Proof. unfold remove_pool. by destruct (pools w !! sid). Qed.
(** A question gets so far by the checks alone. *)
Lemma spawning_step a w u q e d : spawning (step a w) u q e d → spawning w u q e d ∨
  ∃ x, asks w !! u = Some x ∧ a_ask x = q ∧ d = sat_add 8 (q_depth q) 1 ∧
    check_depth_limit (q_depth q) (default default_delegation (snd <$> find_agent (a_from x) (agents w))) = Ok tt.
Proof.
  destruct a as [v c args|v now|v secs|v|id text|id|now|now|sids|name|m]; cbn [step].
  - unfold request. destruct (arguments c args w) as [[from x]|]; [|by left]. destruct (read_request x) as [q'| |sid target|]; [|by left| |by left].
    + destruct (asks w !! v) eqn:Hv; [by left|]. intros (b & Hb & Hq & Hp). left. exists b. cbn in Hb.
      apply lookup_insert_Some in Hb as [[_ <-]|[_ Hb]]; [done|]. done.
    + unfold handle_agent_kill. destruct (pools w !! sid); [|by left]. destruct (live_in w sid target); [|by left]. left. eapply spawning_asks; [apply asks_remove_agent|done].
  - unfold ask_step. destruct (asks w !! v) as [x|] eqn:Hx; [|by left]. cbv zeta. destruct (a_phase x) as [| | |e' d'| | | |y].
    + intros Hs%spawning_phase; [|done]. left. eapply spawning_asks; [|exact Hs]. destruct (q_fresh _); [apply asks_remove_agent|done].
    + intros Hs%spawning_phase; [by left|]. by destruct (live_in _ _ _).
    + destruct (check_depth_limit _ _) as [[]|] eqn:Hc; [|phase_only].
      destruct (find_agent (q_target _) _) as [[e' c']|]; [|phase_only].
      intros (b & Hb & Hq & Hp). cbn in Hb. apply alter_Some in Hb as (b' & Hb' & ->). case_decide as Hvu; [|left; by exists b']. subst v.
      rewrite Hx in Hb'. injection Hb' as <-. cbn in Hq, Hp. right. exists x. split; [done|]. split; [done|]. subst q. injection Hp as _ <-. by rewrite Hc.
    + unfold spawn. cbv zeta. fold (made_room (q_session (a_ask x)) w).
      assert (asks (made_room (q_session (a_ask x)) w) = asks w) as Hr.
      { unfold made_room. destruct (pools w !! _); [done|]. destruct (_ <=? _); [|done]. destruct (evict_id w); [apply asks_remove_pool|done]. }
      destruct (p_agents _ !! _); intros Hs%spawning_phase; try done; left; (eapply spawning_asks; [|exact Hs]); exact Hr.
    + destruct (look_cases v (a_ask x) w) as [->|(ph & -> & Hph)]; [by left|phase_only].
    + unfold send_message. destruct (pools w !! _) as [p|]; [|phase_only].
      destruct (p_agents p !! _) as [i|]; [|phase_only]. destruct (lives w !! i) as [l|]; [|phase_only].
      destruct (finished l); [phase_only|]. destruct (_ <=? _); intros Hs%spawning_phase; by left || done.
    + destruct (a_reply x); [by left|intros Hs%spawning_phase; [by left|done]..].
    + by left.
  - unfold ask_timeout. destruct (asks w !! v) as [x|]; [|by left]. destruct (a_phase x); try by left.
    + destruct (look_cases v (a_ask x) w) as [->|(ph & -> & Hph)]; phase_only.
    + destruct (a_reply x); [phase_only|by left..].
  - unfold abandon. destruct (asks w !! v) as [x|]; [|by left]. destruct (a_phase x); try phase_only. by left.
  - intros Hs. left. revert Hs. unfold loop_step. destruct (lives w !! id) as [l|]; [|done].
    destruct (l_work l); [destruct (l_queue l); destruct (l_dropped l); try done; by eapply spawning_closed| |destruct (l_dropped l); [by eapply spawning_closed|done]|done].
    by eapply spawning_reply.
  - unfold loop_abort. destruct (lives w !! id) as [l|]; [|by left]. destruct (l_dropped l && _); [|by left]. intros Hs. left. by apply (spawning_closed (in_hand l) (asks w) u q e d w (loop_gone id l w)).
  - by left.
  - left. eapply spawning_asks; [|done]. unfold cleanup_remove. apply foldl_keeps; [|done]. intros b sid Hb. destruct (pools b !! sid); [|done].
    destruct (stale_pool b now s); [by rewrite asks_remove_pool|done].
  - left. eapply spawning_asks; [|done]. unfold delete_sessions. apply foldl_keeps; [|done]. intros b sid Hb. by rewrite asks_remove_pool.
  - left. eapply spawning_asks; [|done]. unfold delete_agent. apply foldl_keeps; [|done]. intros b sid Hb. by rewrite asks_remove_agent.
  - by left.
Qed.
Hypothesis as_u64_number : ∀ n, as_u64 (jnumber (Z.of_N n)) = Some n.
Lemma find_elem name m e : find_agent name m = Some e → e ∈ m.
Proof.
  unfold find_agent. destruct (List.find (λ e, bool_decide (e.1 = name)) m) as [e'|] eqn:He; [intros [= <-]|clear He; intros He];
    apply List.find_some in He as [He _]; by apply list_elem_of_In.
Qed.
Record shallow (m : Z) (w : World) : Prop := mkShallow {
  sh_agents : ∀ e, e ∈ agents w → (max_depth e.2 ≤ m)%Z;
  sh_asks : ∀ u a, asks w !! u = Some a → (0 ≤ q_depth (a_ask a))%Z;
  sh_spawn : ∀ u q e d, spawning w u q e d → (1 ≤ d ≤ m)%Z;
  sh_depths : ∀ id d, depths w !! id = Some d → (1 ≤ d ≤ m)%Z;
}.
Lemma asks_moved v v' : moved v v' → ∀ u a, v'.1.2 !! u = Some a → (∃ b, v.1.2 !! u = Some b ∧ a_ask a = a_ask b) ∨ (0 ≤ q_depth (a_ask a))%Z.
Proof.
  assert (∀ r m (qs : gmap nat Asking) u a, alter (reply r) m qs !! u = Some a → ∃ b, qs !! u = Some b ∧ a_ask a = a_ask b) as Hr.
  { intros r m qs u a (b & Hb & ->)%alter_Some. exists b. by case_decide. }
  destruct 1 as [v|hs qs rs u a ph Hu He|hs qs rs u q from Hu Hq|hs qs rs u a id l Hu Hb Hl|hs qs rs id sid name m l text Hi|hs qs rs id sid name l Hi];
    cbn; intros v' a' Hv'.
  - left. by exists a'.
  - left. apply lookup_insert_Some in Hv' as [(<- & <-)|(Hne & Hv')]; [by exists a|by exists a'].
  - apply lookup_insert_Some in Hv' as [(<- & <-)|(Hne & Hv')]; [by right|left; by exists a'].
  - left. apply lookup_insert_Some in Hv' as [(<- & <-)|(Hne & Hv')]; [by exists a|by exists a'].
  - left. by eapply Hr.
  - left. clear Hi. revert qs Hv'. induction l as [|m l IH]; intros qs Hv'; [by exists a'|]. destruct (IH _ Hv') as (b & Hb & ->). by eapply Hr.
Qed.
(** An ask that a live agent makes carries the depth of that agent. *)
Lemma request_ask u c args w a : asks w !! u = None → asks (request u c args w) !! u = Some a →
  ∃ from x q, arguments c args w = Some (from, x) ∧ read_request x = RAsk q ∧ a_ask a = q.
Proof.
  intros Hu Ha. unfold request in Ha. destruct (arguments c args w) as [[from x]|] eqn:Hx; [|by rewrite Hu in Ha].
  destruct (read_request x) as [q| |sid target|] eqn:Hq; [|by rewrite Hu in Ha| |by rewrite Hu in Ha].
  - rewrite Hu in Ha. cbn in Ha. rewrite lookup_insert_eq in Ha. injection Ha as <-. by exists from, x, q.
  - unfold handle_agent_kill in Ha. destruct (pools w !! sid); [|cbn in Ha; by rewrite Hu in Ha].
    destruct (live_in w sid target); cbn [fst] in Ha; [rewrite asks_remove_agent in Ha|]; by rewrite Hu in Ha.
Qed.
Context `{!JsonLaws V}.
Hypothesis jis_null_object : ∀ o : V, jis_object o = true → jis_null o = false.
Lemma live_depth id args w from x q : (∀ d, depths w !! id = Some d → (0 ≤ d ≤ 255)%Z) → arguments (Live id) args w = Some (from, x) → read_request x = RAsk q →
  depths w !! id = Some (q_depth q).
Proof.
  intros Hd Hx Hq. unfold depths in *. rewrite lookup_fmap in *. cbn in Hx. destruct (lives w !! id) as [l|]; [|done]. cbn in *. specialize (Hd _ eq_refl).
  destruct (l_work l); try done. injection Hx as _ <-. rewrite (read_depth _ _ Hq). f_equal.
  unfold enrich_tool_args, subagent_context in *. destruct (jis_object args) eqn:Ho.
  - unfold extract_subagent_depth. rewrite jget_insert by done. cbn [mbind option_bind].
    rewrite jis_null_object by (by rewrite jis_object_insert, jis_object_empty). rewrite jis_object_insert, jis_object_empty.
    rewrite jget_insert_ne, jget_insert_ne, jget_insert by (rewrite ?jis_object_empty; done).
    rewrite <- (Z2N.id (l_depth l)), as_u64_number by lia. unfold umax. lia.
  - exfalso. assert (∀ k, jget args k = None) as Hnone.
    { intros k. destruct (jget args k) as [v|] eqn:Hk; [|done]. apply jget_object in Hk. by rewrite Hk in Ho. }
    unfold read_request, str_arg in Hq. rewrite !Hnone in Hq. done.
Qed.
Lemma agents_step a w e : e ∈ agents (step a w) → e ∈ agents w ∨ ∃ ag, a = AAgents ag ∧ e ∈ ag.
Proof.
  destruct a as [u c args|u now|u secs|u|id text|id|now|now|sids|name|ag]; cbn [step]; intros He; [left..|right; by exists ag].
  - unfold request in He. destruct (arguments c args w) as [[from x]|]; [|done]. destruct (read_request x) as [q| |sid target|]; [|done| |done].
    + by destruct (asks w !! u).
    + unfold handle_agent_kill in He. destruct (pools w !! sid); [|done]. destruct (live_in w sid target) eqn:Hl; [|done].
      cbn in He. unfold remove_agent in He. by rewrite Hl in He.
  - revert He. unfold ask_step. destruct (asks w !! u) as [a|]; [|done]. cbv zeta. destruct (a_phase a) as [| | |e' d| | | |x]; try done.
    + destruct (q_fresh _); [|done]. cbn. unfold remove_agent. by destruct (live_in _ _ _).
    + destruct (check_depth_limit _ _); [|done]. by destruct (find_agent (q_target _) _) as [[e' c]|].
    + unfold spawn. cbv zeta. fold (made_room (q_session (a_ask a)) w).
      assert (agents (made_room (q_session (a_ask a)) w) = agents w) as Hr.
      { unfold made_room. destruct (pools w !! _); [done|]. destruct (_ <=? _); [|done]. destruct (evict_id w) as [i|]; [|done].
        unfold remove_pool. by destruct (pools w !! i). }
      destruct (p_agents _ !! _); cbn; by rewrite Hr.
    + by destruct (look_cases u (a_ask a) w) as [->|(ph & -> & _)].
    + unfold send_message. destruct (pools w !! _) as [p|]; [|done]. destruct (p_agents p !! _) as [i|]; [|done]. destruct (lives w !! i) as [l|]; [|done].
      destruct (finished l); [done|]. by destruct (_ <=? _).
    + by destruct (a_reply a).
  - revert He. unfold ask_timeout. destruct (asks w !! u) as [a|]; [|done]. destruct (a_phase a); try done.
    + by destruct (look_cases u (a_ask a) w) as [->|(ph & -> & _)].
    + by destruct (a_reply a).
  - revert He. unfold abandon. destruct (asks w !! u) as [a|]; [|done]. by destruct (a_phase a).
  - revert He. unfold loop_step. destruct (lives w !! id) as [l|]; [|done]. destruct (l_work l); [destruct (l_queue l); by destruct (l_dropped l)| |by destruct (l_dropped l)|]; done.
  - revert He. unfold loop_abort. destruct (lives w !! id) as [l|]; [|done]. by destruct (l_dropped l && _).
  - done.
  - revert He. unfold cleanup_remove. apply (foldl_keeps (λ b, e ∈ agents b → e ∈ agents w)); [|done]. intros b sid Hb. destruct (pools b !! sid) as [p|] eqn:Hp; [|done].
    destruct (stale_pool b now p); [|done]. unfold remove_pool. by rewrite Hp.
  - revert He. unfold delete_sessions. apply (foldl_keeps (λ b, e ∈ agents b → e ∈ agents w)); [|done]. intros b sid Hb. unfold remove_pool. by destruct (pools b !! sid).
  - revert He. unfold delete_agent. apply (foldl_keeps (λ b, e ∈ agents b → e ∈ agents w)).
    + intros b sid Hb. unfold remove_agent. by destruct (live_in b sid name).
    + cbn. intros He%list_elem_of_In%List.filter_In. apply list_elem_of_In, He.
Qed.
Lemma shallow_step m a w : (1 ≤ m ≤ 255)%Z → well w → shallow m w → (∀ ag e, a = AAgents ag → e ∈ ag → (max_depth e.2 ≤ m)%Z) → shallow m (step a w).
Proof.
  intros Hm Hw [H1 H2 H3 H4] Hag. constructor.
  - intros e [He|(ag & -> & He)]%agents_step; [by apply H1|by eapply Hag].
  - intros u x Hx. destruct (asks_moved _ _ (moved_step a w Hw) u x Hx) as [(b & Hb & ->)|Hq]; [by eapply H2|done].
  - intros u q e d Hs. apply spawning_step in Hs as [Hs|(x & Hx & <- & -> & Hc)]; [by eapply H3|].
    specialize (H2 u x Hx). unfold check_depth_limit in Hc. destruct (Z.leb_spec (max_depth (default default_delegation (snd <$> find_agent (a_from x) (agents w)))) (q_depth (a_ask x))) as [|Hlt]; [done|].
    assert (max_depth (default default_delegation (snd <$> find_agent (a_from x) (agents w))) ≤ m)%Z as Hle.
    { destruct (find_agent (a_from x) (agents w)) as [y|] eqn:Hy; cbn; [|lia]. apply H1. by eapply find_elem. }
    unfold sat_add, umax. lia.
  - intros id d Hd. destruct (depths_step a w Hw) as [He|(u & x & e & d' & i & Hx & Hp & He)]; rewrite He in Hd; [by eapply H4|].
    apply lookup_insert_Some in Hd as [(<- & <-)|(_ & Hd)]; [|by eapply H4]. eapply (H3 u (a_ask x) e). by exists x.
Qed.

(** C21: Delegation through the agent tool is bounded: with no agent allowed more
    than [m] levels, every live agent runs at a depth from one to [m], and a
    question that a live agent asks with the agent tool itself carries the
    depth of that agent, whatever the model wrote into the arguments.  A
    script that a live agent runs asks as a caller of depth 0, so what it
    starts is counted from one again ([script_forgets_depth]), and the length
    of a chain of questions through scripts is not bounded by [m]. *)
(* @prop bounds defs=check_depth_limit,extract_subagent_depth,ask_step,spawn_live_agent witness=SubagentsWitness.depth_witness *)
Theorem delegation_bounded m acts :
  (1 ≤ m ≤ 255)%Z → (∀ ag e, AAgents ag ∈ acts → e ∈ ag → (max_depth e.2 ≤ m)%Z) →
  let w := run acts no_agents in
  (∀ id l, lives w !! id = Some l → (1 ≤ l_depth l ≤ m)%Z) ∧
  ∀ u a id args, asks w !! u = None → asks (step (ARequest u (Live id) args) w) !! u = Some a →
    ∃ l, lives w !! id = Some l ∧ q_depth (a_ask a) = l_depth l.
Proof.
  intros Hm Hacts w. assert (shallow m w) as Hs.
  { unfold w. assert (∀ w, well w → shallow m w → shallow m (run acts w)) as Hrun; [|apply Hrun; [apply well_none|]].
    - clear w. induction acts as [|a acts IH]; intros w Hw Hs; [done|]. apply IH; [intros ag e Hin; apply Hacts; by right|by apply well_step|].
      apply shallow_step; [done..|]. intros ag e ->. apply Hacts. by left.
    - constructor; cbn; [by intros e ?%not_elem_of_nil|done|by intros u q e d (a & Ha & _)|]. intros id d. unfold depths; cbn. by rewrite fmap_empty. }
  assert (∀ id l, lives w !! id = Some l → (1 ≤ l_depth l ≤ m)%Z) as Hd.
  { intros id l Hl. apply (sh_depths _ _ Hs id). unfold depths. by rewrite lookup_fmap, Hl. }
  split; [done|]. intros u a id args Hu Ha. destruct (request_ask u (Live id) args w a Hu Ha) as (from & x & q & Hx & Hq & ->).
  assert (depths w !! id = Some (q_depth q)) as Hid.
  { eapply live_depth; [|exact Hx|exact Hq]. intros d Hd'. pose proof (sh_depths _ _ Hs id d Hd'). lia. }
  unfold depths in Hid. rewrite lookup_fmap in Hid. destruct (lives w !! id) as [l|]; [|done]. exists l. split; [done|]. by injection Hid as <-.
Qed.
End tool.

Module SubagentsWitness.
#[local] Instance no_regex : Regex := {| re_is_match _ _ := false; re_capture1 _ _ := None |}.
(** A model that calls a tool in its first answers. *)
Definition call1 : ToolCall Jv.t := mkToolCall (bs "1") (bs "git") (Jv.Obj []) None.
Definition says (calls : list (ToolCall Jv.t)) (s : string) : LlmResponse Jv.t := mkResponse (bs s) calls None None None None None [] 0%Z [].
Definition toy_llm : Env Jv.t nat := {|
  provider_name := bs "toy"; supports_prefill := false;
  chat_stream w _ _ _ := (S w, Ok (if w <? 2 then says [call1] "look" else says [] "done"));
  chat w _ _ _ := (S w, Ok (says [] "forced"));
  compact_force w ms := (w, ms);
  LlmRetry.is_cancelled _ := false; sleep w _ := (w, false); random w := (w, f64_of_Z 0); now_ms _ := 0%Z; send w _ := w; on_retry w _ _ := w |}.
Definition toy_exec : Executor Jv.t := mkExecutor (λ _ _ _, Finished (bs "ok")) (λ _, false) 600 (λ _, 60%Z) (λ _, None) false (λ _ _, None) (λ n, Z.of_nat n).
Definition toy_batch (n : nat) : Batch (V:=Jv.t) := {|
  b_executor := toy_exec; b_context := subagent_context (V:=Jv.t) 1; b_session_id := 7%Z; b_channel := INTER_AGENT;
  b_limit_tokens := 1000; b_context_chars := n; b_detect_loops := true; b_yaml_tools := ∅; b_persist := None;
  b_policy := None; b_extra_deny := denied_for_subagent default_delegation false; b_system_tools := [bs "git"]; b_mcp := None; b_parallel_batch_id := None |}.
Definition toy_env : SubEnv Jv.t nat := mkSubEnv toy_llm toy_batch (λ _, false) (λ _, false).
#[local] Abbreviation toy_run max :=
  (run_subagent (V:=Jv.t) (λ n _, Z.of_nat (length n)) (λ _ _ s, s) (λ s, s) (λ _, false) decZ (recorded toy_env) default_config [] (bs "You are Bob.") (bs "look around") max).
Example toy_ends : length (toy_run 5 (0, [])).1.1.2 = 3 ∧ (toy_run 5 (0, [])).2 = Ok (bs "done").
Proof. vm_compute. split; reflexivity. Qed.
Example cut_after_one : (toy_run 1 (0, [])).2 = Ok (bs "forced").
Proof. vm_compute. reflexivity. Qed.

(** ** Runs of the pools *)

Definition as_u64 (v : Jv.t) : option N := match v with Jv.Num n => if (n <? 0)%Z then None else Some (Z.to_N n) | _ => None end.
Definition lower (s : str) : str := to_ascii_lowercase s.
#[local] Abbreviation world acts := (run (V:=Jv.t) as_u64 (parse_dec 64) decZ lower acts no_agents).
Definition ask_args (target text : string) (fresh : bool) : Jv.t :=
  Jv.Obj [(bs "action", Jv.Str (bs "ask")); (bs "target", Jv.Str (bs target)); (bs "text", Jv.Str (bs text)); (bs "fresh", Jv.Bool fresh)].
Definition asks_ (u : nat) (target text : string) (fresh : bool) : Action (V:=Jv.t) :=
  ARequest u (Turn (bs "Alice") 7 Jv.Null (bs "web")) (ask_args target text fresh).
Definition go (u n : nat) (now : Z) : list (Action (V:=Jv.t)) := replicate n (AAsk u now).
Definition works (id : nat) (text : string) : list (Action (V:=Jv.t)) := replicate 3 (ALoop id (bs text)).
Definition team : AgentMap := [(bs "Alice", default_delegation); (bs "Bob", default_delegation); (bs "Carol", default_delegation)].
Definition phase_of u (w : World) : option Phase := a_phase <$> asks w !! u.
(** Bob is spawned, answers, and is asked again. *)
Definition dialog : list (Action (V:=Jv.t)) :=
  [AAgents team; asks_ 0 "Bob" "one" false] ++ go 0 4 1000 ++ works 0 "first" ++ go 0 1 2000 ++
  [asks_ 1 "Bob" "two" false] ++ go 1 4 3000 ++ works 0 " " ++ go 1 1 4000.
Example dialog_answers :
  phase_of 0 (world dialog) = Some (PDone (Completed (bs "first"))) ∧ phase_of 1 (world dialog) = Some (PDone (Completed (bs "(no result)"))) ∧
  (λ r, m_text (n_question r)) <$> runs (world dialog) = [bs "one"; bs "two"].
Proof. vm_compute. split_and!; reflexivity. Qed.
(** Later questions do not count as activity of the pool: the least recently used
    pool is the one that was spawned into least recently. *)
Example use_is_no_activity : p_last_activity <$> pools (world dialog) !! 7%Z = Some 1000%Z.
Proof. vm_compute. reflexivity. Qed.
(** Two questions reach Bob at the same time. *)
Definition two_at_once : list (Action (V:=Jv.t)) :=
  [AAgents team; asks_ 0 "Bob" "one" false] ++ go 0 4 1000 ++ works 0 "first" ++
  [asks_ 1 "Bob" "two" false; asks_ 2 "Bob" "three" false] ++ go 1 3 3000 ++ go 2 3 3000 ++ go 1 1 3000 ++ go 2 1 3000.
Lemma waiting_witness : ∃ a, asks (world two_at_once) !! 2 = Some a ∧ a_phase a = PAwait ∧
  ∃ id n, ∀ text, settled 2 (world (two_at_once ++ replicate n (ALoop id text))).
Proof.
  destruct (asks (world two_at_once) !! 2) as [a|] eqn:Ha; [|exfalso; vm_compute in Ha; discriminate Ha].
  assert (a_phase <$> asks (world two_at_once) !! 2 = Some PAwait) as Hp by (vm_compute; reflexivity). rewrite Ha in Hp.
  cbn [fmap option_fmap option_map] in Hp. apply (inj Some) in Hp. exists a. split; [reflexivity|]. split; [exact Hp|].
  exact (waiting_ask_comes_back (V:=Jv.t) as_u64 (parse_dec 64) decZ lower two_at_once 2 a Ha Hp).
Defined.
(** Between two messages the agent counts as idle although one waits; eleven
    minutes after its spawn that is enough for the cleanup, and the question that
    waits is lost. *)
Definition swept : list (Action (V:=Jv.t)) := two_at_once ++ works 0 "second" ++ [ALook 661000; ACleanup 661000; AAbort 0] ++ go 2 1 661000.
Example busy_pool_is_swept :
  (l_processing <$> lives (world (two_at_once ++ works 0 "second")) !! 0) = Some false ∧
  (length ∘ l_queue <$> lives (world (two_at_once ++ works 0 "second")) !! 0) = Some 1 ∧
  phase_of 2 (world swept) = Some (PDone Exited).
Proof. vm_compute. split_and!; reflexivity. Qed.
(** A fresh instance is asked for, and an old one is reached: another question
    spawned it after the removal. *)
Example fresh_is_not_fresh :
  let w := world ([AAgents team; asks_ 0 "Bob" "one" true] ++ go 0 1 1000 ++ [asks_ 1 "Bob" "two" false] ++ go 1 4 1000 ++ works 0 "x" ++ go 0 3 1000 ++ works 0 "y") in
  (λ r, (n_live r, m_text (n_question r))) <$> runs w = [(0, bs "two"); (0, bs "one")].
Proof. vm_compute. reflexivity. Qed.
(** Bob, at the deepest level, asks a fresh Carol: the ask is refused, and the
    Carol at work is gone all the same. *)
Definition refused : list (Action (V:=Jv.t)) :=
  [AAgents team; asks_ 0 "Bob" "one" false; asks_ 1 "Carol" "two" false] ++ go 0 4 1000 ++ go 1 4 1000 ++ [ALoop 0 []; ALoop 1 []] ++
  [ARequest 2 (Live 0) (ask_args "Carol" "three" true)] ++ go 2 3 2000.
Example refused_ask_kills :
  (∃ text, phase_of 2 (world refused) = Some (PDone (Refused text))) ∧ l_dropped <$> lives (world refused) !! 1 = Some true.
Proof. vm_compute. split; [by eexists|reflexivity]. Qed.
(** The same agent under two spellings: two instances, and its deletion finds one. *)
Definition spelled : list (Action (V:=Jv.t)) := [AAgents team; asks_ 0 "Bob" "one" false; asks_ 1 "bob" "two" false] ++ go 0 4 1000 ++ go 1 4 1000.
Example deleted_agent_lives :
  (l_engine <$> lives (world spelled) !! 0) = Some (bs "Bob") ∧ (l_engine <$> lives (world spelled) !! 1) = Some (bs "Bob") ∧
  (l_dropped <$> lives (world (spelled ++ [ADeleteAgent (bs "Bob")])) !! 0) = Some true ∧
  (l_dropped <$> lives (world (spelled ++ [ADeleteAgent (bs "Bob")])) !! 1) = Some false.
Proof. vm_compute. split_and!; reflexivity. Qed.
(** A script starts at depth 0 again, whoever runs it. *)
Example script_forgets_depth :
  extract_subagent_depth as_u64 (codemode_args decZ 7 (bs "Bob") (ask_args "Carol" "x" false)) = 0%Z ∧
  extract_subagent_depth as_u64 (Jv.Obj [(bs "_context", Jv.Obj [(bs "subagent_depth", Jv.Str (bs "1"))])]) = 255%Z.
Proof. vm_compute. split; reflexivity. Qed.
(** An operator who forbids a base agent's subagents to execute code is ignored. *)
Example forbidden_code_exec :
  bool_decide (bs "code_exec" ∈ denied_for_subagent (mkDelegation 1 [bs "code_exec"] None) true) = false.
Proof. vm_compute. reflexivity. Qed.
Example timeouts : map (λ s, parse_subagent_timeout (bs s)) ["2m"; " 30s"; "m"; "1h"]%string = [120; 30; 120; 120]%Z.
Proof. vm_compute. reflexivity. Qed.
(** Two levels are allowed; Bob asks Carol. *)
Definition deeper : AgentMap := [(bs "Alice", mkDelegation 2 [] None); (bs "Bob", mkDelegation 2 [] None); (bs "Carol", default_delegation)].
Definition nested : list (Action (V:=Jv.t)) :=
  [AAgents deeper; asks_ 0 "Bob" "one" false] ++ go 0 4 1000 ++ [ALoop 0 []; ARequest 1 (Live 0) (ask_args "Carol" "two" false)] ++ go 1 4 1000.
Lemma depth_witness : (l_depth <$> lives (world nested) !! 1) = Some 2%Z ∧ ∀ id l, lives (world nested) !! id = Some l → (1 ≤ l_depth l ≤ 2)%Z.
Proof.
  split; [vm_compute; reflexivity|].
  refine (proj1 (delegation_bounded (V:=Jv.t) as_u64 (parse_dec 64) decZ lower _ _ 2 nested _ _)).
  - intros n. cbn. destruct (Z.ltb_spec (Z.of_N n) 0); [lia|]. by rewrite N2Z.id.
  - intros o. by destruct o.
  - lia.
  - intros ag e Hin He. unfold nested in Hin. cbn in Hin. repeat (apply elem_of_cons in Hin as [Hin|Hin]; [try discriminate Hin|]);
      [injection Hin as ->|by apply not_elem_of_nil in Hin].
    repeat (apply elem_of_cons in He as [->|He]; [cbn; lia|]). by apply not_elem_of_nil in He.
Defined.
End SubagentsWitness.
