(* ===== verification/Sse.v ===== *)
(** * From the events of a turn to what a client reads

    The path of an event: [agent/engine_event_sender.rs] puts it into a bounded
    channel, [gateway/sse/coalescer.rs] merges text, the converter
    ([gateway/handlers/chat/sse_converter.rs] with [sse_writer.rs] and
    [streaming_db.rs]) turns it into frames ([opex-types/src/sse.rs]) for the
    registry and keeps a row of the answer so far, and
    [gateway/handlers/chat/stream.rs] sends the frames to a reader.

    [step] is what one party does between two suspension points; times are
    milliseconds. *)
From S2P Require Import Prelude Json Messages Execute.
From S2P Require Sessions StreamRegistry.

(** [Value::Bool] *)
Class JsonBool (V : Type) := jbool : bool → V.
#[export] Instance Jv_bool : JsonBool Jv.t := Jv.Bool.

(** ** Frames *)

(* @src opex-types/src/sse.rs 289-294 SyncStatus *)
Inductive SyncStatus := SyncFinished | SyncError | SyncInterrupted | SyncRunning.
Section frames.
Context {V : Type}.
(** A table or a metric card stands for the value it is written as. *)
(* @src opex-types/src/sse.rs 232-244 RichCardData *)
Inductive RichCardData := Table (data : V) | Metric (data : V) | Other (card_type : str) (data : V).
(* @src opex-types/src/sse.rs 31-218 SseEvent *)
Inductive SseEvent :=
| WDataSessionId (session_id : str) (context_limit : option Z) (transient : bool)
| WStart (message_id : Uuid) (agent_name : str)
| WStepStart (step_id : str) (message_id : Uuid) (agent_name : str)
| WTextStart (id agent_name : str)
| WTextDelta (id delta : str)
| WTextEnd (id : str)
| WToolInputStart (tool_call_id tool_name agent_name : str) (parallel_batch_id : option Uuid)
| WToolInputDelta (tool_call_id input_text_delta : str)
| WToolInputAvailable (tool_call_id tool_name : str) (input : V) (parallel_batch_id : option Uuid)
| WToolOutputAvailable (tool_call_id output : str)
| WFile (url media_type : str) (filename : option str)
| WRichCard (card : RichCardData)
| WClarifyNeeded (clarify_id : Uuid) (question : str) (choices : list str) (timeout_ms : Z)
| WToolApprovalNeeded (approval_id : Uuid) (tool_name : str) (tool_input : V) (timeout_ms : Z)
| WToolApprovalResolved (approval_id : Uuid) (action : ApprovalAction) (modified_input : option V)
| WFinish (agent_name : str)
| WError (error_text : str)
| WReconnecting (attempt delay_ms : Z)
| WSync (content : str) (tool_calls : list V) (status : SyncStatus) (error : option str)
| WSyncBegin (boundary_message_id : option Uuid) (run_status : SyncStatus) (truncated : bool)
| WSyncEnd (last_seq : option Z)
| WUsage (usage : TokenUsage) (agent_name : str).
End frames.
Arguments RichCardData : clear implicits.
Arguments SseEvent : clear implicits.

Section stream.
Context {V : Type} `{Json V, JsonNumbers V, JsonArrays V, JsonBool V}.
Context (uuid_str : Uuid → str) (uuid_of : str → option Uuid).
(** The readers of the two known cards: the value a card is written back as. *)
Context (read_table read_metric : V → option V).
(** The text of an object with the given fields. *)
Context (object_text : list (str * V) → str).
Implicit Types (ev : StreamEvent V) (evs : list (StreamEvent V)) (frame : SseEvent V).

Definition object (fields : list (str * V)) : V := foldl (λ o kv, jinsert kv.1 kv.2 o) jempty fields.
Definition juuid (id : Uuid) : V := jstring (uuid_str id).
(** A field that is left out when there is nothing to write. *)
Definition optional {A} (key : string) (write : A → V) (x : option A) : list (str * V) :=
  match x with Some x => [(bs key, write x)] | None => [] end.
Definition nullable {A} (write : A → V) (x : option A) : V := default jnull (write <$> x).
Definition status_str (s : SyncStatus) : str :=
  match s with
  | SyncFinished => bs "finished" | SyncError => bs "error"
  | SyncInterrupted => bs "interrupted" | SyncRunning => bs "running"
  end.
(* @src opex-types/src/approvals.rs 14-18 ApprovalAction *)
Definition action_str (a : ApprovalAction) : str :=
  match a with Approved => bs "approved" | Rejected => bs "rejected" | TimeoutRejected => bs "timeout_rejected" end.

(* @src opex-types/src/sse.rs 316-329 rich_card_from_stream *)
Definition rich_card_from_stream (card_type : str) (data : V) : SseEvent V :=
  WRichCard
    (if bool_decide (card_type = bs "table") then
       match read_table data with Some t => Table t | None => Other card_type data end
     else if bool_decide (card_type = bs "metric") then
       match read_metric data with Some m => Metric m | None => Other card_type data end
     else Other card_type data).

Definition type_name frame : string :=
  match frame with
  | WDataSessionId _ _ _ => "data-session-id"
  | WStart _ _ => "start"
  | WStepStart _ _ _ => "step-start"
  | WTextStart _ _ => "text-start"
  | WTextDelta _ _ => "text-delta"
  | WTextEnd _ => "text-end"
  | WToolInputStart _ _ _ _ => "tool-input-start"
  | WToolInputDelta _ _ => "tool-input-delta"
  | WToolInputAvailable _ _ _ _ => "tool-input-available"
  | WToolOutputAvailable _ _ => "tool-output-available"
  | WFile _ _ _ => "file"
  | WRichCard _ => "rich-card"
  | WClarifyNeeded _ _ _ _ => "clarify-needed"
  | WToolApprovalNeeded _ _ _ _ => "tool-approval-needed"
  | WToolApprovalResolved _ _ _ => "tool-approval-resolved"
  | WFinish _ => "finish"
  | WError _ => "error"
  | WReconnecting _ _ => "reconnecting"
  | WSync _ _ _ _ => "sync"
  | WSyncBegin _ _ _ => "sync_begin"
  | WSyncEnd _ => "sync_end"
  | WUsage _ _ => "usage"
  end.
(* @src opex-types/src/sse.rs 220-310 SseEvent, DataSessionIdPayload, RichCardData, UsagePayload (serde) *)
Definition fields frame : list (str * V) :=
  match frame with
  | WDataSessionId sid limit transient =>
      [(bs "data", object ((bs "sessionId", jstring sid) :: optional "contextLimit" jnumber limit)); (bs "transient", jbool transient)]
  | WStart m agent => [(bs "messageId", juuid m); (bs "agentName", jstring agent)]
  | WStepStart s m agent => [(bs "stepId", jstring s); (bs "messageId", juuid m); (bs "agentName", jstring agent)]
  | WTextStart id agent => [(bs "id", jstring id); (bs "agentName", jstring agent)]
  | WTextDelta id delta => [(bs "id", jstring id); (bs "delta", jstring delta)]
  | WTextEnd id => [(bs "id", jstring id)]
  | WToolInputStart id name agent batch =>
      [(bs "toolCallId", jstring id); (bs "toolName", jstring name); (bs "agentName", jstring agent)] ++ optional "parallelBatchId" juuid batch
  | WToolInputDelta id text => [(bs "toolCallId", jstring id); (bs "inputTextDelta", jstring text)]
  | WToolInputAvailable id name input batch =>
      [(bs "toolCallId", jstring id); (bs "toolName", jstring name); (bs "input", input)] ++ optional "parallelBatchId" juuid batch
  | WToolOutputAvailable id output => [(bs "toolCallId", jstring id); (bs "output", jstring output)]
  | WFile url media filename => [(bs "url", jstring url); (bs "mediaType", jstring media)] ++ optional "filename" jstring filename
  | WRichCard (Table data) => [(bs "cardType", jstring (bs "table")); (bs "data", data)]
  | WRichCard (Metric data) => [(bs "cardType", jstring (bs "metric")); (bs "data", data)]
  | WRichCard (Other card data) =>
      [(bs "cardType", jstring (bs "other")); (bs "data", object [(bs "cardType", jstring card); (bs "data", data)])]
  | WClarifyNeeded id question choices timeout =>
      [(bs "clarifyId", juuid id); (bs "question", jstring question); (bs "choices", jarray (jstring <$> choices)); (bs "timeoutMs", jnumber timeout)]
  | WToolApprovalNeeded id name input timeout =>
      [(bs "approvalId", juuid id); (bs "toolName", jstring name); (bs "toolInput", input); (bs "timeoutMs", jnumber timeout)]
  | WToolApprovalResolved id action modified =>
      [(bs "approvalId", juuid id); (bs "action", jstring (action_str action))] ++ optional "modifiedInput" (λ v, v) modified
  | WFinish agent => [(bs "agentName", jstring agent)]
  | WError text => [(bs "errorText", jstring text)]
  | WReconnecting attempt delay => [(bs "attempt", jnumber attempt); (bs "delay_ms", jnumber delay)]
  | WSync content calls status error =>
      [(bs "content", jstring content); (bs "toolCalls", jarray calls); (bs "status", jstring (status_str status))] ++ optional "error" jstring error
  | WSyncBegin boundary status trunc =>
      [(bs "boundaryMessageId", nullable juuid boundary); (bs "runStatus", jstring (status_str status)); (bs "truncated", jbool trunc)]
  | WSyncEnd seq => [(bs "lastSeq", nullable jnumber seq)]
  | WUsage u agent =>
      [(bs "inputTokens", jnumber (input_tokens u)); (bs "outputTokens", jnumber (output_tokens u)); (bs "agentName", jstring agent)] ++
      optional "cacheReadTokens" jnumber (cache_read_tokens u) ++ optional "cacheCreationTokens" jnumber (cache_creation_tokens u) ++
      optional "reasoningTokens" jnumber (reasoning_tokens u)
  end.
(* @src opex-core/src/gateway/handlers/chat/sse_writer.rs 319-321 frame *)
Definition frame_text frame : str := object_text ((bs "type", jstring (bs (type_name frame))) :: fields frame).

(** ** The writer *)

(* @src opex-core/src/gateway/handlers/chat/sse_writer.rs 109-117 SseStreamWriter *)
Record SseStreamWriter := mkWriter {
  text_id_counter : Z;
  current_text_id : option str;
  tool_name_map : gmap str str;
  tool_batch_id_map : gmap str (option Uuid);
  current_agent : str;
}.
(* @src opex-core/src/gateway/handlers/chat/sse_writer.rs 120-128 new *)
Definition new_writer (agent : str) : SseStreamWriter := mkWriter 0 None ∅ ∅ agent.
(* @src opex-core/src/gateway/handlers/chat/sse_writer.rs 130-132 set_agent *)
Definition set_agent (agent : str) (w : SseStreamWriter) : SseStreamWriter :=
  mkWriter (text_id_counter w) (current_text_id w) (tool_name_map w) (tool_batch_id_map w) agent.
Definition set_text (counter : Z) (id : option str) (w : SseStreamWriter) : SseStreamWriter :=
  mkWriter counter id (tool_name_map w) (tool_batch_id_map w) (current_agent w).
(* @src opex-core/src/gateway/handlers/chat/sse_writer.rs 142-144 tool_name_for *)
Definition tool_name_for (w : SseStreamWriter) (id : str) : option str := tool_name_map w !! id.
(* @src opex-core/src/gateway/handlers/chat/sse_writer.rs 146-158 build_session_id *)
Definition build_session_id (sid : str) (context_limit : option Z) (w : SseStreamWriter) : SseEvent V :=
  WDataSessionId sid context_limit true.
(* @src opex-core/src/gateway/handlers/chat/sse_writer.rs 160-165 build_start *)
Definition build_start (message_id : Uuid) (w : SseStreamWriter) : SseEvent V := WStart message_id (current_agent w).
(* @src opex-core/src/gateway/handlers/chat/sse_writer.rs 167-173 build_step_start *)
Definition build_step_start (index : Z) (message_id : Uuid) (w : SseStreamWriter) : SseEvent V :=
  WStepStart (bs "step_" ++ decZ index) message_id (current_agent w).
(** The first delta of a block opens it. *)
(* @src opex-core/src/gateway/handlers/chat/sse_writer.rs 177-203 build_text_delta *)
Definition build_text_delta (delta : str) (w : SseStreamWriter) : SseStreamWriter * option (SseEvent V) * SseEvent V :=
  match current_text_id w with
  | Some id => (w, None, WTextDelta id delta)
  | None =>
      let n := wrap 32 (text_id_counter w + 1) in
      let id := bs "text-" ++ decZ n in
      (set_text n (Some id) w, Some (WTextStart id (current_agent w)), WTextDelta id delta)
  end.
(* @src opex-core/src/gateway/handlers/chat/sse_writer.rs 206-209 build_text_end_if_open *)
Definition build_text_end_if_open (w : SseStreamWriter) : SseStreamWriter * option (SseEvent V) :=
  match current_text_id w with
  | Some id => (set_text (text_id_counter w) None w, Some (WTextEnd id))
  | None => (w, None)
  end.
(* @src opex-core/src/gateway/handlers/chat/sse_writer.rs 211-228 build_tool_input_start *)
Definition build_tool_input_start (id name : str) (batch : option Uuid) (w : SseStreamWriter) : SseStreamWriter * SseEvent V :=
  (mkWriter (text_id_counter w) (current_text_id w) (<[id := name]> (tool_name_map w)) (<[id := batch]> (tool_batch_id_map w)) (current_agent w),
   WToolInputStart id name (current_agent w) batch).
(* @src opex-core/src/gateway/handlers/chat/sse_writer.rs 230-239 build_tool_input_delta *)
Definition build_tool_input_delta (id args_text : str) : SseEvent V := WToolInputDelta id args_text.
(* @src opex-core/src/gateway/handlers/chat/sse_writer.rs 241-263 build_tool_input_available *)
Definition build_tool_input_available (id : str) (input : V) (w : SseStreamWriter) : SseEvent V :=
  WToolInputAvailable id (default [] (tool_name_map w !! id)) input (default None (tool_batch_id_map w !! id)).
(* @src opex-core/src/gateway/handlers/chat/sse_writer.rs 265-272 build_finish *)
Definition build_finish (w : SseStreamWriter) : SseStreamWriter * SseEvent V := (set_text 0 None w, WFinish (current_agent w)).
(* @src opex-core/src/gateway/handlers/chat/sse_writer.rs 274-276 build_error *)
Definition build_error (text : str) : SseEvent V := WError text.
(* @src opex-core/src/gateway/handlers/chat/sse_writer.rs 278-294 build_usage *)
Definition build_usage (u : TokenUsage) (w : SseStreamWriter) : SseEvent V := WUsage u (current_agent w).
(** [None]: the [unimplemented!] of the events that need a context. *)
(* @src opex-core/src/gateway/handlers/chat/sse_writer.rs 29-101 From<StreamEvent> *)
Definition from_stream_event ev : option (SseEvent V) :=
  match ev with
  | ToolCallArgs id args => Some (WToolInputDelta id args)
  | ToolResult id result => Some (WToolOutputAvailable id result)
  | File url media filename => Some (WFile url media filename)
  | ClarifyNeeded id q choices timeout => Some (WClarifyNeeded id q choices timeout)
  | ApprovalNeeded id name input timeout => Some (WToolApprovalNeeded id name input timeout)
  | ApprovalResolved id action modified => Some (WToolApprovalResolved id action modified)
  | Reconnecting attempt delay => Some (WReconnecting attempt delay)
  | ErrorEvent text => Some (WError text)
  | SessionId _ _ | MessageStart _ | StepStart _ _ | TextDelta _ | ToolCallStart _ _ _ | Usage _ | Finish _ _ | RichCard _ _
  | StepFinish _ _ | AgentSwitch _ => None
  end.

(** ** The engine's side of the channel *)

(* @src opex-core/src/agent/engine_event_sender.rs 53-63 EngineSendError *)
Inductive EngineSendError := Closed (ev : StreamEvent V) | DroppedTextDelta | FullNonText (ev : StreamEvent V).
(** A channel of the given capacity: what waits in it, and whether its reader is gone. *)
Record Channel := mkChannel { ch_queue : list (StreamEvent V); ch_closed : bool }.
Definition is_text ev : bool := match ev with TextDelta _ => true | _ => false end.
Definition CAPACITY : nat := 256.
Inductive TrySend := Sent (c : Channel) | TryFull | TryClosed.
Definition try_send ev (c : Channel) : TrySend :=
  if ch_closed c then TryClosed
  else if CAPACITY <=? length (ch_queue c) then TryFull else Sent (mkChannel (ch_queue c ++ [ev]) false).
(* @src opex-core/src/agent/engine_event_sender.rs 117-129 send *)
Definition send ev (c : Channel) : Channel * option EngineSendError :=
  match try_send ev c with
  | Sent c => (c, None)
  | TryClosed => (c, Some (Closed ev))
  | TryFull => (c, Some (if is_text ev then DroppedTextDelta else FullNonText ev))
  end.
(** [None]: the sender waits for a free place. *)
(* @src opex-core/src/agent/engine_event_sender.rs 142-155 send_async *)
Definition send_async ev (c : Channel) : option (Channel * option EngineSendError) :=
  match try_send ev c with
  | Sent c => Some (c, None)
  | TryClosed => Some (c, Some (Closed ev))
  | TryFull => if is_text ev then Some (c, Some DroppedTextDelta) else None
  end.

(** ** The coalescer *)

(** The merged text that goes on before anything else does. *)
Definition flush (pending : str) : list (StreamEvent V) := match pending with [] => [] | _ => [TextDelta pending] end.
(** One event: the text that is pending afterwards, and what goes on. *)
(* @src opex-core/src/gateway/sse/coalescer.rs 62-82 spawn_coalescing_converter (event) *)
Definition coalesce (pending : str) ev : str * list (StreamEvent V) :=
  match ev with
  | TextDelta s => (pending ++ s, [])
  | other => ([], flush pending ++ [other])
  end.

(** ** The row of the answer so far *)

(** The messages, what is stored of the answer of a job, and the registry. *)
Record World := mkWorld {
  db : Sessions.Db (V:=V);
  contents : gmap Uuid (str * list V);
  registry : StreamRegistry.Registry;
}.
Definition on_db f (w : World) : World := mkWorld (f (db w)) (contents w) (registry w).
Definition on_registry f (w : World) : World := mkWorld (db w) (contents w) (f (registry w)).
(* @src opex-core/src/gateway/stream_jobs.rs 29-44 set_content *)
Definition set_content (job : Uuid) (text : str) (tools : list V) (w : World) : World :=
  mkWorld (db w) (<[job := (text, tools)]> (contents w)) (registry w).

(* @src opex-core/src/gateway/handlers/chat/streaming_db.rs 22-27 StreamingMessageGuard *)
Record StreamingMessageGuard := mkStreamGuard { g_msg_id : Uuid; g_session : option Uuid; g_finalized : bool }.
(* @src opex-core/src/gateway/handlers/chat/streaming_db.rs 41-54 StreamingMessageGuard::drop *)
Definition drop_guard (g : StreamingMessageGuard) (w : World) : World :=
  if negb (g_finalized g) && bool_decide (is_Some (g_session g))
  then on_db (Sessions.finalize_streaming_message (g_msg_id g)) w else w.

(** The array of the tools, from the cache unless there are new ones: what is
    written, and the count and the cache afterwards. *)
(* @src opex-core/src/gateway/handlers/chat/streaming_db.rs 60-73 build_tools_json *)
Definition build_tools_json (tools : list V) (flushed : nat) (cache : option V) : option V * nat * option V :=
  match tools with
  | [] => (None, flushed, cache)
  | _ =>
      let '(flushed, cache) :=
        if bool_decide (cache = None) || negb (length tools =? flushed)
        then (length tools, Some (jarray tools)) else (flushed, cache) in
      (cache, flushed, cache)
  end.
(** [None]: the database refuses the row. *)
(* @src opex-core/src/gateway/handlers/chat/streaming_db.rs 86-116 upsert_streaming_append *)
Definition upsert_streaming_append (id session : Uuid) (delta : str) (tools : option V) (now : Z) (d : Sessions.Db (V:=V))
    : option (Sessions.Db (V:=V)) :=
  d ← match Sessions.find_message id d with
      | Some _ =>
          Some (Sessions.update_messages (λ m, bool_decide (Sessions.m_id m = id))
                  (λ m, Sessions.set_message_content (Sessions.m_content m ++ delta) (Sessions.set_message_calls tools m)) d)
      | None =>
          let user := Sessions.newest Sessions.m_created
                        (List.filter (λ m, Sessions.in_session session m && Sessions.has_role "user" m) (Sessions.messages d)) in
          Sessions.insert_message (Sessions.mkMessage id session (bs "assistant") delta tools None now (bs "streaming")
                                     (Sessions.m_id <$> user)) d
      end;
  Some (Sessions.touch_session_activity session now d).
(* @src opex-core/src/gateway/handlers/chat/streaming_db.rs 121-129 read_streaming_content *)
Definition read_streaming_content (id : Uuid) (d : Sessions.Db (V:=V)) : str :=
  default [] (Sessions.m_content <$> Sessions.find_message id d).

(** ** The converter *)

(* @src opex-core/src/gateway/handlers/chat/sse_converter.rs 41-54 ConverterCtx *)
Record ConverterCtx := mkCtx { x_job_id : Uuid; x_agent_name : str }.
(** The locals of the task. [c_client]: what the client of the request was sent,
    [None] once its end is closed; [c_fresh]: how many ids were drawn. *)
(* @src opex-core/src/gateway/handlers/chat/sse_converter.rs 129-146 run_converter (locals) *)
Record Conv := mkConv {
  c_writer : SseStreamWriter;
  c_session_id_str : option str;
  c_session_uuid : option Uuid;
  c_text : str;
  c_tools : list V;
  c_flushed : nat;
  c_cache : option V;
  c_msg_id : Uuid;
  c_guard : StreamingMessageGuard;
  c_deadline : option Z;
  c_client : option (list (option Z * str));
  c_fresh : nat;
}.
Definition on_writer f c :=
  mkConv (f (c_writer c)) (c_session_id_str c) (c_session_uuid c) (c_text c) (c_tools c) (c_flushed c) (c_cache c) (c_msg_id c) (c_guard c)
    (c_deadline c) (c_client c) (c_fresh c).
Definition with_session sid uuid c :=
  mkConv (c_writer c) (Some sid) uuid (c_text c) (c_tools c) (c_flushed c) (c_cache c) (c_msg_id c)
    (match uuid with Some u => mkStreamGuard (g_msg_id (c_guard c)) (Some u) (g_finalized (c_guard c)) | None => c_guard c end)
    (c_deadline c) (c_client c) (c_fresh c).
Definition with_text text c :=
  mkConv (c_writer c) (c_session_id_str c) (c_session_uuid c) text (c_tools c) (c_flushed c) (c_cache c) (c_msg_id c) (c_guard c)
    (c_deadline c) (c_client c) (c_fresh c).
Definition with_tools tools flushed cache c :=
  mkConv (c_writer c) (c_session_id_str c) (c_session_uuid c) (c_text c) tools flushed cache (c_msg_id c) (c_guard c)
    (c_deadline c) (c_client c) (c_fresh c).
Definition with_deadline d c :=
  mkConv (c_writer c) (c_session_id_str c) (c_session_uuid c) (c_text c) (c_tools c) (c_flushed c) (c_cache c) (c_msg_id c) (c_guard c)
    d (c_client c) (c_fresh c).
Definition with_client cl c :=
  mkConv (c_writer c) (c_session_id_str c) (c_session_uuid c) (c_text c) (c_tools c) (c_flushed c) (c_cache c) (c_msg_id c) (c_guard c)
    (c_deadline c) cl (c_fresh c).
Definition finalized c :=
  mkConv (c_writer c) (c_session_id_str c) (c_session_uuid c) (c_text c) (c_tools c) (c_flushed c) (c_cache c) (c_msg_id c)
    (mkStreamGuard (g_msg_id (c_guard c)) (g_session (c_guard c)) true) (c_deadline c) (c_client c) (c_fresh c).

Context (ctx : ConverterCtx) (fresh : nat → Uuid).
(** What the clock and the database do at one event: the time, whether two
    seconds have passed since the last flush, which statements are carried out,
    and the ids a cleanup draws. *)
Record Io := mkIo {
  io_now : Z; io_due : bool; io_upsert : bool; io_read : bool; io_set : bool; io_delete : bool; io_check : bool; io_ids : nat → Uuid }.

Definition new_converter (client_open : bool) : Conv :=
  mkConv (new_writer (x_agent_name ctx)) None None [] [] 0 None (fresh 0) (mkStreamGuard (fresh 0) None false) None
    (if client_open then Some [] else None) 1.
Definition CLIENT_CAPACITY : nat := 1024.
Definition try_client (m : option Z * str) c : Conv :=
  match c_client c with
  | Some l => if CLIENT_CAPACITY <=? length l then c else with_client (Some (l ++ [m])) c
  | None => c
  end.
(** Into the registry once the session is known; a sequence number 0 is not sent. *)
(* @src opex-core/src/gateway/handlers/chat/sse_converter.rs 87-127 run_converter (send_and_buffer) *)
Definition send_and_buffer frame (cw : Conv * World) : Conv * World :=
  let '(c, w) := cw in let text := frame_text frame in
  let '(w, seq) := match c_session_id_str c with
                   | Some sid =>
                       let '(r, seq) := StreamRegistry.push_event (V:=V) sid text (registry w) in
                       (on_registry (λ _, r) w, seq)
                   | None => (w, 0%Z)
                   end in
  (try_client (if (0 <? seq)%Z then Some seq else None, text) c, w).
Definition send_opt (frame : option (SseEvent V)) (cw : Conv * World) : Conv * World :=
  match frame with Some f => send_and_buffer f cw | None => cw end.

(** The array of the tools, with the count and the cache it leaves behind. *)
Definition take_tools c : Conv * option V :=
  let '(json, flushed, cache) := build_tools_json (c_tools c) (c_flushed c) (c_cache c) in (with_tools (c_tools c) flushed cache c, json).
Definition append_row io sid tools c w : option World :=
  if io_upsert io
  then (λ d, on_db (λ _, d) w) <$> upsert_streaming_append (c_msg_id c) sid (c_text c) tools (io_now io) (db w)
  else None.
(** The last write, the read back, the content of the job and the end of the row. *)
(* @src opex-core/src/gateway/handlers/chat/sse_converter.rs 429-445 run_converter (Finish, the same on Error and at the end) *)
Definition persist io sid (cw : Conv * World) : Conv * World :=
  let '(c, tools) := take_tools cw.1 in
  let w := default cw.2 (append_row io sid tools c cw.2) in
  let full := if io_read io then read_streaming_content (c_msg_id c) (db w) else [] in
  let w := if io_set io then set_content (x_job_id ctx) full (c_tools c) w else w in
  (c, if io_delete io then on_db (Sessions.finalize_streaming_message (c_msg_id c)) w else w).
Definition persist_session io (cw : Conv * World) : Conv * World :=
  match c_session_uuid cw.1 with Some sid => persist io sid cw | None => cw end.
(** A failed flush keeps the text for the next one. *)
(* @src opex-core/src/gateway/handlers/chat/sse_converter.rs 333-345 run_converter (flush) *)
Definition flush_row io (cw : Conv * World) : Conv * World :=
  match c_session_uuid cw.1 with
  | Some sid =>
      if io_due io then
        let '(c, tools) := take_tools cw.1 in
        match append_row io sid tools c cw.2 with
        | Some w => (with_text [] c, w)
        | None => (c, cw.2)
        end
      else cw
  | None => cw
  end.
(** The state for the next turn of the stream. *)
(* @src opex-core/src/gateway/handlers/chat/sse_converter.rs 446-460 run_converter (after Finish) *)
Definition next_turn (cw : Conv * World) : Conv * World :=
  let c := finalized cw.1 in let id := fresh (c_fresh c) in
  (mkConv (c_writer c) (c_session_id_str c) (c_session_uuid c) [] [] 0 None id (mkStreamGuard id (c_session_uuid c) false)
     (c_deadline c) (c_client c) (S (c_fresh c)), drop_guard (c_guard c) cw.2).
Definition tool_entry (id name result : str) : V :=
  object [(bs "toolCallId", jstring id); (bs "toolName", jstring name); (bs "output", jstring result)].
Definition write_first io sid (cw : Conv * World) : World :=
  if io_upsert io
  then on_db (λ d, default d (Sessions.upsert_streaming_message (c_msg_id cw.1) sid [] None (io_now io) d)) cw.2
  else cw.2.

(** One event; [true]: the loop goes on.  The invitation of a mentioned agent is
    a task of its own. *)
(* @src opex-core/src/gateway/handlers/chat/sse_converter.rs 254-260 run_converter (text end) *)
Definition close_block ev (cw : Conv * World) : Conv * World :=
  if is_text ev then cw else
  let '(wr, e) := build_text_end_if_open (c_writer cw.1) in send_opt e (on_writer (λ _, wr) cw.1, cw.2).
Definition send_pure ev (cw : Conv * World) : Conv * World := send_opt (from_stream_event ev) cw.
(* @src opex-core/src/gateway/handlers/chat/sse_converter.rs 262-514 run_converter (match event) *)
Definition convert io ev (cw : Conv * World) : Conv * World * bool :=
  let '(c, w) := close_block ev cw in
  match ev with
  | SessionId sid limit =>
      let c := with_session sid (uuid_of sid) c in
      let w := match uuid_of sid with Some u => write_first io u (c, w) | None => w end in
      (send_and_buffer (build_session_id sid (Some limit) (c_writer c)) (c, w), true)
  | MessageStart m => (send_and_buffer (build_start m (c_writer c)) (c, w), true)
  | StepStart i m => (send_and_buffer (build_step_start i m (c_writer c)) (c, w), true)
  | TextDelta text =>
      let '(wr, start, delta) := build_text_delta text (c_writer c) in
      let '(c, w) := send_and_buffer delta (send_opt start (on_writer (λ _, wr) c, w)) in
      (flush_row io (with_text (c_text c ++ text) c, w), true)
  | ToolCallStart id name batch =>
      let '(wr, f) := build_tool_input_start id name batch (c_writer c) in
      (send_and_buffer f (on_writer (λ _, wr) c, w), true)
  | ToolCallArgs id args =>
      let '(c, w) := send_and_buffer (build_tool_input_delta id args) (c, w) in
      (send_and_buffer (build_tool_input_available id (default jempty (jparse args)) (c_writer c)) (c, w), true)
  | ToolResult id result =>
      let name := default [] (tool_name_for (c_writer c) id) in
      let c := with_tools (c_tools c ++ [tool_entry id name result]) (c_flushed c) None c in
      (send_pure ev (c, w), true)
  | StepFinish _ _ => (c, w, true)
  | RichCard card data => (send_and_buffer (rich_card_from_stream card data) (c, w), true)
  | File _ _ _ | ClarifyNeeded _ _ _ _ | ApprovalNeeded _ _ _ _ | ApprovalResolved _ _ _ | Reconnecting _ _ =>
      (send_pure ev (c, w), true)
  | AgentSwitch agent => (on_writer (set_agent agent) c, w, true)
  | Finish _ _ =>
      let '(wr, e) := build_text_end_if_open (c_writer c) in
      let '(c, w) := send_opt e (on_writer (λ _, wr) c, w) in
      let '(wr, f) := build_finish (c_writer c) in
      (next_turn (persist_session io (send_and_buffer f (on_writer (λ _, wr) c, w))), true)
  | Usage u => (send_and_buffer (build_usage u (c_writer c)) (c, w), true)
  | ErrorEvent text =>
      let '(c, w) := send_and_buffer (build_error text) (c, w) in
      let w := match c_session_id_str c with
               | Some sid => on_registry (StreamRegistry.mark_error sid text (io_now io)) w
               | None => w
               end in
      let '(c, w) := persist_session io (c, w) in (finalized c, w, false)
  end.

(** After the loop, when no error ended it. *)
(* @src opex-core/src/gateway/handlers/chat/sse_converter.rs 517-562 run_converter (after the loop) *)
Definition leave io (cw : Conv * World) : Conv * World :=
  let pending := negb (bool_decide (c_text cw.1 = [])) || negb (bool_decide (c_tools cw.1 = [])) in
  let '(c, w) := if pending then persist_session io cw else cw in
  let c := finalized c in
  let w := match c_session_id_str c with
           | Some sid => on_registry (StreamRegistry.mark_finished sid (io_now io)) w
           | None => w
           end in
  let '(wr, e) := build_text_end_if_open (c_writer c) in
  let c := on_writer (λ _, wr) c in
  let c := match e with Some f => try_client (None, frame_text f) c | None => c end in
  (try_client (None, bs "[DONE]") c, w).

(* @src opex-core/src/gateway/handlers/chat/sse_converter.rs 166-166 CANCEL_GRACE *)
Definition CANCEL_GRACE : Z := 60000.
(* @src opex-core/src/gateway/handlers/chat/sse_converter.rs 170-183 run_converter (cancel) *)
Definition observe_cancel (cancelled : bool) (now : Z) c : Conv :=
  match c_deadline c with
  | None => if cancelled then with_deadline (Some (now + CANCEL_GRACE)%Z) c else c
  | Some _ => c
  end.
(* @src opex-core/src/gateway/handlers/cancel_grace.rs 32-42 GracePollResult *)
Inductive GracePollResult := PollEvent (ev : StreamEvent V) (rest : list (StreamEvent V)) | PollClosed | GraceExceeded.
(** [None]: it waits.  The channel is looked at before the deadline. *)
(* @src opex-core/src/gateway/handlers/cancel_grace.rs 48-64 poll_event_with_cancel_grace *)
Definition poll_event_with_cancel_grace (queue : list (StreamEvent V)) (ended : bool) (deadline : option Z) (now : Z)
    : option GracePollResult :=
  match queue with
  | ev :: rest => Some (PollEvent ev rest)
  | [] =>
      if ended then Some PollClosed else
      match deadline with
      | Some dl => if (dl <=? now)%Z then Some GraceExceeded else None
      | None => None
      end
  end.
(** The session is interrupted, unless a later turn owns it. *)
(* @src opex-core/src/gateway/handlers/chat/sse_converter.rs 219-243 run_converter (grace exceeded) *)
Definition interrupt io (cw : Conv * World) : World :=
  let superseded := io_check io && Sessions.is_superseded (x_job_id ctx) (db cw.2) in
  match c_session_uuid cw.1 with
  | Some sid =>
      if negb superseded
      then on_db (λ d, (Sessions.cleanup_session_terminated sid (bs "interrupted") (bs "cancel_grace_exceeded") (io_now io) (io_ids io) d).1) cw.2
      else cw.2
  | None => cw.2
  end.

(** ** The reader *)

(** What is sent to a reader: an event with its number, one of the envelope
    without, and the end. *)
Inductive Outgoing := Event (seq : option Z) (data : str) | Done.
(* @src opex-core/src/gateway/handlers/chat/stream.rs 38-56 empty_envelope *)
Definition empty_envelope (status : SyncStatus) (payload : option (SseEvent V)) : list str :=
  [frame_text (WSyncBegin None status false)] ++ (match payload with Some p => [frame_text p] | None => [] end) ++
  [frame_text (WSyncEnd None)].
(* @src opex-core/src/gateway/handlers/chat/stream.rs 207-215 api_chat_stream (is_terminal) *)
Definition is_terminal (json : str) : bool :=
  match jparse (V:=V) json ≫= StreamRegistry.str_field "type" with
  | Some t => bool_decide (t = bs "finish") || bool_decide (t = bs "error")
  | None => false
  end.
(** What the receiver delivers: [None] for a gap, where events were lost. *)
(* @src opex-core/src/gateway/handlers/chat/stream.rs 195-237 api_chat_stream (live) *)
Fixpoint live (cutoff : option Z) (received : list (option (Z * str))) : list Outgoing :=
  match received with
  | [] => []
  | None :: rest => live cutoff rest
  | Some (seq, json) :: rest =>
      if match cutoff with Some c => (seq <=? c)%Z | None => false end then live cutoff rest
      else if is_terminal json then [Event (Some seq) json; Done] else Event (Some seq) json :: live cutoff rest
  end.
(* @src opex-core/src/gateway/handlers/chat/stream.rs 140-194 api_chat_stream (attached) *)
Definition attached (sub : StreamRegistry.StreamSubscription) (received : list (option (Z * str))) : list Outgoing :=
  let last_seq := fst <$> last (StreamRegistry.sub_events sub) in
  let status := if StreamRegistry.sub_finished sub then SyncFinished else SyncRunning in
  [Event None (frame_text (WSyncBegin (Some (StreamRegistry.sub_boundary sub)) status (StreamRegistry.sub_truncated sub)))] ++
  ((λ e, Event (Some e.1) e.2) <$> StreamRegistry.sub_events sub) ++ [Event None (frame_text (WSyncEnd last_seq))] ++
  (if StreamRegistry.sub_finished sub then [Done] else live last_seq received).
(** The row of a job as the database has it. *)
Record JobRow := mkJobRow { jr_id : Uuid; jr_status : str; jr_text : str; jr_tools : option (list V); jr_error : option str }.
(** What is sent, and the job that is marked as lost. *)
(* @src opex-core/src/gateway/handlers/chat/stream.rs 81-129 api_chat_stream (detached) *)
Definition detached (job : option JobRow) : list Outgoing * option (Uuid * str) :=
  let '(status, payload, lost) :=
    match job with
    | Some j =>
        let '(status, lost) :=
          if bool_decide (jr_status j = bs "finished") then (SyncFinished, None)
          else if bool_decide (jr_status j = bs "error") then (SyncError, None)
          else if bool_decide (jr_status j = bs "running") then (SyncInterrupted, Some (jr_id j, bs "stream lost: core restarted"))
          else (SyncError, None) in
        (status, Some (WSync (jr_text j) (default [] (jr_tools j)) status (jr_error j)), lost)
    | None => (SyncFinished, None, None)
    end in
  ((Event None <$> empty_envelope status payload) ++ [Done], lost).

(** ** The whole path *)

(** Whether the converter has started, runs, or is over. *)
Inductive Task := Spawned | Running | Over.
(** [y_offered]: what the engine's sends came back for; [y_accepted]: what of it
    was put into the channel; [y_done]: what the converter has taken. *)
Record Path := mkPath {
  y_raw : Channel; y_ended : bool; y_pending : str; y_coalescing : bool; y_outer : list (StreamEvent V);
  y_task : Task; y_conv : Conv; y_world : World; y_cancelled : bool; y_aborted : bool;
  y_offered : list (StreamEvent V); y_accepted : list (StreamEvent V); y_done : list (StreamEvent V);
}.
Definition on_engine raw ended offered accepted y :=
  mkPath raw ended (y_pending y) (y_coalescing y) (y_outer y) (y_task y) (y_conv y) (y_world y) (y_cancelled y) (y_aborted y) offered accepted (y_done y).
Definition on_coalescer raw pending coalescing outer y :=
  mkPath raw (y_ended y) pending coalescing outer (y_task y) (y_conv y) (y_world y) (y_cancelled y) (y_aborted y) (y_offered y) (y_accepted y) (y_done y).
Definition on_converter outer task (cw : Conv * World) y :=
  mkPath (y_raw y) (y_ended y) (y_pending y) (y_coalescing y) outer task cw.1 cw.2 (y_cancelled y) (y_aborted y) (y_offered y) (y_accepted y) (y_done y).
Definition took ev y :=
  mkPath (y_raw y) (y_ended y) (y_pending y) (y_coalescing y) (y_outer y) (y_task y) (y_conv y) (y_world y) (y_cancelled y) (y_aborted y)
    (y_offered y) (y_accepted y) (y_done y ++ [ev]).
Definition on_world f y :=
  mkPath (y_raw y) (y_ended y) (y_pending y) (y_coalescing y) (y_outer y) (y_task y) (y_conv y) (f (y_world y)) (y_cancelled y) (y_aborted y)
    (y_offered y) (y_accepted y) (y_done y).
Definition cancel_path y :=
  mkPath (y_raw y) (y_ended y) (y_pending y) (y_coalescing y) (y_outer y) (y_task y) (y_conv y) (y_world y) true (y_aborted y)
    (y_offered y) (y_accepted y) (y_done y).
(** The abort of the engine's task drops its end of the channel. *)
Definition abort_engine y :=
  mkPath (y_raw y) true (y_pending y) (y_coalescing y) (y_outer y) (y_task y) (y_conv y) (y_world y) (y_cancelled y) true
    (y_offered y) (y_accepted y) (y_done y).

(** An engine that must wait for a place has not sent yet. *)
Definition offer ev y : Path :=
  if y_ended y then y else
  match send_async ev (y_raw y) with
  | None => y
  | Some (c, err) => on_engine c false (y_offered y ++ [ev]) (y_accepted y ++ (match err with None => [ev] | _ => [] end)) y
  end.
(** Its three arms. *)
(* @src opex-core/src/gateway/sse/coalescer.rs 58-101 spawn_coalescing_converter (loop) *)
Definition receive y : Path :=
  if negb (y_coalescing y) then y else
  match ch_queue (y_raw y) with
  | [] => if y_ended y then on_coalescer (y_raw y) [] false (y_outer y ++ flush (y_pending y)) y else y
  | ev :: rest =>
      let '(pending, out) := coalesce (y_pending y) ev in
      on_coalescer (mkChannel rest (ch_closed (y_raw y))) pending true (y_outer y ++ out) y
  end.
Definition tick y : Path :=
  if negb (y_coalescing y) then y else on_coalescer (y_raw y) [] true (y_outer y ++ flush (y_pending y)) y.
(** One round of the loop, from the wait to the next one. *)
(* @src opex-core/src/gateway/handlers/chat/sse_converter.rs 169-247 run_converter (loop) *)
Definition convert_step io y : Path :=
  match y_task y with
  | Spawned => on_converter (y_outer y) Running (observe_cancel (y_cancelled y) (io_now io) (y_conv y), y_world y) y
  | Running =>
      match poll_event_with_cancel_grace (y_outer y) (negb (y_coalescing y)) (c_deadline (y_conv y)) (io_now io) with
      | None => y
      | Some (PollEvent ev rest) =>
          let '(cw, more) := convert io ev (y_conv y, y_world y) in
          took ev (if more : bool then on_converter rest Running (observe_cancel (y_cancelled y) (io_now io) cw.1, cw.2) y
                   else on_converter rest Over cw y)
      | Some PollClosed => on_converter (y_outer y) Over (leave io (y_conv y, y_world y)) y
      | Some GraceExceeded =>
          abort_engine (on_converter (y_outer y) Over (leave io (y_conv y, interrupt io (y_conv y, y_world y))) y)
      end
  | Over => y
  end.

(** [AWrite]: the other writers of the database. *)
Inductive Action :=
| AOffer ev | AEnd | AReceive | ATick | AConvert (io : Io) | ACancel
| AMarkFinished (key : str) (now : Z)
| AWrite (f : Sessions.Db (V:=V) → Sessions.Db (V:=V)).
Definition step (a : Action) y : Path :=
  match a with
  | AOffer ev => offer ev y
  | AEnd => on_engine (y_raw y) true (y_offered y) (y_accepted y) y
  | AReceive => receive y
  | ATick => tick y
  | AConvert io => convert_step io y
  | ACancel => cancel_path y
  | AMarkFinished key now => on_world (on_registry (StreamRegistry.mark_finished key now)) y
  | AWrite f => on_world (on_db f) y
  end.
Definition run (acts : list Action) y : Path := foldl (λ y a, step a y) y acts.
Definition start (client_open : bool) (w : World) : Path :=
  mkPath (mkChannel [] false) false [] true [] Spawned (new_converter client_open) w false false [] [] [].

(** The task of the engine: its events, and its end. *)
Inductive EngineEnd := BootError (e : str) | TurnError (evs : list (StreamEvent V)) (e : str) | TurnOk (evs : list (StreamEvent V)).
Definition failed_end key now (e : str) : list Action :=
  [AOffer (ErrorEvent e); AOffer (Finish (bs "error") false); AMarkFinished key now; AEnd].
(* @src opex-core/src/gateway/handlers/chat/sse.rs 443-491 api_chat_sse (engine task) *)
Definition engine_task (session : Uuid) (now : Z) (e : EngineEnd) : list Action :=
  let fails := AWrite (Sessions.mark_session_failed session) in let key := uuid_str session in
  match e with
  | BootError e => fails :: failed_end key now e
  | TurnError evs e => (AOffer <$> evs) ++ fails :: failed_end key now e
  | TurnOk evs => (AOffer <$> evs) ++ [AEnd]
  end.

(** ** What the frames say *)

(** Text and the other frames, in order; pieces of text that follow each other
    are one.  Lists of them have their last element first. *)
Inductive Shown := SText (s : str) | SFrame (json : str).
Definition put (s : str) (out : list Shown) : list Shown :=
  match s with
  | [] => out
  | _ => match out with SText t :: rest => SText (t ++ s) :: rest | _ => SText s :: out end
  end.
(** A client that takes a text frame only inside the block it belongs to, and
    other frames only between blocks: what it shows and the open block. *)
Definition Reading : Type := option (list Shown * option str).
Definition read_delta (id d : str) (r : Reading) : Reading :=
  '(out, open) ← r;
  if bool_decide (open = Some id) then Some (put d out, open) else None.
Definition read_other (json : str) (r : Reading) : Reading :=
  '(out, open) ← r;
  let v := jparse (V:=V) json in
  let typ := v ≫= StreamRegistry.str_field "type" in let id := v ≫= StreamRegistry.str_field "id" in
  if bool_decide (typ = Some (bs "text-start")) then
    match open, id with None, Some i => Some (out, Some i) | _, _ => None end
  else if bool_decide (typ = Some (bs "text-end")) then
    match open, id with Some i, Some j => if bool_decide (i = j) then Some (out, None) else None | _, _ => None end
  else match open with None => Some (SFrame json :: out, None) | Some _ => None end.
Definition read_step (r : Reading) (json : str) : Reading :=
  match StreamRegistry.view (V:=V) json with Some (id, d) => read_delta id d r | None => read_other json r end.
Definition reads (frames : list str) : Reading := foldl read_step (Some ([], None)) frames.

(** ** What the events say

    The frames of an event follow from it and the events before it (the last
    one first). *)
Fixpoint agent_of (h : list (StreamEvent V)) : str :=
  match h with [] => x_agent_name ctx | AgentSwitch a :: _ => a | _ :: h => agent_of h end.
Fixpoint call_of (id : str) (h : list (StreamEvent V)) : option (str * option Uuid) :=
  match h with
  | [] => None
  | ToolCallStart i name batch :: h => if bool_decide (i = id) then Some (name, batch) else call_of id h
  | _ :: h => call_of id h
  end.
Definition frames_of (h : list (StreamEvent V)) ev : list (SseEvent V) :=
  match ev with
  | SessionId sid limit => [WDataSessionId sid (Some limit) true]
  | MessageStart m => [WStart m (agent_of h)]
  | StepStart i m => [WStepStart (bs "step_" ++ decZ i) m (agent_of h)]
  | ToolCallStart id name batch => [WToolInputStart id name (agent_of h) batch]
  | ToolCallArgs id args =>
      [WToolInputDelta id args;
       WToolInputAvailable id (default [] (fst <$> call_of id h)) (default jempty (jparse args)) (default None (snd <$> call_of id h))]
  | ToolResult id result => [WToolOutputAvailable id result]
  | RichCard card data => [rich_card_from_stream card data]
  | File url media filename => [WFile url media filename]
  | ClarifyNeeded id q choices timeout => [WClarifyNeeded id q choices timeout]
  | ApprovalNeeded id name input timeout => [WToolApprovalNeeded id name input timeout]
  | ApprovalResolved id action modified => [WToolApprovalResolved id action modified]
  | Finish _ _ => [WFinish (agent_of h)]
  | ErrorEvent text => [WError text]
  | Reconnecting attempt delay => [WReconnecting attempt delay]
  | Usage u => [WUsage u (agent_of h)]
  | TextDelta _ | StepFinish _ _ | AgentSwitch _ => []
  end.
Definition show_frame (out : list Shown) frame : list Shown := SFrame (frame_text frame) :: out.
Definition show_step (x : list (StreamEvent V) * list Shown) ev : list (StreamEvent V) * list Shown :=
  match ev with
  | TextDelta s => (x.1, put s x.2)
  | _ => (ev :: x.1, foldl show_frame x.2 (frames_of x.1 ev))
  end.
Definition shows evs : list (StreamEvent V) * list Shown := foldl show_step ([], []) evs.
Definition transcript evs : list Shown := (shows evs).2.

(** The text and the tools of the answer that is being given. *)
Definition turn_text evs : str :=
  foldl (λ t ev, match ev with TextDelta s => t ++ s | Finish _ _ => [] | _ => t end) [] evs.
Definition turn_step (x : list (StreamEvent V) * list V) ev : list (StreamEvent V) * list V :=
  (if is_text ev then x.1 else ev :: x.1,
   match ev with
   | ToolResult id result => x.2 ++ [tool_entry id (default [] (fst <$> call_of id x.1)) result]
   | Finish _ _ => []
   | _ => x.2
   end).
Definition turn_tools evs : list V := (foldl turn_step ([], []) evs).2.

(** ** Reading *)

Context `{!JsonLaws V, !JsonText V}.
Context (object_text_parse : ∀ l, NoDup l.*1 → jparse (object_text l) = Some (object l)).

Lemma put_app a b out : put (a ++ b) out = put b (put a out).
Proof.
  destruct a as [|x a]; [done|]. destruct b as [|y b]; [by rewrite app_nil_r|]. cbn [put app].
  destruct out as [|[t|j] out]; cbn [put]; by rewrite <- ?app_assoc.
Qed.
Lemma object_skip k l o : k ∉ l.*1 → jget (foldl (λ o kv, jinsert kv.1 kv.2 o) o l) k = jget o k.
Proof.
  revert o. induction l as [|[k' v] l IH]; intros o Hk; [done|]. cbn [foldl fmap list_fmap fst] in *.
  apply not_elem_of_cons in Hk as [Hne Hk]. rewrite IH by done. by apply jget_insert_ne.
Qed.
Lemma object_is_object l o : jis_object o = true → jis_object (foldl (λ o kv, jinsert kv.1 kv.2 o) o l) = true.
Proof. revert o. induction l as [|[k v] l IH]; intros o Ho; [done|]. apply IH. cbn. by rewrite jis_object_insert. Qed.
Lemma object_field l1 k v l2 : k ∉ l2.*1 → jget (object (l1 ++ (k, v) :: l2)) k = Some v.
Proof.
  intros Hk. unfold object. rewrite foldl_app. cbn [foldl fst snd]. rewrite object_skip by done. apply jget_insert, object_is_object, jis_object_empty.
Qed.

Lemma frame_keys frame : NoDup (bs "type" :: (fields frame).*1).
Proof.
  destruct frame; try destruct card; cbn [fields]; unfold optional; repeat case_match; subst; apply (bool_decide_unpack _); vm_compute; exact I.
Qed.
Lemma frame_parse frame : jparse (frame_text frame) = Some (object ((bs "type", jstring (bs (type_name frame))) :: fields frame)).
Proof. apply object_text_parse, frame_keys. Qed.
Lemma frame_type frame : jparse (frame_text frame) ≫= StreamRegistry.str_field "type" = Some (bs (type_name frame)).
Proof.
  rewrite frame_parse. cbn [mbind option_bind]. unfold StreamRegistry.str_field.
  pose proof (object_field [] (bs "type") (jstring (bs (type_name frame))) _ (NoDup_cons_1_1 _ _ (frame_keys frame))) as Hf. cbn [app] in Hf.
  rewrite Hf. apply jas_str_jstring.
Qed.

Lemma frame_delta id d : StreamRegistry.view (V:=V) (frame_text (WTextDelta id d)) = Some (id, d).
Proof.
  unfold StreamRegistry.view. rewrite frame_parse. cbn [mbind option_bind].
  pose proof (frame_type (WTextDelta id d)) as Ht. rewrite frame_parse in Ht. cbn [mbind option_bind] in Ht. rewrite Ht. cbn [mbind option_bind type_name].
  rewrite bool_decide_eq_true_2 by done. cbn [negb fields]. unfold StreamRegistry.str_field.
  pose proof (λ t v, object_field [t] (bs "id") (jstring id) [(bs "delta", v)] ltac:(by apply (bool_decide_unpack _))) as Hi.
  pose proof (λ t i, object_field [t; i] (bs "delta") (jstring d) [] (not_elem_of_nil _)) as Hd. cbn [app] in Hi, Hd.
  rewrite Hi, Hd. cbn [mbind option_bind]. by rewrite !jas_str_jstring.
Qed.
Lemma frame_id_start id agent : jparse (frame_text (WTextStart id agent)) ≫= StreamRegistry.str_field "id" = Some id.
Proof.
  rewrite frame_parse. cbn [mbind option_bind fields]. unfold StreamRegistry.str_field.
  pose proof (λ t v, object_field [t] (bs "id") (jstring id) [(bs "agentName", v)] ltac:(by apply (bool_decide_unpack _))) as Hi. cbn [app] in Hi.
  rewrite Hi. apply jas_str_jstring.
Qed.
Lemma frame_id_end id : jparse (frame_text (WTextEnd id)) ≫= StreamRegistry.str_field "id" = Some id.
Proof.
  rewrite frame_parse. cbn [mbind option_bind fields]. unfold StreamRegistry.str_field.
  pose proof (λ t, object_field [t] (bs "id") (jstring id) [] (not_elem_of_nil _)) as Hi. cbn [app] in Hi. rewrite Hi. apply jas_str_jstring.
Qed.
Definition is_text_frame frame : bool :=
  match frame with WTextStart _ _ | WTextDelta _ _ | WTextEnd _ => true | _ => false end.
Lemma view_other frame : (∀ id d, frame ≠ WTextDelta id d) → StreamRegistry.view (V:=V) (frame_text frame) = None.
Proof.
  intros Hne. unfold StreamRegistry.view. pose proof (frame_type frame) as Ht. destruct (jparse _) as [v|]; [|done]. cbn [mbind option_bind] in *.
  rewrite Ht. cbn [mbind option_bind]. rewrite bool_decide_eq_false_2; [done|]. destruct frame; try done. by destruct (Hne id delta).
Qed.
Lemma read_frame out frame : is_text_frame frame = false → read_step (Some (out, None)) (frame_text frame) = Some (SFrame (frame_text frame) :: out, None).
Proof.
  intros Hf. unfold read_step. rewrite view_other by (intros id d ->; done). unfold read_other. rewrite frame_type. cbn [mbind option_bind].
  rewrite !bool_decide_eq_false_2; [done|by destruct frame|by destruct frame].
Qed.
Lemma read_start out id agent : read_step (Some (out, None)) (frame_text (WTextStart id agent)) = Some (out, Some id).
Proof.
  unfold read_step. rewrite view_other by done. unfold read_other. rewrite frame_type, frame_id_start. cbn [mbind option_bind type_name].
  by rewrite bool_decide_eq_true_2.
Qed.
Lemma read_text out id d : read_step (Some (out, Some id)) (frame_text (WTextDelta id d)) = Some (put d out, Some id).
Proof. unfold read_step. rewrite frame_delta. cbn. by rewrite bool_decide_eq_true_2. Qed.
Lemma read_end out id : read_step (Some (out, Some id)) (frame_text (WTextEnd id)) = Some (out, None).
Proof.
  unfold read_step. rewrite view_other by done. unfold read_other. rewrite frame_type, frame_id_end. cbn [mbind option_bind type_name].
  rewrite bool_decide_eq_false_2 by done. by rewrite !bool_decide_eq_true_2.
Qed.

(** What the registry shows of its events decides what a client reads of them. *)
Definition read_block (b : StreamRegistry.Block) (r : Reading) : Reading :=
  match b with StreamRegistry.Delta id d => read_delta id d r | StreamRegistry.Frame j => read_other j r end.
Lemma read_render (es : list (Z * str)) : reads es.*2 = foldr read_block (Some ([], None)) (StreamRegistry.render (V:=V) es).
Proof.
  unfold reads, StreamRegistry.render. change (snd <$> es) with es.*2. induction es.*2 as [|j l IH] using rev_ind; [done|].
  rewrite !foldl_app. cbn [foldl]. rewrite IH. unfold read_step, StreamRegistry.render_step.
  destruct (StreamRegistry.view j) as [[id d]|]; [|done].
  destruct (foldl _ [] l) as [|[id' d'|j'] rest]; [done| |done]. case_bool_decide as Hid; [|done]. subst id'. cbn [foldr read_block].
  destruct (foldr _ _ rest) as [[out open]|]; [|done]. cbn. case_bool_decide as Ho; [|done]. cbn. rewrite bool_decide_eq_true_2 by done. by rewrite put_app.
Qed.

(** ** What the converter tells the registry *)

Context (key : str) (sid : Uuid) (key_uuid : uuid_of key = Some sid).

(** The events of one session: it is announced first, and only then. *)
Definition is_session ev : bool := match ev with SessionId _ _ => true | _ => false end.
Definition one_session evs : Prop :=
  match evs with
  | [] => True
  | SessionId k _ :: rest => k = key ∧ Forall (λ ev, is_session ev = false) rest
  | _ => False
  end.
Section since.
(** What the stream had sent at some moment before. *)
Context (since : list (Z * str)).
(** The stream of the session, and what a client reads of all of it. *)
Definition told (r : StreamRegistry.Registry) (x : list Shown * option str) : Prop :=
  ∃ s, StreamRegistry.streams r !! key = Some s ∧ StreamRegistry.stream_ok (V:=V) s ∧ reads (StreamRegistry.sent s).*2 = Some x ∧
    since `prefix_of` StreamRegistry.sent s.
Definition Face : Type := SseStreamWriter * option str * option Uuid * StreamRegistry.Registry.
Definition face (cw : Conv * World) : Face := (c_writer cw.1, c_session_id_str cw.1, c_session_uuid cw.1, registry cw.2).
Record says evs (f : Face) : Prop := mkSays {
  sy_session : f.1.1.2 = match evs with [] => None | _ => Some key end;
  sy_uuid : f.1.2 = match evs with [] => None | _ => Some sid end;
  sy_told : told f.2 (transcript evs, current_text_id f.1.1.1);
  sy_agent : current_agent f.1.1.1 = agent_of (shows evs).1;
  sy_names : ∀ id, tool_name_map f.1.1.1 !! id = fst <$> call_of id (shows evs).1;
  sy_batches : ∀ id, tool_batch_id_map f.1.1.1 !! id = snd <$> call_of id (shows evs).1;
  sy_start : evs = [] → current_text_id f.1.1.1 = None;
}.

Lemma told_push text r x y :
  told r x → read_step (Some x) text = Some y → told (StreamRegistry.push_event (V:=V) key text r).1 y.
Proof.
  intros (s & Hs & Hok & Hr & Hp) Hy. unfold StreamRegistry.push_event. rewrite Hs. exists (StreamRegistry.push_stream (V:=V) text s).
  split; [cbn; by rewrite lookup_insert_eq|]. split; [by apply StreamRegistry.push_stream_ok|].
  unfold StreamRegistry.push_stream. cbn [StreamRegistry.sent]. split; [|by apply prefix_app_r].
  unfold reads in *. rewrite fmap_app, foldl_app, Hr. exact Hy.
Qed.
Lemma send_spec frame c w : ∃ cl r, send_and_buffer frame (c, w) = (with_client cl c, on_registry (λ _, r) w) ∧
  (c_session_id_str c = Some key → ∀ x y, told (registry w) x → read_step (Some x) (frame_text frame) = Some y → told r y).
Proof.
  unfold send_and_buffer.
  assert (∀ m, ∃ cl, try_client m c = with_client cl c) as Hc.
  { intros m. unfold try_client. destruct (c_client c) as [l|] eqn:Hl; [|exists None; destruct c; cbn in *; by subst].
    destruct (_ <=? _); [exists (Some l); destruct c; cbn in *; by subst|by eexists]. }
  destruct (c_session_id_str c) as [k|] eqn:Hk.
  - destruct (StreamRegistry.push_event k (frame_text frame) (registry w)) as [r seq] eqn:Hp.
    destruct (Hc (if (0 <? seq)%Z then Some seq else None, frame_text frame)) as [cl ->]. exists cl, r. split; [done|].
    intros [= ->] x y Ht Hy. pose proof (told_push _ _ _ _ Ht Hy) as Ht'. by rewrite Hp in Ht'.
  - destruct (Hc (if (0 <? 0)%Z then Some 0%Z else None, frame_text frame)) as [cl ->]. exists cl, (registry w).
    split; [by destruct w|done].
Qed.

Lemma face_persist io cw : face (persist_session io cw) = face cw.
Proof.
  unfold persist_session. destruct (c_session_uuid cw.1) as [u|]; [|done]. unfold persist, take_tools.
  destruct (build_tools_json _ _ _) as [[tools n] cache]. unfold append_row, face. cbn [fst snd c_writer with_tools c_session_id_str c_session_uuid].
  f_equal. assert (∀ w' : World, registry w' = registry cw.2 → registry (if io_set io then set_content (x_job_id ctx)
    (if io_read io then read_streaming_content (c_msg_id (with_tools (c_tools cw.1) n cache cw.1)) (db w') else []) (c_tools cw.1) w' else w') = registry cw.2) as Hset
    by (intros w' Hw; by destruct (io_set io)).
  destruct (io_delete io); cbn [on_db registry]; apply Hset; (destruct (io_upsert io); [|done]); by destruct (upsert_streaming_append _ _ _ _ _ _).
Qed.
Lemma face_flush io cw : face (flush_row io cw) = face cw.
Proof.
  unfold flush_row. destruct (c_session_uuid cw.1) as [u|] eqn:Hu; [|done]. destruct (io_due io); [|done]. unfold take_tools, append_row.
  destruct (build_tools_json _ _ _) as [[tools n] cache]. destruct (io_upsert io); [|done]. cbn [with_tools c_msg_id c_text].
  by destruct (upsert_streaming_append _ _ _ _ _ _).
Qed.
Lemma face_next cw : face (next_turn cw) = face cw.
Proof. unfold next_turn, drop_guard. by destruct (negb _ && _). Qed.
Lemma told_finish now r x : told r x → ∀ r', StreamRegistry.set_finished_state key now r = r' → told r'.1 x.
Proof.
  intros (s & Hs & Hok & Hr & Hp) r' <-. unfold StreamRegistry.set_finished_state. rewrite Hs. exists (StreamRegistry.finish_stream now s).
  cbn. rewrite lookup_insert_eq. split; [done|]. split; [by apply StreamRegistry.finish_stream_ok|done].
Qed.
Lemma told_error text now r x : told r x → told (StreamRegistry.mark_error key text now r) x.
Proof.
  intros Ht. unfold StreamRegistry.mark_error. pose proof (told_finish now r x Ht _ eq_refl) as Hf.
  by destruct (StreamRegistry.set_finished_state key now r) as [r' [j|]].
Qed.
Lemma told_finished k now r x : told r x → told (StreamRegistry.mark_finished k now r) x.
Proof.
  intros Ht. destruct (decide (k = key)) as [->|Hne].
  - unfold StreamRegistry.mark_finished. pose proof (told_finish now r x Ht _ eq_refl) as Hf.
    by destruct (StreamRegistry.set_finished_state key now r) as [r' [j|]].
  - destruct Ht as (s & Hs & Ht). exists s. split; [|done]. unfold StreamRegistry.mark_finished, StreamRegistry.set_finished_state.
    destruct (StreamRegistry.streams r !! k); [|done]. cbn. by rewrite lookup_insert_ne.
Qed.

(** Between two blocks. *)
Record closed (evs : list (StreamEvent V)) (c : Conv) (w : World) : Prop := mkClosed {
  cl_session : c_session_id_str c = Some key;
  cl_uuid : c_session_uuid c = Some sid;
  cl_text : current_text_id (c_writer c) = None;
  cl_told : told (registry w) (transcript evs, None);
  cl_agent : current_agent (c_writer c) = agent_of (shows evs).1;
  cl_names : ∀ id, tool_name_map (c_writer c) !! id = fst <$> call_of id (shows evs).1;
  cl_batches : ∀ id, tool_batch_id_map (c_writer c) !! id = snd <$> call_of id (shows evs).1;
}.
Lemma close_block_closed ev evs c w :
  says evs (face (c, w)) → evs ≠ [] → is_text ev = false → ∃ c' w', close_block ev (c, w) = (c', w') ∧ closed evs c' w'.
Proof.
  intros [E1 E2 E3 E4 E5 E6 _] He Ht. unfold close_block. rewrite Ht. cbn in *. destruct evs as [|e evs']; [done|]. set (l := e :: evs') in *.
  unfold build_text_end_if_open. destruct (current_text_id (c_writer c)) as [id|] eqn:Hid; cbn [send_opt].
  - destruct (send_spec (WTextEnd id) (on_writer (λ _, set_text (text_id_counter (c_writer c)) None (c_writer c)) c) w) as (cl & r & -> & Hr).
    exists (with_client cl (on_writer (λ _, set_text (text_id_counter (c_writer c)) None (c_writer c)) c)), (on_registry (λ _, r) w). split; [done|].
    constructor; try done. exact (Hr E1 _ _ E3 (read_end _ _)).
  - eexists _, w. split; [done|]. by constructor.
Qed.
Lemma shows_snoc evs ev : shows (evs ++ [ev]) = show_step (shows evs) ev.
Proof. unfold shows. by rewrite foldl_app. Qed.
Lemma snoc_ne {A B} (l : list A) (x : A) (a b : B) : match l ++ [x] with [] => a | _ => b end = b.
Proof. by destruct l. Qed.
(** What one event leaves, when it is not text. *)
Lemma says_intro evs ev c w wr' :
  is_text ev = false → c_writer c = wr' →
  c_session_id_str c = Some key → c_session_uuid c = Some sid →
  current_text_id wr' = None → told (registry w) (foldl show_frame (transcript evs) (frames_of (shows evs).1 ev), None) →
  current_agent wr' = agent_of (ev :: (shows evs).1) →
  (∀ id, tool_name_map wr' !! id = fst <$> call_of id (ev :: (shows evs).1)) →
  (∀ id, tool_batch_id_map wr' !! id = snd <$> call_of id (ev :: (shows evs).1)) →
  says (evs ++ [ev]) (face (c, w)).
Proof.
  intros Ht <- E1 E2 E3 E4 E5 E6 E7.
  assert (shows (evs ++ [ev]) = (ev :: (shows evs).1, foldl show_frame (transcript evs) (frames_of (shows evs).1 ev))) as Hs by (rewrite shows_snoc; by destruct ev).
  constructor; unfold transcript, face; rewrite ?Hs, ?snoc_ne; cbn [fst snd]; try done.
  by rewrite E3.
Qed.
Ltac sends :=
  repeat match goal with |- context [send_and_buffer ?f (?c, ?w)] =>
    let cl := fresh "cl" in let r := fresh "r" in let H := fresh "Hr" in destruct (send_spec f c w) as (cl & r & -> & H); cbn [fst snd] end.
(** An event that is one frame and leaves the writer as it is. *)
Lemma says_one evs ev c w frame :
  closed evs c w → is_text ev = false → frames_of (shows evs).1 ev = [frame] → is_text_frame frame = false →
  agent_of (ev :: (shows evs).1) = agent_of (shows evs).1 → (∀ id, call_of id (ev :: (shows evs).1) = call_of id (shows evs).1) →
  says (evs ++ [ev]) (face (send_and_buffer frame (c, w))).
Proof.
  intros [E1 E2 E3 E4 E5 E6 E7] Ht Hf Hk Ha Hc. sends. eapply (says_intro evs ev _ _ (c_writer c)); try done; rewrite ?Ha; try done.
  - rewrite Hf. eapply Hr; [done|exact E4|by apply read_frame].
  - intros id. by rewrite Hc.
  - intros id. by rewrite Hc.
Qed.
Lemma transcript_text evs s : shows (evs ++ [TextDelta s]) = ((shows evs).1, put s (transcript evs)).
Proof. by rewrite shows_snoc. Qed.
Lemma says_text io text evs c w :
  says evs (face (c, w)) → evs ≠ [] → says (evs ++ [TextDelta text]) (face (convert io (TextDelta text) (c, w)).1).
Proof.
  intros [E1 E2 E3 E4 E5 E6 _] He. assert (c_session_id_str c = Some key) as Hk by (cbn in E1; by destruct evs).
  assert (c_session_uuid c = Some sid) as Hu by (cbn in E2; by destruct evs).
  unfold convert, close_block, build_text_delta. cbn [is_text]. cbn in E3, E4, E5, E6.
  destruct (current_text_id (c_writer c)) as [id|] eqn:Hid; cbn [send_opt]; sends; rewrite face_flush.
  - constructor; unfold transcript; rewrite ?transcript_text, ?snoc_ne; try done.
    + cbn. rewrite Hid. eapply Hr; [done|exact E3|apply read_text].
    + cbn. by destruct evs.
  - constructor; unfold transcript; rewrite ?transcript_text, ?snoc_ne; try done.
    + cbn. eapply Hr0; [done| |apply read_text]. eapply Hr; [done|exact E3|apply read_start].
    + cbn. by destruct evs.
Qed.
Lemma says_first io lim c w :
  says [] (face (c, w)) → says [SessionId key lim] (face (convert io (SessionId key lim) (c, w)).1).
Proof.
  intros [E1 E2 E3 E4 E5 E6 E7]. cbn in E1, E2, E3, E4, E5, E6. specialize (E7 eq_refl). cbn in E7.
  unfold convert, close_block, build_text_end_if_open. cbn [is_text fst snd]. rewrite E7. cbn [send_opt]. rewrite key_uuid.
  assert (registry (write_first io sid (with_session key (Some sid) (on_writer (λ _, c_writer c) c), w)) = registry w) as Hw by (unfold write_first; by destruct (io_upsert io)).
  sends. rewrite Hw, E7 in *. eapply (says_intro [] (SessionId key lim) _ _ (c_writer c)); try done.
  eapply Hr; [done|exact E3|]. by apply read_frame.
Qed.

Lemma frames_args id args evs c w :
  closed evs c w → says (evs ++ [ToolCallArgs id args])
    (face (send_and_buffer (build_tool_input_available id (default jempty (jparse args)) (c_writer c)) (send_and_buffer (build_tool_input_delta id args) (c, w)))).
Proof.
  intros [E1 E2 E3 E4 E5 E6 E7]. sends. sends. eapply (says_intro evs (ToolCallArgs id args) _ _ (c_writer c)); try done.
  unfold build_tool_input_available in Hr0. rewrite E6, E7 in Hr0.
  exact (Hr0 E1 _ _ (Hr E1 _ _ E4 (read_frame _ (WToolInputDelta id args) eq_refl)) (read_frame _ (WToolInputAvailable id _ _ _) eq_refl)).
Qed.
Lemma says_convert io ev evs c w :
  says evs (face (c, w)) → one_session (evs ++ [ev]) → says (evs ++ [ev]) (face (convert io ev (c, w)).1).
Proof.
  intros Hs Ho. destruct (decide (evs = [])) as [->|Hne].
  { destruct ev as [k lim| | | | | | | | | | | | | | | | |]; try done. destruct Ho as [-> _]. by apply says_first. }
  assert (is_session ev = false) as Hse.
  { destruct evs as [|e evs]; [done|]. destruct e; try done. destruct Ho as [_ Ho]. by apply Forall_app in Ho as [_ [Ho _]%Forall_cons]. }
  destruct (is_text ev) eqn:Ht; [destruct ev; try done; by apply says_text|].
  destruct (close_block_closed ev evs c w Hs Hne Ht) as (c' & w' & Hb & Hc). unfold convert. rewrite Hb. clear c w Hs Hb.
  pose proof Hc as [E1 E2 E3 E4 E5 E6 E7].
  destruct ev as [| | | |id name batch|id args|id result|step why|card data|url media name|why cont|id q choices timeout|id name input timeout|id act md|agent|text| |];
    try done; cbn [fst snd]; unfold send_pure; cbn [from_stream_event send_opt].
  - unfold build_start. rewrite E5. by eapply says_one.
  - unfold build_step_start. rewrite E5. by eapply says_one.
  - unfold build_tool_input_start. sends. rewrite E5 in Hr. eapply (says_intro evs (ToolCallStart id name batch)); try done; cbn.
    + exact (Hr E1 _ _ E4 (read_frame _ (WToolInputStart id name _ batch) eq_refl)).
    + intros i. destruct (decide (i = id)) as [->|Hn]; [by rewrite lookup_insert_eq, bool_decide_eq_true_2|].
      by rewrite lookup_insert_ne, bool_decide_eq_false_2 by congruence.
    + intros i. destruct (decide (i = id)) as [->|Hn]; [by rewrite lookup_insert_eq, bool_decide_eq_true_2|].
      by rewrite lookup_insert_ne, bool_decide_eq_false_2 by congruence.
  - pose proof (frames_args id args evs c' w' Hc) as Ha. destruct (send_spec (build_tool_input_delta id args) c' w') as (cl & r & Hs & _). by rewrite Hs in *.
  - by eapply says_one.
  - by eapply says_intro.
  - by eapply says_one.
  - by eapply says_one.
  - unfold build_text_end_if_open. rewrite E3. cbn [send_opt fst snd build_finish]. rewrite face_next, face_persist. sends. cbn in Hr. rewrite E5 in Hr.
    eapply (says_intro evs (Finish why cont)); try done. exact (Hr E1 _ _ E4 (read_frame _ (WFinish _) eq_refl)).
  - by eapply says_one.
  - by eapply says_one.
  - by eapply says_one.
  - by eapply says_intro.
  - sends. cbn [with_client c_session_id_str]. rewrite E1.
    destruct (persist_session io _) as [c2 w2] eqn:Hp. pose proof (face_persist io (with_client cl c', on_registry (StreamRegistry.mark_error key text (io_now io)) (on_registry (λ _, r) w'))) as Hf.
    rewrite Hp in Hf. cbn [fst]. change (face (finalized c2, w2)) with (face (c2, w2)). rewrite Hf.
    eapply (says_intro evs (ErrorEvent text)); try done. apply told_error. exact (Hr E1 _ _ E4 (read_frame _ (WError text) eq_refl)).
  - by eapply says_one.
  - unfold build_usage. rewrite E5. by eapply says_one.
Qed.

(** ** The whole path keeps it *)

(** Everything between the engine and the registry. *)
Definition waiting y : list (StreamEvent V) := y_outer y ++ flush (y_pending y) ++ ch_queue (y_raw y).
Definition total y : list (StreamEvent V) := y_done y ++ waiting y.
Definition not_text ev : bool := negb (is_text ev).
Record flow (y : Path) : Prop := mkFlow {
  fl_open : ch_closed (y_raw y) = false;
  fl_kept : List.filter not_text (y_accepted y) = List.filter not_text (y_offered y);
  fl_sub : y_accepted y `sublist_of` y_offered y;
  fl_shows : shows (total y) = shows (y_accepted y);
  fl_drained : y_coalescing y = false → y_pending y = [] ∧ ch_queue (y_raw y) = [] ∧ y_ended y = true;
}.
Lemma show_flush p x : foldl show_step x (flush p) = (x.1, put p x.2).
Proof. destruct p; [by destruct x|done]. Qed.
Lemma show_coalesce p ev rest x :
  foldl show_step x (flush p ++ ev :: rest) = foldl show_step x ((coalesce p ev).2 ++ flush (coalesce p ev).1 ++ rest).
Proof.
  rewrite foldl_app, show_flush. destruct ev; cbn [coalesce fst snd]; rewrite ?app_nil_l; rewrite !foldl_app, ?show_flush; cbn [foldl]; try done.
  unfold show_step at 2. cbn [fst snd]. by rewrite put_app.
Qed.
Lemma one_session_cons e l : one_session (e :: l) ↔ (∃ lim, e = SessionId key lim) ∧ Forall (λ ev, is_session ev = false) l.
Proof.
  split.
  - destruct e; try done. intros [-> Hl]. split; [by eexists|done].
  - intros [(lim & ->) Hl]. done.
Qed.
Lemma flush_no_session p : Forall (λ ev, is_session ev = false) (flush p).
Proof. destruct p; [constructor|by repeat constructor]. Qed.
Lemma one_session_coalesce l p ev rest :
  one_session (l ++ flush p ++ ev :: rest) → one_session (l ++ (coalesce p ev).2 ++ flush (coalesce p ev).1 ++ rest) ∧ (l ++ (coalesce p ev).2) ≠ [].
Proof.
  destruct l as [|e l]; cbn [app].
  - destruct p as [|c p]; [|done]. cbn [flush app]. intros Ho. by destruct ev.
  - intros (He & Hl)%one_session_cons. split; [|done]. apply one_session_cons. split; [done|].
    apply Forall_app in Hl as [Hl [_ [Hev Hrest]%Forall_cons]%Forall_app]. apply Forall_app. split; [done|].
    destruct ev; cbn [coalesce fst snd]; rewrite ?Forall_app; repeat split; first [done|apply flush_no_session|by repeat constructor].
Qed.
Lemma flow_step a y : flow y → flow (step a y).
Proof.
  intros Hf. pose proof Hf as [E1 E2 E3 E4 E5]. destruct a as [ev| | | |io| |k now|f]; cbn [step]; try by constructor.
  - unfold offer. destruct (y_ended y) eqn:Hend; [exact Hf|]. unfold send_async, try_send. rewrite E1.
    assert (y_coalescing y = true) as Hco by (destruct (y_coalescing y); [done|by destruct (E5 eq_refl) as (_ & _ & ?)]).
    destruct (_ <=? _).
    + destruct (is_text ev) eqn:Ht; [|exact Hf]. constructor; cbn; rewrite ?app_nil_r; try done; [|by apply sublist_inserts_r].
      rewrite List.filter_app, E2. unfold not_text at 3. cbn. rewrite Ht. cbn. by rewrite app_nil_r.
    + constructor; cbn; try done; [by rewrite !List.filter_app, E2|by apply sublist_app| |by rewrite Hco].
      unfold total, waiting, shows in *. cbn. rewrite !app_assoc, foldl_app, <- !app_assoc. by rewrite E4, foldl_app.
  - constructor; cbn; try done. intros Hc. by destruct (E5 Hc) as (? & ? & _).
  - unfold receive. destruct (y_coalescing y) eqn:Hco; [|exact Hf]. cbn [negb]. destruct (ch_queue (y_raw y)) as [|ev rest] eqn:Hq.
    + destruct (y_ended y) eqn:Hend; [|exact Hf]. constructor; cbn; try done. unfold total, waiting in *. cbn. rewrite Hq in *.
      unfold shows in *. rewrite <- E4. by rewrite !app_nil_r.
    + destruct (coalesce (y_pending y) ev) as [p out] eqn:Hc. constructor; cbn; try done. unfold total, waiting, shows in *. cbn. rewrite Hq in E4.
      rewrite <- E4, <- !app_assoc, !foldl_app. rewrite app_assoc in E4. pose proof (show_coalesce (y_pending y) ev rest (foldl show_step (foldl show_step ([], []) (y_done y)) (y_outer y))) as Hs.
      rewrite Hc in Hs. cbn [fst snd] in Hs. by rewrite !foldl_app in Hs.
  - unfold tick. destruct (y_coalescing y) eqn:Hco; [|exact Hf]. constructor; cbn; try done. unfold total, waiting in *. cbn. unfold shows in *; by rewrite <- E4, <- !app_assoc.
  - unfold convert_step. destruct (y_task y); [by constructor| |exact Hf].
    destruct (y_outer y) as [|ev rest] eqn:Ho; cbn [poll_event_with_cancel_grace].
    + destruct (negb (y_coalescing y)) eqn:Hco; [by constructor; cbn; try done; unfold total, waiting in *; cbn; rewrite Ho in *|].
      destruct (c_deadline (y_conv y)) as [dl|]; [|exact Hf]. destruct (dl <=? io_now io)%Z; [|exact Hf].
      constructor; cbn; try done. { unfold total, waiting in *; cbn; by rewrite Ho in E4. } intros Hc. by rewrite Hc in Hco.
    + destruct (convert io ev (y_conv y, y_world y)) as [[c w] more]. unfold total, waiting in *. rewrite Ho in E4.
      destruct more; constructor; cbn; try done; unfold total, waiting; cbn; unfold shows in *; by rewrite <- E4, <- !app_assoc.
Qed.

Record sound (y : Path) : Prop := mkSound {
  so_started : (y_offered y = [] ∧ total y = []) ∨ (y_offered y ≠ [] ∧ total y ≠ [] ∧ one_session (total y));
  so_says : y_task y ≠ Over → says (y_done y) (face (y_conv y, y_world y));
  so_told : ∃ open, told (registry (y_world y)) (transcript (y_done y), open);
}.
Lemma one_session_prefix l k : one_session (l ++ k) → one_session l.
Proof. destruct l as [|e l]; [done|]. intros [He [Hl _]%Forall_app]%one_session_cons. by apply one_session_cons. Qed.
Lemma one_session_snoc l k ev : l ≠ [] → k ≠ [] → one_session (l ++ [ev]) → one_session k → one_session (k ++ [ev]).
Proof.
  destruct l as [|x l]; [done|]. destruct k as [|z k]; [done|]. intros _ _ [_ [_ Hev]%Forall_app]%one_session_cons [Hz Hk]%one_session_cons.
  apply one_session_cons. split; [done|]. by apply Forall_app.
Qed.
Lemma told_leave io c w x : told (registry w) x → told (registry (leave io (c, w)).2) x.
Proof.
  intros Ht. unfold leave.
  destruct (if negb (bool_decide (c_text (c, w).1 = [])) || negb (bool_decide (c_tools (c, w).1 = [])) then persist_session io (c, w) else (c, w)) as [c2 w2] eqn:Hp.
  assert (registry w2 = registry w) as Hr.
  { pose proof (face_persist io (c, w)) as Hf. destruct (_ || _); [rewrite Hp in Hf; by injection Hf|by injection Hp as <- <-]. }
  destruct (build_text_end_if_open _) as [wr e]. cbn [snd]. destruct (c_session_id_str (finalized c2)); [|by rewrite Hr].
  apply told_finished. by rewrite Hr.
Qed.
Lemma sound_offer ev y : flow y → sound y → one_session (y_offered (offer ev y)) → sound (offer ev y).
Proof.
  intros Hf Hs. pose proof Hs as [E1 E2 E3]. unfold offer. destruct (y_ended y); [done|]. unfold send_async, try_send. rewrite (fl_open y Hf).
  destruct (_ <=? _).
  - destruct (is_text ev) eqn:Ht; [|done]. cbn. intros Ho. constructor; cbn; try done. right. unfold total, waiting in *. cbn.
    destruct E1 as [[He _]|(He & Htot & Hone)]; [rewrite He in Ho; by destruct ev|]. split; [|done]. by destruct (y_offered y).
  - intros Ho. cbn [y_offered on_engine] in Ho. constructor; [right|exact E2|exact E3]. assert (∀ y', y' = on_engine (mkChannel (ch_queue (y_raw y) ++ [ev]) false) false (y_offered y ++ [ev]) (y_accepted y ++ [ev]) y →
      total y' = total y ++ [ev]) as Htot by (intros y' ->; unfold total, waiting; cbn; by rewrite <- !app_assoc).
    rewrite (Htot _ eq_refl). cbn [y_offered on_engine]. split; [by intros [_ ?]%app_nil|]. split; [by intros [_ ?]%app_nil|].
    destruct E1 as [[He ->]|(He & Hne & Hone)]; [by rewrite He in Ho|]. exact (one_session_snoc _ _ _ He Hne Ho Hone).
Qed.
Lemma sound_same y y' : y_offered y' = y_offered y → total y' = total y → y_done y' = y_done y → y_task y' = y_task y →
  face (y_conv y', y_world y') = face (y_conv y, y_world y) → sound y → sound y'.
Proof.
  intros Ho Ht Hd Hk Hf [E1 E2 E3]. assert (registry (y_world y') = registry (y_world y)) as Hr by (by injection Hf).
  constructor; rewrite ?Ho, ?Ht, ?Hd, ?Hk, ?Hf, ?Hr; done.
Qed.
Lemma sound_receive y : sound y → sound (receive y).
Proof.
  intros Hs. unfold receive. destruct (y_coalescing y); [|done]. cbn [negb]. destruct (ch_queue (y_raw y)) as [|ev rest] eqn:Hq.
  - destruct (y_ended y); [|done]. eapply sound_same; [..|exact Hs]; try done. unfold total, waiting. cbn. by rewrite Hq, !app_nil_r.
  - pose proof (one_session_coalesce (y_done y ++ y_outer y) (y_pending y) ev rest) as Hc.
    destruct (coalesce (y_pending y) ev) as [p out]. cbn [fst snd] in Hc. pose proof Hs as [E1 E2 E3]. constructor; cbn; try done.
    right. unfold total, waiting in *. cbn. rewrite Hq in *. destruct E1 as [[_ He]|(Ho & _ & Hone)].
    + apply app_nil in He as [_ [_ [_ He]%app_nil]%app_nil]. done.
    + rewrite <- app_assoc in Hc. destruct (Hc Hone) as [H1' H2']. split; [done|]. rewrite <- !app_assoc in *. split; [|done].
      intros (F1 & [F2 [F3 _]%app_nil]%app_nil)%app_nil. apply H2'. by rewrite F1, F2, F3.
Qed.

Lemma says_observe b now evs c w : says evs (face (observe_cancel b now c, w)) ↔ says evs (face (c, w)).
Proof. unfold observe_cancel. by destruct (c_deadline c), b. Qed.
Lemma sound_over y outer cw f : sound y → (∀ x, told (registry (y_world y)) x → told (registry cw.2) x) → outer = y_outer y →
  (∀ y, y_offered (f y) = y_offered y ∧ total (f y) = total y ∧ y_done (f y) = y_done y ∧ y_task (f y) = y_task y ∧
     face (y_conv (f y), y_world (f y)) = face (y_conv y, y_world y)) →
  sound (f (on_converter outer Over cw y)).
Proof.
  intros [E1 E2 [op E3]] Ht -> Hf. destruct (Hf (on_converter (y_outer y) Over cw y)) as (F1 & F2 & F3 & F4 & F5).
  eapply sound_same; [exact F1|exact F2|exact F3|exact F4|exact F5|]. constructor; [exact E1|done|]. exists op. by apply Ht.
Qed.
Lemma sound_convert io y : sound y → sound (convert_step io y).
Proof.
  intros Hs. pose proof Hs as [E1 E2 E3]. unfold convert_step. destruct (y_task y) eqn:Hk; [| |done].
  - constructor; [exact E1| |exact E3]. intros _. apply says_observe. by apply E2.
  - destruct (y_outer y) as [|ev rest] eqn:Ho; cbn [poll_event_with_cancel_grace].
    + destruct (negb (y_coalescing y)).
      { apply (sound_over y _ _ (λ y, y)); [done|intros x; apply told_leave|done|done]. }
      destruct (c_deadline (y_conv y)) as [dl|]; [|done]. destruct (dl <=? io_now io)%Z; [|done].
      apply (sound_over y _ _ abort_engine); [done| |done|done]. intros x Hx. apply told_leave. unfold interrupt. cbn [fst snd].
      destruct (c_session_uuid (y_conv y)); [|done]. by destruct (negb _).
    + assert (total y = (y_done y ++ [ev]) ++ rest ++ flush (y_pending y) ++ ch_queue (y_raw y)) as Htot
        by (unfold total, waiting; rewrite Ho; by rewrite <- !app_assoc).
      destruct E1 as [[_ He]|(Hof & Hne & Hone)]; [rewrite Htot in He; by apply app_nil in He as [[_ ?]%app_nil _]|].
      rewrite Htot in Hone. pose proof (says_convert io ev _ _ _ (E2 ltac:(done)) (one_session_prefix _ _ Hone)) as Hc.
      destruct (convert io ev (y_conv y, y_world y)) as [[c w] more]. cbn [fst snd] in *.
      assert (∀ k c', total (took ev (on_converter rest k (c', w) y)) = (y_done y ++ [ev]) ++ rest ++ flush (y_pending y) ++ ch_queue (y_raw y)) as Ht by done.
      pose proof (sy_told _ _ Hc) as Htold. cbn in Htold.
      destruct more; constructor; rewrite ?Ht; cbn [took on_converter y_offered y_task y_conv y_world y_done fst snd];
        try (right; split; [exact Hof|]; split; [by intros [[_ ?]%app_nil _]%app_nil|exact Hone]); try (by eexists); try done.
      intros _. by apply says_observe.
Qed.
Lemma offered_step a y : ∃ new, y_offered (step a y) = y_offered y ++ new.
Proof.
  destruct a; cbn [step]; try (exists []; by rewrite app_nil_r).
  - unfold offer. destruct (y_ended y); [exists []; by rewrite app_nil_r|]. destruct (send_async _ _) as [[c e]|]; [by eexists|exists []; by rewrite app_nil_r].
  - exists []. rewrite app_nil_r. unfold receive. destruct (negb _); [done|]. destruct (ch_queue _); [by destruct (y_ended y)|]. by destruct (coalesce _ _).
  - exists []. rewrite app_nil_r. unfold tick. by destruct (negb _).
  - exists []. rewrite app_nil_r. unfold convert_step. destruct (y_task y); try done.
    destruct (poll_event_with_cancel_grace _ _ _ _) as [[ev rest| |]|]; try done. by destruct (convert _ _ _) as [cw [|]].
Qed.
Lemma sound_step a y : flow y → sound y → one_session (y_offered (step a y)) → sound (step a y).
Proof.
  intros Hf Hs Ho. destruct a as [ev| | | |io| |k now|f]; cbn [step] in *.
  - by apply sound_offer.
  - by eapply sound_same; [..|exact Hs].
  - by apply sound_receive.
  - unfold tick. destruct (negb _); [done|]. eapply sound_same; [..|exact Hs]; try done. unfold total, waiting. cbn. by rewrite <- !app_assoc.
  - by apply sound_convert.
  - by eapply sound_same; [..|exact Hs].
  - destruct Hs as [E1 E2 [op E3]]. constructor; [exact E1| |exists op; by apply told_finished].
    intros Hk. destruct (E2 Hk) as [F1 F2 F3 F4 F5 F6 F7]. constructor; try done. by apply told_finished.
  - by eapply sound_same; [..|exact Hs].
Qed.
Lemma run_keeps acts y :
  flow y → sound y → one_session (y_offered (run acts y)) → flow (run acts y) ∧ sound (run acts y).
Proof.
  unfold run. intros Hf Hs. revert y Hf Hs. induction acts as [|a acts IH]; intros y Hf Hs Ho; [done|]. cbn [foldl] in *.
  apply IH; [by apply flow_step| |done]. apply sound_step; [done..|]. clear -Ho. revert Ho. generalize (step a y). induction acts as [|b acts IH]; [done|].
  intros z Ho. specialize (IH (step b z) Ho). destruct (offered_step b z) as [new Hn]. rewrite Hn in IH. by eapply one_session_prefix.
Qed.
End since.

Lemma told_since r x s : StreamRegistry.streams r !! key = Some s → told [] r x → told (StreamRegistry.sent s) r x.
Proof. intros Hs (s' & Hs' & Hok & Hr & _). rewrite Hs in Hs'. injection Hs' as <-. by exists s. Qed.
Lemma sound_since y s : StreamRegistry.streams (registry (y_world y)) !! key = Some s → sound [] y → sound (StreamRegistry.sent s) y.
Proof.
  intros Hs [E1 E2 [op E3]]. constructor; [exact E1| |exists op; by apply told_since]. intros Hk. destruct (E2 Hk) as [F1 F2 F3 F4 F5 F6 F7].
  constructor; try done. by apply told_since.
Qed.
Lemma sound_start client w token job boundary :
  StreamRegistry.streams (registry w) !! key = Some (StreamRegistry.fresh_stream token job boundary) →
  flow (start client w) ∧ sound [] (start client w).
Proof.
  intros Hw. assert (told [] (registry w) ([], None)) as Ht.
  { eexists. split; [exact Hw|]. split; [apply StreamRegistry.fresh_stream_ok|]. split; [done|apply prefix_nil]. }
  split; [by constructor|]. constructor; [by left| |by exists None]. intros _. constructor; try done.
Qed.
Lemma run_app acts1 acts2 y : run (acts1 ++ acts2) y = run acts2 (run acts1 y).
Proof. apply foldl_app. Qed.
Lemma path_run_snoc acts a y : run (acts ++ [a]) y = step a (run acts y).
Proof. apply run_app. Qed.
Lemma offered_run acts y : ∃ new, y_offered (run acts y) = y_offered y ++ new.
Proof.
  unfold run. revert y. induction acts as [|a acts IH]; intros y; [exists []; by rewrite app_nil_r|]. cbn [foldl].
  destruct (offered_step a y) as [n Hn]. destruct (IH (step a y)) as [m Hm]. exists (n ++ m). by rewrite Hm, Hn, app_assoc.
Qed.

(** ** The stored answer *)

#[local] Abbreviation Db := (Sessions.Db (V:=V)).
Definition content (id : Uuid) (d : Db) : option str := Sessions.m_content <$> Sessions.find_message id d.
Lemma read_content id d : read_streaming_content id d = default [] (content id d).
Proof. done. Qed.
Lemma content_messages id (d d' : Db) : Sessions.messages d' = Sessions.messages d → content id d' = content id d.
Proof. unfold content, Sessions.find_message. by intros ->. Qed.
Lemma content_touch id s now (d : Db) : content id (Sessions.touch_session_activity s now d) = content id d.
Proof.
  apply content_messages. unfold Sessions.touch_session_activity, Sessions.update_session.
  destruct (Sessions.sessions d !! s) as [r|]; [|done]. by destruct (_ && _).
Qed.
Lemma content_update id j (f : Sessions.MessageRow (V:=V) → Sessions.MessageRow) (d : Db) :
  (∀ m, Sessions.m_id (f m) = Sessions.m_id m) →
  content j (Sessions.update_messages (λ m, bool_decide (Sessions.m_id m = id)) f d) =
    if bool_decide (j = id) then (Sessions.m_content ∘ f) <$> Sessions.find_message j d else content j d.
Proof.
  intros Hf. unfold content, Sessions.find_message, Sessions.update_messages, Sessions.on_messages. cbn [Sessions.messages].
  induction (Sessions.messages d) as [|m l IH]; [by case_bool_decide|]. cbn [fmap list_fmap List.find].
  destruct (bool_decide_reflect (Sessions.m_id m = id)) as [Hm|Hm]; rewrite ?Hf; destruct (bool_decide_reflect (Sessions.m_id m = j)) as [Hj|Hj];
    try exact IH; subst.
  - by rewrite bool_decide_eq_true_2.
  - by rewrite bool_decide_eq_false_2.
Qed.
Lemma content_insert m j (d d' : Db) : Sessions.insert_message m d = Some d' →
  content (Sessions.m_id m) d = None ∧ content j d' = if bool_decide (j = Sessions.m_id m) then Some (Sessions.m_content m) else content j d.
Proof.
  unfold Sessions.insert_message. destruct (Sessions.sessions d !! _); [|done]. cbn [mbind option_bind].
  case_bool_decide as Hf; [done|]. destruct (negb _); [done|]. intros [= <-].
  assert (Sessions.find_message (Sessions.m_id m) d = None) as Hn by (destruct (Sessions.find_message _ d); [by destruct Hf|done]).
  split; [unfold content; by rewrite Hn|].
  etrans; [apply (content_messages j (Sessions.on_messages (λ l, l ++ [m]) d)); unfold Sessions.update_session;
    by destruct (Sessions.sessions d !! Sessions.m_session m)|].
  unfold content, Sessions.find_message in *. cbn [Sessions.on_messages Sessions.messages]. clear Hf. induction (Sessions.messages d) as [|x l IH]; cbn [app List.find] in *.
  - destruct (bool_decide_reflect (Sessions.m_id m = j)) as [<-|Hne]; [by rewrite bool_decide_eq_true_2|by rewrite bool_decide_eq_false_2].
  - destruct (bool_decide_reflect (Sessions.m_id x = Sessions.m_id m)) as [|Hx]; [done|].
    destruct (bool_decide_reflect (Sessions.m_id x = j)) as [<-|Hj]; [by rewrite bool_decide_eq_false_2|by apply IH].
Qed.
Lemma content_append id u delta tools now (d d' : Db) : upsert_streaming_append id u delta tools now d = Some d' →
  content id d' = Some (default [] (content id d) ++ delta) ∧ ∀ j, j ≠ id → content j d' = content j d.
Proof.
  unfold upsert_streaming_append. destruct (Sessions.find_message id d) as [m|] eqn:Hm; cbn [mbind option_bind].
  - intros [= <-]. split; [|intros j Hj]; rewrite content_touch, content_update by done; [|by rewrite bool_decide_eq_false_2].
    rewrite bool_decide_eq_true_2 by done. unfold content. by rewrite Hm.
  - cbv zeta. destruct (Sessions.insert_message _ d) as [d1|] eqn:Hi; [|done]. intros [= <-].
    split; [|intros j Hj]; rewrite content_touch; [|by rewrite (proj2 (content_insert _ j _ _ Hi)), bool_decide_eq_false_2].
    rewrite (proj2 (content_insert _ id _ _ Hi)). cbn [Sessions.m_id]. rewrite bool_decide_eq_true_2 by done. unfold content. by rewrite Hm.
Qed.
Lemma content_first id u text tools now (d d' : Db) : Sessions.upsert_streaming_message id u text tools now d = Some d' →
  content id d' = Some text ∧ ∀ j, j ≠ id → content j d' = content j d.
Proof.
  unfold Sessions.upsert_streaming_message. destruct (Sessions.find_message id d) as [m|] eqn:Hm; cbn [mbind option_bind].
  - intros [= <-]. split; [|intros j Hj]; rewrite content_touch, content_update by done; [|by rewrite bool_decide_eq_false_2].
    rewrite bool_decide_eq_true_2 by done. by rewrite Hm.
  - cbv zeta. destruct (Sessions.insert_message _ d) as [d1|] eqn:Hi; [|done]. intros [= <-].
    split; [|intros j Hj]; rewrite content_touch; [|by rewrite (proj2 (content_insert _ j _ _ Hi)), bool_decide_eq_false_2].
    rewrite (proj2 (content_insert _ id _ _ Hi)). cbn [Sessions.m_id]. by rewrite bool_decide_eq_true_2.
Qed.
Lemma content_finalize id j (d : Db) : j ≠ id → content j (Sessions.finalize_streaming_message id d) = content j d.
Proof.
  intros Hj. unfold content, Sessions.find_message, Sessions.finalize_streaming_message, Sessions.delete_messages, Sessions.on_messages.
  cbn [Sessions.messages]. generalize (Sessions.m_id <$> List.filter (λ m, bool_decide (Sessions.m_id m = id) && Sessions.streaming m) (Sessions.messages d)).
  intros gone. induction (Sessions.messages d) as [|m l IH]; [done|]. cbn [List.filter List.find].
  destruct (bool_decide_reflect (Sessions.m_id m = id)) as [Hm|Hm]; destruct (Sessions.streaming m); cbn [negb andb fmap list_fmap List.find Sessions.drop_parent Sessions.m_id];
    destruct (bool_decide_reflect (Sessions.m_id m = j)) as [He|He]; try done; by rewrite Hm in He.
Qed.

Context (fresh_inj : ∀ i j, fresh i = fresh j → i = j).
(** What was flushed and what was not yet are the text of the answer. *)
Record row_ok evs (c : Conv) (d : Db) : Prop := mkRowOk {
  ro_text : default [] (content (c_msg_id c) d) ++ c_text c = turn_text evs;
  ro_tools : c_tools c = turn_tools evs;
  ro_id : ∃ k, c_msg_id c = fresh k ∧ c_fresh c = S k;
  ro_fresh : ∀ k, c_fresh c ≤ k → content (fresh k) d = None;
}.
Lemma turn_text_snoc evs ev : turn_text (evs ++ [ev]) = match ev with TextDelta s => turn_text evs ++ s | Finish _ _ => [] | _ => turn_text evs end.
Proof. unfold turn_text. by rewrite foldl_app. Qed.
Lemma turn_history evs : (foldl turn_step ([], []) evs).1 = (shows evs).1.
Proof.
  induction evs as [|ev evs IH] using rev_ind; [done|]. rewrite shows_snoc, foldl_app. cbn [foldl]. unfold turn_step at 1. cbn [fst]. rewrite IH. by destruct ev.
Qed.
Lemma turn_tools_snoc evs ev : turn_tools (evs ++ [ev]) =
  match ev with
  | ToolResult id result => turn_tools evs ++ [tool_entry id (default [] (fst <$> call_of id (shows evs).1)) result]
  | Finish _ _ => []
  | _ => turn_tools evs
  end.
Proof. unfold turn_tools. rewrite foldl_app. cbn [foldl]. unfold turn_step at 1. cbn [snd]. by rewrite turn_history. Qed.
Lemma send_same frame c w : ∃ cl r, send_and_buffer frame (c, w) = (with_client cl c, on_registry (λ _, r) w).
Proof. destruct (send_spec [] frame c w) as (cl & r & Hs & _). by exists cl, r. Qed.
Lemma send_opt_same f c w : ∃ cl r, send_opt f (c, w) = (with_client cl c, on_registry (λ _, r) w).
Proof. destruct f; [apply send_same|]. exists (c_client c), (registry w). destruct c, w. done. Qed.
Ltac sends_same :=
  repeat match goal with
  | |- context [send_and_buffer ?f (?c, ?w)] =>
      let cl := fresh "cl" in let r := fresh "r" in destruct (send_same f c w) as (cl & r & ->); cbn [fst snd]
  | |- context [send_opt ?f (?c, ?w)] =>
      let cl := fresh "cl" in let r := fresh "r" in destruct (send_opt_same f c w) as (cl & r & ->); cbn [fst snd]
  end.
Lemma close_same ev c w : ∃ wr cl r, close_block ev (c, w) = (with_client cl (on_writer (λ _, wr) c), on_registry (λ _, r) w) ∧
  tool_name_map wr = tool_name_map (c_writer c).
Proof.
  unfold close_block. destruct (is_text ev).
  - exists (c_writer c), (c_client c), (registry w). by destruct c, w.
  - unfold build_text_end_if_open. cbn [fst snd]. destruct (current_text_id (c_writer c)); sends_same; by eexists _, _, _.
Qed.
Lemma row_append io u tools evs c w w' : row_ok evs c (db w) → append_row io u tools c w = Some w' →
  row_ok evs (with_text [] c) (db w') ∧ content (c_msg_id c) (db w') = Some (turn_text evs) ∧ contents w' = contents w.
Proof.
  intros [E1 E2 (k & E3 & E4) E5]. unfold append_row. destruct (io_upsert io); [|done].
  destruct (upsert_streaming_append _ _ _ _ _ _) as [d|] eqn:Hu; [|done]. intros [= <-]. destruct (content_append _ _ _ _ _ _ _ Hu) as [Hc Ho].
  rewrite E1 in Hc. cbn. split; [|done]. constructor; cbn; [by rewrite Hc, app_nil_r|done|by exists k|].
  intros j Hj. rewrite Ho; [by apply E5|]. intros He. rewrite E3 in He. apply fresh_inj in He. lia.
Qed.
Lemma take_tools_same c : ∃ n cache, (take_tools c).1 = with_tools (c_tools c) n cache c.
Proof. unfold take_tools. destruct (build_tools_json _ _ _) as [[t n] ca]. by exists n, ca. Qed.
Lemma row_with_tools evs n cache c d : row_ok evs c d → row_ok evs (with_tools (c_tools c) n cache c) d.
Proof. by intros []. Qed.
Lemma row_flush io evs cw : row_ok evs cw.1 (db cw.2) → row_ok evs (flush_row io cw).1 (db (flush_row io cw).2).
Proof.
  intros Hr. unfold flush_row. destruct (c_session_uuid cw.1) as [u|]; [|done]. destruct (io_due io); [|done].
  destruct (take_tools_same cw.1) as (n & cache & Ht). destruct (take_tools cw.1) as [c tools]. cbn [fst] in Ht. subst c.
  apply (row_with_tools evs n cache) in Hr. destruct (append_row _ _ _ _ _) as [w'|] eqn:Ha; [|done]. by apply (row_append _ _ _ _ _ _ _ Hr Ha).
Qed.
(** After the last write the row is gone or stays; the rows to come are untouched. *)
Lemma row_persist io evs cw : row_ok evs cw.1 (db cw.2) →
  let cw' := persist_session io cw in
  (∃ n cache, cw'.1 = with_tools (c_tools cw.1) n cache cw.1) ∧ (∀ k, c_fresh cw.1 ≤ k → content (fresh k) (db cw'.2) = None) ∧
  (∀ u, c_session_uuid cw.1 = Some u → io_read io = true → io_set io = true → (∀ tools, is_Some (append_row io u tools cw.1 cw.2)) →
     contents cw'.2 !! x_job_id ctx = Some (turn_text evs, turn_tools evs)).
Proof.
  intros Hr. unfold persist_session. destruct (c_session_uuid cw.1) as [u|].
  2: { split; [|split; [apply (ro_fresh _ _ _ Hr)|done]]. exists (c_flushed cw.1), (c_cache cw.1). by destruct (cw.1). }
  unfold persist. destruct (take_tools_same cw.1) as (n & cache & Ht). destruct (take_tools cw.1) as [c tools]. cbn [fst] in Ht. subst c. cbn [fst snd].
  split; [by eexists _, _|]. apply (row_with_tools evs n cache) in Hr. pose proof Hr as [E1 E2 (k & E3 & E4) E5]. cbn in E2, E3, E4.
  set (c := with_tools (c_tools cw.1) n cache cw.1) in *. set (w := default cw.2 (append_row io u tools c cw.2)).
  assert (∀ k, c_fresh cw.1 ≤ k → content (fresh k) (db w) = None) as Hf.
  { unfold w. destruct (append_row io u tools c cw.2) as [w'|] eqn:Ha; [|done]. by apply (row_append _ _ _ _ _ _ _ Hr Ha). }
  split.
  - intros j Hj. assert (fresh j ≠ c_msg_id c) as Hne by (cbn; rewrite E3; intros He%fresh_inj; lia).
    destruct (io_delete io); cbn [on_db db]; [rewrite content_finalize by done|]; destruct (io_set io); cbn [set_content db]; by apply Hf.
  - intros u' [= <-] -> -> Hup. destruct (Hup tools) as [w1 Hw1]. assert (append_row io u tools c cw.2 = Some w1) as Ha by exact Hw1.
    destruct (row_append _ _ _ _ _ _ _ Hr Ha) as (_ & Hc & _). assert (w = w1) as -> by (unfold w; by rewrite Ha).
    assert (read_streaming_content (c_msg_id c) (db w1) = turn_text evs) as -> by (rewrite read_content; by rewrite Hc).
    rewrite <- E2. destruct (io_delete io); cbn; by rewrite lookup_insert_eq.
Qed.

Lemma row_other evs ev c d :
  is_text ev = false → (∀ id result, ev ≠ ToolResult id result) → (∀ why cont, ev ≠ Finish why cont) → row_ok evs c d → row_ok (evs ++ [ev]) c d.
Proof.
  intros Ht Hr Hf [E1 E2 E3 E4]. constructor; rewrite ?turn_text_snoc, ?turn_tools_snoc; try done; destruct ev; try done; exfalso; first [by eapply Hr|by eapply Hf].
Qed.
Lemma row_face evs c c' d : c_text c' = c_text c → c_tools c' = c_tools c → c_msg_id c' = c_msg_id c → c_fresh c' = c_fresh c → row_ok evs c d → row_ok evs c' d.
Proof. intros H1' H2' H3' H4' [E1 E2 E3 E4]. by constructor; rewrite ?H1', ?H2', ?H3', ?H4'. Qed.
Lemma row_first io u c w : row_ok [] c (db w) → row_ok [] c (db (write_first io u (c, w))).
Proof.
  intros Hr. pose proof Hr as [E1 E2 (k & E3 & E4) E5]. apply app_nil in E1 as [Hc Ht]. unfold write_first. destruct (io_upsert io); [|exact Hr].
  cbn [on_db db fst snd]. destruct (Sessions.upsert_streaming_message _ _ _ _ _ _) as [d|] eqn:Hu; cbn [default]; [|exact Hr].
  cbn [fst] in Hu. destruct (content_first _ _ _ _ _ _ _ Hu) as [H1' H2']. change (id d) with d. constructor; [by rewrite H1', Ht|done|by exists k|].
  intros j Hj. rewrite H2'; [by apply E5|]. rewrite E3. intros He%fresh_inj. lia.
Qed.
Lemma row_finish io why cont evs cw : row_ok evs cw.1 (db cw.2) →
  row_ok (evs ++ [Finish why cont]) (next_turn (persist_session io cw)).1 (db (next_turn (persist_session io cw)).2).
Proof.
  intros Hr. destruct (row_persist io evs cw Hr) as ((n & cache & Hc) & Hf & _). destruct (persist_session io cw) as [c2 w2]. cbn [fst snd] in Hc, Hf. subst c2.
  unfold next_turn. cbn. constructor; cbn; rewrite ?turn_text_snoc, ?turn_tools_snoc; [|done|by eexists|intros j Hj; apply Hf; lia].
  by rewrite app_nil_r, (Hf (c_fresh cw.1)).
Qed.
Lemma row_convert io ev evs c w :
  row_ok evs c (db w) → says [] evs (face (c, w)) → one_session (evs ++ [ev]) →
  (convert io ev (c, w)).2 = true → row_ok (evs ++ [ev]) (convert io ev (c, w)).1.1 (db (convert io ev (c, w)).1.2).
Proof.
  intros Hr Hs Ho. unfold convert. destruct (close_same ev c w) as (wr & cl & r & -> & Hn).
  assert (∀ f, row_ok evs (with_client cl (on_writer f c)) (db w)) as Hr' by (intros f; by apply (row_face _ c)).
  destruct ev as [k lim| | |text|id name batch|id args|id result|step why|card data|url media name|why cont|id q choices timeout|id name input timeout|id act md|agent|text| |];
    unfold send_pure; cbn [from_stream_event fst snd build_tool_input_start]; intros Hm; try done;
    try (sends_same; apply row_other; [done..|]; by apply (row_face _ c)).
  - assert (evs = []) as ->.
    { destruct evs as [|e evs]; [done|]. apply one_session_cons in Ho as [_ [_ [Hx _]%Forall_cons]%Forall_app]. done. }
    destruct Ho as [-> _]. rewrite key_uuid. sends_same. apply row_other; [done..|]. eapply row_face; [..|apply (row_first io sid)]; [| | | |eapply row_face; [..|exact Hr]]; done.
  - unfold build_text_delta. assert (∀ c2 w2, c_text c2 = c_text c → c_tools c2 = c_tools c → c_msg_id c2 = c_msg_id c → c_fresh c2 = c_fresh c → db w2 = db w →
      row_ok (evs ++ [TextDelta text]) (flush_row io (with_text (c_text c2 ++ text) c2, w2)).1 (db (flush_row io (with_text (c_text c2 ++ text) c2, w2)).2)) as Hflush.
    { intros c2 w2 F1 F2 F3 F4 F5. apply row_flush. cbn [fst snd]. destruct Hr as [E1 E2 E3 E4].
      constructor; rewrite ?turn_text_snoc, ?turn_tools_snoc; cbn; rewrite ?F1, ?F2, ?F3, ?F4, ?F5; try done. by rewrite app_assoc, E1. }
    destruct (current_text_id _); sends_same; by apply Hflush.
  - sends_same. destruct Hr as [E1 E2 E3 E4]. constructor; rewrite ?turn_text_snoc, ?turn_tools_snoc; cbn; try done.
    unfold tool_name_for. cbn. by rewrite Hn, E2, (sy_names _ _ _ Hs).
  - unfold build_text_end_if_open. destruct (current_text_id _); cbn [fst snd build_finish]; sends_same; apply row_finish; by apply (row_face _ c).
  - revert Hm. sends_same. by destruct (persist_session io _).
Qed.

Definition rows y : Prop := y_task y ≠ Over → row_ok (y_done y) (y_conv y) (db (y_world y)).
(** The other writers leave the rows of the converter alone. *)
Definition leaves_rows (a : Action) : Prop := match a with AWrite f => ∀ k d, content (fresh k) (f d) = content (fresh k) d | _ => True end.
Lemma path_rows_same y y' : y_done y' = y_done y → y_conv y' = y_conv y → y_world y' = y_world y → y_task y' = y_task y → rows y → rows y'.
Proof. unfold rows. by intros -> -> -> ->. Qed.
Lemma rows_convert io y : sound [] y → rows y → rows (convert_step io y).
Proof.
  intros [E1 E2 _] Hr. unfold convert_step. destruct (y_task y) eqn:Hk; [| |unfold rows; by rewrite Hk].
  - intros _. cbn. eapply row_face; [..|apply Hr; by rewrite Hk]; unfold observe_cancel; by destruct (c_deadline _), (y_cancelled y).
  - destruct (y_outer y) as [|ev rest] eqn:Ho; cbn [poll_event_with_cancel_grace].
    + destruct (negb _); [done|]. destruct (c_deadline _) as [dl|]; [|done]. by destruct (dl <=? io_now io)%Z.
    + destruct E1 as [[_ He]|(_ & _ & Hone)]; [unfold total, waiting in He; rewrite Ho in He; by apply app_nil in He as [_ ?]|].
      unfold total, waiting in Hone. rewrite Ho in Hone. change ((ev :: rest) ++ flush (y_pending y) ++ ch_queue (y_raw y)) with ([ev] ++ rest ++ flush (y_pending y) ++ ch_queue (y_raw y)) in Hone.
      rewrite app_assoc in Hone. pose proof (row_convert io ev _ _ _ (Hr ltac:(by rewrite Hk)) (E2 ltac:(done)) (one_session_prefix _ _ Hone)) as Hc.
      destruct (convert io ev _) as [[c w] [|]]; [|done]. intros _. cbn in *. eapply row_face; [..|by apply Hc]; unfold observe_cancel; by destruct (c_deadline _), (y_cancelled y).
Qed.
Lemma rows_step a y : leaves_rows a → sound [] y → rows y → rows (step a y).
Proof.
  intros Ha Hs Hr. destruct a as [ev| | | |io| |k now|f]; cbn [step].
  - unfold offer. destruct (y_ended y); [done|]. by destruct (send_async _ _) as [[c e]|].
  - done.
  - unfold receive. destruct (negb _); [done|]. destruct (ch_queue _); [by destruct (y_ended y)|]. by destruct (coalesce _ _).
  - unfold tick. by destruct (negb _).
  - by apply rows_convert.
  - done.
  - done.
  - intros Hk. destruct (Hr Hk) as [E1 E2 (k & E3 & E4) E5]. cbn in *. constructor; [|done|by exists k|]; cbn.
    + by rewrite E3, Ha, <- E3.
    + intros j Hj. by rewrite Ha, E5.
Qed.
Lemma rows_run acts y : Forall leaves_rows acts → flow y → sound [] y → rows y → one_session (y_offered (run acts y)) → rows (run acts y).
Proof.
  revert y. induction acts as [|a acts IH]; intros y Ha Hf Hs Hr Ho; [done|]. apply Forall_cons in Ha as [Ha Hall].
  change (run (a :: acts) y) with (run acts (step a y)) in *. assert (one_session (y_offered (step a y))) as Ho1.
  { destruct (offered_run acts (step a y)) as [new Hn]. rewrite Hn in Ho. by eapply one_session_prefix. }
  apply IH; [done|by apply flow_step|by apply sound_step|by apply rows_step|done].
Qed.

(** C10: The answer that is stored is whole.  Take a run in which the engine
    announces the session first and once, and in which the other writers leave
    the content of the converter's own rows alone, whatever else they change
    (they may not delete these rows, as the deletion of a session or of its
    messages would).  As long as the converter runs, the row of the
    answer holds a beginning of its text, also when flushes failed.  When the
    answer ends, or an error ends the stream, and the database takes the last
    write, reads it back and takes the content of the job, the job gets all of
    the text and all of the tool results, with the names of their calls. *)
(* @prop functional defs=upsert_streaming_append,persist,flush_row,next_turn,convert,set_content,read_streaming_content witness=SseWitness.stored_witness *)
Theorem stored_reply_complete acts client w token job boundary :
  StreamRegistry.streams (registry w) !! key = Some (StreamRegistry.fresh_stream token job boundary) →
  (∀ k, content (fresh k) (db w) = None) → Forall leaves_rows acts →
  let y := run acts (start client w) in let c := y_conv y in
  one_session (y_offered y) → y_task y = Running →
  (default [] (content (c_msg_id c) (db (y_world y)))) `prefix_of` turn_text (y_done y) ∧
  ∀ io ev rest, y_outer y = ev :: rest → (match ev with Finish _ _ | ErrorEvent _ => True | _ => False end) →
    io_upsert io = true → io_read io = true → io_set io = true →
    (∀ tools, is_Some (upsert_streaming_append (c_msg_id c) sid (c_text c) tools (io_now io) (db (y_world y)))) →
    contents (y_world (step (AConvert io) y)) !! x_job_id ctx = Some (turn_text (y_done y), turn_tools (y_done y)).
Proof.
  intros Hw Hn Ha y c Ho Hk. destruct (sound_start client w _ _ _ Hw) as [Hf Hs].
  assert (rows y) as Hr.
  { apply rows_run; try done. intros _. constructor; cbn; [by rewrite Hn|done|by exists 0|]. intros k _. apply Hn. }
  destruct (run_keeps [] acts _ Hf Hs Ho) as [_ [E1 E2 _]]. specialize (Hr ltac:(by rewrite Hk)). fold y in E1, E2. specialize (E2 ltac:(by rewrite Hk)).
  split; [rewrite <- (ro_text _ _ _ Hr); by apply prefix_app_r|].
  intros io ev rest Hout Hev Hup Hread Hset Htake. cbn [step]. unfold convert_step. rewrite Hk, Hout. cbn [poll_event_with_cancel_grace].
  assert (y_done y ≠ []) as Hne.
  { intros He. destruct E1 as [[_ Ht]|(_ & _ & Ht)]; unfold total, waiting in Ht; rewrite He, Hout in Ht; by destruct ev. }
  assert (c_session_uuid c = Some sid) as Hsid by (pose proof (sy_uuid _ _ _ E2) as Hu; cbn in Hu; by destruct (y_done y)).
  assert (c_session_id_str c = Some key) as Hkey by (pose proof (sy_session _ _ _ E2) as Hu; cbn in Hu; by destruct (y_done y)).
  assert (∀ c2 w2, c_text c2 = c_text c → c_tools c2 = c_tools c → c_msg_id c2 = c_msg_id c → c_fresh c2 = c_fresh c → c_session_uuid c2 = c_session_uuid c →
    db w2 = db (y_world y) → contents (persist_session io (c2, w2)).2 !! x_job_id ctx = Some (turn_text (y_done y), turn_tools (y_done y))) as Hp.
  { intros c2 w2 F1 F2 F3 F4 F5 F6. destruct (row_persist io (y_done y) (c2, w2)) as (_ & _ & Hq); [cbn; rewrite F6; by eapply row_face|].
    apply (Hq sid); [cbn; by rewrite F5|done|done|]. intros tools. unfold append_row. cbn [fst snd]. rewrite Hup, F1, F3, F6. apply fmap_is_Some, Htake. }
  unfold convert. destruct (close_same ev (y_conv y) (y_world y)) as (wr & cl & r & -> & _).
  destruct ev as [| | | | | | | | | |why cont| | | | |text| |]; try done.
  - unfold build_text_end_if_open. destruct (current_text_id _); cbn [fst snd build_finish]; sends_same;
      match goal with |- context [next_turn (persist_session ?i ?x)] => pose proof (Hp x.1 x.2 eq_refl eq_refl eq_refl eq_refl eq_refl eq_refl) as Hq; destruct (persist_session i x) as [c2 w2] eqn:He end;
      cbn [fst snd] in Hq; rewrite He in Hq; exact Hq.
  - sends_same. cbn [with_client on_writer c_session_id_str]. fold c. rewrite Hkey.
    match goal with |- context [persist_session ?i ?x] => pose proof (Hp x.1 x.2 eq_refl eq_refl eq_refl eq_refl eq_refl eq_refl) as Hq; destruct (persist_session i x) as [c2 w2] eqn:He end.
    cbn [fst snd] in Hq. rewrite He in Hq. exact Hq.
Qed.

(** ** The end of a reader *)

Lemma terminal_frame frame : is_terminal (frame_text frame) = match frame with WFinish _ | WError _ => true | _ => false end.
Proof. unfold is_terminal. rewrite frame_type. by destruct frame. Qed.
Lemma live_done cutoff recv : (∀ e c, e ∈ recv → cutoff = Some c → (c < e.1)%Z) → (∃ e, e ∈ recv ∧ is_terminal e.2 = true) →
  Done ∈ live cutoff (Some <$> recv).
Proof.
  induction recv as [|[seq j] recv IH]; intros Hc (e & He & Ht); [by apply not_elem_of_nil in He|]. cbn [fmap list_fmap live].
  assert (match cutoff with Some c => (seq <=? c)%Z | None => false end = false) as ->.
  { destruct cutoff as [c|]; [|done]. apply Z.leb_gt. apply (Hc (seq, j) c); [by left|done]. }
  destruct (is_terminal j) eqn:Hj; [by right; left|]. apply elem_of_cons in He as [->|He]; [cbn in Ht; by rewrite Hj in Ht|].
  right. apply IH; [intros e' c He'; apply Hc; by right|by exists e].
Qed.
Lemma send_pushed frame c w s : c_session_id_str c = Some key → StreamRegistry.streams (registry w) !! key = Some s →
  StreamRegistry.streams (registry (send_and_buffer frame (c, w)).2) !! key = Some (StreamRegistry.push_stream (V:=V) (frame_text frame) s).
Proof.
  intros Hk Hs. unfold send_and_buffer. rewrite Hk. unfold StreamRegistry.push_event. rewrite Hs. cbn. by rewrite lookup_insert_eq.
Qed.
Definition terminal ev : Prop := match ev with Finish _ _ | ErrorEvent _ => True | _ => False end.
Lemma close_pushed ev c w s : c_session_id_str c = Some key → StreamRegistry.streams (registry w) !! key = Some s →
  ∃ s' new, StreamRegistry.streams (registry (close_block ev (c, w)).2) !! key = Some s' ∧ StreamRegistry.sent s' = StreamRegistry.sent s ++ new.
Proof.
  intros Hk Hs. unfold close_block. destruct (is_text ev); [exists s, []; by rewrite app_nil_r|].
  unfold build_text_end_if_open. cbn [fst snd]. destruct (current_text_id _); cbn [send_opt]; [|exists s, []; by rewrite app_nil_r].
  erewrite send_pushed; [|done..]. by eexists _, [_].
Qed.
Lemma terminal_pushed io ev c w s : terminal ev → c_session_id_str c = Some key → StreamRegistry.streams (registry w) !! key = Some s →
  ∃ s' new e, StreamRegistry.streams (registry (convert io ev (c, w)).1.2) !! key = Some s' ∧
    StreamRegistry.sent s' = StreamRegistry.sent s ++ new ++ [e] ∧ is_terminal e.2 = true.
Proof.
  intros Ht Hk Hs. destruct (close_pushed ev c w s Hk Hs) as (s1 & new & Hs1 & Hn1). unfold convert.
  assert (current_text_id (c_writer (close_block ev (c, w)).1) = None ∧ c_session_id_str (close_block ev (c, w)).1 = Some key) as [Hcl Hk1].
  { unfold close_block. destruct ev; try done; unfold build_text_end_if_open; cbn [is_text fst snd]; destruct (current_text_id (c_writer c)) eqn:Hid; cbn [send_opt]; sends_same; done. }
  destruct (close_block ev (c, w)) as [c1 w1]. cbn [fst snd] in *. destruct ev as [| | | | | | | | | |why cont| | | | |text| |]; try done.
  - unfold build_text_end_if_open. rewrite Hcl. cbn [send_opt fst snd build_finish].
    match goal with |- context [send_and_buffer ?f (?c2, ?w2)] => pose proof (send_pushed f c2 w2 s1 Hk1 Hs1) as Hp; set (cw := send_and_buffer f (c2, w2)) in * end.
    assert (registry (next_turn (persist_session io cw)).2 = registry cw.2) as ->.
    { pose proof (face_next (persist_session io cw)) as Hf. rewrite face_persist in Hf. by injection Hf. }
    eexists _, new, _. split; [exact Hp|]. split; [cbn; by rewrite Hn1, <- app_assoc|]. cbn [snd]. by rewrite terminal_frame.
  - pose proof (send_pushed (build_error text) c1 w1 s1 Hk1 Hs1) as Hp. destruct (send_same (build_error text) c1 w1) as (cl & r & He). rewrite He in *.
    cbn [with_client c_session_id_str fst snd]. rewrite Hk1. destruct (persist_session io _) as [c2 w2] eqn:Hq.
    pose proof (face_persist io (with_client cl c1, on_registry (StreamRegistry.mark_error key text (io_now io)) (on_registry (λ _, r) w1))) as Hf.
    rewrite Hq in Hf. injection Hf as _ _ _ Hf. cbn in *. rewrite Hf. unfold StreamRegistry.mark_error, StreamRegistry.set_finished_state. rewrite Hp. cbn.
    rewrite lookup_insert_eq. eexists _, new, _. split; [done|]. cbn. split; [by rewrite Hn1, <- app_assoc|]. exact (terminal_frame (WError text)).
Qed.

Lemma later_ids s1 s2 l i e : StreamRegistry.stream_ok (V:=V) s1 → StreamRegistry.stream_ok (V:=V) s2 →
  StreamRegistry.sent s2 = StreamRegistry.sent s1 ++ l → i ∈ (StreamRegistry.events s1).*1 → e ∈ l → (i < e.1)%Z.
Proof.
  intros E1 E2 Hl Hi He. apply (StreamRegistry.ok_ids _ E1) in Hi. pose proof (StreamRegistry.ok_sent _ E2) as Hids.
  rewrite Hl, fmap_app in Hids. apply list_elem_of_lookup in He as [k Hk].
  assert (((fst <$> StreamRegistry.sent s1) ++ (fst <$> l)) !! (length (StreamRegistry.sent s1) + k) = Some e.1) as Hlk.
  { rewrite lookup_app_r by (rewrite length_fmap; lia). rewrite length_fmap, list_lookup_fmap.
    replace (length (StreamRegistry.sent s1) + k - length (StreamRegistry.sent s1)) with k by lia. by rewrite Hk. }
  rewrite Hids in Hlk. apply lookup_seqZ in Hlk as [-> _]. pose proof (StreamRegistry.ok_next _ E1). lia.
Qed.

(** The frames of the stream among what is sent to a reader. *)
Definition numbered (l : list Outgoing) : list str :=
  omap (λ o, match o with Event (Some _) d => Some d | _ => None end) l.
Fixpoint until_terminal (l : list str) : list str :=
  match l with [] => [] | j :: l => if is_terminal j then [j] else j :: until_terminal l end.

Lemma numbered_app l k : numbered (l ++ k) = numbered l ++ numbered k.
Proof. apply omap_app. Qed.
Lemma numbered_events (l : list (Z * str)) : numbered ((λ e, Event (Some e.1) e.2) <$> l) = l.*2.
Proof. induction l as [|[i j] l IH]; [done|]. cbn. by f_equal. Qed.
Lemma numbered_live cutoff recv : (∀ e c, e ∈ recv → cutoff = Some c → (c < e.1)%Z) →
  numbered (live cutoff (Some <$> recv)) = until_terminal recv.*2.
Proof.
  induction recv as [|[seq j] recv IH]; intros Hc; [done|]. cbn [fmap list_fmap live].
  assert (match cutoff with Some c => (seq <=? c)%Z | None => false end = false) as ->.
  { destruct cutoff as [c|]; [|done]. apply Z.leb_gt. apply (Hc (seq, j) c); [by left|done]. }
  cbn [snd until_terminal]. destruct (is_terminal j); [done|]. cbn. f_equal. apply IH.
  intros e c He. apply Hc. by right.
Qed.
Lemma until_terminal_spec l :
  if existsb is_terminal l
  then ∃ pre j post, l = pre ++ j :: post ∧ is_terminal j = true ∧ until_terminal l = pre ++ [j]
  else until_terminal l = l.
Proof.
  induction l as [|j l IH]; [done|]. cbn [existsb until_terminal]. destruct (is_terminal j) eqn:Hj; cbn [orb].
  - by exists [], j, l.
  - destruct (existsb is_terminal l); [|by rewrite IH]. destruct IH as (pre & j' & post & -> & Hj' & ->).
    by exists (j :: pre), j', post.
Qed.

(** What lies below a frame stays as it is. *)
Lemma put_above s j below out : SFrame j :: below `suffix_of` out → SFrame j :: below `suffix_of` put s out.
Proof.
  destruct s as [|c s]; [done|]. intros [k ->]. destruct k as [|[t|f] k]; cbn.
  - by exists [SText (c :: s)].
  - by exists (SText (t ++ c :: s) :: k).
  - by exists (SText (c :: s) :: SFrame f :: k).
Qed.
Lemma read_none l : foldl read_step None l = None.
Proof.
  induction l as [|x l IH]; [done|]. cbn [foldl]. unfold read_step at 2, read_delta, read_other. by destruct (StreamRegistry.view x) as [[]|].
Qed.
Lemma read_above j below frames : ∀ out open out' open',
  SFrame j :: below `suffix_of` out → foldl read_step (Some (out, open)) frames = Some (out', open') →
  SFrame j :: below `suffix_of` out'.
Proof.
  induction frames as [|f frames IH]; intros out open out' open' Hs; cbn [foldl]; [by intros [= <- <-]|].
  destruct (read_step (Some (out, open)) f) as [[out1 open1]|] eqn:Hr; [|by rewrite read_none].
  apply IH. revert Hr. unfold read_step, read_delta, read_other. cbn [mbind option_bind].
  destruct (StreamRegistry.view f) as [[id d]|].
  - case_bool_decide; [|done]. intros [= <- <-]. by apply put_above.
  - repeat case_match; intros Heq; simplify_eq; try exact Hs. by apply suffix_cons_r.
Qed.
Lemma read_terminal out open j x : is_terminal j = true → read_step (Some (out, open)) j = Some x → x = (SFrame j :: out, None).
Proof.
  unfold is_terminal, read_step, StreamRegistry.view, read_other. cbn [mbind option_bind].
  destruct (jparse j) as [v|]; [|done]. cbn [mbind option_bind].
  destruct (StreamRegistry.str_field "type" v) as [t|]; [|done]. cbn [mbind option_bind].
  intros [Ht%bool_decide_eq_true|Ht%bool_decide_eq_true]%orb_true_iff; subst t; cbn;
    (destruct open; [by repeat case_match|]); repeat case_match; intros; by simplify_eq.
Qed.

(** A reader of a stream that has sent [d] since it attached. *)
Lemma reader_sees s1 s2 d x1 op1 x2 op2 :
  StreamRegistry.stream_ok (V:=V) s1 → StreamRegistry.stream_ok (V:=V) s2 →
  reads (StreamRegistry.sent s1).*2 = Some (x1, op1) → reads (StreamRegistry.sent s2).*2 = Some (x2, op2) →
  StreamRegistry.sent s2 = StreamRegistry.sent s1 ++ d → StreamRegistry.truncated s1 = false →
  ∃ shown open,
    reads (numbered (attached (StreamRegistry.subscribe_stream s1) (Some <$> d))) = Some (shown, open) ∧
    if StreamRegistry.finished s1 then shown = x1
    else if existsb is_terminal d.*2
    then ∃ j said, shown = SFrame j :: said ∧ is_terminal j = true ∧ shown `suffix_of` x2
    else shown = x2.
Proof.
  intros Hok1 Hok2 Hr1 Hr2 Hd Ht.
  assert (∀ l, reads ((StreamRegistry.events s1).*2 ++ l) = foldl read_step (Some (x1, op1)) l) as Hbuf.
  { intros l. unfold reads. rewrite foldl_app. f_equal. change (reads (StreamRegistry.events s1).*2 = Some (x1, op1)).
    by rewrite <- Hr1, !read_render, (StreamRegistry.ok_render _ Hok1 Ht). }
  assert (foldl read_step (Some (x1, op1)) d.*2 = Some (x2, op2)) as Hrest.
  { rewrite <- Hr2, Hd, fmap_app. unfold reads in *. by rewrite foldl_app, Hr1. }
  unfold attached, StreamRegistry.subscribe_stream. cbn [StreamRegistry.sub_events StreamRegistry.sub_finished].
  rewrite !numbered_app, numbered_events. cbn [numbered omap list_omap app].
  destruct (StreamRegistry.finished s1).
  { exists x1, op1. split; [|done]. cbn. by rewrite Hbuf. }
  rewrite numbered_live.
  2: { intros e c He Hc. eapply later_ids; [exact Hok1|exact Hok2|exact Hd| |exact He].
    destruct (last (StreamRegistry.events s1)) as [[i j]|] eqn:Hl; [|done]. injection Hc as <-.
    apply list_elem_of_fmap. exists (i, j). split; [done|]. by apply last_Some_elem_of. }
  rewrite Hbuf. pose proof (until_terminal_spec d.*2) as Hu. destruct (existsb is_terminal d.*2).
  2: { exists x2, op2. by rewrite Hu. }
  destruct Hu as (pre & j & post & Hsplit & Hj & ->). rewrite Hsplit in Hrest. rewrite foldl_app in Hrest |- *. cbn [foldl] in *.
  destruct (foldl read_step (Some (x1, op1)) pre) as [[out open]|].
  2: { exfalso. revert Hrest. assert (read_step None j = None) as ->
         by (unfold read_step, read_delta, read_other; by destruct (StreamRegistry.view j) as [[]|]). by rewrite read_none. }
  destruct (read_step (Some (out, open)) j) as [x|] eqn:Hx; [|by rewrite read_none in Hrest].
  apply read_terminal in Hx as ->; [|exact Hj]. exists (SFrame j :: out), None. split; [done|].
  exists j, out. split_and!; [done..|]. eapply read_above; [|exact Hrest]. done.
Qed.

(** C9: A reader sees the turn.  Take any interleaving of the engine, the
    coalescer, the converter, the other writers and a cancellation, in which
    the engine announces the session first and once, and a client that attaches
    to the stream at any moment of it when the replay buffer is not truncated,
    and whose receiver then loses nothing.  The numbered frames that the
    handler sends to it can be read (every text frame lies in the block it
    names, no other frame inside one).  When the stream had ended, they say
    what the events taken up to then said.  Otherwise they say what the events
    taken so far say, up to the first finish or error after the moment it
    attached, with which they end.  Once all is taken, that is what the engine
    sent, of which only text can have been dropped.  What is sent before
    the announcement reaches no reader ([boot_error_is_silent]). *)
(* @prop refinement defs=convert,coalesce,send_async,send_and_buffer,build_text_delta,build_text_end_if_open,convert_step,receive,attached,live witness=SseWitness.reader_witness *)
Theorem reader_sees_turn acts1 acts2 client w token job boundary :
  StreamRegistry.streams (registry w) !! key = Some (StreamRegistry.fresh_stream token job boundary) →
  let y1 := run acts1 (start client w) in let y2 := run (acts1 ++ acts2) (start client w) in
  one_session (y_offered y2) →
  (∃ s1 s2, StreamRegistry.streams (registry (y_world y1)) !! key = Some s1 ∧
     StreamRegistry.streams (registry (y_world y2)) !! key = Some s2 ∧
     (StreamRegistry.truncated s1 = false →
        let sub := StreamRegistry.subscribe_stream s1 in
        let received := drop (StreamRegistry.sub_rx sub) (StreamRegistry.sent s2) in
        ∃ shown open, reads (numbered (attached sub (Some <$> received))) = Some (shown, open) ∧
        if StreamRegistry.finished s1 then shown = transcript (y_done y1)
        else if existsb is_terminal received.*2
        then ∃ j said, shown = SFrame j :: said ∧ is_terminal j = true ∧ shown `suffix_of` transcript (y_done y2)
        else shown = transcript (y_done y2))) ∧
  (y_coalescing y2 = false → y_outer y2 = [] → transcript (y_done y2) = transcript (y_accepted y2)) ∧
  List.filter not_text (y_accepted y2) = List.filter not_text (y_offered y2) ∧ y_accepted y2 `sublist_of` y_offered y2.
Proof.
  intros Hw y1 y2 Ho. destruct (sound_start client w _ _ _ Hw) as [Hf Hs]. assert (y2 = run acts2 y1) as Hy by apply run_app.
  destruct (offered_run acts2 y1) as [new Hnew]. rewrite Hy, Hnew in Ho.
  destruct (run_keeps [] acts1 _ Hf Hs (one_session_prefix _ _ Ho)) as [Hf1 Hs1]. fold y1 in Hf1, Hs1.
  destruct (so_told _ _ Hs1) as (op1 & s1 & Hk1 & Hok1 & Hr1 & _). rewrite <- Hnew in Ho.
  destruct (run_keeps _ acts2 y1 Hf1 (sound_since _ _ Hk1 Hs1) Ho) as [Hf2 Hs2]. rewrite <- Hy in Hf2, Hs2.
  split; [|split; [|split; [apply (fl_kept _ Hf2)|apply (fl_sub _ Hf2)]]].
  - destruct (so_told _ _ Hs2) as (op2 & s2 & Hk2 & Hok2 & Hr2 & [d Hd]). exists s1, s2. split; [done|]. split; [done|].
    intros Ht sub received. assert (received = d) as -> by (unfold received, sub; cbn; by rewrite Hd, drop_app_length).
    exact (reader_sees s1 s2 d _ _ _ _ Hok1 Hok2 Hr1 Hr2 Hd Ht).
  - intros Hc Hout. pose proof (fl_shows _ Hf2) as Hsh. unfold total, waiting in Hsh. destruct (fl_drained _ Hf2 Hc) as (Hp & Hq & _).
    rewrite Hout, Hp, Hq in Hsh. cbn [flush app] in Hsh. rewrite app_nil_r in Hsh. unfold transcript. by rewrite Hsh.
Qed.

(** C11: A reader is released.  Take a run in which the engine announces the
    session first and once, and a client that attaches to the stream at any
    moment of it and whose receiver then loses nothing.  If the converter still
    runs and its next event is a finish or an error, the handler has sent the
    client the end of its answer ([Done]) once that event is converted,
    however much was said in between.  An error before the announcement is
    not covered: it is pushed to no stream and releases nobody
    ([boot_error_is_silent]). *)
(* @prop liveness defs=live,is_terminal,attached,convert_step witness=SseWitness.released_witness *)
Theorem reader_is_released acts1 acts2 client w token job boundary io ev rest :
  StreamRegistry.streams (registry w) !! key = Some (StreamRegistry.fresh_stream token job boundary) →
  let y1 := run acts1 (start client w) in let y2 := run (acts1 ++ acts2) (start client w) in
  one_session (y_offered y2) → y_task y2 = Running → y_outer y2 = ev :: rest → terminal ev →
  ∃ s1 s3, StreamRegistry.streams (registry (y_world y1)) !! key = Some s1 ∧
    StreamRegistry.streams (registry (y_world (step (AConvert io) y2))) !! key = Some s3 ∧
    Done ∈ attached (StreamRegistry.subscribe_stream s1) (Some <$> drop (length (StreamRegistry.sent s1)) (StreamRegistry.sent s3)).
Proof.
  intros Hw y1 y2 Ho Hk Hout Hev. destruct (sound_start client w _ _ _ Hw) as [Hf Hs]. assert (y2 = run acts2 y1) as Hy by apply run_app.
  destruct (offered_run acts2 y1) as [new Hnew]. rewrite Hy, Hnew in Ho.
  destruct (run_keeps [] acts1 _ Hf Hs (one_session_prefix _ _ Ho)) as [Hf1 Hs1]. fold y1 in Hf1, Hs1.
  destruct (so_told _ _ Hs1) as (op1 & s1 & Hk1 & Hok1 & _). rewrite <- Hnew in Ho.
  destruct (run_keeps _ acts2 y1 Hf1 (sound_since _ _ Hk1 Hs1) Ho) as [Hf2 Hs2]. rewrite <- Hy in *.
  pose proof Hs2 as [Hst Hsay (op2 & s2 & Hk2 & Hok2 & _ & [d Hd])].
  exists s1. assert (c_session_id_str (y_conv y2) = Some key) as Hkey.
  { pose proof (sy_session _ _ _ (Hsay ltac:(by rewrite Hk))) as Hu. cbn in Hu. destruct (y_done y2) eqn:Hdn; [|done].
    destruct Hst as [[_ Ht]|(_ & _ & Ht)]; unfold total, waiting in Ht; rewrite Hdn, Hout in Ht; by destruct ev. }
  destruct (terminal_pushed io ev _ _ s2 Hev Hkey Hk2) as (s3 & new3 & e & Hk3 & Hd3 & Ht). exists s3. split; [done|].
  assert (StreamRegistry.streams (registry (y_world (step (AConvert io) y2))) !! key = Some s3) as Hk3'.
  { cbn [step]. unfold convert_step. rewrite Hk, Hout. cbn [poll_event_with_cancel_grace].
    change (y_conv y2, y_world y2) with ((y_conv y2, y_world y2)) in *. destruct (convert io ev _) as [[c3 w3] [|]]; exact Hk3. }
  split; [done|]. assert (StreamRegistry.sent s3 = StreamRegistry.sent s1 ++ d ++ new3 ++ [e]) as Hall by (rewrite Hd3, Hd; by rewrite <- app_assoc).
  assert (StreamRegistry.stream_ok (V:=V) s3) as Hok3.
  { assert (one_session (y_offered (step (AConvert io) y2))) as Ho3.
    { cbn [step]. unfold convert_step. rewrite Hk, Hout. cbn [poll_event_with_cancel_grace]. destruct (convert io ev _) as [cw [|]]; exact Ho. }
    destruct (so_told _ _ (sound_step _ (AConvert io) y2 Hf2 Hs2 Ho3)) as (op & s' & Hs' & Hok' & _). rewrite Hk3' in Hs'. by injection Hs' as <-. }
  rewrite Hall, drop_app_length. unfold attached, StreamRegistry.subscribe_stream.
  cbn [StreamRegistry.sub_events StreamRegistry.sub_finished]. do 3 (apply elem_of_app; right). destruct (StreamRegistry.finished s1); [by left|].
  apply live_done.
  - intros e' c He' Hc. eapply later_ids; [exact Hok1|exact Hok3|exact Hall| |exact He'].
    destruct (last (StreamRegistry.events s1)) as [[i j]|] eqn:Hl; [|done]. injection Hc as <-. apply list_elem_of_fmap. exists (i, j). split; [done|].
    by apply last_Some_elem_of.
  - exists e. split; [|done]. rewrite !elem_of_app. right. right. by left.
Qed.
End stream.

Module SseWitness.
#[local] Existing Instance JvText.json.
#[local] Existing Instance JvText.laws.
#[local] Existing Instance JvText.text.
Definition text_of (l : list (str * Jv.t)) : str := jprint (object (V:=Jv.t) l).
Lemma text_of_parse l : NoDup l.*1 → jparse (text_of l) = Some (object l).
Proof. intros _. apply jparse_jprint. Qed.
Definition uuid_of (s : str) : option Uuid := if bool_decide (s = bs "7") then Some 7%Z else None.
Definition ids (k : nat) : Uuid := (100 + Z.of_nat k)%Z.
Lemma ids_inj i j : ids i = ids j → i = j.
Proof. unfold ids. lia. Qed.
Definition ctx : ConverterCtx := mkCtx 10 (bs "Alice").
Definition some_card (v : Jv.t) : option Jv.t := match v with Jv.Obj _ => Some v | _ => None end.
#[local] Abbreviation go acts y := (run (V:=Jv.t) decZ uuid_of some_card some_card text_of ctx ids acts y).
#[local] Abbreviation says_ evs := (transcript (V:=Jv.t) decZ some_card some_card text_of ctx evs).

(** Session 7 runs; its stream is registered under its name, for job 10. *)
Definition registered : StreamRegistry.Registry :=
  (StreamRegistry.register_with_token (bs "7") 1 5%Z (Some 10%Z) 0%Z StreamRegistry.empty_registry).1.
Definition session_row : Sessions.SessionRow := Sessions.mkSession (bs "Alice") (bs "ann") (bs "web") None (Some (bs "running")) 0 None 0%Z.
Definition empty_db : Sessions.Db (V:=Jv.t) := Sessions.mkDb {[7%Z := session_row]} [] [] ∅ [].
Definition world : World (V:=Jv.t) := mkWorld empty_db ∅ registered.
Definition begin : Path (V:=Jv.t) := start ctx ids false world.
Definition io_at (now : Z) (due works : bool) : Io := mkIo now due works true true true true (λ n, (500 + Z.of_nat n)%Z).
Definition turn (now : Z) : Action (V:=Jv.t) := AConvert (io_at now false true).
Definition session : StreamEvent Jv.t := SessionId (bs "7") 1000.
Definition text (s : string) : StreamEvent Jv.t := TextDelta (bs s).
Definition fin : StreamEvent Jv.t := Finish (bs "stop") false.
Definition pass (evs : list (StreamEvent Jv.t)) : list (Action (V:=Jv.t)) := ev ← evs; [AOffer ev; AReceive].
Definition stream_of (y : Path (V:=Jv.t)) : option StreamRegistry.ActiveStream := StreamRegistry.streams (registry (y_world y)) !! bs "7".
Definition sent_of (y : Path (V:=Jv.t)) : list (Z * str) := default [] (StreamRegistry.sent <$> stream_of y).
Definition types_of (y : Path (V:=Jv.t)) : list (option str) := (λ e, jparse (V:=Jv.t) e.2 ≫= StreamRegistry.str_field "type") <$> sent_of y.

(** Text in three pieces, a tool call between, and the end. *)
Definition first_half : list (Action (V:=Jv.t)) :=
  pass [session; text "Let "; text "me look."] ++ [ATick] ++ replicate 3 (turn 100).
Definition second_half : list (Action (V:=Jv.t)) :=
  pass [ToolCallStart (bs "1") (bs "git") None; ToolCallArgs (bs "1") (bs "{}"); ToolResult (bs "1") (bs "clean"); text "All good."; fin] ++
  replicate 5 (turn 3000) ++ [AEnd; AReceive].
Definition whole : list (Action (V:=Jv.t)) := first_half ++ second_half.
Example frames_of_a_turn : types_of (go whole begin) =
  (λ t, Some (bs t)) <$> ["data-session-id"; "text-start"; "text-delta"; "text-end"; "tool-input-start"; "tool-input-delta"; "tool-input-available";
                          "tool-output-available"; "text-start"; "text-delta"; "text-end"; "finish"]%string.
Proof. vm_compute. reflexivity. Qed.
Lemma registered_stream : StreamRegistry.streams (registry world) !! bs "7" = Some (StreamRegistry.fresh_stream 1 10%Z 5%Z).
Proof. vm_compute. reflexivity. Qed.
Lemma offered_whole : one_session (V:=Jv.t) (bs "7") (y_offered (go whole begin)).
Proof. vm_compute. split; [reflexivity|]. repeat (constructor; [reflexivity|]). constructor. Qed.
(** The reader attaches in the middle of the first block and is released by
    the finish. *)
Lemma reader_witness : ∃ s1 s2, stream_of (go first_half begin) = Some s1 ∧ stream_of (go (first_half ++ second_half) begin) = Some s2 ∧
  ∃ shown open,
    reads (V:=Jv.t) (numbered (attached (V:=Jv.t) decZ text_of (StreamRegistry.subscribe_stream s1)
      (Some <$> drop (StreamRegistry.sub_rx (StreamRegistry.subscribe_stream s1)) (StreamRegistry.sent s2)))) = Some (shown, open) ∧
    ∃ j said, shown = SFrame j :: said ∧ is_terminal (V:=Jv.t) j = true ∧ shown `suffix_of` says_ (y_done (go (first_half ++ second_half) begin)).
Proof.
  destruct (reader_sees_turn (V:=Jv.t) decZ uuid_of some_card some_card text_of ctx ids text_of_parse (bs "7") 7%Z eq_refl first_half second_half false world
    1 10%Z 5%Z registered_stream offered_whole) as [(s1 & s2 & Hs1 & Hs2 & Hr) _].
  assert (stream_of (go first_half begin) = Some s1) as H1 by exact Hs1. assert (stream_of (go (first_half ++ second_half) begin) = Some s2) as H2 by exact Hs2.
  exists s1, s2. split; [exact H1|]. split; [exact H2|].
  assert ((λ s, (StreamRegistry.truncated s, StreamRegistry.finished s)) <$> stream_of (go first_half begin) = Some (false, false)) as Ht
    by (vm_compute; reflexivity).
  rewrite H1 in Ht. injection Ht as Ht Hfin. specialize (Hr Ht). cbv zeta in Hr. rewrite Hfin in Hr.
  assert (match stream_of (go first_half begin), stream_of (go (first_half ++ second_half) begin) with
    | Some s1, Some s2 => existsb (is_terminal (V:=Jv.t)) (drop (StreamRegistry.sub_rx (StreamRegistry.subscribe_stream s1)) (StreamRegistry.sent s2)).*2
    | _, _ => false
    end = true) as He by (vm_compute; reflexivity).
  rewrite H1, H2 in He. rewrite He in Hr. exact Hr.
Defined.
Definition before_end : list (Action (V:=Jv.t)) := take (length whole - 3) whole.
Lemma offered_before : one_session (V:=Jv.t) (bs "7") (y_offered (go before_end begin)).
Proof. vm_compute. split; [reflexivity|]. repeat (constructor; [reflexivity|]). constructor. Qed.
(** The flush of the second text fails; the last write makes up for it. *)
Lemma stored_witness : turn_text (V:=Jv.t) (y_done (go before_end begin)) = bs "Let me look.All good." ∧
  contents (y_world (go (before_end ++ [turn 3000]) begin)) !! 10%Z =
    Some (bs "Let me look.All good.", turn_tools (V:=Jv.t) (y_done (go before_end begin))).
Proof.
  assert (turn_text (V:=Jv.t) (y_done (go before_end begin)) = bs "Let me look.All good.") as Ht by (vm_compute; reflexivity).
  split; [exact Ht|].
  pose proof (stored_reply_complete (V:=Jv.t) decZ uuid_of some_card some_card text_of ctx ids text_of_parse (bs "7") 7%Z eq_refl ids_inj before_end false world
    1 10%Z 5%Z registered_stream) as Hs. cbv zeta in Hs.
  destruct Hs as [_ Hs]; [intros k; reflexivity| |exact offered_before|vm_compute; reflexivity|].
  { vm_compute. repeat (constructor; [exact I|]). constructor. }
  specialize (Hs (io_at 3000 false true) fin []). rewrite <- Ht.
  rewrite path_run_snoc.
  apply Hs; try reflexivity.
  intros tools. vm_compute. eexists. reflexivity.
Defined.
Lemma released_witness : ∃ s1 s3, stream_of (go first_half begin) = Some s1 ∧ stream_of (go (before_end ++ [turn 3000]) begin) = Some s3 ∧
  Done ∈ attached (V:=Jv.t) decZ text_of (StreamRegistry.subscribe_stream s1) (Some <$> drop (length (StreamRegistry.sent s1)) (StreamRegistry.sent s3)).
Proof.
  assert (before_end = first_half ++ drop (length first_half) before_end) as Hb by (vm_compute; reflexivity).
  pose proof offered_before as Ho. assert (y_task (go before_end begin) = Running) as Hk by (vm_compute; reflexivity).
  assert (y_outer (go before_end begin) = [fin]) as Hq by (vm_compute; reflexivity).
  rewrite path_run_snoc.
  rewrite Hb in Ho, Hk, Hq |- *.
  exact (reader_is_released (V:=Jv.t) decZ uuid_of some_card some_card text_of ctx ids text_of_parse (bs "7") 7%Z eq_refl first_half _ false world
    1 10%Z 5%Z (io_at 3000 false true) fin [] registered_stream Ho Hk Hq I).
Defined.

(** ** What else the path does *)

#[local] Abbreviation sees y received := (attached (V:=Jv.t) decZ text_of (StreamRegistry.subscribe_stream y) received).
Definition is_done (o : Outgoing) : bool := match o with Done => true | _ => false end.
Definition drained (n : nat) : list (Action (V:=Jv.t)) := replicate 3 AReceive ++ replicate n (turn 5000).
#[local] Abbreviation engine e := (engine_task (V:=Jv.t) decZ 7%Z 4000%Z e).
(** A turn that cannot start: its error is sent before the session is announced,
    so it reaches neither the registry nor the job. *)
Definition boot_fails : Path (V:=Jv.t) := go (engine (BootError (bs "no model")) ++ drained 4) begin.
Example boot_error_is_silent :
  y_done boot_fails = [ErrorEvent (bs "no model")] ∧ sent_of boot_fails = [] ∧
  StreamRegistry.jobs (registry (y_world boot_fails)) !! 10%Z = Some StreamRegistry.JobFinished.
Proof. vm_compute. split_and!; reflexivity. Qed.
(** A turn that fails: when the converter is quick, the engine's own mark comes
    last, and the job of the failed turn counts as finished. *)
Definition turn_fails : Path (V:=Jv.t) :=
  go (pass [session; ErrorEvent (bs "boom")] ++ replicate 3 (turn 100) ++ [AMarkFinished (bs "7") 4000]) begin.
Example failed_turn_finished :
  StreamRegistry.jobs (registry (y_world (go (pass [session; ErrorEvent (bs "boom")] ++ replicate 3 (turn 100)) begin))) !! 10%Z =
    Some (StreamRegistry.JobError (bs "boom")) ∧
  StreamRegistry.jobs (registry (y_world turn_fails)) !! 10%Z = Some StreamRegistry.JobFinished.
Proof. vm_compute. split; reflexivity. Qed.
(** A stop that comes while the converter waits for a silent engine: nothing wakes
    it, so the grace period never begins. *)
Definition wedged (now : Z) : Path (V:=Jv.t) := go (pass [session] ++ replicate 2 (turn 100) ++ [ACancel; turn now; turn (now + 100000)]) begin.
Example silent_engine_is_not_aborted : y_aborted (wedged 100000) = false ∧ c_deadline (y_conv (wedged 100000)) = None.
Proof. vm_compute. split; reflexivity. Qed.
(** With one more event it does begin, and the engine is aborted after a minute. *)
Definition aborted : Path (V:=Jv.t) :=
  go (pass [session; text "so "; MessageStart 3%Z] ++ replicate 3 (turn 100) ++ [ACancel; turn 200; turn 60100; turn 60200]) begin.
Example grace_aborts : y_aborted aborted = true ∧ types_of aborted = (λ t, Some (bs t)) <$> ["data-session-id"; "text-start"; "text-delta"; "text-end"; "start"]%string.
Proof. vm_compute. split; reflexivity. Qed.
(** Its readers are not told: no end was pushed, and the end that is sent goes to
    the closed channel of the request. *)
Example aborted_stream_hangs :
  (existsb is_done ∘ (λ s, sees s (Some <$> drop 1 (sent_of aborted))) <$> stream_of (go (pass [session] ++ replicate 2 (turn 100)) begin)) = Some false.
Proof. vm_compute. reflexivity. Qed.
(** The engine's task is gone after a flush: nothing is pending, so the row of the
    answer stays as it is, the job gets no content and the guard does nothing. *)
Definition flushed_then_gone : Path (V:=Jv.t) :=
  go (pass [session; text "half"] ++ [ATick; turn 100; turn 100; AConvert (io_at 3000 true true); AEnd; AReceive; turn 4000]) begin.
Example flushed_answer_is_lost :
  y_task flushed_then_gone = Over ∧ contents (y_world flushed_then_gone) !! 10%Z = None ∧ g_finalized (c_guard (y_conv flushed_then_gone)) = true ∧
  ((λ m, (Sessions.m_content m, Sessions.m_status m)) <$> Sessions.messages (db (y_world flushed_then_gone))) = [(bs "half", bs "streaming")].
Proof. vm_compute. split_and!; reflexivity. Qed.
(** The numbers of the blocks begin again with the next turn of the stream. *)
Definition two_turns : Path (V:=Jv.t) := go (pass [session; text "a"; fin; text "b"; fin] ++ replicate 6 (turn 100)) begin.
Example block_names_repeat :
  (λ e, jparse (V:=Jv.t) e.2 ≫= StreamRegistry.str_field "id") <$> List.filter (λ e, bool_decide (jparse (V:=Jv.t) e.2 ≫= StreamRegistry.str_field "type" = Some (bs "text-start"))) (sent_of two_turns) =
    [Some (bs "text-1"); Some (bs "text-1")].
Proof. vm_compute. reflexivity. Qed.
(** A job that the database still has as running was lost with the process. *)
Example detached_reader :
  (detached (V:=Jv.t) decZ text_of (Some (mkJobRow 10%Z (bs "running") (bs "half") None None))).2 = Some (10%Z, bs "stream lost: core restarted") ∧
  length (detached (V:=Jv.t) decZ text_of None).1 = 3.
Proof. vm_compute. split; reflexivity. Qed.
(** A full channel drops text, and holds back everything else. *)
Definition full_channel : Channel (V:=Jv.t) := mkChannel (replicate CAPACITY (text "x")) false.
Example only_text_is_dropped :
  send_async (V:=Jv.t) (text "y") full_channel = Some (full_channel, Some DroppedTextDelta) ∧ send_async (V:=Jv.t) fin full_channel = None ∧
  send (V:=Jv.t) fin full_channel = (full_channel, Some (FullNonText fin)).
Proof. vm_compute. split_and!; reflexivity. Qed.
End SseWitness.
